(* ===== verification/_CoqProject ===== *)
-Q . S2P
Prelude.v
GoStrings.v
GoURL.v
AptPath.v
DebVersion.v
Maps.v
Tables.v
Invariant.v
Snapshots.v
Suites.v
GC.v
Retention.v
Rows.v
Declared.v
Serving.v
Store.v
GoText.v
GoURLParse.v
Proxy.v
ReleaseParse.v
PackagesParse.v
SourcesParse.v
PackageIndex.v
SeedRejections.v
HTTPContent.v
MemberFetch.v
Fetch.v
ReleaseDate.v
Scheduler.v
Adoption.v
AdoptionSafety.v
AdoptionSound.v
Handler.v
HandlerLaws.v
HandlerSafety.v
HandlerRuns.v
RetryGate.v
Check.v
CheckLaws.v
CheckSafety.v
CheckRuns.v
HostSem.v
SuiteLocks.v
SingleFlight.v
FlipGate.v
Examples.v
AdoptionRuns.v
Reaper.v
ReaperLaws.v
ReaperSafety.v
ReaperRuns.v
Forgetting.v
Collectors.v
CollectorLaws.v
CollectorRuns.v
PoolScan.v
LegacyAudit.v
LegacyAuditLaws.v
LegacyAuditSafety.v
LegacyAuditRuns.v
