(* ===== verification/Prelude.v ===== *)
(** * Verification of apt-cacher-ultra

    apt-cacher-ultra is a caching proxy for Debian archives.  Clients' requests
    are parsed into an upstream file of a suite (src/internal/proxy, aptpath);
    a file is served from the blob pool when the cache database has it, and is
    fetched, stored and served otherwise (internal/handler, fetch, cache).  Of
    every suite the checker (internal/freshness) asks its upstream for new
    Releases, and a changed one is adopted: verified, its members fetched and
    checked against it, and made current by one transaction, after a barrier
    gave the clients of the old snapshot time to finish (internal/flipgate).
    A collector deletes what nothing needs (internal/gc, over internal/cache
    gc.go and gc_urlpath.go).

    ** What models what

    Each file is one component; Go names are kept where Rocq allows it, and the
    manifest beside the development maps every definition to its lines.

    - [Prelude]: results, the state-and-error monad of a transaction with
      Hoare triples, permutations and sorting.  [GoStrings], [GoURL],
      [GoText]: the parts of Go's strings, bytes, path, net/url, bufio,
      unicode and strconv the code uses.  [Maps]: updates and counts over
      finite maps.
    - internal/aptpath is [AptPath]; internal/debversion is [DebVersion].
    - internal/proxy (proxy.go, remap.go, url.go, classify.go) is [Proxy].
    - internal/cache: [Tables] has the tables as finite maps, the constraints
      and the statements; [Invariant] what every committed state satisfies;
      [Snapshots], [Suites], [GC], [Retention] and [Rows] the transactions, in
      the monad [T] (a transaction that fails changes nothing); [Store] the
      system: [operation] lists every transaction, [step] is the single writer
      that runs one, [reachable] any sequence of them.  [Declared] has the
      reads a request makes beside [Rows], [Serving] which of the tables'
      facets a request's statements leave alone.
    - internal/handler (handler.go, suite_rows.go, validators.go) is [Handler],
      from ServeHTTP to what a request leaves to goroutines;
      [SeedRejections] the map of refused suites, [HTTPContent] the part of
      http.ServeContent that answers conditions and ranges, [HandlerLaws] the
      rely-guarantee logic of a request, [HandlerSafety] what it may answer,
      [HandlerRuns] requests on a small archive.
    - internal/fetch is [Fetch]: the retry loop against a network that answers
      each numbered attempt as it likes, and a disk that may refuse a write.
    - internal/freshness: the parsers are [ReleaseParse], [PackagesParse] and
      [SourcesParse]; [PackageIndex] is what an adoption vouches for;
      [MemberFetch] one member; [ReleaseDate] the Date; [Adoption] the run
      (runShared), [AdoptionSafety] what a run may change, [AdoptionSound] what
      it has done when it answers, and how it may fail; [Scheduler] the
      queues and admission slots of the checker; [SuiteLocks] the suite locks
      and the count of adoptions in flight; [RetryGate] the failure record and
      what it holds back; [Check] one check of a suite (check.go,
      current_form.go, first_adoption.go, anchorless.go, probe.go, unsigned.go)
      and the attempt it starts, [CheckLaws] its Hoare logic and its ends,
      [CheckSafety] what a check may do, [CheckRuns] two checks; [Reaper] the
      reaper's run and POST /forget (reaper.go, forget.go, with the cache's
      suite_reap.go, flat_reap.go and marker_sweep.go), [ReaperLaws] its guard
      and budgets, [ReaperSafety] what it spares, [ReaperRuns] what it gets
      done, [Forgetting] what a forget does.  [LegacyAudit] is the audit of
      snapshots adopted by an older version that runs once at start-up
      (legacy_audit.go, over the cache's legacy_audit.go);
      [LegacyAuditLaws] what one batch's transaction changes,
      [LegacyAuditSafety] the judgement of one file and the loop,
      [LegacyAuditRuns] the whole run, and one on a small archive.
    - internal/gc is [Collectors]: the tick with its passes, deadline and
      rotation, the panic recovery, the unlinks, the scan of pool/ at the start
      and the goroutine, over the batches of [GC] and [Retention] and a tree of
      files; [CollectorLaws] its Hoare logic, what it spares and the rotation,
      [CollectorRuns] what a tick gets done, [PoolScan] what the scan removes,
      and the collector at work.
    - Concurrent components are transition systems, one step per critical
      section or channel operation: [HostSem] (internal/hostsem),
      [SingleFlight] (internal/handler singleflight.go), [FlipGate]
      (internal/flipgate), [SuiteLocks], and the loop of [Scheduler].
    - [Examples] and [AdoptionRuns] run the operations on a small archive, so
      that the theorems are seen to apply to states the program reaches.

    ** How components meet

    The single writer makes every cache transaction atomic, so the theorems of
    [Store] hold for any interleaving of the operations and any clock.  An
    adoption run acts on a world of database and pool files; its environment
    is a class ([MemberFetch]) that says, for the number of each event, what
    the upstream answers, which disk or database operation fails, what the
    clock says and when the run is cancelled - any function is allowed, so a
    theorem holds for every behaviour of it.  One of them is that a write is done
    and its caller is told of an error ([lost]): submitWrite gives up when the
    context ends or the cache closes, and the writer runs on.  The model does such
    a write at once; the writer may come to it a moment later.  [Adoption] takes
    the verifier, the decompressors, the barrier and the codes of details as
    classes too.  A run is modelled alone: other transactions between its steps
    are not in it, and what they may do to the database is what [Store] is about.

    A request is not alone.  Before each event of it [Handler] applies the
    function [others] of the class [Traffic], any change of the database and of
    the pool by other goroutines; a theorem names what it relies on them to
    keep ([others_keep]).  A call of the coalescing group either runs the
    fetch or gets the result of a run that another request leads ([Leader]): one
    that began at some other time, over the database, the pool and the refusals
    of its own start, and under that request's view of its suite; the theorem on
    packages says what it takes of that start.  The goroutines a request starts
    are the jobs in its state, run after it.  A request uses the cache through the
    same transactions as [Store], the parser of [Proxy], the verified writer
    of [MemberFetch].

    Neither is a check: before each of its events [Check] applies [meanwhile],
    any change by the others, and [slots], any change of the admission slots;
    [CheckSafety] names what it relies on (the suite's mutex keeps its row's
    stamps; nobody forgets a signature).  [Check.check_and_adopt] runs the
    adoption a check hands on, [Adoption.runShared], with its failure record.

    Nor is the reaper: the class [Around] has what the others do before each of
    its steps, what the clocks read, which hold is granted, which read fails,
    how each write ends ([fate]: refused, done, or done without an answer) and
    where a panic strikes.  Its statements are the transactions of [Suites].

    Nor is the collector: the class [Beside] has what the others do to the
    database and the pool before each of its steps, the clocks, how each write
    ends, which read, listing or unlink fails, where a panic strikes and when the
    process shuts down.  [CollectorLaws] names what it relies on them to keep;
    the class [Calm] of [CollectorRuns] is a world where nothing interferes.

    The audit is alone: it runs before anything serves, checks or collects.
    The class [Startup] has the clock, which read, file, removal or transaction
    fails at each step, and which snapshot's judgement panics.

    ** What the theorems show

    - Signed history and reachability ([Store]): no sequence of operations lets
      an unsigned snapshot follow a signed one, the constraints and reference
      counts hold in every reachable database, and no download begun under an
      old generation is stored.
    - Adoption ([AdoptionSound], [Snapshots], [MemberFetch], [PackageIndex]): a
      run that answers has flipped the suite to a snapshot of verified text whose
      rows are exactly its anchors, its members - each in the pool under hashes
      the text declares and its bytes have - and those it skipped; a failed run
      leaves everything served as it was, unless what failed is the answer of the
      commit itself, and then it has done all that.
    - Serving ([HandlerSafety], [Declared]): under any interference that keeps
      the declarations, and with every read of them answered, a package is
      answered only with the digest the signed current snapshots agree on (a
      joined fetch included, when it began under the same declarations); an
      adopted suite's metadata only from its snapshot; and under any interference
      at all a response is a file of the pool under its own digest or a
      classified error.
    - Checking ([CheckSafety], [RetryGate]): a check ends in one of a few ways,
      each with its stamps in the database unless a write failed, hands on only
      what has a slot and is not held back, and a suite with signed history has
      neither unsigned metadata adopted nor its bare index rows refreshed; a
      failure holds its content for the time its count says.
    - Reaping ([ReaperSafety], [ReaperRuns], [ReaperLaws], [Forgetting]): no
      number of runs takes the row of a suite that is in use, its cached metadata,
      or a marker of its base, as long as the others keep it in use; an adoption
      after the listing, or a request for a suite listed as idle, stops a reap; an
      undisturbed run takes every idle suite within its budget; between clocks that
      read sane times a forward step defers the runs, and a sweep does not count it
      into the age of a marker, but for an hour a run; an undisturbed forget opens
      the way for an unsigned adoption when no suite of the base is left.
    - The audit at start-up ([LegacyAuditRuns]): a run that ends well leaves
      no snapshot unjudged, and of those it took up only ones whose files were
      read and proved keep their standing, the others being quarantined; a run
      that nothing disturbs ends well; a lost pool stops the start-up, and
      changes nothing.
    - Collection ([GC], [Retention]): a batch deletes nothing current,
      referenced, retained or young, and what it should delete it does.
      ([CollectorLaws], [CollectorRuns], [PoolScan]): the scan at the start and
      any number of ticks, whatever fails, keep the blobs that the others keep
      needed and in the pool all along; while no write fails, every pass gets its
      turn, though one may panic every time; an undisturbed tick leaves nothing to collect and removes exactly the
      files of what it deleted, an undisturbed scan exactly the files of no row.
    - Parsing ([ReleaseParse], [PackagesParse], [SourcesParse], [DebVersion],
      [AptPath], [Proxy]): the loops compute their specifications, errors
      included, and what they answer is well formed.
    - Fetching ([Fetch]): a success is one whole copy, through any resumption,
      and the loop ends.
    - Concurrency ([HostSem], [SingleFlight], [FlipGate], [Scheduler],
      [SuiteLocks]): bounds, exclusion, one run per key, bounded holds, that no
      caller is stranded and no host starved, and that a host's longest waiter is
      served first.

    ** Bounds and fuel

    Integers are [Z]; times are Unix seconds in the database and nanoseconds
    where the code uses [time.Time]; the reaper's guard has the wrap-around of
    [time.Duration] ([Reaper.ran_ahead]).  The counters of the code stay far from
    2^63 for any database of a real size, so their wrap-around is written out
    only where the code guards against it (the parsers' sizes, the Date, the
    ranges of a fetch).  Recursion is structural wherever it can be (a list of
    lines, what is left of a string); the fetch loop has the fuel
    [fetch_fuel], one round per attempt that the retry limit allows, and
    [Fetch_returns] shows it is enough.  The reaper's batches have the number of
    paths, or of markers, as fuel: each takes at least one.  The loops of a
    collector's pass have a fuel of its user's; more than the rows there are is
    enough ([tick_collects]), and so is more than the steps to the deadline
    ([every_pass_gets_its_turn]).  The audit's loop has one round per batch;
    more rounds than there are queued snapshots is enough
    ([peaceful_audit_drains]).

    ** What is not modelled

    Sources outside src/ are parameters: SHA-256 and SHA-512, the OpenPGP
    verifier, gzip and xz, [url.Parse], the regular expressions of the
    allowlist and the remap rules, the HTTP client.  SQLite's evaluation of a
    statement is the statement over finite maps, its order of rows without
    ORDER BY is the class [TableScan].  Of a request and of a check, the
    timeouts are faults of the operations they bound, a panic is not
    modelled (one of the reaper is, while it holds a suite, and any of the
    collector), and a database error that wraps a cancelled context is any
    other database error.  The workers of the pool scan are one after the
    other: their jobs touch different files.  Left out, because they are input and
    output around the decisions modelled, or set-up: logs, metrics and the
    admin pages; TLS interception and certificates (proxy/connect.go, tlsmitm,
    servertls, acme, acmedns); process start-up (cmd); the key ring; the
    migrations of old databases.  The components of the manifest list each
    part with its reason. *)
From stdpp Require Export prelude gmap strings sorting.
From Stdlib Require Export Ascii ZArith Lia.

(** ** Outcomes of fallible operations *)

Inductive result (E A : Type) : Type :=
| Ok (a : A)
| Err (e : E).
Arguments Ok {E A} a.
Arguments Err {E A} e.

#[export] Instance result_ret E : MRet (result E) := λ A a, Ok a.
#[export] Instance result_bind E : MBind (result E) := λ A B f r,
  match r with Ok a => f a | Err e => Err e end.

(** ** The state-and-error monad of one database transaction *)

Definition M (S E A : Type) : Type := S → result E (A * S).

#[export] Instance M_ret S E : MRet (M S E) := λ A a s, Ok (a, s).
#[export] Instance M_bind S E : MBind (M S E) := λ A B f m s,
  match m s with Ok (a, s') => f a s' | Err e => Err e end.

Section monad.
Context {S E : Type}.

Definition mget : M S E S := λ s, Ok (s, s).
Definition mput (s : S) : M S E unit := λ _, Ok (tt, s).
Definition mmodify (f : S → S) : M S E unit := λ s, Ok (tt, f s).
Definition mfail {A} (e : E) : M S E A := λ _, Err e.
Definition massert (b : bool) (e : E) : M S E unit :=
  if b then mret tt else mfail e.

Fixpoint mfor {A} (f : A → M S E unit) (l : list A) : M S E unit :=
  match l with
  | [] => mret tt
  | x :: l => f x ≫= λ _, mfor f l
  end.

(** A loop that counts the rounds answering [true]. *)
Fixpoint mcount {A} (f : A → M S E bool) (l : list A) : M S E Z :=
  match l with
  | [] => mret 0%Z
  | x :: l => b ← f x; n ← mcount f l; mret (if b : bool then n + 1 else n)%Z
  end.

(** A transaction: the effects of [m] are kept when it succeeds and
    discarded when it fails. *)
Definition atomically {A} (m : M S E A) (s : S) : result E A * S :=
  match m s with
  | Ok (a, s') => (Ok a, s')
  | Err e => (Err e, s)
  end.

Lemma mbind_ok {A B} (m : M S E A) (f : A → M S E B) s b s' :
  (m ≫= f) s = Ok (b, s') ↔ ∃ a s1, m s = Ok (a, s1) ∧ f a s1 = Ok (b, s').
Proof.
  unfold mbind, M_bind. destruct (m s) as [[a s1]|e]; split.
  - intros H. eauto.
  - intros (a' & s1' & H1 & H2). by simplify_eq.
  - done.
  - intros (a' & s1' & H1 & H2). done.
Qed.

Lemma mget_bind {B} (f : S → M S E B) s : (mget ≫= f) s = f s s.
Proof. done. Qed.

Lemma massert_ok b e s u s' :
  massert b e s = Ok (u, s') ↔ b = true ∧ s' = s.
Proof.
  unfold massert. destruct b; unfold mret, M_ret, mfail; split; try done.
  - intros ?; by simplify_eq.
  - destruct u. by intros [_ ->].
  - by intros [? _].
Qed.

(** Hoare triples over successful runs. *)
Definition triple {A} (P : S → Prop) (m : M S E A) (Q : A → S → Prop) : Prop :=
  ∀ s a s', P s → m s = Ok (a, s') → Q a s'.

Lemma triple_bind {A B} P (m : M S E A) Q (f : A → M S E B) R :
  triple P m Q → (∀ a, triple (Q a) (f a) R) → triple P (m ≫= f) R.
Proof.
  intros Hm Hf s b s' HP (a & s1 & H1 & H2)%mbind_ok.
  eapply Hf; [|exact H2]. by eapply Hm.
Qed.

Lemma triple_seq {A B} (P Q : S → Prop) (m : M S E A) (f : A → M S E B) R :
  triple P m (λ _, Q) → (∀ a, triple Q (f a) R) → triple P (m ≫= f) R.
Proof. apply triple_bind. Qed.

Lemma triple_conseq {A} (P P' : S → Prop) (m : M S E A) (Q Q' : A → S → Prop) :
  triple P' m Q' → (∀ s, P s → P' s) → (∀ a s, Q' a s → Q a s) → triple P m Q.
Proof. intros H HP HQ s a s' ? ?. eapply HQ, H; eauto. Qed.

(** A loop keeps an invariant indexed by what it has processed. *)
Lemma triple_for {A} (I : list A → S → Prop) (f : A → M S E unit) l :
  (∀ done x, triple (I done) (f x) (λ _, I (done ++ [x]))) →
  triple (I []) (mfor f l) (λ _, I l).
Proof.
  intros Hf.
  cut (∀ l2 l1, triple (I l1) (mfor f l2) (λ _, I (l1 ++ l2))).
  { intros H s a s' HI Hrun. exact (H l [] s a s' HI Hrun). }
  induction l2 as [|x l2 IH]; intros l1 s a s' HI Hrun; simpl in Hrun.
  - unfold mret, M_ret in Hrun. simplify_eq. by rewrite app_nil_r.
  - apply mbind_ok in Hrun as (u & s1 & H1 & H2).
    replace (l1 ++ x :: l2) with ((l1 ++ [x]) ++ l2) by by rewrite <-app_assoc.
    eapply IH; [|exact H2]. by eapply Hf.
Qed.

Lemma triple_ret {A} (P : S → Prop) (a : A) : triple P (mret a) (λ _, P).
Proof. intros s b s' HP Hrun. unfold mret, M_ret in Hrun. by simplify_eq. Qed.

Lemma triple_get (P : S → Prop) : triple P mget (λ _, P).
Proof. intros s b s' HP Hrun. unfold mget in Hrun. by simplify_eq. Qed.

Lemma triple_fail {A} (P : S → Prop) (e : E) (Q : A → S → Prop) : triple P (mfail e) Q.
Proof. by intros s b s' HP Hrun. Qed.

Lemma triple_assert (P : S → Prop) b (e : E) : triple P (massert b e) (λ _, P).
Proof. by intros s u s' HP [_ ->]%massert_ok. Qed.

Lemma triple_for_inv {A} (I : S → Prop) (f : A → M S E unit) l :
  (∀ x, triple I (f x) (λ _, I)) → triple I (mfor f l) (λ _, I).
Proof.
  intros Hf. induction l as [|x l IH]; intros s a s' HI Hrun; simpl in Hrun.
  - unfold mret, M_ret in Hrun. by simplify_eq.
  - apply mbind_ok in Hrun as (u & s1 & H1 & H2). eapply IH; [|exact H2]. by eapply Hf.
Qed.

Lemma triple_count_inv {A} (I : S → Prop) (f : A → M S E bool) l :
  (∀ x, triple I (f x) (λ _, I)) → triple I (mcount f l) (λ _, I).
Proof.
  intros Hf. induction l as [|x l IH]; intros s a s' HI Hrun; simpl in Hrun.
  - unfold mret, M_ret in Hrun. by simplify_eq.
  - apply mbind_ok in Hrun as (b & s1 & H1 & H2).
    apply mbind_ok in H2 as (n & s2 & H2 & H3).
    unfold mret, M_ret in H3. simplify_eq. eapply IH; [|exact H2]. by eapply Hf.
Qed.

Lemma atomically_err {A} (m : M S E A) s e s' :
  atomically m s = (Err e, s') → s' = s.
Proof. unfold atomically. destruct (m s) as [[??]|?]; by intros [= ? ?]. Qed.

Lemma atomically_ok {A} (m : M S E A) s a s' :
  atomically m s = (Ok a, s') ↔ m s = Ok (a, s').
Proof.
  unfold atomically. destruct (m s) as [[??]|?]; split; intros ?; by simplify_eq.
Qed.
End monad.

Create HintDb wf.

(** Inversion of a successful run, statement by statement. *)
Ltac minv1 :=
  match goal with
  | H : mget _ = Ok _ |- _ => unfold mget in H; injection H as <- <-
  | H : mmodify _ _ = Ok _ |- _ => unfold mmodify in H; injection H as <- <-
  | H : mret _ _ = Ok _ |- _ => unfold mret, M_ret in H; injection H as <- <-
  | H : mfail _ _ = Ok _ |- _ => unfold mfail in H; discriminate H
  | H : massert _ _ _ = Ok _ |- _ => apply massert_ok in H as [H ->]
  | H : (_ ≫= _) _ = Ok _ |- _ =>
      let x := fresh "rv" in let s1 := fresh "st" in let H1 := fresh "Hrun" in
      apply mbind_ok in H as (x & s1 & H1 & H)
  end.
Ltac minv := repeat (minv1; cbn beta zeta in * ).

(** An invariant carried through a program statement by statement; what is
    left are the programs the hints of [wf] do not cover. *)
Ltac mkeep :=
  repeat first
    [ apply triple_ret | apply triple_get | apply triple_fail | apply triple_assert
    | solve [eauto 2 with wf]
    | lazymatch goal with
      | |- triple ?I (_ ≫= _) _ => apply (triple_seq I I); [|intros ?]
      | |- triple _ (match ?x with _ => _ end) _ => destruct x
      | |- triple _ (mfor _ _) _ => apply triple_for_inv; intros ?
      | |- triple _ (mcount _ _) _ => apply triple_count_inv; intros ?
      end
    | progress cbn beta zeta ].

(** Boolean tests that came out true or false, as propositions. *)
Ltac bclean :=
  repeat match goal with
  | H : bool_decide _ = true |- _ => apply bool_decide_eq_true in H
  | H : bool_decide _ = false |- _ => apply bool_decide_eq_false in H
  | H : (_ && _) = true |- _ => apply andb_true_iff in H as [? ?]
  | H : (_ || _) = false |- _ => apply orb_false_iff in H as [? ?]
  | H : negb _ = true |- _ => apply negb_true_iff in H
  | H : negb _ = false |- _ => apply negb_false_iff in H
  | H : (_ =? _)%string = true |- _ => apply String.eqb_eq in H
  | H : (_ =? _)%string = false |- _ => apply String.eqb_neq in H
  | H : (_ =? _)%Z = true |- _ => apply Z.eqb_eq in H
  | H : (_ =? _)%Z = false |- _ => apply Z.eqb_neq in H
  | H : (_ <? _)%Z = true |- _ => apply Z.ltb_lt in H
  | H : (_ <? _)%Z = false |- _ => apply Z.ltb_ge in H
  | H : (_ <=? _)%Z = true |- _ => apply Z.leb_le in H
  | H : (_ <=? _)%Z = false |- _ => apply Z.leb_gt in H
  end.

(** ** Lists *)

Lemma Permutation_filter_fun {A} (f : A → bool) (l k : list A) :
  l ≡ₚ k → List.filter f l ≡ₚ List.filter f k.
Proof.
  induction 1 as [|x l k _ IH|x y l|l k j _ IH1 _ IH2]; simpl.
  - done.
  - destruct (f x); [by constructor|done].
  - destruct (f x), (f y); try done. by constructor.
  - by etrans.
Qed.

(** Sorting by a boolean order. *)
Definition sort_by {A} (f : A → A → bool) (l : list A) : list A :=
  @merge_sort A (λ a b, f a b = true) (λ a b, decide (f a b = true)) l.

Lemma sort_by_perm {A} (f : A → A → bool) (l : list A) : sort_by f l ≡ₚ l.
Proof. apply merge_sort_Permutation. Qed.

Lemma elem_of_sort_by {A} (f : A → A → bool) (l : list A) x : x ∈ sort_by f l ↔ x ∈ l.
Proof. by rewrite sort_by_perm. Qed.

Lemma length_sort_by {A} (f : A → A → bool) (l : list A) :
  length (sort_by f l) = length l.
Proof. apply Permutation_length, sort_by_perm. Qed.

Lemma sort_by_sorted {A} (f : A → A → bool) (l : list A) :
  (∀ a b, f a b = true ∨ f b a = true) → Sorted (λ a b, f a b = true) (sort_by f l).
Proof. intros Ht. apply Sorted_merge_sort. intros a b. apply Ht. Qed.

(** Sorting reads its order only on the elements it sorts. *)
Section sort_ext.
Context {A} (f g : A → A → bool) (P : A → Prop).
Hypothesis Hfg : ∀ a b, P a → P b → f a b = g a b.

Definition merge_by (h : A → A → bool) : list A → list A → list A :=
  @list_merge A (λ a b, h a b = true) (λ a b, decide (h a b = true)).

Lemma merge_by_cons h x1 l1 x2 l2 :
  merge_by h (x1 :: l1) (x2 :: l2) =
  if h x1 x2 then x1 :: merge_by h l1 (x2 :: l2) else x2 :: merge_by h (x1 :: l1) l2.
Proof.
  unfold merge_by. simpl. destruct (decide (h x1 x2 = true)) as [->|Hn]; [done|].
  by apply not_true_iff_false in Hn as ->.
Qed.

Lemma merge_by_ext l1 l2 :
  Forall P l1 → Forall P l2 →
  merge_by f l1 l2 = merge_by g l1 l2 ∧ Forall P (merge_by f l1 l2).
Proof.
  revert l2. induction l1 as [|x1 l1 IH1]; intros l2; induction l2 as [|x2 l2 IH2]; intros H1 H2;
    try done.
  rewrite !merge_by_cons. pose proof H1 as [Hx1 H1']%Forall_cons.
  pose proof H2 as [Hx2 H2']%Forall_cons. rewrite <-(Hfg x1 x2) by done. destruct (f x1 x2).
  - destruct (IH1 (x2 :: l2) H1' H2) as [-> ?]. split; [done|by constructor].
  - destruct (IH2 H1 H2') as [-> ?]. split; [done|by constructor].
Qed.

Definition stack_P (st : list (option (list A))) : Prop :=
  Forall (λ o, match o with Some l => Forall P l | None => True end) st.

Lemma merge_stack_push st l :
  stack_P st → Forall P l →
  @merge_list_to_stack A (λ a b, f a b = true) (λ a b, decide (f a b = true)) st l =
  @merge_list_to_stack A (λ a b, g a b = true) (λ a b, decide (g a b = true)) st l ∧
  stack_P (@merge_list_to_stack A (λ a b, f a b = true) (λ a b, decide (f a b = true)) st l).
Proof.
  revert l. induction st as [|[l'|] st IH]; intros l Hst Hl; simpl.
  - split; [done|]. by repeat constructor.
  - apply Forall_cons in Hst as [Hl' Hst].
    destruct (merge_by_ext l' l Hl' Hl) as [E HP]. unfold merge_by in *. rewrite <-E.
    destruct (IH _ Hst HP) as [-> ?]. split; [done|by constructor].
  - apply Forall_cons in Hst as [_ Hst]. split; [done|by constructor].
Qed.

Lemma merge_stack_ext st :
  stack_P st →
  @merge_stack A (λ a b, f a b = true) (λ a b, decide (f a b = true)) st =
  @merge_stack A (λ a b, g a b = true) (λ a b, decide (g a b = true)) st ∧
  Forall P (@merge_stack A (λ a b, f a b = true) (λ a b, decide (f a b = true)) st).
Proof.
  induction st as [|[l|] st IH]; intros Hst; simpl; [done| |].
  - apply Forall_cons in Hst as [Hl Hst]. destruct (IH Hst) as [<- HP].
    by destruct (merge_by_ext l _ Hl HP).
  - apply Forall_cons in Hst as [_ Hst]. by apply IH.
Qed.

Lemma sort_by_ext l : Forall P l → sort_by f l = sort_by g l.
Proof.
  unfold sort_by, merge_sort. assert (stack_P []) as Hst by constructor. revert Hst.
  generalize (@nil (option (list A))). induction l as [|x l IH]; intros st Hst Hl; simpl.
  { by destruct (merge_stack_ext st Hst). }
  apply Forall_cons in Hl as [Hx Hl].
  destruct (merge_stack_push st [x] Hst) as [<- HP]; [by repeat constructor|]. by apply IH.
Qed.
End sort_ext.
