(* ===== verification/GoStrings.v ===== *)
(** * The parts of Go's [strings], [bytes] and [path] packages the program uses

    Go strings are byte strings, modelled by [string]: a sequence of 8-bit
    characters.  Only the functions the modelled code calls are here, each
    with the laws its clients need. *)
From S2P Require Import Prelude.
Local Open Scope Z_scope.

(** The value of a byte, 0 to 255. *)
Definition byte (c : ascii) : Z := Z.of_N (N_of_ascii c).

(** The byte with a given value (modulo 256). *)
Definition chr (n : Z) : ascii := ascii_of_N (Z.to_N n).

Definition len (s : string) : Z := Z.of_nat (String.length s).

Fixpoint string_forallb (f : ascii → bool) (s : string) : bool :=
  match s with
  | EmptyString => true
  | String c s => f c && string_forallb f s
  end.

Fixpoint string_existsb (f : ascii → bool) (s : string) : bool :=
  match s with
  | EmptyString => false
  | String c s => f c || string_existsb f s
  end.

(** [strings.IndexByte(s, c) >= 0] *)
Definition contains_byte (c : ascii) (s : string) : bool :=
  string_existsb (Ascii.eqb c) s.

(** [strings.HasPrefix(s, p)] *)
Definition has_prefix (p s : string) : bool := String.prefix p s.

(** [strings.CutPrefix(s, p)] *)
Fixpoint cut_prefix (s p : string) {struct p} : option string :=
  match p with
  | EmptyString => Some s
  | String d p' =>
      match s with
      | String c s' => if Ascii.eqb c d then cut_prefix s' p' else None
      | EmptyString => None
      end
  end.

(** [strings.HasSuffix(s, suf)] *)
Fixpoint has_suffix (suf s : string) : bool :=
  String.eqb s suf ||
  match s with
  | EmptyString => false
  | String _ s => has_suffix suf s
  end.

(** [strings.TrimSuffix(s, suf)] *)
Fixpoint trim_suffix (s suf : string) : string :=
  if String.eqb s suf then "" else
  match s with
  | EmptyString => ""
  | String c s => String c (trim_suffix s suf)
  end.

(** [strings.Cut(s, string(c))]: around the first [c]. *)
Fixpoint cut_byte (c : ascii) (s : string) : option (string * string) :=
  match s with
  | EmptyString => None
  | String d s =>
      if Ascii.eqb d c then Some ("", s)
      else '(a, b) ← cut_byte c s; Some (String d a, b)
  end.

(** Around the last [c]: [strings.LastIndexByte] and the two slices. *)
Fixpoint rcut_byte (c : ascii) (s : string) : option (string * string) :=
  match s with
  | EmptyString => None
  | String d s =>
      match rcut_byte c s with
      | Some (a, b) => Some (String d a, b)
      | None => if Ascii.eqb d c then Some ("", s) else None
      end
  end.

(** [strings.Split(s, string(c))] *)
Fixpoint split_byte (c : ascii) (s : string) : list string :=
  match s with
  | EmptyString => [""]
  | String d s =>
      if Ascii.eqb d c then "" :: split_byte c s
      else match split_byte c s with
           | x :: l => String d x :: l
           | [] => [String d ""]
           end
  end.

(** [strings.Join(l, sep)] *)
Fixpoint join (sep : string) (l : list string) : string :=
  match l with
  | [] => ""
  | [x] => x
  | x :: l => x +:+ sep +:+ join sep l
  end.

(** [strings.TrimLeft] and [strings.TrimRight] with an ASCII cutset. *)
Fixpoint trim_left (f : ascii → bool) (s : string) : string :=
  match s with
  | EmptyString => ""
  | String c s' => if f c then trim_left f s' else s
  end.

Fixpoint trim_right (f : ascii → bool) (s : string) : string :=
  match s with
  | EmptyString => ""
  | String c s' =>
      match trim_right f s' with
      | EmptyString => if f c then "" else String c ""
      | t => String c t
      end
  end.

(** The slices [s[:n]] and [s[n:]]. *)
Fixpoint take_bytes (n : nat) (s : string) : string :=
  match n, s with
  | S n, String c s => String c (take_bytes n s)
  | _, _ => ""
  end.

Fixpoint drop_bytes (n : nat) (s : string) : string :=
  match n, s with
  | O, _ => s
  | S n, String _ s => drop_bytes n s
  | S _, EmptyString => ""
  end.

(** Membership of a byte in a cutset written as a string. *)
Definition in_set (set : string) (c : ascii) : bool := contains_byte c set.

Definition is_digit (c : ascii) : bool := (48 <=? byte c) && (byte c <=? 57).
Definition is_lower (c : ascii) : bool := (97 <=? byte c) && (byte c <=? 122).
Definition is_upper (c : ascii) : bool := (65 <=? byte c) && (byte c <=? 90).

(** ** Laws *)

Lemma byte_range c : 0 <= byte c < 256.
Proof.
  unfold byte. pose proof (N_ascii_bounded c). lia.
Qed.

Lemma chr_byte c : chr (byte c) = c.
Proof. unfold chr, byte. rewrite N2Z.id. apply ascii_N_embedding. Qed.

Lemma byte_chr n : 0 <= n < 256 → byte (chr n) = n.
Proof.
  intros H. unfold chr, byte. rewrite N_ascii_embedding; lia.
Qed.

Lemma byte_inj c d : byte c = byte d → c = d.
Proof. intros H. by rewrite <-(chr_byte c), <-(chr_byte d), H. Qed.

(** Case analysis on one byte: a decidable statement about all bytes is
    checked by evaluating it on each of the 256. *)
Lemma all_bytes (f : ascii → bool) :
  forallb (λ n, f (ascii_of_nat n)) (seq 0 256) = true → ∀ c, f c = true.
Proof.
  intros H c. rewrite forallb_forall in H.
  rewrite <-(ascii_nat_embedding c). apply H, in_seq.
  pose proof (nat_ascii_bounded c). lia.
Qed.

(** A pure function of one byte satisfies a boolean property as soon as it
    does on each of the 256 bytes. *)
Ltac by_all_bytes :=
  match goal with
  | |- forall c : ascii, @?P c = true => apply (all_bytes P); vm_compute; reflexivity
  end.

Create Rewrite HintDb gostr.

Lemma append_nil_r s : s +:+ "" = s.
Proof. induction s as [|c s IH]; [done|]. change (String c (s +:+ "") = String c s). by rewrite IH. Qed.

Lemma append_cons c a b : String c a +:+ b = String c (a +:+ b).
Proof. done. Qed.

Lemma append_empty b : "" +:+ b = b.
Proof. done. Qed.

#[export] Hint Rewrite append_nil_r append_cons append_empty : gostr.

Lemma append_assoc a b c : (a +:+ b) +:+ c = a +:+ (b +:+ c).
Proof. induction a as [|x a IH]; [done|]. by rewrite !append_cons, IH. Qed.

Lemma append_inj_l a b c : a +:+ b = a +:+ c → b = c.
Proof. induction a; intros H; [done|]. rewrite !append_cons in H. naive_solver. Qed.

Lemma length_append a b : String.length (a +:+ b) = (String.length a + String.length b)%nat.
Proof. induction a as [|c a IH]; [done|]. rewrite append_cons. simpl. by rewrite IH. Qed.

Lemma append_inj_r a b c : a +:+ c = b +:+ c → a = b.
Proof.
  revert b. induction a as [|x a IH]; intros [|y b] H; [done| | |].
  1,2: apply (f_equal String.length) in H; rewrite !length_append in H; simpl in H; lia.
  rewrite !append_cons in H. injection H as -> H. by rewrite (IH b H).
Qed.

Lemma len_append a b : len (a +:+ b) = len a + len b.
Proof. unfold len. rewrite length_append. lia. Qed.

Lemma take_drop_bytes n s : take_bytes n s +:+ drop_bytes n s = s.
Proof.
  revert n. induction s as [|c s IH]; intros [|n]; try done.
  cbn [take_bytes drop_bytes]. by rewrite append_cons, IH.
Qed.

Lemma drop_bytes_app a b : drop_bytes (String.length a) (a +:+ b) = b.
Proof. induction a as [|c a IH]; [done|]. rewrite append_cons. exact IH. Qed.

Lemma len_nonneg s : 0 <= len s.
Proof. unfold len. lia. Qed.

Lemma string_forallb_append f a b :
  string_forallb f (a +:+ b) = string_forallb f a && string_forallb f b.
Proof.
  induction a as [|c a IH]; [done|].
  rewrite append_cons. simpl. by rewrite IH, andb_assoc.
Qed.

Lemma string_existsb_append f a b :
  string_existsb f (a +:+ b) = string_existsb f a || string_existsb f b.
Proof.
  induction a as [|c a IH]; [done|].
  rewrite append_cons. simpl. by rewrite IH, orb_assoc.
Qed.

Lemma contains_byte_append c a b :
  contains_byte c (a +:+ b) = contains_byte c a || contains_byte c b.
Proof. apply string_existsb_append. Qed.

#[export] Hint Rewrite length_append len_append string_forallb_append
  string_existsb_append contains_byte_append : gostr.

Lemma cut_prefix_spec s p r : cut_prefix s p = Some r ↔ s = p +:+ r.
Proof.
  revert s. induction p as [|d p IH]; intros s; simpl.
  { rewrite append_empty. split; congruence. }
  rewrite append_cons.
  destruct s as [|c s]; [split; discriminate|].
  destruct (Ascii.eqb_spec c d) as [->|Hne].
  - rewrite IH. split; congruence.
  - split; congruence.
Qed.

Lemma cut_prefix_app p r : cut_prefix (p +:+ r) p = Some r.
Proof. by apply cut_prefix_spec. Qed.

Lemma has_prefix_spec p s : has_prefix p s = true ↔ ∃ r, s = p +:+ r.
Proof.
  unfold has_prefix. revert s. induction p as [|d p IH]; intros s.
  { split; [|by destruct s]. intros _. by exists s. }
  destruct s as [|c s]; simpl.
  { split; [done|]. by intros [r Hr]. }
  destruct (ascii_dec d c) as [->|Hne].
  - rewrite IH. split; intros [r Hr]; exists r; rewrite ?append_cons in *; congruence.
  - split; [done|]. intros [r Hr]. rewrite append_cons in Hr. congruence.
Qed.

Lemma has_prefix_app p r : has_prefix p (p +:+ r) = true.
Proof. apply has_prefix_spec. by exists r. Qed.

Lemma has_suffix_spec suf s : has_suffix suf s = true ↔ ∃ p, s = p +:+ suf.
Proof.
  induction s as [|c s IH].
  - cbn [has_suffix]. rewrite orb_false_r, String.eqb_eq. split.
    + intros <-. by exists "".
    + intros [p Hp]. by destruct p.
  - cbn [has_suffix]. rewrite orb_true_iff, String.eqb_eq, IH. split.
    + intros [<-|[p ->]]; [by exists ""|]. by exists (String c p).
    + intros [[|d p] Hp]; [by left|]. rewrite append_cons in Hp.
      right. injection Hp as -> ->. by exists p.
Qed.

Lemma trim_suffix_app p suf : trim_suffix (p +:+ suf) suf = p.
Proof.
  induction p as [|c p IH].
  - rewrite append_empty. destruct suf as [|d suf]; [done|].
    cbn [trim_suffix]. by rewrite String.eqb_refl.
  - rewrite append_cons. cbn [trim_suffix].
    destruct (String.eqb_spec (String c (p +:+ suf)) suf) as [Heq|_];
      [exfalso|f_equal; exact IH].
    apply (f_equal String.length) in Heq. simpl in Heq.
    rewrite length_append in Heq. lia.
Qed.

Lemma trim_suffix_none s suf :
  has_suffix suf s = false → trim_suffix s suf = s.
Proof.
  induction s as [|c s IH]; cbn [has_suffix trim_suffix];
    intros [H1 H2]%orb_false_iff; rewrite H1; [done|].
  by rewrite IH.
Qed.

(** [TrimSuffix] removes the suffix when it is there and nothing otherwise. *)
Lemma trim_suffix_cases s suf :
  (∃ p, s = p +:+ suf ∧ trim_suffix s suf = p) ∨
  (has_suffix suf s = false ∧ trim_suffix s suf = s).
Proof.
  destruct (has_suffix suf s) eqn:E.
  - apply has_suffix_spec in E as [p ->]. left. exists p. by rewrite trim_suffix_app.
  - right. split; [done|]. by apply trim_suffix_none.
Qed.

Lemma cut_byte_spec c s a b :
  cut_byte c s = Some (a, b) → s = a +:+ String c b ∧ contains_byte c a = false.
Proof.
  revert a b. induction s as [|d s IH]; intros a b H; simpl in H; [done|].
  destruct (Ascii.eqb_spec d c) as [->|Hne].
  - by simplify_eq.
  - apply bind_Some in H as ([a' b'] & H1 & H2). simplify_eq.
    destruct (IH _ _ H1) as [-> Hn]. split; [done|].
    unfold contains_byte in *. simpl. rewrite Hn, orb_false_r.
    by destruct (Ascii.eqb_spec c d); subst.
Qed.

Lemma cut_byte_none c s : cut_byte c s = None ↔ contains_byte c s = false.
Proof.
  unfold contains_byte. induction s as [|d s IH]; simpl; [done|].
  destruct (Ascii.eqb_spec d c) as [->|Hne].
  - rewrite Ascii.eqb_refl. simpl. split; discriminate.
  - destruct (Ascii.eqb_spec c d); [congruence|]. simpl. rewrite <-IH.
    destruct (cut_byte c s) as [[??]|]; simpl; split; congruence.
Qed.

(** ** Splitting and joining on one byte *)

Lemma split_byte_nonempty c s : split_byte c s ≠ [].
Proof.
  induction s as [|d s IH]; simpl; [done|].
  destruct (Ascii.eqb d c); [done|]. by destruct (split_byte c s).
Qed.

Lemma split_byte_clean c s : Forall (λ x, contains_byte c x = false) (split_byte c s).
Proof.
  induction s as [|d s IH]; simpl.
  { by repeat constructor. }
  destruct (Ascii.eqb_spec d c) as [->|Hne].
  { by constructor. }
  assert (Ascii.eqb c d = false) as Hcd by (by apply Ascii.eqb_neq).
  destruct (split_byte c s) as [|x l]; unfold contains_byte in *.
  - repeat constructor. simpl. by rewrite Hcd.
  - inversion_clear IH. constructor; [|done]. simpl. by rewrite Hcd.
Qed.

Lemma join_cons sep x l : l ≠ [] → join sep (x :: l) = x +:+ sep +:+ join sep l.
Proof. by destruct l. Qed.

Lemma join_split c s : join (String c "") (split_byte c s) = s.
Proof.
  induction s as [|d s IH]; simpl; [done|].
  destruct (Ascii.eqb_spec d c) as [->|Hne].
  - rewrite join_cons by apply split_byte_nonempty. rewrite IH. done.
  - destruct (split_byte c s) as [|x l] eqn:E; [by destruct (split_byte_nonempty c s)|].
    destruct l as [|y l].
    + simpl in *. by rewrite IH.
    + rewrite join_cons in IH |- * by done. rewrite append_cons. by rewrite IH.
Qed.

Lemma split_byte_free c s : contains_byte c s = false → split_byte c s = [s].
Proof.
  unfold contains_byte.
  induction s as [|d s IH]; simpl; [done|].
  intros [H1 H2]%orb_false_iff. rewrite Ascii.eqb_sym, H1, (IH H2). done.
Qed.

Lemma split_byte_app c a b :
  contains_byte c a = false → split_byte c (a +:+ String c b) = a :: split_byte c b.
Proof.
  unfold contains_byte. induction a as [|d a IH]; intros H.
  - rewrite append_empty. simpl. by rewrite Ascii.eqb_refl.
  - simpl in H. apply orb_false_iff in H as [H1 H2].
    rewrite append_cons. simpl. rewrite Ascii.eqb_sym, H1, (IH H2). done.
Qed.

Lemma split_join c l :
  l ≠ [] → Forall (λ x, contains_byte c x = false) l →
  split_byte c (join (String c "") l) = l.
Proof.
  induction l as [|x l IH]; [done|]. intros _ HF.
  apply Forall_cons in HF as [Hx Hl].
  destruct l as [|y l]; [by apply split_byte_free|].
  rewrite join_cons by done. change (String c "" +:+ ?z) with (String c z).
  rewrite split_byte_app by done. by rewrite IH.
Qed.

Lemma join_app sep l k :
  l ≠ [] → k ≠ [] → join sep (l ++ k) = join sep l +:+ sep +:+ join sep k.
Proof.
  intros Hl Hk. induction l as [|x l IH]; [done|].
  destruct l as [|y l].
  - change ([x] ++ k) with (x :: k). by rewrite join_cons.
  - change ((x :: y :: l) ++ k) with (x :: ((y :: l) ++ k)).
    rewrite (join_cons _ x ((y :: l) ++ k)), (join_cons _ x (y :: l)) by discriminate.
    rewrite IH by discriminate. by rewrite !append_assoc.
Qed.

(** ** Byte access *)

(** [s[n]] when [n < len(s)]. *)
Fixpoint get_byte (n : nat) (s : string) : option ascii :=
  match s, n with
  | EmptyString, _ => None
  | String c _, O => Some c
  | String _ s, S n => get_byte n s
  end.

(** A byte slice literal. *)
Fixpoint bytes_of (l : list Z) : string :=
  match l with
  | [] => ""
  | n :: l => String (chr n) (bytes_of l)
  end.

Definition slash : ascii := "/"%char.
Definition lf : ascii := chr 10.

(** The last path segment: [p[strings.LastIndexByte(p, '/')+1:]]. *)
Definition last_segment (p : string) : string :=
  match rcut_byte slash p with Some (_, b) => b | None => p end.

(** The line up to the first newline, and what follows that newline. *)
Definition first_line (s : string) : string :=
  match cut_byte lf s with Some (a, _) => a | None => s end.

Lemma rcut_byte_spec c s a b :
  rcut_byte c s = Some (a, b) → s = a +:+ String c b ∧ contains_byte c b = false.
Proof.
  revert a b. induction s as [|d s IH]; intros a b H; [done|]. cbn [rcut_byte] in H.
  destruct (rcut_byte c s) as [[a' b']|] eqn:E.
  - injection H as <- <-. destruct (IH _ _ eq_refl) as [-> Hb]. done.
  - destruct (Ascii.eqb_spec d c) as [->|]; [|done]. injection H as <- <-. split; [done|].
    clear IH. induction s as [|d s IHs]; [done|]. cbn [rcut_byte] in E.
    destruct (rcut_byte c s) as [[??]|]; [done|]. specialize (IHs eq_refl).
    unfold contains_byte in *. cbn [string_existsb].
    rewrite IHs, orb_false_r. rewrite Ascii.eqb_sym. by destruct (Ascii.eqb d c).
Qed.

Lemma cut_byte_app c a b : contains_byte c a = false → cut_byte c (a +:+ String c b) = Some (a, b).
Proof.
  unfold contains_byte. induction a as [|d a IH]; cbn [string_existsb cut_byte].
  - intros _. change ("" +:+ String c b) with (String c b). cbn [cut_byte]. by rewrite Ascii.eqb_refl.
  - intros [Hc Ha]%orb_false_iff. rewrite append_cons. cbn [cut_byte]. rewrite Ascii.eqb_sym, Hc. by rewrite IH.
Qed.

Lemma rcut_byte_none c s : contains_byte c s = false → rcut_byte c s = None.
Proof.
  destruct (rcut_byte c s) as [[a b]|] eqn:E; [|done]. apply rcut_byte_spec in E as [-> _].
  rewrite contains_byte_append. unfold contains_byte. simpl. rewrite Ascii.eqb_refl. simpl. by rewrite orb_true_r.
Qed.

Lemma rcut_byte_app c a b : contains_byte c b = false → rcut_byte c (a +:+ String c b) = Some (a, b).
Proof.
  intros Hb. induction a as [|d a IH].
  - rewrite append_empty. cbn [rcut_byte]. by rewrite rcut_byte_none, Ascii.eqb_refl.
  - rewrite append_cons. cbn [rcut_byte]. by rewrite IH.
Qed.
