(* ===== verification/GoURL.v ===== *)
(** * The parts of Go's [net/url] the program relies on

    Percent-encoding of the path and host components, [URL.EscapedPath] and
    [URL.String] for a URL that has a scheme, a host, a path and a raw path. *)
From S2P Require Import Prelude GoStrings.
Local Open Scope Z_scope.

(** The component being encoded. *)
Inductive encoding := encodePath | encodeHost.

Definition is_alnum (c : ascii) : bool := is_lower c || is_upper c || is_digit c.

(** [url.shouldEscape] *)
Definition shouldEscape (c : ascii) (mode : encoding) : bool :=
  if is_alnum c then false
  else if match mode with
          | encodeHost => in_set ("!$&'()*+,;=:[]<>" +:+ bytes_of [34]) c
          | encodePath => false
          end then false
  else if in_set "-_.~" c then false
  else if in_set "$&+,/:;=?@" c then
    match mode with encodePath => Ascii.eqb c "?" | encodeHost => true end
  else true.

Definition hex_upper (n : Z) : ascii := if n <? 10 then chr (48 + n) else chr (55 + n).
Definition hex_lower (n : Z) : ascii := if n <? 10 then chr (48 + n) else chr (87 + n).

Definition is_hex (c : ascii) : bool :=
  is_digit c || ((97 <=? byte c) && (byte c <=? 102)) || ((65 <=? byte c) && (byte c <=? 70)).

Definition unhex (c : ascii) : Z :=
  if is_digit c then byte c - 48
  else if (97 <=? byte c) && (byte c <=? 102) then byte c - 97 + 10
  else byte c - 65 + 10.

(** One byte, percent-encoded with the given hexadecimal alphabet. *)
Definition percent (hex : Z → ascii) (c : ascii) : string :=
  String "%" (String (hex (Z.shiftr (byte c) 4)) (String (hex (Z.land (byte c) 15)) "")).

(** [url.escape] in the two modes modelled *)
Fixpoint escape (s : string) (mode : encoding) : string :=
  match s with
  | EmptyString => ""
  | String c s =>
      if shouldEscape c mode then percent hex_upper c +:+ escape s mode
      else String c (escape s mode)
  end.

(** [url.unescape] of a path: [None] is its EscapeError. *)
Fixpoint unescape (s : string) : option string :=
  match s with
  | EmptyString => Some ""
  | String c s =>
      if Ascii.eqb c "%" then
        match s with
        | String h (String l s) =>
            if is_hex h && is_hex l then
              String (chr (Z.lor (Z.shiftl (unhex h) 4) (unhex l))) <$> unescape s
            else None
        | _ => None
        end
      else String c <$> unescape s
  end.

(** [url.validEncoded] *)
Definition valid_byte (c : ascii) (mode : encoding) : bool :=
  if in_set "!$&'()*+,;=:@" c then true
  else if in_set "[]" c then true
  else if Ascii.eqb c "%" then true
  else negb (shouldEscape c mode).

Definition validEncoded (s : string) (mode : encoding) : bool :=
  string_forallb (λ c, valid_byte c mode) s.

Record URL := { u_scheme : string; u_host : string; u_path : string; u_rawpath : string }.

(** [URL.EscapedPath] *)
Definition EscapedPath (u : URL) : string :=
  if negb (String.eqb (u_rawpath u) "") && validEncoded (u_rawpath u) encodePath
     && bool_decide (unescape (u_rawpath u) = Some (u_path u))
  then u_rawpath u
  else if String.eqb (u_path u) "*" then "*"
  else escape (u_path u) encodePath.

(** [URL.String], for a URL without userinfo, opaque part, query or
    fragment. *)
Definition url_string (u : URL) : string :=
  let sch := if String.eqb (u_scheme u) "" then "" else u_scheme u +:+ ":" in
  let auth :=
    if negb (String.eqb (u_scheme u) "") || negb (String.eqb (u_host u) "") then
      (if negb (String.eqb (u_host u) "") || negb (String.eqb (u_path u) "")
       then "//" else "") +:+ escape (u_host u) encodeHost
    else "" in
  let path := EscapedPath u in
  let sep :=
    if negb (String.eqb path "") && negb (has_prefix "/" path)
       && negb (String.eqb (u_host u) "") then "/" else "" in
  let dot :=
    if String.eqb (sch +:+ auth +:+ sep) "" &&
       contains_byte ":" (match cut_byte slash path with Some (a, _) => a | None => path end)
    then "./" else "" in
  sch +:+ auth +:+ sep +:+ dot +:+ path.

(** ** Laws of percent-encoding *)

Lemma percent_unescape (hex : Z → ascii) c s :
  is_hex (hex (Z.shiftr (byte c) 4)) = true →
  is_hex (hex (Z.land (byte c) 15)) = true →
  Z.lor (Z.shiftl (unhex (hex (Z.shiftr (byte c) 4))) 4)
        (unhex (hex (Z.land (byte c) 15))) = byte c →
  unescape (percent hex c +:+ s) = String c <$> unescape s.
Proof.
  intros H1 H2 H3. unfold percent. rewrite !append_cons, append_empty.
  cbn [unescape]. change (Ascii.eqb "%" "%") with true. cbn match.
  by rewrite H1, H2, H3, chr_byte.
Qed.

Lemma hex_lower_ok :
  ∀ c, is_hex (hex_lower (Z.shiftr (byte c) 4)) && is_hex (hex_lower (Z.land (byte c) 15))
       && (Z.lor (Z.shiftl (unhex (hex_lower (Z.shiftr (byte c) 4))) 4)
             (unhex (hex_lower (Z.land (byte c) 15))) =? byte c)
       && valid_byte (hex_lower (Z.shiftr (byte c) 4)) encodePath
       && valid_byte (hex_lower (Z.land (byte c) 15)) encodePath = true.
Proof. by_all_bytes. Qed.

Lemma percent_lower_unescape c s :
  unescape (percent hex_lower c +:+ s) = String c <$> unescape s.
Proof.
  pose proof (hex_lower_ok c) as H. rewrite !andb_true_iff, Z.eqb_eq in H.
  destruct H as [[[[??]?]?]?]. by apply percent_unescape.
Qed.

Lemma percent_lower_valid c : validEncoded (percent hex_lower c) encodePath = true.
Proof.
  pose proof (hex_lower_ok c) as H. rewrite !andb_true_iff in H.
  destruct H as [[_ H1] H2]. unfold percent, validEncoded. cbn [string_forallb].
  by rewrite H1, H2.
Qed.
