(* ===== verification/AptPath.v ===== *)
(** * Path grammar and sniffs ([internal/aptpath])

    The suite-path grammar ([suite.go]), apt's upstream URL encoding
    ([encode.go]), the anchor files of a form ([anchor.go]), and the body
    sniffs with the per-file policy ([sniff.go]).  Section [grammar_laws]
    relates the classifier to the grammar, [encoding_laws] the encoder to
    [net/url], [sniff_laws] the sniffs to what they admit. *)
From S2P Require Import Prelude GoStrings GoURL.
Local Open Scope Z_scope.

(** ** suite.go *)

Definition ForbiddenPathBytes : string := "#?%\".

Definition cleanBytes (p : string) : bool :=
  string_forallb
    (λ c, negb ((byte c <? 32) || (byte c =? 127) || in_set ForbiddenPathBytes c)) p.

(** A path has a "dists" segment. *)
Definition hasDistsSegment (p : string) : bool :=
  existsb (String.eqb "dists") (split_byte slash p).

Definition bad_segment (s : string) : bool :=
  String.eqb s "" || String.eqb s "." || String.eqb s "..".

(** The scan of [distsSuitePath] for the last "dists" segment, at indices
    [n-1] down to 0. *)
Fixpoint dists_scan (segs : list string) (n : nat) : string :=
  match n with
  | O => ""
  | S i =>
      if bool_decide (segs !! i = Some "dists")
      then "/" +:+ join "/" (take (i + 2) segs)
      else dists_scan segs i
  end.

Definition distsSuitePath (segs : list string) : string :=
  if existsb bad_segment segs then ""
  else dists_scan segs (length segs - 2).

Definition flatIndexExts : list string :=
  [".gz"; ".xz"; ".bz2"; ".lzma"; ".lz4"; ".zst"].

(** The optional compression extension of the flat member grammar. *)
Definition opt_ext (e : string) : bool :=
  String.eqb e "" || bool_decide (e ∈ flatIndexExts).

Definition stem_member (stem name : string) : bool :=
  match cut_prefix name stem with Some rest => opt_ext rest | None => false end.

(** [Contents-[a-z0-9-]+] with an optional extension: the class has no
    dot, so the extension starts at the first one. *)
Definition contents_member (name : string) : bool :=
  match cut_prefix name "Contents-" with
  | None => false
  | Some rest =>
      let '(body, ext) :=
        match cut_byte "." rest with
        | Some (a, b) => (a, "." +:+ b)
        | None => (rest, "")
        end in
      negb (String.eqb body "")
      && string_forallb (λ c, is_lower c || is_digit c || Ascii.eqb c "-") body
      && opt_ext ext
  end.

Definition flatMemberRE (name : string) : bool :=
  bool_decide (name ∈ ["InRelease"; "Release"; "Release.gpg"])
  || stem_member "Packages" name || stem_member "Sources" name
  || contents_member name.

Definition flatPdiffDirRE (name : string) : bool :=
  bool_decide (name ∈ ["Packages.diff"; "Sources.diff"]).

Definition is_hex_lower (c : ascii) : bool :=
  is_digit c || ((97 <=? byte c) && (byte c <=? 102)).

Definition hex64RE (s : string) : bool := (len s =? 64) && string_forallb is_hex_lower s.
Definition hex128RE (s : string) : bool := (len s =? 128) && string_forallb is_hex_lower s.

Definition FlatIndexNames : list string :=
  flat_map (λ stem, stem :: map (λ ext, stem +:+ ext) flatIndexExts)
    ["Packages"; "Sources"].

(** How many trailing segments form a flat member: 1, 2, 3, or 0. *)
Definition flatMemberSegments (segs : list string) : nat :=
  let r := rev segs in
  let last := nth 0 r "" in
  if (1 <=? length segs)%nat && flatMemberRE last then 1%nat
  else if (2 <=? length segs)%nat && String.eqb last "Index"
          && flatPdiffDirRE (nth 1 r "") then 2%nat
  else if (3 <=? length segs)%nat && String.eqb (nth 2 r "") "by-hash"
          && ((String.eqb (nth 1 r "") "SHA256" && hex64RE last)
              || (String.eqb (nth 1 r "") "SHA512" && hex128RE last)) then 3%nat
  else 0%nat.

(** The directory checks of [flatSuitePath], once the member is split off. *)
Definition flat_dir (dir : list string) : string :=
  let twin := String.eqb (List.last dir "") "." in
  let dir := if twin then removelast dir else dir in
  if (length dir =? 0)%nat then ""
  else if existsb bad_segment dir then ""
  else
    let d := "/" +:+ join "/" dir in
    if twin then d +:+ "/." else d.

Definition flatSuitePath (segs : list string) : string :=
  let n := flatMemberSegments segs in
  if (n =? 0)%nat || (length segs <=? n)%nat then ""
  else flat_dir (take (length segs - n) segs).

Definition SuitePath (p : string) : string :=
  if negb (has_prefix "/" p) || negb (cleanBytes p) then ""
  else
    let segs := split_byte slash (drop_bytes 1 p) in
    if hasDistsSegment p then distsSuitePath segs else flatSuitePath segs.

Definition IsFlatHostRootPath (p : string) : bool :=
  if negb (has_prefix "/" p) || negb (cleanBytes p) || hasDistsSegment p then false
  else
    let segs := split_byte slash (drop_bytes 1 p) in
    let n := flatMemberSegments segs in
    (0 <? n)%nat
    && ((n =? length segs)%nat
        || ((n + 1 =? length segs)%nat && String.eqb (nth 0 segs "") ".")).

Definition IsCanonicalSuitePath (s : string) : bool :=
  negb (String.eqb s "") && String.eqb (SuitePath (s +:+ "/InRelease")) s.

Definition IsFlatSuitePath (s : string) : bool :=
  IsCanonicalSuitePath s && negb (hasDistsSegment s).

Definition MaxFilenameBytes : Z := 4096.

Definition FlatBase (suite : string) : string := trim_suffix suite "/.".

Definition DotClean (p : string) : string :=
  join "/" (List.filter (λ s, negb (String.eqb s ".")) (split_byte slash p)).

(** ** encode.go *)

Definition needsEscape (c : ascii) : bool :=
  if (byte c <=? 32) || (127 <=? byte c) then true
  else in_set ("+~%<>\^`{|}#?" +:+ bytes_of [34]) c.

Fixpoint count_escapes (p : string) : Z :=
  match p with
  | EmptyString => 0
  | String c p => (if needsEscape c then 1 else 0) + count_escapes p
  end.

Fixpoint write_escaped (p : string) : string :=
  match p with
  | EmptyString => ""
  | String c p =>
      if needsEscape c then percent hex_lower c +:+ write_escaped p
      else String c (write_escaped p)
  end.

Definition AptEncodePath (p : string) : string :=
  if count_escapes p =? 0 then p else write_escaped p.

Definition BuildUpstreamURL (scheme authority path : string) : string :=
  let u := {| u_scheme := scheme; u_host := authority; u_path := path;
              u_rawpath := AptEncodePath path |} in
  let u := if String.eqb (EscapedPath u) (u_rawpath u) then u
           else {| u_scheme := scheme; u_host := authority; u_path := path;
                   u_rawpath := "" |} in
  url_string u.

(** ** anchor.go *)

Definition AnchorPaths (form : string) : list string :=
  if String.eqb form "inline" then ["InRelease"]
  else if String.eqb form "detached" then ["Release"; "Release.gpg"]
  else if String.eqb form "unsigned" then ["Release"]
  else [].

(** ** sniff.go *)

Definition SniffHeadBytes : Z := 512.
Definition clearsignBegin : string := "-----BEGIN PGP SIGNED MESSAGE-----".
Definition armorSigBegin : string := "-----BEGIN PGP SIGNATURE-----".

(** The cutsets: CR, space, tab on the right of a line; and with LF before
    an armor header. *)
Definition is_trail (c : ascii) : bool := in_set (bytes_of [13; 32; 9]) c.
Definition is_lead (c : ascii) : bool := in_set (bytes_of [32; 9; 13; 10]) c.

Definition SniffInRelease (head : string) : bool :=
  String.eqb (trim_right is_trail (first_line head)) clearsignBegin.

Definition sigPacketBodyOffset (head : string) : option nat :=
  match head with
  | EmptyString => None
  | String b0 rest =>
      let t := byte b0 in
      if (136 <=? t) && (t <=? 139) then
        Some (nth (Z.to_nat (Z.land t 3)) [2; 3; 5; 1]%nat 0%nat)
      else
        match rest with
        | String b1 _ =>
            if t =? 194 then
              let l := byte b1 in
              if l <? 192 then Some 2%nat
              else if l <=? 223 then Some 3%nat
              else if l =? 255 then Some 6%nat
              else Some 2%nat
            else None
        | EmptyString => None
        end
  end.

Definition SniffReleaseGPG (head : string) : bool :=
  if has_prefix armorSigBegin (trim_left is_lead head) then true
  else
    match sigPacketBodyOffset head with
    | None => false
    | Some off =>
        match get_byte off head with
        | None => false
        | Some v => (3 <=? byte v) && (byte v <=? 6)
        end
    end.

Definition MarkerBase (suite : string) : string := trim_suffix suite "/.".

Definition ReleaseSniffBytes : nat := Nat.shiftl 64 10.

Definition hash_header (line : string) : bool :=
  bool_decide (trim_right is_trail line ∈ ["SHA256:"; "SHA512:"; "SHA1:"; "MD5Sum:"]).

(** The line loop of [SniffRelease]; each round consumes a byte, so the
    length of the head is enough fuel. *)
Fixpoint sniff_lines (fuel : nat) (head : string) : bool :=
  match fuel, head with
  | S fuel, String _ _ =>
      let '(line, rest) :=
        match cut_byte lf head with Some (a, b) => (a, b) | None => (head, "") end in
      hash_header line || sniff_lines fuel rest
  | _, _ => false
  end.

Definition SniffRelease (head : string) : bool :=
  let head := if Z.of_nat ReleaseSniffBytes <? len head
              then take_bytes ReleaseSniffBytes head else head in
  sniff_lines (String.length head) head.

Definition flatIndexMagic : list (string * string) :=
  [(".gz", bytes_of [31; 139]);
   (".xz", bytes_of [253] +:+ "7zXZ" +:+ bytes_of [0]);
   (".bz2", "BZh");
   (".lzma", bytes_of [93; 0; 0]);
   (".lz4", bytes_of [4; 34; 77; 24]);
   (".zst", bytes_of [40; 181; 47; 253])].

Definition magic_of (ext : string) : option string :=
  snd <$> List.find (λ e, String.eqb (fst e) ext) flatIndexMagic.

Definition flat_ext_of (stem name : string) : option string :=
  rest ← cut_prefix name stem;
  if String.eqb rest "" then Some ""
  else match magic_of rest with Some _ => Some rest | None => None end.

Definition flatIndexExt (name : string) : option string :=
  match flat_ext_of "Packages" name with
  | Some e => Some e
  | None => flat_ext_of "Sources" name
  end.

Definition has_magic (ext head : string) : bool :=
  has_prefix (default "" (magic_of ext)) head.

Definition SniffFlatIndex (name head : string) : bool :=
  match flatIndexExt name with
  | None => false
  | Some ext => if String.eqb ext "" then has_prefix "Package:" head else has_magic ext head
  end.

Definition anchorlessIndexExt (name : string) : option string :=
  match flatIndexExt name with
  | Some ext => Some ext
  | None =>
      if negb (has_prefix "Contents-" name) || negb (flatMemberRE name) then None
      else match rcut_byte "." name with
           | Some (_, e) => Some ("." +:+ e)
           | None => Some ""
           end
  end.

Definition IsAnchorlessIndex (name : string) : bool :=
  match anchorlessIndexExt name with Some _ => true | None => false end.

(** The pair (pass, sniffable). *)
Definition SniffAnchorlessIndex (name head : string) : bool * bool :=
  match anchorlessIndexExt name with
  | None => (false, false)
  | Some ext =>
      if negb (has_prefix "Contents-" name) then (SniffFlatIndex name head, true)
      else if String.eqb ext "" then (false, false)
      else (has_magic ext head, true)
  end.

Inductive SuiteFile :=
| NotSuiteFile | FileInRelease | FileRelease | FileReleaseGPG | FileFlatIndex.

#[export] Instance SuiteFile_eq_dec : EqDecision SuiteFile.
Proof. solve_decision. Defined.

Definition MaxSuitePathBytes : Z := 1024.

Definition ClassifySuiteFile (suite path : string) : SuiteFile :=
  if String.eqb suite "" || (MaxSuitePathBytes <? len suite) then NotSuiteFile
  else
    match cut_prefix path (suite +:+ "/") with
    | None => NotSuiteFile
    | Some name =>
        if String.eqb name "InRelease" then FileInRelease
        else if String.eqb name "Release" then FileRelease
        else if String.eqb name "Release.gpg" then FileReleaseGPG
        else match flatIndexExt name with
             | Some _ => if negb (hasDistsSegment suite) then FileFlatIndex
                         else NotSuiteFile
             | None => NotSuiteFile
             end
    end.

Definition CreatesRow (f : SuiteFile) (adopter : bool) : bool :=
  match f with
  | FileInRelease | FileRelease => true
  | FileFlatIndex => adopter
  | _ => false
  end.

Definition Marks (f : SuiteFile) : bool :=
  bool_decide (f = FileInRelease) || bool_decide (f = FileReleaseGPG).

Definition Touches (f : SuiteFile) : bool := bool_decide (f ≠ NotSuiteFile).

Definition HeadBytes (f : SuiteFile) : Z :=
  if bool_decide (f = FileRelease) then Z.of_nat ReleaseSniffBytes else SniffHeadBytes.

Definition Sniff (f : SuiteFile) (path head : string) : bool :=
  match f with
  | FileInRelease => SniffInRelease head
  | FileRelease => SniffRelease head
  | FileReleaseGPG => SniffReleaseGPG head
  | FileFlatIndex => SniffFlatIndex (last_segment path) head
  | NotSuiteFile => false
  end.

Definition DecodableClearsign (b : string) : string :=
  if negb (SniffInRelease b) then b
  else
    let fin := String.length (first_line b) in
    let n := String.length clearsignBegin in
    if (fin =? n)%nat
       || ((fin =? n + 1)%nat && bool_decide (get_byte (fin - 1) b = Some (chr 13)))
    then b
    else clearsignBegin +:+ drop_bytes fin b.

(** ** The grammar *)

Section grammar_laws.

Abbreviation slash_free l := (Forall (λ x, contains_byte slash x = false) l).

Lemma slash_split l : l ≠ [] → slash_free l → split_byte slash (join "/" l) = l.
Proof. apply (split_join slash). Qed.

Lemma join_slash_split p : join "/" (split_byte slash p) = p.
Proof. apply (join_split slash). Qed.

Lemma slash_join (l k : list string) :
  l ≠ [] → k ≠ [] → join "/" (l ++ k) = join "/" l +:+ "/" +:+ join "/" k.
Proof. apply join_app. Qed.

Lemma cleanBytes_app a b : cleanBytes (a +:+ b) = cleanBytes a && cleanBytes b.
Proof. apply string_forallb_append. Qed.

Lemma hasDists_join l :
  l ≠ [] → slash_free l →
  hasDistsSegment ("/" +:+ join "/" l) = existsb (String.eqb "dists") l.
Proof.
  intros Hl HF. unfold hasDistsSegment.
  change ("/" +:+ ?z) with ("" +:+ String slash z).
  rewrite split_byte_app by done. cbn [existsb]. by rewrite slash_split.
Qed.

(** [SuitePath] seen through the segments of its argument. *)
Lemma SuitePath_join l :
  l ≠ [] → slash_free l →
  SuitePath ("/" +:+ join "/" l) =
    if cleanBytes (join "/" l) then
      if existsb (String.eqb "dists") l then distsSuitePath l else flatSuitePath l
    else "".
Proof.
  intros Hl HF. unfold SuitePath. rewrite has_prefix_app, cleanBytes_app, hasDists_join by done.
  change (cleanBytes "/") with true. cbn [negb orb andb].
  change (drop_bytes 1 ("/" +:+ ?z)) with z. rewrite slash_split by done.
  by destruct (cleanBytes _).
Qed.

Lemma flat_dir_spec dir : dir ≠ [] → flat_dir dir ≠ "" → flat_dir dir = "/" +:+ join "/" dir.
Proof.
  intros Hd. unfold flat_dir.
  destruct (String.eqb_spec (List.last dir "") ".") as [Ht|_].
  - pose proof (app_removelast_last "" Hd) as Hsplit. rewrite Ht in Hsplit.
    destruct (removelast dir) as [|x r] eqn:Er; [done|].
    cbn [length Nat.eqb]. destruct (existsb bad_segment (x :: r)); [done|]. intros _.
    rewrite Hsplit, slash_join by done. by rewrite append_assoc.
  - destruct (length dir =? 0)%nat; [done|]. by destruct (existsb bad_segment dir).
Qed.

Lemma flatMemberSegments_bound segs : (flatMemberSegments segs ≤ length segs)%nat.
Proof.
  unfold flatMemberSegments.
  repeat match goal with |- context [if ?b then _ else _] => destruct b eqn:? end;
    rewrite ?andb_true_iff, ?Nat.leb_le in *; intuition lia.
Qed.

Lemma flatSuitePath_split segs s :
  flatSuitePath segs = s → s ≠ "" →
  ∃ dir mem, segs = dir ++ mem ∧ dir ≠ [] ∧ mem ≠ [] ∧ mem ≠ [""] ∧ s = flat_dir dir.
Proof.
  unfold flatSuitePath. intros H Hs.
  set (n := flatMemberSegments segs) in *.
  destruct ((n =? 0)%nat || (length segs <=? n)%nat) eqn:E; [by subst|].
  apply orb_false_iff in E as [E1%Nat.eqb_neq E2%Nat.leb_gt].
  exists (take (length segs - n) segs), (drop (length segs - n) segs).
  split; [by rewrite take_drop|]. split.
  { intros Hnil%(f_equal length). rewrite length_take in Hnil. simpl in *. lia. }
  split.
  { intros Hnil%(f_equal length). rewrite length_drop in Hnil. simpl in *. lia. }
  split; [|by rewrite <-H].
  intros Hbad. subst n. revert E1 E2 Hbad. unfold flatMemberSegments.
  set (k := length segs). intros E1 E2 Hbad.
  assert (∃ pre, segs = pre ++ [""]) as [pre Hpre].
  { rewrite <-(take_drop (k - flatMemberSegments segs) segs). unfold flatMemberSegments.
    fold k. rewrite Hbad. eauto. }
  assert (k - 1 = length pre)%nat as Hk.
  { unfold k. rewrite Hpre, length_app. simpl. lia. }
  assert (length (drop (k - flatMemberSegments segs) segs) = 1)%nat as Hlen.
  { unfold flatMemberSegments. fold k. by rewrite Hbad. }
  rewrite length_drop in Hlen. unfold flatMemberSegments in Hlen.
  assert (nth 0 (rev segs) "" = "") as Hnth.
  { by rewrite Hpre, rev_unit. }
  rewrite Hnth in Hlen. fold k in Hlen.
  change (flatMemberRE "") with false in Hlen. change (String.eqb "" "Index") with false in Hlen.
  change (hex64RE "") with false in Hlen. change (hex128RE "") with false in Hlen.
  rewrite !andb_false_r in Hlen. simpl in Hlen. lia.
Qed.

Lemma flatSuitePath_member dir name :
  dir ≠ [] → flatMemberRE name = true → flatSuitePath (dir ++ [name]) = flat_dir dir.
Proof.
  intros Hd Hm. unfold flatSuitePath, flatMemberSegments.
  rewrite rev_unit, length_app. cbn [nth length]. rewrite Hm.
  replace (1 <=? length dir + 1)%nat with true by (symmetry; apply Nat.leb_le; lia).
  cbn [andb]. change (1 =? 0)%nat with false.
  destruct dir as [|x dir]; [done|].
  replace (length (x :: dir) + 1 <=? 1)%nat with false
    by (symmetry; apply Nat.leb_gt; simpl; lia).
  cbn [orb]. replace (length (x :: dir) + 1 - 1)%nat with (length (x :: dir)) by lia.
  by rewrite take_app_length.
Qed.

Lemma dists_scan_found segs n s :
  dists_scan segs n = s → s ≠ "" →
  ∃ i, (i < n)%nat ∧ segs !! i = Some "dists" ∧ s = "/" +:+ join "/" (take (i + 2) segs).
Proof.
  induction n as [|i IH]; cbn [dists_scan]; intros H Hs; [by subst|].
  destruct (bool_decide _) eqn:E.
  - apply bool_decide_eq_true in E. exists i. split_and!; [lia|done|by subst].
  - destruct (IH H Hs) as (j & ? & ? & ?). exists j. split_and!; [lia|done|done].
Qed.

Lemma existsb_false_app {A} (f : A → bool) l k :
  existsb f (l ++ k) = false ↔ existsb f l = false ∧ existsb f k = false.
Proof. by rewrite existsb_app, orb_false_iff. Qed.

Lemma join_nonempty l : l ≠ [] → l ≠ [""] → join "/" l ≠ "".
Proof.
  intros H1 H2 H. destruct l as [|x [|y l]]; [done| |].
  - simpl in H. congruence.
  - rewrite join_cons in H by done.
    apply (f_equal String.length) in H. rewrite !length_append in H. simpl in H. lia.
Qed.

Lemma existsb_eqb_elem (x : string) l : existsb (String.eqb x) l = true ↔ x ∈ l.
Proof.
  rewrite existsb_exists. setoid_rewrite <-list_elem_of_In. split.
  - by intros (y & Hy & ->%String.eqb_eq).
  - intros ?. exists x. split; [done|]. apply String.eqb_refl.
Qed.

(** What a suite path found in [p] is, in segments: the directory [dir]
    before a non-empty member [mem]. *)
Lemma SuitePath_inv p :
  SuitePath p ≠ "" →
  ∃ dir mem, p = "/" +:+ join "/" (dir ++ mem) ∧ slash_free (dir ++ mem) ∧
    dir ≠ [] ∧ mem ≠ [] ∧ mem ≠ [""] ∧ cleanBytes (join "/" dir) = true ∧
    SuitePath p = "/" +:+ join "/" dir ∧
    ((existsb bad_segment dir = false ∧
      ∃ pre c, dir = pre ++ ["dists"; c]) ∨
     (existsb (String.eqb "dists") dir = false ∧ flat_dir dir = "/" +:+ join "/" dir)).
Proof.
  intros Hs.
  destruct (has_prefix "/" p) eqn:Hp; [|by unfold SuitePath in Hs; rewrite Hp in Hs].
  apply has_prefix_spec in Hp as [r ->].
  assert (∃ segs, r = join "/" segs ∧ segs ≠ [] ∧ slash_free segs) as (segs & -> & Hne & HF).
  { exists (split_byte slash r).
    split_and!; [by rewrite join_slash_split|apply split_byte_nonempty|apply split_byte_clean]. }
  rewrite SuitePath_join in Hs |- * by done.
  destruct (cleanBytes (join "/" segs)) eqn:Hcl; [|done].
  destruct (existsb (String.eqb "dists") segs) eqn:Hd.
  - unfold distsSuitePath in *. destruct (existsb bad_segment segs) eqn:Hb; [done|].
    destruct (dists_scan_found segs _ _ eq_refl Hs) as (i & Hi & Hsi & Heq).
    assert (take (i + 2) segs ≠ []) as Ht1.
    { intros Hnil%(f_equal length). rewrite length_take in Hnil. simpl in *. lia. }
    assert (drop (i + 2) segs ≠ []) as Ht2.
    { intros Hnil%(f_equal length). rewrite length_drop in Hnil. simpl in *. lia. }
    rewrite <-(take_drop (i + 2) segs) in Hb, Hcl.
    apply existsb_false_app in Hb as [Hb1 Hb2].
    rewrite slash_join, cleanBytes_app in Hcl by done. apply andb_true_iff in Hcl as [Hcl _].
    exists (take (i + 2) segs), (drop (i + 2) segs). rewrite take_drop.
    split_and!; try done.
    + intros Hd'. by rewrite Hd' in Hb2.
    + left. split; [done|].
      destruct (lookup_lt_is_Some_2 segs (S i)) as [c Hc]; [lia|].
      exists (take i segs), c.
      replace (i + 2)%nat with (S (S i)) by lia.
      rewrite (take_S_r _ _ _ Hc), (take_S_r _ _ _ Hsi), <-app_assoc. done.
  - destruct (flatSuitePath_split segs _ eq_refl Hs)
      as (dir & mem & -> & Hdir & Hm1 & Hm2 & Heq).
    rewrite Heq in *. apply existsb_false_app in Hd as [Hd _].
    rewrite slash_join, cleanBytes_app in Hcl by done. apply andb_true_iff in Hcl as [Hcl _].
    pose proof (flat_dir_spec dir Hdir Hs) as Hfd.
    exists dir, mem. split_and!; try done. right. done.
Qed.

(** A directory that is a suite stays one for every root member. *)
Lemma SuitePath_member dir name :
  dir ≠ [] → slash_free dir → cleanBytes (join "/" dir) = true →
  contains_byte slash name = false → cleanBytes name = true →
  name ≠ "dists" → bad_segment name = false → flatMemberRE name = true →
  ((existsb bad_segment dir = false ∧ ∃ pre c, dir = pre ++ ["dists"; c]) ∨
   (existsb (String.eqb "dists") dir = false ∧ flat_dir dir = "/" +:+ join "/" dir)) →
  SuitePath (("/" +:+ join "/" dir) +:+ "/" +:+ name) = "/" +:+ join "/" dir.
Proof.
  intros Hdir HF Hcl Hn1 Hn2 Hn3 Hn4 Hn5 Hcase.
  rewrite append_assoc.
  replace (join "/" dir +:+ "/" +:+ name) with (join "/" (dir ++ [name]))
    by by rewrite slash_join.
  rewrite SuitePath_join; [|by destruct dir|].
  2:{ apply Forall_app. split; [done|]. by constructor. }
  assert (cleanBytes (join "/" (dir ++ [name])) = true) as ->.
  { rewrite slash_join, !cleanBytes_app by done. rewrite Hcl. simpl. by rewrite Hn2. }
  destruct Hcase as [[Hb (pre & c & ->)] | [Hd Hfd]].
  - rewrite (proj2 (existsb_eqb_elem "dists" _)) by set_solver.
    unfold distsSuitePath.
    assert (existsb bad_segment ((pre ++ ["dists"; c]) ++ [name]) = false) as ->.
    { apply existsb_false_app. split; [done|]. cbn [existsb]. by rewrite Hn4. }
    assert (length ((pre ++ ["dists"; c]) ++ [name]) - 2 = S (length pre))%nat as ->.
    { rewrite !length_app. simpl. lia. }
    cbn [dists_scan]. rewrite bool_decide_true.
    2:{ rewrite <-app_assoc, lookup_app_r, Nat.sub_diag by lia. done. }
    rewrite take_app_le by (rewrite length_app; simpl; lia).
    rewrite firstn_all2 by (rewrite length_app; simpl; lia). done.
  - assert (existsb (String.eqb "dists") (dir ++ [name]) = false) as ->.
    { apply existsb_false_app. split; [done|]. cbn [existsb].
      rewrite orb_false_r. apply String.eqb_neq. congruence. }
    by rewrite flatSuitePath_member.
Qed.

Lemma SuitePath_suite_member p name :
  SuitePath p ≠ "" →
  contains_byte slash name = false → cleanBytes name = true →
  name ≠ "dists" → bad_segment name = false → flatMemberRE name = true →
  SuitePath (SuitePath p +:+ "/" +:+ name) = SuitePath p.
Proof.
  intros Hs. destruct (SuitePath_inv p Hs)
    as (dir & mem & _ & HF & Hdir & _ & _ & Hcl & -> & Hcase).
  apply Forall_app in HF as [HF _]. intros. by apply SuitePath_member.
Qed.

(** A path lies under its suite. *)
Lemma SuitePath_under p :
  SuitePath p ≠ "" → ∃ member, member ≠ "" ∧ p = SuitePath p +:+ "/" +:+ member.
Proof.
  intros Hs.
  destruct (SuitePath_inv p Hs) as (dir & mem & Hp & _ & Hdir & Hm1 & Hm2 & _ & Heq & _).
  exists (join "/" mem). split; [by apply join_nonempty|].
  rewrite Heq, append_assoc, <-slash_join by done. exact Hp.
Qed.

(** The suite of a path is a literal, canonical prefix of it: when
    [SuitePath] finds a suite, the path is that suite, a slash and a
    non-empty member, no byte having been cleaned or moved, and
    [IsCanonicalSuitePath] recognises the suite. *)
Theorem SuitePath_canonical_prefix p :
  SuitePath p ≠ "" →
  IsCanonicalSuitePath (SuitePath p) = true ∧
  ∃ member, member ≠ "" ∧ p = SuitePath p +:+ "/" +:+ member.
Proof.
  intros Hs. split.
  - unfold IsCanonicalSuitePath.
    change "/InRelease" with ("/" +:+ "InRelease").
    rewrite SuitePath_suite_member, String.eqb_refl, andb_true_r by done.
    by apply negb_true_iff, String.eqb_neq.
  - by apply SuitePath_under.
Qed.

Lemma FlatIndexNames_ok :
  forallb (λ n, negb (contains_byte slash n) && cleanBytes n && negb (String.eqb n "dists")
                && negb (bad_segment n) && flatMemberRE n
                && (match flatIndexExt n with Some _ => true | None => false end)
                && negb (bool_decide (n ∈ ["InRelease"; "Release"; "Release.gpg"])))
    FlatIndexNames = true.
Proof. vm_compute. reflexivity. Qed.

Lemma magic_of_ext e : magic_of e ≠ None → e ∈ flatIndexExts.
Proof.
  unfold magic_of. intros H.
  destruct (List.find _ flatIndexMagic) as [x|] eqn:E; [|done].
  apply List.find_some in E as [Hin ->%String.eqb_eq%eq_sym].
  apply list_elem_of_In in Hin. unfold flatIndexMagic in Hin.
  change flatIndexExts with (fst <$> flatIndexMagic).
  by apply list_elem_of_fmap_2.
Qed.

Lemma flat_ext_of_name stem name e :
  flat_ext_of stem name = Some e → name = stem ∨ ∃ x, x ∈ flatIndexExts ∧ name = stem +:+ x.
Proof.
  unfold flat_ext_of. intros (rest & Hc & H)%bind_Some.
  apply cut_prefix_spec in Hc as ->.
  destruct (String.eqb rest "") eqn:Er.
  - apply String.eqb_eq in Er. left. by rewrite Er, append_nil_r.
  - right. destruct (magic_of rest) eqn:E; [|done]. exists rest. split; [|done].
    apply magic_of_ext. by rewrite E.
Qed.

Lemma flatIndexExt_names name : flatIndexExt name ≠ None → name ∈ FlatIndexNames.
Proof.
  unfold flatIndexExt. intros H.
  assert (∃ stem e, stem ∈ ["Packages"; "Sources"] ∧ flat_ext_of stem name = Some e)
    as (stem & e & Hst & He).
  { destruct (flat_ext_of "Packages" name) as [e|] eqn:E1.
    - exists "Packages", e. split; [set_solver|done].
    - destruct (flat_ext_of "Sources" name) as [e|] eqn:E2; [|done].
      exists "Sources", e. split; [set_solver|done]. }
  unfold FlatIndexNames. apply list_elem_of_In, in_flat_map.
  exists stem. split; [by apply list_elem_of_In|]. apply list_elem_of_In.
  apply flat_ext_of_name in He as [->|(x & Hx & ->)]; [constructor|].
  constructor 2. by apply (list_elem_of_fmap_2 (λ ext, stem +:+ ext)).
Qed.

(** On a flat suite the classifier, the grammar and the list of root
    index names agree: a path is classified as a flat index exactly when
    it is the suite, a slash and one of the fourteen [FlatIndexNames];
    and every such path belongs to that very suite. *)
Theorem ClassifySuiteFile_flat_index s p :
  IsFlatSuitePath s = true → len s <= MaxSuitePathBytes →
  (ClassifySuiteFile s p = FileFlatIndex ↔
   ∃ name, name ∈ FlatIndexNames ∧ p = s +:+ "/" +:+ name ∧ SuitePath p = s).
Proof.
  unfold IsFlatSuitePath, IsCanonicalSuitePath.
  intros [[Hs%negb_true_iff%String.eqb_neq Hc%String.eqb_eq]%andb_true_iff
            Hd]%andb_true_iff Hlen.
  assert (∀ name, name ∈ FlatIndexNames → SuitePath (s +:+ "/" +:+ name) = s) as Hmem.
  { intros name Hn. pose proof FlatIndexNames_ok as HF. rewrite forallb_forall in HF.
    apply list_elem_of_In, HF in Hn.
    rewrite !andb_true_iff, !negb_true_iff, String.eqb_neq in Hn.
    destruct Hn as [[[[[[? ?] ?] ?] ?] ?] ?].
    rewrite <-Hc at 1. rewrite SuitePath_suite_member; by rewrite ?Hc. }
  unfold ClassifySuiteFile.
  apply String.eqb_neq in Hs as Hs'. rewrite Hs'.
  replace (MaxSuitePathBytes <? len s) with false by (symmetry; apply Z.ltb_ge; lia).
  cbn [orb]. split.
  - destruct (cut_prefix p (s +:+ "/")) as [name|] eqn:E; [|done].
    apply cut_prefix_spec in E as ->. rewrite append_assoc.
    repeat (case_match; try done). intros _.
    assert (name ∈ FlatIndexNames) by (apply flatIndexExt_names; congruence).
    exists name. auto.
  - intros (name & Hn & -> & _).
    rewrite <-append_assoc, cut_prefix_app.
    pose proof FlatIndexNames_ok as HF. rewrite forallb_forall in HF.
    apply list_elem_of_In, HF in Hn.
    rewrite !andb_true_iff, !negb_true_iff, bool_decide_eq_false in Hn.
    destruct Hn as [[_ Hext] Hnot].
    repeat match goal with |- context [String.eqb name ?x] =>
      destruct (String.eqb_spec name x) as [->|?]; [exfalso; apply Hnot; set_solver|] end.
    destruct (flatIndexExt name); [|done]. by rewrite Hd.
Qed.
End grammar_laws.

(** ** The encoder *)

Section encoding_laws.

Lemma count_zero_written p : count_escapes p = 0 → write_escaped p = p.
Proof.
  assert (∀ q, 0 <= count_escapes q) as Hnn.
  { induction q as [|c q IH]; cbn [count_escapes]; [lia|]. destruct (needsEscape c); lia. }
  induction p as [|c p IH]; [done|]. cbn [count_escapes write_escaped].
  specialize (Hnn p). destruct (needsEscape c); [lia|]. intros. by rewrite IH.
Qed.

(** The shortcut for a path with nothing to escape changes nothing. *)
Lemma AptEncodePath_written p : AptEncodePath p = write_escaped p.
Proof.
  unfold AptEncodePath. destruct (count_escapes p =? 0) eqn:E; [|done].
  symmetry. by apply count_zero_written, Z.eqb_eq.
Qed.

Lemma plain_byte_valid :
  ∀ c, needsEscape c || (valid_byte c encodePath && negb (Ascii.eqb c "%")) = true.
Proof. by_all_bytes. Qed.

Lemma AptEncodePath_valid p : validEncoded (AptEncodePath p) encodePath = true.
Proof.
  rewrite AptEncodePath_written. induction p as [|c p IH]; [done|]. cbn [write_escaped].
  pose proof (plain_byte_valid c) as Hc. destruct (needsEscape c).
  - unfold validEncoded. rewrite string_forallb_append.
    by apply andb_true_iff; split; [apply percent_lower_valid|].
  - apply andb_true_iff in Hc as [Hc _]. unfold validEncoded. cbn [string_forallb].
    by rewrite Hc.
Qed.

Lemma AptEncodePath_unescape p : unescape (AptEncodePath p) = Some p.
Proof.
  rewrite AptEncodePath_written. induction p as [|c p IH]; [done|]. cbn [write_escaped].
  pose proof (plain_byte_valid c) as Hc. destruct (needsEscape c).
  - by rewrite percent_lower_unescape, IH.
  - apply andb_true_iff in Hc as [_ Hc]. apply negb_true_iff in Hc.
    cbn [unescape]. by rewrite Hc, IH.
Qed.

Lemma AptEncodePath_escaped scheme authority p :
  EscapedPath {| u_scheme := scheme; u_host := authority; u_path := p;
                 u_rawpath := AptEncodePath p |} = AptEncodePath p.
Proof.
  unfold EscapedPath. cbn [u_rawpath u_path].
  rewrite AptEncodePath_valid, AptEncodePath_unescape, bool_decide_true by done.
  destruct (String.eqb_spec (AptEncodePath p) "") as [E|_]; [|done].
  pose proof (AptEncodePath_unescape p) as Hu. rewrite E in *. by injection Hu as <-.
Qed.

Lemma BuildUpstreamURL_escaped scheme authority p :
  BuildUpstreamURL scheme authority p =
    url_string {| u_scheme := scheme; u_host := authority; u_path := p;
                  u_rawpath := AptEncodePath p |}.
Proof. unfold BuildUpstreamURL. by rewrite AptEncodePath_escaped, String.eqb_refl. Qed.

Lemma AptEncodePath_slash p : has_prefix "/" p = true → has_prefix "/" (AptEncodePath p) = true.
Proof. intros [r ->]%has_prefix_spec. rewrite AptEncodePath_written. by apply (has_prefix_app "/"). Qed.

Lemma write_escaped_slash p r : write_escaped p = String slash r → ∃ q, p = String slash q ∧ write_escaped q = r.
Proof.
  destruct p as [|c q]; [done|]. cbn [write_escaped]. destruct (needsEscape c); [done|]. intros [= -> <-]. eauto.
Qed.

Lemma AptEncodePath_no_authority p : has_prefix "//" p = false → has_prefix "//" (AptEncodePath p) = false.
Proof.
  rewrite AptEncodePath_written. destruct (has_prefix "//" (write_escaped p)) eqn:E; [|done].
  apply has_prefix_spec in E as [r Hr]. apply write_escaped_slash in Hr as (q & -> & Hr).
  apply write_escaped_slash in Hr as (q' & -> & _). intros Hp. pose proof (has_prefix_app "//" q') as Ht.
  change ("//" +:+ q') with (String slash (String slash q')) in Ht. congruence.
Qed.

(** The URL of an absolute path. *)
Lemma BuildUpstreamURL_absolute scheme authority p :
  scheme ≠ "" → authority ≠ "" → has_prefix "/" p = true →
  BuildUpstreamURL scheme authority p =
    scheme +:+ "://" +:+ escape authority encodeHost +:+ AptEncodePath p.
Proof.
  intros Hs Ha Hp. rewrite BuildUpstreamURL_escaped. unfold url_string. rewrite AptEncodePath_escaped.
  cbn [u_scheme u_host u_path].
  apply String.eqb_neq in Hs as ->. apply String.eqb_neq in Ha as ->. cbn [negb orb].
  rewrite (AptEncodePath_slash p Hp).
  rewrite andb_false_r, !append_assoc. cbn [andb].
  destruct (String.eqb_spec (scheme +:+ ":" +:+ "//" +:+ escape authority encodeHost +:+ "") "")
    as [E|_]; [|done].
  apply (f_equal String.length) in E. rewrite !length_append in E. simpl in E. lia.
Qed.

(** The upstream receives apt's own encoding: [net/url] uses
    [AptEncodePath]'s bytes verbatim for every path (the fallback of
    [BuildUpstreamURL] is unreachable), so the URL of an absolute path is
    scheme, authority and encoded path; and the upstream decodes exactly
    the path that was asked for. *)
Theorem BuildUpstreamURL_apt_encoded scheme authority p :
  BuildUpstreamURL scheme authority p =
    url_string {| u_scheme := scheme; u_host := authority; u_path := p;
                  u_rawpath := AptEncodePath p |} ∧
  unescape (AptEncodePath p) = Some p ∧
  (scheme ≠ "" → authority ≠ "" → has_prefix "/" p = true →
   BuildUpstreamURL scheme authority p =
     scheme +:+ "://" +:+ escape authority encodeHost +:+ AptEncodePath p).
Proof.
  split_and!; [apply BuildUpstreamURL_escaped|apply AptEncodePath_unescape|apply BuildUpstreamURL_absolute].
Qed.
End encoding_laws.

(** ** The sniffs *)

Section sniff_laws.

(** A body is its first line and what the line ends with: nothing, or a
    newline and the rest. *)
Lemma first_line_split b :
  ∃ tail, b = first_line b +:+ tail ∧ contains_byte lf (first_line b) = false ∧
    (tail = "" ∨ ∃ t, tail = String lf t).
Proof.
  unfold first_line. destruct (cut_byte lf b) as [[a t]|] eqn:E.
  - apply cut_byte_spec in E as [-> Ha]. exists (String lf t). eauto.
  - exists "". rewrite append_nil_r. apply cut_byte_none in E. auto.
Qed.

Lemma first_line_app a tail :
  contains_byte lf a = false → (tail = "" ∨ ∃ t, tail = String lf t) →
  first_line (a +:+ tail) = a.
Proof.
  intros Ha Ht. unfold first_line.
  destruct (cut_byte lf (a +:+ tail)) as [[x y]|] eqn:E.
  - apply cut_byte_spec in E as [E Hx]. destruct Ht as [->|[t ->]].
    + rewrite append_nil_r in E. subst a. rewrite contains_byte_append in Ha.
      apply orb_false_iff in Ha as [_ Ha]. unfold contains_byte in Ha.
      cbn [string_existsb] in Ha. by rewrite Ascii.eqb_refl in Ha.
    + revert x E Hx. induction a as [|c a IH]; intros [|d x] E Hx; [done| | |].
      * rewrite append_cons, append_empty in E. injection E as E1 E2. subst d.
        unfold contains_byte in Hx. cbn in Hx. done.
      * rewrite append_cons, append_empty in E. injection E as E1 E2. subst c.
        unfold contains_byte in Ha. cbn in Ha. done.
      * rewrite !append_cons in E. injection E as <- E.
        unfold contains_byte in *. cbn [string_existsb] in Ha, Hx.
        apply orb_false_iff in Ha as [_ Ha]. apply orb_false_iff in Hx as [_ Hx].
        f_equal. by apply IH.
  - apply cut_byte_none in E. destruct Ht as [->|[t ->]]; [by rewrite append_nil_r|].
    rewrite contains_byte_append in E. apply orb_false_iff in E as [_ E].
    unfold contains_byte in E. cbn [string_existsb] in E. by rewrite Ascii.eqb_refl in E.
Qed.

Lemma get_byte_last a c tail : get_byte (String.length a) (a +:+ String c tail) = Some c.
Proof. induction a as [|d a IH]; [done|]. rewrite append_cons. exact IH. Qed.

(** What [trim_right] removes: a suffix of bytes in the set. *)
Lemma trim_right_split f s :
  ∃ t, s = trim_right f s +:+ t ∧ string_forallb f t = true.
Proof.
  induction s as [|c s (t & Hs & Ht)]; [by exists ""|]. cbn [trim_right].
  destruct (trim_right f s) as [|d r] eqn:E.
  - rewrite append_empty in Hs. subst t. destruct (f c) eqn:Hc.
    + exists (String c s). split; [done|]. cbn [string_forallb]. by rewrite Hc.
    + by exists s.
  - exists t. split; [|done]. by rewrite append_cons, <-Hs.
Qed.

Lemma trim_right_exact f s t :
  trim_right f s = s → string_forallb f t = true → trim_right f (s +:+ t) = s.
Proof.
  intros Hs Ht.
  assert (trim_right f t = "") as Hte.
  { clear Hs. induction t as [|c t IH]; [done|]. cbn [string_forallb trim_right] in *.
    apply andb_true_iff in Ht as [Hc Ht]. by rewrite IH, Hc. }
  revert Hs. induction s as [|c s IH]; intros Hs; [by rewrite append_empty|].
  rewrite append_cons. cbn [trim_right] in *.
  destruct (trim_right f s) as [|d r] eqn:E.
  - destruct (f c) eqn:Hc; [done|]. injection Hs as <-.
    by rewrite append_empty, Hte.
  - injection Hs as Hs. rewrite IH by done. by rewrite <-Hs.
Qed.

(** What the clearsign decoder is handed passes apt's sniff exactly
    when the body does; a body that fails is passed through untouched, and
    one that passes differs at most in the blanks that follow the marker on
    its first line, which becomes the bare marker (or the marker and one
    CR): the signed text after the first line is the body's own. *)
Theorem DecodableClearsign_correct b :
  SniffInRelease (DecodableClearsign b) = SniffInRelease b ∧
  (SniffInRelease b = false → DecodableClearsign b = b) ∧
  (SniffInRelease b = true →
   ∃ blanks tail, b = clearsignBegin +:+ blanks +:+ tail ∧
     string_forallb is_trail blanks = true ∧
     (tail = "" ∨ ∃ t, tail = String lf t) ∧
     (DecodableClearsign b = clearsignBegin +:+ tail ∨
      (blanks = String (chr 13) "" ∧ DecodableClearsign b = b))).
Proof.
  assert (contains_byte lf clearsignBegin = false) as Hlf by done.
  assert (trim_right is_trail clearsignBegin = clearsignBegin) as Htr by done.
  destruct (SniffInRelease b) eqn:E; cycle 1.
  { assert (DecodableClearsign b = b) as Hb by (unfold DecodableClearsign; by rewrite E).
    by rewrite Hb. }
  destruct (first_line_split b) as (tail & Hb & Hl & Ht).
  pose proof E as E'. unfold SniffInRelease in E'. apply String.eqb_eq in E'.
  destruct (trim_right_split is_trail (first_line b)) as (blanks & Hfl & Hbl).
  rewrite E' in Hfl.
  assert (b = clearsignBegin +:+ blanks +:+ tail) as Hbb.
  { rewrite Hb at 1. rewrite Hfl. by rewrite append_assoc. }
  assert (DecodableClearsign b = clearsignBegin +:+ tail ∨
          (blanks = String (chr 13) "" ∧ DecodableClearsign b = b)) as Hd.
  { unfold DecodableClearsign. rewrite E. cbn [negb].
    assert (drop_bytes (String.length (first_line b)) b = tail) as ->.
    { rewrite Hb at 2. by rewrite drop_bytes_app. }
    rewrite Hfl, length_append. set (n := String.length clearsignBegin).
    destruct blanks as [|c blanks]; [left|].
    { rewrite append_empty in Hbb. rewrite Nat.add_0_r, Nat.eqb_refl. exact Hbb. }
    cbn [String.length].
    replace (n + S (String.length blanks) =? n)%nat with false
      by (symmetry; apply Nat.eqb_neq; lia). cbn [orb].
    destruct (n + S (String.length blanks) =? n + 1)%nat eqn:En; [|by left].
    apply Nat.eqb_eq in En. destruct blanks; [|simpl in En; lia]. cbn [andb].
    replace (n + S (String.length "") - 1)%nat with n by (cbn [String.length]; lia).
    destruct (bool_decide _) eqn:Eb; [right|by left].
    apply bool_decide_eq_true in Eb. rewrite Hbb, append_cons, append_empty in Eb.
    unfold n in Eb. rewrite get_byte_last in Eb. by injection Eb as ->. }
  split_and!; [|done|intros _; by exists blanks, tail].
  destruct Hd as [->|[_ ->]]; [|done].
  unfold SniffInRelease. rewrite first_line_app by done. by rewrite Htr, String.eqb_refl.
Qed.

(** Twin suites share a marker base; the base of a base is not cut again
    unless the suite itself ended in two dots. *)
Lemma MarkerBase_twin s : MarkerBase (s +:+ "/.") = s.
Proof. apply trim_suffix_app. Qed.

(** A UTF-8 character never passes for a binary signature packet: after the
    lead byte 0xC2 and a continuation byte, the third byte decides, and
    only the control codes 3 to 6 pass. *)
Lemma SniffReleaseGPG_text c d rest :
  byte c = 194 → 128 <= byte d < 192 →
  SniffReleaseGPG (String c (String d rest)) = true →
  ∃ v rest', rest = String v rest' ∧ 3 <= byte v <= 6.
Proof.
  intros Hc Hd H. assert (c = chr 194) as -> by (by rewrite <-Hc, chr_byte).
  unfold SniffReleaseGPG in H.
  destruct (has_prefix armorSigBegin _) eqn:E; [by cbn in E|].
  cbn [sigPacketBodyOffset] in H. change (byte (chr 194)) with 194 in H. simpl in H.
  replace (byte d <? 192) with true in H by (symmetry; apply Z.ltb_lt; lia).
  destruct rest as [|v r]; [done|]. cbn in H. apply andb_true_iff in H as [H1 H2].
  exists v, r. split; [done|]. lia.
Qed.
End sniff_laws.

(** ** Instances *)

Lemma SuitePath_canonical_prefix_witness :
  IsCanonicalSuitePath "/debian/dists/bookworm" = true ∧
  ∃ member, member ≠ "" ∧
    "/debian/dists/bookworm/main/binary-amd64/Packages.xz"
    = "/debian/dists/bookworm" +:+ "/" +:+ member.
Proof.
  refine (SuitePath_canonical_prefix "/debian/dists/bookworm/main/binary-amd64/Packages.xz" _).
  vm_compute. discriminate.
Defined.

Lemma ClassifySuiteFile_flat_index_witness :
  ClassifySuiteFile "/repo/." "/repo/./Packages.xz" = FileFlatIndex ↔
  ∃ name, name ∈ FlatIndexNames ∧ "/repo/./Packages.xz" = "/repo/." +:+ "/" +:+ name ∧
    SuitePath "/repo/./Packages.xz" = "/repo/.".
Proof.
  apply (ClassifySuiteFile_flat_index "/repo/." "/repo/./Packages.xz");
    vm_compute; congruence.
Defined.

Lemma BuildUpstreamURL_apt_encoded_witness :
  BuildUpstreamURL "http" "deb.debian.org" "/pool/g++_1~a.deb"
  = "http" +:+ "://" +:+ escape "deb.debian.org" encodeHost +:+ AptEncodePath "/pool/g++_1~a.deb".
Proof.
  apply (BuildUpstreamURL_apt_encoded "http" "deb.debian.org" "/pool/g++_1~a.deb");
    vm_compute; congruence.
Defined.

Lemma DecodableClearsign_correct_witness :
  ∃ blanks tail,
    clearsignBegin +:+ "  " +:+ String lf "Hash: SHA512"
    = clearsignBegin +:+ blanks +:+ tail ∧
    string_forallb is_trail blanks = true ∧
    (tail = "" ∨ ∃ t, tail = String lf t) ∧
    (DecodableClearsign (clearsignBegin +:+ "  " +:+ String lf "Hash: SHA512")
     = clearsignBegin +:+ tail ∨
     (blanks = String (chr 13) "" ∧
      DecodableClearsign (clearsignBegin +:+ "  " +:+ String lf "Hash: SHA512")
      = clearsignBegin +:+ "  " +:+ String lf "Hash: SHA512")).
Proof.
  apply (proj2 (proj2
    (DecodableClearsign_correct (clearsignBegin +:+ "  " +:+ String lf "Hash: SHA512")))).
  vm_compute. reflexivity.
Defined.
