(* ===== verification/DebVersion.v ===== *)
(** * Debian version ordering ([internal/debversion/debversion.go])

    [Compare] and dpkg's [verrevcmp], with the two nested loops of the source
    as recursive functions on what is left of each string.  The laws show
    that the loops compute the lexicographic order of a key (the weights of
    the text runs and the values of the digit runs, padded with zeros), so
    that [Compare] is a total preorder: what ranking versions needs. *)
From S2P Require Import Prelude GoStrings.
Local Open Scope Z_scope.

Definition isDigit (c : ascii) : bool := is_digit c.

(** [byteAt(s, 0)] of what is left of a string. *)
Definition byteAt (s : string) : ascii :=
  match s with String c _ => c | EmptyString => chr 0 end.

Definition order (c : ascii) : Z :=
  if isDigit c then 0
  else if is_lower c || is_upper c then byte c
  else if Ascii.eqb c "~" then -1
  else if byte c =? 0 then 0
  else byte c + 256.

Definition clamp (n : Z) : Z := if n <? 0 then -1 else if 0 <? n then 1 else 0.

Definition isAllDigits (s : string) : bool :=
  if String.eqb s "" then false else string_forallb isDigit s.

(** [compareNumericString], with Go's comparison of strings by bytes. *)
Definition compareNumericString (a b : string) : Z :=
  let a := trim_left (Ascii.eqb "0") a in
  let b := trim_left (Ascii.eqb "0") b in
  if negb (len a =? len b) then (if len a <? len b then -1 else 1)
  else match String.compare a b with Lt => -1 | Gt => 1 | Eq => 0 end.

Definition parse (v : string) : string * string * string :=
  let '(epoch, rest) :=
    match cut_byte ":" v with
    | Some (e, r) => if negb (String.eqb e "") && isAllDigits e then (e, r) else ("", v)
    | None => ("", v)
    end in
  match rcut_byte "-" rest with
  | Some (u, r) => (epoch, u, r)
  | None => (epoch, rest, "")
  end.

(** A text or a digit character is next. *)
Definition at_text (s : string) : bool :=
  match s with String c _ => negb (isDigit c) | EmptyString => false end.
Definition at_digit (s : string) : bool :=
  match s with String c _ => isDigit c | EmptyString => false end.

(** The inner loop over the text runs: the result of the function ([inl]),
    or what is left when both sides are past their run. *)
Fixpoint text_loop (fuel : nat) (a b : string) : Z + string * string :=
  match fuel with
  | O => inr (a, b)
  | S fuel =>
      if at_text a || at_text b then
        let ac := order (byteAt a) in
        let bc := order (byteAt b) in
        if negb (ac =? bc) then inl (clamp (ac - bc))
        else text_loop fuel (drop_bytes 1 a) (drop_bytes 1 b)
      else inr (a, b)
  end.

(** The inner loop over the digit runs, with the first difference. *)
Fixpoint digit_loop (a b : string) (firstDiff : Z) : string * string * Z :=
  match a, b with
  | String c a', String d b' =>
      if isDigit c && isDigit d then
        digit_loop a' b' (if firstDiff =? 0 then byte c - byte d else firstDiff)
      else (a, b, firstDiff)
  | _, _ => (a, b, firstDiff)
  end.

(** The outer loop; each round consumes a character or returns, so the two
    lengths are enough fuel. *)
Fixpoint verrev_loop (fuel : nat) (a b : string) : Z :=
  match fuel with
  | O => 0
  | S fuel =>
      if String.eqb a "" && String.eqb b "" then 0
      else
        match text_loop (String.length a + String.length b) a b with
        | inl c => c
        | inr (a, b) =>
            let a := trim_left (Ascii.eqb "0") a in
            let b := trim_left (Ascii.eqb "0") b in
            let '(a, b, firstDiff) := digit_loop a b 0 in
            if at_digit a then 1
            else if at_digit b then -1
            else if negb (firstDiff =? 0) then clamp firstDiff
            else verrev_loop fuel a b
        end
  end.

Definition verrevcmp (a b : string) : Z :=
  verrev_loop (S (String.length a + String.length b)) a b.

Definition Compare (a b : string) : Z :=
  let '(ea, ua, ra) := parse a in
  let '(eb, ub, rb) := parse b in
  let c := compareNumericString ea eb in
  if negb (c =? 0) then c
  else
    let c := verrevcmp ua ub in
    if negb (c =? 0) then c else verrevcmp ra rb.

(** ** The reference order *)

Definition digit_val (c : ascii) : Z := byte c - 48.

Fixpoint num_from (acc : Z) (s : string) : Z :=
  match s with
  | EmptyString => acc
  | String c s => num_from (10 * acc + digit_val c) s
  end.

(** The value of a digit string. *)
Definition num (s : string) : Z := num_from 0 s.

(** The key of a version part: the weights of a text run, a 0 that ends it,
    the value of the digit run, and so on.  [n] is the digit run being read. *)
Fixpoint vkey (n : option Z) (s : string) : list Z :=
  match s, n with
  | EmptyString, None => []
  | EmptyString, Some v => [v]
  | String c s, None => if isDigit c then 0 :: vkey (Some (digit_val c)) s
                        else order c :: vkey None s
  | String c s, Some v => if isDigit c then vkey (Some (10 * v + digit_val c)) s
                          else v :: order c :: vkey None s
  end.

Fixpoint sign_pad (l : list Z) : Z :=
  match l with
  | [] => 0
  | x :: l => if x =? 0 then sign_pad l else Z.sgn x
  end.

(** Lexicographic comparison of two lists continued with zeros. *)
Fixpoint lexz (l k : list Z) : Z :=
  match l, k with
  | [], _ => - sign_pad k
  | _, [] => sign_pad l
  | x :: l, y :: k => if x =? y then lexz l k else Z.sgn (x - y)
  end.

Definition nul_free (s : string) : bool := negb (contains_byte (chr 0) s).

(** The key of a whole version: epoch, upstream and revision. *)
Definition version_key (v : string) : Z * list Z * list Z :=
  let '(e, u, r) := parse v in (num e, vkey None u, vkey None r).

Definition key_cmp3 (x y : Z * list Z * list Z) : Z :=
  let '(e1, u1, r1) := x in
  let '(e2, u2, r2) := y in
  if negb (e1 =? e2) then Z.sgn (e1 - e2)
  else if negb (lexz u1 u2 =? 0) then lexz u1 u2 else lexz r1 r2.

Example compare_tilde : Compare "1.0~rc1" "1.0" = -1.
Proof. vm_compute. reflexivity. Qed.
Example compare_epoch : Compare "1:0.1" "99.9-1" = 1.
Proof. vm_compute. reflexivity. Qed.
Example compare_zeros : Compare "1.010-0" "1.10" = 0.
Proof. vm_compute. reflexivity. Qed.

(** ** Laws of the padded lexicographic order *)

Section lexz_laws.
Implicit Types l k m : list Z.

Lemma lexz_unfold l k :
  lexz l k =
    match l, k with
    | [], [] => 0
    | _, _ => if hd 0 l =? hd 0 k then lexz (tl l) (tl k) else Z.sgn (hd 0 l - hd 0 k)
    end.
Proof.
  destruct l as [|x l], k as [|y k]; try done; cbn [hd tl lexz sign_pad].
  - destruct (Z.eqb_spec y 0) as [->|Hy]; [by destruct k|].
    destruct (Z.eqb_spec 0 y); lia.
  - rewrite Z.sub_0_r. destruct (x =? 0); [|done]. by destruct l.
Qed.

Lemma lexz_refl l : lexz l l = 0.
Proof. induction l as [|x l IH]; [done|]. cbn. by rewrite Z.eqb_refl. Qed.

Lemma lexz_antisym l k : lexz k l = - lexz l k.
Proof.
  revert k. induction l as [|x l IH]; intros [|y k]; try done; cbn [lexz].
  - by rewrite Z.opp_involutive.
  - rewrite Z.eqb_sym. destruct (x =? y); [done|]. lia.
Qed.

Lemma lexz_range l k : -1 <= lexz l k <= 1.
Proof.
  assert (∀ l, -1 <= sign_pad l <= 1) as Hs.
  { clear l k. induction l as [|x l IH]; cbn; [lia|].
    destruct (x =? 0); [done|]. lia. }
  revert k. induction l as [|x l IH]; intros k.
  - pose proof (Hs k). cbn [lexz]. lia.
  - destruct k as [|y k]; [apply (Hs (x :: l))|]. cbn [lexz].
    destruct (x =? y); [done|]. lia.
Qed.

Lemma lexz_trans l k m : lexz l k <= 0 → lexz k m <= 0 → lexz l m <= 0.
Proof.
  remember (length l + length k + length m)%nat as n eqn:Hn.
  revert l k m Hn. induction n as [n IH] using (well_founded_induction lt_wf).
  intros l k m Hn. rewrite (lexz_unfold l k), (lexz_unfold k m), (lexz_unfold l m).
  destruct l as [|x l], k as [|y k], m as [|z m]; cbn [hd tl]; try lia; intros H1 H2;
    repeat match goal with
    | H : context [?a =? ?b] |- _ => destruct (Z.eqb_spec a b); subst
    | |- context [?a =? ?b] => destruct (Z.eqb_spec a b); subst
    end; try lia;
    match goal with
    | |- lexz ?a ?c <= 0 =>
        match goal with
        | H1 : lexz a ?b <= 0, H2 : lexz ?b c <= 0 |- _ =>
            eapply (IH _ _ a b c eq_refl H1 H2)
        end
    | _ => idtac
    end; simpl in *; try lia.
  Unshelve. all: simpl in *; lia.
Qed.

(** Zeros at the end of a key do not count. *)
Lemma lexz_pad l k : lexz (l ++ [0]) k = lexz l k.
Proof.
  revert k. induction l as [|x l IH]; intros k.
  - rewrite lexz_unfold. destruct k as [|y k]; [done|].
    rewrite (lexz_unfold [] (y :: k)). done.
  - rewrite <-app_comm_cons. rewrite (lexz_unfold (x :: l ++ [0])), (lexz_unfold (x :: l)).
    cbn [hd tl]. destruct k; by rewrite IH.
Qed.
End lexz_laws.

(** ** Digit runs *)

Fixpoint digits (s : string) : string :=
  match s with
  | EmptyString => ""
  | String c s => if isDigit c then String c (digits s) else ""
  end.

Fixpoint rest (s : string) : string :=
  match s with
  | EmptyString => ""
  | String c s' => if isDigit c then rest s' else s
  end.

Section digit_laws.

Lemma isDigit_val c : isDigit c = true → 0 <= digit_val c <= 9.
Proof.
  unfold isDigit, is_digit, digit_val. intros [H1 H2]%andb_true_iff. lia.
Qed.

Lemma num_from_pow acc s : num_from acc s = acc * 10 ^ len s + num s.
Proof.
  unfold num. revert acc. induction s as [|c s IH]; intros acc.
  { change (10 ^ len "") with 1. cbn [num_from]. lia. }
  cbn [num_from]. rewrite (IH (10 * acc + digit_val c)), (IH (10 * 0 + digit_val c)).
  unfold len. cbn [String.length]. rewrite Nat2Z.inj_succ, Z.pow_succ_r by lia. ring.
Qed.

Lemma num_bounds s : string_forallb isDigit s = true → 0 <= num s < 10 ^ len s.
Proof.
  induction s as [|c s IH]; [done|]. cbn [string_forallb]. intros [Hc Hs]%andb_true_iff.
  specialize (IH Hs). apply isDigit_val in Hc.
  assert (num (String c s) = digit_val c * 10 ^ len s + num s) as ->.
  { unfold num at 1. cbn [num_from]. rewrite num_from_pow. lia. }
  unfold len in *. cbn [String.length]. rewrite Nat2Z.inj_succ, Z.pow_succ_r by lia. nia.
Qed.

Lemma digits_all s : string_forallb isDigit (digits s) = true.
Proof.
  induction s as [|c s IH]; [done|]. cbn [digits].
  destruct (isDigit c) eqn:E; [|done]. cbn [string_forallb]. by rewrite E.
Qed.

Lemma rest_no_digit s : at_digit (rest s) = false.
Proof.
  induction s as [|c s IH]; [done|]. cbn [rest]. destruct (isDigit c) eqn:E; [done|].
  cbn. by rewrite E.
Qed.

Lemma rest_length s : (String.length (rest s) ≤ String.length s)%nat.
Proof.
  induction s as [|c s IH]; [done|]. cbn [rest]. destruct (isDigit c); simpl; lia.
Qed.

Lemma at_digit_empty s : at_digit s = false → digits s = "" ∧ rest s = s.
Proof. destruct s as [|c s]; [done|]. cbn. by intros ->. Qed.

(** Leading zeros do not change the value, and what is left does not start
    with one. *)
Lemma strip_zeros s :
  num (digits (trim_left (Ascii.eqb "0") s)) = num (digits s) ∧
  rest (trim_left (Ascii.eqb "0") s) = rest s ∧
  (String.length (trim_left (Ascii.eqb "0") s) ≤ String.length s)%nat ∧
  byteAt (trim_left (Ascii.eqb "0") s) ≠ "0"%char.
Proof.
  induction s as [|c s (IH1 & IH2 & IH3 & IH4)]; [done|]. cbn [trim_left].
  destruct (Ascii.eqb_spec "0" c) as [<-|Hne].
  - cbn [digits rest String.length]. change (isDigit "0") with true. cbn match.
    rewrite IH1, IH2. split_and!; [done|done|lia|done].
  - split_and!; [done|done|done|]. cbn. congruence.
Qed.

Lemma digits_lead c s :
  isDigit c = true → c ≠ "0"%char → digits (String c s) = String c (digits s) ∧
  10 ^ len (digits s) <= num (digits (String c s)).
Proof.
  intros Hc Hne. cbn [digits]. rewrite Hc. split; [done|].
  unfold num. cbn [num_from]. rewrite num_from_pow.
  pose proof (num_bounds _ (digits_all s)).
  assert (1 <= digit_val c) as Hv.
  { pose proof (isDigit_val _ Hc). destruct (Z.eq_dec (digit_val c) 0) as [E|]; [|lia].
    exfalso. apply Hne, byte_inj. unfold digit_val in E. change (byte "0") with 48. lia. }
  nia.
Qed.

(** A longer run without leading zeros is a larger number. *)
Lemma longer_larger a b :
  byteAt a ≠ "0"%char → len (digits b) < len (digits a) →
  num (digits b) < num (digits a).
Proof.
  intros H0 Hl. pose proof (num_bounds _ (digits_all b)) as Hb.
  assert (0 <= len (digits b)) as Hnn by apply len_nonneg.
  destruct a as [|c a]; [change (len (digits "")) with 0 in Hl; lia|].
  destruct (isDigit c) eqn:Hc.
  2:{ cbn [digits] in Hl. rewrite Hc in Hl. change (len "") with 0 in Hl. lia. }
  destruct (digits_lead c a Hc H0) as [Hd Hge].
  rewrite Hd in Hl. unfold len in Hl at 2. cbn [String.length] in Hl.
  assert (10 ^ len (digits b) <= 10 ^ len (digits a)).
  { apply Z.pow_le_mono_r; [lia|]. unfold len in *. lia. }
  lia.
Qed.

(** Two runs of one length compare by their first difference; [x] and [y]
    are the values read so far. *)
Lemma digit_loop_spec a b fd x y :
  Z.sgn fd = Z.sgn (x - y) →
  let '(a2, b2, fd2) := digit_loop a b fd in
  (len (digits b) < len (digits a) → at_digit a2 = true) ∧
  (len (digits a) < len (digits b) → at_digit a2 = false ∧ at_digit b2 = true) ∧
  (len (digits a) = len (digits b) →
   a2 = rest a ∧ b2 = rest b ∧
   Z.sgn fd2 = Z.sgn (num_from x (digits a) - num_from y (digits b))).
Proof.
  revert b fd x y. induction a as [|c a IH]; intros [|d b] fd x y Hfd.
  - cbn. split_and!; done || lia.
  - cbn [digit_loop digits rest at_digit num_from]. unfold len.
    destruct (isDigit d); simpl; split_and!; done || lia.
  - cbn [digit_loop digits rest at_digit num_from]. unfold len.
    destruct (isDigit c); simpl; split_and!; done || lia.
  - cbn [digit_loop digits rest].
    destruct (isDigit c) eqn:Hc, (isDigit d) eqn:Hd; cbn [andb].
    + specialize (IH b (if fd =? 0 then byte c - byte d else fd)
                    (10 * x + digit_val c) (10 * y + digit_val d)).
      destruct (digit_loop a b _) as [[a2 b2] fd2]. unfold len in *. cbn [String.length num_from].
      destruct IH as (H1 & H2 & H3).
      { pose proof (isDigit_val _ Hc). pose proof (isDigit_val _ Hd).
        unfold digit_val in *.
        destruct (Z.eqb_spec fd 0) as [->|Hne].
        - assert (x = y) as -> by lia. f_equal. lia.
        - rewrite Hfd. destruct (Z.lt_trichotomy x y) as [|[->|]]; [| |].
          + rewrite !Z.sgn_neg by lia. done.
          + rewrite Z.sub_diag in Hfd. simpl in Hfd. lia.
          + rewrite !Z.sgn_pos by lia. done. }
      split_and!; intros ?; [apply H1|apply H2|apply H3]; lia.
    + cbn. rewrite Hc. unfold len. simpl. split_and!; done || lia.
    + cbn. rewrite Hc, Hd. unfold len. simpl. split_and!; done || lia.
    + cbn. split_and!; done.
Qed.

Lemma clamp_sgn n : clamp n = Z.sgn n.
Proof.
  unfold clamp. destruct (Z.ltb_spec n 0); [by rewrite Z.sgn_neg|].
  destruct (Z.ltb_spec 0 n); [by rewrite Z.sgn_pos|]. replace n with 0 by lia. done.
Qed.
End digit_laws.

(** ** The loops compute the order of the keys *)

Section verrev_laws.

Lemma order_text : ∀ c, isDigit c || (byte c =? 0) || negb (order c =? 0) = true.
Proof. by_all_bytes. Qed.

Lemma nul_free_cons c s :
  nul_free (String c s) = true ↔ byte c ≠ 0 ∧ nul_free s = true.
Proof.
  unfold nul_free, contains_byte. cbn [string_existsb].
  rewrite negb_orb, andb_true_iff, !negb_true_iff. split; intros [H1 H2]; split; try done.
  - intros H0. apply Ascii.eqb_neq in H1. apply H1, byte_inj. by rewrite H0.
  - apply Ascii.eqb_neq. intros <-. by apply H1.
Qed.

(** The head of a key is the weight of the next character, 0 at the end. *)
Lemma vkey_head s : hd 0 (vkey None s) = order (byteAt s).
Proof.
  destruct s as [|c s]; [done|]. cbn [vkey byteAt]. destruct (isDigit c) eqn:E; [|done].
  unfold order. by rewrite E.
Qed.

Lemma text_loop_spec fuel a b :
  nul_free a = true → nul_free b = true →
  (String.length a + String.length b ≤ fuel)%nat →
  match text_loop fuel a b with
  | inl c => lexz (vkey None a) (vkey None b) = c
  | inr (a', b') =>
      at_text a' = false ∧ at_text b' = false ∧
      lexz (vkey None a) (vkey None b) = lexz (vkey None a') (vkey None b') ∧
      nul_free a' = true ∧ nul_free b' = true ∧
      (String.length a' + String.length b' ≤ String.length a + String.length b)%nat ∧
      (if at_text a || at_text b
       then (String.length a' + String.length b' < String.length a + String.length b)%nat
       else a' = a ∧ b' = b)
  end.
Proof.
  revert a b. induction fuel as [|fuel IH]; intros a b Ha Hb Hf; cbn [text_loop].
  { destruct a, b; simpl in Hf; try lia. simpl. done. }
  destruct (at_text a || at_text b) eqn:Ht.
  2:{ apply orb_false_iff in Ht as [Hta Htb]. rewrite Hta, Htb. split_and!; done. }
  destruct (Z.eqb_spec (order (byteAt a)) (order (byteAt b))) as [Heq|Hne]; cbn [negb].
  2:{ rewrite clamp_sgn, lexz_unfold, !vkey_head.
      destruct (Z.eqb_spec (order (byteAt a)) (order (byteAt b))); [lia|].
      destruct (vkey None a) eqn:E1, (vkey None b) eqn:E2; try done.
      pose proof (vkey_head a) as H1. pose proof (vkey_head b) as H2.
      rewrite E1 in H1. rewrite E2 in H2. simpl in *. congruence. }
  assert (at_text a = true ∧ at_text b = true) as [Hta Htb].
  { assert (∀ s, nul_free s = true → at_text s = true ↔ order (byteAt s) ≠ 0) as Hs.
    { intros [|c s] Hs; cbn; [split; [done|intros Hc; by destruct Hc]|].
      apply nul_free_cons in Hs as [Hc _]. pose proof (order_text c) as Ho.
      rewrite !orb_true_iff, negb_true_iff, Z.eqb_eq, Z.eqb_neq in Ho.
      rewrite negb_true_iff. destruct (isDigit c) eqn:E; [|intuition congruence].
      unfold order. rewrite E. split; [done|]. by intros []. }
    rewrite !Hs by done. apply orb_true_iff in Ht.
    destruct Ht as [Ht|Ht]; rewrite Hs in Ht by done; by rewrite Heq in * || by rewrite <-Heq in *. }
  destruct a as [|c a]; [done|]. destruct b as [|d b]; [done|].
  cbn [at_text] in Hta, Htb. cbn [byteAt] in Heq. cbn [drop_bytes].
  apply nul_free_cons in Ha as [_ Ha]. apply nul_free_cons in Hb as [_ Hb].
  assert (String.length a + String.length b ≤ fuel)%nat as Hf' by (simpl in Hf; lia).
  specialize (IH a b Ha Hb Hf').
  apply negb_true_iff in Hta, Htb. cbn [vkey]. rewrite Hta, Htb. cbn [lexz].
  rewrite Heq, Z.eqb_refl.
  destruct (text_loop fuel a b) as [c'|[a' b']]; [done|].
  destruct IH as (? & ? & ? & ? & ? & ? & _). simpl. split_and!; done || lia.
Qed.

Lemma vkey_digits v s :
  vkey (Some v) s = num_from v (digits s) :: vkey None (rest s).
Proof.
  revert v. induction s as [|c s IH]; intros v; [done|]. cbn [vkey digits rest].
  destruct (isDigit c) eqn:E; [by rewrite IH|]. cbn [num_from vkey]. by rewrite E.
Qed.

(** Past a text run, a key is its end mark, a number and the rest. *)
Lemma vkey_round s k :
  at_text s = false →
  lexz (vkey None s) k = lexz (0 :: num (digits s) :: vkey None (rest s)) k.
Proof.
  destruct s as [|c s]; cbn [at_text].
  - intros _. change (num (digits "")) with 0. change (vkey None (rest "")) with (@nil Z).
    change (vkey None "") with (@nil Z). change [0; 0] with (([] ++ [0]) ++ [0]).
    by rewrite !lexz_pad.
  - intros E%negb_false_iff. cbn [vkey digits rest]. rewrite E, vkey_digits.
    unfold num. cbn [num_from]. by rewrite Z.mul_0_r, Z.add_0_l.
Qed.

Lemma vkey_round2 a b :
  at_text a = false → at_text b = false →
  lexz (vkey None a) (vkey None b) =
    if num (digits a) =? num (digits b) then lexz (vkey None (rest a)) (vkey None (rest b))
    else Z.sgn (num (digits a) - num (digits b)).
Proof.
  intros Ha Hb. rewrite vkey_round by done.
  rewrite <-(Z.opp_involutive (lexz _ (vkey None b))), <-lexz_antisym, vkey_round by done.
  rewrite <-lexz_antisym. done.
Qed.

Lemma nul_free_rest s : nul_free s = true → nul_free (rest s) = true.
Proof.
  induction s as [|c s IH]; [done|]. intros H. cbn [rest].
  destruct (isDigit c); [|done]. apply nul_free_cons in H as [_ H]. by apply IH.
Qed.

(** The digit loops, from stripped runs: they decide exactly when the values
    differ. *)
Lemma digit_round a b :
  let a1 := trim_left (Ascii.eqb "0") a in
  let b1 := trim_left (Ascii.eqb "0") b in
  let '(a2, b2, fd) := digit_loop a1 b1 0 in
  (if at_digit a2 then Some 1 else if at_digit b2 then Some (-1)
   else if negb (fd =? 0) then Some (clamp fd) else None) =
  (if num (digits a) =? num (digits b) then None
   else Some (Z.sgn (num (digits a) - num (digits b)))) ∧
  (num (digits a) = num (digits b) → a2 = rest a ∧ b2 = rest b).
Proof.
  intros a1 b1.
  destruct (strip_zeros a) as (Ha1 & Ha2 & _ & Ha4). destruct (strip_zeros b) as (Hb1 & Hb2 & _ & Hb4).
  fold a1 in Ha1, Ha2, Ha4. fold b1 in Hb1, Hb2, Hb4.
  pose proof (digit_loop_spec a1 b1 0 0 0 eq_refl) as Hd.
  destruct (digit_loop a1 b1 0) as [[a2 b2] fd]. destruct Hd as (H1 & H2 & H3).
  rewrite <-Ha1, <-Hb1, <-Ha2, <-Hb2.
  destruct (Z.lt_trichotomy (len (digits a1)) (len (digits b1))) as [Hl|[Hl|Hl]].
  - destruct (H2 Hl) as [-> ->]. pose proof (longer_larger b1 a1 Hb4 Hl).
    destruct (Z.eqb_spec (num (digits a1)) (num (digits b1))); [lia|].
    split; [by rewrite Z.sgn_neg by lia|lia].
  - destruct (H3 Hl) as (-> & -> & Hs). rewrite !rest_no_digit, clamp_sgn.
    fold (num (digits a1)) in Hs. fold (num (digits b1)) in Hs. split; [|done].
    destruct (Z.eqb_spec (num (digits a1)) (num (digits b1))) as [E|E].
    + rewrite E, Z.sub_diag in Hs. replace fd with 0 by lia. done.
    + destruct (Z.eqb_spec fd 0) as [->|?]; [|cbn; by rewrite Hs].
      simpl in Hs. lia.
  - rewrite (H1 Hl). pose proof (longer_larger a1 b1 Ha4 Hl).
    destruct (Z.eqb_spec (num (digits a1)) (num (digits b1))); [lia|].
    split; [by rewrite Z.sgn_pos by lia|lia].
Qed.

Lemma at_text_rest_shorter s :
  at_text s = false → s ≠ "" → (String.length (rest s) < String.length s)%nat.
Proof.
  destruct s as [|c s]; [done|]. cbn [at_text rest]. intros ->%negb_false_iff _.
  pose proof (rest_length s). simpl. lia.
Qed.

Lemma verrev_loop_spec fuel a b :
  nul_free a = true → nul_free b = true →
  (String.length a + String.length b < fuel)%nat →
  verrev_loop fuel a b = lexz (vkey None a) (vkey None b).
Proof.
  revert a b. induction fuel as [|fuel IH]; intros a b Ha Hb Hf; [lia|]. cbn [verrev_loop].
  destruct (String.eqb a "" && String.eqb b "") eqn:E0.
  { apply andb_true_iff in E0 as [->%String.eqb_eq ->%String.eqb_eq]. done. }
  pose proof (text_loop_spec (String.length a + String.length b) a b Ha Hb (le_n _)) as Ht.
  destruct (text_loop _ a b) as [c|[a1 b1]]; [done|].
  destruct Ht as (Ht1 & Ht2 & -> & Hn1 & Hn2 & Hle & Hlt).
  pose proof (digit_round a1 b1) as Hd. cbn zeta in Hd.
  destruct (digit_loop _ _ 0) as [[a2 b2] fd]. destruct Hd as [Hd1 Hd2].
  rewrite vkey_round2 by done.
  destruct (Z.eqb_spec (num (digits a1)) (num (digits b1))) as [E|E].
  - destruct (Hd2 E) as [-> ->].
    destruct (at_digit (rest a1)); [done|]. destruct (at_digit (rest b1)); [done|].
    destruct (negb (fd =? 0)); [done|]. apply IH; [by apply nul_free_rest..|].
    pose proof (rest_length a1). pose proof (rest_length b1).
    destruct (at_text a || at_text b); [lia|]. destruct Hlt as [-> ->].
    apply andb_false_iff in E0 as [E0%String.eqb_neq|E0%String.eqb_neq].
    + pose proof (at_text_rest_shorter a Ht1 E0). lia.
    + pose proof (at_text_rest_shorter b Ht2 E0). lia.
  - destruct (at_digit a2); [congruence|]. destruct (at_digit b2); [congruence|].
    destruct (negb (fd =? 0)); congruence.
Qed.
End verrev_laws.

(** ** Versions *)

Section compare_laws.

Lemma ascii_compare_byte c d : Ascii.compare c d = (byte c ?= byte d).
Proof. unfold Ascii.compare, byte. symmetry. apply N2Z.inj_compare. Qed.

Lemma digit_string_compare a b :
  string_forallb isDigit a = true → string_forallb isDigit b = true → len a = len b →
  match String.compare a b with Lt => -1 | Gt => 1 | Eq => 0 end = Z.sgn (num a - num b).
Proof.
  revert b. induction a as [|c a IH]; intros [|d b] Ha Hb Hl; try done.
  cbn [string_forallb] in Ha, Hb. apply andb_true_iff in Ha as [Hc Ha], Hb as [Hd Hb].
  assert (len a = len b) as Hl' by (unfold len in *; simpl in Hl; lia).
  specialize (IH b Ha Hb Hl'). cbn [String.compare]. rewrite ascii_compare_byte.
  unfold num. cbn [num_from]. rewrite !(num_from_pow (10 * 0 + _)), Hl'.
  pose proof (num_bounds a Ha) as Hna. pose proof (num_bounds b Hb) as Hnb. rewrite Hl' in Hna.
  unfold digit_val. destruct (Z.compare_spec (byte c) (byte d)) as [E|E|E].
  - rewrite IH, E. f_equal. lia.
  - symmetry. apply Z.sgn_neg. nia.
  - symmetry. apply Z.sgn_pos. nia.
Qed.

Lemma digits_id s : string_forallb isDigit s = true → digits s = s.
Proof.
  induction s as [|c s IH]; [done|]. cbn [string_forallb digits].
  intros [-> Hs]%andb_true_iff. by rewrite IH.
Qed.

Lemma trim_left_forallb f g s :
  string_forallb f s = true → string_forallb f (trim_left g s) = true.
Proof.
  induction s as [|c s IH]; [done|]. intros H. cbn [trim_left].
  destruct (g c); [|done]. cbn [string_forallb] in H. apply andb_true_iff in H as [_ H]. auto.
Qed.

(** Epochs compare as the numbers they are, at any length. *)
Lemma compareNumericString_num a b :
  string_forallb isDigit a = true → string_forallb isDigit b = true →
  compareNumericString a b = Z.sgn (num a - num b).
Proof.
  intros Ha Hb. unfold compareNumericString.
  destruct (strip_zeros a) as (Ha1 & _ & _ & Ha4). destruct (strip_zeros b) as (Hb1 & _ & _ & Hb4).
  set (a' := trim_left _ a) in *. set (b' := trim_left _ b) in *.
  assert (string_forallb isDigit a' = true) as Ha' by by apply trim_left_forallb.
  assert (string_forallb isDigit b' = true) as Hb' by by apply trim_left_forallb.
  rewrite !digits_id in Ha1, Hb1 by done. rewrite <-Ha1, <-Hb1.
  destruct (Z.eqb_spec (len a') (len b')) as [E|E]; cbn [negb].
  { by apply digit_string_compare. }
  destruct (Z.ltb_spec (len a') (len b')).
  - pose proof (longer_larger b' a' Hb4) as Hl. rewrite !digits_id in Hl by done.
    rewrite Z.sgn_neg; [done|]. specialize (Hl H). lia.
  - pose proof (longer_larger a' b' Ha4) as Hl. rewrite !digits_id in Hl by done.
    rewrite Z.sgn_pos; [done|]. apply Z.lt_0_sub, Hl. lia.
Qed.

Lemma nul_free_app a b : nul_free (a +:+ b) = nul_free a && nul_free b.
Proof. unfold nul_free. by rewrite contains_byte_append, negb_orb. Qed.

Lemma parse_spec v e u r :
  nul_free v = true → parse v = (e, u, r) →
  string_forallb isDigit e = true ∧ nul_free u = true ∧ nul_free r = true.
Proof.
  intros Hv H. unfold parse in H.
  destruct (match cut_byte ":" v with
            | Some (e, r) => if negb (String.eqb e "") && isAllDigits e then (e, r) else ("", v)
            | None => ("", v) end) as [e0 r0] eqn:E.
  assert (string_forallb isDigit e0 = true ∧ nul_free r0 = true) as [He Hr].
  { destruct (cut_byte ":" v) as [[x y]|] eqn:Ec; [|by injection E as <- <-].
    destruct (negb (String.eqb x "") && isAllDigits x) eqn:Ed; injection E as <- <-; [|done].
    apply cut_byte_spec in Ec as [-> _]. rewrite nul_free_app in Hv.
    apply andb_true_iff in Ed as [Hx Hd], Hv as [_ Hv].
    apply nul_free_cons in Hv as [_ Hv]. split; [|done].
    unfold isAllDigits in Hd. by apply negb_true_iff in Hx; rewrite Hx in Hd. }
  destruct (rcut_byte "-" r0) as [[x y]|] eqn:Ec; injection H as <- <- <-; [|done].
  apply rcut_byte_spec in Ec as [-> _]. rewrite nul_free_app in Hr.
  apply andb_true_iff in Hr as [? Hr]. by apply nul_free_cons in Hr as [_ Hr].
Qed.

(** dpkg's loops compute the reference order. *)
Lemma Compare_eq_key a b :
  nul_free a = true → nul_free b = true →
  Compare a b = key_cmp3 (version_key a) (version_key b).
Proof.
  intros Ha Hb. unfold Compare, version_key, key_cmp3.
  destruct (parse a) as [[ea ua] ra] eqn:Ea, (parse b) as [[eb ub] rb] eqn:Eb.
  destruct (parse_spec a ea ua ra Ha Ea) as (Hea & Hua & Hra).
  destruct (parse_spec b eb ub rb Hb Eb) as (Heb & Hub & Hrb).
  rewrite compareNumericString_num by done. unfold verrevcmp.
  rewrite !verrev_loop_spec by (done || lia).
  destruct (Z.eqb_spec (num ea) (num eb)) as [->|Hne].
  - rewrite Z.sub_diag. done.
  - destruct (Z.eqb_spec (Z.sgn (num ea - num eb)) 0); [lia|done].
Qed.

Lemma key_cmp3_antisym x y : key_cmp3 y x = - key_cmp3 x y.
Proof.
  destruct x as [[e1 u1] r1], y as [[e2 u2] r2]. unfold key_cmp3.
  rewrite (lexz_antisym u1 u2), (lexz_antisym r1 r2), (Z.eqb_sym e2).
  destruct (e1 =? e2); [|cbn [negb]; lia]. cbn [negb].
  destruct (Z.eqb_spec (lexz u1 u2) 0) as [->|]; [done|].
  destruct (Z.eqb_spec (- lexz u1 u2) 0); [lia|done].
Qed.

Lemma key_cmp3_trans x y z :
  key_cmp3 x y <= 0 → key_cmp3 y z <= 0 → key_cmp3 x z <= 0.
Proof.
  destruct x as [[e1 u1] r1], y as [[e2 u2] r2], z as [[e3 u3] r3]. unfold key_cmp3.
  pose proof (lexz_trans u1 u2 u3). pose proof (lexz_trans r1 r2 r3).
  pose proof (lexz_trans u2 u3 u1). pose proof (lexz_trans u3 u1 u2).
  rewrite (lexz_antisym u1 u3), (lexz_antisym u1 u2), (lexz_antisym u2 u3) in *.
  repeat match goal with |- context [?a =? ?b] => destruct (Z.eqb_spec a b) end;
    cbn [negb]; lia.
Qed.

Lemma key_cmp3_range x y : -1 <= key_cmp3 x y <= 1.
Proof.
  destruct x as [[e1 u1] r1], y as [[e2 u2] r2]. unfold key_cmp3.
  pose proof (lexz_range u1 u2). pose proof (lexz_range r1 r2).
  destruct (negb (e1 =? e2)); [lia|]. destruct (negb _); lia.
Qed.

Lemma Compare_refl a : nul_free a = true → Compare a a = 0.
Proof.
  intros Ha. rewrite Compare_eq_key by done.
  pose proof (key_cmp3_antisym (version_key a) (version_key a)). lia.
Qed.

Lemma Compare_antisym a b :
  nul_free a = true → nul_free b = true → Compare b a = - Compare a b.
Proof. intros Ha Hb. rewrite !Compare_eq_key by done. apply key_cmp3_antisym. Qed.

Lemma Compare_trans a b c :
  nul_free a = true → nul_free b = true → nul_free c = true →
  Compare a b <= 0 → Compare b c <= 0 → Compare a c <= 0.
Proof. intros Ha Hb Hc. rewrite !Compare_eq_key by done. apply key_cmp3_trans. Qed.

(** C28. dpkg's loops compute a reference order: [Compare] of two versions is
    the lexicographic comparison of their keys - the epoch as a number, then
    for the upstream version and the revision the weights of each text run
    and the value of each digit run, whatever its length.  It is a total
    preorder with answers -1, 0 and 1, so that sorting by it is sound and
    equal versions form classes. *)
Theorem Compare_correct a b c :
  nul_free a = true → nul_free b = true → nul_free c = true →
  Compare a b = key_cmp3 (version_key a) (version_key b) ∧
  -1 <= Compare a b <= 1 ∧ Compare a a = 0 ∧ Compare b a = - Compare a b ∧
  (Compare a b <= 0 → Compare b c <= 0 → Compare a c <= 0).
Proof.
  intros Ha Hb Hc. split_and!.
  - by apply Compare_eq_key.
  - rewrite Compare_eq_key by done. apply key_cmp3_range.
  - rewrite Compare_eq_key by done. apply key_cmp3_range.
  - by apply Compare_refl.
  - by apply Compare_antisym.
  - by apply Compare_trans.
Qed.
End compare_laws.

Lemma Compare_correct_witness :
  Compare "1:2.10-1" "1:2.9-3~bpo1"
  = key_cmp3 (version_key "1:2.10-1") (version_key "1:2.9-3~bpo1") ∧
  Compare "1:2.9-3~bpo1" "1:2.10-1" = -1.
Proof.
  destruct (Compare_correct "1:2.10-1" "1:2.9-3~bpo1" "0" eq_refl eq_refl eq_refl)
    as (H1 & _ & _ & H2 & _).
  split; [exact H1|]. rewrite H2. reflexivity.
Defined.
