(* ===== verification/Maps.v ===== *)
(** * Finite maps as tables and populations

    Updates, deletions, tests and counts over the entries of a finite map, as
    the statements of the cache database and the bookkeeping of the concurrent
    components use them, with the laws their proofs share. *)
From S2P Require Import Prelude.
Local Open Scope Z_scope.

(** ** Statements on one map *)

Section tables.
Context `{Countable K} {A : Type}.

(** [UPDATE ... WHERE P]: every row that satisfies [P] is rewritten. *)
Definition update_where (P : K → A → bool) (f : A → A) (m : gmap K A) : gmap K A :=
  map_imap (λ k v, Some (if P k v then f v else v)) m.

(** [DELETE ... WHERE P] *)
Definition delete_where (P : K → A → bool) (m : gmap K A) : gmap K A :=
  map_imap (λ k v, if P k v then None else Some v) m.

(** [EXISTS (SELECT 1 ... WHERE P)] *)
Definition exists_where (P : K → A → bool) (m : gmap K A) : bool :=
  existsb (λ kv, P kv.1 kv.2) (map_to_list m).

(** [SELECT COUNT] with a condition. *)
Definition count_where (P : K → A → bool) (m : gmap K A) : Z :=
  Z.of_nat (length (List.filter (λ kv, P kv.1 kv.2) (map_to_list m))).
End tables.

(** ** Laws of the statements *)

Section table_laws.
Context `{Countable K} {A : Type}.
Implicit Types (P : K → A → bool) (m : gmap K A).

Lemma lookup_update_where P f m k :
  update_where P f m !! k = (λ v, if P k v then f v else v) <$> m !! k.
Proof. unfold update_where. rewrite map_lookup_imap. by destruct (m !! k). Qed.

Lemma lookup_update_where_Some P f m k v :
  update_where P f m !! k = Some v ↔
  ∃ v0, m !! k = Some v0 ∧ v = if P k v0 then f v0 else v0.
Proof. rewrite lookup_update_where, fmap_Some. naive_solver. Qed.

Lemma lookup_update_where_is_Some P f m k :
  is_Some (update_where P f m !! k) ↔ is_Some (m !! k).
Proof. rewrite lookup_update_where. by rewrite fmap_is_Some. Qed.

Lemma lookup_delete_where P m k :
  delete_where P m !! k = v ← m !! k; if P k v then None else Some v.
Proof. unfold delete_where. rewrite map_lookup_imap. by destruct (m !! k). Qed.

Lemma lookup_delete_where_Some P m k v :
  delete_where P m !! k = Some v ↔ m !! k = Some v ∧ P k v = false.
Proof.
  rewrite lookup_delete_where, bind_Some. split.
  - intros (v' & Hv & Hp). destruct (P k v') eqn:E; naive_solver.
  - intros [Hv Hp]. exists v. by rewrite Hp.
Qed.

Lemma exists_where_true P m :
  exists_where P m = true ↔ ∃ k v, m !! k = Some v ∧ P k v = true.
Proof.
  unfold exists_where. rewrite existsb_exists. split.
  - intros ([k v] & Hin%list_elem_of_In%elem_of_map_to_list & Hp). eauto.
  - intros (k & v & Hk & Hp). exists (k, v). split; [|done].
    by apply list_elem_of_In, elem_of_map_to_list.
Qed.

Lemma exists_where_false P m :
  exists_where P m = false ↔ ∀ k v, m !! k = Some v → P k v = false.
Proof.
  rewrite <-not_true_iff_false, exists_where_true. split.
  - intros Hn k v Hk. destruct (P k v) eqn:E; [|done]. exfalso. eauto.
  - intros Hn (k & v & Hk & Hp). rewrite (Hn k v Hk) in Hp. done.
Qed.

Lemma exists_where_ext P Q m :
  (∀ k v, m !! k = Some v → P k v = Q k v) → exists_where P m = exists_where Q m.
Proof.
  intros Hext. apply eq_true_iff_eq. rewrite !exists_where_true.
  split; intros (k & v & Hk & Hp); exists k, v; split; try done.
  - by rewrite <-(Hext k v Hk).
  - by rewrite (Hext k v Hk).
Qed.

Lemma count_where_empty P : count_where P ∅ = 0.
Proof. unfold count_where. by rewrite map_to_list_empty. Qed.

(** Counting by one key at a time. *)
Lemma count_where_insert_new P m k v :
  m !! k = None → count_where P (<[k := v]> m) = count_where P m + Z.b2z (P k v).
Proof.
  intros Hk. unfold count_where.
  rewrite (Permutation_length (Permutation_filter_fun (λ kv, P kv.1 kv.2) _ _
             (map_to_list_insert m k v Hk))).
  simpl. destruct (P k v); simpl; lia.
Qed.

Lemma count_where_delete P m k v :
  m !! k = Some v → count_where P m = count_where P (delete k m) + Z.b2z (P k v).
Proof.
  intros Hk. rewrite <-(insert_delete_id m k v Hk) at 1.
  apply count_where_insert_new, lookup_delete_eq.
Qed.

Lemma count_where_insert P m k v0 v :
  m !! k = Some v0 →
  count_where P (<[k := v]> m) = count_where P m - Z.b2z (P k v0) + Z.b2z (P k v).
Proof.
  intros Hk. rewrite (count_where_delete P m k v0 Hk), <-insert_delete_eq.
  rewrite count_where_insert_new; [lia|apply lookup_delete_eq].
Qed.

Lemma count_where_nonneg P m : 0 <= count_where P m.
Proof. unfold count_where. lia. Qed.

Lemma count_where_mono P Q m :
  (∀ k v, m !! k = Some v → P k v = true → Q k v = true) →
  count_where P m <= count_where Q m.
Proof.
  induction m as [|k v m Hk IH] using map_ind; intros HPQ.
  { by rewrite !count_where_empty. }
  rewrite !count_where_insert_new by done.
  assert (count_where P m <= count_where Q m).
  { apply IH. intros k' v' Hk'. apply HPQ. rewrite lookup_insert_ne; [done|congruence]. }
  assert (P k v = true → Q k v = true) as Hkv by (apply HPQ; by rewrite lookup_insert_eq).
  destruct (P k v), (Q k v); simpl; try lia; by specialize (Hkv eq_refl).
Qed.

Lemma count_where_ext P Q m :
  (∀ k v, m !! k = Some v → P k v = Q k v) → count_where P m = count_where Q m.
Proof.
  intros Hext. apply Z.le_antisymm; apply count_where_mono; intros k v Hk;
    rewrite (Hext k v Hk); done.
Qed.

Lemma count_where_none m : count_where (λ _ _, false) m = 0.
Proof. unfold count_where. by induction (map_to_list m). Qed.

Lemma count_where_pos P m : 0 < count_where P m ↔ exists_where P m = true.
Proof.
  unfold count_where, exists_where. generalize (map_to_list m). intros l.
  induction l as [|[k v] l IH]; simpl; [split; [lia|done]|].
  destruct (P k v); simpl; [|exact IH]. split; [done|lia].
Qed.
End table_laws.

