(* ===== verification/Tables.v ===== *)
(** * The cache database ([internal/cache/schema.go], [types.go], [blob.go])

    The tables of schema version 8 as finite maps from their primary keys to
    their rows, the constraints SQLite enforces on a write (foreign keys,
    UNIQUE, CHECK), and the statements the operations are made of.  A
    transaction is a computation in the monad [T]; the process's clock is an
    argument of the operations that read it. *)
From S2P Require Export Maps.
From S2P Require Import Prelude GoStrings AptPath.
Local Open Scope Z_scope.

(** ** Keys and rows *)

(** (canonical_scheme, canonical_host, suite_path), and likewise the key of
    url_path with a path, and of suite_signed_seen with a marker base. *)
Definition SuiteKey : Type := string * string * string.
Definition URLKey : Type := string * string * string.

Definition key_scheme (k : SuiteKey) : string := k.1.1.
Definition key_host (k : SuiteKey) : string := k.1.2.
Definition key_path (k : SuiteKey) : string := k.2.

(** The forms of [cache.AnchorForm], a string type. *)
Definition FormInline : string := "inline".
Definition FormDetached : string := "detached".
Definition FormUnsigned : string := "unsigned".

Record Blob := {
  b_size : Z; b_created_at : Z; b_refcount : Z; b_zeroed_at : option Z }.

Record URLPath := {
  up_blob : option string; up_upstream : string; up_is_metadata : bool;
  up_last_requested : option Z; up_request_count : Z; up_last_fetched : option Z;
  up_etag : option string; up_lastmod : option string; up_dropped : option Z }.

Record SuiteFreshness := {
  sf_last_check : option Z; sf_last_success : option Z;
  sf_etag : option string; sf_lastmod : option string; sf_change_seen : option Z;
  sf_current : option Z; sf_last_requested : option Z; sf_check_fail : Z;
  sf_fail_hash : option string; sf_fail_reason : option string; sf_fail_count : Z;
  sf_fail_first : option Z; sf_fail_last : option Z; sf_next_retry : option Z;
  sf_fail_etag : option string; sf_fail_lastmod : option string;
  sf_rowid : Z; sf_generation : Z }.

Record SuiteSnapshot := {
  ss_suite : SuiteKey;
  ss_inrelease : option string; ss_etag : option string; ss_lastmod : option string;
  ss_release : option string; ss_release_gpg : option string;
  ss_created : Z; ss_adopted : option Z; ss_coverage : bool;
  ss_heartbeat : option Z; ss_form : string; ss_date : option Z; ss_retired : option Z }.

Record Member := { m_blob : string; m_declared : string }.

Record Skipped := {
  sk_declared : string; sk_size : Z; sk_reason : string; sk_detail : string;
  sk_at : Z; sk_retry : Z }.

Record Package := {
  ph_declared : string; ph_name : string; ph_arch : string; ph_version : string;
  ph_flat : string }.

Record Representation := { rep_lastmod : string; rep_observed : Z }.

Record DB := {
  blob_t : gmap string Blob;
  url_t : gmap URLKey URLPath;
  suite_t : gmap SuiteKey SuiteFreshness;
  snap_t : gmap Z SuiteSnapshot;
  snap_seq : Z;
  member_t : gmap (Z * string) Member;
  skip_t : gmap (Z * string) Skipped;
  pkg_t : gmap (URLKey * Z) Package;
  seen_t : gmap SuiteKey Z;
  audit_t : gset Z;
  rep_t : gmap (URLKey * string) Representation;
  meta_clock : Z }.

Definition empty_db : DB :=
  {| blob_t := ∅; url_t := ∅; suite_t := ∅; snap_t := ∅; snap_seq := 0; member_t := ∅;
     skip_t := ∅; pkg_t := ∅; seen_t := ∅; audit_t := ∅; rep_t := ∅; meta_clock := 0 |}.

(** ** Errors of the operations *)

Inductive cache_error :=
| ErrInvalidHash | ErrNotFound | ErrInvalidAnchorForm
| ErrSnapshotAlreadyAdopted | ErrSnapshotRetired | ErrSnapshotNotFound
| ErrUnsignedDowngradeRefused | NaturalKeyAdopted (id : Z)
| ErrSuiteGone | ErrSnapshotNotCurrent | ErrMetadataChanged
| ErrInvalidAdoptionFailure | ErrHotSetCandidateMismatch
| ErrMemberMismatch | ErrBadArgument | ErrFetchedSuiteMismatch
| ErrAdoptionRequired | ErrNullColumn
| ForeignKeyViolation | UniqueViolation | CheckViolation.

#[export] Instance cache_error_eq_dec : EqDecision cache_error.
Proof. solve_decision. Defined.

Definition T : Type → Type := M DB cache_error.

(** ** Updating one table *)

Definition upd_blob (f : gmap string Blob → gmap string Blob) (d : DB) : DB :=
  {| blob_t := f (blob_t d); url_t := url_t d; suite_t := suite_t d; snap_t := snap_t d;
     snap_seq := snap_seq d; member_t := member_t d; skip_t := skip_t d; pkg_t := pkg_t d;
     seen_t := seen_t d; audit_t := audit_t d; rep_t := rep_t d; meta_clock := meta_clock d |}.

Definition upd_url (f : gmap URLKey URLPath → gmap URLKey URLPath) (d : DB) : DB :=
  {| blob_t := blob_t d; url_t := f (url_t d); suite_t := suite_t d; snap_t := snap_t d;
     snap_seq := snap_seq d; member_t := member_t d; skip_t := skip_t d; pkg_t := pkg_t d;
     seen_t := seen_t d; audit_t := audit_t d; rep_t := rep_t d; meta_clock := meta_clock d |}.

Definition upd_suite (f : gmap SuiteKey SuiteFreshness → gmap SuiteKey SuiteFreshness)
    (d : DB) : DB :=
  {| blob_t := blob_t d; url_t := url_t d; suite_t := f (suite_t d); snap_t := snap_t d;
     snap_seq := snap_seq d; member_t := member_t d; skip_t := skip_t d; pkg_t := pkg_t d;
     seen_t := seen_t d; audit_t := audit_t d; rep_t := rep_t d; meta_clock := meta_clock d |}.

Definition upd_snap (f : gmap Z SuiteSnapshot → gmap Z SuiteSnapshot) (d : DB) : DB :=
  {| blob_t := blob_t d; url_t := url_t d; suite_t := suite_t d; snap_t := f (snap_t d);
     snap_seq := snap_seq d; member_t := member_t d; skip_t := skip_t d; pkg_t := pkg_t d;
     seen_t := seen_t d; audit_t := audit_t d; rep_t := rep_t d; meta_clock := meta_clock d |}.

Definition upd_seq (f : Z → Z) (d : DB) : DB :=
  {| blob_t := blob_t d; url_t := url_t d; suite_t := suite_t d; snap_t := snap_t d;
     snap_seq := f (snap_seq d); member_t := member_t d; skip_t := skip_t d; pkg_t := pkg_t d;
     seen_t := seen_t d; audit_t := audit_t d; rep_t := rep_t d; meta_clock := meta_clock d |}.

Definition upd_member (f : gmap (Z * string) Member → gmap (Z * string) Member) (d : DB) : DB :=
  {| blob_t := blob_t d; url_t := url_t d; suite_t := suite_t d; snap_t := snap_t d;
     snap_seq := snap_seq d; member_t := f (member_t d); skip_t := skip_t d; pkg_t := pkg_t d;
     seen_t := seen_t d; audit_t := audit_t d; rep_t := rep_t d; meta_clock := meta_clock d |}.

Definition upd_skip (f : gmap (Z * string) Skipped → gmap (Z * string) Skipped) (d : DB) : DB :=
  {| blob_t := blob_t d; url_t := url_t d; suite_t := suite_t d; snap_t := snap_t d;
     snap_seq := snap_seq d; member_t := member_t d; skip_t := f (skip_t d); pkg_t := pkg_t d;
     seen_t := seen_t d; audit_t := audit_t d; rep_t := rep_t d; meta_clock := meta_clock d |}.

Definition upd_pkg (f : gmap (URLKey * Z) Package → gmap (URLKey * Z) Package) (d : DB) : DB :=
  {| blob_t := blob_t d; url_t := url_t d; suite_t := suite_t d; snap_t := snap_t d;
     snap_seq := snap_seq d; member_t := member_t d; skip_t := skip_t d; pkg_t := f (pkg_t d);
     seen_t := seen_t d; audit_t := audit_t d; rep_t := rep_t d; meta_clock := meta_clock d |}.

Definition upd_seen (f : gmap SuiteKey Z → gmap SuiteKey Z) (d : DB) : DB :=
  {| blob_t := blob_t d; url_t := url_t d; suite_t := suite_t d; snap_t := snap_t d;
     snap_seq := snap_seq d; member_t := member_t d; skip_t := skip_t d; pkg_t := pkg_t d;
     seen_t := f (seen_t d); audit_t := audit_t d; rep_t := rep_t d; meta_clock := meta_clock d |}.

Definition upd_audit (f : gset Z → gset Z) (d : DB) : DB :=
  {| blob_t := blob_t d; url_t := url_t d; suite_t := suite_t d; snap_t := snap_t d;
     snap_seq := snap_seq d; member_t := member_t d; skip_t := skip_t d; pkg_t := pkg_t d;
     seen_t := seen_t d; audit_t := f (audit_t d); rep_t := rep_t d; meta_clock := meta_clock d |}.

Definition upd_rep (f : gmap (URLKey * string) Representation → gmap (URLKey * string) Representation)
    (d : DB) : DB :=
  {| blob_t := blob_t d; url_t := url_t d; suite_t := suite_t d; snap_t := snap_t d;
     snap_seq := snap_seq d; member_t := member_t d; skip_t := skip_t d; pkg_t := pkg_t d;
     seen_t := seen_t d; audit_t := audit_t d; rep_t := f (rep_t d); meta_clock := meta_clock d |}.

Definition upd_clock (f : Z → Z) (d : DB) : DB :=
  {| blob_t := blob_t d; url_t := url_t d; suite_t := suite_t d; snap_t := snap_t d;
     snap_seq := snap_seq d; member_t := member_t d; skip_t := skip_t d; pkg_t := pkg_t d;
     seen_t := seen_t d; audit_t := audit_t d; rep_t := rep_t d; meta_clock := f (meta_clock d) |}.

(** The order in which SQLite returns the rows of a query that has no ORDER
    BY (or among those an ORDER BY leaves equal) is not specified: a scan is
    some enumeration of the table. *)
Class TableScan := {
  scan : ∀ `{Countable K} {A}, gmap K A → list (K * A);
  scan_perm : ∀ `{Countable K} {A} (m : gmap K A), scan m ≡ₚ map_to_list m }.

(** One such enumeration, for concrete runs. *)
Definition key_order_scan : TableScan :=
  {| scan := λ _ _ _ _, map_to_list; scan_perm := λ _ _ _ _ m, Permutation_refl (map_to_list m) |}.

(** A LIMIT: a negative one is none. *)
Definition sql_limit {A} (n : Z) (l : list A) : list A :=
  if n <? 0 then l else take (Z.to_nat n) l.

(** [SELECT key FROM m WHERE P ORDER BY f LIMIT n] *)
Definition selected `{TableScan} `{Countable K} {A} (f : K * A → K * A → bool)
    (P : K * A → bool) (n : Z) (m : gmap K A) : list K :=
  map fst (sql_limit n (sort_by f (List.filter P (scan m)))).

(** ** Constraints *)

(** [validBlobHash], and the CHECK of the hash columns: 64 lowercase
    hexadecimal digits. *)
Definition validBlobHash (s : string) : bool :=
  if negb (len s =? 64) then false else string_forallb is_hex_lower s.

Definition has_blob (d : DB) (h : string) : bool := bool_decide (is_Some (blob_t d !! h)).
Definition has_snap (d : DB) (id : Z) : bool := bool_decide (is_Some (snap_t d !! id)).

(** A REFERENCES blob(hash) column. *)
Definition fk_blob (d : DB) (h : option string) : bool :=
  match h with None => true | Some h => has_blob d h end.

(** A blob, or a snapshot, that a row still references cannot be deleted. *)
Definition blob_pinned (d : DB) (h : string) : bool :=
  exists_where (λ _ u, bool_decide (up_blob u = Some h)) (url_t d)
  || exists_where (λ _ m, String.eqb (m_blob m) h) (member_t d)
  || exists_where (λ _ s, bool_decide (ss_inrelease s = Some h)
                          || bool_decide (ss_release s = Some h)
                          || bool_decide (ss_release_gpg s = Some h)) (snap_t d).

Definition snap_pinned (d : DB) (id : Z) : bool :=
  exists_where (λ k _, k.1 =? id) (member_t d)
  || exists_where (λ k _, k.1 =? id) (skip_t d)
  || exists_where (λ k _, k.2 =? id) (pkg_t d)
  || exists_where (λ _ f, bool_decide (sf_current f = Some id)) (suite_t d).

(** ** Statements that SQLite checks *)

Definition url_upsert (k : URLKey) (new : URLPath) (on_conflict : URLPath → URLPath) : T unit :=
  d ← mget;
  let row := match url_t d !! k with None => new | Some old => on_conflict old end in
  _ ← massert (fk_blob d (up_blob row)) ForeignKeyViolation;
  mmodify (upd_url (<[k := row]>)).

Definition member_insert (id : Z) (p : string) (m : Member) : T unit :=
  d ← mget;
  _ ← massert (bool_decide (member_t d !! (id, p) = None)) UniqueViolation;
  _ ← massert (validBlobHash (m_declared m)) CheckViolation;
  _ ← massert (has_snap d id && has_blob d (m_blob m)) ForeignKeyViolation;
  mmodify (upd_member (<[(id, p) := m]>)).

Definition skip_insert (id : Z) (p : string) (s : Skipped) : T unit :=
  d ← mget;
  _ ← massert (bool_decide (skip_t d !! (id, p) = None)) UniqueViolation;
  _ ← massert (validBlobHash (sk_declared s)) CheckViolation;
  _ ← massert (has_snap d id) ForeignKeyViolation;
  mmodify (upd_skip (<[(id, p) := s]>)).

Definition pkg_insert (k : URLKey) (id : Z) (p : Package) : T unit :=
  d ← mget;
  _ ← massert (bool_decide (pkg_t d !! (k, id) = None)) UniqueViolation;
  _ ← massert (validBlobHash (ph_declared p)) CheckViolation;
  _ ← massert (has_snap d id) ForeignKeyViolation;
  mmodify (upd_pkg (<[(k, id) := p]>)).

(** [INSERT INTO representation_metadata ... ON CONFLICT DO UPDATE] *)
Definition putRepresentation (k : URLKey) (h date : string) (now : Z) : T unit :=
  d ← mget;
  _ ← massert (has_blob d h) ForeignKeyViolation;
  mmodify (upd_rep (<[(k, h) := {| rep_lastmod := date; rep_observed := now |}]>)).

(** Deleting blobs cascades to their representation rows; any other
    reference to one of them aborts the statement. *)
Definition blob_delete (dead : list string) : T unit :=
  d ← mget;
  _ ← massert (forallb (λ h, negb (blob_pinned d h)) dead) ForeignKeyViolation;
  mmodify (λ d, upd_rep (delete_where (λ k _, bool_decide (k.2 ∈ dead)))
                  (upd_blob (delete_where (λ h _, bool_decide (h ∈ dead))) d)).

Definition snap_delete (dead : list Z) : T unit :=
  d ← mget;
  _ ← massert (forallb (λ id, negb (snap_pinned d id)) dead) ForeignKeyViolation;
  mmodify (upd_snap (delete_where (λ id _, bool_decide (id ∈ dead)))).

(** The rowid SQLite gives a new row: one more than the largest. *)
Definition next_rowid (d : DB) : Z :=
  1 + foldr (λ e acc, Z.max (sf_rowid (snd e)) acc) 0 (map_to_list (suite_t d)).

(** A statement that inserts a suite row runs the trigger of schema version
    8: the clock ticks and the row takes the new generation.  [f] is given
    the rowid and the generation. *)
Definition suite_insert (k : SuiteKey) (f : Z → Z → SuiteFreshness) : T unit :=
  d ← mget;
  _ ← massert (bool_decide (suite_t d !! k = None)) UniqueViolation;
  let g := meta_clock d + 1 in
  mmodify (λ d, upd_suite (<[k := f (next_rowid d) g]>) (upd_clock (λ _, g) d)).

(** ** Sub-selects the operations share *)

(** [snapshot_id IN (SELECT current_snapshot_id FROM suite_freshness WHERE
    current_snapshot_id IS NOT NULL)] *)
Definition is_current (d : DB) (id : Z) : bool :=
  exists_where (λ _ f, bool_decide (sf_current f = Some id)) (suite_t d).

Definition suite_current (d : DB) (k : SuiteKey) : option Z := f ← suite_t d !! k; sf_current f.

(** A snapshot has a member with a blob. *)
Definition snap_has_blob (d : DB) (id : Z) (h : string) : bool :=
  exists_where (λ k m, (k.1 =? id) && String.eqb (m_blob m) h) (member_t d).

Definition signed_scheme (s : string) : bool := String.eqb s "http" || String.eqb s "https".

(** [signedHistorySnapshotSQL] *)
Definition signed_history (s : SuiteSnapshot) : bool :=
  bool_decide (is_Some (ss_adopted s)) && bool_decide (ss_retired s = None)
  && (String.eqb (ss_form s) FormInline || String.eqb (ss_form s) FormDetached).

(** ** Refcount arithmetic *)

(** [SET refcount = refcount + 1, refcount_zeroed_at =
    IIF(refcount + 1 > 0, NULL, refcount_zeroed_at)] *)
Definition bump_blob (b : Blob) : Blob :=
  {| b_size := b_size b; b_created_at := b_created_at b; b_refcount := b_refcount b + 1;
     b_zeroed_at := if 0 <? b_refcount b + 1 then None else b_zeroed_at b |}.

(** [SET refcount = refcount - 1, refcount_zeroed_at =
    COALESCE(refcount_zeroed_at, IIF(refcount - 1 <= 0, now, NULL))] *)
Definition drop_blob (now : Z) (b : Blob) : Blob :=
  {| b_size := b_size b; b_created_at := b_created_at b; b_refcount := b_refcount b - 1;
     b_zeroed_at := match b_zeroed_at b with
                    | Some t => Some t
                    | None => if b_refcount b - 1 <=? 0 then Some now else None
                    end |}.

(** The blobs of a snapshot, each once. *)
Definition bump_snapshot (id : Z) : T unit :=
  mmodify (λ d, upd_blob (update_where (λ h _, snap_has_blob d id h) bump_blob) d).

(** [decrementSnapshotRefcountsTx] *)
Definition decrementSnapshotRefcountsTx (id now : Z) : T unit :=
  mmodify (λ d, upd_blob (update_where (λ h _, snap_has_blob d id h) (drop_blob now)) d).

(** [deleteURLPathRowTx]: the row, and one reference of its blob. *)
Definition deleteURLPathRowTx (k : URLKey) (blob : option string) (now : Z) : T unit :=
  d ← mget;
  match url_t d !! k with
  | None => mret tt
  | Some _ =>
      _ ← mmodify (upd_url (delete k));
      match blob with
      | Some h => if String.eqb h "" then mret tt
                  else mmodify (upd_blob (update_where (λ h' _, String.eqb h' h) (drop_blob now)))
      | None => mret tt
      end
  end.

(** [deleteCachedRowTx] *)
Definition deleteCachedRowTx (k : URLKey) (now : Z) : T bool :=
  d ← mget;
  match url_t d !! k with
  | None => mret false
  | Some u => _ ← deleteURLPathRowTx k (up_blob u) now; mret true
  end.

(** [markSignedSeen]: an upsert that never moves a marker back. *)
Definition markSignedSeen (k : SuiteKey) (seenAt : Z) : T unit :=
  mmodify (upd_seen (λ m, <[k := match m !! k with
                                 | Some t => Z.max t seenAt
                                 | None => seenAt
                                 end]> m)).

(** ** The BINARY collation: by bytes, and keys column by column *)

Definition str_cmp (a b : string) : comparison := String.compare a b.

Definition str_leb (a b : string) : bool := match str_cmp a b with Gt => false | _ => true end.

Definition key_cmp (a b : SuiteKey) : comparison :=
  match str_cmp (key_scheme a) (key_scheme b) with
  | Eq => match str_cmp (key_host a) (key_host b) with
          | Eq => str_cmp (key_path a) (key_path b)
          | c => c
          end
  | c => c
  end.

Definition key_leb (a b : SuiteKey) : bool :=
  match key_cmp a b with Gt => false | _ => true end.

(** ** The BINARY collation is a total order *)

Lemma elem_of_scan `{TableScan} `{Countable K} {A} (m : gmap K A) k a :
  (k, a) ∈ scan m ↔ m !! k = Some a.
Proof. by rewrite (scan_perm m), elem_of_map_to_list. Qed.

Section collation.

Lemma ascii_compare_trans a b c (o : comparison) :
  Ascii.compare a b = o → Ascii.compare b c = o → Ascii.compare a c = o.
Proof.
  unfold Ascii.compare. destruct o; rewrite ?N.compare_eq_iff, ?N.compare_lt_iff, ?N.compare_gt_iff; lia.
Qed.

Lemma str_leb_trans a b c : str_leb a b = true → str_leb b c = true → str_leb a c = true.
Proof.
  unfold str_leb, str_cmp. revert b c.
  induction a as [|x a IH]; intros [|y b] [|z c]; simpl; try done.
  destruct (Ascii.compare x y) eqn:E1, (Ascii.compare y z) eqn:E2; try done; intros H1 H2.
  - rewrite (ascii_compare_trans x y z Eq) by done. by eapply IH.
  - apply Ascii.compare_eq_iff in E1. subst. by rewrite E2.
  - apply Ascii.compare_eq_iff in E2. subst. by rewrite E1.
  - by rewrite (ascii_compare_trans x y z Lt) by done.
Qed.

Lemma str_leb_total a b : str_leb a b = true ∨ str_leb b a = true.
Proof.
  unfold str_leb, str_cmp. rewrite (String.compare_antisym b a). destruct (String.compare a b); auto.
Qed.
Lemma str_cmp_antisym a b : str_cmp b a = CompOpp (str_cmp a b).
Proof. apply String.compare_antisym. Qed.

Lemma key_leb_total a b : key_leb a b = true ∨ key_leb b a = true.
Proof.
  unfold key_leb, key_cmp.
  rewrite (str_cmp_antisym (key_scheme a)), (str_cmp_antisym (key_host a)), (str_cmp_antisym (key_path a)).
  destruct (str_cmp (key_scheme a) _), (str_cmp (key_host a) _), (str_cmp (key_path a) _); simpl; auto.
Qed.

Lemma str_cmp_eq a b : str_cmp a b = Eq ↔ a = b.
Proof.
  split; [apply String.compare_eq_iff|intros ->].
  unfold str_cmp. pose proof (String.compare_antisym b b) as H.
  destruct (String.compare b b); [done|discriminate H|discriminate H].
Qed.

Lemma str_cmp_comp a b c :
  str_cmp a b ≠ Gt → str_cmp b c ≠ Gt →
  str_cmp a c = match str_cmp a b with Eq => str_cmp b c | o => o end.
Proof.
  intros H1 H2. destruct (str_cmp a b) eqn:E1; [|clear H1|done].
  { apply str_cmp_eq in E1. by subst. }
  destruct (str_cmp b c) eqn:E2; [|clear H2|done].
  { apply str_cmp_eq in E2. by subst. }
  pose proof (str_leb_trans a b c) as H. unfold str_leb in H. rewrite E1, E2 in H.
  specialize (H eq_refl eq_refl). destruct (str_cmp a c) eqn:E; [|done|done].
  apply str_cmp_eq in E. subst c. rewrite str_cmp_antisym, E1 in E2. done.
Qed.

Lemma key_leb_trans a b c : key_leb a b = true → key_leb b c = true → key_leb a c = true.
Proof.
  unfold key_leb, key_cmp. intros H1 H2.
  assert (str_cmp (key_scheme a) (key_scheme b) ≠ Gt) as A1 by (by intros E; rewrite E in H1).
  assert (str_cmp (key_scheme b) (key_scheme c) ≠ Gt) as A2 by (by intros E; rewrite E in H2).
  rewrite (str_cmp_comp _ _ _ A1 A2).
  destruct (str_cmp (key_scheme a) (key_scheme b)) eqn:E1; [|done|done].
  destruct (str_cmp (key_scheme b) (key_scheme c)) eqn:E2; [|done|done].
  assert (str_cmp (key_host a) (key_host b) ≠ Gt) as B1 by (by intros E; rewrite E in H1).
  assert (str_cmp (key_host b) (key_host c) ≠ Gt) as B2 by (by intros E; rewrite E in H2).
  rewrite (str_cmp_comp _ _ _ B1 B2).
  destruct (str_cmp (key_host a) (key_host b)) eqn:E3; [|done|done].
  destruct (str_cmp (key_host b) (key_host c)) eqn:E4; [|done|done].
  assert (str_cmp (key_path a) (key_path b) ≠ Gt) as C1 by (by intros E; rewrite E in H1).
  assert (str_cmp (key_path b) (key_path c) ≠ Gt) as C2 by (by intros E; rewrite E in H2).
  rewrite (str_cmp_comp _ _ _ C1 C2).
  by destruct (str_cmp (key_path a) (key_path b)), (str_cmp (key_path b) (key_path c)).
Qed.
End collation.
