(* ===== verification/Invariant.v ===== *)
(** * The invariant of the cache database

    What every committed state satisfies: foreign keys, the shape of a
    snapshot's anchors, the pointer of a suite (an adopted, unretired snapshot
    of that very suite), the zeroed-at clock of a blob, and the bound of a
    refcount by the number of suites whose current snapshot uses the blob.
    The lemmas of Section [frames] say what an update of one table needs to
    keep it; the operations' own files use them. *)
From S2P Require Import Prelude GoStrings AptPath Tables.
Local Open Scope Z_scope.

(** ** Parts of the invariant *)

Record fk_ok (d : DB) : Prop := {
  fk_url : ∀ k u h, url_t d !! k = Some u → up_blob u = Some h → is_Some (blob_t d !! h);
  fk_member : ∀ k m, member_t d !! k = Some m →
    is_Some (snap_t d !! k.1) ∧ is_Some (blob_t d !! m_blob m);
  fk_skip : ∀ k s, skip_t d !! k = Some s → is_Some (snap_t d !! k.1);
  fk_pkg : ∀ k p, pkg_t d !! k = Some p → is_Some (snap_t d !! k.2);
  fk_anchor : ∀ id s h, snap_t d !! id = Some s →
    ss_inrelease s = Some h ∨ ss_release s = Some h ∨ ss_release_gpg s = Some h →
    is_Some (blob_t d !! h);
  fk_rep : ∀ k r, rep_t d !! k = Some r → is_Some (blob_t d !! k.2) }.

(** The CHECK on the anchor columns, with the form of schema version 7. *)
Definition form_shape (s : SuiteSnapshot) : Prop :=
  (ss_form s = FormInline ∨ ss_form s = FormUnsigned) ∧
    is_Some (ss_inrelease s) ∧ ss_release s = None ∧ ss_release_gpg s = None ∨
  ss_form s = FormDetached ∧
    ss_inrelease s = None ∧ is_Some (ss_release s) ∧ is_Some (ss_release_gpg s).

Definition snaps_ok (d : DB) : Prop :=
  0 <= snap_seq d ∧
  ∀ id s, snap_t d !! id = Some s → 0 < id <= snap_seq d ∧ form_shape s.

Definition current_ok (d : DB) : Prop :=
  ∀ k f id, suite_t d !! k = Some f → sf_current f = Some id →
    ∃ s, snap_t d !! id = Some s ∧ ss_suite s = k ∧ is_Some (ss_adopted s) ∧
         ss_retired s = None.

Definition blob_clock_ok (b : Blob) : Prop := b_refcount b <= 0 ↔ is_Some (b_zeroed_at b).

(** The suites whose current snapshot has the blob as a member. *)
Definition uses_blob (d : DB) (h : string) (f : SuiteFreshness) : bool :=
  match sf_current f with Some id => snap_has_blob d id h | None => false end.

Definition live_refs (d : DB) (h : string) : Z :=
  count_where (λ _ f, uses_blob d h f) (suite_t d).

Definition blobs_ok (d : DB) : Prop :=
  ∀ h b, blob_t d !! h = Some b → blob_clock_ok b ∧ b_refcount b <= live_refs d h.

Definition generations_ok (d : DB) : Prop :=
  ∀ k f, suite_t d !! k = Some f → sf_generation f <= meta_clock d.

Record wf (d : DB) : Prop := {
  wf_fk : fk_ok d;
  wf_snaps : snaps_ok d;
  wf_current : current_ok d;
  wf_blobs : blobs_ok d;
  wf_gen : generations_ok d }.

Lemma wf_empty : wf empty_db.
Proof.
  split; [split| |..]; [..|split; [done|]| | |]; intros ?; intros; simplify_map_eq.
Qed.

(** ** Facts *)

Lemma snap_has_blob_true d id h :
  snap_has_blob d id h = true ↔
  ∃ p m, member_t d !! (id, p) = Some m ∧ m_blob m = h.
Proof.
  unfold snap_has_blob. rewrite exists_where_true. split.
  - intros ([i p] & m & Hm & [Hi%Z.eqb_eq Hh%String.eqb_eq]%andb_true_iff).
    simpl in Hi. subst i. eauto.
  - intros (p & m & Hm & <-). exists (id, p), m. split; [done|].
    simpl. by rewrite Z.eqb_refl, String.eqb_refl.
Qed.

Lemma is_current_true d id :
  is_current d id = true ↔ ∃ k f, suite_t d !! k = Some f ∧ sf_current f = Some id.
Proof.
  unfold is_current. rewrite exists_where_true. by setoid_rewrite bool_decide_eq_true.
Qed.

Lemma is_current_false d id :
  is_current d id = false ↔ ∀ k f, suite_t d !! k = Some f → sf_current f ≠ Some id.
Proof.
  unfold is_current. rewrite exists_where_false. by setoid_rewrite bool_decide_eq_false.
Qed.

Lemma suite_current_Some d k id :
  suite_current d k = Some id ↔ ∃ f, suite_t d !! k = Some f ∧ sf_current f = Some id.
Proof. unfold suite_current. by rewrite bind_Some. Qed.

(** A snapshot is the current one of its own suite only. *)
Lemma current_suite d id k f s :
  current_ok d → suite_t d !! k = Some f → sf_current f = Some id →
  snap_t d !! id = Some s → ss_suite s = k.
Proof.
  intros Hc Hk Hf Hs. destruct (Hc k f id Hk Hf) as (s' & Hs' & ? & _). congruence.
Qed.

Lemma unadopted_not_current d id s :
  current_ok d → snap_t d !! id = Some s → ss_adopted s = None → is_current d id = false.
Proof.
  intros Hc Hs Ha. apply is_current_false. intros k f Hk Hf.
  destruct (Hc k f id Hk Hf) as (s' & Hs' & _ & Had & _). rewrite Hs in Hs'.
  simplify_eq. rewrite Ha in Had. by destruct Had.
Qed.

Lemma live_refs_nonneg d h : 0 <= live_refs d h.
Proof. apply count_where_nonneg. Qed.

Lemma bump_blob_clock b : blob_clock_ok b → blob_clock_ok (bump_blob b).
Proof.
  unfold blob_clock_ok, bump_blob. cbn. destruct (Z.ltb_spec 0 (b_refcount b + 1)).
  - intros _. split; [lia|]. by intros [? ?].
  - intros [H1 H2]. split; [|lia]. intros _. apply H1. lia.
Qed.

Lemma drop_blob_clock now b : blob_clock_ok b → blob_clock_ok (drop_blob now b).
Proof.
  unfold blob_clock_ok, drop_blob. cbn. destruct (b_zeroed_at b) as [t|].
  - intros [H1 H2]. split; [done|]. intros _. assert (b_refcount b <= 0) by eauto. lia.
  - intros _. destruct (Z.leb_spec (b_refcount b - 1) 0); split; intros Hx;
      try lia; try (by destruct Hx); by eexists.
Qed.

(** ** What an update of one table must keep *)

Section frames.
Implicit Types d : DB.

Lemma wf_upd_url d f :
  wf d →
  (∀ k u h, f (url_t d) !! k = Some u → up_blob u = Some h → is_Some (blob_t d !! h)) →
  wf (upd_url f d).
Proof. intros [[] ????] Hf. split; [split|..]; done. Qed.

Lemma wf_upd_seen d f : wf d → wf (upd_seen f d).
Proof. intros [[] ????]. split; [split|..]; done. Qed.

Lemma wf_upd_audit d f : wf d → wf (upd_audit f d).
Proof. intros [[] ????]. split; [split|..]; done. Qed.

Lemma wf_upd_skip d f :
  wf d → (∀ k s, f (skip_t d) !! k = Some s → is_Some (snap_t d !! k.1)) →
  wf (upd_skip f d).
Proof. intros [[] ????] Hf. split; [split|..]; done. Qed.

Lemma wf_upd_pkg d f :
  wf d → (∀ k p, f (pkg_t d) !! k = Some p → is_Some (snap_t d !! k.2)) →
  wf (upd_pkg f d).
Proof. intros [[] ????] Hf. split; [split|..]; done. Qed.

Lemma wf_upd_rep d f :
  wf d → (∀ k r, f (rep_t d) !! k = Some r → is_Some (blob_t d !! k.2)) →
  wf (upd_rep f d).
Proof. intros [[] ????] Hf. split; [split|..]; done. Qed.

(** Blob rows may change their counts, and rows may be added. *)
Lemma wf_upd_blob d f :
  wf d →
  (∀ h, is_Some (blob_t d !! h) → is_Some (f (blob_t d) !! h)) →
  (∀ h b, f (blob_t d) !! h = Some b → blob_clock_ok b ∧ b_refcount b <= live_refs d h) →
  wf (upd_blob f d).
Proof.
  intros [[H1 H2 H3 H4 H5 H6] ????] Hdom Hb. split; [split|..]; try done; simpl; intros.
  - eapply Hdom, H1; eauto.
  - destruct (H2 _ _ H) as [? ?]. eauto.
  - eapply Hdom, H5; eauto.
  - eapply Hdom, H6; eauto.
Qed.

(** Suite rows that keep their pointer and generation. *)
Lemma live_refs_suite_ext d f h :
  (∀ k, sf_current <$> f (suite_t d) !! k = sf_current <$> suite_t d !! k) →
  live_refs (upd_suite f d) h = live_refs d h.
Proof.
  intros Hext. unfold live_refs. simpl.
  assert (∀ m1 m2 : gmap SuiteKey SuiteFreshness,
    (∀ k, sf_current <$> m1 !! k = sf_current <$> m2 !! k) →
    count_where (λ _ x, uses_blob d h x) m1 = count_where (λ _ x, uses_blob d h x) m2) as Hc.
  { clear f Hext. induction m1 as [|k v m1 Hk IH] using map_ind; intros m2 Hm.
    - assert (m2 = ∅) as ->; [|done]. apply map_empty. intros k. specialize (Hm k).
      rewrite lookup_empty in Hm. by destruct (m2 !! k).
    - pose proof (Hm k) as Hk2. rewrite lookup_insert_eq in Hk2. simpl in Hk2.
      destruct (m2 !! k) as [v2|] eqn:E2; [|done]. injection Hk2 as Hk2.
      rewrite count_where_insert_new, (count_where_delete _ m2 k v2) by done.
      rewrite (IH (delete k m2)).
      + unfold uses_blob. by rewrite Hk2.
      + intros k'. destruct (decide (k = k')) as [<-|Hne].
        * by rewrite lookup_delete_eq, Hk.
        * specialize (Hm k'). rewrite lookup_insert_ne in Hm by done.
          by rewrite lookup_delete_ne. }
  exact (Hc _ _ Hext).
Qed.

Lemma wf_upd_suite d f :
  wf d →
  (∀ k, (λ x, (sf_current x, sf_generation x)) <$> f (suite_t d) !! k =
        (λ x, (sf_current x, sf_generation x)) <$> suite_t d !! k) →
  wf (upd_suite f d).
Proof.
  intros [Hfk Hs Hc Hb Hg] Hext.
  assert (∀ k, sf_current <$> f (suite_t d) !! k = sf_current <$> suite_t d !! k) as Hcur.
  { intros k. specialize (Hext k).
    destruct (f (suite_t d) !! k), (suite_t d !! k); simpl in *; congruence. }
  split; [by destruct Hfk|done|..].
  - intros k x id Hk Hx. simpl in *. specialize (Hcur k). rewrite Hk in Hcur.
    destruct (suite_t d !! k) as [y|] eqn:E; [|done]. simpl in Hcur.
    eapply Hc; [exact E|congruence].
  - intros h b Hh. rewrite live_refs_suite_ext by done. by apply Hb.
  - intros k x Hk. simpl in *. specialize (Hext k). rewrite Hk in Hext.
    destruct (suite_t d !! k) as [y|] eqn:E; [|done]. simpl in Hext.
    specialize (Hg k y E). injection Hext as _ Hx. lia.
Qed.

(** Snapshot rows that keep what the invariant reads. *)
Definition snap_view (s : SuiteSnapshot) :=
  (ss_suite s, ss_inrelease s, ss_release s, ss_release_gpg s, ss_form s,
   ss_adopted s, ss_retired s).

Lemma wf_upd_snap d f :
  wf d →
  (∀ id, snap_view <$> f (snap_t d) !! id = snap_view <$> snap_t d !! id) →
  wf (upd_snap f d).
Proof.
  intros [[H1 H2 H3 H4 H5 H6] Hs Hc Hb Hg] Hext.
  assert (∀ id, is_Some (snap_t d !! id) → is_Some (f (snap_t d) !! id)) as Hdom.
  { intros id [s Hid]. specialize (Hext id). rewrite Hid in Hext.
    destruct (f (snap_t d) !! id); [eauto|done]. }
  assert (∀ id s', f (snap_t d) !! id = Some s' →
            ∃ s, snap_t d !! id = Some s ∧ snap_view s' = snap_view s) as Hinv.
  { intros id s' Hid. specialize (Hext id). rewrite Hid in Hext.
    destruct (snap_t d !! id) as [s|]; [|done]. simpl in Hext. exists s. split; congruence. }
  assert (∀ id s, snap_t d !! id = Some s →
            ∃ s', f (snap_t d) !! id = Some s' ∧ snap_view s' = snap_view s) as Hfwd.
  { intros id s Hid. destruct (Hdom id) as [s' Hs']; [by eauto|].
    destruct (Hinv id s' Hs') as (s2 & ? & ?). exists s'. split; congruence. }
  split; [split|..]; simpl; try done.
  - intros k m Hk. destruct (H2 k m Hk). eauto.
  - eauto.
  - eauto.
  - intros id s h Hid Hh. destruct (Hinv id s Hid) as (s0 & H0 & Hv).
    unfold snap_view in Hv. injection Hv as ? ? ? ? ? ? ?. eapply H5; [exact H0|]. congruence.
  - destruct Hs as [Hs0 Hs]. split; [done|].
    intros id s Hid. destruct (Hinv id s Hid) as (s0 & H0 & Hv).
    destruct (Hs id s0 H0) as [? Hsh]. split; [done|].
    unfold snap_view in Hv. injection Hv as E1 E2 E3 E4 E5 E6 E7.
    unfold form_shape in *. by rewrite E2, E3, E4, E5.
  - intros k x id Hk Hx. destruct (Hc k x id Hk Hx) as (s & Hid & Hsk & Ha & Hr).
    destruct (Hfwd id s Hid) as (s' & Hs' & Hv). exists s'.
    unfold snap_view in Hv. injection Hv as E1 E2 E3 E4 E5 E6 E7. by rewrite E1, E6, E7.
Qed.

(** A snapshot row, new or rewritten: if a suite points at it, it is still
    what the pointer promises. *)
Lemma wf_snap_insert d id s :
  wf d → 0 < id <= snap_seq d → form_shape s →
  (∀ h, ss_inrelease s = Some h ∨ ss_release s = Some h ∨ ss_release_gpg s = Some h →
        is_Some (blob_t d !! h)) →
  (∀ k f, suite_t d !! k = Some f → sf_current f = Some id →
     ss_suite s = k ∧ is_Some (ss_adopted s) ∧ ss_retired s = None) →
  wf (upd_snap (<[id := s]>) d).
Proof.
  intros [[H1 H2 H3 H4 H5 H6] [Hs0 Hs] Hc Hb Hg] Hid Hsh Hanch Hcur.
  assert (∀ i, is_Some (snap_t d !! i) → is_Some (<[id := s]> (snap_t d) !! i)) as Hdom.
  { intros i Hi. destruct (decide (id = i)) as [<-|]; [by rewrite lookup_insert_eq|].
    by rewrite lookup_insert_ne. }
  split; [split|split|..]; simpl; try done.
  - intros k m Hk. destruct (H2 k m Hk). eauto.
  - eauto.
  - eauto.
  - intros i x h [[<- <-]|[_ Hi]]%lookup_insert_Some Hh; eauto.
  - intros i x [[<- <-]|[_ Hi]]%lookup_insert_Some; eauto.
  - intros k f i Hk Hf. destruct (decide (id = i)) as [<-|Hne].
    + destruct (Hcur k f Hk Hf) as (?&?&?). exists s. simpl. by rewrite lookup_insert_eq.
    + destruct (Hc k f i Hk Hf) as (x & Hx & ?). exists x. simpl. by rewrite lookup_insert_ne.
Qed.

Lemma wf_upd_seq d n : wf d → snap_seq d <= n → wf (upd_seq (λ _, n) d).
Proof.
  intros [[] [Hs0 Hs] Hc Hb Hg] Hn. split; [split|split|..]; simpl; try done; [lia|].
  intros id s Hid. destruct (Hs id s Hid). split; [lia|done].
Qed.

(** Adding a member can only add references. *)
Lemma wf_member_insert d id p m :
  wf d → is_Some (snap_t d !! id) → is_Some (blob_t d !! m_blob m) →
  member_t d !! (id, p) = None →
  wf (upd_member (<[(id, p) := m]>) d).
Proof.
  intros [[H1 H2 H3 H4 H5 H6] Hs Hc Hb Hg] Hid Hm Hnew.
  split; [split|..]; simpl; try done.
  - intros k m' Hk. apply lookup_insert_Some in Hk as [[<- <-]|[_ Hk]]; [done|]. eauto.
  - intros h b Hh. destruct (Hb h b Hh) as [? Hle]. split; [done|].
    etrans; [exact Hle|]. apply count_where_mono. intros k f Hk.
    unfold uses_blob. destruct (sf_current f) as [i|]; [|done].
    rewrite !snap_has_blob_true. intros (q & m' & Hq & <-). exists q, m'. split; [|done].
    simpl. rewrite lookup_insert_ne; [done|]. intros Heq. rewrite Heq in Hnew. congruence.
Qed.
End frames.

(** ** A reference counted before its member row is there

    A repair bumps the count of a blob the snapshot does not have yet, then
    inserts the member: in between the count is one ahead. *)

Section debts.

Definition debt (d : DB) (id : Z) (h0 h : string) : Z :=
  Z.b2z (String.eqb h h0 && negb (snap_has_blob d id h0)).

Record wf_debt (id : Z) (h0 : string) (d : DB) : Prop := {
  wd_fk : fk_ok d; wd_snaps : snaps_ok d; wd_current : current_ok d;
  wd_blobs : ∀ h b, blob_t d !! h = Some b →
    blob_clock_ok b ∧ b_refcount b <= live_refs d h + debt d id h0 h;
  wd_gen : generations_ok d }.

Lemma wf_debt_paid id h0 d : wf_debt id h0 d → snap_has_blob d id h0 = true → wf d.
Proof.
  intros [????? ] Hhas. split; try done. intros h b Hb.
  destruct (wd_blobs0 h b Hb) as [? Hle]. split; [done|].
  unfold debt in Hle. rewrite Hhas, andb_false_r in Hle. simpl in Hle. lia.
Qed.

Lemma wf_debt_bump id h0 d :
  wf d →
  wf_debt id h0 (upd_blob (update_where
    (λ h _, String.eqb h h0 && negb (snap_has_blob d id h0)) bump_blob) d).
Proof.
  intros [[H1 H2 H3 H4 H5 H6] ? ? Hb ?].
  split; [split| | | |]; try done; simpl; intros.
  - rewrite lookup_update_where_is_Some. eauto.
  - rewrite lookup_update_where_is_Some. eauto.
  - rewrite lookup_update_where_is_Some. eauto.
  - rewrite lookup_update_where_is_Some. eauto.
  - apply lookup_update_where_Some in H as (b0 & Hb0 & ->). destruct (Hb h b0 Hb0) as [Hc Hle].
    change (live_refs (upd_blob _ d) h) with (live_refs d h).
    change (debt (upd_blob _ d) id h0 h) with (debt d id h0 h). unfold debt.
    destruct (_ && _); simpl; [|split; [done|lia]].
    split; [by apply bump_blob_clock|lia].
Qed.

(** One more suite counts a blob when a current snapshot gains it. *)
Lemma live_refs_member_insert d id p m h :
  member_t d !! (id, p) = None → is_current d id = true →
  live_refs d h + debt d id (m_blob m) h <= live_refs (upd_member (<[(id, p) := m]>) d) h.
Proof.
  intros Hnew Hcur. set (d' := upd_member _ d).
  assert (∀ f, uses_blob d h f = true → uses_blob d' h f = true) as Hmono.
  { intros f. unfold uses_blob. destruct (sf_current f) as [i|]; [|done].
    rewrite !snap_has_blob_true. intros (q & m' & Hq & <-). exists q, m'. split; [|done].
    simpl. rewrite lookup_insert_ne; [done|]. congruence. }
  apply is_current_true in Hcur as (k & f & Hk & Hf).
  unfold live_refs. rewrite !(count_where_delete _ (suite_t d) k f Hk). simpl.
  assert (count_where (λ _ x, uses_blob d h x) (delete k (suite_t d))
          <= count_where (λ _ x, uses_blob d' h x) (delete k (suite_t d))).
  { apply count_where_mono. eauto. }
  assert (Z.b2z (uses_blob d h f) + debt d id (m_blob m) h <= Z.b2z (uses_blob d' h f)); [|lia].
  unfold debt. destruct (String.eqb_spec h (m_blob m)) as [->|Hne]; simpl.
  - unfold uses_blob. rewrite Hf. replace (snap_has_blob d' id (m_blob m)) with true.
    { by destruct (snap_has_blob d id (m_blob m)). }
    symmetry. apply snap_has_blob_true. exists p, m. split; [|done]. simpl. by rewrite lookup_insert_eq.
  - specialize (Hmono f). destruct (uses_blob d h f), (uses_blob d' h f); simpl; try lia;
      by specialize (Hmono eq_refl).
Qed.

Lemma wf_debt_insert id h0 p m d u d' :
  wf_debt id h0 d → is_current d id = true → m_blob m = h0 →
  member_insert id p m d = Ok (u, d') →
  wf_debt id h0 d' ∧ snap_has_blob d' id h0 = true ∧ is_current d' id = true.
Proof.
  intros [[H1 H2 H3 H4 H5 H6] Hs Hc Hb Hg] Hcur Hm Hrun. unfold member_insert in Hrun. minv.
  unfold has_blob, has_snap in *. bclean. subst h0.
  assert (snap_has_blob (upd_member <[(id, p):=m]> d) id (m_blob m) = true) as Hhas.
  { apply snap_has_blob_true. exists p, m. split; [|done]. simpl. by rewrite lookup_insert_eq. }
  split_and!; [|done|done]. split; [split| | | |]; try done; simpl.
  - intros k x [[<- <-]|[_ Hk]]%lookup_insert_Some; eauto.
  - intros h b Hbl. destruct (Hb h b Hbl) as [? Hle]. split; [done|].
    pose proof (live_refs_member_insert d id p m h) as Hl.
    unfold debt at 1. rewrite Hhas, andb_false_r. simpl.
    specialize (Hl ltac:(done) Hcur). lia.
Qed.
End debts.

(** ** The shared statements keep it *)

Section statements.

Lemma wf_url_upsert k new upd :
  triple wf (url_upsert k new upd) (λ _, wf).
Proof.
  intros d u d' Hwf Hrun. unfold url_upsert in Hrun. minv.
  apply wf_upd_url; [done|]. intros k' x h Hk Hx.
  apply lookup_insert_Some in Hk as [[<- <-]|[_ Hk]].
  - rewrite Hx in Hrun0. simpl in Hrun0. by apply bool_decide_eq_true in Hrun0.
  - eapply (fk_url d (wf_fk d Hwf)); eauto.
Qed.

Lemma wf_member_insert_op id p m : triple wf (member_insert id p m) (λ _, wf).
Proof.
  intros d u d' Hwf Hrun. unfold member_insert in Hrun. minv.
  apply andb_true_iff in Hrun2 as [H1%bool_decide_eq_true H2%bool_decide_eq_true].
  apply bool_decide_eq_true in Hrun0. by apply wf_member_insert.
Qed.

Lemma wf_skip_insert id p m : triple wf (skip_insert id p m) (λ _, wf).
Proof.
  intros d u d' Hwf Hrun. unfold skip_insert in Hrun. minv.
  apply bool_decide_eq_true in Hrun2.
  apply wf_upd_skip; [done|]. intros k s Hk.
  apply lookup_insert_Some in Hk as [[<- <-]|[_ Hk]]; [done|].
  eapply (fk_skip d (wf_fk d Hwf)); eauto.
Qed.

Lemma wf_pkg_insert k id m : triple wf (pkg_insert k id m) (λ _, wf).
Proof.
  intros d u d' Hwf Hrun. unfold pkg_insert in Hrun. minv.
  apply bool_decide_eq_true in Hrun2.
  apply wf_upd_pkg; [done|]. intros k' s Hk.
  apply lookup_insert_Some in Hk as [[<- <-]|[_ Hk]]; [done|].
  eapply (fk_pkg d (wf_fk d Hwf)); eauto.
Qed.

Lemma wf_putRepresentation k h date now : triple wf (putRepresentation k h date now) (λ _, wf).
Proof.
  intros d u d' Hwf Hrun. unfold putRepresentation in Hrun. minv.
  apply bool_decide_eq_true in Hrun0.
  apply wf_upd_rep; [done|]. intros k' r Hk.
  apply lookup_insert_Some in Hk as [[<- <-]|[_ Hk]]; [done|].
  eapply (fk_rep d (wf_fk d Hwf)); eauto.
Qed.

Lemma wf_markSignedSeen k t : triple wf (markSignedSeen k t) (λ _, wf).
Proof. intros d u d' Hwf Hrun. unfold markSignedSeen in Hrun. minv. by apply wf_upd_seen. Qed.

(** Dropping a reference keeps the clock and can only lower a count. *)
Lemma wf_drop_blob d P now :
  wf d → wf (upd_blob (update_where P (drop_blob now)) d).
Proof.
  intros Hwf. apply wf_upd_blob; [done|..].
  - intros h. by rewrite lookup_update_where_is_Some.
  - intros h b (b0 & Hb0 & ->)%lookup_update_where_Some.
    destruct (wf_blobs d Hwf h b0 Hb0) as [Hc Hr].
    destruct (P h b0); [|done]. split; [by apply drop_blob_clock|]. cbn. lia.
Qed.

Lemma wf_upd_url_delete d k : wf d → wf (upd_url (delete k) d).
Proof.
  intros Hwf. apply wf_upd_url; [done|]. intros k' u h [_ Hk]%lookup_delete_Some Hu.
  eapply (fk_url d (wf_fk d Hwf)); eauto.
Qed.

Lemma wf_deleteURLPathRowTx k blob now : triple wf (deleteURLPathRowTx k blob now) (λ _, wf).
Proof.
  intros d u d' Hwf Hrun. unfold deleteURLPathRowTx in Hrun. minv.
  destruct (url_t d !! k); minv; [|done].
  assert (wf (upd_url (delete k) d)) by by apply wf_upd_url_delete.
  destruct blob as [h|]; minv; [|done]. destruct (String.eqb h ""); minv; [done|].
  by apply (wf_drop_blob (upd_url (delete k) d)).
Qed.

Lemma wf_deleteCachedRowTx k now : triple wf (deleteCachedRowTx k now) (λ _, wf).
Proof.
  intros d u d' Hwf Hrun. unfold deleteCachedRowTx in Hrun. minv.
  destruct (url_t d !! k); minv; [|done].
  eapply wf_deleteURLPathRowTx; [|exact Hrun0]. done.
Qed.
End statements.

#[export] Hint Resolve wf_url_upsert wf_member_insert_op wf_skip_insert wf_pkg_insert
  wf_putRepresentation wf_markSignedSeen wf_deleteURLPathRowTx wf_deleteCachedRowTx
  wf_drop_blob wf_upd_seen wf_upd_audit : wf.
