(* ===== verification/Snapshots.v ===== *)
(** * Snapshots and adoption ([internal/cache/adoption.go], [signed_seen.go],
    [reconcile.go], [skipped_member.go], [snapshot_reads.go])

    The candidate, adoption, repair and reconcile transactions, the signed
    history that refuses an unsigned downgrade, and the reads that serve a
    suite's current snapshot. *)
From S2P Require Import Prelude GoStrings AptPath Tables Invariant.
Local Open Scope Z_scope.

(** ** Data the callers pass *)

Record SnapshotCandidate := {
  sc_suite : SuiteKey; sc_inrelease : option string; sc_etag : option string;
  sc_lastmod : option string; sc_release : option string; sc_release_gpg : option string;
  sc_coverage : bool; sc_form : string; sc_date : option Z }.

Record SnapshotMember := {
  sm_id : Z; sm_path : string; sm_blob : string; sm_declared : string }.

Record SkippedMember := {
  skm_path : string; skm_declared : string; skm_size : Z; skm_reason : string;
  skm_detail : string }.

Record PackageHash := {
  pkh_key : URLKey; pkh_declared : string; pkh_id : Z; pkh_name : string;
  pkh_arch : string; pkh_version : string; pkh_flat : string }.

Record PrefetchedURLPath := {
  pf_key : URLKey; pf_blob : string; pf_upstream : string }.

(** ** Anchor forms *)

Definition anchorHash (form name : string) (single release releaseGPG : option string)
    : option string :=
  if (String.eqb name "InRelease" && String.eqb form FormInline)
     || (String.eqb name "Release" && String.eqb form FormUnsigned) then single
  else if String.eqb name "Release" && String.eqb form FormDetached then release
  else if String.eqb name "Release.gpg" && String.eqb form FormDetached then releaseGPG
  else None.

Definition AnchorHash (s : SuiteSnapshot) (name : string) : option string :=
  anchorHash (ss_form s) name (ss_inrelease s) (ss_release s) (ss_release_gpg s).

Definition is_set {A} (o : option A) : bool := match o with Some _ => true | None => false end.

Definition candidateForm (sc : SnapshotCandidate) : result cache_error string :=
  let single := is_set (sc_inrelease sc) && negb (is_set (sc_release sc))
                && negb (is_set (sc_release_gpg sc)) in
  let detached := negb (is_set (sc_inrelease sc)) && is_set (sc_release sc)
                  && is_set (sc_release_gpg sc) in
  if String.eqb (sc_form sc) "" then
    if single then Ok FormInline
    else if detached then Ok FormDetached
    else Err ErrInvalidAnchorForm
  else if String.eqb (sc_form sc) FormInline || String.eqb (sc_form sc) FormUnsigned then
    if single then Ok (sc_form sc) else Err ErrInvalidAnchorForm
  else if String.eqb (sc_form sc) FormDetached then
    if detached then Ok FormDetached else Err ErrInvalidAnchorForm
  else Err ErrInvalidAnchorForm.

(** ** Candidates *)

Definition coalesce {A} (a b : option A) : option A :=
  match a with Some _ => a | None => b end.

(** The rows the partial UNIQUE index of schema version 7 compares with. *)
Definition natural_match (k : SuiteKey) (h : option string) (form : string)
    (s : SuiteSnapshot) : bool :=
  bool_decide (ss_suite s = k)
  && bool_decide (is_Some h) && bool_decide (coalesce (ss_inrelease s) (ss_release s) = h)
  && String.eqb (ss_form s) form && bool_decide (ss_retired s = None).

Definition natural_lookup (d : DB) (k : SuiteKey) (h : option string) (form : string)
    : option (Z * SuiteSnapshot) :=
  List.find (λ e, natural_match k h form (snd e)) (map_to_list (snap_t d)).

Definition candidate_row (sc : SnapshotCandidate) (form : string) (now : Z) : SuiteSnapshot :=
  {| ss_suite := sc_suite sc; ss_inrelease := sc_inrelease sc; ss_etag := sc_etag sc;
     ss_lastmod := sc_lastmod sc; ss_release := sc_release sc;
     ss_release_gpg := sc_release_gpg sc; ss_created := now; ss_adopted := None;
     ss_coverage := sc_coverage sc; ss_heartbeat := Some now; ss_form := form;
     ss_date := sc_date sc; ss_retired := None |}.

(** The columns a reused candidate takes from the new attempt. *)
Definition refresh_candidate (sc : SnapshotCandidate) (now : Z) (s : SuiteSnapshot)
    : SuiteSnapshot :=
  {| ss_suite := ss_suite s; ss_inrelease := ss_inrelease s; ss_etag := sc_etag sc;
     ss_lastmod := sc_lastmod sc; ss_release := ss_release s;
     ss_release_gpg := sc_release_gpg sc; ss_created := ss_created s;
     ss_adopted := ss_adopted s; ss_coverage := ss_coverage s;
     ss_heartbeat := Some now; ss_form := ss_form s; ss_date := sc_date sc;
     ss_retired := ss_retired s |}.

Definition fk_anchors (d : DB) (sc : SnapshotCandidate) : bool :=
  fk_blob d (sc_inrelease sc) && fk_blob d (sc_release sc) && fk_blob d (sc_release_gpg sc).

Definition InsertCandidateSnapshot (sc : SnapshotCandidate) (now : Z) : T (Z * bool) :=
  match candidateForm sc with
  | Err e => mfail e
  | Ok form =>
      d ← mget;
      match natural_lookup d (sc_suite sc) (coalesce (sc_inrelease sc) (sc_release sc)) form with
      | None =>
          _ ← massert (fk_anchors d sc) ForeignKeyViolation;
          let id := snap_seq d + 1 in
          _ ← mmodify (λ d, upd_snap (<[id := candidate_row sc form now]>)
                              (upd_seq (λ _, id) d));
          mret (id, false)
      | Some (id, s) =>
          match ss_adopted s with
          | Some _ => mfail (NaturalKeyAdopted id)
          | None =>
              _ ← massert (fk_blob d (sc_release_gpg sc)) ForeignKeyViolation;
              _ ← mmodify (upd_snap (<[id := refresh_candidate sc now s]>));
              mret (id, true)
          end
      end
  end.

Definition HeartbeatSnapshot (id now : Z) : T unit :=
  mmodify (upd_snap (update_where (λ i _, i =? id)
    (λ s, {| ss_suite := ss_suite s; ss_inrelease := ss_inrelease s; ss_etag := ss_etag s;
             ss_lastmod := ss_lastmod s; ss_release := ss_release s;
             ss_release_gpg := ss_release_gpg s; ss_created := ss_created s;
             ss_adopted := ss_adopted s; ss_coverage := ss_coverage s;
             ss_heartbeat := Some now; ss_form := ss_form s; ss_date := ss_date s;
             ss_retired := ss_retired s |}))).

(** ** Signed history *)

Definition has_marker (d : DB) (host base : string) : bool :=
  exists_where (λ k _, signed_scheme (key_scheme k) && String.eqb (key_host k) host
                       && String.eqb (key_path k) base) (seen_t d).

Definition has_signed_snapshot (d : DB) (host base : string) : bool :=
  exists_where (λ _ s, signed_scheme (key_scheme (ss_suite s))
                       && String.eqb (key_host (ss_suite s)) host
                       && (String.eqb (key_path (ss_suite s)) base
                           || String.eqb (key_path (ss_suite s)) (base +:+ "/."))
                       && signed_history s) (snap_t d).

Definition refuseUnsignedDowngrade (host suite : string) : T unit :=
  d ← mget;
  let base := MarkerBase suite in
  if has_marker d host base then mfail ErrUnsignedDowngradeRefused
  else if has_signed_snapshot d host base then mfail ErrUnsignedDowngradeRefused
  else mret tt.

Definition SignedSeen (d : DB) (scheme host base : string) : Z * bool :=
  match seen_t d !! (scheme, host, base) with Some t => (t, true) | None => (0, false) end.

(** [MarkSignedSeenBatch]: one transaction per 500 marks. *)
Definition mark_chunk (marks : list (SuiteKey * Z)) : T unit :=
  mfor (λ m, markSignedSeen m.1 m.2) marks.

Fixpoint MarkSignedSeenBatch (fuel : nat) (marks : list (SuiteKey * Z)) (d : DB) : DB :=
  match fuel, marks with
  | S fuel, _ :: _ =>
      let n := Nat.min (length marks) 500 in
      MarkSignedSeenBatch fuel (drop n marks) (atomically (mark_chunk (take n marks)) d).2
  | _, _ => d
  end.

(** ** The adoption transaction *)

Definition snapshot_row (id : Z) : T SuiteSnapshot :=
  d ← mget;
  match snap_t d !! id with
  | None => mfail ErrSnapshotNotFound
  | Some s => mret s
  end.

Definition adopt_checks (s : SuiteSnapshot) : T unit :=
  _ ← massert (negb (is_set (ss_adopted s))) ErrSnapshotAlreadyAdopted;
  _ ← massert (negb (is_set (ss_retired s))) ErrSnapshotRetired;
  if String.eqb (ss_form s) FormUnsigned
  then refuseUnsignedDowngrade (key_host (ss_suite s)) (key_path (ss_suite s))
  else mret tt.

Definition adopt_member (id : Z) (m : SnapshotMember) : T unit :=
  _ ← massert (validBlobHash (sm_blob m)) ErrInvalidHash;
  _ ← massert (validBlobHash (sm_declared m)) ErrInvalidHash;
  member_insert id (sm_path m) {| m_blob := sm_blob m; m_declared := sm_declared m |}.

Definition adopt_skipped (id skipNow : Z) (s : SkippedMember) : T unit :=
  _ ← massert (validBlobHash (skm_declared s)) ErrInvalidHash;
  skip_insert id (skm_path s)
    {| sk_declared := skm_declared s; sk_size := skm_size s; sk_reason := skm_reason s;
       sk_detail := skm_detail s; sk_at := skipNow; sk_retry := 0 |}.

Definition package_row (p : PackageHash) : Package :=
  {| ph_declared := pkh_declared p; ph_name := pkh_name p; ph_arch := pkh_arch p;
     ph_version := pkh_version p; ph_flat := pkh_flat p |}.

Definition adopt_package (id : Z) (p : PackageHash) : T unit :=
  _ ← massert (validBlobHash (pkh_declared p)) ErrInvalidHash;
  pkg_insert (pkh_key p) id (package_row p).

(** [MAX(adopted_at)] over a suite's snapshots, [MAX(last_fetched_at)] over
    its anchor rows: NULLs do not count, and of no row it is NULL. *)
Definition max_opt (a b : option Z) : option Z :=
  match a, b with
  | Some x, Some y => Some (Z.max x y)
  | Some x, None | None, Some x => Some x
  | None, None => None
  end.

Definition max_over {A} (f : A → option Z) (l : list A) : option Z :=
  foldr (λ x acc, max_opt (f x) acc) None l.

Definition newest_adoption (d : DB) (k : SuiteKey) : option Z :=
  max_over (λ e, if bool_decide (ss_suite (snd e) = k) then ss_adopted (snd e) else None)
    (map_to_list (snap_t d)).

Definition anchor_keys (k : SuiteKey) : list URLKey :=
  map (λ name, (key_scheme k, key_host k, key_path k +:+ name))
    ["/InRelease"; "/Release"; "/Release.gpg"].

Definition newest_anchor_fetch (d : DB) (k : SuiteKey) : option Z :=
  max_over (λ uk, u ← url_t d !! uk; up_last_fetched u) (anchor_keys k).

Definition at_least (stamp : Z) (o : option Z) : Z :=
  match o with Some n => Z.max stamp (n + 1) | None => stamp end.

Definition adoptionStampTx (k : SuiteKey) (now : Z) : T Z :=
  d ← mget;
  let stamp := at_least now (newest_adoption d k) in
  match suite_current d k with
  | Some _ => mret stamp
  | None => mret (at_least stamp (newest_anchor_fetch d k))
  end.

Definition prefetched_row (now : Z) (lastmod : option string) (p : PrefetchedURLPath) : URLPath :=
  {| up_blob := Some (pf_blob p); up_upstream := pf_upstream p; up_is_metadata := false;
     up_last_requested := None; up_request_count := 0; up_last_fetched := Some now;
     up_etag := None; up_lastmod := lastmod; up_dropped := None |}.

(** The DO UPDATE clause keeps last_requested_at and request_count. *)
Definition prefetched_update (now : Z) (lastmod : option string) (p : PrefetchedURLPath)
    (u : URLPath) : URLPath :=
  {| up_blob := Some (pf_blob p); up_upstream := pf_upstream p;
     up_is_metadata := up_is_metadata u; up_last_requested := up_last_requested u;
     up_request_count := up_request_count u; up_last_fetched := Some now;
     up_etag := None; up_lastmod := lastmod; up_dropped := None |}.

Definition adopt_prefetched (now : Z) (p : PrefetchedURLPath) : T unit :=
  _ ← massert (validBlobHash (pf_blob p)) ErrInvalidHash;
  d ← mget;
  let lastmod := rep_lastmod <$> rep_t d !! (pf_key p, pf_blob p) in
  url_upsert (pf_key p) (prefetched_row now lastmod p) (prefetched_update now lastmod p).

Definition set_coverage (c : bool) (s : SuiteSnapshot) : SuiteSnapshot :=
  {| ss_suite := ss_suite s; ss_inrelease := ss_inrelease s; ss_etag := ss_etag s;
     ss_lastmod := ss_lastmod s; ss_release := ss_release s;
     ss_release_gpg := ss_release_gpg s; ss_created := ss_created s;
     ss_adopted := ss_adopted s; ss_coverage := c; ss_heartbeat := ss_heartbeat s;
     ss_form := ss_form s; ss_date := ss_date s; ss_retired := ss_retired s |}.

Definition set_adopted (stamp : Z) (s : SuiteSnapshot) : SuiteSnapshot :=
  {| ss_suite := ss_suite s; ss_inrelease := ss_inrelease s; ss_etag := ss_etag s;
     ss_lastmod := ss_lastmod s; ss_release := ss_release s;
     ss_release_gpg := ss_release_gpg s; ss_created := ss_created s;
     ss_adopted := Some stamp; ss_coverage := ss_coverage s; ss_heartbeat := ss_heartbeat s;
     ss_form := ss_form s; ss_date := ss_date s; ss_retired := ss_retired s |}.

Definition anchor_row (h upstream : string) (now : Z) : URLPath :=
  {| up_blob := Some h; up_upstream := upstream; up_is_metadata := true;
     up_last_requested := None; up_request_count := 0; up_last_fetched := Some now;
     up_etag := None; up_lastmod := None; up_dropped := None |}.

Definition anchor_update (h : string) (now : Z) (u : URLPath) : URLPath :=
  {| up_blob := Some h; up_upstream := up_upstream u; up_is_metadata := true;
     up_last_requested := up_last_requested u; up_request_count := up_request_count u;
     up_last_fetched := Some now; up_etag := up_etag u; up_lastmod := up_lastmod u;
     up_dropped := None |}.

Definition seedAnchor (s : SuiteSnapshot) (now : Z) (name : string) : T unit :=
  match AnchorHash s name with
  | None => mret tt
  | Some h =>
      if String.eqb h "" then mret tt
      else
        let '(scheme, host, suite) := ss_suite s in
        let path := suite +:+ "/" +:+ name in
        url_upsert (scheme, host, path)
          (anchor_row h (BuildUpstreamURL scheme host path) now) (anchor_update h now)
  end.

(** The pointer flip: the suite's row takes the snapshot, its validators and
    a clear failure record. *)
Definition clear_failure (f : SuiteFreshness) : SuiteFreshness :=
  {| sf_last_check := sf_last_check f; sf_last_success := sf_last_success f;
     sf_etag := sf_etag f; sf_lastmod := sf_lastmod f; sf_change_seen := sf_change_seen f;
     sf_current := sf_current f; sf_last_requested := sf_last_requested f;
     sf_check_fail := sf_check_fail f;
     sf_fail_hash := None; sf_fail_reason := None; sf_fail_count := 0;
     sf_fail_first := None; sf_fail_last := None; sf_next_retry := None;
     sf_fail_etag := None; sf_fail_lastmod := None;
     sf_rowid := sf_rowid f; sf_generation := sf_generation f |}.

Definition flip_row (id : Z) (etag lastmod : option string) (f : SuiteFreshness)
    : SuiteFreshness :=
  clear_failure
    {| sf_last_check := sf_last_check f; sf_last_success := sf_last_success f;
       sf_etag := etag; sf_lastmod := lastmod; sf_change_seen := None;
       sf_current := Some id; sf_last_requested := sf_last_requested f;
       sf_check_fail := sf_check_fail f;
       sf_fail_hash := sf_fail_hash f; sf_fail_reason := sf_fail_reason f;
       sf_fail_count := sf_fail_count f; sf_fail_first := sf_fail_first f;
       sf_fail_last := sf_fail_last f; sf_next_retry := sf_next_retry f;
       sf_fail_etag := sf_fail_etag f; sf_fail_lastmod := sf_fail_lastmod f;
       sf_rowid := sf_rowid f; sf_generation := sf_generation f |}.

Definition flip_pointer (id : Z) (s : SuiteSnapshot) : T unit :=
  d ← mget;
  match suite_t d !! ss_suite s with
  | None => mfail ErrSuiteGone
  | Some f => mmodify (upd_suite (<[ss_suite s := flip_row id (ss_etag s) (ss_lastmod s) f]>))
  end.

(** The marker key of a suite: its base. *)
Definition base_key (k : SuiteKey) : SuiteKey :=
  (key_scheme k, key_host k, MarkerBase (key_path k)).

Definition mark_adopted_base (s : SuiteSnapshot) (now : Z) : T unit :=
  if String.eqb (ss_form s) FormInline || String.eqb (ss_form s) FormDetached
  then markSignedSeen (base_key (ss_suite s)) now
  else mret tt.

(** The rows of an adoption, before any pointer or count changes. *)
Definition adopt_rows (id : Z) (members : list SnapshotMember) (skipped : list SkippedMember)
    (packages : list PackageHash) (skipNow : Z) : T unit :=
  _ ← mfor (adopt_member id) members;
  _ ← mfor (adopt_skipped id skipNow) skipped;
  mfor (adopt_package id) packages.

(** The url_path rows of an adoption and its coverage bit. *)
Definition adopt_urls (id : Z) (s : SuiteSnapshot) (prefetched : list PrefetchedURLPath)
    (coverage : bool) (now : Z) : T unit :=
  _ ← mfor (adopt_prefetched now) prefetched;
  _ ← mmodify (upd_snap (update_where (λ i _, i =? id) (set_coverage coverage)));
  mfor (seedAnchor s now) (AnchorPaths (ss_form s)).

(** The refcounts, the pointer, the stamp and the marker. *)
Definition adopt_flip (id : Z) (s : SuiteSnapshot) (stamp now : Z) : T unit :=
  _ ← bump_snapshot id;
  d ← mget;
  let prior := suite_current d (ss_suite s) in
  _ ← flip_pointer id s;
  _ ← mmodify (upd_snap (update_where (λ i _, i =? id) (set_adopted stamp)));
  _ ← mark_adopted_base s now;
  match prior with
  | Some p => decrementSnapshotRefcountsTx p now
  | None => mret tt
  end.

Definition CommitAdoption (id : Z) (members : list SnapshotMember)
    (skipped : list SkippedMember) (packages : list PackageHash)
    (prefetched : list PrefetchedURLPath) (coverage : bool) (skipNow now : Z) : T unit :=
  s ← snapshot_row id;
  _ ← adopt_checks s;
  _ ← adopt_rows id members skipped packages skipNow;
  stamp ← adoptionStampTx (ss_suite s) now;
  _ ← adopt_urls id s prefetched coverage now;
  adopt_flip id s stamp now.

(** ** Reading the current snapshot *)

Definition LookupSnapshotMember (d : DB) (k : SuiteKey) (member : string)
    : option (Z * string) :=
  id ← suite_current d k;
  m ← member_t d !! (id, member);
  Some (id, m_blob m).

Definition GetSnapshotMember (d : DB) (id : Z) (path : string) : result cache_error Member :=
  match member_t d !! (id, path) with Some m => Ok m | None => Err ErrNotFound end.

Definition GetSuiteSnapshot (d : DB) (id : Z) : result cache_error SuiteSnapshot :=
  match snap_t d !! id with Some s => Ok s | None => Err ErrNotFound end.

(** ** Reconcile and repair *)

Definition bump_missing (id : Z) (h : string) : T unit :=
  mmodify (λ d, upd_blob (update_where
    (λ h' _, String.eqb h' h && negb (snap_has_blob d id h)) bump_blob) d).

Definition current_guard (id : Z) : T unit :=
  d ← mget;
  massert (is_current d id) ErrSnapshotNotCurrent.

Definition reconcile_member (id : Z) (m : SnapshotMember) : T unit :=
  _ ← massert (sm_id m =? id) ErrMemberMismatch;
  _ ← massert (validBlobHash (sm_blob m)) ErrInvalidHash;
  _ ← massert (validBlobHash (sm_declared m)) ErrInvalidHash;
  d ← mget;
  match member_t d !! (id, sm_path m) with
  | Some e => massert (String.eqb (m_blob e) (sm_blob m)) ErrMemberMismatch
  | None =>
      _ ← bump_missing id (sm_blob m);
      member_insert (sm_id m) (sm_path m)
        {| m_blob := sm_blob m; m_declared := sm_declared m |}
  end.

Definition identity_conflict (have want : string) : bool :=
  negb (String.eqb have "") && negb (String.eqb want "") && negb (String.eqb have want).

Definition heal (have want : string) : string := if String.eqb have "" then want else have.

Definition insertPackageHashTx (p : PackageHash) : T unit :=
  _ ← massert (validBlobHash (pkh_declared p)) ErrInvalidHash;
  d ← mget;
  match pkg_t d !! (pkh_key p, pkh_id p) with
  | None => pkg_insert (pkh_key p) (pkh_id p) (package_row p)
  | Some e =>
      _ ← massert (String.eqb (ph_declared e) (pkh_declared p)) ErrMemberMismatch;
      _ ← massert (negb (identity_conflict (ph_name e) (pkh_name p)
                         || identity_conflict (ph_arch e) (pkh_arch p)
                         || identity_conflict (ph_version e) (pkh_version p)))
            ErrMemberMismatch;
      if (String.eqb (ph_name e) "" && negb (String.eqb (pkh_name p) ""))
         || (String.eqb (ph_arch e) "" && negb (String.eqb (pkh_arch p) ""))
         || (String.eqb (ph_version e) "" && negb (String.eqb (pkh_version p) ""))
      then mmodify (upd_pkg (<[(pkh_key p, pkh_id p) :=
             {| ph_declared := ph_declared e; ph_name := heal (ph_name e) (pkh_name p);
                ph_arch := heal (ph_arch e) (pkh_arch p);
                ph_version := heal (ph_version e) (pkh_version p);
                ph_flat := ph_flat e |}]>))
      else mret tt
  end.

Definition InsertReconciledMembers (id : Z) (members : list SnapshotMember)
    (packages : list PackageHash) : T unit :=
  _ ← current_guard id;
  _ ← mfor (reconcile_member id) members;
  mfor insertPackageHashTx packages.

Definition repair_checks (id : Z) (declared path : string) (members : list SnapshotMember)
    : T unit :=
  _ ← mfor (λ m, massert ((sm_id m =? id) && String.eqb (sm_blob m) declared
                          && String.eqb (sm_declared m) declared) ErrMemberMismatch) members;
  massert (existsb (λ m, String.eqb (sm_path m) path) members) ErrMemberMismatch.

Definition repair_member (id : Z) (m : SnapshotMember) : T unit :=
  d ← mget;
  match member_t d !! (id, sm_path m) with
  | None => member_insert id (sm_path m) {| m_blob := sm_blob m; m_declared := sm_declared m |}
  | Some e => massert (String.eqb (m_blob e) (sm_blob m)
                       && String.eqb (m_declared e) (sm_declared m)) ErrMemberMismatch
  end.

Definition RepairSkippedMember (id : Z) (path : string) (members : list SnapshotMember) : T unit :=
  _ ← current_guard id;
  d ← mget;
  match skip_t d !! (id, path) with
  | None => mfail ErrNotFound
  | Some sk =>
      _ ← massert (validBlobHash (sk_declared sk)) ErrInvalidHash;
      _ ← repair_checks id (sk_declared sk) path members;
      _ ← mmodify (upd_skip (delete (id, path)));
      _ ← bump_missing id (sk_declared sk);
      mfor (repair_member id) members
  end.

Definition BumpSkippedMemberRetry (id : Z) (path : string) : T unit :=
  mmodify (upd_skip (update_where (λ k _, bool_decide (k = (id, path)))
    (λ s, {| sk_declared := sk_declared s; sk_size := sk_size s; sk_reason := sk_reason s;
             sk_detail := sk_detail s; sk_at := sk_at s; sk_retry := sk_retry s + 1 |}))).

(** ** Eviction of one cached path *)

Definition EvictURLPath (k : URLKey) (now : Z) : T unit :=
  d ← mget;
  match url_t d !! k with
  | None => mret tt
  | Some u =>
      _ ← mmodify (upd_url (delete k));
      match up_blob u with
      | Some h => if String.eqb h "" then mret tt
                  else mmodify (upd_blob (update_where (λ h' _, String.eqb h' h) (drop_blob now)))
      | None => mret tt
      end
  end.

(** ** The rows of an adoption *)

Section adopt_laws.

(** Inserting rows touches neither the blobs, nor url_path, nor the suites,
    nor the snapshots. *)
Definition same_core (d0 d : DB) : Prop :=
  blob_t d = blob_t d0 ∧ url_t d = url_t d0 ∧ suite_t d = suite_t d0 ∧
  snap_t d = snap_t d0 ∧ seen_t d = seen_t d0.

Lemma adopt_rows_frame id members skipped packages now d0 :
  triple (λ d, wf d ∧ same_core d0 d) (adopt_rows id members skipped packages now)
    (λ _ d, wf d ∧ same_core d0 d).
Proof.
  unfold adopt_rows. eapply triple_seq; [|intros ?; eapply triple_seq; [|intros ?]];
    apply triple_for_inv; intros x d u d' [Hwf (?&?&?&?&?)] Hrun.
  - unfold adopt_member in Hrun. minv. split; [by eapply wf_member_insert_op|].
    unfold member_insert in Hrun. minv. by split_and!.
  - unfold adopt_skipped in Hrun. minv. split; [by eapply wf_skip_insert|].
    unfold skip_insert in Hrun. minv. by split_and!.
  - unfold adopt_package in Hrun. minv. split; [by eapply wf_pkg_insert|].
    unfold pkg_insert in Hrun. minv. by split_and!.
Qed.

(** The members asked for are there afterwards, with their blobs. *)
Lemma adopt_members_in id members d u d' :
  mfor (adopt_member id) members d = Ok (u, d') →
  blob_t d' = blob_t d ∧
  (∀ k m, member_t d !! k = Some m → member_t d' !! k = Some m) ∧
  ∀ m, m ∈ members →
    member_t d' !! (id, sm_path m) = Some {| m_blob := sm_blob m; m_declared := sm_declared m |} ∧
    is_Some (blob_t d' !! sm_blob m) ∧ validBlobHash (sm_declared m) = true.
Proof.
  revert d. induction members as [|m members IH]; intros d Hrun; cbn [mfor] in Hrun; minv.
  { split_and!; [done|done|]. intros m Hm. by apply not_elem_of_nil in Hm. }
  destruct (IH _ Hrun) as (Hb & Hkeep & Hin). clear IH Hrun.
  unfold adopt_member, member_insert in Hrun0. minv.
  unfold has_blob in *. bclean. simpl in *.
  split_and!; [done| |].
  - intros k x Hk. apply Hkeep. rewrite lookup_insert_ne; [done|]. congruence.
  - intros x [->|Hx]%elem_of_cons; [|by apply Hin].
    split_and!; [|by rewrite Hb|done]. apply Hkeep. by rewrite lookup_insert_eq.
Qed.

(** The url_path rows: snapshots keep their view, suites and members are
    untouched. *)
Definition url_frame (d0 d : DB) : Prop :=
  suite_t d = suite_t d0 ∧ member_t d = member_t d0 ∧ blob_t d = blob_t d0 ∧
  seen_t d = seen_t d0 ∧
  ∀ i, snap_view <$> snap_t d !! i = snap_view <$> snap_t d0 !! i.

Lemma same_core_refl d : same_core d d.
Proof. by split_and!. Qed.

Lemma url_frame_refl d : url_frame d d.
Proof. by split_and!. Qed.

Lemma url_upsert_frame k new upd d0 :
  triple (λ d, wf d ∧ url_frame d0 d) (url_upsert k new upd) (λ _ d, wf d ∧ url_frame d0 d).
Proof.
  intros d u d' [Hwf Hf] Hrun. split; [by eapply wf_url_upsert|].
  unfold url_upsert in Hrun. minv. exact Hf.
Qed.

Lemma seedAnchor_frame s now name d0 :
  triple (λ d, wf d ∧ url_frame d0 d) (seedAnchor s now name) (λ _ d, wf d ∧ url_frame d0 d).
Proof.
  unfold seedAnchor. destruct (AnchorHash s name) as [h|]; [|apply triple_ret].
  destruct (String.eqb h ""); [by intros d u d' H [= <- <-]|].
  destruct (ss_suite s) as [[scheme host] suite]. apply url_upsert_frame.
Qed.

Lemma set_coverage_frame id c d0 d :
  wf d ∧ url_frame d0 d →
  wf (upd_snap (update_where (λ i _, i =? id) (set_coverage c)) d) ∧
  url_frame d0 (upd_snap (update_where (λ i _, i =? id) (set_coverage c)) d).
Proof.
  intros [Hwf (?&?&?&?&Hv)].
  assert (∀ i, snap_view <$> update_where (λ i _, i =? id) (set_coverage c) (snap_t d) !! i
               = snap_view <$> snap_t d !! i) as Hext.
  { intros i. rewrite lookup_update_where. destruct (snap_t d !! i) as [x|]; [|done].
    simpl. by destruct (i =? id). }
  split; [by apply wf_upd_snap|]. split_and!; try done. intros i. simpl. by rewrite Hext.
Qed.

Lemma adopt_urls_frame id s prefetched coverage now d0 :
  triple (λ d, wf d ∧ url_frame d0 d) (adopt_urls id s prefetched coverage now)
    (λ _ d, wf d ∧ url_frame d0 d).
Proof.
  unfold adopt_urls. set (I := λ d, wf d ∧ url_frame d0 d).
  apply (triple_seq I I); [|intros ?; apply (triple_seq I I); [|intros ?]]; unfold I.
  - apply triple_for_inv. intros p d u d' H Hrun. unfold adopt_prefetched in Hrun. minv.
    eapply url_upsert_frame; [exact H|exact Hrun].
  - intros d u d' H Hrun. minv. by apply set_coverage_frame.
  - apply triple_for_inv. intros name. apply seedAnchor_frame.
Qed.

(** ** The flip *)

(** Its effect in one piece: counts, pointer and stamp. *)
Definition flip_core (id : Z) (k : SuiteKey) (f' : SuiteFreshness) (prior : option Z)
    (stamp now : Z) (d : DB) : DB :=
  upd_blob (λ m,
      let b := update_where (λ h _, snap_has_blob d id h) bump_blob m in
      match prior with
      | Some p => update_where (λ h _, snap_has_blob d p h) (drop_blob now) b
      | None => b
      end)
    (upd_suite (<[k := f']>)
       (upd_snap (update_where (λ i _, i =? id) (set_adopted stamp)) d)).

Definition adopted_marker (s : SuiteSnapshot) (now : Z) (m : gmap SuiteKey Z) : gmap SuiteKey Z :=
  if String.eqb (ss_form s) FormInline || String.eqb (ss_form s) FormDetached
  then <[base_key (ss_suite s) := match m !! base_key (ss_suite s) with
                                  | Some t => Z.max t now | None => now end]> m
  else m.

Lemma adopt_flip_inv id s stamp now d u d' :
  adopt_flip id s stamp now d = Ok (u, d') →
  ∃ f, suite_t d !! ss_suite s = Some f ∧
    d' = upd_seen (adopted_marker s now)
           (flip_core id (ss_suite s) (flip_row id (ss_etag s) (ss_lastmod s) f)
              (sf_current f) stamp now d).
Proof.
  unfold adopt_flip, bump_snapshot, flip_pointer, mark_adopted_base, adopted_marker.
  intros Hrun. minv. unfold suite_current in Hrun. simpl in *.
  destruct (suite_t d !! ss_suite s) as [f|] eqn:Hf; minv. exists f. split; [done|].
  simpl in Hrun.
  destruct (_ || _); unfold markSignedSeen in *; minv; destruct (sf_current f);
    unfold decrementSnapshotRefcountsTx in *; minv; done.
Qed.

(** The refcounts of the flip: one more for the blobs of the new snapshot,
    one less for those of the prior one. *)
Lemma flip_core_blob id k f' prior stamp now d h b :
  blob_t (flip_core id k f' prior stamp now d) !! h = Some b →
  ∃ b0, blob_t d !! h = Some b0 ∧
    b_refcount b = b_refcount b0 + Z.b2z (snap_has_blob d id h)
                   - Z.b2z (match prior with Some p => snap_has_blob d p h | None => false end) ∧
    (blob_clock_ok b0 → blob_clock_ok b).
Proof.
  unfold flip_core. simpl. destruct prior as [p|].
  - intros (b1 & (b0 & Hb0 & ->)%lookup_update_where_Some & ->)%lookup_update_where_Some.
    exists b0. split; [done|]. destruct (snap_has_blob d id h), (snap_has_blob d p h); simpl;
      split; try lia; auto using bump_blob_clock, drop_blob_clock.
  - intros (b0 & Hb0 & ->)%lookup_update_where_Some. exists b0. split; [done|].
    destruct (snap_has_blob d id h); simpl; split; try lia; auto using bump_blob_clock.
Qed.

Lemma flip_core_blob_dom id k f' prior stamp now d h :
  is_Some (blob_t (flip_core id k f' prior stamp now d) !! h) ↔ is_Some (blob_t d !! h).
Proof.
  unfold flip_core. simpl. destruct prior; by rewrite !lookup_update_where_is_Some.
Qed.

Lemma flip_core_wf id k f s1 etag lastmod stamp now d :
  wf d → suite_t d !! k = Some f →
  snap_t d !! id = Some s1 → ss_suite s1 = k → ss_adopted s1 = None → ss_retired s1 = None →
  wf (flip_core id k (flip_row id etag lastmod f) (sf_current f) stamp now d).
Proof.
  intros Hwf Hf Hs1 Hk Ha Hr.
  pose proof (unadopted_not_current d id s1 (wf_current d Hwf) Hs1 Ha) as Hnc.
  set (d' := flip_core _ _ _ _ _ _ d).
  assert (∀ h, is_Some (blob_t d !! h) → is_Some (blob_t d' !! h)) as Hdom.
  { intros h. apply flip_core_blob_dom. }
  assert (∀ i s, snap_t d' !! i = Some s ↔ ∃ s0, snap_t d !! i = Some s0 ∧
            s = if i =? id then set_adopted stamp s0 else s0) as Hsnap.
  { intros i s. apply lookup_update_where_Some. }
  assert (∀ i, is_Some (snap_t d !! i) → is_Some (snap_t d' !! i)) as Hsdom.
  { intros i. apply lookup_update_where_is_Some. }
  destruct Hwf as [[H1 H2 H3 H4 H5 H6] Hsn Hc Hb Hg]. split; [split|..].
  - intros k' u h Hu Hh. eapply Hdom, H1; eauto.
  - intros k' m Hm. destruct (H2 k' m Hm). eauto.
  - intros k' x Hx. eapply Hsdom, H3; eauto.
  - intros k' x Hx. eapply Hsdom, H4; eauto.
  - intros i s h (s0 & Hs0 & ->)%Hsnap Hh. eapply Hdom, H5; [exact Hs0|].
    by destruct (i =? id).
  - intros k' x Hx. eapply Hdom, H6; eauto.
  - destruct Hsn as [Hseq Hsn]. split; [done|].
    intros i s (s0 & Hs0 & ->)%Hsnap. destruct (Hsn i s0 Hs0) as [? Hsh].
    split; [done|]. by destruct (i =? id).
  - intros k' f' i Hk' Hf'. simpl in Hk'.
    apply lookup_insert_Some in Hk' as [[<- <-]|[Hne Hk']].
    + simpl in Hf'. injection Hf' as <-. exists (set_adopted stamp s1).
      split_and!; try done. apply Hsnap. exists s1. by rewrite Z.eqb_refl.
    + destruct (Hc k' f' i Hk' Hf') as (s0 & Hs0 & Hsk & Had & Hre).
      exists s0. split_and!; try done. apply Hsnap. exists s0. split; [done|].
      destruct (Z.eqb_spec i id) as [->|]; [|done].
      exfalso. by eapply (proj1 (is_current_false d id) Hnc).
  - intros h b Hbl. destruct (flip_core_blob _ _ _ _ _ _ _ _ _ Hbl) as (b0 & Hb0 & Hrc & Hclk).
    destruct (Hb h b0 Hb0) as [Hcl Hle]. split; [by apply Hclk|].
    assert (live_refs d' h = live_refs d h - Z.b2z (uses_blob d h f)
              + Z.b2z (snap_has_blob d id h)) as ->.
    { exact (count_where_insert (λ _ x, uses_blob d h x) (suite_t d) k f
               (flip_row id etag lastmod f) Hf). }
    unfold uses_blob. lia.
  - intros k' x Hx. simpl in Hx. apply lookup_insert_Some in Hx as [[<- <-]|[_ Hx]]; [|eauto].
    simpl. eauto.
Qed.

(** ** The whole transaction *)

(** The state in which the flip runs. *)
Lemma CommitAdoption_inv id members skipped packages prefetched coverage skipNow now d u d' :
  wf d →
  CommitAdoption id members skipped packages prefetched coverage skipNow now d = Ok (u, d') →
  ∃ s d1 stamp d2,
    snap_t d !! id = Some s ∧ ss_adopted s = None ∧ ss_retired s = None ∧
    adopt_checks s d = Ok (tt, d) ∧
    adopt_rows id members skipped packages skipNow d = Ok (tt, d1) ∧
    wf d1 ∧ same_core d d1 ∧
    adoptionStampTx (ss_suite s) now d1 = Ok (stamp, d1) ∧
    adopt_urls id s prefetched coverage now d1 = Ok (tt, d2) ∧
    wf d2 ∧ url_frame d1 d2 ∧
    adopt_flip id s stamp now d2 = Ok (u, d').
Proof.
  intros Hwf Hrun. unfold CommitAdoption in Hrun. minv.
  unfold snapshot_row in Hrun0. minv. destruct (snap_t d !! id) as [s|] eqn:Hs; minv.
  assert (st0 = d) as ->.
  { unfold adopt_checks, refuseUnsignedDowngrade in Hrun1. minv.
    destruct (String.eqb _ _); minv; [|done].
    destruct (has_marker _ _ _); minv. destruct (has_signed_snapshot _ _ _); by minv. }
  destruct (adopt_rows_frame id members skipped packages skipNow d _ _ _
              (conj Hwf (same_core_refl d)) Hrun2) as [Hwf1 Hsame].
  assert (st2 = st1) as ->.
  { unfold adoptionStampTx in Hrun3. minv. destruct (suite_current _ _); by minv. }
  destruct (adopt_urls_frame id s prefetched coverage now st1 _ _ _
              (conj Hwf1 (url_frame_refl st1)) Hrun4) as [Hwf2 Hframe].
  destruct rv0, rv1, rv3. exists s, st1, rv2, st3. split_and!; try done.
  - unfold adopt_checks in Hrun1. minv. bclean. by destruct (ss_adopted s).
  - unfold adopt_checks in Hrun1. minv. bclean. by destruct (ss_retired s).
Qed.

Lemma candidate_frame d1 d2 id s :
  url_frame d1 d2 → snap_t d1 !! id = Some s →
  ∃ s', snap_t d2 !! id = Some s' ∧ snap_view s' = snap_view s.
Proof.
  intros (_&_&_&_&Hv) Hs. specialize (Hv id). rewrite Hs in Hv.
  destruct (snap_t d2 !! id) as [s'|]; [|done]. exists s'. split; [done|]. simpl in Hv. congruence.
Qed.

Lemma wf_CommitAdoption id members skipped packages prefetched coverage skipNow now :
  triple wf (CommitAdoption id members skipped packages prefetched coverage skipNow now)
    (λ _, wf).
Proof.
  intros d u d' Hwf Hrun.
  destruct (CommitAdoption_inv _ _ _ _ _ _ _ _ _ _ _ Hwf Hrun)
    as (s & d1 & stamp & d2 & Hs & Ha & Hr & _ & _ & _ & Hsame & _ & _ & Hwf2 & Hframe & Hflip).
  destruct Hsame as (_&_&_&Hsn&_). rewrite <-Hsn in Hs.
  destruct (candidate_frame d1 d2 id s Hframe Hs) as (s' & Hs' & Hv).
  unfold snap_view in Hv. injection Hv as E1 E2 E3 E4 E5 E6 E7.
  destruct (adopt_flip_inv _ _ _ _ _ _ _ Hflip) as (f & Hf & ->).
  apply wf_upd_seen. eapply flip_core_wf; try done; congruence.
Qed.

Lemma adopt_rows_members id members skipped packages now d u d' :
  adopt_rows id members skipped packages now d = Ok (u, d') →
  ∃ dm, mfor (adopt_member id) members d = Ok (tt, dm) ∧ member_t d' = member_t dm ∧
        blob_t d' = blob_t dm.
Proof.
  unfold adopt_rows. intros Hrun. minv. exists st. destruct rv. split; [done|].
  set (I := λ x, member_t x = member_t st ∧ blob_t x = blob_t st).
  assert (I st0) as HI0.
  { eapply (triple_for_inv I); [|split|exact Hrun1]; try done.
    intros x d1 u1 d2 HI Hrun2. unfold adopt_skipped, skip_insert in Hrun2. minv. exact HI. }
  eapply (triple_for_inv I); [|exact HI0|exact Hrun].
  intros x d1 u1 d2 HI Hrun2. unfold adopt_package, pkg_insert in Hrun2. minv. exact HI.
Qed.

Lemma CommitAdoption_ok id members skipped packages prefetched coverage skipNow now d u d' :
  wf d →
  CommitAdoption id members skipped packages prefetched coverage skipNow now d = Ok (u, d') →
  wf d' ∧
  ∃ s, snap_t d !! id = Some s ∧ ss_adopted s = None ∧
    suite_current d' (ss_suite s) = Some id ∧
    (∀ k, k ≠ ss_suite s → suite_t d' !! k = suite_t d !! k) ∧
    (∀ m, m ∈ members →
       LookupSnapshotMember d' (ss_suite s) (sm_path m) = Some (id, sm_blob m) ∧
       is_Some (blob_t d' !! sm_blob m)).
Proof.
  intros Hwf Hrun. split; [by eapply wf_CommitAdoption|].
  destruct (CommitAdoption_inv _ _ _ _ _ _ _ _ _ _ _ Hwf Hrun)
    as (s & d1 & stamp & d2 & Hs & Ha & _ & _ & Hrows & _ & Hsame & _ & _ & _ & Hframe & Hflip).
  destruct (adopt_flip_inv _ _ _ _ _ _ _ Hflip) as (f & Hf & ->).
  destruct (adopt_rows_members _ _ _ _ _ _ _ _ Hrows) as (dm & Hm & Hmt & Hbt).
  destruct (adopt_members_in _ _ _ _ _ Hm) as (_ & _ & Hin).
  destruct Hframe as (Hsu & Hme & Hbl & _ & _). destruct Hsame as (_ & _ & Hsu1 & _).
  exists s. split_and!; try done.
  - unfold suite_current. simpl. by rewrite lookup_insert_eq.
  - intros k Hk. simpl. rewrite lookup_insert_ne by done. by rewrite Hsu, Hsu1.
  - intros m Hmem. destruct (Hin m Hmem) as (Hmm & Hblob & _). split.
    + unfold LookupSnapshotMember, suite_current. simpl. rewrite lookup_insert_eq. simpl.
      by rewrite Hme, Hmt, Hmm.
    + change (is_Some (blob_t (flip_core id (ss_suite s) (flip_row id (ss_etag s) (ss_lastmod s) f)
                (sf_current f) stamp now d2) !! sm_blob m)).
      apply flip_core_blob_dom. by rewrite Hbl, Hbt.
Qed.

(** *** Exactly what it writes *)

Lemma adopt_members_only id members d u d' i p r :
  mfor (adopt_member id) members d = Ok (u, d') → member_t d' !! (i, p) = Some r →
  member_t d !! (i, p) = Some r ∨
  i = id ∧ ∃ m, m ∈ members ∧ sm_path m = p ∧ r = {| m_blob := sm_blob m; m_declared := sm_declared m |}.
Proof.
  revert d. induction members as [|m l IH]; intros d Hrun Hr; cbn [mfor] in Hrun; minv; [by left|].
  destruct (IH _ Hrun Hr) as [Hst|(-> & x & ? & ?)].
  2:{ right. split; [done|]. exists x. split; [by right|done]. }
  unfold adopt_member, member_insert in Hrun0. minv. cbn in Hst.
  apply lookup_insert_Some in Hst as [[[= <- <-] <-]|[_ ?]]; [right|by left].
  split; [done|]. exists m. split; [by left|done].
Qed.

Lemma adopt_skips_only id now l d u d' i p r :
  mfor (adopt_skipped id now) l d = Ok (u, d') → skip_t d' !! (i, p) = Some r →
  skip_t d !! (i, p) = Some r ∨
  i = id ∧ ∃ k, k ∈ l ∧ skm_path k = p ∧ sk_declared r = skm_declared k.
Proof.
  revert d. induction l as [|k l IH]; intros d Hrun Hr; cbn [mfor] in Hrun; minv; [by left|].
  destruct (IH _ Hrun Hr) as [Hst|(-> & x & ? & ?)].
  2:{ right. split; [done|]. exists x. split; [by right|done]. }
  unfold adopt_skipped, skip_insert in Hrun0. minv. cbn in Hst.
  apply lookup_insert_Some in Hst as [[[= <- <-] <-]|[_ ?]]; [right|by left].
  split; [done|]. exists k. split; [by left|done].
Qed.

Lemma adopt_skips_in id now l d u d' :
  mfor (adopt_skipped id now) l d = Ok (u, d') →
  (∀ k, is_Some (skip_t d !! k) → is_Some (skip_t d' !! k)) ∧
  ∀ k, k ∈ l → is_Some (skip_t d' !! (id, skm_path k)).
Proof.
  revert d. induction l as [|k l IH]; intros d Hrun; cbn [mfor] in Hrun; minv.
  { split; [done|]. intros k Hk. by apply elem_of_nil in Hk. }
  destruct (IH _ Hrun) as [Hkeep Hin]. unfold adopt_skipped, skip_insert in Hrun0. minv. cbn in Hkeep.
  split.
  - intros x [r Hr]. apply Hkeep. destruct (decide (x = (id, skm_path k))) as [->|Hne].
    + rewrite lookup_insert_eq. eauto.
    + rewrite lookup_insert_ne by done. eauto.
  - intros x [->|Hx]%elem_of_cons; [|by apply Hin]. apply Hkeep. rewrite lookup_insert_eq. eauto.
Qed.

Lemma adopt_rows_only id members skipped packages now d u d' :
  adopt_rows id members skipped packages now d = Ok (u, d') →
  (∀ i p r, member_t d' !! (i, p) = Some r → member_t d !! (i, p) = Some r ∨
     i = id ∧ ∃ m, m ∈ members ∧ sm_path m = p ∧
       r = {| m_blob := sm_blob m; m_declared := sm_declared m |}) ∧
  (∀ i p r, skip_t d' !! (i, p) = Some r → skip_t d !! (i, p) = Some r ∨
     i = id ∧ ∃ k, k ∈ skipped ∧ skm_path k = p ∧ sk_declared r = skm_declared k) ∧
  ∀ k, k ∈ skipped → is_Some (skip_t d' !! (id, skm_path k)).
Proof.
  intros Hrun. destruct (adopt_rows_members _ _ _ _ _ _ _ _ Hrun) as (dm & Hm & Hmt & _).
  split; [intros i p r; rewrite Hmt; by eapply adopt_members_only|].
  unfold adopt_rows in Hrun. minv. destruct rv. assert (st = dm) as -> by congruence.
  assert (skip_t dm = skip_t d) as Hs.
  { eapply (triple_for_inv (λ x, skip_t x = skip_t d)); [|done|exact Hm].
    intros x d1 u1 d2 HI Hx. unfold adopt_member, member_insert in Hx. minv. exact HI. }
  assert (skip_t d' = skip_t st0) as ->.
  { eapply (triple_for_inv (λ x, skip_t x = skip_t st0)); [|done|exact Hrun].
    intros x d1 u1 d2 HI Hx. unfold adopt_package, pkg_insert in Hx. minv. exact HI. }
  rewrite <-Hs. split; [intros i p r; by eapply adopt_skips_only|].
  by destruct (adopt_skips_in _ _ _ _ _ _ Hrun1) as [_ ?].
Qed.

Lemma url_upsert_rest k new upd d0 :
  triple (λ d, snap_t d = snap_t d0 ∧ skip_t d = skip_t d0) (url_upsert k new upd)
    (λ _ d, snap_t d = snap_t d0 ∧ skip_t d = skip_t d0).
Proof. intros d u d' [] Hrun. unfold url_upsert in Hrun. by minv. Qed.

Lemma adopt_urls_only id s prefetched coverage now d u d' :
  adopt_urls id s prefetched coverage now d = Ok (u, d') →
  snap_t d' = update_where (λ i _, i =? id) (set_coverage coverage) (snap_t d) ∧ skip_t d' = skip_t d.
Proof.
  unfold adopt_urls. intros Hrun. minv. destruct rv.
  assert (snap_t st = snap_t d ∧ skip_t st = skip_t d) as [H1 H2].
  { eapply (triple_for_inv (λ x, snap_t x = snap_t d ∧ skip_t x = skip_t d)); [|done|exact Hrun0].
    intros p d1 u1 d2 HI Hp. unfold adopt_prefetched in Hp. minv. by eapply url_upsert_rest. }
  rewrite <-H1, <-H2. set (d3 := upd_snap _ st) in Hrun. change (snap_t d' = snap_t d3 ∧ skip_t d' = skip_t d3).
  clearbody d3. eapply (triple_for_inv (λ x, snap_t x = snap_t d3 ∧ skip_t x = skip_t d3)); [|done|exact Hrun].
  intros name d1 u1 d2 HI Hp. unfold seedAnchor in Hp.
  destruct (AnchorHash s name) as [h|]; [|by minv]. destruct (String.eqb h ""); [by minv|].
  destruct (ss_suite s) as [[scheme host] suite]. by eapply url_upsert_rest.
Qed.

(** The snapshot it commits is the candidate with its coverage and its stamp,
    and the rows that were not there are the ones it carries. *)
Lemma CommitAdoption_only id members skipped packages prefetched coverage skipNow now d u d' :
  wf d →
  CommitAdoption id members skipped packages prefetched coverage skipNow now d = Ok (u, d') →
  (∃ s stamp, snap_t d !! id = Some s ∧
     snap_t d' !! id = Some (set_adopted stamp (set_coverage coverage s))) ∧
  (∀ p r, member_t d' !! (id, p) = Some r → member_t d !! (id, p) = Some r ∨
     ∃ m, m ∈ members ∧ sm_path m = p ∧ r = {| m_blob := sm_blob m; m_declared := sm_declared m |}) ∧
  (∀ p r, skip_t d' !! (id, p) = Some r → skip_t d !! (id, p) = Some r ∨
     ∃ k, k ∈ skipped ∧ skm_path k = p ∧ sk_declared r = skm_declared k) ∧
  (∀ k, k ∈ skipped → is_Some (skip_t d' !! (id, skm_path k))) ∧
  (∀ i p, i ≠ id → member_t d' !! (i, p) = member_t d !! (i, p)).
Proof.
  intros Hwf Hrun.
  destruct (CommitAdoption_inv _ _ _ _ _ _ _ _ _ _ _ Hwf Hrun)
    as (s & d1 & stamp & d2 & Hs & Ha & _ & _ & Hrows & _ & Hsame & _ & Hurls & _ & Hframe & Hflip).
  destruct (adopt_flip_inv _ _ _ _ _ _ _ Hflip) as (f & Hf & ->).
  destruct (adopt_urls_only _ _ _ _ _ _ _ _ Hurls) as [Hsn2 Hsk2].
  destruct (adopt_rows_only _ _ _ _ _ _ _ _ Hrows) as (Hm1 & Hs1 & Hin1).
  destruct Hframe as (_ & Hme & _). destruct Hsame as (_ & _ & _ & Hsn1 & _). split_and!.
  - exists s, stamp. split; [done|].
    change (update_where (λ i _, i =? id) (set_adopted stamp) (snap_t d2) !! id
            = Some (set_adopted stamp (set_coverage coverage s))).
    rewrite Hsn2, Hsn1, !lookup_update_where, Hs. cbn. by rewrite Z.eqb_refl.
  - intros p r Hr. change (member_t d2 !! (id, p) = Some r) in Hr. rewrite Hme in Hr.
    destruct (Hm1 _ _ _ Hr) as [?|[_ ?]]; [by left|by right].
  - intros p r Hr. change (skip_t d2 !! (id, p) = Some r) in Hr. rewrite Hsk2 in Hr.
    destruct (Hs1 _ _ _ Hr) as [?|[_ ?]]; [by left|by right].
  - intros x Hx. change (is_Some (skip_t d2 !! (id, skm_path x))). rewrite Hsk2. by apply Hin1.
  - intros i p Hi. change (member_t d2 !! (i, p) = member_t d !! (i, p)). rewrite Hme.
    destruct (adopt_rows_members _ _ _ _ _ _ _ _ Hrows) as (dm & Hm & Hmt & _).
    destruct (adopt_members_in _ _ _ _ _ Hm) as (_ & Hkeep & _). rewrite <-Hmt in Hkeep.
    destruct (member_t d1 !! (i, p)) as [r|] eqn:Hr.
    + by destruct (Hm1 _ _ _ Hr) as [?|[? _]].
    + destruct (member_t d !! (i, p)) as [r|] eqn:Hr0; [|done]. by rewrite (Hkeep _ _ Hr0) in Hr.
Qed.

(** C16. The adoption flips atomically.  When the transaction fails, nothing
    has changed.  When it commits, the suite's current snapshot is the
    candidate, every member the adoption carries is readable through the
    suite with its blob present, no other suite's pointer moved, and the
    database invariant holds again. *)
Theorem CommitAdoption_flip id members skipped packages prefetched coverage skipNow now d r d' :
  wf d →
  atomically (CommitAdoption id members skipped packages prefetched coverage skipNow now) d
    = (r, d') →
  match r with
  | Err _ => d' = d
  | Ok _ =>
      wf d' ∧
      ∃ s, snap_t d !! id = Some s ∧ ss_adopted s = None ∧
        suite_current d' (ss_suite s) = Some id ∧
        (∀ k, k ≠ ss_suite s → suite_t d' !! k = suite_t d !! k) ∧
        (∀ m, m ∈ members →
           LookupSnapshotMember d' (ss_suite s) (sm_path m) = Some (id, sm_blob m) ∧
           is_Some (blob_t d' !! sm_blob m))
  end.
Proof.
  intros Hwf Hrun. destruct r as [u|e]; [|by eapply atomically_err].
  apply atomically_ok in Hrun. by eapply CommitAdoption_ok.
Qed.

(** ** The adoption stamp *)

Lemma max_over_ge {A} (f : A → option Z) (l : list A) x n :
  x ∈ l → f x = Some n → ∃ m, max_over f l = Some m ∧ n <= m.
Proof.
  induction l as [|y l IH]; intros Hin Hf; [by apply not_elem_of_nil in Hin|].
  cbn [max_over foldr]. fold (max_over f l).
  apply elem_of_cons in Hin as [<-|Hin].
  - rewrite Hf. destruct (max_over f l); simpl; eexists; split; try done; lia.
  - destruct (IH Hin Hf) as (m & -> & ?). destruct (f y); simpl; eexists; split; try done; lia.
Qed.

Lemma at_least_ge stamp o : stamp <= at_least stamp o.
Proof. destruct o; simpl; lia. Qed.

Lemma adoptionStampTx_spec k now d stamp d' :
  adoptionStampTx k now d = Ok (stamp, d') →
  d' = d ∧ now <= stamp ∧
  (∀ id s n, snap_t d !! id = Some s → ss_suite s = k → ss_adopted s = Some n → n < stamp) ∧
  (suite_current d k = None →
   ∀ uk u n, uk ∈ anchor_keys k → url_t d !! uk = Some u → up_last_fetched u = Some n →
     n < stamp).
Proof.
  unfold adoptionStampTx. intros Hrun. minv.
  set (base := at_least now (newest_adoption d k)) in *.
  assert (now <= base ∧ base <= stamp ∧ d' = d ∧
          (suite_current d k = None → stamp = at_least base (newest_anchor_fetch d k)))
    as (Hb & Hst & -> & Hfetch).
  { split; [apply at_least_ge|]. destruct (suite_current d k); minv.
    - split_and!; done.
    - split_and!; [apply at_least_ge|done|done]. }
  split_and!; [done|lia| |].
  - intros id s n Hs Hk Hn.
    destruct (max_over_ge (λ e, if bool_decide (ss_suite e.2 = k) then ss_adopted e.2 else None)
                (map_to_list (snap_t d)) (id, s) n) as (m & Hm & Hle).
    { by apply elem_of_map_to_list. }
    { simpl. by rewrite bool_decide_true. }
    unfold base, newest_adoption in Hst. rewrite Hm in Hst. simpl in Hst. lia.
  - intros Hnone uk u n Huk Hu Hn. rewrite (Hfetch Hnone).
    destruct (max_over_ge (λ uk, u ← url_t d !! uk; up_last_fetched u) (anchor_keys k) uk n Huk)
      as (m & Hm & Hle).
    { by rewrite Hu. }
    unfold newest_anchor_fetch. rewrite Hm. simpl. lia.
Qed.

(** A suite's adoptions are strictly ordered in time: a committed
    adoption's stamp is at least the clock and later than the stamp of every
    other adopted snapshot of the suite, whatever the clock did; and the
    first adoption of a suite is later than every cached fetch of its
    anchors, so that readers always prefer the adopted bytes. *)
Theorem CommitAdoption_stamp id members skipped packages prefetched coverage skipNow now d u d' :
  wf d →
  CommitAdoption id members skipped packages prefetched coverage skipNow now d = Ok (u, d') →
  ∃ s stamp, snap_t d' !! id = Some s ∧ ss_adopted s = Some stamp ∧ now <= stamp ∧
    (∀ i s0 n, i ≠ id → snap_t d' !! i = Some s0 → ss_suite s0 = ss_suite s →
       ss_adopted s0 = Some n → n < stamp) ∧
    (suite_current d (ss_suite s) = None →
     ∀ uk x n, uk ∈ anchor_keys (ss_suite s) → url_t d !! uk = Some x →
       up_last_fetched x = Some n → n < stamp).
Proof.
  intros Hwf Hrun.
  destruct (CommitAdoption_inv _ _ _ _ _ _ _ _ _ _ _ Hwf Hrun)
    as (s & d1 & stamp & d2 & Hs & Ha & Hr & _ & _ & _ & Hsame & Hst & _ & _ & Hframe & Hflip).
  destruct Hsame as (_&Hu1&Hsu1&Hsn&_). rewrite <-Hsn in Hs.
  destruct (candidate_frame d1 d2 id s Hframe Hs) as (s' & Hs' & Hv).
  unfold snap_view in Hv. injection Hv as E1 E2 E3 E4 E5 E6 E7.
  destruct (adopt_flip_inv _ _ _ _ _ _ _ Hflip) as (f & Hf & ->).
  destruct (adoptionStampTx_spec _ _ _ _ _ Hst) as (_ & Hnow & Hother & Hfetch).
  exists (set_adopted stamp s'), stamp. split_and!; try done.
  - simpl. rewrite lookup_update_where, Hs'. simpl. by rewrite Z.eqb_refl.
  - intros i s0 n Hi Hs0 Hk Hn. simpl in Hs0, Hk.
    apply lookup_update_where_Some in Hs0 as (s1 & Hs1 & ->).
    apply Z.eqb_neq in Hi. rewrite Hi in *.
    destruct Hframe as (_&_&_&_&Hv). specialize (Hv i). rewrite Hs1 in Hv.
    destruct (snap_t d1 !! i) as [s2|] eqn:E; [|done]. simpl in Hv. unfold snap_view in Hv.
    injection Hv as ? ? ? ? ? ? ?. eapply (Hother i s2); congruence.
  - simpl. rewrite E1. intros Hnone uk x n Huk Hx Hn.
    unfold suite_current in *. rewrite <-Hsu1 in Hnone. rewrite <-Hu1 in Hx. by eapply Hfetch.
Qed.

(** ** Hotness *)

(** A url_path row keeps what the next hot-set query reads. *)
Definition hot_kept (d0 d : DB) : Prop :=
  ∀ k x, url_t d0 !! k = Some x → ∃ y, url_t d !! k = Some y ∧
    up_last_requested y = up_last_requested x ∧ up_request_count y = up_request_count x.

Lemma hot_kept_upsert d0 k new upd :
  (∀ x, up_last_requested (upd x) = up_last_requested x ∧
        up_request_count (upd x) = up_request_count x) →
  triple (hot_kept d0) (url_upsert k new upd) (λ _, hot_kept d0).
Proof.
  intros Hupd d u d' Hhot Hrun. unfold url_upsert in Hrun. minv.
  intros k' x Hx. destruct (Hhot k' x Hx) as (y & Hy & H1 & H2). simpl.
  destruct (decide (k = k')) as [<-|Hne].
  - rewrite lookup_insert_eq, Hy. eexists. split; [done|].
    destruct (Hupd y) as [-> ->]. done.
  - rewrite lookup_insert_ne by done. eauto.
Qed.

Lemma adopt_urls_hot id s prefetched coverage now d0 :
  triple (hot_kept d0) (adopt_urls id s prefetched coverage now) (λ _, hot_kept d0).
Proof.
  unfold adopt_urls. apply (triple_seq _ (hot_kept d0)); [|intros ?; apply (triple_seq _ (hot_kept d0)); [|intros ?]].
  - apply triple_for_inv. intros p d u d' Hhot Hrun. unfold adopt_prefetched in Hrun. minv.
    eapply hot_kept_upsert; [|exact Hhot|exact Hrun]. done.
  - intros d u d' Hhot Hrun. minv. exact Hhot.
  - apply triple_for_inv. intros name. unfold seedAnchor.
    destruct (AnchorHash s name) as [h|]; [|apply triple_ret].
    destruct (String.eqb h ""); [apply triple_ret|].
    destruct (ss_suite s) as [[scheme host] suite]. by apply hot_kept_upsert.
Qed.

(** An adoption never makes a path cold: every url_path row that was
    there keeps its request count and its last-requested time, through the
    prefetched rows and the re-seeded anchors alike. *)
Theorem CommitAdoption_hot id members skipped packages prefetched coverage skipNow now d u d' :
  wf d →
  CommitAdoption id members skipped packages prefetched coverage skipNow now d = Ok (u, d') →
  hot_kept d d'.
Proof.
  intros Hwf Hrun.
  destruct (CommitAdoption_inv _ _ _ _ _ _ _ _ _ _ _ Hwf Hrun)
    as (s & d1 & stamp & d2 & _ & _ & _ & _ & _ & _ & Hsame & _ & Hurls & _ & _ & Hflip).
  destruct (adopt_flip_inv _ _ _ _ _ _ _ Hflip) as (f & Hf & ->).
  destruct Hsame as (_ & Hu1 & _).
  assert (hot_kept d d2) as Hhot; [|exact Hhot].
  eapply adopt_urls_hot; [|exact Hurls]. intros k x Hx. rewrite Hu1. eauto.
Qed.
End adopt_laws.

(** ** The other transactions keep the invariant *)

Section op_laws.

Lemma candidateForm_shape sc form now :
  candidateForm sc = Ok form → form_shape (candidate_row sc form now).
Proof.
  unfold candidateForm, form_shape. cbn.
  destruct (sc_inrelease sc), (sc_release sc), (sc_release_gpg sc); cbn;
    repeat case_match; intros ?; simplify_eq; bclean; subst;
    try (left; split_and!; eauto; fail); try (right; split_and!; eauto; fail).
  all: match goal with H : (_ || _) = true |- _ => apply orb_true_iff in H as [?|?] end;
    bclean; left; split_and!; eauto.
Qed.

Lemma natural_lookup_spec d k h form id s :
  natural_lookup d k h form = Some (id, s) →
  snap_t d !! id = Some s ∧ ss_suite s = k ∧ ss_form s = form ∧ ss_retired s = None ∧
  is_Some h ∧ coalesce (ss_inrelease s) (ss_release s) = h.
Proof.
  unfold natural_lookup. intros [Hin Hm]%List.find_some.
  apply list_elem_of_In, elem_of_map_to_list in Hin.
  unfold natural_match in Hm. simpl in Hm. bclean. done.
Qed.

Lemma refresh_shape sc now s :
  candidateForm sc = Ok (ss_form s) → form_shape s → form_shape (refresh_candidate sc now s).
Proof.
  intros Hform Hsh. pose proof (candidateForm_shape sc (ss_form s) now Hform) as Hc.
  unfold form_shape in *. cbn in *.
  assert (FormInline ≠ FormDetached ∧ FormUnsigned ≠ FormDetached) as [? ?] by done.
  intuition congruence.
Qed.

Lemma wf_InsertCandidateSnapshot sc now : triple wf (InsertCandidateSnapshot sc now) (λ _, wf).
Proof.
  intros d u d' Hwf Hrun. unfold InsertCandidateSnapshot in Hrun.
  destruct (candidateForm sc) as [form|] eqn:Hform; minv.
  destruct (wf_snaps d Hwf) as [Hseq Hsn].
  destruct (natural_lookup _ _ _ _) as [[id s]|] eqn:Hn.
  - apply natural_lookup_spec in Hn as (Hs & Hk & Hf & Hr & _ & _).
    destruct (ss_adopted s) eqn:Ha; minv. destruct (Hsn id s Hs) as [Hid Hsh].
    apply wf_snap_insert; [done|done| | |].
    + apply refresh_shape; [by rewrite Hf|done].
    + cbn. intros h Hh. destruct Hh as [Hh|[Hh|Hh]].
      * eapply (fk_anchor d (wf_fk d Hwf) id s h Hs); eauto.
      * eapply (fk_anchor d (wf_fk d Hwf) id s h Hs); eauto.
      * rewrite Hh in Hrun0. by apply bool_decide_eq_true in Hrun0.
    + intros k f Hkf Hcur. destruct (wf_current d Hwf k f id Hkf Hcur) as (s2 & ? & ? & Had & ?).
      simplify_eq. rewrite Ha in Had. by destruct Had.
  - minv. unfold fk_anchors in Hrun0. bclean.
    apply (wf_snap_insert (upd_seq _ d)); simpl.
    + apply wf_upd_seq; [done|lia].
    + lia.
    + by apply candidateForm_shape.
    + intros h [Hh|[Hh|Hh]]; cbn in Hh;
        match goal with H : fk_blob d ?x = true, E : ?x = Some h |- _ =>
          rewrite E in H; by apply bool_decide_eq_true in H end.
    + intros k f Hkf Hcur. destruct (wf_current d Hwf k f _ Hkf Hcur) as (s2 & Hs2 & _).
      apply Hsn in Hs2 as [? _]. lia.
Qed.

Lemma wf_HeartbeatSnapshot id now : triple wf (HeartbeatSnapshot id now) (λ _, wf).
Proof.
  intros d u d' Hwf Hrun. unfold HeartbeatSnapshot in Hrun. minv.
  apply wf_upd_snap; [done|]. intros i. rewrite lookup_update_where.
  destruct (snap_t d !! i); [|done]. simpl. by destruct (i =? id).
Qed.

Lemma current_guard_ok id d u d' :
  current_guard id d = Ok (u, d') → d' = d ∧ is_current d id = true.
Proof. unfold current_guard. intros Hrun. by minv. Qed.

Lemma reconcile_member_ok id m d u d' :
  wf d → is_current d id = true → reconcile_member id m d = Ok (u, d') →
  wf d' ∧ is_current d' id = true ∧
  (∀ k x, member_t d !! k = Some x → member_t d' !! k = Some x) ∧
  ∃ x, member_t d' !! (id, sm_path m) = Some x ∧ m_blob x = sm_blob m.
Proof.
  intros Hwf Hcur Hrun. unfold reconcile_member in Hrun. minv. bclean.
  destruct (member_t d !! (id, sm_path m)) as [e|] eqn:He.
  - minv. bclean. split_and!; try done. eauto.
  - unfold bump_missing in Hrun. minv. rewrite Hrun0 in Hrun.
    pose proof (wf_debt_bump id (sm_blob m) d Hwf) as Hd.
    pose proof Hrun as Hins.
    eapply wf_debt_insert in Hins as (Hd' & Hhas & Hc'); [|exact Hd|exact Hcur|done].
    split_and!; [by eapply wf_debt_paid|done| |].
    + unfold member_insert in Hrun. minv. intros k x Hk. simpl in *.
      rewrite lookup_insert_ne; [done|]. congruence.
    + unfold member_insert in Hrun. minv. simpl. rewrite lookup_insert_eq. eauto.
Qed.

Lemma wf_insertPackageHashTx p : triple wf (insertPackageHashTx p) (λ _, wf).
Proof.
  intros d u d' Hwf Hrun. unfold insertPackageHashTx in Hrun. minv.
  destruct (pkg_t d !! _) as [e|] eqn:He; minv; [|by eapply wf_pkg_insert].
  match type of Hrun with (if ?b then _ else _) _ = _ => destruct b end; minv; [|done].
  apply wf_upd_pkg; [done|].
  intros k x [[<- <-]|[_ Hk]]%lookup_insert_Some.
  - eapply (fk_pkg d (wf_fk d Hwf) _ _ He).
  - eapply (fk_pkg d (wf_fk d Hwf)); eauto.
Qed.

Lemma wf_InsertReconciledMembers id members packages :
  triple wf (InsertReconciledMembers id members packages) (λ _, wf).
Proof.
  intros d u d' Hwf Hrun. unfold InsertReconciledMembers in Hrun. minv.
  apply current_guard_ok in Hrun0 as [-> Hcur].
  eapply (triple_for_inv wf); [intros p; apply wf_insertPackageHashTx| |exact Hrun].
  assert (wf st0 ∧ is_current st0 id = true) as [? _]; [|done].
  eapply (triple_for_inv (λ x, wf x ∧ is_current x id = true)); [|split; [exact Hwf|exact Hcur]|exact Hrun1].
  intros m x v x' [Hx Hc] Hm. destruct (reconcile_member_ok id m x v x' Hx Hc Hm) as (?&?&_). done.
Qed.

Lemma repair_members_ok id declared members d u d' :
  wf_debt id declared d → is_current d id = true →
  (∀ m, m ∈ members → sm_blob m = declared) →
  mfor (repair_member id) members d = Ok (u, d') →
  wf_debt id declared d' ∧ is_current d' id = true ∧
  (members ≠ [] ∨ snap_has_blob d id declared = true → snap_has_blob d' id declared = true) ∧
  (∀ k x, member_t d !! k = Some x → member_t d' !! k = Some x) ∧
  (∀ m, m ∈ members → ∃ x, member_t d' !! (id, sm_path m) = Some x ∧ m_blob x = declared).
Proof.
  revert d. induction members as [|m members IH]; intros d Hd Hcur Hall Hrun; cbn [mfor] in Hrun.
  { minv. split_and!; try done; [by intros [?|?]|]. intros m Hm. by apply not_elem_of_nil in Hm. }
  minv. assert (sm_blob m = declared) as Hm by (apply Hall; left).
  assert (wf_debt id declared st ∧ is_current st id = true ∧
          snap_has_blob st id declared = true ∧
          (∀ k x, member_t d !! k = Some x → member_t st !! k = Some x) ∧
          ∃ x, member_t st !! (id, sm_path m) = Some x ∧ m_blob x = declared)
    as (Hd1 & Hc1 & Hh1 & Hk1 & x1 & Hx1 & Hb1).
  { unfold repair_member in Hrun0. minv. destruct (member_t d !! (id, sm_path m)) as [e|] eqn:He.
    - minv. bclean. split_and!; try done.
      + apply snap_has_blob_true. exists (sm_path m), e. split; [done|congruence].
      + exists e. split; [done|congruence].
    - pose proof Hrun0 as Hins.
      eapply wf_debt_insert in Hins as (?&?&?); [|exact Hd|exact Hcur|exact Hm].
      split_and!; try done.
      + unfold member_insert in Hrun0. minv. intros k x Hk. simpl in *.
        rewrite lookup_insert_ne; [done|congruence].
      + unfold member_insert in Hrun0. minv. simpl. rewrite lookup_insert_eq. eauto. }
  destruct (IH st Hd1 Hc1) as (Hd2 & Hc2 & Hh2 & Hk2 & Hin2); [|exact Hrun|].
  { intros y Hy. apply Hall. by right. }
  split_and!; try done; eauto.
  intros y [->|Hy]%elem_of_cons; [|by apply Hin2]. eauto.
Qed.

Lemma mfor_massert_ok {A} (f : A → bool) (e : cache_error) l (d : DB) u d' :
  mfor (λ x, massert (f x) e) l d = Ok (u, d') → d' = d ∧ ∀ x, x ∈ l → f x = true.
Proof.
  revert d. induction l as [|x l IH]; intros d Hrun; cbn [mfor] in Hrun; minv.
  { split; [done|]. intros x Hx. by apply not_elem_of_nil in Hx. }
  destruct (IH _ Hrun) as [-> Hl]. split; [done|].
  intros y [->|Hy]%elem_of_cons; [done|by apply Hl].
Qed.

(** What a committed repair went through. *)
Lemma RepairSkippedMember_inv id path members d u d' :
  wf d → RepairSkippedMember id path members d = Ok (u, d') →
  ∃ sk, skip_t d !! (id, path) = Some sk ∧ is_current d id = true ∧ wf d' ∧
    skip_t d' = delete (id, path) (skip_t d) ∧
    (∀ k x, member_t d !! k = Some x → member_t d' !! k = Some x) ∧
    (∃ m, m ∈ members ∧ sm_path m = path) ∧
    (∀ m, m ∈ members → ∃ x, member_t d' !! (id, sm_path m) = Some x ∧
                             m_blob x = sk_declared sk).
Proof.
  intros Hwf Hrun. unfold RepairSkippedMember in Hrun. minv.
  apply current_guard_ok in Hrun0 as [-> Hcur].
  destruct (skip_t d !! (id, path)) as [sk|] eqn:Hsk; minv.
  unfold repair_checks, bump_missing in *. minv.
  match goal with H : mfor _ _ _ = Ok (_, ?d1), E : existsb _ _ = true |- _ =>
    apply mfor_massert_ok in H as [-> Hall];
    apply existsb_exists in E as (mc & Hmc & Hp%String.eqb_eq) end.
  apply list_elem_of_In in Hmc.
  set (d1 := upd_skip _ d) in *.
  assert (wf d1) as Hwf1.
  { apply wf_upd_skip; [done|]. intros k s [_ Hk]%lookup_delete_Some.
    eapply (fk_skip d (wf_fk d Hwf)); eauto. }
  pose proof (wf_debt_bump id (sk_declared sk) d1 Hwf1) as Hd.
  assert (∀ m, m ∈ members → sm_blob m = sk_declared sk) as Hblob.
  { intros m Hm. apply Hall in Hm. by bclean. }
  destruct (repair_members_ok id (sk_declared sk) members _ _ _ Hd Hcur Hblob Hrun)
    as (Hd' & _ & Hhas & Hk & Hin).
  exists sk. split_and!; try done; [| |by eauto].
  - eapply wf_debt_paid; [exact Hd'|]. apply Hhas. left. intros ->. by apply not_elem_of_nil in Hmc.
  - clear -Hrun. set (d2 := upd_blob _ d1) in Hrun. change (skip_t d' = skip_t d2).
    clearbody d2. eapply (triple_for_inv (λ x, skip_t x = skip_t d2)); [|done|exact Hrun].
    intros m x v x' Hx Hm. unfold repair_member in Hm. minv.
    destruct (member_t x !! _); minv; [done|]. unfold member_insert in Hm. by minv.
Qed.

Lemma wf_RepairSkippedMember id path members :
  triple wf (RepairSkippedMember id path members) (λ _, wf).
Proof.
  intros d u d' Hwf Hrun.
  by destruct (RepairSkippedMember_inv id path members d u d' Hwf Hrun) as (?&_&_&?&_).
Qed.

Lemma wf_BumpSkippedMemberRetry id path : triple wf (BumpSkippedMemberRetry id path) (λ _, wf).
Proof.
  intros d u d' Hwf Hrun. unfold BumpSkippedMemberRetry in Hrun. minv.
  apply wf_upd_skip; [done|]. intros k s (s0 & Hs0 & _)%lookup_update_where_Some.
  eapply (fk_skip d (wf_fk d Hwf)); eauto.
Qed.

Lemma wf_EvictURLPath k now : triple wf (EvictURLPath k now) (λ _, wf).
Proof.
  intros d u d' Hwf Hrun. unfold EvictURLPath in Hrun. minv.
  destruct (url_t d !! k) as [x|]; minv; [|done].
  assert (wf (upd_url (delete k) d)) by by apply wf_upd_url_delete.
  destruct (up_blob x) as [h|]; minv; [|done]. destruct (String.eqb h ""); minv; [done|].
  by apply (wf_drop_blob (upd_url (delete k) d)).
Qed.

Lemma wf_mark_chunk marks : triple wf (mark_chunk marks) (λ _, wf).
Proof. apply triple_for_inv. intros m. apply wf_markSignedSeen. Qed.
End op_laws.

#[export] Hint Resolve wf_CommitAdoption wf_InsertCandidateSnapshot wf_HeartbeatSnapshot
  wf_InsertReconciledMembers wf_RepairSkippedMember wf_BumpSkippedMemberRetry wf_EvictURLPath
  wf_mark_chunk : wf.
