(* ===== verification/Suites.v ===== *)
(** * Suite rows and their lifecycle ([internal/cache/suite_rows.go],
    [suite_reap.go], [suite_evict.go], [fetched_row.go], [adoption_failure.go],
    [marker_sweep.go], [legacy_audit.go], [legacy_refresh.go], [suite_touch.go])

    Creating a suite row under its caps, deleting one (idle reaping, operator
    forget, eviction), the transaction that stores a fetched row, the failure
    record, and the audit that retires legacy snapshots. *)
From S2P Require Import Prelude GoStrings AptPath Tables Invariant Snapshots.
Local Open Scope Z_scope.

(** ** Data the callers pass *)

Record CachedAnchor := { ca_path : string; ca_blob : string; ca_signed : bool; ca_seen : Z }.

Record SuiteSeed := {
  sd_key : SuiteKey; sd_last_check : option Z; sd_last_success : option Z;
  sd_etag : option string; sd_lastmod : option string; sd_requested : Z;
  sd_signed_seen : Z; sd_cached : list CachedAnchor }.

Record SuiteCaps := { cap_global : Z; cap_per_host : Z }.

Inductive CreateOutcome :=
| SuiteNone | SuiteCreated | SuiteExists | SuiteRejectedGlobal | SuiteRejectedHost.

#[export] Instance CreateOutcome_eq_dec : EqDecision CreateOutcome.
Proof. solve_decision. Defined.

Definition Rejected (o : CreateOutcome) : bool :=
  bool_decide (o = SuiteRejectedGlobal) || bool_decide (o = SuiteRejectedHost).

Record CreateResult := {
  cr_outcome : CreateOutcome; cr_evicted : option SuiteKey; cr_unproven : bool;
  cr_busy : bool; cr_held_gone : bool; cr_held_kept : bool }.

Definition create_result (o : CreateOutcome) : CreateResult :=
  {| cr_outcome := o; cr_evicted := None; cr_unproven := false; cr_busy := false;
     cr_held_gone := false; cr_held_kept := false |}.

(** [CreateResult.retry] *)
Definition retry (r : CreateResult) : bool := cr_held_gone r || cr_held_kept r.

Inductive deleteOutcome := suiteKept | suiteDeleted | suiteNoRow.

#[export] Instance deleteOutcome_eq_dec : EqDecision deleteOutcome.
Proof. solve_decision. Defined.

(** ** Deleting a suite *)

(** [math.MaxInt64] *)
Definition ReapRegardless : Z := 2 ^ 63 - 1.

Definition snapshot_history (d : DB) (k : SuiteKey) : bool :=
  exists_where (λ _ s, bool_decide (ss_suite s = k) && signed_history s) (snap_t d).

Definition markSnapshotHistoryTx (k : SuiteKey) (now : Z) : T unit :=
  d ← mget;
  if snapshot_history d k then markSignedSeen (base_key k) now else mret tt.

(** The markers of a host and base, in both signed schemes. *)
Definition base_marker (host base : string) (k : SuiteKey) : bool :=
  signed_scheme (key_scheme k) && String.eqb (key_host k) host && String.eqb (key_path k) base.

Definition stampBaseMarkersTx (k : SuiteKey) (now : Z) : T unit :=
  mmodify (upd_seen (update_where
    (λ k' _, base_marker (key_host k) (MarkerBase (key_path k)) k') (Z.max now))).

Definition set_retired (now : Z) (s : SuiteSnapshot) : SuiteSnapshot :=
  {| ss_suite := ss_suite s; ss_inrelease := ss_inrelease s; ss_etag := ss_etag s;
     ss_lastmod := ss_lastmod s; ss_release := ss_release s;
     ss_release_gpg := ss_release_gpg s; ss_created := ss_created s;
     ss_adopted := ss_adopted s; ss_coverage := ss_coverage s; ss_heartbeat := ss_heartbeat s;
     ss_form := ss_form s; ss_date := ss_date s; ss_retired := Some now |}.

Definition retireSuiteSnapshotsTx (k : SuiteKey) (current : option Z) (now : Z) : T unit :=
  _ ← match current with
      | Some id => decrementSnapshotRefcountsTx id now
      | None => mret tt
      end;
  mmodify (upd_snap (update_where
    (λ _ s, bool_decide (ss_suite s = k) && bool_decide (ss_retired s = None))
    (set_retired now))).

Definition deleteSuiteTx (k : SuiteKey) (wantCurrent : option Z) (cutoff now : Z)
    : T deleteOutcome :=
  d ← mget;
  match suite_t d !! k with
  | None => mret suiteNoRow
  | Some f =>
      if negb (cutoff =? ReapRegardless)
         && match sf_last_requested f with None => true | Some r => cutoff <? r end
      then mret suiteKept
      else if negb (bool_decide (sf_current f = wantCurrent)) then mret suiteKept
      else
        _ ← markSnapshotHistoryTx k now;
        _ ← retireSuiteSnapshotsTx k (sf_current f) now;
        _ ← mmodify (upd_suite (delete k));
        _ ← stampBaseMarkersTx k now;
        mret suiteDeleted
  end.

(** ** Creating a suite *)

Definition suiteEvictIdle : Z := 24 * 3600.
Definition suiteEvictCandidates : Z := 8.

Definition count_host (d : DB) (host : string) : Z :=
  count_where (λ k _, String.eqb (key_host k) host) (suite_t d).
Definition count_suites (d : DB) : Z := count_where (λ _ _, true) (suite_t d).

(** The anchors the handler judged before the transaction, compared with
    what url_path holds inside it: the marker time, and whether one anchor
    changed under the judgement. *)
Definition judge_anchor (d : DB) (seed : SuiteSeed) (acc : Z * bool) (a : CachedAnchor)
    : Z * bool :=
  let '(seen, unproven) := acc in
  let cur := default "" (u ← url_t d !! (key_scheme (sd_key seed), key_host (sd_key seed), ca_path a);
                         up_blob u) in
  if negb (String.eqb cur (ca_blob a)) then (seen, unproven || negb (String.eqb cur ""))
  else if ca_signed a && negb (String.eqb (ca_blob a) "") then
    (Z.max seen (if ca_seen a <=? 0 then sd_requested seed else ca_seen a), unproven)
  else (seen, unproven).

Definition markCreated (seed : SuiteSeed) : T bool :=
  d ← mget;
  let '(seen, unproven) :=
    fold_left (judge_anchor d seed) (sd_cached seed) (sd_signed_seen seed, false) in
  if seen =? 0 then mret unproven
  else _ ← markSignedSeen (base_key (sd_key seed)) seen; mret unproven.

Definition seed_row (seed : SuiteSeed) (rowid gen : Z) : SuiteFreshness :=
  {| sf_last_check := sd_last_check seed; sf_last_success := sd_last_success seed;
     sf_etag := sd_etag seed; sf_lastmod := sd_lastmod seed; sf_change_seen := None;
     sf_current := None; sf_last_requested := Some (sd_requested seed); sf_check_fail := 0;
     sf_fail_hash := None; sf_fail_reason := None; sf_fail_count := 0;
     sf_fail_first := None; sf_fail_last := None; sf_next_retry := None;
     sf_fail_etag := None; sf_fail_lastmod := None;
     sf_rowid := rowid; sf_generation := gen |}.

Definition insert_suite (seed : SuiteSeed) (evicted : option SuiteKey) : T CreateResult :=
  _ ← suite_insert (sd_key seed) (seed_row seed);
  unproven ← markCreated seed;
  mret {| cr_outcome := SuiteCreated; cr_evicted := evicted; cr_unproven := unproven;
          cr_busy := false; cr_held_gone := false; cr_held_kept := false |}.

Definition createSuiteTx (seed : SuiteSeed) (caps : SuiteCaps) (held : option SuiteKey)
    (now : Z) : T CreateResult :=
  d ← mget;
  match suite_t d !! sd_key seed with
  | Some _ => mret (create_result SuiteExists)
  | None =>
      if (0 <? cap_per_host caps)
         && (cap_per_host caps <=? count_host d (key_host (sd_key seed)))
      then mret (create_result SuiteRejectedHost)
      else if (0 <? cap_global caps) && (cap_global caps <=? count_suites d) then
        match held with
        | None => mret (create_result SuiteRejectedGlobal)
        | Some hk =>
            out ← deleteSuiteTx hk None (now - suiteEvictIdle) now;
            match out with
            | suiteDeleted =>
                if cap_global caps <=? count_suites d - 1 then
                  mret {| cr_outcome := SuiteRejectedGlobal; cr_evicted := Some hk;
                          cr_unproven := false; cr_busy := false;
                          cr_held_gone := false; cr_held_kept := false |}
                else insert_suite seed (Some hk)
            | suiteNoRow =>
                mret {| cr_outcome := SuiteRejectedGlobal; cr_evicted := None;
                        cr_unproven := false; cr_busy := false;
                        cr_held_gone := true; cr_held_kept := false |}
            | suiteKept =>
                mret {| cr_outcome := SuiteRejectedGlobal; cr_evicted := None;
                        cr_unproven := false; cr_busy := false;
                        cr_held_gone := false; cr_held_kept := true |}
            end
        end
      else insert_suite seed None
  end.

(** [holdEvictionCandidate]: the idlest unadopted suite the guard lets it
    hold, and whether there were candidates but none could be held.  [hold]
    is the guard's answer for a key. *)
Definition evict_order (a b : SuiteKey * SuiteFreshness) : bool :=
  match sf_last_requested a.2, sf_last_requested b.2 with
  | Some x, Some y => if x =? y then key_leb a.1 b.1 else x <? y
  | _, _ => true
  end.

Definition eviction_candidates (d : DB) (cutoff : Z) : list SuiteKey :=
  map fst
    (sql_limit suiteEvictCandidates
       (sort_by evict_order
          (List.filter (λ e : SuiteKey * SuiteFreshness, negb (is_set (sf_current e.2))
                           && match sf_last_requested e.2 with
                              | Some r => r <=? cutoff | None => false end)
             (map_to_list (suite_t d))))).

Definition holdEvictionCandidate (d : DB) (caps : SuiteCaps) (hold : SuiteKey → bool)
    (now : Z) : option SuiteKey * bool :=
  if cap_global caps <=? 0 then (None, false)
  else if count_suites d <? cap_global caps - suiteEvictCandidates then (None, false)
  else
    let cands := eviction_candidates d (now - suiteEvictIdle) in
    match List.find hold cands with
    | Some k => (Some k, false)
    | None => (None, negb (length cands =? 0)%nat)
    end.

(** ** Idle reaping and forgetting *)

Definition ReapIdleSuite (k : SuiteKey) (wantCurrent : option Z) (cutoff now : Z)
    : T (bool * bool) :=
  out ← deleteSuiteTx k wantCurrent cutoff now;
  mret (bool_decide (out = suiteDeleted), negb (bool_decide (out = suiteKept))).

Record ForgetResult := {
  fg_deleted : bool; fg_gone : bool; fg_markers : Z; fg_anchors : Z;
  fg_kept_by : list SuiteKey }.

(** The base's suites that still have a row: both signed schemes, the base
    and its twin. *)
Definition base_suite (host base : string) (k : SuiteKey) : bool :=
  signed_scheme (key_scheme k) && String.eqb (key_host k) host
  && (String.eqb (key_path k) base || String.eqb (key_path k) (base +:+ "/.")).

Definition baseSuiteRowsTx (d : DB) (host base : string) : list SuiteKey :=
  sort_by key_leb
    (List.filter (base_suite host base) (map fst (map_to_list (suite_t d)))).

(** [deleteBaseAnchorsTx]'s triple loop. *)
Definition base_anchor_keys (host base : string) : list URLKey :=
  flat_map (λ scheme, flat_map (λ suite,
      map (λ name, (scheme, host, suite +:+ "/" +:+ name)) ["InRelease"; "Release"; "Release.gpg"])
    [base; base +:+ "/."]) ["http"; "https"].

Definition deleteBaseAnchorsTx (host base : string) (now : Z) : T Z :=
  mcount (λ k, deleteCachedRowTx k now) (base_anchor_keys host base).

Definition ForgetSuite (k : SuiteKey) (wantCurrent : option Z) (now : Z) : T ForgetResult :=
  out ← deleteSuiteTx k wantCurrent ReapRegardless now;
  if bool_decide (out = suiteDeleted) then
    let base := MarkerBase (key_path k) in
    d ← mget;
    let kept := baseSuiteRowsTx d (key_host k) base in
    if (length kept =? 0)%nat then
      n ← deleteBaseAnchorsTx (key_host k) base now;
      d ← mget;
      let m := count_where (λ k' _, base_marker (key_host k) base k') (seen_t d) in
      _ ← mmodify (upd_seen (delete_where (λ k' _, base_marker (key_host k) base k')));
      mret {| fg_deleted := true; fg_gone := true; fg_markers := m; fg_anchors := n;
              fg_kept_by := [] |}
    else mret {| fg_deleted := true; fg_gone := true; fg_markers := 0; fg_anchors := 0;
                 fg_kept_by := kept |}
  else mret {| fg_deleted := false; fg_gone := negb (bool_decide (out = suiteKept));
               fg_markers := 0; fg_anchors := 0; fg_kept_by := [] |}.

(** The metadata paths of a suite: those [SuitePath] gives to it, anchors
    apart and last. *)
Definition in_prefix (prefix upper p : string) : bool :=
  match str_cmp prefix p with Gt => false | _ => true end
  && match str_cmp p upper with Lt => true | _ => false end.

Definition suiteMetadataPaths (d : DB) (k : SuiteKey) : list string * list string :=
  if negb (IsCanonicalSuitePath (key_path k)) then ([], [])
  else
    let prefix := key_path k +:+ "/" in
    let rows :=
      sort_by str_leb
        (map (λ e : URLKey * URLPath, key_path e.1)
           (List.filter (λ e : URLKey * URLPath,
                String.eqb (key_scheme e.1) (key_scheme k)
                && String.eqb (key_host e.1) (key_host k)
                && in_prefix prefix (key_path k +:+ "0") (key_path e.1))
             (map_to_list (url_t d)))) in
    let mine := List.filter (λ p, String.eqb (SuitePath p) (key_path k)) rows in
    let is_anchor p :=
      existsb (λ name, String.eqb p (prefix +:+ name)) ["InRelease"; "Release"; "Release.gpg"] in
    (List.filter (λ p, negb (is_anchor p)) mine, List.filter is_anchor mine).

Definition deleteURLPathRows (k : SuiteKey) (paths : list string) (now : Z) : T Z :=
  mcount (λ p, deleteCachedRowTx (key_scheme k, key_host k, p) now) paths.

(** ** Storing a fetched row *)

Definition updateSuiteFreshness (k : SuiteKey) (check success : option Z)
    (etag lastmod : option string) (change : option Z) (fails : Z) : T unit :=
  mmodify (upd_suite (update_where (λ k' _, bool_decide (k' = k))
    (λ f, {| sf_last_check := check; sf_last_success := success; sf_etag := etag;
             sf_lastmod := lastmod; sf_change_seen := change; sf_current := sf_current f;
             sf_last_requested := sf_last_requested f; sf_check_fail := fails;
             sf_fail_hash := sf_fail_hash f; sf_fail_reason := sf_fail_reason f;
             sf_fail_count := sf_fail_count f; sf_fail_first := sf_fail_first f;
             sf_fail_last := sf_fail_last f; sf_next_retry := sf_next_retry f;
             sf_fail_etag := sf_fail_etag f; sf_fail_lastmod := sf_fail_lastmod f;
             sf_rowid := sf_rowid f; sf_generation := sf_generation f |}))).

Definition restampSuiteTx (s : SuiteSeed) : T unit :=
  mmodify (upd_suite (update_where
    (λ k f, bool_decide (k = sd_key s) && negb (is_set (sf_current f)))
    (λ f, {| sf_last_check := sd_last_check s; sf_last_success := sd_last_success s;
             sf_etag := sd_etag s; sf_lastmod := sd_lastmod s; sf_change_seen := None;
             sf_current := sf_current f; sf_last_requested := sf_last_requested f;
             sf_check_fail := 0;
             sf_fail_hash := sf_fail_hash f; sf_fail_reason := sf_fail_reason f;
             sf_fail_count := sf_fail_count f; sf_fail_first := sf_fail_first f;
             sf_fail_last := sf_fail_last f; sf_next_retry := sf_next_retry f;
             sf_fail_etag := sf_fail_etag f; sf_fail_lastmod := sf_fail_lastmod f;
             sf_rowid := sf_rowid f; sf_generation := sf_generation f |}))).

(** [putURLPathSQL]: every column of a fresh row replaces the old one's,
    and the hold stamp is cleared. *)
Definition put_url (u : URLPath) : URLPath :=
  {| up_blob := up_blob u; up_upstream := up_upstream u; up_is_metadata := up_is_metadata u;
     up_last_requested := up_last_requested u; up_request_count := up_request_count u;
     up_last_fetched := up_last_fetched u; up_etag := up_etag u; up_lastmod := up_lastmod u;
     up_dropped := None |}.

Definition PutURLPath (k : URLKey) (u : URLPath) : T unit :=
  url_upsert k (put_url u) (λ _, put_url u).

(** The pair (rowid, generation) of a suite row, zeros for none. *)
Definition MetadataGeneration (d : DB) (k : SuiteKey) : Z * Z :=
  match suite_t d !! k with Some f => (sf_rowid f, sf_generation f) | None => (0, 0) end.

Definition checkMetadataGenerationTx (k : SuiteKey) (want : Z * Z) : T unit :=
  d ← mget;
  massert (bool_decide (MetadataGeneration d k = want)) ErrMetadataChanged.

Record FetchedRow := {
  fr_key : URLKey; fr_row : URLPath; fr_generation : option (Z * Z);
  fr_suite : option SuiteKey; fr_create : option SuiteSeed; fr_mark_seen : Z;
  fr_restamp : option SuiteSeed }.

Record FetchedResult := { fx_create : CreateResult; fx_tracked : bool; fx_marked : bool }.

(** The suite a [FetchedRow] names: the zero key is none. *)
Definition zero_key : SuiteKey := ("", "", "").
Definition fetched_suite (m : FetchedRow) : SuiteKey := default zero_key (fr_suite m).

(** Go's [net/http]: [http.ParseTime] (as Unix seconds) and the format
    [http.TimeFormat]. *)
Class HTTPTime := {
  ParseTime : string → option Z;
  FormatTime : Z → string }.

(** The zero [time.Time], the first instant of the year 1. *)
Definition zeroTime : Z := -62135596800.

Definition HTTPDate `{HTTPTime} (now : Z) (value : string) : string :=
  if (128 <? String.length value)%nat then ""
  else match ParseTime value with
       | None => ""
       | Some t => if (t =? zeroTime) || (now <? t) then "" else FormatTime t
       end.

Section fetched.
Context `{HTTPTime}.

Definition store_representation (m : FetchedRow) (now : Z) : T unit :=
  match up_blob (fr_row m) with
  | None => mret tt
  | Some h =>
      let date := match up_lastmod (fr_row m) with
                  | Some v => HTTPDate now v
                  | None => ""
                  end in
      putRepresentation (fr_key m) h date now
  end.

Definition storeFetchedTx (m : FetchedRow) (caps : SuiteCaps) (held : option SuiteKey)
    (now : Z) : T FetchedResult :=
  _ ← match fr_generation m with
      | Some g => checkMetadataGenerationTx (fetched_suite m) g
      | None => mret tt
      end;
  _ ← PutURLPath (fr_key m) (fr_row m);
  _ ← store_representation m now;
  cr ← match fr_create m with
       | Some seed => createSuiteTx seed caps held now
       | None => mret (create_result SuiteNone)
       end;
  _ ← match fr_restamp m with
      | Some s => if bool_decide (cr_outcome cr = SuiteCreated) then mret tt
                  else restampSuiteTx s
      | None => mret tt
      end;
  d ← mget;
  let tracked := negb (bool_decide (fetched_suite m = zero_key))
                 && bool_decide (is_Some (suite_t d !! fetched_suite m)) in
  if negb (fr_mark_seen m =? 0) && tracked then
    _ ← markSignedSeen (base_key (fetched_suite m)) (fr_mark_seen m);
    mret {| fx_create := cr; fx_tracked := tracked; fx_marked := true |}
  else mret {| fx_create := cr; fx_tracked := tracked; fx_marked := false |}.

(** [PutRepresentation] *)
Definition PutRepresentation (k : URLKey) (h lastmod : string) (now : Z) : T unit :=
  _ ← massert (validBlobHash h) ErrInvalidHash;
  putRepresentation k h (HTTPDate now lastmod) now.
End fetched.

(** ** The failure record *)

Record AdoptionFailure := {
  af_hash : string; af_reason : string; af_count : Z; af_first : Z; af_last : Z;
  af_next : Z; af_etag : option string; af_lastmod : option string }.

Definition record_failure (a : AdoptionFailure) (f : SuiteFreshness) : SuiteFreshness :=
  {| sf_last_check := sf_last_check f; sf_last_success := sf_last_success f;
     sf_etag := sf_etag f; sf_lastmod := sf_lastmod f; sf_change_seen := sf_change_seen f;
     sf_current := sf_current f; sf_last_requested := sf_last_requested f;
     sf_check_fail := sf_check_fail f;
     sf_fail_hash := Some (af_hash a); sf_fail_reason := Some (af_reason a);
     sf_fail_count := af_count a; sf_fail_first := Some (af_first a);
     sf_fail_last := Some (af_last a); sf_next_retry := Some (af_next a);
     sf_fail_etag := af_etag a; sf_fail_lastmod := af_lastmod a;
     sf_rowid := sf_rowid f; sf_generation := sf_generation f |}.

Definition RecordAdoptionFailure (k : SuiteKey) (a : AdoptionFailure) : T unit :=
  _ ← massert (negb (String.eqb (af_hash a) "" || String.eqb (af_reason a) ""
                     || (af_count a <? 1))) ErrInvalidAdoptionFailure;
  mmodify (upd_suite (update_where (λ k' _, bool_decide (k' = k)) (record_failure a))).

Definition ClearAdoptionFailure (k : SuiteKey) : T unit :=
  mmodify (upd_suite (update_where (λ k' _, bool_decide (k' = k)) clear_failure)).

Definition set_next_retry (next : Z) (f : SuiteFreshness) : SuiteFreshness :=
  {| sf_last_check := sf_last_check f; sf_last_success := sf_last_success f;
     sf_etag := sf_etag f; sf_lastmod := sf_lastmod f; sf_change_seen := sf_change_seen f;
     sf_current := sf_current f; sf_last_requested := sf_last_requested f;
     sf_check_fail := sf_check_fail f;
     sf_fail_hash := sf_fail_hash f; sf_fail_reason := sf_fail_reason f;
     sf_fail_count := sf_fail_count f; sf_fail_first := sf_fail_first f;
     sf_fail_last := sf_fail_last f; sf_next_retry := Some next;
     sf_fail_etag := sf_fail_etag f; sf_fail_lastmod := sf_fail_lastmod f;
     sf_rowid := sf_rowid f; sf_generation := sf_generation f |}.

Definition SetAdoptionNextRetry (k : SuiteKey) (next : Z) : T unit :=
  mmodify (upd_suite (update_where
    (λ k' f, bool_decide (k' = k) && (0 <? sf_fail_count f)) (set_next_retry next))).

Definition refusalReasons : list string :=
  ["upstream_older"; "rollback_refused"; "unsigned_downgrade_refused";
   "unsigned_unconfirmed"; "unsigned_too_large"; "anchor_absent"; "unsigned_disabled"].

Definition ReasonPanic : string := "panic".

Definition reschedulable (f : SuiteFreshness) : bool :=
  (0 <? sf_fail_count f)
  && negb (bool_decide (default "" (sf_fail_reason f) ∈ refusalReasons ++ [ReasonPanic])).

(** [RescheduleFailingAdoptions]: [offset n] is the n-th draw of the jitter. *)
Fixpoint reschedule (now : Z) (offset : nat → Z) (n : nat) (keys : list SuiteKey) : T unit :=
  match keys with
  | [] => mret tt
  | k :: keys =>
      _ ← mmodify (upd_suite (update_where (λ k' _, bool_decide (k' = k))
                                (set_next_retry (now + offset n))));
      reschedule now offset (S n) keys
  end.

Definition RescheduleFailingAdoptions `{TableScan} (now : Z) (offset : nat → Z) : T Z :=
  d ← mget;
  let keys := map fst (List.filter (λ e, reschedulable e.2) (scan (suite_t d))) in
  _ ← reschedule now offset 0 keys;
  mret (Z.of_nat (length keys)).

(** [TouchSuite]'s statement: whether a row was there to touch. *)
Definition touch_suite (k : SuiteKey) (now : Z) : T bool :=
  d ← mget;
  _ ← mmodify (upd_suite (update_where (λ k' _, bool_decide (k' = k))
    (λ f, {| sf_last_check := sf_last_check f; sf_last_success := sf_last_success f;
             sf_etag := sf_etag f; sf_lastmod := sf_lastmod f; sf_change_seen := sf_change_seen f;
             sf_current := sf_current f; sf_last_requested := Some now;
             sf_check_fail := sf_check_fail f;
             sf_fail_hash := sf_fail_hash f; sf_fail_reason := sf_fail_reason f;
             sf_fail_count := sf_fail_count f; sf_fail_first := sf_fail_first f;
             sf_fail_last := sf_fail_last f; sf_next_retry := sf_next_retry f;
             sf_fail_etag := sf_fail_etag f; sf_fail_lastmod := sf_fail_lastmod f;
             sf_rowid := sf_rowid f; sf_generation := sf_generation f |})));
  mret (bool_decide (is_Some (suite_t d !! k))).

(** ** Orphan markers *)

Definition has_base_suite (d : DB) (host base : string) : bool :=
  exists_where (λ k _, base_suite host base k) (suite_t d).

Definition orphan_marker (d : DB) (cutoff : Z) (k : SuiteKey) (t : Z) : bool :=
  (t <? cutoff) && negb (has_base_suite d (key_host k) (key_path k)).

Definition markerSweepBatch : Z := 1000.

Definition orphanMarkers (d : DB) (cutoff : Z) : list SuiteKey :=
  sql_limit markerSweepBatch
    (sort_by key_leb
       (map fst (List.filter (λ e : SuiteKey * Z, orphan_marker d cutoff e.1 e.2)
                   (map_to_list (seen_t d))))).

Definition delete_orphan (cutoff : Z) (k : SuiteKey) : T bool :=
  d ← mget;
  match seen_t d !! k with
  | Some t => if orphan_marker d cutoff k t
              then _ ← mmodify (upd_seen (delete k)); mret true
              else mret false
  | None => mret false
  end.

Definition deleteOrphanMarkers (keys : list SuiteKey) (cutoff : Z) : T Z :=
  mcount (delete_orphan cutoff) keys.

(** [SweepOrphanMarkers]: batches until one is short or deletes nothing;
    each full batch deletes a marker, so the number of markers is enough
    fuel.  Between two transactions other writers may run: [env] is what
    they do to the database. *)
Fixpoint sweep_loop (env : nat → DB → DB) (fuel : nat) (cutoff : Z) (swept : Z) (d : DB)
    : Z * DB :=
  match fuel with
  | O => (swept, d)
  | S fuel =>
      let keys := orphanMarkers d cutoff in
      if (length keys =? 0)%nat then (swept, d)
      else
        match deleteOrphanMarkers keys cutoff (env fuel d) with
        | Ok (n, d') =>
            if (n =? 0) || (Z.of_nat (length keys) <? markerSweepBatch) then (swept + n, d')
            else sweep_loop env fuel cutoff (swept + n) d'
        | Err _ => (swept, env fuel d)
        end
  end.

(** ** The legacy trust audit *)

Inductive LegacyAuditOutcome :=
| LegacyAuditKeep | LegacyAuditDrop | LegacyAuditQuarantine | LegacyAuditQuarantineSigned.

#[export] Instance LegacyAuditOutcome_eq_dec : EqDecision LegacyAuditOutcome.
Proof. solve_decision. Defined.

Record LegacyAuditDecision := {
  la_id : Z; la_outcome : LegacyAuditOutcome; la_drop_rows : bool }.

Definition unpoint (f : SuiteFreshness) : SuiteFreshness :=
  {| sf_last_check := sf_last_check f; sf_last_success := sf_last_success f;
     sf_etag := None; sf_lastmod := None; sf_change_seen := None;
     sf_current := None; sf_last_requested := sf_last_requested f;
     sf_check_fail := sf_check_fail f;
     sf_fail_hash := sf_fail_hash f; sf_fail_reason := sf_fail_reason f;
     sf_fail_count := sf_fail_count f; sf_fail_first := sf_fail_first f;
     sf_fail_last := sf_fail_last f; sf_next_retry := sf_next_retry f;
     sf_fail_etag := sf_fail_etag f; sf_fail_lastmod := sf_fail_lastmod f;
     sf_rowid := sf_rowid f; sf_generation := sf_generation f |}.

Definition quarantineSnapshotTx (id now : Z) : T bool :=
  d ← mget;
  let cur := is_current d id in
  _ ← mmodify (upd_suite (update_where (λ _ f, bool_decide (sf_current f = Some id)) unpoint));
  _ ← (if cur then decrementSnapshotRefcountsTx id now else mret tt);
  _ ← mmodify (upd_snap (update_where
        (λ i s, (i =? id) && bool_decide (ss_retired s = None)) (set_retired now)));
  mret cur.

Definition dropAnchorBlobRowsTx `{TableScan} (id now : Z) : T Z :=
  d ← mget;
  match s ← snap_t d !! id; ss_inrelease s with
  | None => mret 0
  | Some h =>
      if String.eqb h "" then mret 0
      else
        let keys := map fst (List.filter (λ e : URLKey * URLPath, bool_decide (up_blob e.2 = Some h))
                               (scan (url_t d))) in
        _ ← mfor (λ k, deleteURLPathRowTx k (Some h) now) keys;
        mret (Z.of_nat (length keys))
  end.

Definition markSnapshotBaseTx (id : Z) : T unit :=
  d ← mget;
  match snap_t d !! id with
  | None => mret tt
  | Some s =>
      if negb (String.eqb (ss_form s) FormUnsigned)
         && bool_decide (is_Some (suite_t d !! ss_suite s))
      then markSignedSeen (base_key (ss_suite s)) (default (ss_created s) (ss_adopted s))
      else mret tt
  end.

Definition audit_decision `{TableScan} (now : Z) (x : LegacyAuditDecision) : T unit :=
  let quarantine := bool_decide (la_outcome x = LegacyAuditQuarantine)
                    || bool_decide (la_outcome x = LegacyAuditQuarantineSigned) in
  _ ← massert (negb (la_drop_rows x) || quarantine) ErrBadArgument;
  _ ← (match la_outcome x with
       | LegacyAuditKeep => markSnapshotBaseTx (la_id x)
       | LegacyAuditDrop => mret tt
       | _ =>
           _ ← quarantineSnapshotTx (la_id x) now;
           _ ← (if la_drop_rows x
                then _ ← dropAnchorBlobRowsTx (la_id x) now; mret tt else mret tt);
           if bool_decide (la_outcome x = LegacyAuditQuarantineSigned)
           then markSnapshotBaseTx (la_id x) else mret tt
       end);
  mmodify (upd_audit (λ q, q ∖ {[la_id x]})).

Definition ApplyLegacyAuditDecisions `{TableScan} (now : Z) (l : list LegacyAuditDecision)
    : T unit :=
  mfor (audit_decision now) l.

Definition EnqueueLegacyTrustAudit (ids : list Z) : T unit :=
  mfor (λ id, mmodify (upd_audit (λ q, {[id]} ∪ q))) ids.

(** ** Deleting a suite keeps the invariant *)

Section suite_laws.

Lemma current_row_suite d k f id :
  wf d → suite_t d !! k = Some f → sf_current f = Some id →
  ∀ k' f', suite_t d !! k' = Some f' → sf_current f' = Some id → k' = k.
Proof.
  intros Hwf Hk Hf k' f' Hk' Hf'.
  destruct (wf_current d Hwf k f id Hk Hf) as (s & Hs & Hsk & _).
  destruct (wf_current d Hwf k' f' id Hk' Hf') as (s' & Hs' & Hsk' & _). congruence.
Qed.

(** The counts of a suite's current snapshot, dropped. *)
Definition drop_current (current : option Z) (now : Z) (d : DB) : DB :=
  match current with
  | Some id => upd_blob (update_where (λ h _, snap_has_blob d id h) (drop_blob now)) d
  | None => d
  end.

Definition delete_core (k : SuiteKey) (f : SuiteFreshness) (now : Z) (d : DB) : DB :=
  upd_suite (delete k)
    (upd_snap (update_where (λ _ s, bool_decide (ss_suite s = k) && bool_decide (ss_retired s = None))
                 (set_retired now))
       (drop_current (sf_current f) now d)).

Lemma drop_current_blob current now d h b :
  blob_t (drop_current current now d) !! h = Some b →
  ∃ b0, blob_t d !! h = Some b0 ∧
    b_refcount b = b_refcount b0
      - Z.b2z (match current with Some id => snap_has_blob d id h | None => false end) ∧
    (blob_clock_ok b0 → blob_clock_ok b).
Proof.
  destruct current as [id|]; simpl.
  - intros (b0 & Hb0 & ->)%lookup_update_where_Some. exists b0. split; [done|].
    destruct (snap_has_blob d id h); simpl; split; try lia; auto using drop_blob_clock.
  - intros Hb. exists b. split_and!; try done. lia.
Qed.

Lemma drop_current_dom current now d h :
  is_Some (blob_t d !! h) → is_Some (blob_t (drop_current current now d) !! h).
Proof. destruct current; simpl; [by rewrite lookup_update_where_is_Some|done]. Qed.

Lemma drop_current_tables current now d :
  let d' := drop_current current now d in
  url_t d' = url_t d ∧ suite_t d' = suite_t d ∧ snap_t d' = snap_t d ∧
  snap_seq d' = snap_seq d ∧ member_t d' = member_t d ∧ skip_t d' = skip_t d ∧
  pkg_t d' = pkg_t d ∧ seen_t d' = seen_t d ∧ rep_t d' = rep_t d ∧
  meta_clock d' = meta_clock d ∧ audit_t d' = audit_t d.
Proof. by destruct current. Qed.

(** Retiring snapshots changes nothing foreign keys and shapes read. *)
Lemma retire_lookup P now (m : gmap Z SuiteSnapshot) i s :
  update_where P (set_retired now) m !! i = Some s →
  ∃ s0, m !! i = Some s0 ∧ (s = s0 ∨ s = set_retired now s0 ∧ P i s0 = true).
Proof.
  intros (s0 & Hs0 & ->)%lookup_update_where_Some. exists s0. split; [done|].
  destruct (P i s0) eqn:E; [by right|by left].
Qed.

(** Retire some snapshots and move pointers away from them: the invariant is
    kept when every pointer left is to a snapshot that stays, and the blobs'
    counts follow. *)
Lemma wf_retire P now d dsuite dblob :
  wf d →
  (∀ h, is_Some (blob_t d !! h) → is_Some (dblob !! h)) →
  (∀ k f', dsuite !! k = Some f' → ∃ f, suite_t d !! k = Some f ∧
     sf_generation f' = sf_generation f ∧
     (∀ id, sf_current f' = Some id → sf_current f = Some id ∧
        ∀ s, snap_t d !! id = Some s → P id s = false)) →
  let d' := upd_suite (λ _, dsuite) (upd_snap (update_where P (set_retired now))
              (upd_blob (λ _, dblob) d)) in
  (∀ h b, dblob !! h = Some b → blob_clock_ok b ∧ b_refcount b <= live_refs d' h) →
  wf d'.
Proof.
  intros [[H1 H2 H3 H4 H5 H6] [Hq Hs] Hc Hb Hg] Hdom Hsu d' Hbl.
  assert (∀ i, is_Some (snap_t d !! i) → is_Some (snap_t d' !! i)) as Hsdom.
  { intros i. apply lookup_update_where_is_Some. }
  split; [split|split|..]; try done.
  - intros k u h Hk Hu. eapply Hdom, H1; eauto.
  - intros k m Hk. destruct (H2 k m Hk). eauto.
  - intros k m Hk. eapply Hsdom, H3; eauto.
  - intros k m Hk. eapply Hsdom, H4; eauto.
  - intros i s h (s0 & Hs0 & Hor)%retire_lookup Hh. eapply Hdom, (H5 i s0); [done|].
    destruct Hor as [->|[-> _]]; done.
  - intros k m Hk. eapply Hdom, H6; eauto.
  - intros i s (s0 & Hs0 & Hor)%retire_lookup. destruct (Hs i s0 Hs0) as [? Hsh].
    split; [done|]. destruct Hor as [->|[-> _]]; done.
  - intros k f' id Hk Hcur. destruct (Hsu k f' Hk) as (f & Hf & _ & Hstay).
    destruct (Hstay id Hcur) as [Hfc HP]. destruct (Hc k f id Hf Hfc) as (s & Hs0 & ?).
    exists s. simpl. rewrite lookup_update_where, Hs0. simpl. by rewrite (HP s Hs0).
  - intros k f' Hk. destruct (Hsu k f' Hk) as (f & Hf & -> & _). by eapply Hg.
Qed.

Lemma delete_core_wf k f now d :
  wf d → suite_t d !! k = Some f → wf (delete_core k f now d).
Proof.
  intros Hwf Hf. set (dropped := drop_current (sf_current f) now d).
  set (P := λ (_ : Z) s, bool_decide (ss_suite s = k) && bool_decide (ss_retired s = None)).
  assert (delete_core k f now d =
    upd_suite (λ _, delete k (suite_t d)) (upd_snap (update_where P (set_retired now))
      (upd_blob (λ _, blob_t dropped) d))) as ->.
  { unfold delete_core, dropped, drop_current. by destruct (sf_current f). }
  apply (wf_retire P); [done|intros h; apply drop_current_dom| |].
  - intros k' f' [Hne Hk']%lookup_delete_Some. exists f'. split_and!; try done.
    intros id Hid. split; [done|]. intros s Hs.
    destruct (wf_current d Hwf k' f' id Hk' Hid) as (s' & Hs' & Hsk & _). simplify_eq.
    unfold P. by rewrite bool_decide_false.
  - intros h b Hb. destruct (drop_current_blob _ _ _ _ _ Hb) as (b0 & Hb0 & Hrc & Hclk).
    destruct (wf_blobs d Hwf h b0 Hb0) as [Hc Hle]. split; [by apply Hclk|].
    assert (live_refs d h = count_where (λ _ x, uses_blob d h x) (delete k (suite_t d))
              + Z.b2z (uses_blob d h f)) as Hl.
    { exact (count_where_delete (λ _ x, uses_blob d h x) (suite_t d) k f Hf). }
    fold (uses_blob d h f) in Hrc.
    change (b_refcount b <= count_where (λ _ x, uses_blob d h x) (delete k (suite_t d))).
    lia.
Qed.

(** The marker upsert of [markSnapshotHistoryTx] and the stamp after it. *)
Definition delete_marks (hist : bool) (k : SuiteKey) (now : Z) (m : gmap SuiteKey Z)
    : gmap SuiteKey Z :=
  update_where (λ k' _, base_marker (key_host k) (MarkerBase (key_path k)) k') (Z.max now)
    (if hist then <[base_key k := match m !! base_key k with
                                  | Some t => Z.max t now | None => now end]> m
     else m).

Lemma delete_marks_mono hist k now m k' t :
  m !! k' = Some t → ∃ t', delete_marks hist k now m !! k' = Some t' ∧ t <= t'.
Proof.
  intros Hk'. unfold delete_marks. rewrite lookup_update_where.
  assert (∃ t1, (if hist then <[base_key k := match m !! base_key k with
             | Some t => Z.max t now | None => now end]> m else m) !! k' = Some t1 ∧ t <= t1)
    as (t1 & -> & Hle).
  { destruct hist; [|by eauto using Z.le_refl].
    destruct (decide (base_key k = k')) as [<-|Hne].
    - rewrite lookup_insert_eq, Hk'. eexists. split; [done|lia].
    - rewrite lookup_insert_ne by done. eauto using Z.le_refl. }
  simpl. eexists. split; [done|]. destruct (base_marker _ _ _); lia.
Qed.

Lemma delete_marks_history k now m : is_Some (delete_marks true k now m !! base_key k).
Proof.
  unfold delete_marks. rewrite lookup_update_where_is_Some. by rewrite lookup_insert_eq.
Qed.

(** A successful [deleteSuiteTx], outcome by outcome. *)
Lemma deleteSuiteTx_inv k want cutoff now d out d' :
  deleteSuiteTx k want cutoff now d = Ok (out, d') →
  match out with
  | suiteNoRow => suite_t d !! k = None ∧ d' = d
  | suiteKept => is_Some (suite_t d !! k) ∧ d' = d
  | suiteDeleted =>
      ∃ f, suite_t d !! k = Some f ∧ sf_current f = want ∧
        (cutoff = ReapRegardless ∨ ∃ r, sf_last_requested f = Some r ∧ r <= cutoff) ∧
        d' = upd_seen (delete_marks (snapshot_history d k) k now) (delete_core k f now d)
  end.
Proof.
  unfold deleteSuiteTx. intros Hrun. minv.
  destruct (suite_t d !! k) as [f|] eqn:Hf; [|by minv].
  match type of Hrun with (if ?b then _ else _) _ = _ => destruct b eqn:Hidle end; [by minv|].
  destruct (bool_decide (sf_current f = want)) eqn:Hcur; cbn [negb] in Hrun; [|by minv].
  bclean.
  assert (cutoff = ReapRegardless ∨ ∃ r, sf_last_requested f = Some r ∧ r <= cutoff) as Hc.
  { apply andb_false_iff in Hidle as [Hx|Hx]; bclean; [by left|].
    destruct (sf_last_requested f) as [r|]; [|done]. bclean. right. eauto. }
  minv. exists f. split_and!; try done.
  unfold markSnapshotHistoryTx, retireSuiteSnapshotsTx, stampBaseMarkersTx,
    decrementSnapshotRefcountsTx, markSignedSeen, delete_core, delete_marks in *. minv.
  destruct (snapshot_history d k) eqn:Hh; minv; destruct (sf_current f) as [id|] eqn:Hcf; by minv.
Qed.

Lemma wf_deleteSuiteTx k want cutoff now : triple wf (deleteSuiteTx k want cutoff now) (λ _, wf).
Proof.
  intros d out d' Hwf Hrun. pose proof (deleteSuiteTx_inv _ _ _ _ _ _ _ Hrun) as H.
  destruct out; [by destruct H as [_ ->]| |by destruct H as [_ ->]].
  destruct H as (f & Hf & _ & _ & ->). apply wf_upd_seen. by apply delete_core_wf.
Qed.

Lemma wf_suite_insert k f :
  (∀ r g, sf_current (f r g) = None ∧ sf_generation (f r g) = g) →
  triple wf (suite_insert k f) (λ _, wf).
Proof.
  intros Hnew d u d' Hwf Hrun. unfold suite_insert in Hrun. minv. bclean.
  destruct (Hnew (next_rowid d) (meta_clock d + 1)) as [Hcur Hgen].
  destruct Hwf as [[] ? Hc Hb Hg]. split; [split|..]; try done.
  - intros k' x id Hk' Hx. simpl in Hk'.
    apply lookup_insert_Some in Hk' as [[<- <-]|[_ Hk']]; [congruence|]. by eapply Hc.
  - intros h b Hbl. destruct (Hb h b Hbl) as [? Hle]. split; [done|].
    etrans; [exact Hle|]. unfold live_refs at 2. simpl.
    rewrite (count_where_insert_new _ (suite_t d) k) by done.
    change (count_where _ (suite_t d)) with (live_refs d h).
    match goal with |- context [Z.b2z ?b] => destruct b; simpl; lia end.
  - intros k' x Hk'. simpl in *.
    apply lookup_insert_Some in Hk' as [[<- <-]|[_ Hk']]; [lia|].
    specialize (Hg k' x Hk'). lia.
Qed.

Lemma wf_markCreated seed : triple wf (markCreated seed) (λ _, wf).
Proof.
  intros d u d' Hwf Hrun. unfold markCreated in Hrun. minv.
  destruct (fold_left _ _ _) as [seen unproven]. destruct (seen =? 0); minv; [done|].
  by eapply wf_markSignedSeen.
Qed.

Lemma wf_insert_suite seed ev : triple wf (insert_suite seed ev) (λ _, wf).
Proof.
  intros d u d' Hwf Hrun. unfold insert_suite in Hrun. minv.
  eapply wf_markCreated; [|exact Hrun1]. eapply wf_suite_insert; [|exact Hwf|exact Hrun0]. done.
Qed.

Lemma insert_suite_inv seed ev d r d' :
  insert_suite seed ev d = Ok (r, d') →
  cr_outcome r = SuiteCreated ∧ cr_evicted r = ev ∧ suite_t d !! sd_key seed = None ∧
  suite_t d' = <[sd_key seed := seed_row seed (next_rowid d) (meta_clock d + 1)]> (suite_t d) ∧
  (∀ k t, seen_t d !! k = Some t → ∃ t', seen_t d' !! k = Some t' ∧ t <= t').
Proof.
  intros Hrun. unfold insert_suite, suite_insert, markCreated in Hrun. minv. bclean.
  destruct (fold_left _ _ _) as [seen unproven]. destruct (seen =? 0); minv.
  - split_and!; try done. intros k t Hk. exists t. split; [done|lia].
  - unfold markSignedSeen in *. minv. split_and!; try done. simpl. intros k t Hk.
    destruct (decide (base_key (sd_key seed) = k)) as [<-|Hne].
    + rewrite lookup_insert_eq, Hk. eexists. split; [done|lia].
    + rewrite lookup_insert_ne by done. exists t. split; [done|lia].
Qed.

(** [createSuiteTx], branch by branch. *)
Lemma createSuiteTx_inv seed caps held now d r d' :
  createSuiteTx seed caps held now d = Ok (r, d') →
  (r = create_result SuiteExists ∧ d' = d ∧ is_Some (suite_t d !! sd_key seed)) ∨
  (Rejected (cr_outcome r) = true ∧ suite_t d !! sd_key seed = None ∧
   ((cr_evicted r = None ∧ d' = d) ∨
    ∃ hk, cr_evicted r = Some hk ∧ held = Some hk ∧
      deleteSuiteTx hk None (now - suiteEvictIdle) now d = Ok (suiteDeleted, d'))) ∨
  (cr_outcome r = SuiteCreated ∧ suite_t d !! sd_key seed = None ∧
   (0 < cap_per_host caps → count_host d (key_host (sd_key seed)) < cap_per_host caps) ∧
   ((cr_evicted r = None ∧ (0 < cap_global caps → count_suites d < cap_global caps) ∧
     insert_suite seed None d = Ok (r, d')) ∨
    ∃ hk d1, cr_evicted r = Some hk ∧ held = Some hk ∧
      deleteSuiteTx hk None (now - suiteEvictIdle) now d = Ok (suiteDeleted, d1) ∧
      count_suites d <= cap_global caps ∧ insert_suite seed (Some hk) d1 = Ok (r, d'))).
Proof.
  unfold createSuiteTx. intros Hrun. minv.
  destruct (suite_t d !! sd_key seed) as [x|] eqn:Hx; minv; [by left; eauto|].
  destruct ((0 <? cap_per_host caps) && _) eqn:Hhost; minv.
  { right. left. split_and!; try done. by left. }
  assert (0 < cap_per_host caps → count_host d (key_host (sd_key seed)) < cap_per_host caps)
    as Hh by (apply andb_false_iff in Hhost; bclean; lia).
  destruct ((0 <? cap_global caps) && _) eqn:Hglob; minv.
  - destruct held as [hk|]; minv; [|right; left; split_and!; try done; by left].
    pose proof (deleteSuiteTx_inv _ _ _ _ _ _ _ Hrun0) as Hdel.
    destruct rv; minv.
    + destruct Hdel as [_ ->]. right. left. split_and!; try done. by left.
    + destruct (Z.leb_spec (cap_global caps) (count_suites d - 1)); minv.
      * right. left. split_and!; try done. right. exists hk. by split_and!.
      * destruct (insert_suite_inv _ _ _ _ _ Hrun) as (Ho & He & _).
        right. right. split_and!; try done. right. exists hk, st. split_and!; try done. lia.
    + destruct Hdel as [_ ->]. right. left. split_and!; try done. by left.
  - destruct (insert_suite_inv _ _ _ _ _ Hrun) as (Ho & He & _).
    right. right. split_and!; try done. left. split_and!; try done.
    apply andb_false_iff in Hglob. intros. destruct Hglob; bclean; lia.
Qed.

Lemma wf_createSuiteTx seed caps held now : triple wf (createSuiteTx seed caps held now) (λ _, wf).
Proof.
  intros d r d' Hwf Hrun.
  destruct (createSuiteTx_inv _ _ _ _ _ _ _ Hrun)
    as [(_ & -> & _)|[(_ & _ & [[_ ->]|(hk & _ & _ & Hdel)])
                     |(_ & _ & _ & [(_ & _ & Hins)|(hk & d1 & _ & _ & Hdel & _ & Hins)])]];
    try done.
  - by eapply wf_deleteSuiteTx.
  - by eapply wf_insert_suite.
  - eapply wf_insert_suite; [|exact Hins]. by eapply wf_deleteSuiteTx.
Qed.

Lemma delete_core_count k f now d P :
  suite_t d !! k = Some f →
  count_where P (suite_t (delete_core k f now d)) = count_where P (suite_t d) - Z.b2z (P k f).
Proof.
  intros Hf.
  assert (suite_t (delete_core k f now d) = delete k (suite_t d)) as ->.
  { unfold delete_core. simpl. by destruct (sf_current f). }
  rewrite (count_where_delete P (suite_t d) k f Hf). lia.
Qed.

Lemma deleteSuiteTx_idle hk now d d1 :
  now < ReapRegardless → deleteSuiteTx hk None (now - suiteEvictIdle) now d = Ok (suiteDeleted, d1) →
  ∃ f, suite_t d !! hk = Some f ∧ sf_current f = None ∧ suite_t d1 = delete hk (suite_t d) ∧
    ∃ t, sf_last_requested f = Some t ∧ t <= now - suiteEvictIdle.
Proof.
  intros Hnow Hd. apply deleteSuiteTx_inv in Hd as (f & Hf & Hc & Hi & ->).
  exists f. split_and!; try done; [simpl; by destruct (sf_current f)|].
  destruct Hi as [Hi|Hi]; [|done]. unfold suiteEvictIdle in Hi. lia.
Qed.

(** Suite creation respects its caps.  A created row is new, has no
    snapshot, and leaves at most [cap_global] rows and at most [cap_per_host]
    rows of its host; an existing row is left alone; a refusal creates
    nothing; and the only row that can go is the held candidate, never
    adopted and not requested for a day. *)
Theorem createSuiteTx_caps seed caps held now d r d' :
  now < ReapRegardless →
  createSuiteTx seed caps held now d = Ok (r, d') →
  match cr_outcome r with
  | SuiteCreated =>
      suite_t d !! sd_key seed = None ∧
      (∃ f, suite_t d' !! sd_key seed = Some f ∧ sf_current f = None) ∧
      (0 < cap_global caps → count_suites d' <= cap_global caps) ∧
      (0 < cap_per_host caps → count_host d' (key_host (sd_key seed)) <= cap_per_host caps)
  | SuiteExists => d' = d ∧ is_Some (suite_t d !! sd_key seed)
  | _ => suite_t d' !! sd_key seed = None
  end ∧
  (∀ k f, suite_t d !! k = Some f → suite_t d' !! k = None →
     cr_evicted r = Some k ∧ held = Some k ∧ sf_current f = None ∧
     ∃ t, sf_last_requested f = Some t ∧ t <= now - suiteEvictIdle).
Proof.
  intros Hnow Hrun.
  destruct (createSuiteTx_inv _ _ _ _ _ _ _ Hrun)
    as [(-> & -> & Hx)|[(Hrej & Hnone & Hcase)|(Hcr & Hnone & Hhost & Hcase)]].
  - split; [done|]. intros k f Hk Hk'. congruence.
  - assert (∀ P : Prop, P → match cr_outcome r with
      | SuiteCreated => False | SuiteExists => False | _ => P end) as Hr.
    { intros P HP. unfold Rejected in Hrej. by destruct (cr_outcome r). }
    destruct Hcase as [[Hev ->]|(hk & Hev & -> & Hd)].
    + specialize (Hr _ Hnone). split; [by destruct (cr_outcome r)|].
      intros k f Hk Hk'. congruence.
    + destruct (deleteSuiteTx_idle hk now d d' Hnow Hd) as (f & Hf & Hc & Hsu & Ht).
      assert (suite_t d' !! sd_key seed = None) as Hn'.
      { rewrite Hsu. by rewrite lookup_delete_None; right. }
      specialize (Hr _ Hn'). split; [by destruct (cr_outcome r)|].
      intros k f' Hk Hk'. rewrite Hsu in Hk'.
      apply lookup_delete_None in Hk' as [<-|Hk']; [|congruence]. simplify_eq. by split_and!.
  - rewrite Hcr. unfold count_suites, count_host in *.
    destruct Hcase as [(Hev & Hglob & Hins)|(hk & d1 & Hev & -> & Hd & Hglob & Hins)];
      destruct (insert_suite_inv _ _ _ _ _ Hins) as (_ & _ & Hn1 & Hsu & _); rewrite Hsu.
    + split_and!; [done|rewrite lookup_insert_eq; eauto| | |].
      * intros Hg. rewrite count_where_insert_new by done. specialize (Hglob Hg). simpl. lia.
      * intros Hh. rewrite count_where_insert_new, String.eqb_refl by done.
        specialize (Hhost Hh). simpl. lia.
      * intros k f Hk [Hk' _]%lookup_insert_None. congruence.
    + destruct (deleteSuiteTx_idle hk now d d1 Hnow Hd) as (f & Hf & Hc & Hsu1 & Ht). rewrite Hsu1 in *.
      pose proof (count_where_delete (λ _ _, true) (suite_t d) hk f Hf) as Hc1.
      pose proof (count_where_delete (λ k _, String.eqb (key_host k) (key_host (sd_key seed)))
                    (suite_t d) hk f Hf) as Hc2. simpl in Hc1.
      split_and!; [done|rewrite lookup_insert_eq; eauto| | |].
      * intros Hg. rewrite count_where_insert_new by done. simpl. lia.
      * intros Hh. rewrite count_where_insert_new, String.eqb_refl by done.
        specialize (Hhost Hh). destruct (String.eqb (key_host hk) (key_host (sd_key seed))); simpl in *; lia.
      * intros k f' Hk [Hk' Hne]%lookup_insert_None.
        apply lookup_delete_None in Hk' as [<-|Hk']; [|congruence]. simplify_eq. by split_and!.
Qed.

(** ** The other transactions *)

Lemma wf_ReapIdleSuite k want cutoff now : triple wf (ReapIdleSuite k want cutoff now) (λ _, wf).
Proof.
  intros d r d' Hwf Hrun. unfold ReapIdleSuite in Hrun. minv. by eapply wf_deleteSuiteTx.
Qed.

Lemma wf_deleteBaseAnchorsTx host base now : triple wf (deleteBaseAnchorsTx host base now) (λ _, wf).
Proof. apply triple_count_inv. intros k. apply wf_deleteCachedRowTx. Qed.

Lemma wf_deleteURLPathRows k paths now : triple wf (deleteURLPathRows k paths now) (λ _, wf).
Proof. apply triple_count_inv. intros p. apply wf_deleteCachedRowTx. Qed.

Lemma wf_ForgetSuite k want now : triple wf (ForgetSuite k want now) (λ _, wf).
Proof.
  intros d r d' Hwf Hrun. unfold ForgetSuite in Hrun. minv.
  assert (wf st) by by eapply wf_deleteSuiteTx.
  destruct (bool_decide (rv = suiteDeleted)); minv; [|done].
  destruct (length _ =? 0)%nat; minv; [|done].
  apply wf_upd_seen. by eapply wf_deleteBaseAnchorsTx.
Qed.

(** A rewrite of suite rows that leaves pointer and generation alone. *)
Lemma wf_suite_update P f d :
  wf d → (∀ x, sf_current (f x) = sf_current x ∧ sf_generation (f x) = sf_generation x) →
  wf (upd_suite (update_where P f) d).
Proof.
  intros Hwf Hf. apply wf_upd_suite; [done|]. intros k. rewrite lookup_update_where.
  destruct (suite_t d !! k) as [x|]; [|done]. simpl. destruct (P k x); [|done].
  by destruct (Hf x) as [-> ->].
Qed.

Lemma wf_updateSuiteFreshness k c s e l ch n :
  triple wf (updateSuiteFreshness k c s e l ch n) (λ _, wf).
Proof.
  intros d r d' Hwf Hrun. unfold updateSuiteFreshness in Hrun. minv. by apply wf_suite_update.
Qed.

Lemma wf_restampSuiteTx s : triple wf (restampSuiteTx s) (λ _, wf).
Proof. intros d r d' Hwf Hrun. unfold restampSuiteTx in Hrun. minv. by apply wf_suite_update. Qed.

Lemma wf_RecordAdoptionFailure k a : triple wf (RecordAdoptionFailure k a) (λ _, wf).
Proof.
  intros d r d' Hwf Hrun. unfold RecordAdoptionFailure in Hrun. minv. by apply wf_suite_update.
Qed.

Lemma wf_ClearAdoptionFailure k : triple wf (ClearAdoptionFailure k) (λ _, wf).
Proof.
  intros d r d' Hwf Hrun. unfold ClearAdoptionFailure in Hrun. minv. by apply wf_suite_update.
Qed.

Lemma wf_SetAdoptionNextRetry k n : triple wf (SetAdoptionNextRetry k n) (λ _, wf).
Proof.
  intros d r d' Hwf Hrun. unfold SetAdoptionNextRetry in Hrun. minv. by apply wf_suite_update.
Qed.

Lemma wf_reschedule now offset n keys : triple wf (reschedule now offset n keys) (λ _, wf).
Proof.
  revert n. induction keys as [|k keys IH]; intros n; [apply triple_ret|].
  apply (triple_seq _ wf); [|intros _; apply IH].
  intros d r d' Hwf Hrun. minv. by apply wf_suite_update.
Qed.

Lemma wf_RescheduleFailingAdoptions `{TableScan} now offset :
  triple wf (RescheduleFailingAdoptions now offset) (λ _, wf).
Proof.
  intros d r d' Hwf Hrun. unfold RescheduleFailingAdoptions in Hrun. minv.
  by eapply wf_reschedule.
Qed.

Lemma wf_touch_suite k now : triple wf (touch_suite k now) (λ _, wf).
Proof. intros d r d' Hwf Hrun. unfold touch_suite in Hrun. minv. by apply wf_suite_update. Qed.

Lemma wf_PutURLPath k u : triple wf (PutURLPath k u) (λ _, wf).
Proof. unfold PutURLPath. auto with wf. Qed.

Lemma wf_storeFetchedTx `{HTTPTime} m caps held now :
  triple wf (storeFetchedTx m caps held now) (λ _, wf).
Proof.
  pose proof wf_PutURLPath. pose proof wf_restampSuiteTx. pose proof wf_createSuiteTx.
  unfold storeFetchedTx, checkMetadataGenerationTx, store_representation. mkeep.
Qed.

Lemma wf_PutRepresentation `{HTTPTime} k h l now :
  triple wf (PutRepresentation k h l now) (λ _, wf).
Proof.
  intros d r d' Hwf Hrun. unfold PutRepresentation in Hrun. minv.
  by eapply wf_putRepresentation.
Qed.

Lemma wf_deleteOrphanMarkers keys cutoff : triple wf (deleteOrphanMarkers keys cutoff) (λ _, wf).
Proof.
  apply triple_count_inv. intros k d r d' Hwf Hrun. unfold delete_orphan in Hrun. minv.
  destruct (seen_t d !! k); minv; [|done]. destruct (orphan_marker _ _ _ _); minv; [|done].
  by apply wf_upd_seen.
Qed.

(** The audit's quarantine: the pointer of a current snapshot is cleared and
    its counts dropped. *)
Lemma wf_quarantineSnapshotTx id now : triple wf (quarantineSnapshotTx id now) (λ _, wf).
Proof.
  intros d r d' Hwf Hrun. unfold quarantineSnapshotTx in Hrun. minv.
  set (P := λ i s, (i =? id) && bool_decide (ss_retired s = None)).
  set (su := update_where (λ _ f, bool_decide (sf_current f = Some id)) unpoint (suite_t d)) in *.
  set (cur := if is_current d id then Some id else None).
  set (dropped := drop_current cur now d).
  assert (∀ k f, su !! k = Some f → ∃ f0, suite_t d !! k = Some f0 ∧
            f = if bool_decide (sf_current f0 = Some id) then unpoint f0 else f0) as Hsu.
  { intros k f. apply lookup_update_where_Some. }
  assert (upd_snap (update_where P (set_retired now)) st =
    upd_suite (λ _, su) (upd_snap (update_where P (set_retired now))
      (upd_blob (λ _, blob_t dropped) d))) as ->.
  { unfold dropped, cur, decrementSnapshotRefcountsTx in *. destruct (is_current d id); by minv. }
  apply (wf_retire P); [done|intros h; apply drop_current_dom| |].
  - intros k f (f0 & Hf0 & ->)%Hsu. exists f0. split; [done|].
    case_bool_decide; (split; [done|]); [done|]. intros i Hi. split; [done|].
    intros s Hs. unfold P. destruct (Z.eqb_spec i id) as [->|]; [congruence|done].
  - intros h b Hb. destruct (drop_current_blob _ _ _ _ _ Hb) as (b0 & Hb0 & Hrc & Hclk).
    destruct (wf_blobs d Hwf h b0 Hb0) as [Hc Hle]. split; [by apply Hclk|].
    change (b_refcount b <= count_where (λ _ x, uses_blob d h x) su).
    unfold cur in Hrc. destruct (is_current d id) eqn:Ecur.
    + apply is_current_true in Ecur as (k & f & Hk & Hf).
      assert (su = <[k := unpoint f]> (suite_t d)) as ->.
      { apply map_eq. intros k'. unfold su. rewrite lookup_update_where.
        destruct (decide (k = k')) as [<-|Hne].
        - rewrite lookup_insert_eq, Hk. simpl. by rewrite bool_decide_true.
        - rewrite lookup_insert_ne by done. destruct (suite_t d !! k') as [f'|] eqn:Hk'; [|done].
          simpl. rewrite bool_decide_false; [done|]. intros Hf'.
          by destruct Hne; eapply eq_sym, current_row_suite. }
      rewrite (count_where_insert _ (suite_t d) k f) by done.
      change (count_where _ (suite_t d)) with (live_refs d h).
      unfold uses_blob at 1. rewrite Hf. simpl. lia.
    + assert (su = suite_t d) as ->; [|unfold live_refs in Hle; simpl in Hrc; lia].
      apply map_eq. intros k'. unfold su. rewrite lookup_update_where.
      destruct (suite_t d !! k') as [f'|] eqn:Hk'; [|done]. simpl.
      rewrite bool_decide_false; [done|]. by eapply is_current_false.
Qed.

Lemma wf_dropAnchorBlobRowsTx `{TableScan} id now :
  triple wf (dropAnchorBlobRowsTx id now) (λ _, wf).
Proof. unfold dropAnchorBlobRowsTx. mkeep. Qed.

Lemma wf_markSnapshotBaseTx id : triple wf (markSnapshotBaseTx id) (λ _, wf).
Proof. unfold markSnapshotBaseTx. mkeep. Qed.

#[local] Hint Resolve wf_quarantineSnapshotTx wf_dropAnchorBlobRowsTx wf_markSnapshotBaseTx : wf.

Lemma wf_audit_decision `{TableScan} now x : triple wf (audit_decision now x) (λ _, wf).
Proof.
  unfold audit_decision. mkeep. intros d u d' Hwf Hrun. unfold mmodify in Hrun. simplify_eq.
  by apply wf_upd_audit.
Qed.

Lemma wf_ApplyLegacyAuditDecisions `{TableScan} now l :
  triple wf (ApplyLegacyAuditDecisions now l) (λ _, wf).
Proof. apply triple_for_inv. intros x. apply wf_audit_decision. Qed.

Lemma wf_EnqueueLegacyTrustAudit ids : triple wf (EnqueueLegacyTrustAudit ids) (λ _, wf).
Proof.
  apply triple_for_inv. intros id d r d' Hwf Hrun. minv. by apply wf_upd_audit.
Qed.
End suite_laws.

#[export] Hint Resolve wf_deleteSuiteTx wf_createSuiteTx wf_ReapIdleSuite wf_ForgetSuite
  wf_deleteURLPathRows wf_updateSuiteFreshness wf_restampSuiteTx wf_RecordAdoptionFailure
  wf_ClearAdoptionFailure wf_SetAdoptionNextRetry wf_RescheduleFailingAdoptions wf_touch_suite
  wf_PutURLPath wf_storeFetchedTx wf_PutRepresentation wf_deleteOrphanMarkers
  wf_ApplyLegacyAuditDecisions wf_EnqueueLegacyTrustAudit : wf.
