(* ===== verification/GC.v ===== *)
(** * Garbage collection of blobs and snapshots ([internal/cache/gc.go],
    [queries.go], [representation.go])

    One batch of each collector as a transaction, and the blob rows' upserts
    and heartbeats that the collectors race with. *)
From S2P Require Import Prelude GoStrings AptPath Tables Invariant.
Local Open Scope Z_scope.

(** ** Blob rows *)

Definition PutBlob (h : string) (size now : Z) : T unit :=
  _ ← massert (validBlobHash h) ErrInvalidHash;
  mmodify (upd_blob (λ m, <[h :=
    match m !! h with
    | None => {| b_size := size; b_created_at := now; b_refcount := 0; b_zeroed_at := Some now |}
    | Some b => if b_refcount b <=? 0
                then {| b_size := b_size b; b_created_at := b_created_at b;
                        b_refcount := b_refcount b; b_zeroed_at := Some now |}
                else b
    end]> m)).

Definition GetBlob (d : DB) (h : string) : result cache_error Blob :=
  if negb (validBlobHash h) then Err ErrInvalidHash
  else match blob_t d !! h with Some b => Ok b | None => Err ErrNotFound end.

Definition HashKnown (d : DB) (h : string) : result cache_error bool :=
  if negb (validBlobHash h) then Err ErrInvalidHash
  else Ok (bool_decide (is_Some (blob_t d !! h))).

Definition touch_zeroed (now : Z) (b : Blob) : Blob :=
  {| b_size := b_size b; b_created_at := b_created_at b; b_refcount := b_refcount b;
     b_zeroed_at := Some now |}.

Definition HeartbeatBlobs (hashes : list string) (now : Z) : T unit :=
  if (length hashes =? 0)%nat then mret tt
  else
    let valid := List.filter validBlobHash hashes in
    if (length valid =? 0)%nat then mret tt
    else mmodify (upd_blob (update_where
           (λ h b, (b_refcount b <=? 0) && bool_decide (h ∈ valid)) (touch_zeroed now))).

(** ** The blob collector *)

(** The WHERE clause of [RunBlobGCBatch]'s SELECT and DELETE. *)
Definition reapable (d : DB) (cutoff : Z) (h : string) (b : Blob) : bool :=
  (b_refcount b <=? 0)
  && match b_zeroed_at b with Some t => t <? cutoff | None => false end
  && negb (exists_where (λ _ u, bool_decide (up_blob u = Some h)) (url_t d))
  && negb (exists_where (λ _ m, String.eqb (m_blob m) h) (member_t d))
  && negb (exists_where (λ _ s, bool_decide (ss_inrelease s = Some h)
                                || bool_decide (ss_release s = Some h)
                                || bool_decide (ss_release_gpg s = Some h)) (snap_t d)).

Definition zeroed_order (a b : string * Blob) : bool :=
  default 0 (b_zeroed_at a.2) <=? default 0 (b_zeroed_at b.2).

(** Representation rows nothing serves any more. *)
Definition rep_used (d : DB) (k : URLKey * string) : bool :=
  bool_decide ((u ← url_t d !! k.1; up_blob u) = Some k.2)
  || exists_where (λ mk m, String.eqb (m_blob m) k.2
       && match snap_t d !! mk.1 with
          | Some s => bool_decide ((key_scheme (ss_suite s), key_host (ss_suite s),
                                    key_path (ss_suite s) +:+ "/" +:+ mk.2) = k.1)
          | None => false
          end) (member_t d).

Definition observed_order (a b : (URLKey * string) * Representation) : bool :=
  rep_observed a.2 <=? rep_observed b.2.

Definition pruneRepresentationMetadataTx `{TableScan} (now limit : Z) : T unit :=
  d ← mget;
  let dead := selected observed_order
    (λ e, (rep_observed e.2 <? now - 24 * 60 * 60) && negb (rep_used d e.1)) limit (rep_t d) in
  mmodify (upd_rep (delete_where (λ k _, bool_decide (k ∈ dead)))).

Definition RunBlobGCBatch `{TableScan} (batchSize graceSeconds now : Z)
    : T (list (string * Z)) :=
  _ ← massert (negb (batchSize <? 1)) ErrBadArgument;
  let cutoff := now - graceSeconds in
  _ ← pruneRepresentationMetadataTx now batchSize;
  d ← mget;
  let hashes := selected zeroed_order (λ e, reapable d cutoff e.1 e.2) batchSize (blob_t d) in
  if (length hashes =? 0)%nat then mret []
  else
    let dead := List.filter (λ e, bool_decide (e.1 ∈ hashes) && reapable d cutoff e.1 e.2)
                  (scan (blob_t d)) in
    _ ← blob_delete (map fst dead);
    mret (map (λ e, (e.1, b_size e.2)) dead).

(** ** The snapshot collector *)

Inductive ReapClass := Orphan | Displaced.

#[export] Instance ReapClass_eq_dec : EqDecision ReapClass.
Proof. solve_decision. Defined.

Definition is_orphan (d : DB) (cutoff : Z) (id : Z) (s : SuiteSnapshot) : bool :=
  bool_decide (ss_adopted s = None)
  && match ss_heartbeat s with Some t => t <? cutoff | None => false end
  && negb (is_current d id).

(** A displaced snapshot the collector ranks. *)
Definition ranked (d : DB) (id : Z) (s : SuiteSnapshot) : bool :=
  bool_decide (is_Some (ss_adopted s)) && bool_decide (ss_retired s = None)
  && negb (is_current d id) && bool_decide (id ∉ audit_t d).

(** [PARTITION BY suite ORDER BY adopted_at DESC, snapshot_id DESC] *)
Definition newer_adoption (a b : Z * SuiteSnapshot) : bool :=
  let x := default 0 (ss_adopted a.2) in
  let y := default 0 (ss_adopted b.2) in
  if x =? y then b.1 <=? a.1 else y <? x.

Definition partition_rows (d : DB) (k : SuiteKey) : list (Z * SuiteSnapshot) :=
  sort_by newer_adoption
    (List.filter (λ e, ranked d e.1 e.2 && bool_decide (ss_suite e.2 = k))
       (map_to_list (snap_t d))).

(** [rn > keep]: not among the first [keep] of its partition. *)
Definition is_displaced (d : DB) (keep : Z) (id : Z) (s : SuiteSnapshot) : bool :=
  ranked d id s
  && negb (bool_decide (id ∈ map fst (take (Z.to_nat keep) (partition_rows d (ss_suite s))))).

Definition snapshot_candidates `{TableScan} (d : DB) (cutoff keep : Z) : list (Z * ReapClass) :=
  map (λ e, (e.1, Orphan)) (List.filter (λ e, is_orphan d cutoff e.1 e.2) (scan (snap_t d)))
  ++ map (λ e, (e.1, Displaced))
       (List.filter (λ e, is_displaced d keep e.1 e.2) (scan (snap_t d))).

Definition cascade_delete (ids : list Z) : T unit :=
  _ ← mmodify (upd_member (delete_where (λ k _, bool_decide (k.1 ∈ ids))));
  _ ← mmodify (upd_skip (delete_where (λ k _, bool_decide (k.1 ∈ ids))));
  _ ← mmodify (upd_pkg (delete_where (λ k _, bool_decide (k.2 ∈ ids))));
  snap_delete ids.

Definition RunSnapshotGCBatch `{TableScan} (batchSize staleGrace keepDisplaced now : Z)
    : T (Z * Z) :=
  _ ← massert (negb (batchSize <? 1)) ErrBadArgument;
  _ ← massert (negb (keepDisplaced <? 0)) ErrBadArgument;
  let cutoff := now - staleGrace in
  d ← mget;
  let rows := sql_limit batchSize (snapshot_candidates d cutoff keepDisplaced) in
  if (length rows =? 0)%nat then mret (0, 0)
  else
    _ ← cascade_delete (map fst rows);
    mret (Z.of_nat (length (List.filter (λ r, bool_decide (r.2 = Orphan)) rows)),
          Z.of_nat (length (List.filter (λ r, bool_decide (r.2 = Displaced)) rows))).

(** ** Retired snapshots, a chunk at a time *)

Definition retiredChunkRows : Z := 10000.

Definition effectiveChunkRows (maxRows : Z) : Z :=
  if maxRows <=? 0 then retiredChunkRows else maxRows.

(** The smallest retired snapshot that no suite points at. *)
Definition min_id (l : list Z) : option Z :=
  foldr (λ x acc, match acc with Some y => Some (Z.min x y) | None => Some x end) None l.

Definition retired_target (d : DB) : option Z :=
  min_id (map fst (List.filter (λ e : Z * SuiteSnapshot,
      bool_decide (is_Some (ss_retired e.2)) && negb (is_current d e.1))
    (map_to_list (snap_t d)))).

(** [DELETE ... WHERE rowid IN (SELECT rowid ... LIMIT left)] on one table:
    the rows it removes. *)
Definition chunk_keys `{TableScan} `{Countable K} {A} (P : K → bool) (left : Z) (m : gmap K A)
    : list K :=
  map fst (sql_limit left (List.filter (λ e, P e.1) (scan m))).

Definition delete_keys `{Countable K} {A} (l : list K) (m : gmap K A) : gmap K A :=
  delete_where (λ k _, bool_decide (k ∈ l)) m.

(** The loop over the three child tables: stops as soon as nothing is left
    of the budget. *)
Definition retired_children `{TableScan} (id maxRows : Z) : T Z :=
  d ← mget;
  let ms := chunk_keys (λ k : Z * string, k.1 =? id) maxRows (member_t d) in
  _ ← mmodify (upd_member (delete_keys ms));
  let left := maxRows - Z.of_nat (length ms) in
  if left =? 0 then mret left
  else
    let ss := chunk_keys (λ k : Z * string, k.1 =? id) left (skip_t d) in
    _ ← mmodify (upd_skip (delete_keys ss));
    let left := left - Z.of_nat (length ss) in
    if left =? 0 then mret left
    else
      let ps := chunk_keys (λ k : URLKey * Z, k.2 =? id) left (pkg_t d) in
      _ ← mmodify (upd_pkg (delete_keys ps));
      mret (left - Z.of_nat (length ps)).

Definition RunRetiredSnapshotGCChunk `{TableScan} (maxRows : Z) : T (Z * bool) :=
  let maxRows := effectiveChunkRows maxRows in
  d ← mget;
  match retired_target d with
  | None => mret (0, false)
  | Some id =>
      left ← retired_children id maxRows;
      if 0 <? left then
        d ← mget;
        _ ← massert (bool_decide (is_Some (s ← snap_t d !! id; ss_retired s)))
              ErrSnapshotNotFound;
        _ ← snap_delete [id];
        mret (1, true)
      else mret (0, true)
  end.

(** ** Deletions keep the invariant *)

Section deletions.

Lemma wf_delete_members P d :
  wf d → (∀ k m, member_t d !! k = Some m → P k m = true → is_current d k.1 = false) →
  wf (upd_member (delete_where P) d).
Proof.
  intros [[H1 H2 H3 H4 H5 H6] Hs Hc Hb Hg] HP. split; [split| | | |]; try done; simpl.
  - intros k m [Hk _]%lookup_delete_where_Some. eauto.
  - intros h b Hh. destruct (Hb h b Hh) as [? Hle]. split; [done|].
    etrans; [exact Hle|]. apply count_where_mono. intros k f Hk.
    unfold uses_blob. destruct (sf_current f) as [i|] eqn:Ef; [|done].
    rewrite !snap_has_blob_true. intros (q & m & Hq & <-). exists q, m. split; [|done].
    simpl. apply lookup_delete_where_Some. split; [done|].
    destruct (P (i, q) m) eqn:EP; [|done]. specialize (HP _ _ Hq EP). simpl in HP.
    rewrite is_current_false in HP. by destruct (HP k f Hk).
Qed.

Lemma wf_delete_skips P d : wf d → wf (upd_skip (delete_where P) d).
Proof.
  intros Hwf. apply wf_upd_skip; [done|]. intros k s [Hk _]%lookup_delete_where_Some.
  eapply (fk_skip d (wf_fk d Hwf)); eauto.
Qed.

Lemma wf_delete_pkgs P d : wf d → wf (upd_pkg (delete_where P) d).
Proof.
  intros Hwf. apply wf_upd_pkg; [done|]. intros k s [Hk _]%lookup_delete_where_Some.
  eapply (fk_pkg d (wf_fk d Hwf)); eauto.
Qed.

Lemma wf_delete_reps P d : wf d → wf (upd_rep (delete_where P) d).
Proof.
  intros Hwf. apply wf_upd_rep; [done|]. intros k s [Hk _]%lookup_delete_where_Some.
  eapply (fk_rep d (wf_fk d Hwf)); eauto.
Qed.

Lemma snap_pinned_false d id :
  snap_pinned d id = false →
  (∀ k m, member_t d !! k = Some m → k.1 ≠ id) ∧ (∀ k m, skip_t d !! k = Some m → k.1 ≠ id) ∧
  (∀ k m, pkg_t d !! k = Some m → k.2 ≠ id) ∧ is_current d id = false.
Proof.
  unfold snap_pinned. intros [[[H1 H2]%orb_false_iff H3]%orb_false_iff H4]%orb_false_iff.
  rewrite exists_where_false in H1. rewrite exists_where_false in H2.
  rewrite exists_where_false in H3.
  split_and!; [intros k m Hk; specialize (H1 k m Hk)|intros k m Hk; specialize (H2 k m Hk)|
    intros k m Hk; specialize (H3 k m Hk)|done]; by apply Z.eqb_neq.
Qed.

Lemma snap_pinned_intro d id :
  (∀ k m, member_t d !! k = Some m → k.1 ≠ id) → (∀ k m, skip_t d !! k = Some m → k.1 ≠ id) →
  (∀ k m, pkg_t d !! k = Some m → k.2 ≠ id) → is_current d id = false →
  snap_pinned d id = false.
Proof.
  intros H1 H2 H3 H4. unfold snap_pinned. rewrite !orb_false_iff, !exists_where_false.
  rewrite is_current_false in H4.
  split_and!; intros k m Hk; [apply Z.eqb_neq; by eapply H1|apply Z.eqb_neq; by eapply H2|
    apply Z.eqb_neq; by eapply H3|apply bool_decide_eq_false; by eapply H4].
Qed.

Lemma wf_snap_delete dead : triple wf (snap_delete dead) (λ _, wf).
Proof.
  intros d u d' Hwf Hrun. unfold snap_delete in Hrun. minv.
  assert (∀ id, id ∈ dead → snap_pinned d id = false) as Hd.
  { intros id Hin%list_elem_of_In. rewrite forallb_forall in Hrun0.
    by apply negb_true_iff, Hrun0. }
  assert (∀ id, is_Some (snap_t d !! id) → snap_pinned d id = true →
    is_Some (delete_where (λ id _, bool_decide (id ∈ dead)) (snap_t d) !! id)) as Hkeep.
  { intros id [s Hs] Hp. exists s. apply lookup_delete_where_Some. split; [done|].
    apply bool_decide_eq_false. intros Hin. by rewrite Hd in Hp. }
  assert (∀ id, snap_pinned d id = true ∨ snap_pinned d id = false) as Hdec.
  { intros id. destruct (snap_pinned d id); auto. }
  destruct Hwf as [[H1 H2 H3 H4 H5 H6] [Hs0 Hs] Hc Hb Hg].
  split; [split|split|..]; simpl; try done.
  - intros k m Hk. destruct (H2 k m Hk). split; [|done]. apply Hkeep; [done|].
    destruct (Hdec k.1) as [|(Hx&_)%snap_pinned_false]; [done|]. by destruct (Hx k m Hk).
  - intros k m Hk. apply Hkeep; [eauto|].
    destruct (Hdec k.1) as [|(_&Hx&_)%snap_pinned_false]; [done|]. by destruct (Hx k m Hk).
  - intros k m Hk. apply Hkeep; [eauto|].
    destruct (Hdec k.2) as [|(_&_&Hx&_)%snap_pinned_false]; [done|]. by destruct (Hx k m Hk).
  - intros i x h [Hi _]%lookup_delete_where_Some Hh. eauto.
  - intros i x [Hi _]%lookup_delete_where_Some. eauto.
  - intros k f i Hk Hf. destruct (Hc k f i Hk Hf) as (s & Hs' & ?). exists s. split; [|done].
    apply lookup_delete_where_Some. split; [done|]. apply bool_decide_eq_false. intros Hin.
    destruct (snap_pinned_false _ _ (Hd i Hin)) as (_&_&_&Hn).
    rewrite is_current_false in Hn. by destruct (Hn k f Hk).
Qed.

Lemma blob_pinned_false d h :
  blob_pinned d h = false ↔
  (∀ k u, url_t d !! k = Some u → up_blob u ≠ Some h) ∧
  (∀ k m, member_t d !! k = Some m → m_blob m ≠ h) ∧
  (∀ id s, snap_t d !! id = Some s →
     ss_inrelease s ≠ Some h ∧ ss_release s ≠ Some h ∧ ss_release_gpg s ≠ Some h).
Proof.
  unfold blob_pinned. rewrite !orb_false_iff, !exists_where_false.
  setoid_rewrite orb_false_iff. setoid_rewrite orb_false_iff.
  setoid_rewrite bool_decide_eq_false. setoid_rewrite String.eqb_neq.
  split; [intros [[? ?] Hs]|intros (? & ? & Hs)]; split_and!; try done;
    intros id s Hid; destruct (Hs id s Hid) as [? ?]; tauto.
Qed.

Lemma wf_blob_delete dead : triple wf (blob_delete dead) (λ _, wf).
Proof.
  intros d u d' Hwf Hrun. unfold blob_delete in Hrun. minv.
  assert (∀ h, h ∈ dead → blob_pinned d h = false) as Hd.
  { intros h Hin%list_elem_of_In. rewrite forallb_forall in Hrun0.
    by apply negb_true_iff, Hrun0. }
  assert (∀ h, is_Some (blob_t d !! h) → h ∉ dead →
    is_Some (delete_where (λ h _, bool_decide (h ∈ dead)) (blob_t d) !! h)) as Hkeep.
  { intros h [b Hb] Hp. exists b. apply lookup_delete_where_Some. split; [done|].
    by apply bool_decide_eq_false. }
  destruct Hwf as [[H1 H2 H3 H4 H5 H6] Hs Hc Hb Hg].
  split; [split|..]; simpl; try done.
  - intros k x h Hk Hx. apply Hkeep; [eauto|]. intros Hin.
    apply Hd, blob_pinned_false in Hin as (Hn & _). by destruct (Hn k x Hk).
  - intros k m Hk. destruct (H2 k m Hk). split; [done|]. apply Hkeep; [done|]. intros Hin.
    apply Hd, blob_pinned_false in Hin as (_ & Hn & _). by destruct (Hn k m Hk).
  - intros id s h Hid Hh. apply Hkeep; [eauto|]. intros Hin.
    apply Hd, blob_pinned_false in Hin as (_ & _ & Hn).
    destruct (Hn id s Hid) as (?&?&?). by destruct Hh as [?|[?|?]].
  - intros k r [Hk Hin]%lookup_delete_where_Some. apply Hkeep; [eauto|].
    by apply bool_decide_eq_false in Hin.
  - intros h b [Hh _]%lookup_delete_where_Some. by apply Hb.
Qed.
End deletions.

#[export] Hint Resolve wf_snap_delete wf_blob_delete : wf.

(** ** What a batch selects *)

Section batches.
Context {A : Type}.
Implicit Types (f : A → A → bool) (l : list A).

Lemma sql_limit_nonneg n l : 0 <= n → sql_limit n l = take (Z.to_nat n) l.
Proof. intros Hn. unfold sql_limit. by destruct (Z.ltb_spec n 0); [lia|]. Qed.

(** What an ordered LIMIT leaves out comes after everything it takes. *)
Lemma sort_by_take f n l x y :
  (∀ a b, f a b = true ∨ f b a = true) →
  (∀ a b c, f a b = true → f b c = true → f a c = true) →
  x ∈ take n (sort_by f l) → y ∈ l → y ∉ take n (sort_by f l) → f x y = true.
Proof.
  intros Ht Htr Hx Hy Hny.
  assert (StronglySorted (λ a b, f a b = true) (sort_by f l)) as Hs.
  { apply Sorted_StronglySorted; [exact Htr|]. by apply sort_by_sorted. }
  rewrite <-(take_drop n (sort_by f l)) in Hs.
  assert (y ∈ drop n (sort_by f l)) as Hyd.
  { rewrite <-(elem_of_sort_by f), <-(take_drop n (sort_by f l)) in Hy.
    by apply elem_of_app in Hy as [?|?]. }
  revert Hs Hx Hyd. generalize (take n (sort_by f l)) (drop n (sort_by f l)). clear.
  intros l1 l2. induction l1 as [|z l1 IH]; intros Hs Hx Hy; [by apply elem_of_nil in Hx|].
  apply StronglySorted_cons in Hs as [Hz Hs].
  apply elem_of_cons in Hx as [->|Hx]; [|by apply IH].
  rewrite Forall_forall in Hz. apply Hz. apply elem_of_app. by right.
Qed.
End batches.

Section select.
Context `{TableScan} `{Countable K} {A : Type}.
Implicit Types (P : K * A → bool) (m : gmap K A) (f : K * A → K * A → bool).

Lemma elem_of_scan_filter P m k v :
  (k, v) ∈ List.filter P (scan m) ↔ m !! k = Some v ∧ P (k, v) = true.
Proof.
  rewrite list_elem_of_In, filter_In, <-list_elem_of_In. by rewrite elem_of_scan.
Qed.

Lemma NoDup_fst_scan_filter P m : NoDup (map fst (List.filter P (scan m))).
Proof.
  rewrite (Permutation_filter_fun P _ _ (scan_perm m)).
  assert (∀ l : list (K * A), NoDup (l.*1) → NoDup (map fst (List.filter P l))) as Hn.
  { induction l as [|[k v] l IH]; simpl; intros Hn; [constructor|].
    apply NoDup_cons in Hn as [Hk Hn]. destruct (P (k, v)); [|by apply IH].
    simpl. apply NoDup_cons. split; [|by apply IH].
    intros ([k' v'] & -> & Hin)%list_elem_of_fmap_1. apply Hk.
    apply list_elem_of_In, filter_In in Hin as [Hin _].
    apply (list_elem_of_fmap_2 fst l (k', v')). by apply list_elem_of_In. }
  apply Hn, NoDup_fst_map_to_list.
Qed.

Lemma selected_nodup f P n m : 0 <= n → NoDup (selected f P n m).
Proof.
  intros Hn. unfold selected. rewrite sql_limit_nonneg by done.
  apply (sublist_NoDup _ (map fst (sort_by f (List.filter P (scan m))))).
  - rewrite (Permutation_map fst (sort_by_perm f _)). apply NoDup_fst_scan_filter.
  - apply (fmap_sublist fst), sublist_take.
Qed.

Lemma selected_length f P n m : 0 <= n → Z.of_nat (length (selected f P n m)) <= n.
Proof.
  intros Hn. unfold selected. rewrite sql_limit_nonneg, length_map, length_take by done. lia.
Qed.

Lemma selected_elem f P n m k :
  k ∈ selected f P n m → ∃ v, m !! k = Some v ∧ P (k, v) = true.
Proof.
  intros ([k' v] & -> & Hin)%list_elem_of_fmap_1. exists v. simpl.
  apply elem_of_scan_filter. apply (elem_of_sort_by f).
  unfold sql_limit in Hin. destruct (_ <? _); [done|].
  apply list_elem_of_lookup_1 in Hin as (i & Hi). apply lookup_take_Some in Hi as [Hi _].
  by eapply list_elem_of_lookup_2.
Qed.

(** A batch that is not full has taken everything. *)
Lemma selected_all f P n m k v :
  0 <= n → Z.of_nat (length (selected f P n m)) < n →
  m !! k = Some v → P (k, v) = true → k ∈ selected f P n m.
Proof.
  intros Hn Hlen Hk HP. unfold selected in *. rewrite sql_limit_nonneg in * by done.
  rewrite length_map, length_take in Hlen. rewrite take_ge by lia.
  apply (list_elem_of_fmap_2 fst _ (k, v)). apply elem_of_sort_by.
  by apply elem_of_scan_filter.
Qed.

Lemma selected_first f P n m k v k' v' :
  (∀ a b, f a b = true ∨ f b a = true) →
  (∀ a b c, f a b = true → f b c = true → f a c = true) →
  0 <= n → k ∈ selected f P n m → m !! k = Some v → m !! k' = Some v' → P (k', v') = true →
  k' ∉ selected f P n m → f (k, v) (k', v') = true.
Proof.
  intros Ht Htr Hn Hin Hk Hk' HP Hnin. unfold selected in *.
  rewrite sql_limit_nonneg in * by done.
  apply list_elem_of_fmap_1 in Hin as ([k2 v2] & E & Hin). simpl in E. subst k2.
  assert (m !! k = Some v2) as E.
  { assert ((k, v2) ∈ List.filter P (scan m)) as Hf%elem_of_scan_filter; [|tauto].
    apply (elem_of_sort_by f). apply list_elem_of_lookup_1 in Hin as (i & Hi).
    apply lookup_take_Some in Hi as [Hi _]. by eapply list_elem_of_lookup_2. }
  rewrite Hk in E. simplify_eq. eapply sort_by_take; [done|done|exact Hin|..].
  - by apply elem_of_scan_filter.
  - intros Hx. apply Hnin. by apply (list_elem_of_fmap_2 fst _ (k', v')).
Qed.
End select.

(** ** Blob rows: laws *)

Lemma wf_PutBlob h size now : triple wf (PutBlob h size now) (λ _, wf).
Proof.
  intros d u d' Hwf Hrun. unfold PutBlob in Hrun. minv. apply wf_upd_blob; [done|..].
  - intros h' [b Hb]. destruct (decide (h = h')) as [<-|].
    + rewrite lookup_insert_eq. by eexists.
    + rewrite lookup_insert_ne by done. by eexists.
  - intros h' b [[<- <-]|[_ Hb]]%lookup_insert_Some; [|by apply wf_blobs].
    pose proof (live_refs_nonneg d h) as Hpos.
    destruct (blob_t d !! h) as [b0|] eqn:E; [|cbn; split; [done|lia]].
    destruct (wf_blobs d Hwf h b0 E) as [Hc Hle].
    destruct (Z.leb_spec (b_refcount b0) 0) as [Hz|Hz]; [|done].
    split; [|done]. by split.
Qed.

Lemma wf_HeartbeatBlobs l now : triple wf (HeartbeatBlobs l now) (λ _, wf).
Proof.
  unfold HeartbeatBlobs. mkeep. intros d u d' Hwf Hrun. minv.
  apply wf_upd_blob; [done|..].
  - intros h. by rewrite lookup_update_where_is_Some.
  - intros h b (b0 & Hb0 & ->)%lookup_update_where_Some.
    destruct (wf_blobs d Hwf h b0 Hb0) as [Hc Hle].
    destruct (Z.leb_spec (b_refcount b0) 0) as [Hz|Hz]; [|done].
    destruct (bool_decide _); [|done]. split; [|done]. by split.
Qed.

Lemma reapable_true d cutoff h b :
  reapable d cutoff h b = true ↔
  b_refcount b <= 0 ∧ (∃ t, b_zeroed_at b = Some t ∧ t < cutoff) ∧ blob_pinned d h = false.
Proof.
  unfold reapable, blob_pinned. rewrite !andb_true_iff, !negb_true_iff, !orb_false_iff, Z.leb_le.
  destruct (b_zeroed_at b) as [t|].
  - rewrite Z.ltb_lt. split; [intros [[[[? ?] ?] ?] ?]|intros (? & (x & Hx & ?) & [? ?] & ?)].
    + split_and!; try done. exists t. split; done.
    + simplify_eq. by repeat split.
  - split; [by intros [[[[? ?] ?] ?] ?]|]. by intros (? & (x & ? & ?) & ?).
Qed.

Lemma prune_run `{TableScan} now n d :
  ∃ f, pruneRepresentationMetadataTx now n d = Ok (tt, upd_rep (delete_where f) d).
Proof. eexists. unfold pruneRepresentationMetadataTx, mbind, M_bind, mget, mmodify. reflexivity. Qed.

(** A row that is deleted and a row that is returned are the same rows. *)
Lemma RunBlobGCBatch_run `{TableScan} n g now d :
  1 <= n →
  ∃ f, let sel := selected zeroed_order (λ e, reapable d (now - g) e.1 e.2) n (blob_t d) in
    let dead := List.filter (λ e, bool_decide (e.1 ∈ sel) && reapable d (now - g) e.1 e.2)
                  (scan (blob_t d)) in
    RunBlobGCBatch n g now d =
      Ok (map (λ e, (e.1, b_size e.2)) dead,
          upd_rep (delete_where f) (upd_blob (delete_where (λ h _, bool_decide (h ∈ map fst dead))) d)).
Proof.
  intros Hn. destruct (prune_run now n d) as [f Hf]. cbv zeta.
  set (sel := selected _ _ _ _). set (dead := List.filter _ _).
  assert (length sel = 0%nat → dead = []) as Hnil.
  { intros Hl. apply nil_length_inv in Hl. unfold dead. rewrite Hl.
    clear. induction (scan (blob_t d)) as [|e l IH]; [done|]. simpl.
    exact IH. }
  exists (λ k r, f k r || bool_decide (k.2 ∈ map fst dead)).
  unfold RunBlobGCBatch. apply mbind_ok. exists tt, d.
  split; [apply massert_ok; split; [by destruct (Z.ltb_spec n 1); [lia|]|done]|].
  cbv beta zeta. apply mbind_ok. exists tt. eexists. split; [exact Hf|].
  apply mbind_ok. eexists. eexists. split; [reflexivity|]. cbv beta zeta.
  change (blob_t (upd_rep (delete_where f) d)) with (blob_t d).
  change (reapable (upd_rep (delete_where f) d)) with (reapable d). fold sel. fold dead.
  assert (∀ m : gmap (URLKey * string) Representation,
    delete_where (λ k _, bool_decide (k.2 ∈ map fst dead)) (delete_where f m) =
    delete_where (λ k r, f k r || bool_decide (k.2 ∈ map fst dead)) m) as Hcomp.
  { intros m. apply map_eq. intros k. rewrite !lookup_delete_where.
    destruct (m !! k) as [r|]; [|done]. simpl. by destruct (f k r), (bool_decide _). }
  destruct (Nat.eqb_spec (length sel) 0) as [E|_].
  - rewrite (Hnil E). unfold mret, M_ret, upd_rep, upd_blob. simpl. do 3 f_equal.
    + apply map_eq. intros k. rewrite lookup_delete_where. by destruct (blob_t d !! k).
    + apply map_eq. intros k. rewrite !lookup_delete_where. destruct (rep_t d !! k); [|done].
      simpl. by rewrite orb_false_r.
  - apply mbind_ok. exists tt. eexists. split; [|reflexivity]. unfold blob_delete.
    apply mbind_ok. eexists. eexists. split; [reflexivity|]. apply mbind_ok. exists tt. eexists. split.
    + apply massert_ok. split; [|reflexivity].
      apply forallb_forall. intros h ([h' b] & <- & Hin)%in_map_iff.
      apply filter_In in Hin as [_ Hin]. simpl in *. apply andb_true_iff in Hin as [_ Hr].
      apply reapable_true in Hr as (_ & _ & Hp). apply negb_true_iff. exact Hp.
    + unfold mmodify, upd_rep, upd_blob. simpl. by rewrite Hcomp.
Qed.

Lemma wf_RunBlobGCBatch `{TableScan} n g now : triple wf (RunBlobGCBatch n g now) (λ _, wf).
Proof.
  unfold RunBlobGCBatch, pruneRepresentationMetadataTx. mkeep.
  intros d u d' Hwf Hrun. minv. by apply wf_delete_reps.
Qed.

Lemma elem_of_reaped `{TableScan} n cutoff d h :
  let sel := selected zeroed_order (λ e, reapable d cutoff e.1 e.2) n (blob_t d) in
  let dead := List.filter (λ e, bool_decide (e.1 ∈ sel) && reapable d cutoff e.1 e.2)
                (scan (blob_t d)) in
  (h ∈ map fst dead ↔ h ∈ sel) ∧
  (∀ b, (h, b) ∈ dead → blob_t d !! h = Some b ∧ reapable d cutoff h b = true).
Proof.
  cbv zeta. set (sel := selected _ _ _ _). split; [split|].
  - intros ([h' b] & -> & [_ Hin]%elem_of_scan_filter)%list_elem_of_fmap_1.
    simpl in *. bclean. done.
  - intros Hin. destruct (selected_elem _ _ _ _ _ Hin) as (b & Hb & Hr).
    apply (list_elem_of_fmap_2 fst _ (h, b)), elem_of_scan_filter. split; [done|].
    simpl in *. rewrite Hr. by rewrite bool_decide_true.
  - intros b [Hb Hin]%elem_of_scan_filter. simpl in *. by bclean.
Qed.

(** C18. A batch of the blob collector never fails, never trips a foreign
    key and keeps the database's invariant.  What it deletes and what it
    returns (with sizes, for the pool's unlink) are the same blobs, each once,
    at most [batchSize] of them; every one of them had no count, had been
    zeroed for more than the grace period and was referenced by no URL, member
    or anchor; the longest zeroed go first; a batch that comes back short has
    left no reapable blob behind; every other blob row is untouched. *)
Theorem RunBlobGCBatch_correct `{TableScan} batchSize grace now d :
  wf d → 1 <= batchSize →
  ∃ out d', RunBlobGCBatch batchSize grace now d = Ok (out, d') ∧ wf d' ∧
    NoDup (map fst out) ∧ Z.of_nat (length out) <= batchSize ∧
    (∀ h z, (h, z) ∈ out → ∃ b t, blob_t d !! h = Some b ∧ z = b_size b ∧
       b_refcount b <= 0 ∧ b_zeroed_at b = Some t ∧ t < now - grace ∧
       blob_pinned d h = false) ∧
    (∀ h, blob_t d' !! h = if bool_decide (h ∈ map fst out) then None else blob_t d !! h) ∧
    (∀ h b h' b', h ∈ map fst out → blob_t d !! h = Some b →
       blob_t d' !! h' = Some b' → reapable d (now - grace) h' b' = true →
       Z.of_nat (length out) = batchSize ∧ default 0 (b_zeroed_at b) <= default 0 (b_zeroed_at b')).
Proof.
  intros Hwf Hn. destruct (RunBlobGCBatch_run batchSize grace now d Hn) as [f Hrun].
  cbv zeta in Hrun. set (sel := selected _ _ _ _) in *. set (dead := List.filter _ _) in *.
  assert (map fst (map (λ e : string * Blob, (e.1, b_size e.2)) dead) = map fst dead) as Hfst.
  { rewrite map_map. by apply map_ext. }
  assert (∀ h, h ∈ map fst dead ↔ h ∈ sel) as Hds by (intros h; apply elem_of_reaped).
  assert (NoDup (map fst dead)) as Hnd by apply NoDup_fst_scan_filter.
  assert (NoDup sel) as Hns by (apply selected_nodup; lia).
  assert (length dead = length sel) as Hlen.
  { rewrite <-(length_map fst dead). apply Permutation_length, NoDup_Permutation; [done..|].
    apply Hds. }
  eexists _, _. split; [exact Hrun|]. rewrite Hfst, !length_map, Hlen. split_and!.
  - by eapply wf_RunBlobGCBatch.
  - done.
  - apply selected_length. lia.
  - intros h z ([h' b] & [= -> ->] & Hin)%list_elem_of_fmap_1.
    apply elem_of_reaped in Hin as (Hb & (? & (t & ? & ?) & ?)%reapable_true). by exists b, t.
  - intros h. simpl. rewrite lookup_delete_where. destruct (blob_t d !! h); simpl;
      by destruct (bool_decide _).
  - intros h b h' b' Hh%Hds Hb [Hb' Hnot]%lookup_delete_where_Some Hr.
    assert (h' ∉ sel) as Hns' by (apply bool_decide_eq_false in Hnot; by rewrite Hds in Hnot).
    split.
    + pose proof (selected_length zeroed_order (λ e, reapable d (now - grace) e.1 e.2)
        batchSize (blob_t d) ltac:(lia)) as Hle. fold sel in Hle.
      destruct (Z.eq_dec (Z.of_nat (length sel)) batchSize) as [|Hlt]; [done|].
      destruct Hns'. eapply selected_all; [lia| |exact Hb'|exact Hr]. fold sel. lia.
    + apply Z.leb_le. change (zeroed_order (h, b) (h', b') = true).
      eapply (selected_first zeroed_order); [..|exact Hns'].
      * intros x y. unfold zeroed_order. rewrite !Z.leb_le. lia.
      * intros x y z. unfold zeroed_order. rewrite !Z.leb_le. lia.
      * lia.
      * exact Hh.
      * done.
      * done.
      * done.
Qed.

(** Fresh blobs are outside a batch's reach. *)
Lemma RunBlobGCBatch_spares `{TableScan} n g now d out d' h b t :
  1 <= n → blob_t d !! h = Some b →
  (0 < b_refcount b ∨ b_zeroed_at b = Some t) → now - g <= t →
  RunBlobGCBatch n g now d = Ok (out, d') → blob_t d' !! h = Some b.
Proof.
  intros Hn Hb Ht Hg Hrun. destruct (RunBlobGCBatch_run n g now d Hn) as [f Hf].
  cbv zeta in Hf. rewrite Hrun in Hf. injection Hf as _ ->. simpl.
  apply lookup_delete_where_Some. split; [done|]. apply bool_decide_eq_false.
  intros ([h' b'] & E & Hin)%list_elem_of_fmap_1. simpl in E. subst h'.
  apply elem_of_reaped in Hin as (Hb' & (Hr & (t' & Ht' & Hlt) & _)%reapable_true).
  simplify_eq. destruct Ht as [?|?]; [lia|]. simplify_eq. lia.
Qed.

(** Storing a blob, or a heartbeat over it, restarts its clock: no
    batch of the collector that runs within the grace period afterwards takes
    it, referenced or not. *)
Theorem heartbeat_protects `{TableScan} h size hashes n grace t now d u d1 out d2 :
  wf d → 1 <= n → now - grace <= t →
  PutBlob h size t d = Ok (u, d1) ∨
    (HeartbeatBlobs hashes t d = Ok (u, d1) ∧ h ∈ hashes ∧ validBlobHash h = true ∧
     is_Some (blob_t d !! h)) →
  RunBlobGCBatch n grace now d1 = Ok (out, d2) →
  is_Some (blob_t d1 !! h) ∧ blob_t d2 !! h = blob_t d1 !! h.
Proof.
  intros Hwf Hn Hg Hput Hrun.
  assert (∃ b, blob_t d1 !! h = Some b ∧ (0 < b_refcount b ∨ b_zeroed_at b = Some t)) as (b & Hb & Ht).
  { destruct Hput as [Hp|(Hp & Hin & Hv & [b0 Hb0])].
    - unfold PutBlob in Hp. minv. cbn [blob_t upd_blob]. rewrite lookup_insert_eq. eexists. split; [done|].
      destruct (blob_t d !! h) as [b0|]; [|by right].
      destruct (Z.leb_spec (b_refcount b0) 0); [by right|by left].
    - unfold HeartbeatBlobs in Hp. assert (h ∈ List.filter validBlobHash hashes) as Hf.
      { apply list_elem_of_In, filter_In. split; [by apply list_elem_of_In|done]. }
      cbv zeta in Hp. destruct (Nat.eqb_spec (length hashes) 0) as [El|_].
      { apply nil_length_inv in El. rewrite El in Hin. by apply elem_of_nil in Hin. }
      destruct (Nat.eqb_spec (length (List.filter validBlobHash hashes)) 0) as [El|_].
      { apply nil_length_inv in El. rewrite El in Hf. by apply elem_of_nil in Hf. }
      minv. cbn [blob_t upd_blob].
      rewrite lookup_update_where, Hb0. simpl. eexists. split; [done|].
      destruct (Z.leb_spec (b_refcount b0) 0); simpl; [|by left].
      rewrite bool_decide_true by done. by right. }
  split; [by eexists|]. rewrite Hb. by eapply RunBlobGCBatch_spares.
Qed.

(** ** The snapshot collector: laws *)

Definition cascaded (ids : list Z) (d : DB) : DB :=
  upd_snap (delete_where (λ id _, bool_decide (id ∈ ids)))
   (upd_pkg (delete_where (λ k _, bool_decide (k.2 ∈ ids)))
    (upd_skip (delete_where (λ k _, bool_decide (k.1 ∈ ids)))
     (upd_member (delete_where (λ k _, bool_decide (k.1 ∈ ids))) d))).

Lemma cascade_delete_run ids d :
  (∀ id, id ∈ ids → is_current d id = false) →
  cascade_delete ids d = Ok (tt, cascaded ids d).
Proof.
  intros Hn. unfold cascade_delete. do 3 (apply mbind_ok; eexists _, _; split; [reflexivity|]).
  unfold snap_delete. apply mbind_ok. eexists. eexists. split; [reflexivity|].
  apply mbind_ok. exists tt. eexists. split; [apply massert_ok; split; [|reflexivity]|reflexivity].
  apply forallb_forall. intros id Hin%list_elem_of_In. apply negb_true_iff, snap_pinned_intro.
  - intros k m [_ Hk]%lookup_delete_where_Some Heq. rewrite Heq in Hk. by apply bool_decide_eq_false in Hk.
  - intros k m [_ Hk]%lookup_delete_where_Some Heq. rewrite Heq in Hk. by apply bool_decide_eq_false in Hk.
  - intros k m [_ Hk]%lookup_delete_where_Some Heq. rewrite Heq in Hk. by apply bool_decide_eq_false in Hk.
  - by apply Hn.
Qed.

Lemma wf_cascaded ids d :
  (∀ id, id ∈ ids → is_current d id = false) → wf d → wf (cascaded ids d).
Proof.
  intros Hn Hwf. pose proof (cascade_delete_run ids d Hn) as Hrun. unfold cascade_delete in Hrun.
  minv. eapply wf_snap_delete; [|eassumption]. apply wf_delete_pkgs, wf_delete_skips, wf_delete_members;
    [done|]. intros k m _ Hk%bool_decide_eq_true. by apply Hn.
Qed.

Lemma lookup_cascaded ids d id :
  snap_t (cascaded ids d) !! id = if bool_decide (id ∈ ids) then None else snap_t d !! id.
Proof.
  simpl. rewrite lookup_delete_where. destruct (snap_t d !! id); simpl; by destruct (bool_decide _).
Qed.

Lemma newer_adoption_total a b : newer_adoption a b = true ∨ newer_adoption b a = true.
Proof.
  unfold newer_adoption. rewrite (Z.eqb_sym (default 0 (ss_adopted b.2))).
  destruct (Z.eqb_spec (default 0 (ss_adopted a.2)) (default 0 (ss_adopted b.2))).
  - rewrite !Z.leb_le. lia.
  - rewrite !Z.ltb_lt. lia.
Qed.

Lemma newer_adoption_trans a b c :
  newer_adoption a b = true → newer_adoption b c = true → newer_adoption a c = true.
Proof.
  unfold newer_adoption.
  destruct (Z.eqb_spec (default 0 (ss_adopted a.2)) (default 0 (ss_adopted b.2))),
    (Z.eqb_spec (default 0 (ss_adopted b.2)) (default 0 (ss_adopted c.2))),
    (Z.eqb_spec (default 0 (ss_adopted a.2)) (default 0 (ss_adopted c.2)));
    rewrite ?Z.leb_le, ?Z.ltb_lt; lia.
Qed.

Lemma elem_of_partition d k id s :
  (id, s) ∈ partition_rows d k ↔
  snap_t d !! id = Some s ∧ ranked d id s = true ∧ ss_suite s = k.
Proof.
  unfold partition_rows. rewrite elem_of_sort_by, list_elem_of_In, filter_In, <-list_elem_of_In.
  rewrite elem_of_map_to_list. simpl. by rewrite andb_true_iff, bool_decide_eq_true.
Qed.

(** The newest [keep] of a partition are not displaced, and come before
    whatever is. *)
Lemma displaced_kept d keep id s :
  0 <= keep → snap_t d !! id = Some s → is_displaced d keep id s = true →
  ∃ l, NoDup (map fst l) ∧ Z.of_nat (length l) = keep ∧
    ∀ i x, (i, x) ∈ l → snap_t d !! i = Some x ∧ ranked d i x = true ∧
      ss_suite x = ss_suite s ∧ is_displaced d keep i x = false ∧
      newer_adoption (i, x) (id, s) = true.
Proof.
  intros Hk Hs [Hr Hn]%andb_true_iff. apply negb_true_iff, bool_decide_eq_false in Hn.
  set (p := partition_rows d (ss_suite s)) in *.
  assert ((id, s) ∈ p) as Hin by by apply elem_of_partition.
  exists (take (Z.to_nat keep) p).
  assert ((id, s) ∉ take (Z.to_nat keep) p) as Hnt.
  { intros Hx. apply Hn. by apply (list_elem_of_fmap_2 fst _ (id, s)). }
  split_and!.
  - apply (sublist_NoDup _ (map fst p)); [|apply (fmap_sublist fst), sublist_take].
    unfold p, partition_rows. rewrite (Permutation_map fst (sort_by_perm _ _)).
    apply (NoDup_fst_scan_filter (H := key_order_scan)).
  - rewrite length_take. assert (Z.to_nat keep <= length p)%nat; [|lia].
    destruct (decide (Z.to_nat keep <= length p)%nat) as [|Hgt]; [done|].
    destruct Hnt. rewrite take_ge by lia. done.
  - intros i x Hx. assert ((i, x) ∈ p) as Hp.
    { apply list_elem_of_lookup_1 in Hx as (j & Hj). apply lookup_take_Some in Hj as [Hj _].
      by eapply list_elem_of_lookup_2. }
    apply elem_of_partition in Hp as (Hx1 & Hx2 & Hx3). split_and!; try done.
    + unfold is_displaced. rewrite Hx2, Hx3. fold p. rewrite bool_decide_true; [done|].
      by apply (list_elem_of_fmap_2 fst _ (i, x)).
    + unfold p, partition_rows in *. eapply sort_by_take; [apply newer_adoption_total|
        apply newer_adoption_trans|exact Hx| |exact Hnt].
      by rewrite elem_of_sort_by in Hin.
Qed.

Lemma elem_of_candidates `{TableScan} d cutoff keep id c :
  (id, c) ∈ snapshot_candidates d cutoff keep ↔
  ∃ s, snap_t d !! id = Some s ∧
    match c with Orphan => is_orphan d cutoff id s | Displaced => is_displaced d keep id s end = true.
Proof.
  unfold snapshot_candidates. rewrite elem_of_app. split.
  - intros [([i s] & [= -> ->] & Hin%elem_of_scan_filter)%list_elem_of_fmap_1|
            ([i s] & [= -> ->] & Hin%elem_of_scan_filter)%list_elem_of_fmap_1]; by exists s.
  - intros (s & Hs & Hc). destruct c; [left|right].
    + apply (list_elem_of_fmap_2 (λ e, (e.1, Orphan)) _ (id, s)). by apply elem_of_scan_filter.
    + apply (list_elem_of_fmap_2 (λ e, (e.1, Displaced)) _ (id, s)). by apply elem_of_scan_filter.
Qed.

Lemma candidates_nodup `{TableScan} d cutoff keep :
  NoDup (map fst (snapshot_candidates d cutoff keep)).
Proof.
  unfold snapshot_candidates. rewrite map_app, !map_map. simpl.
  apply NoDup_app. split_and!; try apply NoDup_fst_scan_filter.
  intros id ([i s] & -> & [Hs Ho]%elem_of_scan_filter)%list_elem_of_fmap_1
    ([i' s'] & E & [Hs' Hd]%elem_of_scan_filter)%list_elem_of_fmap_1. simpl in *. subst i'.
  rewrite Hs in Hs'. simplify_eq. unfold is_orphan, is_displaced, ranked in *.
  bclean. repeat match goal with Hx : is_Some _ |- _ => destruct Hx as [? Hx] end. congruence.
Qed.

Lemma candidate_not_current `{TableScan} d cutoff keep id :
  id ∈ map fst (snapshot_candidates d cutoff keep) → is_current d id = false.
Proof.
  intros ([i c] & -> & (s & Hs & Hc)%elem_of_candidates)%list_elem_of_fmap_1.
  destruct c; unfold is_orphan, is_displaced, ranked in Hc; by bclean.
Qed.

Lemma count_classes (l : list (Z * ReapClass)) :
  Z.of_nat (length (List.filter (λ r, bool_decide (r.2 = Orphan)) l)) +
  Z.of_nat (length (List.filter (λ r, bool_decide (r.2 = Displaced)) l)) = Z.of_nat (length l).
Proof. induction l as [|[i []] l IH]; simpl in *; lia. Qed.

Lemma cascaded_nil d : cascaded [] d = d.
Proof.
  assert (∀ `{Countable K} A (m : gmap K A) P, (∀ k v, P k v = false) → delete_where P m = m) as Hd.
  { intros K ? ? A m P HP. apply map_eq. intros k. rewrite lookup_delete_where.
    destruct (m !! k) as [v|]; [|done]. simpl. by rewrite HP. }
  unfold cascaded, upd_snap, upd_pkg, upd_skip, upd_member. simpl.
  rewrite !Hd by done. by destruct d.
Qed.

Lemma RunSnapshotGCBatch_run `{TableScan} n g keep now d :
  1 <= n → 0 <= keep →
  let rows := sql_limit n (snapshot_candidates d (now - g) keep) in
  ∃ o p, RunSnapshotGCBatch n g keep now d = Ok ((o, p), cascaded (map fst rows) d) ∧
    o + p = Z.of_nat (length rows).
Proof.
  intros Hn Hk rows. exists (Z.of_nat (length (List.filter (λ r, bool_decide (r.2 = Orphan)) rows))),
    (Z.of_nat (length (List.filter (λ r, bool_decide (r.2 = Displaced)) rows))).
  split; [|apply count_classes]. unfold RunSnapshotGCBatch.
  apply mbind_ok. exists tt, d.
  split; [apply massert_ok; split; [by destruct (Z.ltb_spec n 1); [lia|]|done]|].
  cbv beta. apply mbind_ok. exists tt, d.
  split; [apply massert_ok; split; [by destruct (Z.ltb_spec keep 0); [lia|]|done]|].
  cbv beta zeta. apply mbind_ok. exists d, d. split; [reflexivity|]. fold rows.
  destruct (Nat.eqb_spec (length rows) 0) as [E|_].
  - apply nil_length_inv in E. rewrite E. simpl map. by rewrite cascaded_nil.
  - apply mbind_ok. exists tt. eexists. split; [apply cascade_delete_run|reflexivity].
    intros id Hid. eapply (candidate_not_current d (now - g) keep).
    apply list_elem_of_fmap_1 in Hid as (r & -> & Hr). apply list_elem_of_fmap_2.
    unfold rows in Hr. rewrite sql_limit_nonneg in Hr by lia.
    apply list_elem_of_lookup_1 in Hr as (j & Hj). apply lookup_take_Some in Hj as [Hj _].
    by eapply list_elem_of_lookup_2.
Qed.

(** Those survivors are in no batch of candidates. *)
Lemma displaced_survive `{TableScan} d cutoff keep ids id s :
  0 <= keep → snap_t d !! id = Some s → is_displaced d keep id s = true →
  (∀ i, i ∈ ids → i ∈ map fst (snapshot_candidates d cutoff keep)) →
  ∃ l, NoDup (map fst l) ∧ Z.of_nat (length l) = keep ∧
    ∀ i x, (i, x) ∈ l → snap_t (cascaded ids d) !! i = Some x ∧
      ss_suite x = ss_suite s ∧ ranked d i x = true ∧ newer_adoption (i, x) (id, s) = true.
Proof.
  intros Hk Hs Hc Hsub. destruct (displaced_kept d keep id s Hk Hs Hc) as (l & Hl1 & Hl2 & Hl3).
  exists l. split_and!; [done|done|]. intros j x Hx.
  destruct (Hl3 j x Hx) as (Hj & Hrj & ? & Hdj & ?). split_and!; try done.
  rewrite lookup_cascaded, bool_decide_false; [done|].
  intros ([j' c] & -> & (x' & Hx' & Hc')%elem_of_candidates)%Hsub%list_elem_of_fmap_1.
  simpl in *. rewrite Hj in Hx'. simplify_eq. destruct c; [|congruence].
  unfold is_orphan, ranked in *. bclean.
  repeat match goal with Hy : is_Some _ |- _ => destruct Hy as [? Hy] end. congruence.
Qed.

(** C25. A batch of the snapshot collector never trips a foreign key and
    keeps the invariant.  It removes at most [batchSize] snapshots, with all
    their children and nothing else.  None of them is any suite's current
    snapshot; each is either an unadopted candidate whose heartbeat is older
    than the grace period, or an adopted, unretired snapshot that no audit
    waits for and that has [keepDisplaced] newer displaced snapshots of its
    own suite, all of which survive the batch.  A batch that comes back short
    has left nothing it could have taken. *)
Theorem RunSnapshotGCBatch_correct `{TableScan} batchSize grace keep now d :
  wf d → 1 <= batchSize → 0 <= keep →
  ∃ o p ids, RunSnapshotGCBatch batchSize grace keep now d = Ok ((o, p), cascaded ids d) ∧
    wf (cascaded ids d) ∧ NoDup ids ∧ Z.of_nat (length ids) = o + p ∧ o + p <= batchSize ∧
    (∀ id, id ∈ ids → is_current d id = false ∧ (∃ s, snap_t d !! id = Some s ∧
       ((ss_adopted s = None ∧ (∃ t, ss_heartbeat s = Some t ∧ t < now - grace)) ∨
        (is_Some (ss_adopted s) ∧ ss_retired s = None ∧ (id ∉ audit_t d) ∧
         (∃ l, NoDup (map fst l) ∧ Z.of_nat (length l) = keep ∧
           ∀ i x, (i, x) ∈ l → snap_t (cascaded ids d) !! i = Some x ∧
             ss_suite x = ss_suite s ∧ ranked d i x = true ∧
             newer_adoption (i, x) (id, s) = true))))) ∧
    (o + p < batchSize → ∀ id s, snap_t (cascaded ids d) !! id = Some s →
       is_orphan d (now - grace) id s = false ∧ is_displaced d keep id s = false).
Proof.
  intros Hwf Hn Hk. destruct (RunSnapshotGCBatch_run batchSize grace keep now d Hn Hk)
    as (o & p & Hrun & Hop). set (cands := snapshot_candidates d (now - grace) keep) in *.
  set (rows := sql_limit batchSize cands) in *.
  assert (rows = take (Z.to_nat batchSize) cands) as Hrows by (apply sql_limit_nonneg; lia).
  assert (∀ id, id ∈ map fst rows → id ∈ map fst cands) as Hsub.
  { intros id. rewrite Hrows. intros (r & -> & Hr)%list_elem_of_fmap_1.
    apply list_elem_of_fmap_2. apply list_elem_of_lookup_1 in Hr as (j & Hj).
    apply lookup_take_Some in Hj as [Hj _]. by eapply list_elem_of_lookup_2. }
  assert (∀ id, id ∈ map fst rows → is_current d id = false) as Hcur.
  { intros id Hid. by eapply candidate_not_current, Hsub. }
  exists o, p, (map fst rows). rewrite length_map. split_and!.
  - exact Hrun.
  - by apply wf_cascaded.
  - apply (sublist_NoDup _ (map fst cands)); [apply candidates_nodup|].
    rewrite Hrows. apply (fmap_sublist fst), sublist_take.
  - lia.
  - rewrite Hop, Hrows, length_take. lia.
  - intros id Hid. split; [by apply Hcur|].
    apply Hsub in Hid as ([i c] & -> & (s & Hs & Hc)%elem_of_candidates)%list_elem_of_fmap_1.
    exists s. split; [done|]. destruct c; [left|right].
    + unfold is_orphan in Hc. destruct (ss_heartbeat s) as [t|]; [|by bclean]. bclean.
      split; [done|]. by exists t.
    + simpl in *. pose proof Hc as [Hr _]%andb_true_iff. unfold ranked in Hr. bclean.
      split_and!; try done. by eapply displaced_survive.
  - intros Hlt id s Hs. rewrite lookup_cascaded in Hs. case_bool_decide as Hin; [done|].
    assert (rows = cands) as E.
    { rewrite Hrows in *. rewrite length_take in Hop. apply take_ge. lia. }
    split; apply not_true_iff_false; intros Hc; apply Hin; rewrite E.
    + apply (list_elem_of_fmap_2 fst _ (id, Orphan)), elem_of_candidates. by exists s.
    + apply (list_elem_of_fmap_2 fst _ (id, Displaced)), elem_of_candidates. by exists s.
Qed.

(** ** Retired snapshots: laws *)

Section chunks.
Context `{TableScan} `{Countable K} {A : Type}.
Implicit Types (P : K → bool) (m : gmap K A).

Lemma chunk_keys_length P left m :
  0 <= left → Z.of_nat (length (chunk_keys P left m)) <= left.
Proof.
  intros Hn. unfold chunk_keys. rewrite sql_limit_nonneg, length_map, length_take by done. lia.
Qed.

Lemma chunk_keys_nodup P left m : 0 <= left → NoDup (chunk_keys P left m).
Proof.
  intros Hn. unfold chunk_keys. rewrite sql_limit_nonneg by done.
  apply (sublist_NoDup _ (map fst (List.filter (λ e, P e.1) (scan m)))).
  - apply NoDup_fst_scan_filter.
  - apply (fmap_sublist fst), sublist_take.
Qed.

Lemma chunk_keys_elem P left m k :
  k ∈ chunk_keys P left m → is_Some (m !! k) ∧ P k = true.
Proof.
  intros ([k' v] & -> & Hin)%list_elem_of_fmap_1. simpl.
  assert ((k', v) ∈ List.filter (λ e, P e.1) (scan m)) as Hf%elem_of_scan_filter.
  { unfold sql_limit in Hin. destruct (_ <? _); [done|].
    apply list_elem_of_lookup_1 in Hin as (i & Hi). apply lookup_take_Some in Hi as [Hi _].
    by eapply list_elem_of_lookup_2. }
  destruct Hf. split; [by eexists|done].
Qed.

Lemma chunk_keys_all P left m k :
  0 <= left → Z.of_nat (length (chunk_keys P left m)) < left →
  is_Some (m !! k) → P k = true → k ∈ chunk_keys P left m.
Proof.
  intros Hn Hlen [v Hk] HP. unfold chunk_keys in *. rewrite sql_limit_nonneg in * by done.
  rewrite length_map, length_take in Hlen. rewrite take_ge by lia.
  apply (list_elem_of_fmap_2 fst _ (k, v)), elem_of_scan_filter. done.
Qed.

Lemma lookup_delete_keys l m k :
  delete_keys l m !! k = if bool_decide (k ∈ l) then None else m !! k.
Proof.
  unfold delete_keys. rewrite lookup_delete_where. destruct (m !! k); simpl; by destruct (bool_decide _).
Qed.

Lemma size_delete_keys l m :
  NoDup l → (∀ k, k ∈ l → is_Some (m !! k)) →
  Z.of_nat (size (delete_keys l m)) = Z.of_nat (size m) - Z.of_nat (length l).
Proof.
  induction l as [|k l IH]; intros Hnd Hin.
  - replace (delete_keys [] m) with m; [simpl; lia|].
    apply map_eq. intros k. by rewrite lookup_delete_keys.
  - apply NoDup_cons in Hnd as [Hk Hnd].
    assert (delete_keys (k :: l) m = delete k (delete_keys l m)) as ->.
    { apply map_eq. intros k'. rewrite lookup_delete_keys. destruct (decide (k = k')) as [<-|Hne].
      - by rewrite lookup_delete_eq, bool_decide_true by set_solver.
      - rewrite lookup_delete_ne, lookup_delete_keys by done.
        rewrite (bool_decide_ext (k' ∈ k :: l) (k' ∈ l)); [done|].
        rewrite elem_of_cons. split; [by intros [?|?]|by right]. }
    destruct (Hin k) as [v Hv]; [set_solver|].
    assert (delete_keys l m !! k = Some v) as Hd.
    { by rewrite lookup_delete_keys, bool_decide_false. }
    rewrite map_size_delete_Some; [|by eexists].
    assert (size (delete_keys l m) ≠ 0%nat).
    { intros Hz%map_size_empty_iff. by rewrite Hz in Hd. }
    specialize (IH Hnd). simpl length.
    assert (Z.of_nat (size (delete_keys l m)) = Z.of_nat (size m) - Z.of_nat (length l)); [|lia].
    apply IH. intros k' Hk'. apply Hin. by right.
Qed.
End chunks.

Section retired.
Context `{TableScan}.

Definition child_rows (d : DB) : Z :=
  Z.of_nat (size (member_t d)) + Z.of_nat (size (skip_t d)) + Z.of_nat (size (pkg_t d)).

Definition childless (d : DB) (id : Z) : Prop :=
  (∀ k m, member_t d !! k = Some m → k.1 ≠ id) ∧ (∀ k m, skip_t d !! k = Some m → k.1 ≠ id) ∧
  (∀ k m, pkg_t d !! k = Some m → k.2 ≠ id).

Definition trimmed (ms ss : list (Z * string)) (ps : list (URLKey * Z)) (d : DB) : DB :=
  upd_pkg (delete_keys ps) (upd_skip (delete_keys ss) (upd_member (delete_keys ms) d)).

Lemma delete_keys_nil `{Countable K} {A} (m : gmap K A) : delete_keys [] m = m.
Proof. apply map_eq. intros k. by rewrite lookup_delete_keys. Qed.

Lemma trim_table `{Countable K} {A} (P : K → bool) n (m : gmap K A) :
  0 < n →
  let ks := chunk_keys P n m in
  0 <= n - Z.of_nat (length ks) <= n ∧
  Z.of_nat (size (delete_keys ks m)) = Z.of_nat (size m) - Z.of_nat (length ks) ∧
  (0 < n - Z.of_nat (length ks) →
   ∀ k v, delete_keys ks m !! k = Some v → P k = false).
Proof.
  intros Hn ks. pose proof (chunk_keys_length P n m ltac:(lia)) as Hl. fold ks in Hl.
  split_and!; [lia|lia| |].
  - apply size_delete_keys; [apply chunk_keys_nodup; lia|].
    intros k Hk. by destruct (chunk_keys_elem P n m k Hk).
  - intros Hpos k v Hk. rewrite lookup_delete_keys in Hk. case_bool_decide as Hin; [done|].
    apply not_true_iff_false. intros HP. apply Hin. apply chunk_keys_all; [lia|fold ks; lia| |done].
    by eexists.
Qed.

(** The rows a chunk trims are children of the one snapshot; when budget is
    left none of its children is. *)
Lemma retired_children_run id n d :
  0 < n →
  ∃ left ms ss ps, retired_children id n d = Ok (left, trimmed ms ss ps d) ∧
    0 <= left <= n ∧ child_rows (trimmed ms ss ps d) = child_rows d - (n - left) ∧
    (∀ k, k ∈ ms → k.1 = id) ∧ (∀ k, k ∈ ss → k.1 = id) ∧ (∀ k, k ∈ ps → k.2 = id) ∧
    (0 < left → childless (trimmed ms ss ps d) id).
Proof.
  intros Hn. unfold retired_children.
  set (P1 := λ k : Z * string, k.1 =? id). set (P2 := λ k : URLKey * Z, k.2 =? id).
  set (ms := chunk_keys P1 n (member_t d)). set (l1 := n - Z.of_nat (length ms)).
  destruct (trim_table P1 n (member_t d) Hn) as (B1 & S1 & C1). fold ms l1 in B1, S1, C1.
  assert (∀ k, k ∈ ms → k.1 = id) as M1.
  { intros k Hk. by apply Z.eqb_eq, (chunk_keys_elem P1 n (member_t d)). }
  destruct (Z.eqb_spec l1 0) as [E1|N1].
  { exists l1, ms, [], []. split_and!; try lia; try done; try (by intros k []%elem_of_nil).
    - unfold trimmed, mbind, M_bind, mget, mmodify. fold P1 P2 ms l1. cbv zeta.
      rewrite E1. cbn. unfold upd_pkg, upd_skip, upd_member. simpl. by rewrite !delete_keys_nil.
    - unfold child_rows, trimmed. simpl. rewrite !delete_keys_nil. lia. }
  set (ss := chunk_keys P1 l1 (skip_t d)). set (l2 := l1 - Z.of_nat (length ss)).
  destruct (trim_table P1 l1 (skip_t d) ltac:(lia)) as (B2 & S2 & C2). fold ss l2 in B2, S2, C2.
  assert (∀ k, k ∈ ss → k.1 = id) as M2.
  { intros k Hk. by apply Z.eqb_eq, (chunk_keys_elem P1 l1 (skip_t d)). }
  destruct (Z.eqb_spec l2 0) as [E2|N2].
  { exists l2, ms, ss, []. split_and!; try lia; try done; try (by intros k []%elem_of_nil).
    - unfold trimmed, mbind, M_bind, mget, mmodify. fold P1 P2 ms l1. cbv zeta.
      destruct (Z.eqb_spec l1 0); [done|]. fold ss l2. rewrite E2.
      cbn. unfold upd_pkg, upd_skip, upd_member. simpl. by rewrite !delete_keys_nil.
    - unfold child_rows, trimmed. simpl. rewrite !delete_keys_nil. lia. }
  set (ps := chunk_keys P2 l2 (pkg_t d)).
  destruct (trim_table P2 l2 (pkg_t d) ltac:(lia)) as (B3 & S3 & C3). fold ps in B3, S3, C3.
  exists (l2 - Z.of_nat (length ps)), ms, ss, ps. split_and!; try lia; try done.
  - unfold trimmed, mbind, M_bind, mget, mmodify. fold P1 P2 ms l1. cbv zeta.
    destruct (Z.eqb_spec l1 0); [done|]. fold ss l2. by destruct (Z.eqb_spec l2 0).
  - unfold child_rows, trimmed. simpl. lia.
  - intros k Hk. by apply Z.eqb_eq, (chunk_keys_elem P2 l2 (pkg_t d)).
  - intros Hpos. split_and!; intros k m Hk; apply Z.eqb_neq.
    + by eapply C1; [lia|].
    + by eapply C2; [lia|].
    + by eapply C3.
Qed.

Lemma min_id_spec l :
  match min_id l with
  | None => l = []
  | Some x => x ∈ l ∧ ∀ y, y ∈ l → x <= y
  end.
Proof.
  induction l as [|z l IH]; [done|]. simpl. fold (min_id l). destruct (min_id l) as [x|].
  - destruct IH as [Hx Hmin]. split.
    + destruct (Z.min_spec z x) as [[_ ->]|[_ ->]]; [by left|by right].
    + intros y [->|Hy]%elem_of_cons; [lia|]. specialize (Hmin y Hy). lia.
  - subst l. split; [by left|]. intros y [->|Hy%elem_of_nil]%elem_of_cons; [lia|done].
Qed.

Lemma retired_target_spec d :
  match retired_target d with
  | None => ∀ id s, snap_t d !! id = Some s → is_Some (ss_retired s) → is_current d id = true
  | Some id => (∃ s, snap_t d !! id = Some s ∧ is_Some (ss_retired s)) ∧ is_current d id = false
  end.
Proof.
  unfold retired_target. set (l := List.filter _ _).
  assert (∀ i x, (i, x) ∈ l ↔ snap_t d !! i = Some x ∧ is_Some (ss_retired x) ∧
            is_current d i = false) as Hl.
  { intros i x. unfold l. rewrite list_elem_of_In, filter_In, <-list_elem_of_In.
    rewrite elem_of_map_to_list. simpl. by rewrite andb_true_iff, bool_decide_eq_true, negb_true_iff. }
  pose proof (min_id_spec (map fst l)) as Hm. destruct (min_id (map fst l)) as [id|].
  - destruct Hm as [([i x] & -> & (?&?&?)%Hl)%list_elem_of_fmap_1 _]. simpl. split; [by exists x|done].
  - intros id s Hs Hr. destruct (is_current d id) eqn:E; [done|].
    assert ((id, s) ∈ l) as Hin by by apply Hl.
    destruct l; [by apply elem_of_nil in Hin|done].
Qed.

Lemma wf_trimmed ms ss ps id d :
  is_current d id = false → (∀ k, k ∈ ms → k.1 = id) → wf d → wf (trimmed ms ss ps d).
Proof.
  intros Hc Hms Hwf. unfold trimmed, delete_keys.
  apply wf_delete_pkgs, wf_delete_skips, wf_delete_members; [done|].
  intros k m _ Hk%bool_decide_eq_true. by rewrite (Hms k Hk).
Qed.

Definition without_snap (id : Z) (d : DB) : DB :=
  upd_snap (delete_where (λ i _, bool_decide (i ∈ [id]))) d.

Lemma size_without_snap id d s :
  snap_t d !! id = Some s →
  Z.of_nat (size (snap_t (without_snap id d))) = Z.of_nat (size (snap_t d)) - 1.
Proof.
  intros Hs. change (delete_where _ (snap_t d)) with (delete_keys [id] (snap_t d)).
  apply (size_delete_keys [id]).
  - apply NoDup_singleton.
  - intros k ->%list_elem_of_singleton. by eexists.
Qed.

Lemma RunRetiredSnapshotGCChunk_eq maxRows d :
  RunRetiredSnapshotGCChunk maxRows d =
  match retired_target d with
  | None => Ok ((0, false), d)
  | Some id =>
      (left ← retired_children id (effectiveChunkRows maxRows);
       if 0 <? left then
         d ← mget;
         _ ← massert (bool_decide (is_Some (s ← snap_t d !! id; ss_retired s)))
               ErrSnapshotNotFound;
         _ ← snap_delete [id];
         mret (1, true)
       else mret (0, true)) d
  end.
Proof.
  unfold RunRetiredSnapshotGCChunk. cbv zeta. unfold mbind at 1, M_bind at 1, mget at 1.
  by destruct (retired_target d).
Qed.

(** A chunk of the retired-snapshot collector always succeeds and keeps
    the invariant.  It works on one retired snapshot no suite points at; it
    deletes at most [maxRows] of that snapshot's children and of no other's,
    and the snapshot row only once the last child is gone.  It reports no more
    work exactly when no such snapshot is left; otherwise it has made
    progress: the children and snapshots of the database strictly shrink. *)
Theorem RunRetiredSnapshotGCChunk_correct maxRows d :
  wf d →
  (RunRetiredSnapshotGCChunk maxRows d = Ok ((0, false), d) ∧
   ∀ id s, snap_t d !! id = Some s → is_Some (ss_retired s) → is_current d id = true) ∨
  (∃ id s ms ss ps d', snap_t d !! id = Some s ∧ is_Some (ss_retired s) ∧
     is_current d id = false ∧ wf d' ∧
     (∀ k, k ∈ ms → k.1 = id) ∧ (∀ k, k ∈ ss → k.1 = id) ∧ (∀ k, k ∈ ps → k.2 = id) ∧
     child_rows d - child_rows d' <= effectiveChunkRows maxRows ∧
     child_rows d' + Z.of_nat (size (snap_t d')) < child_rows d + Z.of_nat (size (snap_t d)) ∧
     ((RunRetiredSnapshotGCChunk maxRows d = Ok ((0, true), d') ∧ d' = trimmed ms ss ps d) ∨
      (RunRetiredSnapshotGCChunk maxRows d = Ok ((1, true), d') ∧ childless d' id ∧
       d' = without_snap id (trimmed ms ss ps d)))).
Proof.
  intros Hwf. set (n := effectiveChunkRows maxRows).
  assert (0 < n) as Hn.
  { unfold n, effectiveChunkRows, retiredChunkRows. destruct (Z.leb_spec maxRows 0); lia. }
  pose proof (retired_target_spec d) as Ht. rewrite RunRetiredSnapshotGCChunk_eq.
  fold n. destruct (retired_target d) as [id|]; [right|by left].
  destruct Ht as [(s & Hs & Hr) Hc].
  destruct (retired_children_run id n d Hn) as
    (left & ms & ss & ps & Hrun & Hb & Hrows & M1 & M2 & M3 & Hless).
  set (d1 := trimmed ms ss ps d) in *. assert (wf d1) as Hwf1 by by eapply wf_trimmed.
  assert (snap_t d1 = snap_t d) as Hsnap by done.
  destruct (Z.ltb_spec 0 left) as [Hpos|Hz].
  - exists id, s, ms, ss, ps, (without_snap id d1).
    assert (snap_delete [id] d1 = Ok (tt, without_snap id d1)) as Hdel.
    { unfold snap_delete. apply mbind_ok. eexists. eexists. split; [reflexivity|].
      apply mbind_ok. exists tt. eexists. split; [|reflexivity]. apply massert_ok. split; [|done].
      simpl. destruct (Hless Hpos) as (L1 & L2 & L3). by rewrite snap_pinned_intro. }
    split_and!; try done.
    + by eapply wf_snap_delete.
    + change (child_rows (without_snap id d1)) with (child_rows d1). lia.
    + change (child_rows (without_snap id d1)) with (child_rows d1).
      rewrite (size_without_snap id d1 s) by done. rewrite Hsnap. lia.
    + right. split_and!; [|by apply Hless|done]. apply mbind_ok. eexists. eexists. split; [exact Hrun|].
      cbv beta. destruct (Z.ltb_spec 0 left); [|lia]. apply mbind_ok. eexists. eexists.
      split; [reflexivity|]. apply mbind_ok. exists tt. eexists. split; [apply massert_ok; split; [|reflexivity]|].
      * apply bool_decide_eq_true. rewrite Hsnap, Hs. simpl. done.
      * apply mbind_ok. exists tt. eexists. split; [exact Hdel|reflexivity].
  - exists id, s, ms, ss, ps, d1. split_and!; try done; [lia|rewrite Hsnap; lia|].
    left. split; [|done]. apply mbind_ok. eexists. eexists. split; [exact Hrun|].
    cbv beta. by destruct (Z.ltb_spec 0 left); [lia|].
Qed.
End retired.

(** ** The collectors keep the invariant *)

Lemma wf_RunSnapshotGCBatch `{TableScan} n g keep now :
  triple wf (RunSnapshotGCBatch n g keep now) (λ _, wf).
Proof.
  intros d r d' Hwf Hrun. assert (1 <= n ∧ 0 <= keep) as [Hn Hk].
  { unfold RunSnapshotGCBatch in Hrun. minv. bclean. lia. }
  destruct (RunSnapshotGCBatch_run n g keep now d Hn Hk) as (o & p & Hr & _).
  rewrite Hrun in Hr. simplify_eq. apply wf_cascaded; [|done].
  intros id Hid. eapply (candidate_not_current d (now - g) keep).
  apply list_elem_of_fmap_1 in Hid as (x & -> & Hx). apply list_elem_of_fmap_2.
  rewrite sql_limit_nonneg in Hx by lia.
  apply list_elem_of_lookup_1 in Hx as (j & Hj). apply lookup_take_Some in Hj as [Hj _].
  by eapply list_elem_of_lookup_2.
Qed.

Lemma wf_RunRetiredSnapshotGCChunk `{TableScan} maxRows :
  triple wf (RunRetiredSnapshotGCChunk maxRows) (λ _, wf).
Proof.
  intros d r d' Hwf Hrun. rewrite RunRetiredSnapshotGCChunk_eq in Hrun.
  pose proof (retired_target_spec d) as Ht. destruct (retired_target d) as [id|]; [|by simplify_eq].
  destruct Ht as [_ Hc].
  assert (0 < effectiveChunkRows maxRows) as Hn.
  { unfold effectiveChunkRows, retiredChunkRows. destruct (Z.leb_spec maxRows 0); lia. }
  destruct (retired_children_run id _ d Hn) as (left & ms & ss & ps & Hr & _ & _ & M1 & _).
  minv. rewrite Hr in Hrun0. simplify_eq. assert (wf (trimmed ms ss ps d)) by by eapply wf_trimmed.
  destruct (0 <? rv); minv; [|done]. by eapply wf_snap_delete.
Qed.

#[export] Hint Resolve wf_PutBlob wf_HeartbeatBlobs wf_RunBlobGCBatch wf_RunSnapshotGCBatch
  wf_RunRetiredSnapshotGCChunk : wf.
