(* ===== verification/Retention.v ===== *)
(** * Version-aware retention ([internal/cache/queries.go], [gc_urlpath.go])

    Which cached paths stay: the newest N version classes of a package, the
    three-rule union of the url_path collector with its hold grace, and the
    hot set a new snapshot prefetches.  Prefetch and collector share
    [keepNewestNVersionSet]. *)
From S2P Require Import Prelude GoStrings AptPath DebVersion Tables Invariant Snapshots GC.
Local Open Scope Z_scope.

(** ** The newest N version classes *)

Definition defaultMaxVersionsPerPackage : Z := 3.

(** The loop with the [seen] map: first occurrences, in order. *)
Fixpoint distinct_from (seen : list string) (l : list string) : list string :=
  match l with
  | [] => []
  | v :: l => if bool_decide (v ∈ seen) then distinct_from seen l
              else v :: distinct_from (v :: seen) l
  end.

(** Newest first; equal versions by their text. *)
Definition newest_first (a b : string) : bool :=
  let c := Compare a b in
  if negb (c =? 0) then 0 <? c else str_leb a b.

Fixpoint keep_loop (n classes : Z) (prev : option string) (l : list string) : list string :=
  match l with
  | [] => []
  | v :: l =>
      let classes := match prev with
                     | Some p => if negb (Compare p v =? 0) then classes + 1 else classes
                     | None => classes
                     end in
      if n <=? classes then [] else v :: keep_loop n classes (Some v) l
  end.

Definition keepNewestNVersionSet (versions : list string) (n : Z) : list string :=
  let n := if n <? 1 then defaultMaxVersionsPerPackage else n in
  keep_loop n 0 None (sort_by newest_first (distinct_from [] versions)).

(** ** The url_path collector *)

Definition TopNKey : Type := string * string * string * string * string.

(** Rule 1. *)
Definition recent (cutoff : Z) (lastReq : option Z) : bool :=
  match lastReq with Some t => cutoff <=? t | None => false end.

(** The anchor paths of a current snapshot, by its form. *)
Definition anchor_guard (suite form path : string) : bool :=
  (String.eqb form FormInline && String.eqb path (suite +:+ "/InRelease"))
  || (String.eqb form FormDetached
      && (String.eqb path (suite +:+ "/Release") || String.eqb path (suite +:+ "/Release.gpg")))
  || (String.eqb form FormUnsigned && String.eqb path (suite +:+ "/Release")).

Definition same_blob (b : option string) (h : option string) : bool :=
  match b, h with Some x, Some y => String.eqb x y | _, _ => false end.

(** The metadata guards: a member, an anchor hash or the anchor path of a
    current snapshot. *)
Definition guarded (d : DB) (k : URLKey) (blob : option string) : bool :=
  exists_where (λ mk m, same_blob (Some (m_blob m)) blob && is_current d mk.1) (member_t d)
  || exists_where (λ id s, (same_blob (ss_inrelease s) blob || same_blob (ss_release s) blob
                            || same_blob (ss_release_gpg s) blob) && is_current d id) (snap_t d)
  || exists_where (λ sk f,
       String.eqb (key_scheme sk) (key_scheme k) && String.eqb (key_host sk) (key_host k)
       && match sf_current f ≫= λ id, snap_t d !! id with
          | Some s => anchor_guard (key_path sk) (ss_form s) (key_path k)
          | None => false
          end) (suite_t d).

Record matchRow := { mr_suite : string; mr_name : string; mr_arch : string; mr_version : string }.

(** The declarations of exactly these bytes at this path by a current
    snapshot. *)
Definition match_row (d : DB) (e : (URLKey * Z) * Package) : option matchRow :=
  s ← snap_t d !! e.1.2;
  Some {| mr_suite := key_path (ss_suite s); mr_name := ph_name e.2; mr_arch := ph_arch e.2;
          mr_version := ph_version e.2 |}.

Definition mirror_matches `{TableScan} (d : DB) (k : URLKey) (h : string) : list matchRow :=
  omap (match_row d)
    (List.filter (λ e, bool_decide (e.1.1 = k) && String.eqb (ph_declared e.2) h
                       && is_current d e.1.2) (scan (pkg_t d))).

Definition incomplete (m : matchRow) : bool :=
  String.eqb (mr_name m) "" || String.eqb (mr_arch m) "" || String.eqb (mr_version m) "".

(** The versions a group has in the current snapshots. *)
Definition group_row (d : DB) (g : TopNKey) (e : (URLKey * Z) * Package) : bool :=
  let '(scheme, host, suite, name, arch) := g in
  match snap_t d !! e.1.2 with
  | Some s => bool_decide (ss_suite s = (scheme, host, suite))
  | None => false
  end
  && String.eqb (key_scheme e.1.1) scheme && String.eqb (key_host e.1.1) host
  && String.eqb (ph_name e.2) name && String.eqb (ph_arch e.2) arch
  && negb (String.eqb (ph_version e.2) "") && is_current d e.1.2.

Definition group_versions `{TableScan} (d : DB) (g : TopNKey) : list string :=
  distinct_from [] (map (λ e, ph_version e.2) (List.filter (group_row d g) (scan (pkg_t d)))).

Definition Memo : Type := gmap TopNKey (list string).

Definition topNVersionSetTx `{TableScan} (d : DB) (g : TopNKey) (maxVersions : Z) (c : Memo)
    : list string * Memo :=
  match c !! g with
  | Some set => (set, c)
  | None => let set := keepNewestNVersionSet (group_versions d g) maxVersions in
            (set, <[g := set]> c)
  end.

(** Rule 4, over the matches in turn. *)
Fixpoint mirrored `{TableScan} (d : DB) (k : URLKey) (maxVersions : Z) (l : list matchRow)
    (c : Memo) : bool * Memo :=
  match l with
  | [] => (false, c)
  | m :: l =>
      let '(set, c) := topNVersionSetTx d
        (key_scheme k, key_host k, mr_suite m, mr_name m, mr_arch m) maxVersions c in
      if bool_decide (mr_version m ∈ set) then (true, c) else mirrored d k maxVersions l c
  end.

Definition urlPathRetainedTx `{TableScan} (d : DB) (k : URLKey) (blob : option string)
    (lastReq : option Z) (ttlCutoff maxVersions : Z) (c : Memo) : bool * Memo :=
  if recent ttlCutoff lastReq then (true, c)
  else if guarded d k blob then (true, c)
  else
    match blob with
    | None => (false, c)
    | Some h =>
        if String.eqb h "" then (false, c)
        else
          let matches := mirror_matches d k h in
          if existsb incomplete matches then (true, c)
          else mirrored d k maxVersions matches c
    end.

Record URLPathGCBatchResult := {
  ug_scanned : Z; ug_stamped : Z; ug_cleared : Z; ug_deleted : Z; ug_last : URLKey }.

(** One page: rows after the cursor, in key order, that may need an action. *)
Definition page_row (after : URLKey) (ttlCutoff : Z) (e : URLKey * URLPath) : bool :=
  match key_cmp e.1 after with Gt => true | _ => false end
  && negb (recent ttlCutoff (up_last_requested e.2) && bool_decide (up_dropped e.2 = None)).

Definition key_order (a b : URLKey * URLPath) : bool := key_leb a.1 b.1.

Definition url_page (d : DB) (after : URLKey) (ttlCutoff n : Z) : list (URLKey * URLPath) :=
  sql_limit n (sort_by key_order
    (List.filter (page_row after ttlCutoff) (map_to_list (url_t d)))).

Definition set_dropped (t : option Z) (u : URLPath) : URLPath :=
  {| up_blob := up_blob u; up_upstream := up_upstream u; up_is_metadata := up_is_metadata u;
     up_last_requested := up_last_requested u; up_request_count := up_request_count u;
     up_last_fetched := up_last_fetched u; up_etag := up_etag u; up_lastmod := up_lastmod u;
     up_dropped := t |}.

Inductive RowVerdict := Retained | Delete | Stamp | InGrace.

Definition row_verdict (retained : bool) (holdSeconds now : Z) (dropped : option Z) : RowVerdict :=
  if retained then Retained
  else if (holdSeconds <=? 0)
          || match dropped with Some t => holdSeconds <=? now - t | None => false end then Delete
  else match dropped with None => Stamp | Some _ => InGrace end.

Definition apply_verdict (v : RowVerdict) (r : URLKey * URLPath) (now : Z)
    (res : URLPathGCBatchResult) : T URLPathGCBatchResult :=
  match v with
  | Retained =>
      match up_dropped r.2 with
      | Some _ =>
          _ ← mmodify (upd_url (update_where (λ k u, bool_decide (k = r.1)
                 && bool_decide (is_Some (up_dropped u))) (set_dropped None)));
          mret {| ug_scanned := ug_scanned res; ug_stamped := ug_stamped res;
                  ug_cleared := ug_cleared res + 1; ug_deleted := ug_deleted res;
                  ug_last := ug_last res |}
      | None => mret res
      end
  | Delete =>
      _ ← deleteURLPathRowTx r.1 (up_blob r.2) now;
      mret {| ug_scanned := ug_scanned res; ug_stamped := ug_stamped res;
              ug_cleared := ug_cleared res; ug_deleted := ug_deleted res + 1;
              ug_last := ug_last res |}
  | Stamp =>
      _ ← mmodify (upd_url (update_where (λ k _, bool_decide (k = r.1)) (set_dropped (Some now))));
      mret {| ug_scanned := ug_scanned res; ug_stamped := ug_stamped res + 1;
              ug_cleared := ug_cleared res; ug_deleted := ug_deleted res;
              ug_last := ug_last res |}
  | InGrace => mret res
  end.

Fixpoint url_loop `{TableScan} (ttlCutoff holdSeconds maxVersions now : Z) (c : Memo)
    (res : URLPathGCBatchResult) (batch : list (URLKey * URLPath)) : T URLPathGCBatchResult :=
  match batch with
  | [] => mret res
  | r :: batch =>
      d ← mget;
      let '(keep, c) := urlPathRetainedTx d r.1 (up_blob r.2) (up_last_requested r.2)
                          ttlCutoff maxVersions c in
      res ← apply_verdict (row_verdict keep holdSeconds now (up_dropped r.2)) r now
              {| ug_scanned := ug_scanned res + 1; ug_stamped := ug_stamped res;
                 ug_cleared := ug_cleared res; ug_deleted := ug_deleted res; ug_last := r.1 |};
      url_loop ttlCutoff holdSeconds maxVersions now c res batch
  end.

Definition RunURLPathGCBatch `{TableScan} (batchSize ttlSeconds holdSeconds maxVersions : Z)
    (after : URLKey) (now : Z) : T URLPathGCBatchResult :=
  _ ← massert (negb (batchSize <? 1)) ErrBadArgument;
  _ ← massert (negb (ttlSeconds <=? 0)) ErrBadArgument;
  let maxVersions := if maxVersions <? 1 then defaultMaxVersionsPerPackage else maxVersions in
  let ttlCutoff := now - ttlSeconds in
  d ← mget;
  url_loop ttlCutoff holdSeconds maxVersions now ∅
    {| ug_scanned := 0; ug_stamped := 0; ug_cleared := 0; ug_deleted := 0; ug_last := after |}
    (url_page d after ttlCutoff batchSize).

(** ** Newest N: laws *)

Section keep_laws.

Lemma elem_of_distinct seen l v : v ∈ distinct_from seen l ↔ v ∈ l ∧ v ∉ seen.
Proof.
  revert seen. induction l as [|x l IH]; intros seen; simpl.
  { split; [by intros ?%elem_of_nil|by intros [?%elem_of_nil _]]. }
  case_bool_decide as Hx; rewrite ?elem_of_cons, IH, ?elem_of_cons.
  - split; [by intros [? ?]; auto|]. intros [[->|?] ?]; done.
  - split.
    + intros [->|[? ?]]; [auto|]. split; [auto|]. intros ?. tauto.
    + intros [[->|?] ?]; [auto|]. destruct (decide (v = x)) as [->|]; [auto|].
      right. split; [done|]. by intros [?|?].
Qed.

(** [a] at least as new as [b], as a relation. *)
Definition geq (a b : string) : Prop := 0 <= Compare a b.

Lemma geq_trans a b c : nul_free a = true → nul_free b = true → nul_free c = true → geq a b → geq b c → geq a c.
Proof.
  unfold geq. intros Ha Hb Hc H1 H2.
  assert (Compare c a <= 0) as H; [|rewrite (Compare_antisym c a) by done; lia].
  apply (Compare_trans c b a); [done..| |]; [rewrite (Compare_antisym b c)|
    rewrite (Compare_antisym a b)]; (done || lia).
Qed.

(** Newest first, every later element is at most as new. *)
Inductive descending : list string → Prop :=
| desc_nil : descending []
| desc_cons h t : (∀ x, x ∈ t → geq h x) → descending t → descending (h :: t).

Lemma newest_first_geq a b : nul_free a = true → nul_free b = true → newest_first a b = true → geq a b.
Proof.
  unfold newest_first, geq. intros Ha Hb. destruct (Z.eqb_spec (Compare a b) 0); cbn [negb].
  - intros _. lia.
  - intros ?%Z.ltb_lt. lia.
Qed.

Lemma newest_first_total a b :
  nul_free a = true → nul_free b = true → newest_first a b = true ∨ newest_first b a = true.
Proof.
  unfold newest_first. intros Ha Hb. rewrite (Compare_antisym a b) by done.
  destruct (Z.eqb_spec (Compare a b) 0) as [E|E].
  - rewrite E. simpl. unfold str_leb, str_cmp. rewrite (String.compare_antisym b a).
    destruct (String.compare a b); auto.
  - destruct (Z.eqb_spec (- Compare a b) 0); [lia|]. cbn [negb]. rewrite !Z.ltb_lt. lia.
Qed.

(** Sorting with an order that is only total on versions still sorts lists
    of versions. *)
Lemma sorted_descending l :
  (∀ v, v ∈ l → nul_free v = true) → descending (sort_by newest_first l).
Proof.
  intros Hl.
  set (g := λ a b, newest_first a b || negb (nul_free a) || negb (nul_free b)).
  assert (sort_by newest_first l = sort_by g l) as ->.
  { apply (sort_by_ext _ _ (λ v, nul_free v = true)).
    - intros a b Ha Hb. unfold g. rewrite Ha, Hb. simpl. by rewrite !orb_false_r.
    - by apply Forall_forall. }
  assert (Sorted (λ a b, g a b = true) (sort_by g l)) as Hs.
  { apply sort_by_sorted. intros a b. unfold g.
    destruct (nul_free a) eqn:Ea; [|right; by rewrite orb_true_r].
    destruct (nul_free b) eqn:Eb; [|left; by rewrite !orb_true_r].
    simpl. rewrite !orb_false_r. by apply newest_first_total. }
  assert (∀ v, v ∈ sort_by g l → nul_free v = true) as Hv.
  { intros v. rewrite elem_of_sort_by. apply Hl. }
  revert Hs Hv. generalize (sort_by g l). clear. intros l. induction l as [|h t IH]; intros Hs Hv.
  { constructor. }
  apply Sorted_inv in Hs as [Ht Hh].
  assert (descending t) as Hd by (apply IH; [done|]; intros v ?; apply Hv; by right).
  constructor; [|done]. intros x Hx. destruct Hd as [|h' t' Hmax Hd]; [by apply elem_of_nil in Hx|].
  apply HdRel_inv in Hh. unfold g in Hh.
  assert (nul_free h = true) as E1 by (apply Hv; left).
  assert (nul_free h' = true) as E2 by (apply Hv; right; left).
  rewrite E1, E2 in Hh. simpl in Hh. rewrite !orb_false_r in Hh.
  pose proof (newest_first_geq h h' E1 E2 Hh) as Hg.
  apply elem_of_cons in Hx as [->|Hx]; [done|].
  apply (geq_trans h h'); [done|done| |done|by apply Hmax]. apply Hv. right. by right.
Qed.

(** No two of the same class. *)
Inductive inequal : list string → Prop :=
| inequal_nil : inequal []
| inequal_cons x l : (∀ y, y ∈ l → Compare x y ≠ 0) → inequal l → inequal (x :: l).

Definition newer_than (v : string) (l : list string) : Prop := ∀ x, x ∈ l → 0 < Compare x v.

(** The loop from an element whose class is known. *)
Fixpoint keep_from (n k : Z) (h : string) (t : list string) : list string :=
  if n <=? k then []
  else h :: match t with
            | [] => []
            | h' :: t' => keep_from n (if negb (Compare h h' =? 0) then k + 1 else k) h' t'
            end.

Lemma keep_loop_from n k p h t :
  keep_loop n k p (h :: t) =
  keep_from n (match p with
               | Some p => if negb (Compare p h =? 0) then k + 1 else k
               | None => k end) h t.
Proof.
  revert k p h. induction t as [|h' t IH]; intros k p h.
  - simpl. by destruct (_ <=? _).
  - change (keep_loop n k p (h :: h' :: t)) with
      (let c := match p with Some p => if negb (Compare p h =? 0) then k + 1 else k | None => k end in
       if n <=? c then [] else h :: keep_loop n c (Some h) (h' :: t)).
    cbv zeta. rewrite IH. by destruct p.
Qed.

(** What is left out has [n] inequal newer versions in the list. *)
Lemma dropped_newer n k h t v :
  (∀ x, x ∈ h :: t → nul_free x = true) → descending (h :: t) → v ∈ h :: t →
  v ∉ keep_from n k h t →
  ∃ l, inequal l ∧ newer_than v l ∧ (∀ x, x ∈ l → x ∈ h :: t) ∧ n <= k + Z.of_nat (length l).
Proof.
  revert k h. induction t as [|h' t IH]; intros k h Hv Hd Hin Hn; simpl in Hn;
    destruct (Z.leb_spec n k) as [Hk|Hk].
  - exists []. split_and!; [constructor|by intros ? ?%elem_of_nil..|simpl; lia].
  - destruct Hn. apply elem_of_cons in Hin as [->|Hin%elem_of_nil]; [by left|done].
  - exists []. split_and!; [constructor|by intros ? ?%elem_of_nil..|simpl; lia].
  - apply not_elem_of_cons in Hn as [Hne Hn].
    apply elem_of_cons in Hin as [?|Hin]; [done|]. inversion Hd as [|? ? Hmax Hd']; subst.
    destruct (IH _ h' (λ x Hx, Hv x (list_elem_of_further _ _ _ Hx)) Hd' Hin Hn)
      as (l & Hl & Hnew & Hsub & Hlen).
    destruct (Z.eqb_spec (Compare h h') 0) as [E|E]; cbn [negb] in Hlen.
    { exists l. split_and!; [done|done| |done]. intros x Hx. right. auto. }
    assert (nul_free h = true) as Vh by (apply Hv; left).
    assert (nul_free h' = true) as Vh' by (apply Hv; right; left).
    assert (∀ x, x ∈ h' :: t → nul_free x = true) as Vt by (intros x Hx; apply Hv; by right).
    assert (geq h h') as G by (apply Hmax; left).
    assert (∀ x, x ∈ h' :: t → 0 < Compare h x) as Hgt.
    { intros x Hx. pose proof (Vt x Hx) as Vx.
      assert (geq h' x) as Gx.
      { apply elem_of_cons in Hx as [->|Hx]; [unfold geq; by rewrite Compare_refl|].
        inversion Hd'; subst; auto. }
      pose proof (geq_trans h h' x Vh Vh' Vx G Gx) as Ghx. unfold geq in *.
      destruct (Z.eq_dec (Compare h x) 0) as [E0|]; [|lia].
      assert (geq h' h) as G'; [|unfold geq in G'; rewrite (Compare_antisym h h') in G'; (done||lia)].
      apply (geq_trans h' x h); [done..|]. unfold geq. rewrite (Compare_antisym h x) by done. lia. }
    exists (h :: l). split_and!.
    + constructor; [|done]. intros y Hy. pose proof (Hgt y (Hsub y Hy)). lia.
    + intros x [->|Hx]%elem_of_cons; [by apply Hgt|by apply Hnew].
    + intros x [->|Hx]%elem_of_cons; [by left|right; auto].
    + simpl length. lia.
Qed.

Lemma same_class_trans a b c :
  nul_free a = true → nul_free b = true → nul_free c = true →
  Compare a b = 0 → Compare b c = 0 → Compare a c = 0.
Proof.
  intros Ha Hb Hc H1 H2.
  assert (Compare a c <= 0) by (apply (Compare_trans a b c); (done || lia)).
  pose proof (Compare_antisym a c Ha Hc). pose proof (Compare_antisym b c Hb Hc).
  pose proof (Compare_antisym a b Ha Hb).
  assert (Compare c a <= 0) by (apply (Compare_trans c b a); (done || lia)). lia.
Qed.

(** Taking one class out of an inequal list shortens it by one at most. *)
Definition outside (v x : string) : bool := negb (Compare x v =? 0).

Lemma inequal_outside l v :
  nul_free v = true → (∀ x, x ∈ l → nul_free x = true) → inequal l →
  inequal (List.filter (outside v) l) ∧ (length l <= S (length (List.filter (outside v) l)))%nat.
Proof.
  intros Hv Vl. induction 1 as [|x l Hx Hl IH]; simpl; [split; [constructor|lia]|].
  assert (nul_free x = true) as Vx by (apply Vl; left).
  destruct IH as [IH1 IH2]; [intros y Hy; apply Vl; by right|].
  destruct (outside v x) eqn:E; unfold outside in E; bclean; cycle 1.
  - split; [done|]. assert (List.filter (outside v) l = l) as ->; [|lia].
    apply forallb_filter_id. apply forallb_forall. intros y Hy%list_elem_of_In.
    unfold outside. destruct (Z.eqb_spec (Compare y v) 0) as [Ey|]; [|done].
    exfalso. apply (Hx y Hy). assert (nul_free y = true) as Vy by (apply Vl; by right).
    apply (same_class_trans x v y); [done..|]. rewrite (Compare_antisym y v) by done. lia.
  - split; [|simpl; lia]. constructor; [|done].
    intros y [Hy _]%list_elem_of_In%filter_In. apply Hx. by apply list_elem_of_In.
Qed.

(** What is kept has fewer than [n] inequal newer versions. *)
Lemma kept_newer n k h t v l :
  (∀ x, x ∈ h :: t → nul_free x = true) → (∀ x, x ∈ l → nul_free x = true) →
  descending (h :: t) → v ∈ keep_from n k h t → inequal l → newer_than v l →
  (∀ x, x ∈ l → ∃ y, y ∈ h :: t ∧ Compare x y = 0) → k + Z.of_nat (length l) < n.
Proof.
  revert k h l. induction t as [|h' t IH]; intros k h l Hv Vl Hd Hin Hl Hnew Hsub;
    simpl in Hin; destruct (Z.leb_spec n k) as [Hk|Hk]; try (by apply elem_of_nil in Hin);
    apply elem_of_cons in Hin as [->|Hin]; try (by apply elem_of_nil in Hin).
  1,2: destruct l as [|x l]; [simpl; lia|]; exfalso;
    destruct (Hsub x) as (y & Hy & Ey); [by left|];
    assert (0 < Compare x h) as Hx by (apply Hnew; left);
    assert (nul_free x = true) as Vx by (apply Vl; left);
    assert (nul_free h = true) as Vh by (apply Hv; left);
    assert (nul_free y = true) as Vy by auto;
    assert (geq h y) as Gy by (apply elem_of_cons in Hy as [->|Hy];
      [unfold geq; by rewrite Compare_refl|inversion Hd; subst; auto]);
    assert (geq h x) as G by (apply (geq_trans h y x); [done..|]; unfold geq;
      rewrite (Compare_antisym x y) by done; lia);
    unfold geq in G; rewrite (Compare_antisym x h) in G; (done || lia).
  assert (nul_free h = true) as Vh by (apply Hv; left).
  assert (nul_free h' = true) as Vh' by (apply Hv; right; left).
  assert (∀ x, x ∈ h' :: t → nul_free x = true) as Vt by (intros x Hx; apply Hv; by right).
  inversion Hd as [|? ? Hmax Hd']; subst.
  destruct (Z.eqb_spec (Compare h h') 0) as [E|E]; cbn [negb] in Hin.
  - eapply (IH k h' l); try done. intros x Hx. destruct (Hsub x Hx) as (y & Hy & Ey).
    apply elem_of_cons in Hy as [->|Hy]; [|by exists y]. exists h'. split; [by left|].
    by apply (same_class_trans x h h'); auto.
  - destruct (inequal_outside l h Vh Vl Hl) as [Hl' Hlen].
    assert (∀ x, x ∈ List.filter (outside h) l → x ∈ l ∧ outside h x = true) as Hf.
    { intros x [Hx ?]%list_elem_of_In%filter_In. by rewrite list_elem_of_In. }
    assert (k + 1 + Z.of_nat (length (List.filter (outside h) l)) < n); [|lia].
    eapply (IH (k + 1) h'); try done.
    + intros x [Hx _]%Hf. by apply Vl.
    + intros x [Hx _]%Hf. by apply Hnew.
    + intros x [Hx Ho]%Hf. destruct (Hsub x Hx) as (y & Hy & Ey).
      apply elem_of_cons in Hy as [->|Hy]; [|by exists y].
      unfold outside in Ho. by rewrite Ey in Ho.
Qed.

(** Membership in the retention set. *)
Lemma keep_mem versions n v :
  (∀ x, x ∈ versions → nul_free x = true) →
  v ∈ keepNewestNVersionSet versions n ↔
  v ∈ versions ∧
  ∀ l, inequal l → newer_than v l → (∀ x, x ∈ l → x ∈ versions) →
    Z.of_nat (length l) < (if n <? 1 then defaultMaxVersionsPerPackage else n).
Proof.
  intros Hv. unfold keepNewestNVersionSet. set (N := if n <? 1 then _ else n).
  set (s := sort_by newest_first (distinct_from [] versions)).
  assert (∀ x, x ∈ s ↔ x ∈ versions) as Hs.
  { intros x. unfold s. rewrite elem_of_sort_by, elem_of_distinct.
    split; [by intros [? _]|]. intros ?. split; [done|apply not_elem_of_nil]. }
  assert (descending s) as Hd.
  { apply sorted_descending. intros x [Hx _]%elem_of_distinct. auto. }
  assert (∀ x, x ∈ s → nul_free x = true) as Vs by (intros x Hx%Hs; auto).
  destruct s as [|h t].
  { split; [by intros ?%elem_of_nil|]. by intros [?%Hs%elem_of_nil _]. }
  rewrite keep_loop_from. split.
  - intros Hin. assert (v ∈ h :: t) as Hvs.
    { revert Hin. generalize 0. clear. revert h. induction t as [|h' t IH]; intros h k Hin; simpl in Hin;
        destruct (N <=? k); try (by apply elem_of_nil in Hin);
        apply elem_of_cons in Hin as [->|Hin]; try (by left); try (by apply elem_of_nil in Hin).
      right. by eapply IH. }
    split; [by apply Hs|]. intros l Hl Hnew Hsub.
    apply (kept_newer N 0 h t v l); try done.
    + intros x Hx. auto.
    + intros x Hx. exists x. split; [apply Hs; auto|]. apply Compare_refl. auto.
  - intros [Hin%Hs Hlt]. destruct (decide (v ∈ keep_from N 0 h t)) as [|Hn]; [done|].
    destruct (dropped_newer N 0 h t v Vs Hd Hin Hn) as (l & Hl & Hnew & Hsub & Hlen).
    assert (Z.of_nat (length l) < N); [|lia]. apply Hlt; [done..|]. intros x Hx. apply Hs. auto.
Qed.

Lemma keep_ext l l' n v :
  (∀ x, x ∈ l → nul_free x = true) → (∀ x, x ∈ l ↔ x ∈ l') →
  v ∈ keepNewestNVersionSet l n ↔ v ∈ keepNewestNVersionSet l' n.
Proof.
  intros Hl E. rewrite !keep_mem; [|by intros x Hx%E; apply Hl|done]. rewrite E.
  split; (intros [? Hlt]; split; [done|]); intros k Hk Hn Hs; apply Hlt; try done;
    intros x Hx; apply E; auto.
Qed.

Lemma newer_than_class v w l :
  nul_free v = true → nul_free w = true → (∀ x, x ∈ l → nul_free x = true) →
  Compare v w = 0 → newer_than v l → newer_than w l.
Proof.
  intros Hv Hw Hl E Hn x Hx. specialize (Hn x Hx). pose proof (Hl x Hx) as Vx.
  destruct (Z.le_gt_cases (Compare x w) 0) as [Hle|]; [|lia].
  assert (Compare x v <= 0); [|lia]. apply (Compare_trans x w v); [done..|].
  rewrite (Compare_antisym v w) by done. lia.
Qed.

(** The retention set is what "the newest N versions" means: a version
    is kept iff it is listed and the list has fewer than N classes of strictly
    newer versions, an N below 1 standing for the default.  Texts that dpkg
    calls equal share one slot: they stay or go together.  And neither the
    order nor the repetitions of the list matter. *)
Theorem keepNewestNVersionSet_spec versions n :
  (∀ x, x ∈ versions → nul_free x = true) →
  (∀ v, v ∈ keepNewestNVersionSet versions n ↔
     v ∈ versions ∧
     ∀ l, inequal l → newer_than v l → (∀ x, x ∈ l → x ∈ versions) →
       Z.of_nat (length l) < (if n <? 1 then defaultMaxVersionsPerPackage else n)) ∧
  (∀ v w, v ∈ versions → w ∈ versions → Compare v w = 0 →
     v ∈ keepNewestNVersionSet versions n → w ∈ keepNewestNVersionSet versions n) ∧
  (∀ l v, (∀ x, x ∈ versions ↔ x ∈ l) →
     v ∈ keepNewestNVersionSet versions n ↔ v ∈ keepNewestNVersionSet l n).
Proof.
  intros Hv. split_and!.
  - intros v. by apply keep_mem.
  - intros v w Hvin Hw E. rewrite !keep_mem by done. intros [_ Hlt]. split; [done|].
    intros l Hl Hn Hs. apply Hlt; try done.
    apply (newer_than_class w v); auto. rewrite (Compare_antisym v w) by auto. lia.
  - intros l v E. by apply keep_ext.
Qed.
End keep_laws.

(** ** The collector: laws *)

Lemma last_default {A} (x : A) l a b : List.last (x :: l) a = List.last (x :: l) b.
Proof. revert x. induction l as [|y l IH]; intros x; [done|]. exact (IH y). Qed.

Section gc_laws.
Context `{TableScan}.

(** The verdict without the memo: the union of the rules. *)
Definition group_of (k : URLKey) (m : matchRow) : TopNKey :=
  (key_scheme k, key_host k, mr_suite m, mr_name m, mr_arch m).

Definition ranked_in (d : DB) (k : URLKey) (maxV : Z) (m : matchRow) : bool :=
  bool_decide (mr_version m ∈ keepNewestNVersionSet (group_versions d (group_of k m)) maxV).

Definition retained (d : DB) (k : URLKey) (u : URLPath) (cutoff maxV : Z) : bool :=
  recent cutoff (up_last_requested u) || guarded d k (up_blob u)
  || match up_blob u with
     | None => false
     | Some h => negb (String.eqb h "")
                 && (existsb incomplete (mirror_matches d k h)
                     || existsb (ranked_in d k maxV) (mirror_matches d k h))
     end.

Definition memo_ok (d : DB) (maxV : Z) (c : Memo) : Prop :=
  ∀ g set, c !! g = Some set → set = keepNewestNVersionSet (group_versions d g) maxV.

Lemma topN_memo d g maxV c set c' :
  memo_ok d maxV c → topNVersionSetTx d g maxV c = (set, c') →
  set = keepNewestNVersionSet (group_versions d g) maxV ∧ memo_ok d maxV c'.
Proof.
  intros Hc E. unfold topNVersionSetTx in E. destruct (c !! g) as [s|] eqn:Eg; simplify_eq.
  - split; [by apply Hc|done].
  - split; [done|]. intros g' s' [[<- <-]|[_ Hs]]%lookup_insert_Some; [done|by apply Hc].
Qed.

Lemma mirrored_memo d k maxV l c b c' :
  memo_ok d maxV c → mirrored d k maxV l c = (b, c') →
  b = existsb (ranked_in d k maxV) l ∧ memo_ok d maxV c'.
Proof.
  revert c. induction l as [|m l IH]; intros c Hc E; simpl in E; [by simplify_eq|].
  destruct (topNVersionSetTx _ _ _ c) as [set c1] eqn:E1.
  destruct (topN_memo _ _ _ _ _ _ Hc E1) as [-> Hc1]. simpl. unfold ranked_in at 1, group_of at 1.
  case_bool_decide as Hin; [|by rewrite bool_decide_false; [eapply IH|]].
  rewrite bool_decide_true by done. by simplify_eq.
Qed.

(** The memo never changes a verdict. *)
Lemma urlPathRetainedTx_memo d k u cutoff maxV c b c' :
  memo_ok d maxV c →
  urlPathRetainedTx d k (up_blob u) (up_last_requested u) cutoff maxV c = (b, c') →
  b = retained d k u cutoff maxV ∧ memo_ok d maxV c'.
Proof.
  intros Hc E. unfold urlPathRetainedTx, retained in *.
  destruct (recent _ _); [by simplify_eq|]. destruct (guarded _ _ _); [by simplify_eq|]. simpl.
  destruct (up_blob u) as [h|]; [|by simplify_eq]. destruct (String.eqb h ""); [by simplify_eq|].
  simpl. destruct (existsb incomplete _); [by simplify_eq|]. by eapply mirrored_memo.
Qed.

(** The tables a verdict reads. *)
Definition held (d0 d : DB) : Prop :=
  suite_t d = suite_t d0 ∧ snap_t d = snap_t d0 ∧ member_t d = member_t d0 ∧ pkg_t d = pkg_t d0.

Lemma held_retained d0 d k u cutoff maxV :
  held d0 d → retained d k u cutoff maxV = retained d0 k u cutoff maxV ∧
  ∀ g, group_versions d g = group_versions d0 g.
Proof.
  intros (E1 & E2 & E3 & E4).
  unfold retained, ranked_in, guarded, mirror_matches, match_row, group_versions, group_row, is_current.
  by rewrite E1, E2, E3, E4.
Qed.

Lemma held_memo d0 d maxV c : held d0 d → memo_ok d0 maxV c → memo_ok d maxV c.
Proof.
  intros Hh Hc g set Hg. rewrite (Hc g set Hg). f_equal. symmetry.
  by apply (held_retained d0 d ("", "", "") {| up_blob := None; up_upstream := "";
    up_is_metadata := false; up_last_requested := None; up_request_count := 0;
    up_last_fetched := None; up_etag := None; up_lastmod := None; up_dropped := None |} 0 0).
Qed.

(** What becomes of a row. *)
Definition gc_row (keep : bool) (hold now : Z) (u : URLPath) : option URLPath :=
  match row_verdict keep hold now (up_dropped u) with
  | Retained => Some (set_dropped None u)
  | Delete => None
  | Stamp => Some (set_dropped (Some now) u)
  | InGrace => Some u
  end.

Definition releases (keep : bool) (hold now : Z) (u : URLPath) (h : string) : bool :=
  match row_verdict keep hold now (up_dropped u) with
  | Delete => bool_decide (up_blob u = Some h) && negb (String.eqb h "")
  | _ => false
  end.

Lemma delete_row_run k u now d :
  url_t d !! k = Some u →
  ∃ d', deleteURLPathRowTx k (up_blob u) now d = Ok (tt, d') ∧ held d d' ∧
    (∀ k', url_t d' !! k' = if bool_decide (k' = k) then None else url_t d !! k') ∧
    (∀ h, b_refcount <$> blob_t d' !! h =
          (λ b, b_refcount b - Z.b2z (bool_decide (up_blob u = Some h) && negb (String.eqb h "")))
            <$> blob_t d !! h).
Proof.
  intros Hk.
  assert (∀ k', delete k (url_t d) !! k' = if bool_decide (k' = k) then None else url_t d !! k') as Hd.
  { intros k'. case_bool_decide; [subst; by rewrite lookup_delete_eq|by rewrite lookup_delete_ne]. }
  assert (∀ n h, n = false → b_refcount <$> blob_t d !! h =
            (λ b, b_refcount b - Z.b2z n) <$> blob_t d !! h) as Hz.
  { intros n h ->. destruct (blob_t d !! h); simpl; [f_equal; lia|done]. }
  unfold deleteURLPathRowTx, mbind, M_bind, mget. rewrite Hk.
  destruct (up_blob u) as [h0|]; [destruct (String.eqb h0 "") eqn:Eh0|]; eexists;
    (split; [reflexivity|]); split_and!; try done; intros h; simpl.
  - apply Hz. apply String.eqb_eq in Eh0. subst h0.
    case_bool_decide as E; [|done]. by injection E as <-.
  - rewrite lookup_update_where. destruct (blob_t d !! h); simpl; [|done]. f_equal.
    destruct (String.eqb_spec h h0) as [->|Hne].
    + rewrite bool_decide_true, Eh0 by done. simpl. lia.
    + rewrite bool_decide_false by congruence. simpl. lia.
  - by apply (Hz false).
Qed.

Lemma apply_verdict_run keep hold now k u res d :
  url_t d !! k = Some u →
  ∃ res' d', apply_verdict (row_verdict keep hold now (up_dropped u)) (k, u) now res d
               = Ok (res', d') ∧
    held d d' ∧ ug_scanned res' = ug_scanned res ∧ ug_last res' = ug_last res ∧
    ug_deleted res' = ug_deleted res + match gc_row keep hold now u with None => 1 | _ => 0 end ∧
    (∀ k', url_t d' !! k' = if bool_decide (k' = k) then gc_row keep hold now u else url_t d !! k') ∧
    (∀ h, b_refcount <$> blob_t d' !! h =
          (λ b, b_refcount b - Z.b2z (releases keep hold now u h)) <$> blob_t d !! h).
Proof.
  intros Hk. unfold gc_row, releases.
  assert (∀ h, b_refcount <$> blob_t d !! h = (λ b, b_refcount b - Z.b2z false) <$> blob_t d !! h) as Hb0.
  { intros h. destruct (blob_t d !! h); simpl; [f_equal; lia|done]. }
  assert (∀ k', url_t d !! k' = if bool_decide (k' = k) then Some u else url_t d !! k') as Hsame.
  { intros k'. case_bool_decide; [by subst|done]. }
  destruct (row_verdict keep hold now (up_dropped u)); simpl.
  - destruct (up_dropped u) as [t|] eqn:Ed.
    + eexists _, _. split; [reflexivity|]. simpl. split_and!; try done; [lia|].
      intros k'. rewrite lookup_update_where. case_bool_decide as Ek; simpl.
      * subst k'. rewrite Hk. simpl. by rewrite Ed.
      * by destruct (url_t d !! k').
    + eexists _, _. split; [reflexivity|]. split_and!; try done; [lia|].
      replace (set_dropped None u) with u; [done|]. unfold set_dropped. rewrite <-Ed. by destruct u.
  - destruct (delete_row_run k u now d Hk) as (d' & Hrun & Hh & Hu & Hb).
    eexists _, d'. split; [apply mbind_ok; exists tt, d'; split; [exact Hrun|reflexivity]|].
    by split_and!.
  - eexists _, _. split; [reflexivity|]. simpl. split_and!; try done; [lia|].
    intros k'. rewrite lookup_update_where. case_bool_decide as Ek; simpl.
    + subst k'. by rewrite Hk.
    + by destruct (url_t d !! k').
  - eexists _, _. split; [reflexivity|]. split_and!; try done. lia.
Qed.

Definition keeps (d : DB) (cutoff maxV : Z) (r : URLKey * URLPath) : bool :=
  retained d r.1 r.2 cutoff maxV.

Definition deletes (d : DB) (cutoff maxV hold now : Z) (r : URLKey * URLPath) : bool :=
  match gc_row (keeps d cutoff maxV r) hold now r.2 with None => true | Some _ => false end.

Definition released (d : DB) (cutoff maxV hold now : Z) (h : string)
    (batch : list (URLKey * URLPath)) : Z :=
  Z.of_nat (length (List.filter (λ r, releases (keeps d cutoff maxV r) hold now r.2 h) batch)).

Lemma url_loop_run d0 cutoff hold maxV now batch c res d :
  memo_ok d0 maxV c → held d0 d → NoDup (map fst batch) →
  (∀ r, r ∈ batch → url_t d !! r.1 = Some r.2) →
  ∃ res' d', url_loop cutoff hold maxV now c res batch d = Ok (res', d') ∧ held d0 d' ∧
    ug_scanned res' = ug_scanned res + Z.of_nat (length batch) ∧
    ug_last res' = List.last (map fst batch) (ug_last res) ∧
    ug_deleted res' = ug_deleted res +
      Z.of_nat (length (List.filter (deletes d0 cutoff maxV hold now) batch)) ∧
    (∀ r, r ∈ batch → url_t d' !! r.1 = gc_row (keeps d0 cutoff maxV r) hold now r.2) ∧
    (∀ k, k ∉ map fst batch → url_t d' !! k = url_t d !! k) ∧
    (∀ h, b_refcount <$> blob_t d' !! h =
          (λ b, b_refcount b - released d0 cutoff maxV hold now h batch) <$> blob_t d !! h).
Proof.
  revert c res d. induction batch as [|[k u] batch IH]; intros c res d Hc Hh Hnd Hin; simpl.
  { exists res, d. split_and!; try done; try lia; [by intros r ?%elem_of_nil|].
    intros h. unfold released. simpl. destruct (blob_t d !! h); simpl; [f_equal; lia|done]. }
  apply NoDup_cons in Hnd as [Hk Hnd]. simpl in Hk.
  assert (url_t d !! k = Some u) as Hku by (apply (Hin (k, u)); left).
  destruct (urlPathRetainedTx d k (up_blob u) (up_last_requested u) cutoff maxV c) as [b c1] eqn:E.
  assert (memo_ok d maxV c) as Hcd by by eapply held_memo.
  destruct (urlPathRetainedTx_memo _ _ _ _ _ _ _ _ Hcd E) as [-> Hc1].
  rewrite (proj1 (held_retained d0 d k u cutoff maxV Hh)) in E.
  change (retained d0 k u cutoff maxV) with (keeps d0 cutoff maxV (k, u)) in E.
  set (keep := keeps d0 cutoff maxV (k, u)) in *. set (res0 := Build_URLPathGCBatchResult _ _ _ _ _).
  destruct (apply_verdict_run keep hold now k u res0 d Hku)
    as (res1 & d1 & Hrun & Hh1 & Hs1 & Hl1 & Hd1 & Hu1 & Hb1).
  assert (held d0 d1) as Hh01.
  { destruct Hh as (?&?&?&?), Hh1 as (?&?&?&?). split_and!; congruence. }
  assert (memo_ok d0 maxV c1) as Hc01.
  { apply (held_memo d); [|done]. destruct Hh as (?&?&?&?). split_and!; congruence. }
  destruct (IH c1 res1 d1 Hc01 Hh01 Hnd) as (res' & d' & Hrun' & Hh' & Hs & Hl & Hdel & Hrow & Hrest & Hb).
  { intros r Hr. rewrite Hu1, bool_decide_false; [apply Hin; by right|].
    intros Hrk. apply Hk. rewrite <-Hrk. by apply list_elem_of_fmap_2. }
  exists res', d'. split_and!; try done.
  - apply mbind_ok. exists d, d. split; [reflexivity|]. rewrite E. apply mbind_ok.
    exists res1, d1. split; [exact Hrun|exact Hrun'].
  - rewrite Hs, Hs1. simpl. lia.
  - rewrite Hl, Hl1. simpl. destruct batch; [done|]. simpl. apply last_default.
  - rewrite Hdel, Hd1. unfold deletes at 2. simpl. fold keep. destruct (gc_row keep hold now u); simpl; lia.
  - intros r [->|Hr]%elem_of_cons; [|by apply Hrow].
    simpl. rewrite Hrest, Hu1 by done. by rewrite bool_decide_true.
  - intros k' [Hne Hk']%not_elem_of_cons. rewrite Hrest, Hu1 by done. by rewrite bool_decide_false.
  - intros h. rewrite Hb. specialize (Hb1 h).
    destruct (blob_t d1 !! h) as [b1|], (blob_t d !! h) as [b|]; simpl in *; try done.
    injection Hb1 as Hb1. f_equal. rewrite Hb1. unfold released. simpl. fold keep.
    destruct (releases keep hold now u h); simpl; lia.
Qed.

Lemma elem_of_page d after cutoff n r :
  r ∈ url_page d after cutoff n → url_t d !! r.1 = Some r.2 ∧ page_row after cutoff r = true.
Proof.
  intros Hin. unfold url_page in Hin.
  assert (r ∈ List.filter (page_row after cutoff) (map_to_list (url_t d))) as Hf.
  { apply (elem_of_sort_by key_order). unfold sql_limit in Hin. destruct (_ <? _); [done|].
    apply list_elem_of_lookup_1 in Hin as (i & Hi). apply lookup_take_Some in Hi as [Hi _].
    by eapply list_elem_of_lookup_2. }
  destruct r as [k u]. by apply (elem_of_scan_filter (H := key_order_scan)) in Hf.
Qed.

Lemma page_nodup d after cutoff n : 0 <= n → NoDup (map fst (url_page d after cutoff n)).
Proof. apply (selected_nodup (H := key_order_scan) key_order). Qed.

(** What a page leaves for the next one comes after all of it. *)
Lemma page_complete d after cutoff n k u :
  0 <= n → url_t d !! k = Some u → page_row after cutoff (k, u) = true →
  k ∉ map fst (url_page d after cutoff n) →
  Z.of_nat (length (url_page d after cutoff n)) = n ∧
  ∀ k', k' ∈ map fst (url_page d after cutoff n) → key_leb k' k = true.
Proof.
  intros Hn Hk HP Hnin. change (map fst (url_page d after cutoff n)) with
    (@selected key_order_scan _ _ _ _ key_order (page_row after cutoff) n (url_t d)) in *.
  rewrite <-(length_map fst (url_page d after cutoff n)).
  change (map fst (url_page d after cutoff n)) with
    (@selected key_order_scan _ _ _ _ key_order (page_row after cutoff) n (url_t d)).
  pose proof (@selected_length key_order_scan _ _ _ _ key_order (page_row after cutoff) n
                (url_t d) Hn) as Hle.
  split.
  - destruct (Z.eq_dec (Z.of_nat (length (@selected key_order_scan _ _ _ _ key_order
      (page_row after cutoff) n (url_t d)))) n); [done|].
    destruct Hnin. eapply selected_all; [done|lia|exact Hk|exact HP].
  - intros k' Hk'. destruct (selected_elem _ _ _ _ _ Hk') as (u' & Hu' & _).
    change (key_order (k', u') (k, u) = true).
    eapply (selected_first (H := key_order_scan) key_order); [..|exact Hnin]; try done.
    + intros a b. apply key_leb_total.
    + intros a b c. apply key_leb_trans.
Qed.

Lemma wf_url_loop cutoff hold maxV now c res batch :
  triple wf (url_loop cutoff hold maxV now c res batch) (λ _, wf).
Proof.
  revert c res. induction batch as [|r batch IH]; intros c res; simpl; [apply triple_ret|].
  apply (triple_seq wf wf); [apply triple_get|intros d0].
  destruct (urlPathRetainedTx _ _ _ _ _ _ c) as [keep c1].
  apply (triple_seq wf wf); [|intros res1; apply IH].
  assert (∀ P g, (∀ u, up_blob (g u) = up_blob u) →
    triple wf (mmodify (E := cache_error) (upd_url (update_where P g))) (λ _, wf)) as Hup.
  { intros P g Hg d u d' Hwf Hrun. unfold mmodify in Hrun. simplify_eq. apply wf_upd_url; [done|].
    intros k x h (x0 & Hx0 & ->)%lookup_update_where_Some Hb.
    eapply (fk_url d (wf_fk d Hwf)); [exact Hx0|]. destruct (P k x0); [by rewrite <-Hg|done]. }
  destruct (row_verdict _ _ _ _); simpl; mkeep; by apply Hup.
Qed.

Lemma wf_RunURLPathGCBatch n ttl hold maxV after now :
  triple wf (RunURLPathGCBatch n ttl hold maxV after now) (λ _, wf).
Proof. pose proof wf_url_loop. unfold RunURLPathGCBatch. mkeep. Qed.

(** A batch over its page. *)
Lemma RunURLPathGCBatch_run batchSize ttl hold maxV after now d :
  1 <= batchSize → 0 < ttl →
  let N := if maxV <? 1 then defaultMaxVersionsPerPackage else maxV in
  let page := url_page d after (now - ttl) batchSize in
  ∃ res d', RunURLPathGCBatch batchSize ttl hold maxV after now d = Ok (res, d') ∧ held d d' ∧
    ug_scanned res = Z.of_nat (length page) ∧
    ug_last res = List.last (map fst page) after ∧
    ug_deleted res = Z.of_nat (length (List.filter (deletes d (now - ttl) N hold now) page)) ∧
    (∀ r, r ∈ page → url_t d' !! r.1 = gc_row (keeps d (now - ttl) N r) hold now r.2) ∧
    (∀ k, k ∉ map fst page → url_t d' !! k = url_t d !! k) ∧
    (∀ h, b_refcount <$> blob_t d' !! h =
          (λ b, b_refcount b - released d (now - ttl) N hold now h page) <$> blob_t d !! h).
Proof.
  intros Hn Httl N page.
  set (res0 := Build_URLPathGCBatchResult 0 0 0 0 after).
  destruct (url_loop_run d (now - ttl) hold N now page ∅ res0 d)
    as (res & d' & Hrun & Hh & Hs & Hl & Hd & Hrow & Hrest & Hb); [by intros ? ?|done|apply page_nodup; lia|..].
  { intros r Hr. by apply elem_of_page in Hr as [? _]. }
  exists res, d'. split_and!; try done.
  unfold RunURLPathGCBatch. apply mbind_ok. exists tt, d. split.
  { apply massert_ok. split; [by destruct (Z.ltb_spec batchSize 1); [lia|]|done]. }
  apply mbind_ok. exists tt, d. split; [|exact Hrun].
  apply massert_ok. split; [by destruct (Z.leb_spec ttl 0); [lia|]|done].
Qed.

(** C27. A batch of the url_path collector does to every row of its page
    what the retention union says, with the hold grace, and nothing to any
    other row or table: a row recently requested, guarded as metadata or
    ranked among the newest N versions of its group is kept and its stamp
    cleared; any other is stamped, left in its grace, or deleted once the
    grace is over.  The batch's memo of rankings never changes a verdict.
    Each deletion releases its blob once, the counts reported are right, and
    a short page leaves no row behind it: the cursor visits every row. *)
Theorem RunURLPathGCBatch_correct batchSize ttl hold maxV after now d :
  wf d → 1 <= batchSize → 0 < ttl →
  let N := if maxV <? 1 then defaultMaxVersionsPerPackage else maxV in
  let page := url_page d after (now - ttl) batchSize in
  ∃ res d', RunURLPathGCBatch batchSize ttl hold maxV after now d = Ok (res, d') ∧
    wf d' ∧ held d d' ∧
    (∀ k u, url_t d !! k = Some u → k ∈ map fst page →
       url_t d' !! k = gc_row (retained d k u (now - ttl) N) hold now u) ∧
    (∀ k, k ∉ map fst page → url_t d' !! k = url_t d !! k) ∧
    (∀ k u, url_t d !! k = Some u → url_t d' !! k = None →
       retained d k u (now - ttl) N = false ∧
       (hold <= 0 ∨ ∃ t, up_dropped u = Some t ∧ hold <= now - t)) ∧
    ug_scanned res = Z.of_nat (length page) ∧
    ug_deleted res = Z.of_nat (length (List.filter (deletes d (now - ttl) N hold now) page)) ∧
    (∀ h, b_refcount <$> blob_t d' !! h =
          (λ b, b_refcount b - released d (now - ttl) N hold now h page) <$> blob_t d !! h) ∧
    (∀ k u, url_t d !! k = Some u → page_row after (now - ttl) (k, u) = true →
       k ∉ map fst page → Z.of_nat (length page) = batchSize ∧
       ∀ k', k' ∈ map fst page → key_leb k' k = true).
Proof.
  intros Hwf Hn Httl N page.
  destruct (RunURLPathGCBatch_run batchSize ttl hold maxV after now d Hn Httl)
    as (res & d' & Hall & Hh & Hs & _ & Hd & Hrow & Hrest & Hb). fold N page in Hd, Hrow, Hrest, Hb.
  assert (∀ k u, url_t d !! k = Some u → k ∈ map fst page →
            url_t d' !! k = gc_row (retained d k u (now - ttl) N) hold now u) as Hin.
  { intros k u Hk ([k' u'] & -> & Hr)%list_elem_of_fmap_1. simpl in *.
    pose proof (elem_of_page _ _ _ _ _ Hr) as [Hk' _]. simpl in Hk'.
    rewrite Hk in Hk'. simplify_eq. exact (Hrow _ Hr). }
  exists res, d'. split_and!; try done.
  - by eapply wf_RunURLPathGCBatch.
  - intros k u Hk Hnone. destruct (decide (k ∈ map fst page)) as [Hp|Hp].
    + rewrite (Hin k u Hk Hp) in Hnone. unfold gc_row, row_verdict in Hnone.
      destruct (retained d k u _ N); [done|]. split; [done|].
      destruct (Z.leb_spec hold 0); [by left|]. right. simpl in Hnone.
      destruct (up_dropped u) as [t|]; [|done].
      destruct (Z.leb_spec hold (now - t)); [by exists t|done].
    + rewrite Hrest in Hnone by done. congruence.
  - intros k u Hk HP Hnp. apply (page_complete d after (now - ttl) batchSize k u); (done || lia).
Qed.
End gc_laws.

#[export] Hint Resolve wf_RunURLPathGCBatch : wf.
