(* ===== verification/Rows.v ===== *)
(** * Cached paths ([internal/cache/queries.go], [anchorless.go],
    [legacy_refresh.go])

    The reads and writes of url_path that serving and refreshing use, the
    invalidation of a suite's legacy metadata with the generation fence, and
    the hot set a new snapshot prefetches. *)
From S2P Require Import Prelude GoStrings AptPath DebVersion Tables Invariant Snapshots Suites GC Retention.
Local Open Scope Z_scope.

(** ** Lookups and touches *)

Definition LookupURL (d : DB) (k : URLKey) : result cache_error URLPath :=
  match url_t d !! k with Some u => Ok u | None => Err ErrNotFound end.

(** The newer of a row's two stamps. *)
Definition LastUse (u : URLPath) : Z :=
  let seen := default 0 (up_last_requested u) in
  match up_last_fetched u with
  | Some f => if seen <? f then f else seen
  | None => seen
  end.

(** The by-hash gate: the blob was fetched through this very host. *)
Definition HostHasBlob (d : DB) (scheme host blob : string) : result cache_error bool :=
  if negb (validBlobHash blob) then Err ErrInvalidHash
  else Ok (exists_where (λ k u, String.eqb (key_scheme k) scheme && String.eqb (key_host k) host
                                && same_blob (up_blob u) (Some blob)) (url_t d)).

Definition touch_row (now : Z) (u : URLPath) : URLPath :=
  {| up_blob := up_blob u; up_upstream := up_upstream u; up_is_metadata := up_is_metadata u;
     up_last_requested := Some now; up_request_count := up_request_count u + 1;
     up_last_fetched := up_last_fetched u; up_etag := up_etag u; up_lastmod := up_lastmod u;
     up_dropped := None |}.

Definition TouchURLPath (k : URLKey) (now : Z) : T unit :=
  mmodify (upd_url (update_where (λ k' _, bool_decide (k' = k)) (touch_row now))).

(** ** The anchorless refresh's writes *)

Section refresh.
Context `{HTTPTime}.

Definition refresh_row (newHash : string) (etag lastmod : option string) (now : Z) (u : URLPath)
    : URLPath :=
  {| up_blob := Some newHash; up_upstream := up_upstream u; up_is_metadata := up_is_metadata u;
     up_last_requested := up_last_requested u; up_request_count := up_request_count u;
     up_last_fetched := if same_blob (up_blob u) (Some newHash) then up_last_fetched u
                        else Some (Z.max now (default 0 (up_last_fetched u) + 1));
     up_etag := etag; up_lastmod := lastmod; up_dropped := up_dropped u |}.

Definition RefreshURLPathBlob (k : URLKey) (old newHash : string) (etag lastmod : option string)
    (now : Z) : T bool :=
  _ ← massert (validBlobHash old && validBlobHash newHash) ErrInvalidHash;
  d ← mget;
  match url_t d !! k with
  | Some u =>
      if same_blob (up_blob u) (Some old) then
        _ ← massert (has_blob d newHash) ForeignKeyViolation;
        _ ← mmodify (upd_url (<[k := refresh_row newHash etag lastmod now u]>));
        let date := match lastmod with Some l => HTTPDate now l | None => "" end in
        _ ← putRepresentation k newHash date now;
        mret true
      else mret false
  | None => mret false
  end.
End refresh.

(** [DeleteURLPathRows]: each row that still holds the blob it was read
    with. *)
Definition delete_read_row (now : Z) (r : URLKey * option string) : T bool :=
  d ← mget;
  match url_t d !! r.1 with
  | None => mret false
  | Some u =>
      if bool_decide (up_blob u = r.2)
      then _ ← deleteURLPathRowTx r.1 (up_blob u) now; mret true
      else mret false
  end.

Definition DeleteURLPathRows (rows : list (URLKey * option string)) (now : Z) : T Z :=
  mcount (delete_read_row now) rows.

(** ** Invalidating a suite's legacy metadata *)

Fixpoint contains (s sub : string) : bool :=
  has_prefix sub s || match s with EmptyString => false | String _ s => contains s sub end.

Definition str_ltb (a b : string) : bool := match str_cmp a b with Lt => true | _ => false end.

Definition keysetBatch : nat := 256.

(** The metadata paths of the suite's directory, after the cursor. *)
Definition metadata_after (k : SuiteKey) (after : string) (e : URLKey * URLPath) : bool :=
  String.eqb (key_scheme e.1) (key_scheme k) && String.eqb (key_host e.1) (key_host k)
  && up_is_metadata e.2 && str_ltb after (key_path e.1)
  && str_ltb (key_path e.1) (key_path k +:+ "0").

Definition metadata_page (d : DB) (k : SuiteKey) (after : string) : list string :=
  take keysetBatch (sort_by str_leb
    (map (λ e : URLKey * URLPath, key_path e.1)
       (List.filter (metadata_after k after) (map_to_list (url_t d))))).

Definition invalidated (k : SuiteKey) (p : string) : bool :=
  String.eqb (SuitePath p) (key_path k) && negb (contains p "/by-hash/").

Fixpoint invalidate_loop (fuel : nat) (k : SuiteKey) (after : string) (now : Z) : T unit :=
  match fuel with
  | O => mret tt
  | S fuel =>
      d ← mget;
      let rows := metadata_page d k after in
      _ ← mfor (λ p, _ ← deleteCachedRowTx (key_scheme k, key_host k, p) now; mret tt)
            (List.filter (invalidated k) rows);
      if (length rows <? keysetBatch)%nat then mret tt
      else invalidate_loop fuel k (List.last rows after) now
  end.

Definition bump_generation (k : SuiteKey) : T unit :=
  _ ← mmodify (upd_clock (λ g, g + 1));
  mmodify (λ d, upd_suite (update_where (λ k' _, bool_decide (k' = k))
    (λ f, {| sf_last_check := sf_last_check f; sf_last_success := sf_last_success f;
             sf_etag := sf_etag f; sf_lastmod := sf_lastmod f; sf_change_seen := sf_change_seen f;
             sf_current := sf_current f; sf_last_requested := sf_last_requested f;
             sf_check_fail := sf_check_fail f;
             sf_fail_hash := sf_fail_hash f; sf_fail_reason := sf_fail_reason f;
             sf_fail_count := sf_fail_count f; sf_fail_first := sf_fail_first f;
             sf_fail_last := sf_fail_last f; sf_next_retry := sf_next_retry f;
             sf_fail_etag := sf_fail_etag f; sf_fail_lastmod := sf_fail_lastmod f;
             sf_rowid := sf_rowid f; sf_generation := meta_clock d |})) d).

(** Every page advances the cursor past at least one row, so the number of
    rows is enough fuel. *)
Definition InvalidateLegacyMetadata (k : SuiteKey) (anchorPath oldHash : string) (now : Z)
    : T unit :=
  _ ← massert (IsCanonicalSuitePath (key_path k)
               && (String.eqb anchorPath (key_path k +:+ "/InRelease")
                   || String.eqb anchorPath (key_path k +:+ "/Release"))
               && validBlobHash oldHash) ErrBadArgument;
  d ← mget;
  match suite_t d !! k with
  | None => mfail ErrNotFound
  | Some f =>
      _ ← massert (negb (is_set (sf_current f))) ErrAdoptionRequired;
      match url_t d !! (key_scheme k, key_host k, anchorPath) with
      | None => mfail ErrNotFound
      | Some u =>
          match up_blob u with
          | None => mfail ErrNullColumn
          | Some h =>
              _ ← massert (String.eqb h oldHash) ErrMetadataChanged;
              _ ← invalidate_loop (S (size (url_t d))) k (key_path k +:+ "/") now;
              bump_generation k
          end
      end
  end.

(** ** The hot set *)

Definition pair_leb (a b : string * string) : bool :=
  match str_cmp a.1 b.1 with
  | Lt => true | Gt => false
  | Eq => str_leb a.2 b.2
  end.

(** Stage 1: the (package, architecture) pairs of the prior snapshot with a
    recently requested path. *)
Definition hot_row (d : DB) (prior hotSince : Z) (e : (URLKey * Z) * Package) : bool :=
  (e.1.2 =? prior) && negb (String.eqb (ph_name e.2) "") && negb (String.eqb (ph_arch e.2) "")
  && match url_t d !! e.1.1 with
     | Some u => recent hotSince (up_last_requested u)
     | None => false
     end.

Definition hot_pairs (d : DB) (prior hotSince : Z) : list (string * string) :=
  sort_by pair_leb (remove_dups
    (map (λ e, (ph_name e.2, ph_arch e.2))
       (List.filter (hot_row d prior hotSince) (map_to_list (pkg_t d))))).

Record HotSetEntry := { hs_path : string; hs_declared : string }.

(** Stage 2: the candidate's rows of one pair, the versioned ones capped. *)
Definition pair_rows (cand : list PackageHash) (p : string * string) : list PackageHash :=
  sort_by (λ a b, str_leb (key_path (pkh_key a)) (key_path (pkh_key b)))
    (List.filter (λ r, String.eqb (pkh_name r) p.1 && String.eqb (pkh_arch r) p.2
                       && negb (String.eqb (pkh_name r) "") && negb (String.eqb (pkh_arch r) ""))
       cand).

Definition versions_of (l : list PackageHash) : list string :=
  map pkh_version (List.filter (λ r, negb (String.eqb (pkh_version r) "")) l).

Definition warmed (maxV : Z) (l : list PackageHash) (r : PackageHash) : bool :=
  String.eqb (pkh_version r) ""
  || bool_decide (pkh_version r ∈ keepNewestNVersionSet (versions_of l) maxV).

Definition pair_entries (maxV : Z) (l : list PackageHash) : list HotSetEntry :=
  map (λ r, {| hs_path := key_path (pkh_key r); hs_declared := pkh_declared r |})
    (List.filter (warmed maxV l) l).

Definition ComputeHotSet (d : DB) (scheme host : string) (prior candId : Z)
    (cand : list PackageHash) (hotWindow now maxV : Z) : result cache_error (list HotSetEntry) :=
  if (prior =? 0) || (hotWindow =? 0) then Ok []
  else
    let pairs := hot_pairs d prior (now - hotWindow) in
    if (length pairs =? 0)%nat then Ok []
    else if negb (forallb (λ r, String.eqb (key_scheme (pkh_key r)) scheme
                                && String.eqb (key_host (pkh_key r)) host
                                && (pkh_id r =? candId)) cand)
    then Err ErrHotSetCandidateMismatch
    else Ok (flat_map (λ p, pair_entries maxV (pair_rows cand p)) pairs).

(** ** Strict mode's coverage *)

Definition HostCurrentSnapshotsCoverage `{TableScan} (d : DB) (scheme host : string)
    : list (Z * bool) :=
  map (λ e, (e.1, ss_coverage e.2))
    (List.filter (λ e : Z * SuiteSnapshot,
        String.eqb (key_scheme (ss_suite e.2)) scheme && String.eqb (key_host (ss_suite e.2)) host
        && negb (String.eqb (ss_form e.2) FormUnsigned)
        && bool_decide (suite_current d (ss_suite e.2) = Some e.1)) (scan (snap_t d))).

(** ** The writes keep the invariant *)

Section row_laws.

Lemma wf_url_update P g :
  (∀ u, up_blob (g u) = up_blob u) →
  triple wf (mmodify (E := cache_error) (upd_url (update_where P g))) (λ _, wf).
Proof.
  intros Hg d u d' Hwf Hrun. unfold mmodify in Hrun. simplify_eq. apply wf_upd_url; [done|].
  intros k x h (x0 & Hx0 & ->)%lookup_update_where_Some Hb.
  eapply (fk_url d (wf_fk d Hwf)); [exact Hx0|]. destruct (P k x0); [by rewrite <-Hg|done].
Qed.

Lemma wf_TouchURLPath k now : triple wf (TouchURLPath k now) (λ _, wf).
Proof. by apply wf_url_update. Qed.

Lemma wf_RefreshURLPathBlob `{HTTPTime} k old new etag lastmod now :
  triple wf (RefreshURLPathBlob k old new etag lastmod now) (λ _, wf).
Proof.
  intros d r d' Hwf Hrun. unfold RefreshURLPathBlob in Hrun. minv.
  destruct (url_t d !! k) as [u|] eqn:Hk; minv; [|done].
  destruct (same_blob _ _); minv; [|done]. eapply wf_putRepresentation; [|eassumption].
  unfold has_blob in *. bclean. apply wf_upd_url; [done|].
  intros k' x h [[<- <-]|[_ Hx]]%lookup_insert_Some Hb.
  - simpl in Hb. by simplify_eq.
  - eapply (fk_url d (wf_fk d Hwf)); eauto.
Qed.

Lemma wf_DeleteURLPathRows rows now : triple wf (DeleteURLPathRows rows now) (λ _, wf).
Proof. unfold DeleteURLPathRows, delete_read_row. mkeep. Qed.

Lemma wf_invalidate_loop fuel k after now : triple wf (invalidate_loop fuel k after now) (λ _, wf).
Proof.
  revert after. induction fuel as [|fuel IH]; intros after; [apply triple_ret|].
  simpl. mkeep.
Qed.

Lemma wf_bump_generation k : triple wf (bump_generation k) (λ _, wf).
Proof.
  intros d r d' Hwf Hrun. unfold bump_generation in Hrun. minv.
  destruct Hwf as [[H1 H2 H3 H4 H5 H6] Hs Hc Hb Hg]. split; [split| | | |]; try done; simpl.
  - intros k' f id (f0 & Hf0 & ->)%lookup_update_where_Some Hf.
    destruct (Hc k' f0 id Hf0) as (s & ?); [by destruct (bool_decide _)|]. by exists s.
  - intros h b Hh. destruct (Hb h b Hh) as [Hok Hle]. split; [done|].
    etrans; [exact Hle|]. apply Z.eq_le_incl. symmetry.
    apply (live_refs_suite_ext (upd_clock (λ g, g + 1) d)). intros k'.
    rewrite lookup_update_where. simpl. destruct (suite_t d !! k'); simpl; [|done].
    by destruct (bool_decide _).
  - intros k' f (f0 & Hf0 & ->)%lookup_update_where_Some. specialize (Hg k' f0 Hf0).
    destruct (bool_decide _); simpl; lia.
Qed.

#[local] Hint Resolve wf_invalidate_loop wf_bump_generation : wf.

Lemma wf_InvalidateLegacyMetadata k anchor old now :
  triple wf (InvalidateLegacyMetadata k anchor old now) (λ _, wf).
Proof.
  unfold InvalidateLegacyMetadata. mkeep.
Qed.
End row_laws.

#[export] Hint Resolve wf_TouchURLPath wf_RefreshURLPathBlob wf_DeleteURLPathRows
  wf_InvalidateLegacyMetadata : wf.

(** ** Keyset pages cover the suite *)

Section keyset.

Lemma str_cmp_app s a b : str_cmp (s +:+ a) (s +:+ b) = str_cmp a b.
Proof.
  unfold str_cmp. induction s as [|c s IH]; [done|]. simpl.
  assert (Ascii.compare c c = Eq) as ->; [|done].
  unfold Ascii.compare. by apply N.compare_eq_iff.
Qed.

(** The key range from "suite/" to "suite0" holds what is under the suite. *)
Lemma in_directory suite m :
  m ≠ "" → str_ltb (suite +:+ "/") (suite +:+ "/" +:+ m) = true ∧
           str_ltb (suite +:+ "/" +:+ m) (suite +:+ "0") = true.
Proof.
  intros Hm. unfold str_ltb. rewrite !str_cmp_app. split.
  - change ("/" +:+ m) with (String "/" m). destruct m; [done|]. reflexivity.
  - reflexivity.
Qed.

Lemma str_ltb_leb a b : str_leb a b = true → a ≠ b → str_ltb a b = true.
Proof.
  unfold str_leb, str_ltb. destruct (str_cmp a b) eqn:E; try done.
  intros _ Hne. by apply str_cmp_eq in E.
Qed.

Lemma str_ltb_trans a b c : str_ltb a b = true → str_leb b c = true → str_ltb a c = true.
Proof.
  unfold str_leb, str_ltb. intros H1 H2. rewrite (str_cmp_comp a b c).
  - by destruct (str_cmp a b).
  - by destruct (str_cmp a b).
  - by destruct (str_cmp b c).
Qed.

Definition rest (d : DB) (k : SuiteKey) (after : string) : list string :=
  map (λ e : URLKey * URLPath, key_path e.1)
    (List.filter (metadata_after k after) (map_to_list (url_t d))).

Lemma elem_of_rest d k after p :
  p ∈ rest d k after ↔
  ∃ u, url_t d !! (key_scheme k, key_host k, p) = Some u ∧ up_is_metadata u = true ∧
       str_ltb after p = true ∧ str_ltb p (key_path k +:+ "0") = true.
Proof.
  unfold rest. rewrite list_elem_of_fmap. split.
  - intros ([[[s h] q] u] & -> & Hin). apply list_elem_of_In, filter_In in Hin as [Hin Hm].
    apply list_elem_of_In, elem_of_map_to_list in Hin. unfold metadata_after in Hm.
    cbn in Hm. bclean. subst. exists u. by split_and!.
  - intros (u & Hu & Hm & H1 & H2). exists ((key_scheme k, key_host k, p), u).
    split; [done|]. apply list_elem_of_In, filter_In. split.
    + by apply list_elem_of_In, elem_of_map_to_list.
    + unfold metadata_after. cbn. by rewrite !String.eqb_refl, Hm, H1, H2.
Qed.

Lemma NoDup_rest d k after : NoDup (rest d k after).
Proof.
  unfold rest.
  assert (∀ l : list (URLKey * URLPath), NoDup (map fst l) →
    NoDup (map (λ e, key_path e.1) (List.filter (metadata_after k after) l))) as Hn.
  { induction l as [|e l IH]; simpl; intros Hnd; [constructor|].
    apply NoDup_cons in Hnd as [He Hnd]. destruct (metadata_after k after e) eqn:E; [|auto].
    simpl. apply NoDup_cons. split; [|auto].
    intros (e' & Hp & Hin)%list_elem_of_fmap_1. apply list_elem_of_In, filter_In in Hin as [Hin E'].
    apply He. assert (e.1 = e'.1) as ->; [|apply list_elem_of_fmap_2, list_elem_of_In; done].
    unfold metadata_after in *. destruct e as [[[? ?] ?] ?], e' as [[[? ?] ?] ?]. cbn in *.
    bclean. by subst. }
  apply Hn, NoDup_fst_map_to_list.
Qed.

(** After the last row of a page come exactly the rows it left. *)
Lemma page_rest d k after p :
  let page := metadata_page d k after in
  p ∈ rest d k after →
  p ∉ page → page ≠ [] ∧ length page = keysetBatch ∧ str_ltb (List.last page after) p = true.
Proof.
  intros page Hp Hn. unfold page, metadata_page in *. fold (rest d k after) in *.
  set (s := sort_by str_leb (rest d k after)) in *.
  assert (length (take keysetBatch s) = keysetBatch) as Hlen.
  { rewrite length_take. destruct (Nat.le_gt_cases keysetBatch (length s)); [lia|].
    destruct Hn. rewrite take_ge by lia. unfold s. by rewrite elem_of_sort_by. }
  assert (take keysetBatch s ≠ []) as Hne by (intros E; by rewrite E in Hlen).
  split_and!; [done|done|].
  assert (List.last (take keysetBatch s) after ∈ take keysetBatch s) as Hlast.
  { destruct (take keysetBatch s) as [|x l]; [done|]. apply list_elem_of_In.
    clear. revert x. induction l as [|y l IH]; intros x; [by left|right]. exact (IH y). }
  apply str_ltb_leb.
  - eapply (sort_by_take str_leb); [apply str_leb_total|apply str_leb_trans|exact Hlast|exact Hp|done].
  - intros E. apply Hn. by rewrite <-E.
Qed.

Lemma page_in_rest d k after p : p ∈ metadata_page d k after → p ∈ rest d k after.
Proof.
  intros Hp. unfold metadata_page in Hp. fold (rest d k after) in Hp.
  apply (elem_of_sort_by str_leb). apply list_elem_of_lookup_1 in Hp as (i & Hi).
  apply lookup_take_Some in Hi as [Hi _]. by eapply list_elem_of_lookup_2.
Qed.
End keyset.

(** ** Invalidation: laws *)

Section invalidation.

Definition path_key (k : SuiteKey) (p : string) : URLKey := (key_scheme k, key_host k, p).

Lemma deleteCachedRow_run key now d :
  ∃ b d', deleteCachedRowTx key now d = Ok (b, d') ∧
    (∀ key', url_t d' !! key' = if bool_decide (key' = key) then None else url_t d !! key') ∧
    suite_t d' = suite_t d ∧ meta_clock d' = meta_clock d.
Proof.
  unfold deleteCachedRowTx. destruct (url_t d !! key) as [u|] eqn:Hk.
  - destruct (delete_row_run key u now d Hk) as (d' & Hrun & (Hsu & _) & Hu & _).
    exists true, d'. split_and!; try done.
    + apply mbind_ok. exists d, d. split; [reflexivity|]. rewrite Hk. apply mbind_ok. by exists tt, d'.
    + unfold deleteURLPathRowTx, mbind, M_bind, mget in Hrun. rewrite Hk in Hrun.
      destruct (up_blob u) as [h|]; [destruct (String.eqb h "")|]; unfold mmodify, mret, M_ret in Hrun;
        by simplify_eq.
  - exists false, d. split_and!; try done.
    { apply mbind_ok. exists d, d. split; [reflexivity|]. by rewrite Hk. }
    intros key'. case_bool_decide; [by subst|done].
Qed.

Lemma delete_paths_run k l now d :
  ∃ d', mfor (λ p, _ ← deleteCachedRowTx (key_scheme k, key_host k, p) now; mret tt) l d = Ok (tt, d') ∧
    (∀ p, p ∈ l → url_t d' !! path_key k p = None) ∧
    (∀ key, (∀ p, p ∈ l → key ≠ path_key k p) → url_t d' !! key = url_t d !! key) ∧
    (∀ key u, url_t d' !! key = Some u → url_t d !! key = Some u) ∧
    suite_t d' = suite_t d ∧ meta_clock d' = meta_clock d.
Proof.
  revert d. induction l as [|p l IH]; intros d.
  { exists d. split_and!; try done. by intros p ?%elem_of_nil. }
  destruct (deleteCachedRow_run (key_scheme k, key_host k, p) now d) as (b & d1 & Hrun & Hu & Hs & Hc).
  destruct (IH d1) as (d' & Hrun' & H1 & H2 & H3 & H4 & H5).
  exists d'. split_and!; try congruence.
  - apply mbind_ok. exists tt, d1. split; [apply mbind_ok; by exists b, d1|exact Hrun'].
  - intros q [->|Hq]%elem_of_cons; [|by apply H1].
    destruct (url_t d' !! path_key k p) as [u|] eqn:E; [|done]. apply H3 in E.
    by rewrite Hu, bool_decide_true in E.
  - intros key Hne. rewrite H2 by (intros q Hq; apply Hne; by right).
    rewrite Hu, bool_decide_false; [done|]. apply (Hne p). by left.
  - intros key u Hn%H3. rewrite Hu in Hn. by case_bool_decide.
Qed.

Lemma str_ltb_irrefl a : str_ltb a a = false.
Proof. unfold str_ltb. by rewrite (proj2 (str_cmp_eq a a) eq_refl). Qed.

Lemma str_ltb_le a b : str_ltb a b = true → str_leb a b = true.
Proof. unfold str_ltb, str_leb. by destruct (str_cmp a b). Qed.

(** Each full page moves the cursor past its last row. *)
Lemma rest_shrinks d d1 k after :
  (∀ key u, url_t d1 !! key = Some u → url_t d !! key = Some u) →
  metadata_page d k after ≠ [] →
  (∀ p, p ∈ rest d1 k (List.last (metadata_page d k after) after) → p ∈ rest d k after) ∧
  (length (rest d1 k (List.last (metadata_page d k after) after)) < length (rest d k after))%nat.
Proof.
  intros Hsub Hne. set (z := List.last _ after).
  assert (z ∈ metadata_page d k after) as Hz.
  { unfold z. destruct (metadata_page d k after) as [|x l]; [done|]. apply list_elem_of_In.
    clear. revert x. induction l as [|y l IH]; intros x; [by left|right]. exact (IH y). }
  pose proof (page_in_rest _ _ _ _ Hz) as (uz & _ & _ & Hz1 & _)%elem_of_rest.
  assert (∀ p, p ∈ rest d1 k z → p ∈ rest d k after) as Hin.
  { intros p (u & Hu & Hm & H1 & H2)%elem_of_rest. apply elem_of_rest. exists u.
    split_and!; [by apply Hsub|done| |done]. apply (str_ltb_trans after z p); [done|by apply str_ltb_le]. }
  split; [done|]. assert (z :: rest d1 k z ⊆+ rest d k after) as Hsm; [|by apply submseteq_length in Hsm].
  apply NoDup_submseteq.
  - apply NoDup_cons. split; [|apply NoDup_rest].
    intros (u & _ & _ & H1 & _)%elem_of_rest. by rewrite str_ltb_irrefl in H1.
  - intros p [->|Hp]%elem_of_cons; [by apply page_in_rest|auto].
Qed.

Lemma invalidate_loop_run fuel k after now d :
  (length (rest d k after) < fuel)%nat →
  ∃ d', invalidate_loop fuel k after now d = Ok (tt, d') ∧
    (∀ p, p ∈ rest d k after → invalidated k p = true → url_t d' !! path_key k p = None) ∧
    (∀ key, (∀ p, p ∈ rest d k after → invalidated k p = true → key ≠ path_key k p) →
       url_t d' !! key = url_t d !! key) ∧
    suite_t d' = suite_t d ∧ meta_clock d' = meta_clock d.
Proof.
  revert after d. induction fuel as [|fuel IH]; intros after d Hfuel; [lia|]. simpl.
  destruct (delete_paths_run k (List.filter (invalidated k) (metadata_page d k after)) now d)
    as (d1 & Hrun & H1 & H2 & Hsub & H4 & H5).
  assert (∀ p, p ∈ List.filter (invalidated k) (metadata_page d k after) →
            p ∈ metadata_page d k after ∧ invalidated k p = true) as Hf.
  { intros p [Hp ?]%list_elem_of_In%filter_In. by rewrite list_elem_of_In. }
  assert (∀ p, p ∈ rest d k after → invalidated k p = true → p ∈ metadata_page d k after →
            url_t d1 !! path_key k p = None) as Hgone.
  { intros p _ Hi Hp. apply H1, list_elem_of_In, filter_In. by rewrite <-list_elem_of_In. }
  assert (∀ key, (∀ p, p ∈ rest d k after → invalidated k p = true → key ≠ path_key k p) →
            url_t d1 !! key = url_t d !! key) as Hkeep.
  { intros key Hne. apply H2. intros p [Hp Hi]%Hf. by apply Hne; [apply page_in_rest|]. }
  destruct (Nat.ltb_spec (length (metadata_page d k after)) keysetBatch) as [Hlt|Hge].
  - exists d1. split_and!; try done.
    + apply mbind_ok. exists d, d. split; [reflexivity|]. apply mbind_ok. exists tt, d1.
      split; [exact Hrun|].
      by destruct (Nat.ltb_spec (length (metadata_page d k after)) keysetBatch); [|lia].
    + intros p Hp Hi. apply Hgone; [done..|]. destruct (decide (p ∈ metadata_page d k after)) as [|Hn]; [done|].
      destruct (page_rest d k after p Hp Hn) as (_ & Hl & _). lia.
  - assert (metadata_page d k after ≠ []) as Hne.
    { intros E. rewrite E in Hge. unfold keysetBatch in Hge. simpl in Hge. lia. }
    destruct (rest_shrinks d d1 k after Hsub Hne) as [Hin Hlen].
    destruct (IH (List.last (metadata_page d k after) after) d1) as (d' & Hrun' & I1 & I2 & I3 & I4); [lia|].
    exists d'. split_and!; try congruence.
    + apply mbind_ok. exists d, d. split; [reflexivity|]. apply mbind_ok. exists tt, d1.
      split; [exact Hrun|].
      destruct (Nat.ltb_spec (length (metadata_page d k after)) keysetBatch); [lia|exact Hrun'].
    + intros p Hp Hi. destruct (decide (p ∈ metadata_page d k after)) as [Hpage|Hn].
      * destruct (url_t d' !! path_key k p) as [u|] eqn:Hu; [|done].
        rewrite I2 in Hu; [by rewrite Hgone in Hu|]. intros q (uq & Hq & _)%elem_of_rest Hiq E.
        injection E as ->. change (url_t d1 !! path_key k q = Some uq) in Hq. by rewrite Hgone in Hq.
      * destruct (url_t d1 !! path_key k p) as [u|] eqn:Hu.
        -- apply I1; [|done]. apply elem_of_rest. exists u.
           pose proof Hp as (u0 & Hu0 & Hm & _ & Hz)%elem_of_rest.
           pose proof (Hsub _ _ Hu) as Hu'. pose proof (eq_trans (eq_sym Hu0) Hu') as [= ->].
           split_and!; [done|done| |done]. by destruct (page_rest d k after p Hp Hn) as (_ & _ & ?).
        -- rewrite I2; [done|]. intros q (uq & Hq & _)%elem_of_rest _ E. injection E as ->.
           change (url_t d1 !! path_key k q = Some uq) in Hq. congruence.
    + intros key Hk. rewrite I2; [by apply Hkeep|]. intros p Hp. apply Hk. by apply Hin.
Qed.

(** The rows an invalidation takes. *)
Definition stale_metadata (k : SuiteKey) (key : URLKey) (x : URLPath) : bool :=
  String.eqb (key_scheme key) (key_scheme k) && String.eqb (key_host key) (key_host k)
  && up_is_metadata x && invalidated k (key_path key).

Lemma length_rest d k after : (length (rest d k after) <= size (url_t d))%nat.
Proof.
  unfold rest. rewrite length_map. etrans; [apply List.filter_length_le|].
  by rewrite length_map_to_list.
Qed.

Lemma stale_in_rest d k p x :
  key_path k ≠ "" → url_t d !! path_key k p = Some x → up_is_metadata x = true →
  invalidated k p = true → p ∈ rest d k (key_path k +:+ "/").
Proof.
  intros Hk Hx Hm Hi. unfold invalidated in Hi. bclean.
  destruct (SuitePath_under p) as (m & Hne & Hp); [congruence|].
  rewrite H in Hp. destruct (in_directory (key_path k) m Hne) as [H1 H2].
  rewrite <-Hp in H1, H2. apply elem_of_rest. exists x. by split_and!.
Qed.

(** Invalidating a suite's legacy metadata works in one transaction
    whatever the number of rows: on a suite with no snapshot whose anchor still
    holds the changed bytes it always commits, every cached metadata row the
    grammar gives to the suite is gone except immutable by-hash ones, no other
    row is touched, and the suite's generation is new - so that a download
    begun before it can no longer be stored. *)
Theorem InvalidateLegacyMetadata_correct k anchor old now d f x :
  wf d → IsCanonicalSuitePath (key_path k) = true →
  anchor = key_path k +:+ "/InRelease" ∨ anchor = key_path k +:+ "/Release" →
  validBlobHash old = true →
  suite_t d !! k = Some f → sf_current f = None →
  url_t d !! (key_scheme k, key_host k, anchor) = Some x → up_blob x = Some old →
  ∃ d', InvalidateLegacyMetadata k anchor old now d = Ok (tt, d') ∧ wf d' ∧
    (∀ key y, url_t d !! key = Some y →
       url_t d' !! key = if stale_metadata k key y then None else Some y) ∧
    (∀ (ht : HTTPTime) m caps held now', fetched_suite m = k →
       fr_generation m = Some (MetadataGeneration d k) →
       storeFetchedTx m caps held now' d' = Err ErrMetadataChanged).
Proof.
  intros Hwf Hcan Hanch Hold Hf Hcur Hx Hb.
  assert (key_path k ≠ "") as Hne by (intros E; by rewrite E in Hcan).
  destruct (invalidate_loop_run (S (size (url_t d))) k (key_path k +:+ "/") now d)
    as (d1 & Hloop & H1 & H2 & H3 & H4).
  { pose proof (length_rest d k (key_path k +:+ "/")). lia. }
  assert (∃ d', bump_generation k d1 = Ok (tt, d') ∧ url_t d' = url_t d1 ∧
            MetadataGeneration d' k ≠ MetadataGeneration d k) as (d' & Hbump & Hu & Hgen).
  { eexists. split; [reflexivity|]. split; [done|]. unfold MetadataGeneration. simpl.
    rewrite lookup_update_where, H3, Hf. simpl. rewrite bool_decide_true by done. simpl.
    intros [= E]. pose proof (wf_gen d Hwf k f Hf). lia. }
  assert (InvalidateLegacyMetadata k anchor old now d = Ok (tt, d')) as Hrun.
  { unfold InvalidateLegacyMetadata. apply mbind_ok. exists tt, d. split.
    { apply massert_ok. split; [|done]. rewrite Hcan, Hold.
      destruct Hanch as [->| ->]; rewrite String.eqb_refl; by rewrite ?orb_true_r. }
    apply mbind_ok. exists d, d. split; [reflexivity|]. rewrite Hf. apply mbind_ok.
    exists tt, d. split; [apply massert_ok; by rewrite Hcur|]. rewrite Hx, Hb. apply mbind_ok.
    exists tt, d. split; [apply massert_ok; by rewrite String.eqb_refl|]. apply mbind_ok.
    by exists tt, d1. }
  exists d'. split_and!; [done|by eapply wf_InvalidateLegacyMetadata| |].
  - intros key y Hy. rewrite Hu. unfold stale_metadata. destruct key as [[s h] p]. cbn.
    destruct (_ && _ && _ && _) eqn:E.
    + bclean. subst. by apply H1; [eapply stale_in_rest|].
    + rewrite H2; [done|]. intros q (yq & Hyq & Hm & _)%elem_of_rest Hi [= -> -> ->].
      pose proof (eq_trans (eq_sym Hy) Hyq) as [= ->].
      by rewrite !String.eqb_refl, Hm, Hi in E.
  - intros ht m caps held now' Hm Hg. unfold storeFetchedTx. rewrite Hg, Hm.
    unfold checkMetadataGenerationTx, mbind, M_bind, mget, massert.
    by rewrite bool_decide_false.
Qed.
End invalidation.

(** ** The hot set: laws *)

Section hot_laws.

Lemma hot_pairs_spec d prior since p :
  p ∈ hot_pairs d prior since ↔
  ∃ key r u, pkg_t d !! (key, prior) = Some r ∧ p = (ph_name r, ph_arch r) ∧
    ph_name r ≠ "" ∧ ph_arch r ≠ "" ∧ url_t d !! key = Some u ∧
    recent since (up_last_requested u) = true.
Proof.
  unfold hot_pairs. rewrite elem_of_sort_by, elem_of_remove_dups, list_elem_of_fmap. split.
  - intros ([[key i] r] & -> & Hin). apply list_elem_of_In, filter_In in Hin as [Hin Hh].
    apply list_elem_of_In, elem_of_map_to_list in Hin. unfold hot_row in Hh. cbn in Hh. bclean. subst i.
    destruct (url_t d !! key) as [u|] eqn:Hu; [|done]. by exists key, r, u.
  - intros (key & r & u & Hr & -> & Hn & Ha & Hu & Hrec). exists ((key, prior), r).
    split; [done|]. apply list_elem_of_In, filter_In. split.
    + by apply list_elem_of_In, elem_of_map_to_list.
    + unfold hot_row. cbn. apply String.eqb_neq in Hn, Ha. by rewrite Z.eqb_refl, Hn, Ha, Hu, Hrec.
Qed.

Lemma elem_of_pair_rows cand p r :
  r ∈ pair_rows cand p ↔ r ∈ cand ∧ pkh_name r = p.1 ∧ pkh_arch r = p.2 ∧
    pkh_name r ≠ "" ∧ pkh_arch r ≠ "".
Proof.
  unfold pair_rows. rewrite elem_of_sort_by, list_elem_of_In, filter_In, <-list_elem_of_In.
  rewrite !andb_true_iff, !negb_true_iff, !String.eqb_eq, !String.eqb_neq. tauto.
Qed.

Lemma elem_of_versions l v :
  v ∈ versions_of l ↔ v ≠ "" ∧ ∃ r, r ∈ l ∧ pkh_version r = v.
Proof.
  unfold versions_of. rewrite list_elem_of_fmap. split.
  - intros (r & -> & Hr). apply list_elem_of_In, filter_In in Hr as [Hr Hn].
    apply list_elem_of_In in Hr. bclean. split; [done|]. by exists r.
  - intros (Hn & r & Hr & <-). exists r. split; [done|]. apply list_elem_of_In, filter_In.
    split; [by apply list_elem_of_In|]. by apply negb_true_iff, String.eqb_neq.
Qed.

Lemma forallb_false_elem {A} (f : A → bool) l :
  forallb f l = false → ∃ x, x ∈ l ∧ f x = false.
Proof.
  induction l as [|a l IH]; [done|]. simpl. intros [H|H]%andb_false_iff.
  - exists a. split; [left|done].
  - destruct (IH H) as (x & Hx & Hf). exists x. split; [by right|done].
Qed.

(** Two candidate lists with the same rows, each path once per pair, sort to
    the same rows. *)
Lemma pair_rows_perm cand cand' p :
  cand ≡ₚ cand' →
  (∀ a b, a ∈ cand → b ∈ cand → pkh_key a = pkh_key b → a = b) →
  (∀ a b, a ∈ cand → b ∈ cand → key_path (pkh_key a) = key_path (pkh_key b) →
     pkh_key a = pkh_key b) →
  pair_rows cand p = pair_rows cand' p.
Proof.
  intros Hp Hk Hpath. unfold pair_rows. set (le := λ a b : PackageHash, _).
  assert (∀ l, StronglySorted (λ a b, le a b = true) (sort_by le l)) as Hs.
  { intros l. apply Sorted_StronglySorted.
    - intros a b c. apply str_leb_trans.
    - apply sort_by_sorted. intros a b. apply str_leb_total. }
  eapply (StronglySorted_unique_strong (λ a b, le a b = true)); [|apply Hs|apply Hs|].
  - intros a b Ha Hb H1 H2. rewrite elem_of_sort_by in Ha, Hb.
    apply list_elem_of_In, filter_In in Ha as [Ha _]. apply list_elem_of_In, filter_In in Hb as [Hb _].
    apply list_elem_of_In in Ha, Hb. rewrite <-Hp in Hb. apply Hk; [done..|]. apply Hpath; [done..|].
    unfold le, str_leb in H1, H2. apply str_cmp_eq. rewrite str_cmp_antisym in H2.
    by destruct (str_cmp (key_path (pkh_key a)) (key_path (pkh_key b))).
  - rewrite !sort_by_perm. by apply Permutation_filter_fun.
Qed.

Lemma elem_of_pair_entries maxV c e :
  e ∈ pair_entries maxV c ↔
  ∃ r, r ∈ c ∧ e = {| hs_path := key_path (pkh_key r); hs_declared := pkh_declared r |} ∧
       (pkh_version r = "" ∨ pkh_version r ∈ keepNewestNVersionSet (versions_of c) maxV).
Proof.
  unfold pair_entries. rewrite list_elem_of_fmap. setoid_rewrite list_elem_of_In. setoid_rewrite filter_In.
  unfold warmed. setoid_rewrite orb_true_iff. setoid_rewrite String.eqb_eq.
  setoid_rewrite bool_decide_eq_true. setoid_rewrite list_elem_of_In. naive_solver.
Qed.

(** What a new snapshot prefetches: nothing without a prior snapshot or
    a window, an error when a candidate row is of another host or snapshot,
    and otherwise exactly the candidate's paths of the packages a client
    recently asked of the prior snapshot - all of a pair's rows without a
    version, and of the others those among the newest N versions the
    candidate lists for the pair, the rule the collector keeps rows by.  The
    answer does not depend on the order of the candidate's rows, which is
    Go's random map order. *)
Theorem ComputeHotSet_spec d scheme host prior candId cand window now maxV :
  let N := keepNewestNVersionSet in
  let mine := λ r, key_scheme (pkh_key r) = scheme ∧ key_host (pkh_key r) = host ∧ pkh_id r = candId in
  (prior = 0 ∨ window = 0 →
     ComputeHotSet d scheme host prior candId cand window now maxV = Ok []) ∧
  (∀ e, ComputeHotSet d scheme host prior candId cand window now maxV = Err e →
     e = ErrHotSetCandidateMismatch ∧ ∃ x, x ∈ cand ∧ ¬ mine x) ∧
  (prior ≠ 0 → window ≠ 0 → (∀ x, x ∈ cand → mine x) →
   ∃ out, ComputeHotSet d scheme host prior candId cand window now maxV = Ok out ∧
     (∀ e, e ∈ out ↔ ∃ r p, p ∈ hot_pairs d prior (now - window) ∧ r ∈ pair_rows cand p ∧
        e = {| hs_path := key_path (pkh_key r); hs_declared := pkh_declared r |} ∧
        (pkh_version r = "" ∨ pkh_version r ∈ N (versions_of (pair_rows cand p)) maxV)) ∧
     ∀ cand', cand ≡ₚ cand' →
       (∀ a b, a ∈ cand → b ∈ cand → pkh_key a = pkh_key b → a = b) →
       ComputeHotSet d scheme host prior candId cand' window now maxV = Ok out).
Proof.
  intros N mine.
  assert (∀ c, forallb (λ r, String.eqb (key_scheme (pkh_key r)) scheme
             && String.eqb (key_host (pkh_key r)) host && (pkh_id r =? candId)) c = true ↔
             ∀ x, x ∈ c → mine x) as Hmine.
  { intros c. rewrite forallb_forall. setoid_rewrite list_elem_of_In.
    setoid_rewrite andb_true_iff. setoid_rewrite andb_true_iff.
    setoid_rewrite String.eqb_eq. setoid_rewrite Z.eqb_eq. unfold mine. firstorder. }
  split_and!.
  - unfold ComputeHotSet. intros [-> | ->]; [done|]. by rewrite orb_true_r.
  - intros e Hrun. unfold ComputeHotSet in Hrun.
    destruct (_ || _); [done|]. destruct (_ =? _)%nat; [done|].
    destruct (forallb _ cand) eqn:E; [done|]. apply forallb_false_elem in E as (x & Hx & Hb).
    injection Hrun as <-. split; [done|]. exists x. split; [done|]. intros Hm.
    assert (forallb (λ r, String.eqb (key_scheme (pkh_key r)) scheme
             && String.eqb (key_host (pkh_key r)) host && (pkh_id r =? candId)) [x] = true) as Ht.
    { apply Hmine. by intros y ->%list_elem_of_singleton. }
    simpl in Ht. rewrite andb_true_r in Ht. by rewrite Hb in Ht.
  - intros Hprior Hwin Hc. unfold ComputeHotSet.
    apply Z.eqb_neq in Hprior, Hwin. rewrite Hprior, Hwin. simpl orb. cbv iota.
    set (pairs := hot_pairs d prior (now - window)).
    assert (∀ c, (∀ x, x ∈ c → mine x) →
      (if (length pairs =? 0)%nat then Ok [] else
       if negb (forallb (λ r, String.eqb (key_scheme (pkh_key r)) scheme
             && String.eqb (key_host (pkh_key r)) host && (pkh_id r =? candId)) c)
       then Err ErrHotSetCandidateMismatch
       else Ok (flat_map (λ p, pair_entries maxV (pair_rows c p)) pairs))
      = Ok (flat_map (λ p, pair_entries maxV (pair_rows c p)) pairs)) as Hok.
    { intros c Hcm. rewrite (proj2 (Hmine c) Hcm). by destruct pairs. }
    rewrite (Hok cand Hc). eexists. split; [done|]. split.
    + intros e. rewrite list_elem_of_In, in_flat_map. setoid_rewrite <-list_elem_of_In.
      setoid_rewrite elem_of_pair_entries. naive_solver.
    + intros cand' Hp Hk. rewrite Hok by (intros x Hx; apply Hc; by rewrite Hp).
      f_equal. apply flat_map_ext. intros p. symmetry. f_equal. apply pair_rows_perm; [done..|].
      intros a b Ha Hb E. destruct (Hc a Ha) as (? & ? & _), (Hc b Hb) as (? & ? & _).
      unfold key_scheme, key_host, key_path in *.
      destruct (pkh_key a) as [[? ?] ?], (pkh_key b) as [[? ?] ?]. simpl in *. congruence.
Qed.
End hot_laws.
