(* ===== verification/Declared.v ===== *)
(** * What the current snapshots declare for a path (internal/cache
    adoption.go, snapshot_reads.go, representation.go)

    The reads a request makes: the hashes the signed current snapshots of a
    host declare for a path - by the path itself, or, for a flat repository,
    by the file name below an ancestor of its Release directory - the members
    of a suite's displaced snapshots, and the date recorded for a
    representation. *)
From S2P Require Import Prelude GoStrings AptPath Tables Invariant Snapshots Suites Rows.
Local Open Scope Z_scope.

Record DeclaredHash := {
  dh_sha256 : string; dh_snapshot : Z; dh_package : string; dh_suite : string }.

#[export] Instance DeclaredHash_dec : EqDecision DeclaredHash.
Proof. solve_decision. Defined.

(** The suite that [id] is the current, signed snapshot of: what the joins
    of package_hash to suite_snapshot and suite_freshness leave. *)
Definition voucher (d : DB) (id : Z) : option string :=
  s ← snap_t d !! id;
  if negb (String.eqb (ss_form s) FormUnsigned) && bool_decide (suite_current d (ss_suite s) = Some id)
  then Some (key_path (ss_suite s)) else None.

Definition declared_row (d : DB) (e : (URLKey * Z) * Package) : option DeclaredHash :=
  suite ← voucher d e.1.2;
  Some {| dh_sha256 := ph_declared e.2; dh_snapshot := e.1.2; dh_package := ph_name e.2;
          dh_suite := suite |}.

(** ** flatSplits *)

Definition maxFallbackSegments : nat := 32.
Definition maxFallbackPathBytes : Z := MaxSuitePathBytes + 1 + MaxFilenameBytes.

Definition bad_name (seg : string) : bool := String.eqb seg "" || String.eqb seg "..".

(** The prefixes of a path, each with the rest after its slash; [pre] is what
    was read, the empty prefix first. *)
Fixpoint cut_at_slashes (pre p : string) : list (string * string) :=
  match p with
  | EmptyString => []
  | String c p =>
      (if Ascii.eqb c slash then [(pre, p)] else []) ++ cut_at_slashes (pre +:+ String c "") p
  end.

Definition within_bounds (s : string * string) : bool :=
  (len s.1 <=? MaxSuitePathBytes) && (len s.2 <=? MaxFilenameBytes).

Definition flatSplits (path : string) : list (string * string) :=
  let p := DotClean path in
  if negb (has_prefix "/" p) || (maxFallbackPathBytes <? len p) then []
  else if (maxFallbackSegments <? length (cut_at_slashes "" p))%nat then []
  else if existsb bad_name (tail (split_byte slash p)) then []
  else List.filter within_bounds (cut_at_slashes "" p).

(** ** DeclaredHashesForPath *)

Section declared.
Context `{TableScan}.

Definition declaredHashesExact (d : DB) (scheme host path : string) : list DeclaredHash :=
  remove_dups
    (omap (declared_row d)
       (List.filter (λ e : (URLKey * Z) * Package, bool_decide (e.1.1 = (scheme, host, path)))
          (scan (pkg_t d)))).

(** The rows of the fallback's query: with the file name each was found by. *)
Definition suffix_rows (d : DB) (scheme host : string) (names : list string)
    : list (DeclaredHash * string) :=
  remove_dups
    (omap (λ e : (URLKey * Z) * Package, r ← declared_row d e; Some (r, ph_flat e.2))
       (List.filter (λ e : (URLKey * Z) * Package,
            String.eqb (key_scheme e.1.1) scheme && String.eqb (key_host e.1.1) host
            && negb (String.eqb (ph_flat e.2) "") && bool_decide (ph_flat e.2 ∈ names))
          (scan (pkg_t d)))).

(** Is [b] the suite's flat base, or above it? *)
Definition above (b suite : string) : bool := has_prefix (b +:+ "/") (FlatBase suite +:+ "/").

(** The base of a file name: [baseOf], whose later entries replace earlier ones. *)
Definition base_of (splits : list (string * string)) (name : string) : option string :=
  fst <$> List.find (λ s, String.eqb s.2 name) (rev splits).

(** One row of the answer: it is kept when its base is above its suite's, the
    longest base so far replacing the shorter ones. *)
Definition keep_longest (splits : list (string * string))
    (acc : Z * list DeclaredHash) (r : DeclaredHash * string) : Z * list DeclaredHash :=
  match base_of splits r.2 with
  | None => acc
  | Some b =>
      if negb (above b (dh_suite r.1)) then acc
      else if acc.1 <? len b then (len b, [r.1])
      else if len b =? acc.1 then (acc.1, acc.2 ++ [r.1])
      else acc
  end.

Definition declaredHashesBySuffix (d : DB) (scheme host path : string) : list DeclaredHash :=
  let splits := flatSplits path in
  if (length splits =? 0)%nat then []
  else (fold_left (keep_longest splits) (suffix_rows d scheme host (map snd splits)) (-1, [])).2.

(** [flatRows] is the cache's flag that flat rows may exist. *)
Definition DeclaredHashesForPath (d : DB) (flatRows : bool) (scheme host path : string)
    : list DeclaredHash :=
  let out := declaredHashesExact d scheme host path in
  if negb (length out =? 0)%nat || negb flatRows then out
  else declaredHashesBySuffix d scheme host path.

(** ** Other reads of a request *)

Definition displaced_order (a b : Z * SuiteSnapshot) : bool :=
  let x := default 0 (ss_adopted a.2) in
  let y := default 0 (ss_adopted b.2) in
  if x =? y then b.1 <=? a.1 else y <? x.

Definition DisplacedSnapshotMembers (d : DB) (k : SuiteKey) (path : string) (currentID limit : Z)
    : list (Z * Member) :=
  if limit <=? 0 then []
  else
    omap (λ e : Z * SuiteSnapshot, m ← member_t d !! (e.1, path); Some (e.1, m))
      (sql_limit limit (sort_by displaced_order
         (List.filter (λ e : Z * SuiteSnapshot,
             bool_decide (ss_suite e.2 = k) && is_set (ss_adopted e.2)
             && negb (is_set (ss_retired e.2)) && negb (e.1 =? currentID))
           (scan (snap_t d))))).
End declared.

Definition flatRowsExist (d : DB) : bool :=
  exists_where (λ _ p, negb (String.eqb (ph_flat p) "")) (pkg_t d).

Definition noteFlatRows (rows : list PackageHash) (flag : bool) : bool :=
  flag || existsb (λ p, negb (String.eqb (ph_flat (package_row p)) "")) rows.

Definition GetSuiteFreshness (d : DB) (k : SuiteKey) : result cache_error SuiteFreshness :=
  match suite_t d !! k with Some f => Ok f | None => Err ErrNotFound end.

Definition HasSuiteRow (d : DB) (k : SuiteKey) : bool := bool_decide (is_Some (suite_t d !! k)).

Definition RepresentationLastModified `{HTTPTime} (d : DB) (k : URLKey) (hash : string) (now : Z) : string :=
  match rep_t d !! (k, hash) with Some r => HTTPDate now (rep_lastmod r) | None => "" end.

(** ** The answers, as relations *)

(** Snapshot [id] is current in its suite, signed, and of suite [suite]. *)
Definition vouching (d : DB) (id : Z) (suite : string) : Prop :=
  ∃ s, snap_t d !! id = Some s ∧ ss_form s ≠ FormUnsigned ∧
       suite_current d (ss_suite s) = Some id ∧ key_path (ss_suite s) = suite.

(** Row [p] of package_hash, vouched for by a current signed snapshot, is [r]. *)
Definition row_of (d : DB) (k : URLKey) (p : Package) (r : DeclaredHash) : Prop :=
  pkg_t d !! (k, dh_snapshot r) = Some p ∧ vouching d (dh_snapshot r) (dh_suite r) ∧
  dh_sha256 r = ph_declared p ∧ dh_package r = ph_name p.

Definition covers (d : DB) (k : URLKey) (r : DeclaredHash) : Prop := ∃ p, row_of d k p r.

(** A flat row whose file name is what is left of the path below [b], a
    directory at or above its suite's. *)
Definition flat_covers (d : DB) (scheme host path b : string) (r : DeclaredHash) : Prop :=
  ∃ k p, row_of d k p r ∧ key_scheme k = scheme ∧ key_host k = host ∧ ph_flat p ≠ "" ∧
         (b, ph_flat p) ∈ flatSplits path ∧ above b (dh_suite r) = true.

Lemma voucher_spec d id suite : voucher d id = Some suite ↔ vouching d id suite.
Proof.
  unfold voucher, vouching. destruct (snap_t d !! id) as [s|] eqn:Hs; cbn.
  - destruct (String.eqb_spec (ss_form s) FormUnsigned); cbn.
    + split; [done|]. intros (s' & [= <-] & Hf & _). done.
    + case_bool_decide.
      * split; [intros [= <-]; eauto|]. by intros (s' & [= <-] & _ & _ & <-).
      * split; [done|]. by intros (s' & [= <-] & _ & Hc & _).
  - split; [done|]. by intros (s & [=] & _).
Qed.

Lemma declared_row_spec d k id p r :
  declared_row d ((k, id), p) = Some r ↔
  dh_snapshot r = id ∧ vouching d id (dh_suite r) ∧ dh_sha256 r = ph_declared p ∧ dh_package r = ph_name p.
Proof.
  unfold declared_row. cbn. destruct (voucher d id) as [suite|] eqn:Hv; cbn.
  - apply voucher_spec in Hv as Hv'. split.
    + by intros [= <-].
    + destruct r as [a b c e]. cbn. intros (-> & He & -> & ->). apply voucher_spec in He. congruence.
  - split; [done|]. intros (_ & He & _). apply voucher_spec in He. congruence.
Qed.

(** *** The splits *)

Lemma elem_of_filter_fun {A} (f : A → bool) l x : x ∈ List.filter f l ↔ x ∈ l ∧ f x = true.
Proof. by rewrite !list_elem_of_In, filter_In. Qed.

Lemma cut_at_slashes_spec pre p b f :
  (b, f) ∈ cut_at_slashes pre p ↔ ∃ b', b = pre +:+ b' ∧ p = b' +:+ String slash f.
Proof.
  revert pre. induction p as [|c p IH]; intros pre; cbn [cut_at_slashes].
  - split; [by intros ?%elem_of_nil|]. intros ([|? ?] & _ & [=]).
  - rewrite elem_of_app, IH. destruct (Ascii.eqb_spec c slash) as [->|Hc].
    + rewrite list_elem_of_singleton. split.
      * intros [[= -> ->]|(b' & -> & ->)]; [exists ""; by rewrite append_nil_r|].
        exists (String slash b'). by rewrite append_assoc.
      * intros ([|c b'] & -> & Hp); cbn in Hp; injection Hp; [intros ->; left; by rewrite append_nil_r|].
        intros -> <-. right. exists b'. by rewrite append_assoc.
    + split.
      * intros [[]%elem_of_nil|(b' & -> & ->)]. exists (String c b'). by rewrite append_assoc.
      * intros ([|c' b'] & -> & Hp); cbn in Hp; injection Hp; [intros; congruence|].
        intros -> <-. right. exists b'. by rewrite append_assoc.
Qed.

(** What a split is: a cut of the dot-cleaned path at a slash. *)
Lemma flatSplits_cut path b f :
  (b, f) ∈ flatSplits path → DotClean path = b +:+ String slash f.
Proof.
  unfold flatSplits. destruct (_ || _); [by intros ?%elem_of_nil|].
  destruct (_ <? _)%nat; [by intros ?%elem_of_nil|]. destruct (existsb _ _); [by intros ?%elem_of_nil|].
  intros [Hc _]%elem_of_filter_fun. by apply cut_at_slashes_spec in Hc as (b' & -> & ->).
Qed.

Lemma base_of_spec path b f :
  (b, f) ∈ flatSplits path → base_of (flatSplits path) f = Some b.
Proof.
  intros Hin. pose proof (flatSplits_cut path b f Hin) as Hcut. unfold base_of.
  destruct (List.find _ _) as [[b1 f1]|] eqn:Hf; cbn.
  - apply find_some in Hf as [Hf Heq]. apply in_rev, list_elem_of_In, flatSplits_cut in Hf. cbn in Heq.
    apply String.eqb_eq in Heq as ->. rewrite Hcut in Hf. by apply append_inj_r in Hf as ->.
  - eapply find_none in Hf; [|by apply in_rev; rewrite rev_involutive; apply list_elem_of_In].
    cbn in Hf. by rewrite String.eqb_refl in Hf.
Qed.

Lemma base_of_split splits name b : base_of splits name = Some b → (b, name) ∈ splits.
Proof.
  unfold base_of. destruct (List.find _ _) as [[b1 f1]|] eqn:Hf; [|done]. cbn. intros [= <-].
  apply find_some in Hf as [Hf Heq]. apply String.eqb_eq in Heq as <-. by apply list_elem_of_In, in_rev.
Qed.

Section declared_laws.
Context `{TableScan}.

Lemma declaredHashesExact_spec d scheme host path r :
  r ∈ declaredHashesExact d scheme host path ↔ covers d (scheme, host, path) r.
Proof.
  unfold declaredHashesExact, covers, row_of. rewrite elem_of_remove_dups, list_elem_of_omap. split.
  - intros ([[k id] p] & [Hin%elem_of_scan Hk]%elem_of_filter_fun & Hr). cbn in Hk. apply bool_decide_eq_true in Hk as ->.
    apply declared_row_spec in Hr as (<- & Hv & ? & ?). eauto.
  - intros (p & Hp & Hv & ? & ?). exists ((scheme, host, path), dh_snapshot r, p).
    rewrite elem_of_filter_fun, elem_of_scan, declared_row_spec. cbn. rewrite bool_decide_eq_true. naive_solver.
Qed.

Lemma suffix_rows_spec d scheme host names r f :
  (r, f) ∈ suffix_rows d scheme host names ↔
  ∃ k p, row_of d k p r ∧ key_scheme k = scheme ∧ key_host k = host ∧ ph_flat p = f ∧ f ≠ "" ∧ f ∈ names.
Proof.
  unfold suffix_rows, row_of. rewrite elem_of_remove_dups, list_elem_of_omap. split.
  - intros ([[k id] p] & [Hin%elem_of_scan Hk]%elem_of_filter_fun & Hr). cbn in Hk, Hr.
    destruct (declared_row d (k, id, p)) as [r1|] eqn:Hd; [|done]. cbn in Hr. injection Hr as -> <-.
    apply declared_row_spec in Hd as (<- & Hv & ? & ?). bclean.
    exists k, p. split_and!; try done.
  - intros (k & p & (Hp & Hv & ? & ?) & <- & <- & <- & Hne & Hin). exists (k, dh_snapshot r, p).
    rewrite elem_of_filter_fun, elem_of_scan. cbn. split.
    + split; [done|]. rewrite !String.eqb_refl. apply String.eqb_neq in Hne as ->. by rewrite bool_decide_eq_true_2.
    + assert (declared_row d (k, dh_snapshot r, p) = Some r) as -> by (by apply declared_row_spec). done.
Qed.

(** *** The fallback keeps the longest base *)

(** The bases a row of the query is kept under. *)
Definition based_at (splits : list (string * string)) (r : DeclaredHash * string) (b : string) : Prop :=
  base_of splits r.2 = Some b ∧ above b (dh_suite r.1) = true.

Definition longest_of (splits : list (string * string)) (l : list (DeclaredHash * string))
    (acc : Z * list DeclaredHash) : Prop :=
  (∀ r, r ∈ acc.2 ↔ ∃ x b, x ∈ l ∧ x.1 = r ∧ based_at splits x b ∧ len b = acc.1) ∧
  (∀ x b, x ∈ l → based_at splits x b → len b <= acc.1) ∧ (acc.2 = [] → acc.1 = -1).

Lemma keep_longest_spec splits l :
  longest_of splits l (fold_left (keep_longest splits) l (-1, [])).
Proof.
  induction l as [|x l (IHin & IHmax & IHnil)] using rev_ind; [|rewrite fold_left_app; cbn].
  - split; cbn; [|by split; [intros ? ? ?%elem_of_nil|]]. intros r.
    split; [by intros ?%elem_of_nil|by intros (? & ? & ?%elem_of_nil & _)].
  - set (acc := fold_left _ _ _) in *. clearbody acc. destruct acc as [best out]. cbn [fst snd] in *.
    assert (∀ b, based_at splits x b → ∀ b', based_at splits x b' → b' = b) as Huniq.
    { intros b [Hb _] b' [Hb' _]. congruence. }
    assert (∀ b, (∀ y b', y ∈ l → based_at splits y b' → len b' <= b) →
      (∀ b', based_at splits x b' → len b' <= b) →
      ∀ y b', y ∈ l ++ [x] → based_at splits y b' → len b' <= b) as Hmax.
    { intros b H1 H2 y b' [Hy| ->%list_elem_of_singleton]%elem_of_app; eauto. }
    unfold keep_longest. cbn [fst snd]. destruct (base_of splits x.2) as [b|] eqn:Hb.
    2:{ split; cbn; [|split; [|exact IHnil]].
        - intros r. rewrite IHin. split; [intros (y & b & ? & ?); exists y, b; rewrite elem_of_app; tauto|].
          intros (y & b & [Hy| ->%list_elem_of_singleton]%elem_of_app & Hr); [eauto 10|].
          destruct Hr as (_ & [Hr _] & _). congruence.
        - apply Hmax; [done|]. intros b' [Hb' _]. congruence. }
    destruct (above b (dh_suite x.1)) eqn:Ha; cbn [negb].
    2:{ split; cbn; [|split; [|exact IHnil]].
        - intros r. rewrite IHin. split; [intros (y & b0 & ? & ?); exists y, b0; rewrite elem_of_app; tauto|].
          intros (y & b0 & [Hy| ->%list_elem_of_singleton]%elem_of_app & Hr); [eauto 10|].
          destruct Hr as (_ & [Hr Hr'] & _). congruence.
        - apply Hmax; [done|]. intros b' [Hb' Ha']. congruence. }
    assert (based_at splits x b) as Hx by done.
    destruct (Z.ltb_spec best (len b)) as [Hlt|Hge].
    { split; cbn; [|split; [|done]].
      - intros r. rewrite list_elem_of_singleton. split.
        + intros ->. exists x, b. rewrite elem_of_app, list_elem_of_singleton. auto.
        + intros (y & b0 & [Hy| ->%list_elem_of_singleton]%elem_of_app & <- & Hr & Hlen); [|done].
          specialize (IHmax y b0 Hy Hr). lia.
      - apply Hmax; [intros y b' Hy Hr; specialize (IHmax y b' Hy Hr); lia|].
        intros b' Hb'. by rewrite (Huniq b Hx b' Hb'). }
    destruct (Z.eqb_spec (len b) best) as [Heq|Hne]; split; cbn [fst snd]; [|split| |split].
    + intros r. rewrite elem_of_app, IHin, list_elem_of_singleton. split.
      * intros [(y & b0 & ? & ?)| ->]; [exists y, b0; rewrite elem_of_app; tauto|].
        exists x, b. rewrite elem_of_app, list_elem_of_singleton. auto.
      * intros (y & b0 & [Hy| ->%list_elem_of_singleton]%elem_of_app & <- & Hr & Hlen); eauto 10.
    + apply Hmax; [done|]. intros b' Hb'. rewrite (Huniq b Hx b' Hb'). lia.
    + by intros [_ ?]%app_eq_nil.
    + intros r. rewrite IHin. split; [intros (y & b0 & ? & ?); exists y, b0; rewrite elem_of_app; tauto|].
      intros (y & b0 & [Hy| ->%list_elem_of_singleton]%elem_of_app & Hr & Hb0 & Hlen); [eauto 10|].
      rewrite (Huniq b Hx b0 Hb0) in Hlen. lia.
    + apply Hmax; [done|]. intros b' Hb'. rewrite (Huniq b Hx b' Hb'). lia.
    + exact IHnil.
Qed.

Lemma flat_covers_based d scheme host path b r :
  flat_covers d scheme host path b r ↔
  ∃ x, x ∈ suffix_rows d scheme host (map snd (flatSplits path)) ∧ x.1 = r ∧ based_at (flatSplits path) x b.
Proof.
  unfold flat_covers, based_at. split.
  - intros (k & p & Hrow & Hs & Hh & Hne & Hin & Ha). exists (r, ph_flat p). cbn. split_and!; [|done| |done].
    + apply suffix_rows_spec. exists k, p. split_and!; try done. apply list_elem_of_fmap. by exists (b, ph_flat p).
    + by apply base_of_spec.
  - intros ([r' f] & Hin & <- & Hb & Ha). cbn in *.
    apply suffix_rows_spec in Hin as (k & p & Hrow & Hs & Hh & <- & Hne & _). exists k, p.
    split_and!; try done. by apply base_of_split.
Qed.

Lemma declaredHashesBySuffix_spec d scheme host path r :
  r ∈ declaredHashesBySuffix d scheme host path ↔
  ∃ b, flat_covers d scheme host path b r ∧
       ∀ b' r', flat_covers d scheme host path b' r' → len b' <= len b.
Proof.
  unfold declaredHashesBySuffix. destruct (length (flatSplits path) =? 0)%nat eqn:Hz.
  { apply Nat.eqb_eq, length_zero_iff_nil in Hz. split; [by intros ?%elem_of_nil|].
    intros (b & (k & p & _ & _ & _ & _ & Hin & _) & _). rewrite Hz in Hin. by apply elem_of_nil in Hin. }
  destruct (keep_longest_spec (flatSplits path) (suffix_rows d scheme host (map snd (flatSplits path))))
    as (Hin & Hmax & Hnil).
  set (acc := fold_left _ _ _) in *. rewrite Hin. split.
  - intros (x & b & Hx & <- & Hb & Hlen). exists b. split; [apply flat_covers_based; eauto|].
    intros b' r' (y & Hy & <- & Hb')%flat_covers_based. rewrite Hlen. eauto.
  - intros (b & (x & Hx & <- & Hb)%flat_covers_based & Hlong). exists x, b. split_and!; try done.
    specialize (Hmax x b Hx Hb). destruct (Z.eq_dec (len b) acc.1) as [|Hne]; [done|exfalso].
    destruct acc as [best out]. cbn in *. destruct out as [|r out].
    + rewrite (Hnil eq_refl) in Hmax. pose proof (len_nonneg b). lia.
    + destruct (proj1 (Hin r)) as (y & b0 & Hy & _ & Hb0 & Hl); [set_solver|].
      assert (len b0 <= len b); [|lia]. eapply Hlong, flat_covers_based. eauto.
Qed.

Lemma flat_covers_exist d scheme host path b r : flat_covers d scheme host path b r → flatRowsExist d = true.
Proof.
  intros (k & p & (Hp & _) & _ & _ & Hne & _). apply exists_where_true. exists (k, dh_snapshot r), p.
  split; [done|]. by apply String.eqb_neq in Hne as ->.
Qed.

Lemma declared_rows d flat scheme host path r :
  (flatRowsExist d = true → flat = true) →
  r ∈ DeclaredHashesForPath d flat scheme host path ↔
  covers d (scheme, host, path) r ∨
  (∀ r', ¬ covers d (scheme, host, path) r') ∧
  ∃ b, flat_covers d scheme host path b r ∧
       ∀ b' r', flat_covers d scheme host path b' r' → len b' <= len b.
Proof.
  intros Hflag. unfold DeclaredHashesForPath.
  pose proof (declaredHashesExact_spec d scheme host path) as Hexact.
  destruct (declaredHashesExact d scheme host path) as [|x out]; cbn [length Nat.eqb negb orb].
  - assert (∀ r', ¬ covers d (scheme, host, path) r') as Hnone.
    { intros r' Hr. apply Hexact in Hr. by apply elem_of_nil in Hr. }
    destruct flat; cbn [negb]; [rewrite declaredHashesBySuffix_spec; naive_solver|].
    split; [by intros ?%elem_of_nil|]. intros [Hr|(_ & b & Hb & _)]; [by apply Hnone in Hr|].
    apply flat_covers_exist in Hb. by apply Hflag in Hb.
  - rewrite Hexact. split; [by left|]. intros [Hr|[Hnone _]]; [done|]. exfalso.
    apply (Hnone x), Hexact, list_elem_of_here.
Qed.

(** What vouches for a path.  With a flag that is set whenever the table
    holds a flat row, a request is answered with exactly the rows of the
    signed current snapshots of its host that name the path itself; and when
    there is none, with the flat rows whose file name is the rest of the
    dot-cleaned path below an ancestor of their suite's base, the longest
    such base alone.  A displaced, retired or unsigned snapshot vouches for
    nothing, and the flag changes no answer. *)
Theorem DeclaredHashesForPath_correct d flat scheme host path r :
  (flatRowsExist d = true → flat = true) →
  r ∈ DeclaredHashesForPath d flat scheme host path ↔
  covers d (scheme, host, path) r ∨
  (∀ r', ¬ covers d (scheme, host, path) r') ∧
  ∃ b, flat_covers d scheme host path b r ∧
       ∀ b' r', flat_covers d scheme host path b' r' → len b' <= len b.
Proof. apply declared_rows. Qed.

(** *** Displaced members *)

Lemma DisplacedSnapshotMembers_sound d k path currentID limit id m :
  (id, m) ∈ DisplacedSnapshotMembers d k path currentID limit →
  member_t d !! (id, path) = Some m ∧ id ≠ currentID ∧
  ∃ s, snap_t d !! id = Some s ∧ ss_suite s = k ∧ is_Some (ss_adopted s) ∧ ss_retired s = None.
Proof.
  unfold DisplacedSnapshotMembers. destruct (limit <=? 0); [by intros ?%elem_of_nil|].
  intros ([i s] & Hin & Hm)%list_elem_of_omap. cbn in Hm.
  destruct (member_t d !! (i, path)) as [m'|] eqn:Hmem; [|done]. cbn in Hm. injection Hm as <- <-.
  split; [done|].
  assert ((i, s) ∈ List.filter (λ e : Z * SuiteSnapshot,
             bool_decide (ss_suite e.2 = k) && is_set (ss_adopted e.2)
             && negb (is_set (ss_retired e.2)) && negb (e.1 =? currentID)) (scan (snap_t d))) as Hf.
  { unfold sql_limit in Hin. destruct (limit <? 0); [by apply elem_of_sort_by in Hin|].
    apply elem_of_take in Hin as (j & Hj & _). apply list_elem_of_lookup_2 in Hj. by apply elem_of_sort_by in Hj. }
  apply elem_of_filter_fun in Hf as [Hs%elem_of_scan Hc]. cbn in Hc. bclean.
  split; [done|]. exists s. split_and!; try done.
  - destruct (ss_adopted s); [eauto|done].
  - by destruct (ss_retired s).
Qed.

(** *** The flag *)

Lemma noteFlatRows_set rows p flag : p ∈ rows → ph_flat (package_row p) ≠ "" → noteFlatRows rows flag = true.
Proof.
  intros Hp Hne. unfold noteFlatRows. apply orb_true_iff. right. apply existsb_exists. exists p.
  split; [by apply list_elem_of_In|]. by apply String.eqb_neq in Hne as ->.
Qed.
End declared_laws.

(** A flat repository's suite with one package, asked for below its parent. *)
Definition flat_db : DB :=
  let k := ("http", "h", "/ubuntu/repo/.") in
  upd_suite (λ _, {[ k := {| sf_last_check := None; sf_last_success := None; sf_etag := None;
     sf_lastmod := None; sf_change_seen := None; sf_current := Some 1; sf_last_requested := None;
     sf_check_fail := 0; sf_fail_hash := None; sf_fail_reason := None; sf_fail_count := 0;
     sf_fail_first := None; sf_fail_last := None; sf_next_retry := None; sf_fail_etag := None;
     sf_fail_lastmod := None; sf_rowid := 1; sf_generation := 1 |} ]})
  (upd_snap (λ _, {[ 1 := {| ss_suite := k; ss_inrelease := None; ss_etag := None; ss_lastmod := None;
     ss_release := None; ss_release_gpg := None; ss_created := 0; ss_adopted := Some 1;
     ss_coverage := true; ss_heartbeat := None; ss_form := FormInline; ss_date := None;
     ss_retired := None |} ]})
  (upd_pkg (λ _, {[ (("http", "h", "/ubuntu/repo/./pool/x.deb"), 1) :=
     {| ph_declared := "d1"; ph_name := "x"; ph_arch := "all"; ph_version := "1";
        ph_flat := "pool/x.deb" |} ]}) empty_db)).

Lemma DeclaredHashesForPath_correct_witness :
  let r := {| dh_sha256 := "d1"; dh_snapshot := 1; dh_package := "x"; dh_suite := "/ubuntu/repo/." |} in
  let '(s, h, p) := ("http", "h", "/ubuntu/repo/pool/x.deb") in
  (covers flat_db (s, h, p) r ∨
   (∀ r', ¬ covers flat_db (s, h, p) r') ∧
   ∃ b, flat_covers flat_db s h p b r ∧ ∀ b' r', flat_covers flat_db s h p b' r' → len b' <= len b).
Proof.
  cbv zeta. cbn iota beta. apply (@DeclaredHashesForPath_correct key_order_scan flat_db true); [done|].
  apply (bool_decide_unpack _). vm_compute. exact Logic.I.
Defined.
