(* ===== verification/Serving.v ===== *)
(** * What requests leave alone

    What a request decides by - the current snapshots of the suites, their
    members, forms, coverage and adoption, the declared packages - is seen the
    same in two databases ([view]), and the statements of a request keep it. *)
From S2P Require Import Prelude GoStrings AptPath Tables Invariant Snapshots Suites GC Rows Declared.
Local Open Scope Z_scope.

Definition snap_face (s : SuiteSnapshot) := (ss_suite s, ss_form s, ss_coverage s, ss_adopted s).

Record view (d0 d : DB) : Prop := {
  vw_pkg : pkg_t d = pkg_t d0;
  vw_member : member_t d = member_t d0;
  vw_current : ∀ k, suite_current d k = suite_current d0 k;
  vw_snap : ∀ id, snap_face <$> snap_t d !! id = snap_face <$> snap_t d0 !! id }.

Lemma view_refl d : view d d.
Proof. by split. Qed.

Lemma view_trans d0 d1 d2 : view d0 d1 → view d1 d2 → view d0 d2.
Proof. intros [P1 M1 C1 S1] [P2 M2 C2 S2]. split; intros; congruence. Qed.

Lemma view_modify d0 f :
  (∀ d, view d (f d)) → triple (view d0) (mmodify (E := cache_error) f) (λ _, view d0).
Proof. intros Hf d u d' Hd Hrun. unfold mmodify in Hrun. simplify_eq. eapply view_trans; [exact Hd|apply Hf]. Qed.

Lemma view_suite_update d0 P g :
  (∀ f, sf_current (g f) = sf_current f) →
  triple (view d0) (mmodify (E := cache_error) (upd_suite (update_where P g))) (λ _, view d0).
Proof.
  intros Hg. apply view_modify. intros d. split; try done. intros k. unfold suite_current. cbn.
  rewrite lookup_update_where. destruct (suite_t d !! k) as [f|]; [|done]. cbn. destruct (P k f); [apply Hg|done].
Qed.

Lemma view_url_upsert d0 k u f : triple (view d0) (url_upsert k u f) (λ _, view d0).
Proof. intros d r d' [] Hrun. unfold url_upsert in Hrun. minv; by split. Qed.

Lemma view_putRepresentation d0 k h l now : triple (view d0) (putRepresentation k h l now) (λ _, view d0).
Proof. intros d r d' [] Hrun. unfold putRepresentation in Hrun. minv; by split. Qed.

Lemma view_markSignedSeen d0 k t : triple (view d0) (markSignedSeen k t) (λ _, view d0).
Proof. intros d r d' [] Hrun. unfold markSignedSeen in Hrun. minv; by split. Qed.

Create HintDb view.
#[export] Hint Resolve view_url_upsert view_putRepresentation view_markSignedSeen : view.

(** Deleting a suite without a current snapshot. *)
Lemma view_delete_suite k cutoff now d out d' :
  deleteSuiteTx k None cutoff now d = Ok (out, d') → view d d'.
Proof.
  intros Hrun. apply deleteSuiteTx_inv in Hrun. destruct out; [by destruct Hrun as [_ ->]| |by destruct Hrun as [_ ->]].
  destruct Hrun as (f & Hf & Hcur & _ & ->). unfold delete_core, drop_current. rewrite Hcur.
  split; try done; cbn.
  - intros k'. unfold suite_current. cbn. destruct (decide (k' = k)) as [->|Hne].
    + by rewrite lookup_delete_eq, Hf.
    + by rewrite lookup_delete_ne.
  - intros id. rewrite lookup_update_where. destruct (snap_t d !! id) as [s|]; [|done]. cbn.
    by destruct (_ && _).
Qed.

Lemma view_insert_suite seed ev d r d' : insert_suite seed ev d = Ok (r, d') → view d d'.
Proof.
  intros Hrun. apply insert_suite_inv in Hrun as Hinv. destruct Hinv as (_ & _ & Hnone & Hsuites & _).
  assert (pkg_t d' = pkg_t d ∧ member_t d' = member_t d ∧ snap_t d' = snap_t d) as (Hp & Hm & Hs).
  { unfold insert_suite, suite_insert, markCreated in Hrun. minv.
    destruct (fold_left _ _ _) as [seen unproven]. destruct (seen =? 0); minv; [done|].
    unfold markSignedSeen in *. by minv. }
  split; [done|done| |by rewrite Hs]. intros k. unfold suite_current. rewrite Hsuites.
  destruct (decide (sd_key seed = k)) as [<-|Hne].
  - by rewrite lookup_insert_eq, Hnone.
  - by rewrite lookup_insert_ne.
Qed.

Lemma view_createSuiteTx d0 seed caps held now :
  triple (view d0) (createSuiteTx seed caps held now) (λ _, view d0).
Proof.
  intros d r d' Hd Hrun. eapply view_trans; [exact Hd|].
  destruct (createSuiteTx_inv _ _ _ _ _ _ _ Hrun)
    as [(_ & -> & _)|[(_ & _ & [[_ ->]|(hk & _ & _ & Hdel)])
                     |(_ & _ & _ & [(_ & _ & Hins)|(hk & d1 & _ & _ & Hdel & _ & Hins)])]].
  - apply view_refl.
  - apply view_refl.
  - by eapply view_delete_suite.
  - by eapply view_insert_suite.
  - eapply view_trans; [by eapply view_delete_suite|by eapply view_insert_suite].
Qed.
#[export] Hint Resolve view_createSuiteTx : view.

Section statements.
Context `{HTTPTime}.

Lemma view_PutBlob d0 hash size now : triple (view d0) (PutBlob hash size now) (λ _, view d0).
Proof. intros d r d' [] Hrun. unfold PutBlob in Hrun. minv. by split. Qed.

Lemma view_PutRepresentation d0 k hash l now : triple (view d0) (PutRepresentation k hash l now) (λ _, view d0).
Proof. unfold PutRepresentation. mkeep; eauto with view. Qed.

Lemma view_HeartbeatSnapshot d0 id now : triple (view d0) (HeartbeatSnapshot id now) (λ _, view d0).
Proof.
  unfold HeartbeatSnapshot. apply view_modify. intros d. split; try done. intros i. cbn.
  rewrite lookup_update_where. destruct (snap_t d !! i) as [s|]; [|done]. cbn. by destruct (i =? id).
Qed.

Lemma view_HeartbeatBlobs d0 l now : triple (view d0) (HeartbeatBlobs l now) (λ _, view d0).
Proof.
  intros d u d' [] Hrun. unfold HeartbeatBlobs in Hrun. destruct (length l =? 0)%nat; [by minv|].
  destruct (length _ =? 0)%nat; minv; by split.
Qed.

Lemma view_mark_chunk d0 marks : triple (view d0) (mark_chunk marks) (λ _, view d0).
Proof. apply triple_for_inv. intros. apply view_markSignedSeen. Qed.

Lemma view_TouchURLPath d0 k now : triple (view d0) (TouchURLPath k now) (λ _, view d0).
Proof. by apply view_modify. Qed.

Lemma view_PutURLPath d0 k u : triple (view d0) (PutURLPath k u) (λ _, view d0).
Proof. unfold PutURLPath. apply view_url_upsert. Qed.

Lemma view_touch_suite d0 k now : triple (view d0) (touch_suite k now) (λ _, view d0).
Proof.
  intros d r d' Hd Hrun. unfold touch_suite in Hrun. minv.
  by eapply (view_suite_update d0 (λ k' _, bool_decide (k' = k))); [|exact Hd|reflexivity].
Qed.

Lemma view_EvictURLPath d0 k now : triple (view d0) (EvictURLPath k now) (λ _, view d0).
Proof.
  intros d r d' [] Hrun. unfold EvictURLPath in Hrun. minv. destruct (url_t d !! k) as [u|]; minv; [|done].
  destruct (up_blob u) as [b|]; minv; [destruct (String.eqb b "")|]; minv; by split.
Qed.

Lemma view_storeFetchedTx d0 m caps held now :
  triple (view d0) (storeFetchedTx m caps held now) (λ _, view d0).
Proof.
  unfold storeFetchedTx, store_representation, checkMetadataGenerationTx, PutURLPath, restampSuiteTx.
  mkeep; eauto using view_suite_update with view.
Qed.
End statements.

(** ** The decisions of a request *)

Section decisions.
Context `{TableScan}.
Context (d0 d : DB) (Hview : view d0 d).

Lemma view_vouching id suite : vouching d id suite ↔ vouching d0 id suite.
Proof.
  pose proof (vw_snap _ _ Hview id) as Hs. unfold vouching.
  destruct (snap_t d !! id) as [s|], (snap_t d0 !! id) as [s0|]; cbn in Hs; try done; [|naive_solver].
  unfold snap_face in Hs. injection Hs as H1 H2 H3 H4. split.
  - intros (x & [= <-] & Hf & Hc & Hp). exists s0. rewrite <-H1, <-H2, <-(vw_current _ _ Hview). auto.
  - intros (x & [= <-] & Hf & Hc & Hp). exists s. rewrite H1, H2, (vw_current _ _ Hview). auto.
Qed.

Lemma view_row_of k p r : row_of d k p r ↔ row_of d0 k p r.
Proof. unfold row_of. by rewrite (vw_pkg _ _ Hview), view_vouching. Qed.

Lemma view_declared flag scheme host path r :
  (flatRowsExist d = true → flag = true) →
  r ∈ DeclaredHashesForPath d flag scheme host path ↔ r ∈ DeclaredHashesForPath d0 true scheme host path.
Proof.
  intros Hflag. rewrite !declared_rows by done. unfold covers, flat_covers. setoid_rewrite view_row_of. done.
Qed.

Lemma coverage_spec x scheme host id c :
  (id, c) ∈ HostCurrentSnapshotsCoverage x scheme host ↔
  ∃ s, snap_t x !! id = Some s ∧ key_scheme (ss_suite s) = scheme ∧ key_host (ss_suite s) = host ∧
       ss_form s ≠ FormUnsigned ∧ suite_current x (ss_suite s) = Some id ∧ ss_coverage s = c.
Proof.
  unfold HostCurrentSnapshotsCoverage. rewrite list_elem_of_fmap. split.
  - intros ([i s] & [= -> ->] & [Hs%elem_of_scan Hc]%elem_of_filter_fun). cbn in Hc. bclean.
    exists s. cbn. split_and!; try done.
  - intros (s & Hs & <- & <- & Hf & Hc & <-). exists (id, s). split; [done|].
    apply elem_of_filter_fun. rewrite elem_of_scan. split; [done|]. cbn.
    rewrite !String.eqb_refl. apply String.eqb_neq in Hf as ->. by rewrite bool_decide_eq_true_2.
Qed.

Lemma view_coverage scheme host e :
  e ∈ HostCurrentSnapshotsCoverage d scheme host ↔ e ∈ HostCurrentSnapshotsCoverage d0 scheme host.
Proof.
  destruct e as [id c]. rewrite !coverage_spec. pose proof (vw_snap _ _ Hview id) as Hs.
  destruct (snap_t d !! id) as [s|], (snap_t d0 !! id) as [s0|]; cbn in Hs; try done; [|naive_solver].
  unfold snap_face in Hs. injection Hs as H1 H2 H3 H4.
  setoid_rewrite (vw_current _ _ Hview). split; intros (x & [= <-] & Hx).
  - exists s0. rewrite <-H1, <-H2, <-H3. done.
  - exists s. rewrite H1, H2, H3. done.
Qed.
End decisions.
