(* ===== verification/Store.v ===== *)
(** * The cache as one system

    Every write of the cache database is one of the operations of the other
    files, committed as a transaction by the single writer.  [operation] lists
    them, [step] runs one - a failed transaction leaves the database as it was
    - and the theorems here are about all the databases a sequence of them can
    reach, with any clock and in any order. *)
From S2P Require Import Prelude GoStrings AptPath DebVersion Tables Invariant Snapshots Suites GC Retention Rows.
Local Open Scope Z_scope.

(** ** The transactions *)

Section system.
Context `{TableScan} `{HTTPTime}.

Inductive operation : ∀ {A}, T A → Prop :=
| op_PutBlob h size now : operation (PutBlob h size now)
| op_HeartbeatBlobs hs now : operation (HeartbeatBlobs hs now)
| op_InsertCandidate sc now : operation (InsertCandidateSnapshot sc now)
| op_HeartbeatSnapshot id now : operation (HeartbeatSnapshot id now)
| op_CommitAdoption id ms ss ps fs c skipNow now :
    operation (CommitAdoption id ms ss ps fs c skipNow now)
| op_MarkSignedSeen marks : operation (mark_chunk marks)
| op_InsertReconciled id ms ps : operation (InsertReconciledMembers id ms ps)
| op_RepairSkipped id p ms : operation (RepairSkippedMember id p ms)
| op_BumpSkipped id p : operation (BumpSkippedMemberRetry id p)
| op_EvictURLPath k now : operation (EvictURLPath k now)
| op_CreateSuite seed caps held now : operation (createSuiteTx seed caps held now)
| op_ReapIdleSuite k want cutoff now : operation (ReapIdleSuite k want cutoff now)
| op_ForgetSuite k want now : operation (ForgetSuite k want now)
| op_DeleteSuiteMetadata k ps now : operation (deleteURLPathRows k ps now)
| op_UpdateSuiteFreshness k c s e l x n : operation (updateSuiteFreshness k c s e l x n)
| op_StoreFetched m caps held now : operation (storeFetchedTx m caps held now)
| op_PutURLPath k u : operation (PutURLPath k u)
| op_PutRepresentation k h l now : operation (PutRepresentation k h l now)
| op_RecordAdoptionFailure k a : operation (RecordAdoptionFailure k a)
| op_ClearAdoptionFailure k : operation (ClearAdoptionFailure k)
| op_SetAdoptionNextRetry k n : operation (SetAdoptionNextRetry k n)
| op_RescheduleFailing now f : operation (RescheduleFailingAdoptions now f)
| op_TouchSuite k now : operation (touch_suite k now)
| op_SweepOrphanMarkers ks cutoff : operation (deleteOrphanMarkers ks cutoff)
| op_ApplyLegacyAudit now l : operation (ApplyLegacyAuditDecisions now l)
| op_EnqueueLegacyAudit ids : operation (EnqueueLegacyTrustAudit ids)
| op_BlobGC n grace now : operation (RunBlobGCBatch n grace now)
| op_SnapshotGC n grace keep now : operation (RunSnapshotGCBatch n grace keep now)
| op_RetiredGC n : operation (RunRetiredSnapshotGCChunk n)
| op_URLPathGC n ttl hold v after now : operation (RunURLPathGCBatch n ttl hold v after now)
| op_TouchURLPath k now : operation (TouchURLPath k now)
| op_RefreshURLPath k old new e l now : operation (RefreshURLPathBlob k old new e l now)
| op_DeleteURLPathRows rows now : operation (DeleteURLPathRows rows now)
| op_InvalidateLegacy k a o now : operation (InvalidateLegacyMetadata k a o now).

Definition step (d d' : DB) : Prop :=
  ∃ A (m : T A), operation m ∧ d' = (atomically m d).2.

Definition reachable : DB → Prop := rtc step empty_db.

Lemma op_wf {A} (m : T A) : operation m → triple wf m (λ _, wf).
Proof. by destruct 1; eauto 2 with wf. Qed.

Lemma step_cases (P : DB → DB → Prop) d d' :
  step d d' → P d d → (∀ A (m : T A) a, operation m → m d = Ok (a, d') → P d d') → P d d'.
Proof.
  intros (A & m & Hop & ->) Hrefl Hrun. unfold atomically in *.
  destruct (m d) as [[a d1]|e] eqn:E; [|done]. by eapply Hrun.
Qed.

Lemma step_wf d d' : step d d' → wf d → wf d'.
Proof.
  intros Hs. apply (step_cases (λ d d', wf d → wf d') d d' Hs); [done|].
  intros A m a Hop Hrun Hwf. by eapply (op_wf m Hop).
Qed.

Lemma steps_wf d d' : rtc step d d' → wf d → wf d'.
Proof. induction 1; eauto using step_wf. Qed.

Lemma reachable_wf d : reachable d → wf d.
Proof. intros Hr. eapply steps_wf; [exact Hr|]. apply wf_empty. Qed.

(** ** What a write may do to generations and markers *)

Record keeps (d0 d : DB) : Prop := {
  kp_clock : meta_clock d0 <= meta_clock d;
  kp_rows : ∀ k f', suite_t d !! k = Some f' →
    (∃ f, suite_t d0 !! k = Some f ∧ sf_rowid f = sf_rowid f' ∧
          sf_generation f = sf_generation f') ∨ meta_clock d0 < sf_generation f';
  kp_marks : ∀ k t, seen_t d0 !! k = Some t → ∃ t', seen_t d !! k = Some t' ∧ t <= t' }.

Lemma keeps_refl d : keeps d d.
Proof. split; [done|eauto|eauto using Z.le_refl]. Qed.

Definition kept {A} (m : T A) : Prop := ∀ d0, triple (keeps d0) m (λ _, keeps d0).

Lemma kept_modify f :
  (∀ d, meta_clock (f d) = meta_clock d ∧ suite_t (f d) = suite_t d ∧ seen_t (f d) = seen_t d) →
  kept (mmodify f).
Proof.
  intros Hf d0 d u d' [H1 H2 H3] Hrun. unfold mmodify in Hrun. simplify_eq.
  destruct (Hf d) as (E1 & E2 & E3). split; rewrite ?E1, ?E2, ?E3; done.
Qed.

Lemma kept_suite_update P g :
  (∀ f, sf_rowid (g f) = sf_rowid f ∧ sf_generation (g f) = sf_generation f) →
  kept (mmodify (upd_suite (update_where P g))).
Proof.
  intros Hg d0 d u d' [H1 H2 H3] Hrun. unfold mmodify in Hrun. simplify_eq.
  split; try done. intros k f' (f & Hf & ->)%lookup_update_where_Some.
  destruct (Hg f) as [E1 E2]. destruct (H2 k f Hf) as [(f1 & ? & ? & ?)|?]; destruct (P k f);
    rewrite ?E1, ?E2; eauto.
Qed.

Lemma kept_suite_delete k : kept (mmodify (upd_suite (delete k))).
Proof.
  intros d0 d u d' [H1 H2 H3] Hrun. unfold mmodify in Hrun. simplify_eq.
  split; try done. simpl. intros k' f' [_ Hf]%lookup_delete_Some. by apply H2.
Qed.

Lemma kept_suite_insert k f :
  (∀ r g, sf_generation (f r g) = g) → kept (suite_insert k f).
Proof.
  intros Hf d0 d u d' [H1 H2 H3] Hrun. unfold suite_insert in Hrun. minv.
  split; simpl; [lia| |done]. intros k' f' [[<- <-]|[_ Hk]]%lookup_insert_Some.
  - right. rewrite Hf. lia.
  - by apply H2.
Qed.

Lemma kept_flip_pointer id s : kept (flip_pointer id s).
Proof.
  intros d0 d u d' [H1 H2 H3] Hrun. unfold flip_pointer in Hrun. minv.
  destruct (suite_t d !! ss_suite s) as [f|] eqn:Hf; minv.
  split; try done. simpl. intros k' f' [[<- <-]|[_ Hk]]%lookup_insert_Some; [|by apply H2].
  destruct (H2 _ f Hf) as [(f1 & ? & ? & ?)|?]; eauto.
Qed.

Lemma kept_bump_generation k : kept (bump_generation k).
Proof.
  intros d0 d u d' [H1 H2 H3] Hrun. unfold bump_generation in Hrun. minv.
  split; simpl; [lia| |done]. intros k' f' (f & Hf & ->)%lookup_update_where_Some.
  destruct (bool_decide _); [right; simpl; lia|]. by apply H2.
Qed.

Lemma kept_mark k t : kept (markSignedSeen k t).
Proof.
  intros d0 d u d' [H1 H2 H3] Hrun. unfold markSignedSeen in Hrun. minv.
  split; try done. intros k' t0 (t1 & Ht & ?)%H3. simpl. destruct (decide (k' = k)) as [->|Hne].
  - rewrite lookup_insert_eq, Ht. eexists. split; [done|]. lia.
  - rewrite lookup_insert_ne by done. eauto.
Qed.

Lemma kept_stamp k now : kept (stampBaseMarkersTx k now).
Proof.
  intros d0 d u d' [H1 H2 H3] Hrun. unfold stampBaseMarkersTx in Hrun. minv.
  split; try done. intros k' t0 (t1 & Ht & ?)%H3. simpl. rewrite lookup_update_where, Ht.
  eexists. split; [done|]. destruct (base_marker _ _ _); lia.
Qed.

#[local] Hint Extern 1 (triple (keeps _) (markSignedSeen _ _) _) => apply kept_mark : wf.
#[local] Hint Extern 1 (triple (keeps _) (stampBaseMarkersTx _ _) _) => apply kept_stamp : wf.
#[local] Hint Extern 1 (triple (keeps _) (bump_generation _) _) => apply kept_bump_generation : wf.
#[local] Hint Extern 1 (triple (keeps _) (flip_pointer _ _) _) => apply kept_flip_pointer : wf.
#[local] Hint Extern 1 (triple (keeps _) (suite_insert _ _) _) =>
  apply kept_suite_insert; reflexivity : wf.
#[local] Hint Extern 1 (triple (keeps _) (mmodify ?f) _) =>
  lazymatch f with
  | upd_suite (delete _) => apply kept_suite_delete
  | upd_suite (update_where _ _) => apply kept_suite_update; intros; split; reflexivity
  | _ => apply kept_modify; intros; split_and!; reflexivity
  end : wf.

Lemma kept_deleteSuiteTx k want cutoff now : kept (deleteSuiteTx k want cutoff now).
Proof.
  intros d0. unfold deleteSuiteTx, markSnapshotHistoryTx, retireSuiteSnapshotsTx,
    decrementSnapshotRefcountsTx. mkeep.
Qed.

Lemma kept_deleteURLPathRowTx k b now : kept (deleteURLPathRowTx k b now).
Proof. intros d0. unfold deleteURLPathRowTx. mkeep. Qed.

Lemma kept_deleteCachedRowTx k now : kept (deleteCachedRowTx k now).
Proof. intros d0. unfold deleteCachedRowTx, deleteURLPathRowTx. mkeep. Qed.

Lemma kept_url_upsert k new f : kept (url_upsert k new f).
Proof. intros d0. unfold url_upsert. mkeep. Qed.

Lemma kept_putRepresentation k h date now : kept (putRepresentation k h date now).
Proof. intros d0. unfold putRepresentation. mkeep. Qed.

#[local] Hint Extern 1 (triple (keeps _) (deleteSuiteTx _ _ _ _) _) => apply kept_deleteSuiteTx : wf.
#[local] Hint Extern 1 (triple (keeps _) (deleteURLPathRowTx _ _ _) _) => apply kept_deleteURLPathRowTx : wf.
#[local] Hint Extern 1 (triple (keeps _) (deleteCachedRowTx _ _) _) => apply kept_deleteCachedRowTx : wf.
#[local] Hint Extern 1 (triple (keeps _) (url_upsert _ _ _) _) => apply kept_url_upsert : wf.
#[local] Hint Extern 1 (triple (keeps _) (putRepresentation _ _ _ _) _) => apply kept_putRepresentation : wf.

Lemma kept_CommitAdoption id ms ss ps fs c skipNow now :
  kept (CommitAdoption id ms ss ps fs c skipNow now).
Proof.
  intros d0. unfold CommitAdoption, snapshot_row, adopt_checks, refuseUnsignedDowngrade,
    adopt_rows, adopt_member, adopt_skipped, adopt_package, member_insert, skip_insert,
    pkg_insert, adoptionStampTx, adopt_urls, adopt_prefetched, seedAnchor, adopt_flip,
    bump_snapshot, mark_adopted_base, decrementSnapshotRefcountsTx. mkeep.
Qed.

Lemma kept_InsertCandidateSnapshot sc now : kept (InsertCandidateSnapshot sc now).
Proof. intros d0. unfold InsertCandidateSnapshot. mkeep. Qed.

Lemma kept_createSuiteTx seed caps held now : kept (createSuiteTx seed caps held now).
Proof. intros d0. unfold createSuiteTx, insert_suite, markCreated. mkeep. Qed.

Lemma kept_InsertReconciledMembers id ms ps : kept (InsertReconciledMembers id ms ps).
Proof.
  intros d0. unfold InsertReconciledMembers, current_guard, reconcile_member, bump_missing,
    insertPackageHashTx, member_insert, pkg_insert. mkeep.
Qed.

Lemma kept_RepairSkippedMember id p ms : kept (RepairSkippedMember id p ms).
Proof.
  intros d0. unfold RepairSkippedMember, current_guard, repair_checks, repair_member,
    bump_missing, member_insert. mkeep.
Qed.

Lemma kept_storeFetchedTx m caps held now : kept (storeFetchedTx m caps held now).
Proof.
  intros d0. unfold storeFetchedTx, checkMetadataGenerationTx, PutURLPath, store_representation,
    createSuiteTx, insert_suite, markCreated, restampSuiteTx. mkeep.
Qed.

Lemma kept_reschedule now f n ks : kept (reschedule now f n ks).
Proof. intros d0. revert n. induction ks as [|k ks IH]; intros n; simpl; mkeep. Qed.

Lemma kept_audit_decision now x : kept (audit_decision now x).
Proof.
  intros d0. unfold audit_decision, markSnapshotBaseTx, quarantineSnapshotTx,
    dropAnchorBlobRowsTx, decrementSnapshotRefcountsTx. mkeep.
Qed.

Lemma kept_RunBlobGCBatch n grace now : kept (RunBlobGCBatch n grace now).
Proof. intros d0. unfold RunBlobGCBatch, pruneRepresentationMetadataTx, blob_delete. mkeep. Qed.

Lemma kept_RunSnapshotGCBatch n grace keep now : kept (RunSnapshotGCBatch n grace keep now).
Proof. intros d0. unfold RunSnapshotGCBatch, cascade_delete, snap_delete. mkeep. Qed.

Lemma kept_RunRetired n : kept (RunRetiredSnapshotGCChunk n).
Proof. intros d0. unfold RunRetiredSnapshotGCChunk, retired_children, snap_delete. mkeep. Qed.

Lemma kept_url_loop cutoff hold v now c res batch : kept (url_loop cutoff hold v now c res batch).
Proof.
  intros d0. revert c res. induction batch as [|r batch IH]; intros c res; simpl; [mkeep|].
  unfold apply_verdict. mkeep.
Qed.

Lemma kept_invalidate_loop fuel k after now : kept (invalidate_loop fuel k after now).
Proof.
  intros d0. revert after. induction fuel as [|fuel IH]; intros after; simpl; mkeep.
Qed.

Lemma kept_RefreshURLPathBlob k old new e l now : kept (RefreshURLPathBlob k old new e l now).
Proof. intros d0. unfold RefreshURLPathBlob. mkeep. Qed.

#[local] Hint Extern 1 (triple (keeps _) (reschedule _ _ _ _) _) => apply kept_reschedule : wf.
#[local] Hint Extern 1 (triple (keeps _) (audit_decision _ _) _) => apply kept_audit_decision : wf.
#[local] Hint Extern 1 (triple (keeps _) (url_loop _ _ _ _ _ _ _) _) => apply kept_url_loop : wf.
#[local] Hint Extern 1 (triple (keeps _) (invalidate_loop _ _ _ _) _) => apply kept_invalidate_loop : wf.

(** Every operation keeps the generations, and every marker unless the base
    has no suite left. *)
Definition marker_rule (d d' : DB) : Prop :=
  meta_clock d <= meta_clock d' ∧
  (∀ k f', suite_t d' !! k = Some f' →
    (∃ f, suite_t d !! k = Some f ∧ sf_rowid f = sf_rowid f' ∧
          sf_generation f = sf_generation f') ∨ meta_clock d < sf_generation f') ∧
  (∀ k t, seen_t d !! k = Some t →
    (∃ t', seen_t d' !! k = Some t' ∧ t <= t') ∨
    has_base_suite d' (key_host k) (key_path k) = false).

Lemma keeps_rule d d' : keeps d d' → marker_rule d d'.
Proof. intros [H1 H2 H3]. split_and!; eauto. Qed.

Lemma kept_rule {A} (m : T A) d a d' : kept m → m d = Ok (a, d') → marker_rule d d'.
Proof. intros Hm Hrun. apply keeps_rule. eapply (Hm d); [apply keeps_refl|exact Hrun]. Qed.

Lemma deleteCachedRow_suites X k now :
  triple (λ d, suite_t d = X) (deleteCachedRowTx k now) (λ _ d, suite_t d = X).
Proof.
  intros d r d' Hd Hrun. unfold deleteCachedRowTx, deleteURLPathRowTx in Hrun. minv.
  destruct (url_t d !! k) as [u|] eqn:Hu; minv; [|done]. rewrite Hu in *. minv.
  destruct (up_blob u) as [h|]; minv; [|done]. by destruct (String.eqb h ""); minv.
Qed.

Lemma base_suites_none d host base :
  baseSuiteRowsTx d host base = [] → has_base_suite d host base = false.
Proof.
  intros Hnil. apply exists_where_false. intros k f Hk.
  destruct (base_suite host base k) eqn:E; [|done]. exfalso.
  apply (not_elem_of_nil (A := SuiteKey) k). rewrite <-Hnil. unfold baseSuiteRowsTx.
  apply elem_of_sort_by, list_elem_of_In, filter_In. split; [|done].
  apply in_map_iff. exists (k, f). split; [done|]. by apply list_elem_of_In, elem_of_map_to_list.
Qed.

Lemma ForgetSuite_rule k want now d r d' :
  ForgetSuite k want now d = Ok (r, d') → marker_rule d d'.
Proof.
  intros Hrun. unfold ForgetSuite in Hrun. minv.
  pose proof (kept_deleteSuiteTx k want ReapRegardless now d d _ _ (keeps_refl d) Hrun0) as Hk.
  destruct (bool_decide _); minv; [|by apply keeps_rule].
  destruct (length _ =? 0)%nat eqn:Hempty; minv; [|by apply keeps_rule].
  apply Nat.eqb_eq, nil_length_inv, base_suites_none in Hempty.
  set (base := MarkerBase (key_path k)) in *.
  assert (keeps d st0) as [H1 H2 H3].
  { refine ((_ : triple (keeps d) _ (λ _, keeps d)) st rv0 st0 Hk Hrun1).
    unfold deleteBaseAnchorsTx. mkeep. }
  assert (suite_t st0 = suite_t st) as Es.
  { refine (triple_count_inv (λ d, suite_t d = suite_t st) _ _ _ st rv0 st0 eq_refl Hrun1).
    intros x. apply deleteCachedRow_suites. }
  split_and!; [exact H1|exact H2|]. intros k' t (t' & Ht & Hle)%H3.
  destruct (base_marker (key_host k) base k') eqn:Em.
  - right. unfold base_marker in Em. bclean. unfold has_base_suite in *. simpl.
    rewrite Es. replace (key_host k') with (key_host k) by congruence.
    by replace (key_path k') with base by congruence.
  - left. exists t'. split; [|done]. simpl. by rewrite lookup_delete_where, Ht, Em.
Qed.

Lemma sweep_rule ks cutoff d n d' :
  deleteOrphanMarkers ks cutoff d = Ok (n, d') → marker_rule d d'.
Proof.
  intros Hrun.
  cut (suite_t d' = suite_t d ∧ meta_clock d' = meta_clock d ∧
       ∀ k t, seen_t d !! k = Some t →
         seen_t d' !! k = Some t ∨ has_base_suite d (key_host k) (key_path k) = false).
  { intros (E1 & E2 & Hm). unfold marker_rule, has_base_suite in *. rewrite E1, E2.
    split_and!; [done|eauto|]. intros k t [?|?]%Hm; eauto using Z.le_refl. }
  refine (triple_count_inv (λ d', suite_t d' = suite_t d ∧ meta_clock d' = meta_clock d ∧ _)
            _ _ _ d n d' _ Hrun); [|by eauto].
  intros k d1 b d2 (E1 & E2 & Hm) Hd. unfold delete_orphan in Hd. minv.
  destruct (seen_t d1 !! k) as [t|] eqn:Hk; minv; [|done].
  destruct (orphan_marker d1 cutoff k t) eqn:Ho; minv; [|done]. split_and!; [done..|].
  intros k' t' Ht'. destruct (Hm k' t' Ht') as [Hs|?]; [|by right]. simpl.
  destruct (decide (k = k')) as [<-|Hne].
  - right. unfold orphan_marker in Ho. bclean. unfold has_base_suite in *. by rewrite <-E1.
  - left. by rewrite lookup_delete_ne.
Qed.

Lemma op_rule {A} (m : T A) d a d' : operation m → m d = Ok (a, d') → marker_rule d d'.
Proof.
  intros Hop Hrun. destruct Hop.
  - refine (kept_rule _ _ _ _ _ Hrun). intros ?. unfold PutBlob. mkeep.
  - refine (kept_rule _ _ _ _ _ Hrun). intros ?. unfold HeartbeatBlobs. mkeep.
  - refine (kept_rule _ _ _ _ _ Hrun). apply kept_InsertCandidateSnapshot.
  - refine (kept_rule _ _ _ _ _ Hrun). intros ?. unfold HeartbeatSnapshot. mkeep.
  - refine (kept_rule _ _ _ _ _ Hrun). apply kept_CommitAdoption.
  - refine (kept_rule _ _ _ _ _ Hrun). intros ?. unfold mark_chunk. mkeep.
  - refine (kept_rule _ _ _ _ _ Hrun). apply kept_InsertReconciledMembers.
  - refine (kept_rule _ _ _ _ _ Hrun). apply kept_RepairSkippedMember.
  - refine (kept_rule _ _ _ _ _ Hrun). intros ?. unfold BumpSkippedMemberRetry. mkeep.
  - refine (kept_rule _ _ _ _ _ Hrun). intros ?. unfold EvictURLPath. mkeep.
  - refine (kept_rule _ _ _ _ _ Hrun). apply kept_createSuiteTx.
  - refine (kept_rule _ _ _ _ _ Hrun). intros ?. unfold ReapIdleSuite. mkeep.
  - by eapply ForgetSuite_rule.
  - refine (kept_rule _ _ _ _ _ Hrun). intros ?. unfold deleteURLPathRows. mkeep.
  - refine (kept_rule _ _ _ _ _ Hrun). intros ?. unfold updateSuiteFreshness. mkeep.
  - refine (kept_rule _ _ _ _ _ Hrun). apply kept_storeFetchedTx.
  - refine (kept_rule _ _ _ _ _ Hrun). intros ?. unfold PutURLPath. mkeep.
  - refine (kept_rule _ _ _ _ _ Hrun). intros ?. unfold PutRepresentation. mkeep.
  - refine (kept_rule _ _ _ _ _ Hrun). intros ?. unfold RecordAdoptionFailure. mkeep.
  - refine (kept_rule _ _ _ _ _ Hrun). intros ?. unfold ClearAdoptionFailure. mkeep.
  - refine (kept_rule _ _ _ _ _ Hrun). intros ?. unfold SetAdoptionNextRetry. mkeep.
  - refine (kept_rule _ _ _ _ _ Hrun). intros ?. unfold RescheduleFailingAdoptions. mkeep.
  - refine (kept_rule _ _ _ _ _ Hrun). intros ?. unfold touch_suite. mkeep.
  - by eapply sweep_rule.
  - refine (kept_rule _ _ _ _ _ Hrun). intros ?. unfold ApplyLegacyAuditDecisions. mkeep.
  - refine (kept_rule _ _ _ _ _ Hrun). intros ?. unfold EnqueueLegacyTrustAudit. mkeep.
  - refine (kept_rule _ _ _ _ _ Hrun). apply kept_RunBlobGCBatch.
  - refine (kept_rule _ _ _ _ _ Hrun). apply kept_RunSnapshotGCBatch.
  - refine (kept_rule _ _ _ _ _ Hrun). apply kept_RunRetired.
  - refine (kept_rule _ _ _ _ _ Hrun). intros ?. unfold RunURLPathGCBatch. mkeep.
  - refine (kept_rule _ _ _ _ _ Hrun). intros ?. unfold TouchURLPath. mkeep.
  - refine (kept_rule _ _ _ _ _ Hrun). apply kept_RefreshURLPathBlob.
  - refine (kept_rule _ _ _ _ _ Hrun). intros ?. unfold DeleteURLPathRows, delete_read_row. mkeep.
  - refine (kept_rule _ _ _ _ _ Hrun). intros ?. unfold InvalidateLegacyMetadata. mkeep.
Qed.

(** ** Signed history *)

(** A run in which the base keeps a suite row. *)
Definition based (host base : string) : DB → DB → Prop :=
  rtc (λ d d', step d d' ∧ has_base_suite d' host base = true).

Lemma step_rule d d' : step d d' → marker_rule d d'.
Proof.
  intros Hs. apply (step_cases marker_rule d d' Hs).
  - apply keeps_rule, keeps_refl.
  - intros A m a Hop Hrun. by eapply op_rule.
Qed.

Lemma based_steps host base d d' : based host base d d' → rtc step d d'.
Proof. induction 1 as [|d d1 d2 [Hs _] _ IH]; [done|]. by eapply rtc_l. Qed.

Lemma marker_lasts k t d d' :
  based (key_host k) (key_path k) d d' → seen_t d !! k = Some t →
  ∃ t', seen_t d' !! k = Some t' ∧ t <= t'.
Proof.
  intros Hb. revert t. induction Hb as [d|d d1 d2 [Hs Hbase] _ IH]; intros t Ht.
  { exists t. split; [done|lia]. }
  destruct (step_rule _ _ Hs) as (_ & _ & Hm).
  destruct (Hm k t Ht) as [(t1 & Ht1 & ?)|Hf]; [|congruence].
  destruct (IH t1 Ht1) as (t2 & ? & ?). exists t2. split; [done|lia].
Qed.

Lemma marked_refused id' ms ss ps fs c skipNow now d s' :
  snap_t d !! id' = Some s' → ss_form s' = FormUnsigned →
  has_marker d (key_host (ss_suite s')) (MarkerBase (key_path (ss_suite s'))) = true →
  ∃ e, CommitAdoption id' ms ss ps fs c skipNow now d = Err e ∧
    (ss_adopted s' = None → ss_retired s' = None → e = ErrUnsignedDowngradeRefused).
Proof.
  intros Hs Hform Hm.
  assert (CommitAdoption id' ms ss ps fs c skipNow now d = Err
    (if is_set (ss_adopted s') then ErrSnapshotAlreadyAdopted
     else if is_set (ss_retired s') then ErrSnapshotRetired
     else ErrUnsignedDowngradeRefused)) as ->.
  { unfold CommitAdoption, snapshot_row, adopt_checks, mbind, M_bind, mget, massert.
    rewrite Hs. unfold mret, M_ret. rewrite Hform.
    destruct (is_set (ss_adopted s')); [done|]. destruct (is_set (ss_retired s')); [done|].
    simpl. unfold refuseUnsignedDowngrade, mbind, M_bind, mget. by rewrite Hm. }
  eexists. split; [done|]. by intros -> ->.
Qed.

Lemma adopted_marks id ms ss ps fs c skipNow now d u d' s :
  wf d → CommitAdoption id ms ss ps fs c skipNow now d = Ok (u, d') →
  snap_t d !! id = Some s → ss_form s ≠ FormUnsigned →
  is_Some (seen_t d' !! base_key (ss_suite s)).
Proof.
  intros Hwf Hrun Hs Hform.
  destruct (CommitAdoption_inv _ _ _ _ _ _ _ _ _ _ _ Hwf Hrun)
    as (s0 & d1 & stamp & d2 & Hs0 & _ & _ & _ & _ & _ & _ & _ & _ & _ & _ & Hflip).
  assert (s0 = s) as -> by congruence.
  apply adopt_flip_inv in Hflip as (f & _ & ->). simpl. unfold adopted_marker.
  destruct (wf_snaps d Hwf) as [_ Hsn]. destruct (Hsn id s Hs) as [_ Hshape].
  assert (String.eqb (ss_form s) FormInline || String.eqb (ss_form s) FormDetached = true) as ->.
  { destruct Hshape as [[[->|?] _]|[-> _]]; done. }
  rewrite lookup_insert_eq. by eexists.
Qed.

(** C2. Trust never goes down.  Once a snapshot with a signature was adopted
    for a suite over http or https, then whatever transactions follow, in any
    order and with any clock - collections, deletions and re-creations of
    suites, audits, sweeps of markers - as long as each leaves the archive base
    some suite row, every attempt to adopt an unsigned snapshot of that host
    and base (the suite or its flat twin, over either scheme) fails, as a refused
    downgrade unless the snapshot was already adopted or retired. *)
Theorem signed_history_refuses id ms ss ps fs c skipNow now d0 u d1 d2 s
    id' ms' ss' ps' fs' c' skipNow' now' s' :
  reachable d0 →
  CommitAdoption id ms ss ps fs c skipNow now d0 = Ok (u, d1) →
  snap_t d0 !! id = Some s → ss_form s ≠ FormUnsigned →
  signed_scheme (key_scheme (ss_suite s)) = true →
  based (key_host (ss_suite s)) (MarkerBase (key_path (ss_suite s))) d1 d2 →
  snap_t d2 !! id' = Some s' → ss_form s' = FormUnsigned →
  key_host (ss_suite s') = key_host (ss_suite s) →
  MarkerBase (key_path (ss_suite s')) = MarkerBase (key_path (ss_suite s)) →
  ∃ e, CommitAdoption id' ms' ss' ps' fs' c' skipNow' now' d2 = Err e ∧
    (ss_adopted s' = None → ss_retired s' = None → e = ErrUnsignedDowngradeRefused).
Proof.
  intros Hr Hrun Hs Hform Hsch Hb Hs' Hform' Hhost Hbase.
  destruct (adopted_marks _ _ _ _ _ _ _ _ _ _ _ _ (reachable_wf _ Hr) Hrun Hs Hform) as [t Ht].
  destruct (marker_lasts (base_key (ss_suite s)) t d1 d2 Hb Ht) as (t' & Ht' & _).
  apply (marked_refused _ _ _ _ _ _ _ _ _ s'); [done..|].
  rewrite Hhost, Hbase. apply exists_where_true. exists (base_key (ss_suite s)), t'.
  split; [done|]. unfold base_key, key_scheme, key_host, key_path in *. simpl.
  by rewrite Hsch, !String.eqb_refl.
Qed.

(** ** The generation fence *)

(** Whatever row [k] has, its generation is at least [g]. *)
Definition fenced (k : SuiteKey) (g : Z) (d : DB) : Prop :=
  g <= meta_clock d + 1 ∧ ∀ f, suite_t d !! k = Some f → g <= sf_generation f.

Lemma fenced_step k g d d' : step d d' → fenced k g d → fenced k g d'.
Proof.
  intros Hs [Hc Hf]. destruct (step_rule _ _ Hs) as (H1 & H2 & _). split; [lia|].
  intros f' Hf'. destruct (H2 k f' Hf') as [(f & Hk & _ & <-)|?]; [by apply Hf|lia].
Qed.

Lemma fenced_steps k g d d' : rtc step d d' → fenced k g d → fenced k g d'.
Proof. induction 1; eauto using fenced_step. Qed.

Lemma clock_steps d d' : rtc step d d' → meta_clock d <= meta_clock d'.
Proof.
  induction 1 as [|d d1 d2 Hs _ IH]; [done|]. destruct (step_rule _ _ Hs) as (? & _). lia.
Qed.

Lemma reachable_positive k d : reachable d → fenced k 1 d.
Proof. intros Hr. eapply fenced_steps; [exact Hr|]. split; [done|]. intros f [=]. Qed.

Lemma stale_store_fails k f d d' m caps held now :
  reachable d → suite_t d !! k = Some f → fenced k (sf_generation f + 1) d' →
  fetched_suite m = k → fr_generation m = Some (MetadataGeneration d k) →
  storeFetchedTx m caps held now d' = Err ErrMetadataChanged.
Proof.
  intros Hr Hf [_ Hfence] Hm Hg. destruct (reachable_positive k d Hr) as [_ Hpos].
  pose proof (Hpos f Hf).
  unfold storeFetchedTx. rewrite Hg, Hm.
  unfold checkMetadataGenerationTx, mbind, M_bind, mget, massert.
  rewrite bool_decide_false; [done|]. unfold MetadataGeneration. rewrite Hf.
  destruct (suite_t d' !! k) as [f'|] eqn:Hf'; intros [= _ E].
  - pose proof (Hfence f' eq_refl). lia.
  - lia.
Qed.

Lemma invalidate_fences k anchor old now d u d' :
  InvalidateLegacyMetadata k anchor old now d = Ok (u, d') → fenced k (meta_clock d + 1) d'.
Proof.
  intros Hrun. unfold InvalidateLegacyMetadata in Hrun. minv.
  destruct (suite_t d !! k) as [f|]; minv. destruct (url_t d !! _) as [x|]; minv.
  destruct (up_blob x) as [h|]; minv.
  match goal with H : invalidate_loop _ _ _ _ d = Ok _ |- _ =>
    pose proof (kept_invalidate_loop _ _ _ _ d d _ _ (keeps_refl d) H) as [Hc _ _]
  end.
  unfold bump_generation in Hrun. minv. split; simpl; [lia|].
  intros f' (f0 & _ & ->)%lookup_update_where_Some. rewrite bool_decide_true by done.
  simpl. lia.
Qed.

(** The suite's row was gone, or its legacy metadata invalidated, on the way
    from [d] to [d1]. *)
Definition generation_moved (k : SuiteKey) (d d1 : DB) : Prop :=
  (rtc step d d1 ∧ suite_t d1 !! k = None) ∨
  ∃ d0 anchor old now, rtc step d d0 ∧
    InvalidateLegacyMetadata k anchor old now d0 = Ok (tt, d1).

(** C7. The generation fence holds for good.  A download that began under a
    suite's generation is never stored once that suite's row was deleted - and
    perhaps created again, even with the same SQLite rowid - or its metadata
    invalidated: whatever transactions run in between, the store fails with
    ErrMetadataChanged and changes nothing. *)
Theorem generation_fence k f d d1 d2 m caps held now :
  reachable d → suite_t d !! k = Some f → generation_moved k d d1 → rtc step d1 d2 →
  fetched_suite m = k → fr_generation m = Some (MetadataGeneration d k) →
  atomically (storeFetchedTx m caps held now) d2 = (Err ErrMetadataChanged, d2).
Proof.
  intros Hr Hf Hmoved Hs Hm Hg. unfold atomically.
  rewrite (stale_store_fails k f d d2 m); try done.
  apply (fenced_steps _ _ d1 d2 Hs).
  pose proof (wf_gen d (reachable_wf d Hr) k f Hf) as Hgen.
  destruct Hmoved as [[Hd Hnone]|(d0 & anchor & old & now' & Hd & Hi)];
    pose proof (clock_steps _ _ Hd).
  - split; [lia|]. intros f' Hf'. congruence.
  - apply invalidate_fences in Hi as [Hc Hrow]. split; [lia|]. intros f' Hf'.
    pose proof (Hrow f' Hf'). lia.
Qed.

(** ** What holds of every reachable database *)

(** C5. In every database the transactions can reach: a cached path and a
    member of a snapshot name stored blobs; a suite's current snapshot exists,
    is a snapshot of that suite, adopted and not retired, its anchors stored;
    a blob's zeroed-at clock runs exactly while its count is not positive; and
    no count exceeds the number of suites that serve the blob, so that a blob
    no suite serves is collectable. *)
Theorem reachable_safe d :
  reachable d →
  (∀ k u h, url_t d !! k = Some u → up_blob u = Some h → is_Some (blob_t d !! h)) ∧
  (∀ k f id, suite_t d !! k = Some f → sf_current f = Some id →
     ∃ s, snap_t d !! id = Some s ∧ ss_suite s = k ∧ is_Some (ss_adopted s) ∧
       ss_retired s = None ∧
       (∀ name h, AnchorHash s name = Some h → is_Some (blob_t d !! h)) ∧
       (∀ p m, LookupSnapshotMember d k p = Some m → m.1 = id ∧ is_Some (blob_t d !! m.2))) ∧
  (∀ h b, blob_t d !! h = Some b →
     (b_refcount b <= 0 ↔ is_Some (b_zeroed_at b)) ∧
     b_refcount b <= live_refs d h ∧
     ((∀ k f, suite_t d !! k = Some f → uses_blob d h f = false) → b_refcount b <= 0)).
Proof.
  intros Hr. pose proof (reachable_wf d Hr) as [[Hu Hm _ _ Ha _] Hsn Hc Hb _]. split_and!.
  - exact Hu.
  - intros k f id Hk Hf. destruct (Hc k f id Hk Hf) as (s & Hs & ? & ? & ?).
    exists s. split_and!; try done.
    + intros name h Hh. apply (Ha id s h Hs). unfold AnchorHash, anchorHash in Hh.
      repeat case_match; auto; discriminate.
    + intros p [i h] Hl. unfold LookupSnapshotMember, suite_current in Hl. rewrite Hk in Hl.
      simpl in Hl. rewrite Hf in Hl. simpl in Hl.
      destruct (member_t d !! (id, p)) as [x|] eqn:Hx; simpl in Hl; simplify_eq.
      split; [done|]. by apply (Hm _ _ Hx).
  - intros h b Hh. destruct (Hb h b Hh) as [Hz Hle]. split_and!; [apply Hz..|done|].
    intros Hno. etrans; [exact Hle|]. apply Z.eq_le_incl. unfold live_refs.
    by rewrite (count_where_ext _ (λ _ _, false)), count_where_none.
Qed.
End system.
