(* ===== verification/GoText.v ===== *)
(** * Reading text: lines, white space, folding case, integers

    What the parsers of internal/freshness use of Go's [bufio.Scanner],
    [strings] (Fields, TrimSpace, ToLower, EqualFold) and [strconv]
    (ParseInt, Atoi).  Go decodes UTF-8 in these; the white space outside
    ASCII and the letters outside ASCII whose lower case or fold is an ASCII
    letter are spelled out here by their UTF-8 bytes, whose first byte is never
    a continuation byte, so that a scan byte by byte meets each of them where
    the decoder does. *)
From S2P Require Import Prelude GoStrings.
Local Open Scope Z_scope.

(** ** [bufio.Scanner] with [bufio.ScanLines] *)

(** The per-line ceiling the parsers give the scanner. *)
Definition scanBufCap : Z := 2 ^ 20.

Definition cr : ascii := chr 13.

(** [bufio.dropCR] *)
Definition dropCR (s : string) : string := trim_suffix s (String cr "").

(** A final line without its newline counts unless it is empty. *)
Definition raw_lines (text : string) : list string :=
  let l := split_byte lf text in
  if bool_decide (last l = Some "") then removelast l else l.

(** A line that does not fit the buffer with its newline stops the scan with
    [bufio.ErrTooLong]: the lines before it were delivered. *)
Fixpoint deliver (max : Z) (l : list string) : list string * bool :=
  match l with
  | [] => ([], false)
  | x :: l =>
      if max <=? len x then ([], true)
      else let '(ls, bad) := deliver max l in (dropCR x :: ls, bad)
  end.

(** The lines [Scan] delivers, and whether [Err] reports one too long. *)
Definition scan_lines (text : string) : list string * bool := deliver scanBufCap (raw_lines text).

(** ** White space and case *)

Definition ascii_space (c : ascii) : bool :=
  (byte c =? 32) || ((9 <=? byte c) && (byte c <=? 13)).

(** The white space of [unicode.IsSpace] outside ASCII. *)
Definition wide_spaces : list string :=
  bytes_of [194; 133] :: bytes_of [194; 160] :: bytes_of [225; 154; 128] ::
  map (λ i, bytes_of [226; 128; Z.of_nat i]) (seq 128 11) ++
  [bytes_of [226; 128; 168]; bytes_of [226; 128; 169]; bytes_of [226; 128; 175];
   bytes_of [226; 129; 159]; bytes_of [227; 128; 128]].

(** The width of the white space at the head of [s]; 0 when there is none. *)
Definition space_width (s : string) : nat :=
  match s with
  | EmptyString => 0
  | String c _ =>
      if ascii_space c then 1
      else match find (λ w, has_prefix w s) wide_spaces with
           | Some w => String.length w
           | None => 0
           end
  end.

(** The word [s] begins with, and the words after it. *)
Fixpoint words (width : string → nat) (skip : nat) (s : string) : string * list string :=
  match s with
  | EmptyString => ("", [])
  | String c s' =>
      let gap n := let '(w, l) := words width n s' in ("", if (w =? "")%string then l else w :: l) in
      match skip with
      | S n => gap n
      | O => match width s with
             | S n => gap n
             | O => let '(w, l) := words width 0 s' in (String c w, l)
             end
      end
  end.

Definition fields_by (width : string → nat) (s : string) : list string :=
  let '(w, l) := words width 0 s in if (w =? "")%string then l else w :: l.

(** [strings.Fields] *)
Definition Fields (s : string) : list string := fields_by space_width s.

(** [strings.FieldsFunc] with an ASCII set of separators *)
Definition FieldsSet (set : string) (s : string) : list string :=
  fields_by (λ s, match s with
                  | EmptyString => O
                  | String c _ => if in_set set c then 1%nat else O
                  end) s.

Fixpoint trim_left_space (skip : nat) (s : string) : string :=
  match s with
  | EmptyString => ""
  | String _ s' =>
      match skip with
      | S n => trim_left_space n s'
      | O => match space_width s with S n => trim_left_space n s' | O => s end
      end
  end.

Fixpoint all_space (skip : nat) (s : string) : bool :=
  match s with
  | EmptyString => true
  | String _ s' =>
      match skip with
      | S n => all_space n s'
      | O => match space_width s with S n => all_space n s' | O => false end
      end
  end.

Fixpoint trim_right_space (s : string) : string :=
  match s with
  | EmptyString => ""
  | String c s' => if all_space 0 s then "" else String c (trim_right_space s')
  end.

(** [strings.TrimSpace] *)
Definition TrimSpace (s : string) : string := trim_right_space (trim_left_space 0 s).

(** [strings.Trim] with an ASCII cutset *)
Definition Trim (set s : string) : string := trim_right (in_set set) (trim_left (in_set set) s).

Definition lower_byte (c : ascii) : ascii := if is_upper c then chr (byte c + 32) else c.

(** A rewriting of the runes in [tbl], every other byte lowered as ASCII. *)
Fixpoint lower_runes (tbl : list (string * string)) (skip : nat) (s : string) : string :=
  match s with
  | EmptyString => ""
  | String c s' =>
      match skip with
      | S n => lower_runes tbl n s'
      | O => match find (λ p, has_prefix p.1 s) tbl with
             | Some (a, b) => b +:+ lower_runes tbl (pred (String.length a)) s'
             | None => String (lower_byte c) (lower_runes tbl 0 s')
             end
      end
  end.

(** U+212A KELVIN SIGN, U+0130 and U+017F: the letters outside ASCII with an
    ASCII lower case, or that fold to an ASCII letter. *)
Definition kelvin : string := bytes_of [226; 132; 170].
Definition dotted_I : string := bytes_of [196; 176].
Definition long_s : string := bytes_of [197; 191].

(** [strings.ToLower], as far as its ASCII output goes: no other letter has an
    ASCII lower case. *)
Definition ToLower (s : string) : string := lower_runes [(kelvin, "k"); (dotted_I, "i")] 0 s.

(** [strings.EqualFold(s, t)] for an ASCII [t] *)
Definition EqualFold (s t : string) : bool :=
  (lower_runes [(kelvin, "k"); (long_s, "s")] 0 s =? lower_runes [] 0 t)%string.

(** ** [strconv] *)

Fixpoint digits_value (acc : Z) (s : string) : option Z :=
  match s with
  | EmptyString => Some acc
  | String c s => if is_digit c then digits_value (acc * 10 + (byte c - 48)) s else None
  end.

(** [strconv.ParseUint] in base 10, without its range check. *)
Definition parse_digits (s : string) : option Z :=
  if (s =? "")%string then None else digits_value 0 s.

Definition in_int64 (n : Z) : bool := (- 2 ^ 63 <=? n) && (n <? 2 ^ 63).

(** [strconv.ParseInt(s, 10, 64)]; [None] is its error, of syntax or range. *)
Definition ParseInt (s : string) : option Z :=
  n ← match s with
      | String "-" t => n ← parse_digits t; Some (- n)
      | String "+" t => parse_digits t
      | _ => parse_digits s
      end;
  if in_int64 n then Some n else None.

(** [strconv.Atoi], with a 64-bit int. *)
Definition Atoi (s : string) : option Z := ParseInt s.

(** ** Laws *)

Lemma ParseInt_range s n : ParseInt s = Some n → - 2 ^ 63 <= n < 2 ^ 63.
Proof.
  unfold ParseInt. intros (m & _ & H)%bind_Some.
  destruct (in_int64 m) eqn:E; [|done]. injection H as <-.
  unfold in_int64 in E. bclean. lia.
Qed.

(** Every word is non-empty. *)
Lemma words_nonempty width skip s : Forall (λ w, w ≠ "") (words width skip s).2.
Proof.
  revert skip. induction s as [|c s IH]; intros skip; simpl; [done|].
  assert (∀ n, Forall (λ w, w ≠ "") (let '(w, l) := words width n s in
     ("" : string, if (w =? "")%string then l else w :: l)).2) as Hgap.
  { intros n. specialize (IH n). destruct (words width n s) as [w l]. simpl in *.
    destruct (String.eqb_spec w ""); [done|]. by constructor. }
  destruct skip; [|apply Hgap]. destruct (width (String c s)); [|apply Hgap].
  specialize (IH 0%nat). by destruct (words width 0 s).
Qed.

Lemma Fields_nonempty s : Forall (λ w, w ≠ "") (Fields s).
Proof.
  unfold Fields, fields_by. pose proof (words_nonempty space_width 0 s) as H.
  destruct (words space_width 0 s) as [w l]. simpl in H.
  destruct (String.eqb_spec w ""); [done|]. by constructor.
Qed.

(** Lines delivered hold no newline and are shorter than the buffer. *)
Lemma dropCR_length s : len (dropCR s) <= len s.
Proof.
  unfold dropCR. destruct (trim_suffix_cases s (String cr "")) as [(p & -> & ->)|[_ ->]]; [|lia].
  rewrite len_append. pose proof (len_nonneg (String cr "")). lia.
Qed.

Lemma deliver_bound max l : Forall (λ x, len x < max) (deliver max l).1.
Proof.
  induction l as [|x l IH]; simpl; [done|].
  destruct (max <=? len x) eqn:E; [done|].
  destruct (deliver max l) as [ls bad]. simpl in *. constructor; [|done].
  pose proof (dropCR_length x). bclean. lia.
Qed.

(** ** Folds over lines *)

(** The loop of a parser: one step per line, numbered from [n]. *)
Section lines.
Context {S E : Type} (step : Z → string → S → result E S).

Fixpoint each_line (n : Z) (l : list string) (s : S) : result E S :=
  match l with
  | [] => Ok s
  | x :: l => s' ← step n x s; each_line (n + 1) l s'
  end.

Lemma each_line_app n l k s :
  each_line n (l ++ k) s = s' ← each_line n l s; each_line (n + Z.of_nat (length l)) k s'.
Proof.
  revert n s. induction l as [|x l IH]; intros n s; simpl.
  { by rewrite Z.add_0_r. }
  unfold mbind, result_bind in *. destruct (step n x s) as [s'|e]; [|done]. rewrite IH.
  destruct (each_line (n + 1) l s'); [|done]. f_equal. lia.
Qed.

(** A property of the state the step keeps holds at the end. *)
Lemma each_line_inv (I : S → Prop) n l s s' :
  (∀ n x s s', I s → step n x s = Ok s' → I s') →
  I s → each_line n l s = Ok s' → I s'.
Proof.
  intros Hstep. revert n s. induction l as [|x l IH]; intros n s HI Hrun; simpl in Hrun.
  { by injection Hrun as <-. }
  unfold mbind, result_bind in Hrun. destruct (step n x s) as [s1|] eqn:Hs; [|done]. eauto.
Qed.

(** The state simulates a simpler fold of the lines. *)
Lemma each_line_sim {A} (f : string → A → option A) (R : S → A → Prop) :
  (∀ n x s a, R s a →
     match step n x s with
     | Ok s' => ∃ a', f x a = Some a' ∧ R s' a'
     | Err _ => f x a = None
     end) →
  ∀ l n s a, R s a →
    match each_line n l s with
    | Ok s' => ∃ a', foldl (λ o x, o ≫= f x) (Some a) l = Some a' ∧ R s' a'
    | Err _ => foldl (λ o x, o ≫= f x) (Some a) l = None
    end.
Proof.
  intros Hstep. induction l as [|x l IH]; intros n s a HR; simpl; [eauto|].
  specialize (Hstep n x s a HR). unfold mbind at 1, result_bind.
  destruct (step n x s) as [s1|e].
  - destruct Hstep as (a1 & -> & HR1). apply (IH (n + 1) s1 a1 HR1).
  - rewrite Hstep. clear. by induction l.
Qed.
End lines.

(** A check made after every step of a fold is a check of its end, when what
    passes it passed it all along. *)
Lemma foldl_check {A B} (f : B → A → option A) (v : A → bool) l a :
  (∀ x a a', f x a = Some a' → v a' = true → v a = true) →
  v a = true →
  foldl (λ o x, o ≫= λ a, a' ← f x a; if v a' then Some a' else None) (Some a) l =
  (foldl (λ o x, o ≫= f x) (Some a) l ≫= λ a', if v a' then Some a' else None).
Proof.
  intros Hmono. revert a.
  assert (∀ g : B → A → option A, foldl (λ o x, o ≫= g x) None l = None) as Hnone.
  { intros g. by induction l. }
  induction l as [|x l IH]; intros a Ha; simpl; [by rewrite Ha|].
  destruct (f x a) as [a'|] eqn:Hf; simpl.
  - destruct (v a') eqn:Hv; [by apply IH; [intros g; clear; induction l|]|].
    transitivity (@None A); [clear; by induction l|]. symmetry.
    assert (∀ b, v b = false → (foldl (λ o x, o ≫= f x) (Some b) l ≫= λ a', if v a' then Some a' else None) = None)
      as Hbad; [|by apply Hbad].
    clear IH Hnone Hf. clear a' Hv. induction l as [|y l IHl]; intros b Hb; simpl; [by rewrite Hb|].
    destruct (f y b) as [b'|] eqn:Hfb; simpl.
    + apply IHl. destruct (v b') eqn:Hv; [|done]. by rewrite (Hmono _ _ _ Hfb Hv) in Hb.
    + transitivity (@None A ≫= λ a', if v a' then Some a' else None); [|done].
      f_equal. clear. by induction l.
  - transitivity (@None A); [clear; by induction l|].
    transitivity (@None A ≫= λ a', if v a' then Some a' else None); [done|].
    f_equal. symmetry. clear. by induction l.
Qed.

(** ** Stanzas: runs of lines between empty lines

    A loop that keeps an open stanza, updates it line by line and closes it at
    an empty line and at the end, reads every stanza by itself. *)
Section stanzas.
Context {Z V : Type} (field : string → Z → option Z) (close : Z → option V) (z0 : Z).

Fixpoint stanzas (l : list string) : list (list string) :=
  match l with
  | [] => [[]]
  | x :: l =>
      if (x =? "")%string then [] :: stanzas l
      else match stanzas l with s :: r => (x :: s) :: r | [] => [[x]] end
  end.

Definition fields_of (z : Z) (s : list string) : option Z := foldl (λ o x, o ≫= field x) (Some z) s.

Definition stanza_verdict (s : list string) : option V := fields_of z0 s ≫= close.

Definition stanza_step (x : string) (a : list V * Z) : option (list V * Z) :=
  if (x =? "")%string then v ← close a.2; Some (a.1 ++ [v], z0)
  else z ← field x a.2; Some (a.1, z).

Definition stanza_close (a : list V * Z) : option (list V) :=
  v ← close a.2; Some (a.1 ++ [v]).

Lemma foldl_option_none {A B} (f : B → A → option A) (l : list B) :
  foldl (λ o x, o ≫= f x) None l = None.
Proof. by induction l. Qed.

Lemma stanzas_nonempty l : stanzas l ≠ [].
Proof. destruct l as [|x l]; simpl; [done|]. destruct (x =? "")%string; [done|]. by destruct (stanzas l). Qed.

Lemma stanza_fold l vs z :
  foldl (λ o x, o ≫= stanza_step x) (Some (vs, z)) l ≫= stanza_close =
  match stanzas l with
  | s :: r => v ← fields_of z s ≫= close; ws ← mapM stanza_verdict r; Some (vs ++ v :: ws)
  | [] => None
  end.
Proof.
  revert vs z. induction l as [|x l IH]; intros vs z.
  { cbn [stanzas foldl fields_of mapM mbind option_bind]. unfold stanza_close. cbn [fst snd].
    by destruct (close z). }
  cbn [foldl stanzas mbind option_bind]. unfold stanza_step at 2. cbn [fst snd].
  pose proof (stanzas_nonempty l) as Hne.
  destruct (x =? "")%string.
  - unfold fields_of at 1. cbn [foldl mbind option_bind].
    destruct (close z) as [v|]; cbn [mbind option_bind]; [|by rewrite foldl_option_none].
    rewrite IH. destruct (stanzas l) as [|s r]; [done|]. cbn [mapM].
    change (stanza_verdict s) with (fields_of z0 s ≫= close).
    destruct (fields_of z0 s ≫= close) as [w|]; cbn [mbind option_bind]; [|done].
    destruct (mapM stanza_verdict r); cbn [mbind option_bind]; [|done].
    by rewrite <-app_assoc.
  - destruct (stanzas l) as [|s r] eqn:Hs; [done|].
    unfold fields_of at 1. cbn [foldl mbind option_bind].
    destruct (field x z) as [z'|]; cbn [mbind option_bind].
    + rewrite IH. done.
    + by rewrite !foldl_option_none.
Qed.

Lemma stanza_fold_init l :
  foldl (λ o x, o ≫= stanza_step x) (Some ([], z0)) l ≫= stanza_close = mapM stanza_verdict (stanzas l).
Proof.
  rewrite stanza_fold. pose proof (stanzas_nonempty l). destruct (stanzas l) as [|s r]; [done|].
  cbn [mapM]. change (stanza_verdict s) with (fields_of z0 s ≫= close).
  destruct (fields_of z0 s ≫= close); cbn [mbind option_bind]; [|done].
  by destruct (mapM stanza_verdict r).
Qed.
End stanzas.

(** Stanzas are read apart: a blank line between two texts separates them. *)
Lemma stanzas_app l k : stanzas (l ++ "" :: k) = stanzas l ++ stanzas k.
Proof.
  induction l as [|x l IH]; [done|]. cbn [stanzas app].
  destruct (x =? "")%string; rewrite IH; [done|].
  pose proof (stanzas_nonempty l). by destruct (stanzas l).
Qed.

(** ** [path.Clean], [path.Dir], [path.Base] *)

(** The elements of a cleaned path, the last one first. *)
Fixpoint clean_elements (rooted : bool) (acc l : list string) : list string :=
  match l with
  | [] => acc
  | s :: l =>
      if (s =? "")%string || (s =? ".")%string then clean_elements rooted acc l
      else if (s =? "..")%string then
        match acc with
        | t :: acc' => if (t =? "..")%string then clean_elements rooted (s :: acc) l
                       else clean_elements rooted acc' l
        | [] => clean_elements rooted (if rooted then [] else [s]) l
        end
      else clean_elements rooted (s :: acc) l
  end.

Definition PathClean (p : string) : string :=
  let rooted := has_prefix "/" p in
  let body := join "/" (rev (clean_elements rooted [] (split_byte slash p))) in
  if rooted then "/" +:+ body else if (body =? "")%string then "." else body.

(** [path.Dir]: the cleaned text up to and including the last slash. *)
Definition PathDir (p : string) : string :=
  PathClean match rcut_byte slash p with Some (d, _) => d +:+ "/" | None => "" end.

Definition PathBase (p : string) : string :=
  if (p =? "")%string then "."
  else let p := trim_right (Ascii.eqb slash) p in
       if (p =? "")%string then "/" else last_segment p.

(** A loop over a slice whose body can fail. *)
Section each.
Context {A S E : Type} (step : A → S → result E S).

Fixpoint each (l : list A) (s : S) : result E S :=
  match l with
  | [] => Ok s
  | x :: l => s' ← step x s; each l s'
  end.

Lemma each_app l k s : each (l ++ k) s = s' ← each l s; each k s'.
Proof.
  revert s. induction l as [|x l IH]; intros s; [done|]. cbn [each app].
  unfold mbind, result_bind in *. destruct (step x s); [apply IH|done].
Qed.

(** An invariant indexed by what the loop has been through. *)
Lemma each_inv (I : list A → S → Prop) l s s' :
  (∀ done x s s', I done s → step x s = Ok s' → I (done ++ [x]) s') →
  I [] s → each l s = Ok s' → I l s'.
Proof.
  intros Hstep H0. cut (∀ l2 l1 s, I l1 s → each l2 s = Ok s' → I (l1 ++ l2) s').
  { intros H. exact (H l [] s H0). }
  induction l2 as [|x l2 IH]; intros l1 s1 HI Hrun; cbn [each] in Hrun.
  { injection Hrun as <-. by rewrite app_nil_r. }
  unfold mbind, result_bind in Hrun. destruct (step x s1) as [s2|] eqn:Hs; [|done].
  replace (l1 ++ x :: l2) with ((l1 ++ [x]) ++ l2) by by rewrite <-app_assoc.
  eapply IH; [|exact Hrun]. by eapply Hstep.
Qed.
End each.

(** The same for a loop that cannot fail. *)
Lemma foldl_inv {A S} (step : S → A → S) (I : list A → S → Prop) l s :
  (∀ done x s, I done s → I (done ++ [x]) (step s x)) → I [] s → I l (foldl step s l).
Proof.
  intros Hstep H0. cut (∀ l2 l1 s, I l1 s → I (l1 ++ l2) (foldl step s l2)).
  { intros H. exact (H l [] s H0). }
  induction l2 as [|x l2 IH]; intros l1 s1 HI; cbn [foldl]; [by rewrite app_nil_r|].
  replace (l1 ++ x :: l2) with ((l1 ++ [x]) ++ l2) by by rewrite <-app_assoc.
  by apply IH, Hstep.
Qed.
