(* ===== verification/GoURLParse.v ===== *)
(** * Go's [url.Parse] (Go 1.26)

    The scheme, the authority, the path, the query and the fragment of a raw
    URL, with every error of the parser.  A host with a bracket (an IPv6
    literal) is left to the parameter [IP_literal], since [net/netip] decides
    it; the user information is kept only as the fact that there is one. *)
From S2P Require Import Prelude GoStrings GoURL GoText.
Local Open Scope Z_scope.

Record parsed_url := {
  pu_scheme : string;
  pu_user : bool;
  pu_host : string;
  pu_path : string;
  pu_query : string;
  pu_fragment : string;
}.

(** ASCII control bytes. *)
Definition is_ctl (c : ascii) : bool := (byte c <? 32) || (byte c =? 127).

Definition push_scheme (c : ascii) (r : option (option (string * string))) : option (option (string * string)) :=
  match r with Some (Some (s, rest)) => Some (Some (String c s, rest)) | _ => r end.

(** [getScheme]: [None] is its error, [Some None] a URL without a scheme. *)
Fixpoint getScheme (first : bool) (s : string) : option (option (string * string)) :=
  match s with
  | EmptyString => Some None
  | String c s =>
      if is_lower c || is_upper c then push_scheme c (getScheme false s)
      else if is_digit c || in_set "+-." c then
        if first then Some None else push_scheme c (getScheme false s)
      else if Ascii.eqb c ":" then if first then None else Some (Some ("", s))
      else Some None
  end.

(** [unescape] of a host: only bytes outside ASCII, and the percent sign, may
    be escaped, and no byte that needs it may stand for itself. *)
Fixpoint unescape_host (s : string) : option string :=
  match s with
  | EmptyString => Some ""
  | String c s =>
      if Ascii.eqb c "%" then
        match s with
        | String h (String l s) =>
            if is_hex h && is_hex l && ((8 <=? unhex h) || (Ascii.eqb h "2" && Ascii.eqb l "5")) then
              String (chr (Z.lor (Z.shiftl (unhex h) 4) (unhex l))) <$> unescape_host s
            else None
        | _ => None
        end
      else if (byte c <? 128) && shouldEscape c encodeHost then None
      else String c <$> unescape_host s
  end.

Definition validOptionalPort (port : string) : bool :=
  match port with
  | EmptyString => true
  | String c port => Ascii.eqb c ":" && string_forallb is_digit port
  end.

Definition validUserinfo (s : string) : bool :=
  string_forallb (λ c, is_alnum c || in_set "-._:~!$&'()*+,;=%@" c) s.

(** Up to the first [c], or the whole. *)
Definition before (c : ascii) (s : string) : string := match cut_byte c s with Some (a, _) => a | None => s end.
Definition after (c : ascii) (s : string) : string := match cut_byte c s with Some (_, b) => b | None => "" end.

Section parse.
Context (IP_literal : string → option string).

(** The only colon of a host without a bracket starts its port. *)
Definition parseHost (host : string) : option string :=
  if contains_byte "[" host then IP_literal host
  else match cut_byte ":" host with
  | Some (_, port) => if validOptionalPort (String ":" port) then unescape_host host else None
  | None => unescape_host host
  end.

Definition user_ok (userinfo : string) : bool :=
  validUserinfo userinfo
  && match cut_byte ":" userinfo with
     | Some (u, p) => bool_decide (is_Some (unescape u)) && bool_decide (is_Some (unescape p))
     | None => bool_decide (is_Some (unescape userinfo))
     end.

Definition parseAuthority (authority : string) : option (bool * string) :=
  match rcut_byte "@" authority with
  | None => pair false <$> parseHost authority
  | Some (userinfo, host) => host ← parseHost host; if user_ok userinfo then Some (true, host) else None
  end.

(** A URL without its fragment. *)
Definition parse_url (raw : string) : option parsed_url :=
  if string_existsb is_ctl raw then None
  else if (raw =? "*")%string then
    Some {| pu_scheme := ""; pu_user := false; pu_host := ""; pu_path := "*"; pu_query := ""; pu_fragment := "" |}
  else
    s ← getScheme true raw;
    let '(scheme, rest) := match s with Some (sc, rest) => (ToLower sc, rest) | None => ("", raw) end in
    let query := after "?" rest in
    let rest := before "?" rest in
    if negb (has_prefix "/" rest) && negb (scheme =? "")%string then
      Some {| pu_scheme := scheme; pu_user := false; pu_host := ""; pu_path := ""; pu_query := query; pu_fragment := "" |}
    else if negb (has_prefix "/" rest) && contains_byte ":" (before slash rest) then None
    else
      '(user, host, rest) ←
        (if (negb (scheme =? "")%string || negb (has_prefix "///" rest)) && has_prefix "//" rest then
           let authority := drop_bytes 2 rest in
           '(user, host) ← parseAuthority (before slash authority);
           Some (user, host, match cut_byte slash authority with Some (_, p) => String slash p | None => "" end)
         else Some (false, "", rest));
      path ← unescape rest;
      Some {| pu_scheme := scheme; pu_user := user; pu_host := host; pu_path := path; pu_query := query; pu_fragment := "" |}.

(** [url.Parse] *)
Definition url_Parse (raw : string) : option parsed_url :=
  u ← parse_url (before "#" raw);
  frag ← unescape (after "#" raw);
  Some {| pu_scheme := pu_scheme u; pu_user := pu_user u; pu_host := pu_host u; pu_path := pu_path u;
          pu_query := pu_query u; pu_fragment := frag |}.

(** ** Laws *)

(** The bytes of a host name, and of a name with a port. *)
Definition host_byte (c : ascii) : bool := is_alnum c || in_set "-." c.

Definition plain_name (name : string) : bool := negb (name =? "")%string && string_forallb host_byte name.

Definition authority (name port : string) : string := if (port =? "")%string then name else name +:+ ":" +:+ port.

Definition plain_authority (name port : string) : bool := plain_name name && string_forallb is_digit port.

Lemma contains_false c (f : ascii → bool) s :
  string_forallb f s = true → f c = false → contains_byte c s = false.
Proof.
  unfold contains_byte. induction s as [|d s IH]; simpl; [done|]. rewrite andb_true_iff. intros [Hd Hs] Hc.
  rewrite (IH Hs Hc), orb_false_r. destruct (Ascii.eqb_spec c d) as [->|]; congruence.
Qed.

Lemma before_none c s : contains_byte c s = false → before c s = s ∧ after c s = "".
Proof. intros Hc%cut_byte_none. unfold before, after. by rewrite Hc. Qed.

Definition authority_byte (c : ascii) : bool := host_byte c || Ascii.eqb c ":".

Lemma authority_bytes name port : plain_authority name port = true → string_forallb authority_byte (authority name port) = true.
Proof.
  unfold plain_authority, plain_name, authority. rewrite !andb_true_iff. intros [[_ Hn] Hp].
  assert (∀ (f g : ascii → bool) s, (∀ c, f c = true → g c = true) → string_forallb f s = true → string_forallb g s = true) as Himp.
  { intros f g s Hfg. induction s; simpl; [done|]. rewrite !andb_true_iff. intros [? ?]. auto. }
  destruct (port =? "")%string.
  - apply (Himp host_byte); [|done]. intros c Hc. unfold authority_byte. by rewrite Hc.
  - rewrite string_forallb_append, (Himp host_byte authority_byte) by (done || (intros c Hc; unfold authority_byte; by rewrite Hc)).
    simpl. apply (Himp is_digit); [|done]. intros c Hc. unfold authority_byte, host_byte, is_alnum. rewrite Hc. by rewrite !orb_true_r.
Qed.

Lemma unescape_host_plain s : string_forallb authority_byte s = true → unescape_host s = Some s.
Proof.
  assert (∀ c, negb (authority_byte c) || (negb (Ascii.eqb c "%") && negb ((byte c <? 128) && shouldEscape c encodeHost)) = true)
    as Hb by by_all_bytes.
  induction s as [|c s IH]; [done|]. cbn [string_forallb unescape_host]. rewrite andb_true_iff. intros [Hc Hs].
  specialize (Hb c). rewrite Hc in Hb. simpl in Hb. apply andb_true_iff in Hb as [->%negb_true_iff ->%negb_true_iff].
  by rewrite IH.
Qed.

Lemma authority_free c name port :
  plain_authority name port = true → authority_byte c = false → contains_byte c (authority name port) = false.
Proof. intros ?%authority_bytes ?. by eapply contains_false. Qed.

Lemma parseHost_plain name port : plain_authority name port = true → parseHost (authority name port) = Some (authority name port).
Proof.
  intros Hp. unfold parseHost. rewrite (authority_free "[" name port Hp) by done.
  rewrite (unescape_host_plain _ (authority_bytes _ _ Hp)).
  unfold plain_authority, plain_name in Hp. rewrite !andb_true_iff in Hp. destruct Hp as [[_ Hn] Hp].
  assert (contains_byte ":" name = false) as Hc by by apply (contains_false ":" host_byte).
  unfold authority. destruct (port =? "")%string; [by apply cut_byte_none in Hc as ->|].
  rewrite append_cons, append_empty, (cut_byte_app _ _ _ Hc). simpl. by rewrite Hp.
Qed.

(** A path as [URL.String] writes it. *)
Lemma valid_path_free c e :
  validEncoded e encodePath = true → valid_byte c encodePath = false → contains_byte c e = false.
Proof. intros. by apply (contains_false c (λ c, valid_byte c encodePath)). Qed.

Lemma valid_path_no_ctl e : validEncoded e encodePath = true → string_existsb is_ctl e = false.
Proof.
  assert (∀ c, negb (valid_byte c encodePath) || negb (is_ctl c) = true) as Hb by by_all_bytes.
  unfold validEncoded. induction e as [|c e IH]; [done|]. cbn [string_forallb string_existsb]. rewrite andb_true_iff.
  intros [Hc He]. specialize (Hb c). rewrite Hc in Hb. simpl in Hb. apply negb_true_iff in Hb as ->. by apply IH.
Qed.

Lemma authority_no_ctl name port : plain_authority name port = true → string_existsb is_ctl (authority name port) = false.
Proof.
  assert (∀ c, negb (authority_byte c) || negb (is_ctl c) = true) as Hb by by_all_bytes.
  intros Ha%authority_bytes. revert Ha. generalize (authority name port).
  induction s as [|c s IH]; [done|]. cbn [string_forallb string_existsb]. rewrite andb_true_iff.
  intros [Hc He]. specialize (Hb c). rewrite Hc in Hb. simpl in Hb. apply negb_true_iff in Hb as ->. by apply IH.
Qed.

(** An absolute URL of a plain authority and an encoded path. *)
Lemma url_Parse_absolute scheme name port e p :
  scheme = "http" ∨ scheme = "https" → plain_authority name port = true →
  has_prefix "/" e = true → validEncoded e encodePath = true → unescape e = Some p →
  url_Parse (scheme +:+ "://" +:+ authority name port +:+ e)
  = Some {| pu_scheme := scheme; pu_user := false; pu_host := authority name port; pu_path := p;
            pu_query := ""; pu_fragment := "" |}.
Proof.
  intros Hs Ha Hslash He Hp. set (a := authority name port).
  assert (∀ c, authority_byte c = false → valid_byte c encodePath = false → contains_byte c (a +:+ e) = false) as Hfree.
  { intros c Hc1 Hc2. unfold a. rewrite contains_byte_append, (authority_free c), (valid_path_free c) by done. done. }
  assert (∀ c, contains_byte c (a +:+ e) = false → contains_byte c (scheme +:+ "://") = false →
            contains_byte c (scheme +:+ "://" +:+ a +:+ e) = false) as Hraw.
  { intros c Hc1 Hc2. rewrite <-(append_assoc scheme), contains_byte_append, Hc2. done. }
  assert (string_existsb is_ctl (scheme +:+ "://" +:+ a +:+ e) = false) as Hctl.
  { rewrite !string_existsb_append. unfold a. rewrite (authority_no_ctl _ _ Ha), (valid_path_no_ctl _ He).
    by destruct Hs as [-> | ->]. }
  unfold url_Parse. destruct (before_none "#" (scheme +:+ "://" +:+ a +:+ e)) as [-> ->].
  { apply Hraw; [by apply Hfree|]. by destruct Hs as [-> | ->]. }
  assert (parse_url (scheme +:+ "://" +:+ a +:+ e) = Some {| pu_scheme := scheme; pu_user := false; pu_host := a; pu_path := p;
    pu_query := ""; pu_fragment := "" |}) as ->; [|done].
  unfold parse_url. rewrite Hctl.
  assert ((scheme +:+ "://" +:+ a +:+ e =? "*")%string = false) as -> by by destruct Hs as [-> | ->].
  assert (getScheme true (scheme +:+ "://" +:+ a +:+ e) = Some (Some (scheme, "//" +:+ a +:+ e))) as -> by by destruct Hs as [-> | ->].
  cbn [mbind option_bind]. assert (ToLower scheme = scheme) as -> by by destruct Hs as [-> | ->].
  assert ((scheme =? "")%string = false) as -> by by destruct Hs as [-> | ->].
  destruct (before_none "?" ("//" +:+ a +:+ e)) as [-> ->].
  { rewrite contains_byte_append, (Hfree "?"%char) by done. done. }
  change (has_prefix "/" ("//" +:+ a +:+ e)) with true. change (has_prefix "//" ("//" +:+ a +:+ e)) with (String.prefix "" (a +:+ e)).
  assert (String.prefix "" (a +:+ e) = true) as -> by by destruct (a +:+ e). cbn [negb andb orb].
  change (drop_bytes 2 ("//" +:+ a +:+ e)) with (a +:+ e).
  apply has_prefix_spec in Hslash as [e' ->]. change ("/" +:+ e') with (String slash e') in *.
  unfold before. rewrite (cut_byte_app slash a e') by by apply authority_free.
  unfold parseAuthority. rewrite rcut_byte_none by by apply authority_free.
  unfold a. rewrite parseHost_plain by done. cbn [fmap option_fmap option_map mbind option_bind]. by rewrite Hp.
Qed.

(** A path alone. *)
Lemma url_Parse_rooted e p :
  has_prefix "/" e = true → has_prefix "//" e = false → validEncoded e encodePath = true → unescape e = Some p →
  url_Parse e = Some {| pu_scheme := ""; pu_user := false; pu_host := ""; pu_path := p; pu_query := ""; pu_fragment := "" |}.
Proof.
  intros Hslash Hno He Hp. unfold url_Parse. destruct (before_none "#" e) as [-> ->]; [by apply valid_path_free|].
  unfold parse_url. rewrite valid_path_no_ctl by done.
  assert ((e =? "*")%string = false) as ->.
  { destruct (String.eqb_spec e "*") as [->|]; [done|done]. }
  assert (getScheme true e = Some None) as ->.
  { apply has_prefix_spec in Hslash as [e' ->]. done. }
  cbn [mbind option_bind]. destruct (before_none "?" e) as [-> ->]; [by apply valid_path_free|].
  rewrite Hslash, Hno, andb_false_r. cbn. rewrite andb_false_r. cbn. by rewrite Hp.
Qed.
End parse.
