(* ===== verification/Proxy.v ===== *)
(** * Request parsing (internal/proxy: proxy.go, remap.go, url.go, classify.go)

    A client's request line becomes a scheme, a canonical host, a path and the
    upstream URL to ask: an absolute URL as a proxy's client sends it, with
    the HTTPS/// convention of apt-cacher-ng, or a path of a configured
    mirror.  The operator's regular expressions are the parameter [compile];
    the built-in ones are predicates here. *)
From S2P Require Import Prelude GoStrings GoURL GoText GoURLParse AptPath.
Local Open Scope Z_scope.

Inductive Mode := ModeProxy | ModeMirror.

Record Request := {
  rq_mode : Mode;
  rq_scheme : string;
  rq_host : string;
  rq_path : string;
  rq_upstream : string;
  rq_metadata : bool;
  rq_suite : string;
}.

Inductive proxy_error :=
| ErrEmptyURI | ErrInvalidURI | ErrUnsupportedScheme | ErrEmptyHost | ErrInvalidPath
| ErrNoMirrorMatch | ErrInvalidMirror (i : nat) | ErrInvalidHTTPSMagic
| RemapEmptyRegex (i : nat) | RemapEmptyHost (i : nat) | RemapBadRegex (i : nat)
| MirrorPrefix (i : nat) | MirrorEmpty (i : nat).

(** ** classify.go *)

Fixpoint contains_sub (sub s : string) : bool :=
  has_prefix sub s || match s with String _ s => contains_sub sub s | EmptyString => false end.

Definition metadataPrefixes : list string :=
  ["Packages"; "Sources"; "Contents-"; "Translation-"; "Components-"; "icons-"].

Definition poolArtifactSuffixes : list string :=
  [".deb"; ".udeb"; ".ddeb"; ".dsc"; ".buildinfo"; ".changes"; ".diff.gz"].

Definition isPoolArtifact (base : string) : bool :=
  existsb (λ s, has_suffix s base) poolArtifactSuffixes || (contains_sub "_" base && contains_sub ".tar." base).

Definition metadataExact : list string := ["InRelease"; "Release"; "Release.gpg"].

Definition IsMetadata (p : string) : bool :=
  if (p =? "")%string then false
  else if contains_sub "/by-hash/" p then true
  else
    let base := PathBase p in
    if existsb (String.eqb base) metadataExact then true
    else if (base =? "Index")%string && has_suffix ".diff" (PathBase (PathDir p)) then true
    else if isPoolArtifact base then false
    else existsb (λ q, has_prefix q base) metadataPrefixes.

(** ** url.go *)

Record parsedURI := { ur_absolute : bool; ur_scheme : string; ur_host : string; ur_path : string }.

Definition is_http (scheme : string) : bool := (scheme =? "http")%string || (scheme =? "https")%string.

Section urls.
Context (IP_literal : string → option string).

Definition parseRequestURI (raw : string) : result proxy_error parsedURI :=
  match url_Parse IP_literal raw with
  | None => Err ErrInvalidURI
  | Some u =>
      if has_prefix "/" raw then
        if negb (pu_scheme u =? "")%string || negb (pu_host u =? "")%string then Err ErrInvalidURI
        else if negb (pu_query u =? "")%string then Err ErrInvalidURI
        else if negb (pu_fragment u =? "")%string then Err ErrInvalidURI
        else Ok {| ur_absolute := false; ur_scheme := ""; ur_host := ""; ur_path := pu_path u |}
      else if (pu_scheme u =? "")%string then Err ErrInvalidURI
      else if negb (is_http (ToLower (pu_scheme u))) then Err ErrUnsupportedScheme
      else if pu_user u then Err ErrInvalidURI
      else if negb (pu_query u =? "")%string then Err ErrInvalidURI
      else if negb (pu_fragment u =? "")%string then Err ErrInvalidURI
      else Ok {| ur_absolute := true; ur_scheme := ToLower (pu_scheme u); ur_host := pu_host u;
                 ur_path := if (pu_path u =? "")%string then "/" else pu_path u |}
  end.

Definition isHTTPSMagic (host path : string) : bool := EqualFold host "HTTPS" && has_prefix "///" path.

Definition splitHTTPSMagic (path : string) : result proxy_error (string * string) :=
  let rest := default path (cut_prefix path "///") in
  if (rest =? "")%string then Err ErrInvalidHTTPSMagic
  else match cut_byte slash rest with
  | None => Ok (rest, "/")
  | Some (host, p) => if (host =? "")%string then Err ErrInvalidHTTPSMagic else Ok (host, String slash p)
  end.

Definition splitHostPort (host : string) : string * string :=
  match host with
  | EmptyString => ("", "")
  | String c _ =>
      if Ascii.eqb c "[" then
        match cut_byte "]" host with
        | None => (host, "")
        | Some (a, b) => (a +:+ "]", match b with String d port => if Ascii.eqb d ":" then port else "" | _ => "" end)
        end
      else default (host, "") (rcut_byte ":" host)
  end.

Definition stripPort (host : string) : string := (splitHostPort host).1.

(** ** remap.go *)

Record remapRule := { rr_matches : string → bool; rr_canonical : string; rr_source : string }.

(** [^([a-z]{2}\.)?suffix$] *)
Definition country (suffix host : string) : bool :=
  (host =? suffix)%string
  || match host with
     | String a (String b (String c rest)) => is_lower a && is_lower b && Ascii.eqb c "." && (rest =? suffix)%string
     | _ => false
     end.

(** [^[a-z]{2}\.debian\.org$] *)
Definition country_debian (host : string) : bool :=
  match host with
  | String a (String b rest) => is_lower a && is_lower b && (rest =? ".debian.org")%string
  | _ => false
  end.

Definition builtin (matches : string → bool) (canonical : string) : remapRule :=
  {| rr_matches := matches; rr_canonical := canonical; rr_source := "builtin" |}.

Definition builtinRemapRules : list remapRule :=
  [ builtin (country "archive.ubuntu.com") "archive.ubuntu.com";
    builtin (country "security.ubuntu.com") "security.ubuntu.com";
    builtin (country "ports.ubuntu.com") "ports.ubuntu.com";
    builtin (λ h, country_debian (default h (cut_prefix h "ftp.")) || country_debian h) "deb.debian.org";
    builtin (String.eqb "deb.debian.org") "deb.debian.org";
    builtin (String.eqb "security.debian.org") "security.debian.org" ].

Record RemapRule := { MatchHostRegex : string; CanonicalHost_ : string }.
Record MirrorRule := { Prefix : string; Upstream : string }.

Context (compile : string → option (string → bool)).

Fixpoint compileRemapRules (i : nat) (rules : list RemapRule) : result proxy_error (list remapRule) :=
  match rules with
  | [] => Ok []
  | r :: rules =>
      if (MatchHostRegex r =? "")%string then Err (RemapEmptyRegex i)
      else if (CanonicalHost_ r =? "")%string then Err (RemapEmptyHost i)
      else match compile (MatchHostRegex r) with
      | None => Err (RemapBadRegex i)
      | Some re =>
          out ← compileRemapRules (S i) rules;
          Ok ({| rr_matches := re; rr_canonical := CanonicalHost_ r; rr_source := "user" |} :: out)
      end
  end.

Record mirrorRoute := { mr_prefix : string; mr_scheme : string; mr_host : string; mr_basePath : string }.

Definition compileMirrorRoute (i : nat) (r : MirrorRule) : result proxy_error mirrorRoute :=
  if negb (has_prefix "/" (Prefix r)) then Err (MirrorPrefix i)
  else if (Upstream r =? "")%string then Err (MirrorEmpty i)
  else match url_Parse IP_literal (Upstream r) with
  | None => Err (ErrInvalidMirror i)
  | Some u =>
      let scheme := ToLower (pu_scheme u) in
      if negb (is_http scheme) || (pu_host u =? "")%string || pu_user u || negb (pu_query u =? "")%string
         || negb (pu_fragment u =? "")%string then Err (ErrInvalidMirror i)
      else
        let prefix := trim_right (Ascii.eqb slash) (Prefix r) in
        Ok {| mr_prefix := if (prefix =? "")%string then "/" else prefix; mr_scheme := scheme;
              mr_host := ToLower (pu_host u); mr_basePath := if (pu_path u =? "")%string then "/" else pu_path u |}
  end.

Fixpoint compileMirrorRoutes (i : nat) (rules : list MirrorRule) : result proxy_error (list mirrorRoute) :=
  match rules with
  | [] => Ok []
  | r :: rules => m ← compileMirrorRoute i r; out ← compileMirrorRoutes (S i) rules; Ok (m :: out)
  end.

(** ** proxy.go *)

Record Parser := { ps_remap : list remapRule; ps_mirrors : list mirrorRoute }.

Definition New (remap : list RemapRule) (mirror : list MirrorRule) : result proxy_error Parser :=
  rules ← compileRemapRules 0 remap;
  routes ← compileMirrorRoutes 0 mirror;
  Ok {| ps_remap := rules ++ builtinRemapRules; ps_mirrors := routes |}.

(** What is left of the path below a route's prefix. *)
Definition route_rest (r : mirrorRoute) (path : string) : option string :=
  if (mr_prefix r =? "/")%string then Some path
  else if (path =? mr_prefix r)%string then Some ""
  else match cut_prefix path (mr_prefix r) with
  | Some rest => if has_prefix "/" rest then Some rest else None
  | None => None
  end.

Fixpoint matchMirror (mirrors : list mirrorRoute) (path : string) : option (mirrorRoute * string) :=
  match mirrors with
  | [] => None
  | r :: mirrors => match route_rest r path with Some rest => Some (r, rest) | None => matchMirror mirrors path end
  end.

Definition joinMirrorPath (basePath rest : string) : string :=
  if (basePath =? "")%string || (basePath =? "/")%string then if (rest =? "")%string then "/" else rest
  else trim_right (Ascii.eqb slash) basePath +:+ rest.

(** The canonical host and the authority to ask. *)
Definition canonicalize (p : Parser) (host : string) : string * string :=
  let '(bare, port) := splitHostPort (ToLower host) in
  let bare := trim_suffix bare "." in
  match find (λ r, rr_matches r bare) (ps_remap p) with
  | Some r => (rr_canonical r, rr_canonical r)
  | None => if (port =? "")%string then (bare, bare) else (bare, bare +:+ ":" +:+ port)
  end.

Definition CanonicalHost (p : Parser) (host : string) : string := (canonicalize p host).1.

Definition CanonicalHosts (p : Parser) : list string :=
  sort_by String.leb
    (elements (list_to_set (List.filter (λ h, negb (h =? "")%string) (map rr_canonical (ps_remap p))) : gset string)).

(** The mode, scheme, host and path a request line names. *)
Definition target (p : Parser) (u : parsedURI) : result proxy_error (Mode * string * string * string) :=
  if ur_absolute u then
    if isHTTPSMagic (ur_host u) (ur_path u) then
      '(host, path) ← splitHTTPSMagic (ur_path u); Ok (ModeProxy, "https", host, path)
    else Ok (ModeProxy, ur_scheme u, ur_host u, ur_path u)
  else match matchMirror (ps_mirrors p) (ur_path u) with
  | None => Err ErrNoMirrorMatch
  | Some (r, rest) => Ok (ModeMirror, mr_scheme r, mr_host r, joinMirrorPath (mr_basePath r) rest)
  end.

Definition Parse (p : Parser) (requestURI : string) : result proxy_error Request :=
  if (requestURI =? "")%string then Err ErrEmptyURI
  else
    u ← parseRequestURI requestURI;
    '(mode, scheme, host, path) ← target p u;
    if (host =? "")%string then Err ErrEmptyHost
    else if negb (is_http scheme) then Err ErrUnsupportedScheme
    else if negb (has_prefix "/" path) then Err ErrInvalidPath
    else if string_existsb is_ctl path then Err ErrInvalidPath
    else
      let '(canonHost, upstreamAuthority) := canonicalize p host in
      Ok {| rq_mode := mode; rq_scheme := scheme; rq_host := canonHost; rq_path := path;
            rq_upstream := BuildUpstreamURL scheme upstreamAuthority path; rq_metadata := IsMetadata path;
            rq_suite := SuitePath path |}.
End urls.

(** ** Laws *)

Section laws.
Context (IP_literal : string → option string).
Implicit Types p : Parser.

(** On host bytes, lower case is byte by byte. *)
Lemma ToLower_bytes s : string_forallb authority_byte s = true → ToLower s = lower_runes [] 0 s.
Proof.
  assert (∀ c, negb (authority_byte c) || (negb (Ascii.eqb c (chr 226)) && negb (Ascii.eqb c (chr 196))) = true) as Hb
    by by_all_bytes.
  unfold ToLower. induction s as [|c s IH]; [done|]. cbn [string_forallb]. rewrite andb_true_iff. intros [Hc Hs].
  specialize (Hb c). rewrite Hc in Hb. simpl in Hb. rewrite !andb_true_iff, !negb_true_iff in Hb.
  destruct Hb as [H1%Ascii.eqb_neq H2%Ascii.eqb_neq]. cbn [lower_runes find fst].
  assert (has_prefix kelvin (String c s) = false) as ->.
  { destruct (has_prefix kelvin (String c s)) eqn:E; [|done]. apply has_prefix_spec in E as [r Hr]. by injection Hr as -> _. }
  assert (has_prefix dotted_I (String c s) = false) as ->.
  { destruct (has_prefix dotted_I (String c s)) eqn:E; [|done]. apply has_prefix_spec in E as [r Hr]. by injection Hr as -> _. }
  by rewrite IH.
Qed.

Lemma lower_append a b : lower_runes [] 0 (a +:+ b) = lower_runes [] 0 a +:+ lower_runes [] 0 b.
Proof. induction a as [|c a IH]; [done|]. rewrite append_cons. cbn. by rewrite IH. Qed.

Lemma lower_forallb (f : ascii → bool) s :
  (∀ c, f c = true → f (lower_byte c) = true) → string_forallb f s = true → string_forallb f (lower_runes [] 0 s) = true.
Proof.
  intros Hf. induction s as [|c s IH]; [done|]. cbn. rewrite !andb_true_iff. intros [Hc Hs]. auto.
Qed.

Lemma host_byte_lower c : host_byte c = true → host_byte (lower_byte c) = true.
Proof.
  assert (∀ c, negb (host_byte c) || host_byte (lower_byte c) = true) as Hb by by_all_bytes.
  intros Hc. specialize (Hb c). by rewrite Hc in Hb.
Qed.

Lemma digits_lower port : string_forallb is_digit port = true → lower_runes [] 0 port = port.
Proof.
  assert (∀ c, negb (is_digit c) || Ascii.eqb (lower_byte c) c = true) as Hb by by_all_bytes.
  induction port as [|c s IH]; [done|]. cbn. rewrite andb_true_iff. intros [Hc Hs].
  specialize (Hb c). rewrite Hc in Hb. apply Ascii.eqb_eq in Hb as ->. by rewrite IH.
Qed.

Lemma ToLower_authority name port :
  plain_authority name port = true →
  ToLower (authority name port) = authority (ToLower name) port ∧ plain_authority (ToLower name) port = true.
Proof.
  intros Ha. rewrite (ToLower_bytes (authority _ _)) by by apply authority_bytes.
  pose proof Ha as [[Hne Hn]%andb_true_iff Hp]%andb_true_iff.
  assert (ToLower name = lower_runes [] 0 name) as ->.
  { apply ToLower_bytes. assert (plain_authority name "" = true) as H0 by (unfold plain_authority, plain_name; by rewrite Hne, Hn).
    apply (authority_bytes _ _ H0). }
  split.
  - unfold authority. destruct (port =? "")%string; [done|]. by rewrite !lower_append, (digits_lower port).
  - unfold plain_authority, plain_name. rewrite Hp, (lower_forallb host_byte) by (done || apply host_byte_lower).
    destruct name; [done|]. done.
Qed.

Lemma splitHostPort_plain name port :
  plain_authority name port = true → splitHostPort (authority name port) = (name, port).
Proof.
  intros Ha. pose proof Ha as [[Hne Hn]%andb_true_iff Hp]%andb_true_iff.
  assert (contains_byte ":" name = false) as Hc by by apply (contains_false ":" host_byte).
  assert (splitHostPort (authority name port) = default (authority name port, "") (rcut_byte ":" (authority name port))) as ->.
  { unfold authority. destruct name as [|c name]; [done|]. simpl in Hn. apply andb_true_iff in Hn as [Hc0 _].
    destruct (port =? "")%string; simpl; destruct (Ascii.eqb_spec c "[") as [->|]; done. }
  unfold authority. destruct (String.eqb_spec port "") as [->|Hport]; [by rewrite rcut_byte_none|].
  change (name +:+ ":" +:+ port) with (name +:+ String ":" port). rewrite rcut_byte_app; [done|].
  by apply (contains_false ":" is_digit).
Qed.

Lemma escape_authority name port :
  plain_authority name port = true → escape (authority name port) encodeHost = authority name port.
Proof.
  assert (∀ c, negb (authority_byte c) || negb (shouldEscape c encodeHost) = true) as Hb by by_all_bytes.
  intros Ha%authority_bytes. revert Ha. generalize (authority name port).
  induction s as [|c s IH]; [done|]. cbn [string_forallb escape]. rewrite andb_true_iff. intros [Hc Hs].
  specialize (Hb c). rewrite Hc in Hb. simpl in Hb. apply negb_true_iff in Hb as ->. by rewrite IH.
Qed.

(** A host that no rule renames. *)
Definition unmapped p (name : string) : Prop :=
  has_suffix "." name = false ∧ Forall (λ r, rr_matches r name = false) (ps_remap p).

Lemma canonicalize_unmapped p name port :
  plain_authority name port = true → unmapped p (ToLower name) →
  canonicalize p (authority name port) = (ToLower name, authority (ToLower name) port).
Proof.
  intros Ha [Hdot Hrules]. destruct (ToLower_authority name port Ha) as [Hl Ha'].
  unfold canonicalize. rewrite Hl, splitHostPort_plain by done. rewrite trim_suffix_none by done.
  assert (find (λ r, rr_matches r (ToLower name)) (ps_remap p) = None) as ->.
  { induction Hrules as [|r l Hr Hl' IH]; [done|]. simpl. by rewrite Hr. }
  unfold authority. by destruct (port =? "")%string.
Qed.

Lemma authority_nonempty name port : plain_authority name port = true → (authority name port =? "")%string = false.
Proof.
  intros [[Hne Hn]%andb_true_iff Hp]%andb_true_iff. unfold authority.
  destruct (port =? "")%string; [by apply negb_true_iff in Hne|]. by destruct name.
Qed.

Lemma authority_valid name port : plain_authority name port = true → validEncoded (authority name port) encodePath = true.
Proof.
  assert (∀ c, negb (authority_byte c) || valid_byte c encodePath = true) as Hb by by_all_bytes.
  intros Ha%authority_bytes. revert Ha. unfold validEncoded. generalize (authority name port).
  induction s as [|c s IH]; [done|]. cbn [string_forallb]. rewrite !andb_true_iff. intros [Hc Hs].
  specialize (Hb c). rewrite Hc in Hb. auto.
Qed.

Lemma unescape_append a b : contains_byte "%" a = false → unescape (a +:+ b) = (λ r, a +:+ r) <$> unescape b.
Proof.
  unfold contains_byte. induction a as [|c a IH]; cbn [string_existsb].
  - intros _. rewrite append_empty. by destruct (unescape b).
  - intros [Hc Ha]%orb_false_iff. rewrite append_cons. cbn [unescape]. rewrite Ascii.eqb_sym, Hc, IH by done.
    by destruct (unescape b).
Qed.

Definition apt_request (scheme name path uri : string) : Request :=
  {| rq_mode := ModeProxy; rq_scheme := scheme; rq_host := name; rq_path := path; rq_upstream := uri;
     rq_metadata := IsMetadata path; rq_suite := SuitePath path |}.

(** The second half of [Parse]. *)
Lemma Parse_target p uri u scheme name port q :
  (uri =? "")%string = false → parseRequestURI IP_literal uri = Ok u →
  target p u = Ok (ModeProxy, scheme, authority name port, q) →
  is_http scheme = true → plain_authority name port = true → unmapped p (ToLower name) →
  has_prefix "/" q = true → string_existsb is_ctl q = false →
  Parse IP_literal p uri
  = Ok (apt_request scheme (ToLower name) q (scheme +:+ "://" +:+ authority (ToLower name) port +:+ AptEncodePath q)).
Proof.
  intros Huri Hu Ht Hs Ha Hun Hq Hctl. unfold Parse. rewrite Huri, Hu. cbn [mbind result_bind]. rewrite Ht. cbn [mbind result_bind].
  rewrite authority_nonempty, Hs, Hq, Hctl by done. cbn [negb]. rewrite canonicalize_unmapped by done.
  destruct (ToLower_authority name port Ha) as [_ Ha'].
  rewrite BuildUpstreamURL_absolute, escape_authority; [done|done| | |done].
  - intros ->. done.
  - apply String.eqb_neq. by apply authority_nonempty.
Qed.

(** C40. What apt asks of a proxy is what the proxy asks of the archive: the
    absolute URL of a path in apt's encoding, for a host that no rule renames,
    is a request for exactly that path, whose upstream URL is the same text
    with the host in lower case; and the HTTPS/// form of apt-cacher-ng is the
    same request over https. *)
Theorem Parse_apt p scheme name port q :
  scheme = "http" ∨ scheme = "https" → plain_authority name port = true → unmapped p (ToLower name) →
  has_prefix "/" q = true → string_existsb is_ctl q = false →
  (isHTTPSMagic (authority name port) q = false →
   Parse IP_literal p (scheme +:+ "://" +:+ authority name port +:+ AptEncodePath q)
   = Ok (apt_request scheme (ToLower name) q (scheme +:+ "://" +:+ authority (ToLower name) port +:+ AptEncodePath q))) ∧
  Parse IP_literal p ("http://HTTPS///" +:+ authority name port +:+ AptEncodePath q)
  = Ok (apt_request "https" (ToLower name) q ("https://" +:+ authority (ToLower name) port +:+ AptEncodePath q)).
Proof.
  intros Hs Ha Hun Hq Hctl. split.
  - intros Hm. assert (is_http scheme = true) as Hh by by destruct Hs as [-> | ->].
    eapply (Parse_target p _ {| ur_absolute := true; ur_scheme := scheme; ur_host := authority name port; ur_path := q |});
      [by destruct Hs as [-> | ->]| | |done..].
    + unfold parseRequestURI. rewrite (url_Parse_absolute IP_literal scheme name port (AptEncodePath q) q)
        by (done || apply AptEncodePath_slash, Hq || apply AptEncodePath_valid || apply AptEncodePath_unescape).
      assert (has_prefix "/" (scheme +:+ "://" +:+ authority name port +:+ AptEncodePath q) = false) as -> by by destruct Hs as [-> | ->].
      cbn [pu_scheme pu_user pu_query pu_fragment pu_host pu_path].
      assert (ToLower scheme = scheme) as -> by by destruct Hs as [-> | ->]. rewrite Hh.
      assert ((q =? "")%string = false) as -> by by destruct q. by destruct Hs as [-> | ->].
    + unfold target. cbn [ur_absolute ur_host ur_path ur_scheme]. by rewrite Hm.
  - set (e := "///" +:+ authority name port +:+ AptEncodePath q).
    change ("https://" +:+ authority (ToLower name) port +:+ AptEncodePath q)
      with ("https" +:+ "://" +:+ authority (ToLower name) port +:+ AptEncodePath q).
    eapply (Parse_target p _ {| ur_absolute := true; ur_scheme := "http"; ur_host := "HTTPS"; ur_path := "///" +:+ authority name port +:+ q |});
      [done| | |done..].
    + unfold parseRequestURI.
      assert (url_Parse IP_literal ("http" +:+ "://" +:+ authority "HTTPS" "" +:+ e)
        = Some {| pu_scheme := "http"; pu_user := false; pu_host := authority "HTTPS" ""; pu_path := "///" +:+ authority name port +:+ q;
                  pu_query := ""; pu_fragment := "" |}) as Hp.
      { apply url_Parse_absolute; [by left|done|done| |].
        - unfold e, validEncoded. rewrite !string_forallb_append. apply andb_true_iff. split; [done|].
          apply andb_true_iff. split; [by apply authority_valid|apply AptEncodePath_valid].
        - unfold e. rewrite <-append_assoc, unescape_append, AptEncodePath_unescape; [apply (f_equal Some), append_assoc|].
          rewrite contains_byte_append, authority_free by done. done. }
      change ("http" +:+ "://" +:+ authority "HTTPS" "" +:+ e) with ("http://HTTPS///" +:+ authority name port +:+ AptEncodePath q) in Hp.
      rewrite Hp. done.
    + unfold target. cbn [ur_absolute ur_host ur_path ur_scheme]. unfold isHTTPSMagic. rewrite (has_prefix_app "///").
      change (EqualFold "HTTPS" "HTTPS") with true. cbn [andb].
      unfold splitHTTPSMagic. rewrite cut_prefix_app. cbn [default].
      apply has_prefix_spec in Hq as [q' ->]. change ("/" +:+ q') with (String slash q').
      unfold id. rewrite cut_byte_app by by apply authority_free.
      assert ((authority name port +:+ String slash q' =? "")%string = false) as ->.
      { pose proof (authority_nonempty _ _ Ha). by destruct (authority name port). }
      by rewrite authority_nonempty.
Qed.

(** *** Mirrors *)

(** A whole number of segments of the path, or all of it. *)
Definition below (prefix path rest : string) : Prop :=
  prefix = "/" ∧ rest = path ∨
  prefix ≠ "/" ∧ path = prefix +:+ rest ∧ (rest = "" ∨ has_prefix "/" rest = true).

Lemma route_rest_spec r path rest : route_rest r path = Some rest ↔ below (mr_prefix r) path rest.
Proof.
  unfold route_rest, below. destruct (String.eqb_spec (mr_prefix r) "/") as [Hr|Hr].
  { split; [intros [= ->]; by left|]. by intros [[_ ->]|[? _]]. }
  destruct (String.eqb_spec path (mr_prefix r)) as [->|Hne].
  { split; [intros [= <-]; right; split_and!; [done|by rewrite append_nil_r|by left]|].
    intros [[? _]|(_ & Heq & _)]; [done|]. rewrite <-(append_nil_r (mr_prefix r)) in Heq at 1.
    by apply append_inj_l in Heq as <-. }
  destruct (cut_prefix path (mr_prefix r)) as [t|] eqn:Hc.
  - apply cut_prefix_spec in Hc as ->. split.
    + destruct (has_prefix "/" t) eqn:Ht; [|done]. intros [= <-]. right. auto.
    + intros [[? _]|(_ & Heq & Hrest)]; [done|]. apply append_inj_l in Heq as ->.
      destruct Hrest as [-> | ->]; [by rewrite append_nil_r in Hne|done].
  - split; [done|]. intros [[? _]|(_ & Heq & _)]; [done|]. apply cut_prefix_spec in Heq. congruence.
Qed.

(** The first route, in the order of the configuration, that the path is
    below. *)
Lemma matchMirror_spec mirrors path :
  match matchMirror mirrors path with
  | Some (r, rest) => ∃ before after, mirrors = before ++ r :: after ∧ below (mr_prefix r) path rest ∧
      ∀ r', r' ∈ before → ∀ rest', ¬ below (mr_prefix r') path rest'
  | None => ∀ r', r' ∈ mirrors → ∀ rest', ¬ below (mr_prefix r') path rest'
  end.
Proof.
  induction mirrors as [|r mirrors IH]; cbn [matchMirror]; [by intros r ?%not_elem_of_nil|].
  destruct (route_rest r path) as [rest|] eqn:Hr.
  - exists [], mirrors. split_and!; [done|by apply route_rest_spec|by intros ? ?%not_elem_of_nil].
  - assert (∀ rest', ¬ below (mr_prefix r) path rest') as Hno.
    { intros rest' Hb%route_rest_spec. congruence. }
    destruct (matchMirror mirrors path) as [[r1 rest]|].
    + destruct IH as (before & after & -> & Hb & Hbefore). exists (r :: before), after. split_and!; [done..|].
      intros r' [->|Hin]%elem_of_cons; [done|auto].
    + intros r' [->|Hin]%elem_of_cons; [done|auto].
Qed.

(** What the configuration guarantees of a route. *)
Record route_ok (r : mirrorRoute) : Prop := {
  ro_prefix : has_prefix "/" (mr_prefix r) = true;
  ro_scheme : is_http (mr_scheme r) = true;
  ro_host : mr_host r ≠ "" }.

Lemma lower_runes_nonempty tbl s :
  Forall (λ ab : string * string, ab.2 ≠ "") tbl → s ≠ "" → lower_runes tbl 0 s ≠ "".
Proof.
  intros Ht Hs. destruct s as [|c s]; [done|]. cbn [lower_runes].
  destruct (find _ tbl) as [[a b]|] eqn:Hf; [|done]. apply find_some in Hf as [Hin _].
  rewrite Forall_forall in Ht. apply list_elem_of_In, Ht in Hin. simpl in *. by destruct b.
Qed.

Lemma trim_right_slash s : has_prefix "/" s = true →
  trim_right (Ascii.eqb slash) s = "" ∨ has_prefix "/" (trim_right (Ascii.eqb slash) s) = true.
Proof.
  intros [r ->]%has_prefix_spec. change ("/" +:+ r) with (String slash r). cbn [trim_right].
  destruct (trim_right (Ascii.eqb slash) r) as [|d t] eqn:E; rewrite ?E; cbn; auto.
Qed.

Lemma New_routes compile remap mirror p :
  New IP_literal compile remap mirror = Ok p → Forall route_ok (ps_mirrors p).
Proof.
  unfold New. destruct (compileRemapRules compile 0 remap) as [rules|]; [|done]. cbn [mbind result_bind].
  generalize 0%nat. intros i. destruct (compileMirrorRoutes IP_literal i mirror) as [routes|] eqn:Hm; [|done].
  cbn. intros [= <-]. simpl. revert i routes Hm. induction mirror as [|m mirror IH]; intros i routes Hm.
  - injection Hm as <-. constructor.
  - cbn [compileMirrorRoutes] in Hm. destruct (compileMirrorRoute IP_literal i m) as [r|] eqn:Hr; [|done]. cbn in Hm.
    destruct (compileMirrorRoutes IP_literal (S i) mirror) as [l|] eqn:Hl; [|done]. injection Hm as <-.
    constructor; [|by eapply IH]. unfold compileMirrorRoute in Hr.
    destruct (has_prefix "/" (Prefix m)) eqn:Hp; [|done]. cbn [negb] in Hr. destruct (Upstream m =? "")%string; [done|].
    destruct (url_Parse IP_literal (Upstream m)) as [u|]; [|done].
    destruct (is_http (ToLower (pu_scheme u))) eqn:Hs; [|done]. destruct (String.eqb_spec (pu_host u) "") as [|Hh]; [done|].
    destruct (pu_user u); [done|]. destruct (negb (pu_query u =? "")%string); [done|].
    destruct (negb (pu_fragment u =? "")%string); [done|]. injection Hr as <-. split; simpl; [|done|].
    + destruct (trim_right_slash (Prefix m) Hp) as [->|Ht]; [done|].
      by destruct (String.eqb_spec (trim_right (Ascii.eqb slash) (Prefix m)) "").
    + apply lower_runes_nonempty; [by repeat constructor|done].
Qed.

(** A request of a configured mirror: a path in apt's encoding is answered
    by the first route of the configuration whose prefix is a whole number of
    its segments, and by none if there is no such route; the upstream path is
    the upstream's own path followed by what is left, and the request is
    accepted unless that is no path. *)
Theorem Parse_mirror compile remap mirror p q :
  New IP_literal compile remap mirror = Ok p →
  has_prefix "/" q = true → has_prefix "//" q = false →
  match matchMirror (ps_mirrors p) q with
  | None =>
      Parse IP_literal p (AptEncodePath q) = Err ErrNoMirrorMatch ∧
      ∀ r, r ∈ ps_mirrors p → ∀ rest, ¬ below (mr_prefix r) q rest
  | Some (r, rest) =>
      (∃ before after, ps_mirrors p = before ++ r :: after ∧ below (mr_prefix r) q rest ∧
         ∀ r', r' ∈ before → ∀ rest', ¬ below (mr_prefix r') q rest') ∧
      let path := joinMirrorPath (mr_basePath r) rest in
      Parse IP_literal p (AptEncodePath q) =
        if has_prefix "/" path && negb (string_existsb is_ctl path) then
          let '(host, authority) := canonicalize p (mr_host r) in
          Ok {| rq_mode := ModeMirror; rq_scheme := mr_scheme r; rq_host := host; rq_path := path;
                rq_upstream := BuildUpstreamURL (mr_scheme r) authority path;
                rq_metadata := IsMetadata path; rq_suite := SuitePath path |}
        else Err ErrInvalidPath
  end.
Proof.
  intros Hnew Hq Hqq. pose proof (New_routes _ _ _ _ Hnew) as Hroutes.
  pose proof (matchMirror_spec (ps_mirrors p) q) as Hm.
  assert (parseRequestURI IP_literal (AptEncodePath q)
    = Ok {| ur_absolute := false; ur_scheme := ""; ur_host := ""; ur_path := q |}) as Hu.
  { unfold parseRequestURI. rewrite (url_Parse_rooted IP_literal (AptEncodePath q) q); rewrite ?AptEncodePath_slash; try done.
    - by apply AptEncodePath_no_authority.
    - apply AptEncodePath_valid.
    - apply AptEncodePath_unescape. }
  assert ((AptEncodePath q =? "")%string = false) as Hne.
  { pose proof (AptEncodePath_slash q Hq). by destruct (AptEncodePath q). }
  unfold Parse. rewrite Hne, Hu. cbn [mbind result_bind]. unfold target. cbn [ur_absolute ur_path].
  destruct (matchMirror (ps_mirrors p) q) as [[r rest]|] eqn:Hmatch; [|done]. split; [done|].
  destruct Hm as (before & after & Hps & _ & _). rewrite Hps, Forall_app, Forall_cons in Hroutes.
  destruct Hroutes as (_ & [Hp Hs Hh] & _). cbn [mbind result_bind]. apply String.eqb_neq in Hh as ->. rewrite Hs. cbn [negb].
  destruct (has_prefix "/" (joinMirrorPath (mr_basePath r) rest)); [|done]. cbn [negb andb].
  by destruct (string_existsb is_ctl (joinMirrorPath (mr_basePath r) rest)).
Qed.
End laws.

(** ** Concrete requests *)

Definition no_literal (host : string) : option string := None.

Definition no_regex (re : string) : option (string → bool) := None.

Definition debian_mirror : list MirrorRule := [{| Prefix := "/debian/"; Upstream := "http://deb.debian.org/debian/" |}].

Definition debian_parser : Parser :=
  match New no_literal no_regex [] debian_mirror with Ok p => p | Err _ => {| ps_remap := []; ps_mirrors := [] |} end.

Lemma Parse_apt_witness :
  Parse no_literal debian_parser "http://HTTPS///Repo.example.org:8443/pool/g%2b%2b.deb"
  = Ok (apt_request "https" "repo.example.org" "/pool/g++.deb" "https://repo.example.org:8443/pool/g%2b%2b.deb").
Proof.
  assert (plain_authority "Repo.example.org" "8443" = true) as Ha by (vm_compute; reflexivity).
  assert (unmapped debian_parser (ToLower "Repo.example.org")) as Hun.
  { split; [vm_compute; reflexivity|]. repeat constructor. }
  exact (proj2 (Parse_apt no_literal debian_parser "http" "Repo.example.org" "8443" "/pool/g++.deb"
    (or_introl eq_refl) Ha Hun eq_refl eq_refl)).
Defined.

Lemma Parse_mirror_witness :
  matchMirror (ps_mirrors debian_parser) "/debian/dists/sid/InRelease"
  = Some ({| mr_prefix := "/debian"; mr_scheme := "http"; mr_host := "deb.debian.org"; mr_basePath := "/debian/" |},
          "/dists/sid/InRelease") ∧
  match Parse no_literal debian_parser (AptEncodePath "/debian/dists/sid/InRelease") with
  | Ok r => rq_upstream r = "http://deb.debian.org/debian/dists/sid/InRelease"
  | Err _ => False
  end.
Proof.
  assert (New no_literal no_regex [] debian_mirror = Ok debian_parser) as Hnew by (vm_compute; reflexivity).
  pose proof (Parse_mirror no_literal no_regex [] debian_mirror debian_parser "/debian/dists/sid/InRelease" Hnew
    eq_refl eq_refl) as Hm.
  assert (matchMirror (ps_mirrors debian_parser) "/debian/dists/sid/InRelease"
    = Some ({| mr_prefix := "/debian"; mr_scheme := "http"; mr_host := "deb.debian.org"; mr_basePath := "/debian/" |},
          "/dists/sid/InRelease")) as Hr by (vm_compute; reflexivity).
  split; [exact Hr|]. rewrite Hr in Hm. destruct Hm as [_ Hm]. cbn zeta in Hm. rewrite Hm. vm_compute. reflexivity.
Defined.
