(* ===== verification/ReleaseParse.v ===== *)
(** * Reading a Release file (internal/freshness/release_parse.go)

    The SHA256 and SHA512 blocks of a signed Release merged per member, the
    validators of hashes and member paths, the Acquire-By-Hash switch, and the
    by-hash names of a member (member_verify.go).  The parser keeps a slice, an
    index into it and two maps of what it has seen; it is proved to be the
    specification below, which reads the declared rows and merges them. *)
From S2P Require Import Prelude GoStrings GoText.
Local Open Scope Z_scope.

(** ** Data *)

Record ReleaseMember := {
  Path : string;
  SHA256 : string;    (** "" when only SHA512 is declared *)
  SHA512 : string;    (** "" when not declared *)
  Size : Z;
}.

#[export] Instance ReleaseMember_eq_dec : EqDecision ReleaseMember.
Proof. solve_decision. Defined.

(** The hash blocks that are read; no block, or any other field, is [None]. *)
Inductive HashBlock := BlockSHA256 | BlockSHA512.

#[export] Instance HashBlock_eq_dec : EqDecision HashBlock.
Proof. solve_decision. Defined.

Definition MaxReleaseMembers : Z := 1000000.

Inductive path_error :=
| PathEmpty | PathAbsolute | PathNUL | PathBackslash | PathPercent | PathDelimiter
| PathDotDot | PathDot | PathEmptySegment.

Inductive row_error :=
| RowFields (n : nat)
| RowHash (b : HashBlock) (h : string)
| RowSize (s : string)
| RowNegative (n : Z)
| RowPath (p : string) (e : path_error).

Inductive release_error :=
| RelLine (n : Z) (e : row_error)
| RelTooMany
| RelTwice (n : Z) (p : string) (b : HashBlock)
| RelScan
| RelNoBlock
| RelEmpty.

(** ** Validators *)

Definition lower_hex_byte (c : ascii) : bool :=
  is_digit c || ((97 <=? byte c) && (byte c <=? 102)).

Definition validHexSHA256 (s : string) : bool :=
  (len s =? 64) && string_forallb lower_hex_byte s.

Definition validHexSHA512 (s : string) : bool :=
  (len s =? 128) && validHexSHA256 (take_bytes 64 s) && validHexSHA256 (drop_bytes 64 s).

Definition isMetadataSelfPath (p : string) : bool :=
  (p =? "Release")%string || (p =? "Release.gpg")%string || (p =? "InRelease")%string.

Fixpoint bad_segment (l : list string) : option path_error :=
  match l with
  | [] => None
  | s :: l =>
      if (s =? "..")%string then Some PathDotDot
      else if (s =? ".")%string then Some PathDot
      else if (s =? "")%string then Some PathEmptySegment
      else bad_segment l
  end.

(** [None] accepts the path. *)
Definition validateMemberPath (p : string) : option path_error :=
  if (p =? "")%string then Some PathEmpty
  else if has_prefix "/" p then Some PathAbsolute
  else if contains_byte (chr 0) p then Some PathNUL
  else if contains_byte "\" p then Some PathBackslash
  else if contains_byte "%" p then Some PathPercent
  else if string_existsb (in_set "?#") p then Some PathDelimiter
  else bad_segment (split_byte slash p).

(** ** The parser *)

Definition valid_hash (b : HashBlock) : string → bool :=
  match b with BlockSHA256 => validHexSHA256 | BlockSHA512 => validHexSHA512 end.

Definition parseReleaseHashLine (line : string) (b : HashBlock) : result row_error ReleaseMember :=
  match Fields line with
  | [hash; size; path] =>
      if negb (valid_hash b hash) then Err (RowHash b hash)
      else match ParseInt size with
      | None => Err (RowSize size)
      | Some n =>
          if n <? 0 then Err (RowNegative n)
          else match validateMemberPath path with
          | Some e => Err (RowPath path e)
          | None =>
              Ok match b with
                 | BlockSHA512 => {| Path := path; SHA256 := ""; SHA512 := hash; Size := n |}
                 | BlockSHA256 => {| Path := path; SHA256 := hash; SHA512 := ""; Size := n |}
                 end
          end
      end
  | l => Err (RowFields (length l))
  end.

Record release_st := {
  rs_out : list ReleaseMember;
  rs_at : gmap string nat;
  rs_seen : HashBlock → gmap string (string * Z);
  rs_rows : Z;
  rs_block : option HashBlock;
  rs_saw : bool;
}.

Definition release_init : release_st :=
  {| rs_out := []; rs_at := ∅; rs_seen := λ _, ∅; rs_rows := 0; rs_block := None; rs_saw := false |}.

Definition row_hash (b : HashBlock) (m : ReleaseMember) : string :=
  match b with BlockSHA256 => SHA256 m | BlockSHA512 => SHA512 m end.

Definition set_block (b : option HashBlock) (saw : bool) (st : release_st) : release_st :=
  {| rs_out := rs_out st; rs_at := rs_at st; rs_seen := rs_seen st; rs_rows := rs_rows st;
     rs_block := b; rs_saw := saw || rs_saw st |}.

Definition count_row (st : release_st) : release_st :=
  {| rs_out := rs_out st; rs_at := rs_at st; rs_seen := rs_seen st; rs_rows := rs_rows st + 1;
     rs_block := rs_block st; rs_saw := rs_saw st |}.

(** What one row writes into its member. *)
Definition write_row (b : HashBlock) (hash : string) (size : Z) (m : ReleaseMember) : ReleaseMember :=
  match b with
  | BlockSHA256 =>
      {| Path := Path m; SHA256 := hash; SHA512 := SHA512 m;
         Size := if (SHA512 m =? "")%string then size else Size m |}
  | BlockSHA512 =>
      {| Path := Path m; SHA256 := SHA256 m; SHA512 := hash; Size := size |}
  end.

(** A row not seen in its block before: its member is found or appended. *)
Definition record_row (b : HashBlock) (m : ReleaseMember) (st : release_st) : release_st :=
  let seen c := if bool_decide (c = b)
                then <[Path m := (row_hash b m, Size m)]> (rs_seen st c) else rs_seen st c in
  let '(i, out, idx) := match rs_at st !! Path m with
    | Some i => (i, rs_out st, rs_at st)
    | None =>
        let i := length (rs_out st) in
        (i, rs_out st ++ [{| Path := Path m; SHA256 := ""; SHA512 := ""; Size := 0 |}],
         <[Path m := i]> (rs_at st))
    end in
  {| rs_out := alter (write_row b (row_hash b m) (Size m)) i out; rs_at := idx; rs_seen := seen;
     rs_rows := rs_rows st; rs_block := rs_block st; rs_saw := rs_saw st |}.

Definition add_row (n : Z) (b : HashBlock) (m : ReleaseMember) (st : release_st)
  : result release_error release_st :=
  let st := count_row st in
  if MaxReleaseMembers <? rs_rows st then Err RelTooMany
  else if isMetadataSelfPath (Path m) then Ok st
  else match rs_seen st b !! Path m with
  | Some (hash, size) =>
      if negb (hash =? row_hash b m)%string || negb (size =? Size m)
      then Err (RelTwice n (Path m) b) else Ok st
  | None => Ok (record_row b m st)
  end.

Definition blank (c : ascii) : bool := in_set (String " " (String (chr 9) "")) c.

Definition release_header (line : string) (st : release_st) : release_st :=
  let name := trim_right blank line in
  if (name =? "SHA256:")%string then set_block (Some BlockSHA256) true st
  else if (name =? "SHA512:")%string then set_block (Some BlockSHA512) true st
  else set_block None false st.

Definition release_line (n : Z) (line : string) (st : release_st) : result release_error release_st :=
  match line with
  | EmptyString => Ok (set_block None false st)
  | String c _ =>
      if blank c then
        match rs_block st with
        | None => Ok st
        | Some b =>
            match parseReleaseHashLine line b with
            | Err e => Err (RelLine n e)
            | Ok m => add_row n b m st
            end
        end
      else Ok (release_header line st)
  end.

Definition ParseRelease (text : string) : result release_error (list ReleaseMember) :=
  let '(lines, too_long) := scan_lines text in
  st ← each_line release_line 1 lines release_init;
  if too_long then Err RelScan
  else if negb (rs_saw st) then Err RelNoBlock
  else match rs_out st with [] => Err RelEmpty | _ => Ok (rs_out st) end.

(** The first Acquire-By-Hash header decides. *)
Fixpoint acquire_by_hash (lines : list string) : bool :=
  match lines with
  | [] => false
  | EmptyString :: l => acquire_by_hash l
  | (String c _ as line) :: l =>
      if blank c then acquire_by_hash l
      else match cut_byte ":" line with
      | Some (key, val) =>
          if EqualFold (TrimSpace key) "Acquire-By-Hash" then EqualFold (TrimSpace val) "yes"
          else acquire_by_hash l
      | None => acquire_by_hash l
      end
  end.

Definition parseAcquireByHash (text : string) : bool := acquire_by_hash (scan_lines text).1.

(** ** Specification: the declared rows, merged

    The rows a Release declares in the blocks that are read, in order, each
    with its block; the parser's answer depends on the text through them
    alone. *)
Section specification.

Definition row : Type := HashBlock * ReleaseMember.

Definition row_step (line : string) (a : option HashBlock * bool * list row)
  : option (option HashBlock * bool * list row) :=
  let '(blk, saw, rows) := a in
  match line with
  | EmptyString => Some (None, saw, rows)
  | String c _ =>
      if blank c then
        match blk with
        | None => Some (blk, saw, rows)
        | Some b =>
            match parseReleaseHashLine line b with
            | Ok m => Some (blk, saw, rows ++ [(b, m)])
            | Err _ => None
            end
        end
      else
        let name := trim_right blank line in
        if (name =? "SHA256:")%string then Some (Some BlockSHA256, true, rows)
        else if (name =? "SHA512:")%string then Some (Some BlockSHA512, true, rows)
        else Some (None, saw, rows)
  end.

(** The rows that name a member: the Release's entries for itself do not. *)
Definition kept (rows : list row) : list row :=
  List.filter (λ r, negb (isMetadataSelfPath (Path r.2))) rows.

(** The first entry of a block for a path. *)
Fixpoint entry (b : HashBlock) (p : string) (rows : list row) : option (string * Z) :=
  match rows with
  | [] => None
  | (c, m) :: rows =>
      if bool_decide (c = b ∧ Path m = p) then Some (row_hash c m, Size m) else entry b p rows
  end.

Definition agrees (rows : list row) (r : row) : bool :=
  bool_decide (entry r.1 (Path r.2) rows = Some (row_hash r.1 r.2, Size r.2)).

(** No block declares a path twice with different values. *)
Definition consistent (rows : list row) : bool := forallb (agrees rows) rows.

(** The paths in the order of their first row. *)
Definition add_path (l : list string) (p : string) : list string :=
  if bool_decide (p ∈ l) then l else l ++ [p].
Definition first_paths (rows : list row) : list string :=
  foldl add_path [] (map (λ r, Path r.2) rows).

(** Every hash declared; the size is the SHA512 entry's when there is one. *)
Definition merged (rows : list row) (p : string) : ReleaseMember :=
  {| Path := p;
     SHA256 := from_option fst "" (entry BlockSHA256 p rows);
     SHA512 := from_option fst "" (entry BlockSHA512 p rows);
     Size := match entry BlockSHA512 p rows with
             | Some (_, n) => n
             | None => from_option snd 0 (entry BlockSHA256 p rows)
             end |}.

Definition merge (rows : list row) : list ReleaseMember := map (merged rows) (first_paths rows).

Definition admissible (a : option HashBlock * bool * list row) : bool :=
  (Z.of_nat (length a.2) <=? MaxReleaseMembers) && consistent (kept a.2).

Definition release_spec (text : string) : option (list ReleaseMember) :=
  let '(lines, too_long) := scan_lines text in
  a ← foldl (λ o line, o ≫= row_step line) (Some (None, false, [])) lines;
  if admissible a && negb too_long && a.1.2 && negb (bool_decide (kept a.2 = []))
  then Some (merge (kept a.2)) else None.

End specification.

(** ** The parser against its specification *)

Lemma entry_app b p rows r :
  entry b p (rows ++ [r]) =
  match entry b p rows with
  | Some e => Some e
  | None => if bool_decide (r.1 = b ∧ Path r.2 = p) then Some (row_hash r.1 r.2, Size r.2) else None
  end.
Proof.
  induction rows as [|[c m] rows IH]; simpl; [by destruct r|].
  destruct (bool_decide (c = b ∧ Path m = p)); [done|exact IH].
Qed.

Lemma kept_app rows r :
  kept (rows ++ [r]) = if isMetadataSelfPath (Path r.2) then kept rows else kept rows ++ [r].
Proof.
  unfold kept. rewrite List.filter_app. simpl.
  destruct (isMetadataSelfPath (Path r.2)); simpl; [by rewrite app_nil_r|done].
Qed.

Lemma first_paths_app rows r : first_paths (rows ++ [r]) = add_path (first_paths rows) (Path r.2).
Proof. unfold first_paths. by rewrite map_app, foldl_app. Qed.

Lemma add_path_elem l p q : q ∈ add_path l p ↔ q ∈ l ∨ q = p.
Proof.
  unfold add_path. case_bool_decide; [naive_solver|].
  rewrite elem_of_app, list_elem_of_singleton. done.
Qed.

Lemma first_paths_elem rows p : p ∈ first_paths rows ↔ ∃ r, r ∈ rows ∧ Path r.2 = p.
Proof.
  induction rows as [|r rows IH] using rev_ind.
  { split; [by intros ?%elem_of_nil|]. by intros (r & ?%elem_of_nil & _). }
  rewrite first_paths_app, add_path_elem, IH. setoid_rewrite elem_of_app.
  setoid_rewrite list_elem_of_singleton. naive_solver.
Qed.

Lemma first_paths_NoDup rows : NoDup (first_paths rows).
Proof.
  induction rows as [|r rows IH] using rev_ind; [constructor|].
  rewrite first_paths_app. unfold add_path. case_bool_decide as Hin; [done|].
  apply NoDup_app. split_and!; [done| |apply NoDup_singleton].
  intros p Hp ->%list_elem_of_singleton. done.
Qed.

Lemma entry_Some_elem b p rows e :
  entry b p rows = Some e → ∃ m, (b, m) ∈ rows ∧ Path m = p ∧ e = (row_hash b m, Size m).
Proof.
  induction rows as [|[c m] rows IH]; simpl; [done|].
  case_bool_decide as Hc; intros He.
  - destruct Hc as [-> <-]. simplify_eq. exists m. split; [by left|done].
  - destruct (IH He) as (m' & ? & ? & ?). exists m'. split; [by right|done].
Qed.

Lemma entry_None rows b p : entry b p rows = None ↔ ∀ m, (b, m) ∈ rows → Path m ≠ p.
Proof.
  induction rows as [|[c m] rows IH]; simpl.
  { split; [|done]. by intros _ m ?%elem_of_nil. }
  case_bool_decide as Hc.
  - split; [done|]. intros H. destruct Hc as [-> <-]. destruct (H m); [by left|done].
  - rewrite IH. split; intros H m' Hm'.
    + apply elem_of_cons in Hm' as [[= <- <-]|?]; [naive_solver|auto].
    + apply H. by right.
Qed.

(** A row appended to consistent rows keeps them so exactly when it repeats
    the entry of its block, if there is one. *)
Lemma consistent_app rows r :
  consistent (rows ++ [r]) =
  consistent rows &&
  match entry r.1 (Path r.2) rows with
  | Some e => bool_decide (e = (row_hash r.1 r.2, Size r.2))
  | None => true
  end.
Proof.
  unfold consistent. rewrite forallb_app. simpl. rewrite andb_true_r. f_equal.
  - apply eq_true_iff_eq. rewrite !forallb_forall. unfold agrees.
    split; intros H x Hx; specialize (H x Hx); rewrite bool_decide_eq_true in *.
    + rewrite entry_app in H. destruct (entry x.1 (Path x.2) rows) eqn:He; [done|].
      rewrite entry_None in He. destruct x as [b m].
      rewrite <-list_elem_of_In in Hx. by destruct (He m Hx).
    + by rewrite entry_app, H.
  - unfold agrees. rewrite entry_app. destruct (entry r.1 (Path r.2) rows) as [e|].
    + apply bool_decide_ext. naive_solver.
    + rewrite (bool_decide_eq_true_2 (_ ∧ _)) by done. by apply bool_decide_eq_true.
Qed.

(** What the parser's index and maps hold of the rows read so far. *)
Definition row_valid (r : row) : Prop := valid_hash r.1 (row_hash r.1 r.2) = true.

Record release_sim (st : release_st) (a : option HashBlock * bool * list row) : Prop := {
  sim_block : rs_block st = a.1.1;
  sim_saw : rs_saw st = a.1.2;
  sim_rows : rs_rows st = Z.of_nat (length a.2);
  sim_out : rs_out st = merge (kept a.2);
  sim_seen : ∀ b p, rs_seen st b !! p = entry b p (kept a.2);
  sim_at : ∀ p i, rs_at st !! p = Some i ↔ first_paths (kept a.2) !! i = Some p;
  sim_valid : Forall row_valid a.2;
}.

Lemma merged_ext rows rows' p :
  (∀ b, entry b p rows = entry b p rows') → merged rows p = merged rows' p.
Proof. intros H. unfold merged. by rewrite !H. Qed.

Lemma merge_ext rows rows' :
  first_paths rows = first_paths rows' → (∀ b p, entry b p rows = entry b p rows') →
  merge rows = merge rows'.
Proof.
  intros Hp He. unfold merge. rewrite Hp. apply map_ext. intros p. by apply merged_ext.
Qed.

(** A row that repeats its block's entry changes nothing. *)
Lemma repeated_row rows r e :
  entry r.1 (Path r.2) rows = Some e →
  first_paths (rows ++ [r]) = first_paths rows ∧ ∀ b p, entry b p (rows ++ [r]) = entry b p rows.
Proof.
  intros He. split.
  - rewrite first_paths_app. unfold add_path. rewrite bool_decide_eq_true_2; [done|].
    apply first_paths_elem. apply entry_Some_elem in He as (m & Hm & Hp & _). by exists (r.1, m).
  - intros b p. rewrite entry_app. destruct (entry b p rows) eqn:E; [done|].
    rewrite bool_decide_eq_false_2; [done|]. intros [<- <-]. congruence.
Qed.

(** The rows of other members leave a member as it is. *)
Lemma merged_other rows r p : Path r.2 ≠ p → merged (rows ++ [r]) p = merged rows p.
Proof.
  intros Hne. apply merged_ext. intros b. rewrite entry_app.
  destruct (entry b p rows); [done|]. rewrite bool_decide_eq_false_2; naive_solver.
Qed.

Lemma valid_hash_nonempty b h : valid_hash b h = true → h ≠ "".
Proof. intros H ->. destruct b; discriminate H. Qed.

Lemma sha512_set rows p :
  Forall row_valid rows →
  (SHA512 (merged rows p) =? "")%string =
  match entry BlockSHA512 p rows with Some _ => false | None => true end.
Proof.
  intros Hv. simpl. destruct (entry BlockSHA512 p rows) as [[h n]|] eqn:E; [|done].
  apply entry_Some_elem in E as (m & Hm & _ & [= -> _]). simpl.
  rewrite Forall_forall in Hv. specialize (Hv _ Hm).
  apply String.eqb_neq. by apply (valid_hash_nonempty BlockSHA512).
Qed.

(** A row new to its block writes its own member. *)
Lemma merged_write rows r :
  Forall row_valid rows →
  entry r.1 (Path r.2) rows = None →
  merged (rows ++ [r]) (Path r.2) =
  write_row r.1 (row_hash r.1 r.2) (Size r.2) (merged rows (Path r.2)).
Proof.
  intros Hv Hn. pose proof (sha512_set rows (Path r.2) Hv) as Hs.
  destruct r as [b m]; simpl in *. unfold merged, write_row. rewrite !entry_app. simpl.
  destruct b; simpl in *; rewrite Hn.
  - rewrite Hs. rewrite (bool_decide_eq_true_2 (_ ∧ Path m = Path m)) by done.
    by destruct (entry BlockSHA512 (Path m) rows) as [[??]|].
  - rewrite (bool_decide_eq_true_2 (_ ∧ Path m = Path m)) by done.
    by destruct (entry BlockSHA256 (Path m) rows) as [[??]|].
Qed.

Lemma merge_known rows r i :
  Forall row_valid rows →
  entry r.1 (Path r.2) rows = None →
  first_paths rows !! i = Some (Path r.2) →
  merge (rows ++ [r]) = alter (write_row r.1 (row_hash r.1 r.2) (Size r.2)) i (merge rows).
Proof.
  intros Hv Hn Hi. unfold merge.
  assert (first_paths (rows ++ [r]) = first_paths rows) as ->.
  { rewrite first_paths_app. unfold add_path. rewrite bool_decide_eq_true_2; [done|].
    by apply list_elem_of_lookup_2 in Hi. }
  apply list_eq. intros j. rewrite list_lookup_alter, !list_lookup_fmap.
  destruct (decide (i = j)) as [<-|Hij].
  - rewrite Hi. cbn [fmap option_fmap option_map]. by rewrite merged_write.
  - destruct (first_paths rows !! j) as [p|] eqn:Hj; [|done]. cbn [fmap option_fmap option_map]. f_equal.
    apply merged_other. intros Hp. subst p. destruct Hij.
    eapply NoDup_lookup; [apply first_paths_NoDup|done|done].
Qed.

Lemma merge_new rows r :
  Forall row_valid rows →
  Path r.2 ∉ first_paths rows →
  merge (rows ++ [r]) =
  merge rows ++ [write_row r.1 (row_hash r.1 r.2) (Size r.2)
                   {| Path := Path r.2; SHA256 := ""; SHA512 := ""; Size := 0 |}].
Proof.
  intros Hv Hp.
  assert (∀ b, entry b (Path r.2) rows = None) as Hn.
  { intros b. apply entry_None. intros m Hm Heq. destruct Hp. apply first_paths_elem. by exists (b, m). }
  unfold merge. rewrite first_paths_app. unfold add_path. rewrite bool_decide_eq_false_2 by done.
  rewrite map_app. f_equal.
  - apply map_ext_in. intros p Hin%list_elem_of_In. apply merged_other. intros Hq. by subst p.
  - simpl. rewrite merged_write by done. unfold merged at 1. by rewrite !Hn.
Qed.

Lemma alter_last {A} (f : A → A) (l : list A) x : alter f (length l) (l ++ [x]) = l ++ [f x].
Proof. induction l as [|y l IH]; [done|]. simpl. unfold alter in IH. by rewrite IH. Qed.

Lemma seen_after (seen : HashBlock → gmap string (string * Z)) rows b m :
  (∀ c p, seen c !! p = entry c p rows) → entry b (Path m) rows = None →
  ∀ c p, (if bool_decide (c = b) then <[Path m := (row_hash b m, Size m)]> (seen c) else seen c) !! p
         = entry c p (rows ++ [(b, m)]).
Proof.
  intros He Hn c p. rewrite entry_app. simpl. rewrite <-He. case_bool_decide as Hc; [subst c|].
  - destruct (decide (Path m = p)) as [<-|Hp].
    + rewrite lookup_insert_eq, He, Hn. by rewrite bool_decide_eq_true_2.
    + rewrite lookup_insert_ne, He by done.
      destruct (entry b p rows); [done|]. by rewrite bool_decide_eq_false_2 by naive_solver.
  - destruct (seen c !! p); [done|]. rewrite bool_decide_eq_false_2; naive_solver.
Qed.

Lemma record_row_sim st a b m :
  release_sim st a → valid_hash b (row_hash b m) = true →
  isMetadataSelfPath (Path m) = false → rs_seen st b !! Path m = None →
  release_sim (record_row b m (count_row st)) (a.1, a.2 ++ [(b, m)]).
Proof.
  intros [Hb Hs Hr Ho He Ha Hv] Hvm Hself Hn. rewrite He in Hn.
  assert (Forall row_valid (kept a.2)) as Hvk.
  { apply Forall_forall. intros r Hin. rewrite Forall_forall in Hv. apply Hv.
    apply list_elem_of_In in Hin. apply list_elem_of_In. by apply filter_In in Hin as [? _]. }
  unfold record_row. simpl. destruct (rs_at st !! Path m) as [i|] eqn:Hat.
  all: constructor; simpl; rewrite ?kept_app; simpl; rewrite ?Hself; try done.
  all: try (rewrite length_app; simpl; lia).
  all: try (apply Forall_app; split; [done|by repeat constructor]).
  - apply Ha in Hat. rewrite Ho. symmetry. by apply (merge_known _ (b, m)).
  - intros c p. by apply seen_after.
  - intros p j. rewrite Ha, first_paths_app. unfold add_path. rewrite bool_decide_eq_true_2; [done|].
    apply Ha in Hat. simpl. by eapply list_elem_of_lookup_2.
  - rewrite Ho. rewrite alter_last. symmetry. apply (merge_new _ (b, m)); [done|].
    simpl. intros [i Hi]%list_elem_of_lookup. apply Ha in Hi. congruence.
  - intros c p. by apply seen_after.
  - assert (Path m ∉ first_paths (kept a.2)) as Hnp.
    { intros [i Hi]%list_elem_of_lookup. apply Ha in Hi. congruence. }
    intros p j. rewrite first_paths_app. unfold add_path. rewrite bool_decide_eq_false_2 by done.
    assert (length (rs_out st) = length (first_paths (kept a.2))) as ->.
    { rewrite Ho. unfold merge. apply length_map. }
    simpl. rewrite lookup_snoc_Some, lookup_insert_Some, <-Ha.
    split; [naive_solver (eauto using lookup_lt_Some)|].
    intros [[Hlt Hl]|[-> ->]]; [|by left]. right. split; [|done]. intros <-. congruence.
Qed.

Lemma parsed_row_valid line b m :
  parseReleaseHashLine line b = Ok m →
  valid_hash b (row_hash b m) = true ∧ 0 <= Size m < 2 ^ 63 ∧ validateMemberPath (Path m) = None.
Proof.
  unfold parseReleaseHashLine. destruct (Fields line) as [|h [|z [|p [|? ?]]]]; try done.
  destruct (valid_hash b h) eqn:Hh; [|done]. simpl.
  destruct (ParseInt z) as [n|] eqn:Hz; [|done]. apply ParseInt_range in Hz.
  destruct (n <? 0) eqn:Hn; [done|]. destruct (validateMemberPath p) eqn:Hp; [done|].
  intros [= <-]. bclean. destruct b; (split_and!; [exact Hh|simpl; lia..|exact Hp]).
Qed.

(** The rows are refused as soon as they stop being admissible. *)
Definition checked_step (line : string) (a : option HashBlock * bool * list row)
  : option (option HashBlock * bool * list row) :=
  a' ← row_step line a; if admissible a' then Some a' else None.

Definition release_inv (st : release_st) (a : option HashBlock * bool * list row) : Prop :=
  release_sim st a ∧ admissible a = true.

Lemma admissible_app x y rows r :
  admissible (x, rows) = true →
  admissible (y, rows ++ [r]) =
  (Z.of_nat (length rows) + 1 <=? MaxReleaseMembers) &&
  (isMetadataSelfPath (Path r.2) ||
   match entry r.1 (Path r.2) (kept rows) with
   | Some e => bool_decide (e = (row_hash r.1 r.2, Size r.2))
   | None => true
   end).
Proof.
  unfold admissible. cbn [snd]. intros [_ Hc]%andb_true_iff.
  rewrite length_app, kept_app, Nat2Z.inj_add. f_equal.
  destruct (isMetadataSelfPath (Path r.2)); [done|]. by rewrite consistent_app, Hc.
Qed.

(** A row that is counted and otherwise dropped. *)
Lemma count_row_sim st a r :
  release_sim st a → row_valid r →
  first_paths (kept (a.2 ++ [r])) = first_paths (kept a.2) →
  (∀ b p, entry b p (kept (a.2 ++ [r])) = entry b p (kept a.2)) →
  release_sim (count_row st) (a.1, a.2 ++ [r]).
Proof.
  intros [Hb Hs Hr Ho He Ha Hv] Hvr Hp Hent.
  constructor; cbn [fst snd rs_block rs_saw rs_rows rs_out rs_seen rs_at count_row]; try done.
  - rewrite length_app, Hr. simpl. lia.
  - rewrite Ho. symmetry. by apply merge_ext.
  - intros c p. by rewrite Hent.
  - intros p i. by rewrite Hp.
  - apply Forall_app. split; [done|]. by repeat constructor.
Qed.

Lemma add_row_sim n b m st a :
  release_inv st a → valid_hash b (row_hash b m) = true →
  match add_row n b m st with
  | Ok st' => release_inv st' (a.1, a.2 ++ [(b, m)])
  | Err _ => admissible (a.1, a.2 ++ [(b, m)]) = false
  end.
Proof.
  intros [Hsim Hadm] Hvm. destruct a as [x rows].
  pose proof (admissible_app x x rows (b, m) Hadm) as Happ. cbn [fst snd] in *.
  pose proof (sim_rows _ _ Hsim) as Hr. pose proof (sim_seen _ _ Hsim) as He. cbn [fst snd] in *.
  unfold add_row. cbn [rs_rows count_row rs_seen]. rewrite He.
  destruct (MaxReleaseMembers <? rs_rows st + 1) eqn:Hmax; bclean.
  { etransitivity; [exact Happ|]. by replace (_ <=? _) with false by lia. }
  replace (Z.of_nat (length rows) + 1 <=? MaxReleaseMembers) with true in Happ by lia.
  rewrite andb_true_l in Happ.
  destruct (isMetadataSelfPath (Path m)) eqn:Hself.
  { split; [|done]. apply (count_row_sim st (x, rows)); try done; cbn [fst snd];
      rewrite kept_app; cbn [snd]; by rewrite Hself. }
  rewrite orb_false_l in Happ.
  destruct (entry b (Path m) (kept rows)) as [[h z]|] eqn:Hseen.
  - destruct (negb (h =? row_hash b m)%string || negb (z =? Size m)) eqn:Hd.
    + etransitivity; [exact Happ|]. apply bool_decide_eq_false_2. intros [= -> ->].
      by rewrite String.eqb_refl, Z.eqb_refl in Hd.
    + apply orb_false_iff in Hd as [Hd1 Hd2]. bclean. subst.
      destruct (repeated_row (kept rows) (b, m) _ Hseen) as [Hp Hent].
      rewrite bool_decide_eq_true_2 in Happ by done. split; [|done].
      apply (count_row_sim st (x, rows)); try done; cbn [fst snd];
        rewrite kept_app; cbn [snd]; by rewrite Hself.
  - split; [|done]. apply (record_row_sim st (x, rows)); try done. by rewrite He.
Qed.

(** Leaving or entering a block keeps the rows. *)
Lemma set_block_inv st blk saw rows blk' c :
  release_inv st (blk, saw, rows) →
  release_inv (set_block blk' c st) (blk', c || saw, rows).
Proof.
  intros [[Hb Hs Hr Ho He Ha Hv] Hadm]. split; [|done].
  constructor; try done. simpl in *. by rewrite Hs.
Qed.

Lemma release_line_sim n line st a :
  release_inv st a →
  match release_line n line st with
  | Ok st' => ∃ a', checked_step line a = Some a' ∧ release_inv st' a'
  | Err _ => checked_step line a = None
  end.
Proof.
  intros Hinv. destruct a as [[blk saw] rows]. unfold checked_step, row_step, release_line.
  assert (∀ blk' saw', admissible (blk', saw', rows) = true) as Hadm by (intros; exact (proj2 Hinv)).
  destruct line as [|c line].
  { eexists. simpl. rewrite Hadm. split; [done|].
    exact (set_block_inv _ _ _ _ None false Hinv). }
  destruct (blank c).
  - rewrite (sim_block _ _ (proj1 Hinv)). simpl. destruct blk as [b|]; [|simpl; rewrite Hadm; by eexists].
    destruct (parseReleaseHashLine (String c line) b) as [m|e] eqn:Hp; [|done].
    apply parsed_row_valid in Hp as (Hv & _ & _).
    pose proof (add_row_sim n b m st _ Hinv Hv) as Hadd. simpl.
    destruct (add_row n b m st) as [st'|e]; simpl in Hadd; [|by rewrite Hadd].
    exists (Some b, saw, rows ++ [(b, m)]). by rewrite (proj2 Hadd).
  - unfold release_header.
    repeat case_match; simpl; rewrite Hadm; eexists; (split; [done|]);
      exact (set_block_inv _ _ _ _ _ _ Hinv).
Qed.

(** Admissible rows were admissible all along. *)
Lemma admissible_step line a a' :
  row_step line a = Some a' → admissible a' = true → admissible a = true.
Proof.
  destruct a as [[blk saw] rows]. unfold row_step. intros H Hadm.
  assert (a'.2 = rows ∨ ∃ r, a'.2 = rows ++ [r]) as [Hrows|[r Hrows]].
  { repeat case_match; simplify_eq; simpl; eauto. }
  - unfold admissible in *. by rewrite Hrows in Hadm.
  - unfold admissible in *. rewrite Hrows, length_app, kept_app in Hadm. cbn [snd] in *.
    apply andb_true_iff in Hadm as [Hl Hc]. apply andb_true_iff.
    split; [bclean; apply Z.leb_le; simpl in Hl; lia|].
    destruct (isMetadataSelfPath (Path r.2)); [done|].
    rewrite consistent_app in Hc. by apply andb_true_iff in Hc as [? _].
Qed.

Lemma release_init_inv : release_inv release_init (None, false, []).
Proof. split; [|done]. by constructor. Qed.

Lemma merge_nil rows : merge rows = [] ↔ rows = [].
Proof.
  split; [|by intros ->]. intros H. destruct rows as [|r rows]; [done|].
  assert (Path r.2 ∈ first_paths (r :: rows)) as Hin.
  { apply first_paths_elem. exists r. split; [by left|done]. }
  unfold merge in H. apply map_eq_nil in H. rewrite H in Hin. by apply elem_of_nil in Hin.
Qed.

Lemma parse_release_spec text :
  match ParseRelease text with
  | Ok members => release_spec text = Some members
  | Err _ => release_spec text = None
  end.
Proof.
  unfold ParseRelease, release_spec. destruct (scan_lines text) as [lines too_long].
  pose proof (each_line_sim release_line checked_step release_inv release_line_sim
                lines 1 release_init _ release_init_inv) as H.
  unfold checked_step in H. rewrite foldl_check in H; [|exact admissible_step|done].
  unfold mbind at 1, result_bind. destruct (each_line release_line 1 lines release_init) as [st|e].
  - destruct H as (a & Ha & Hinv).
    destruct (foldl _ _ lines) as [a'|]; [|done]. cbn [mbind option_bind] in *.
    destruct (admissible a') eqn:Hadm; [|done]. injection Ha as ->.
    destruct Hinv as [[Hb Hs Hr Ho He Hat Hv] _]. rewrite Hs, Ho.
    destruct too_long; [done|]. simpl. destruct (a.1.2); [|done]. simpl.
    case_bool_decide as Hk; simpl.
    + by rewrite Hk.
    + destruct (merge (kept a.2)) eqn:Hm; [|done]. by apply merge_nil in Hm.
  - destruct (foldl _ _ lines) as [a'|]; [|done]. cbn [mbind option_bind] in *.
    by destruct (admissible a').
Qed.

(** C29. [ParseRelease] refines its specification: it answers the merge of the
    rows the Release declares, a member per path in the order of its first
    row, every declared hash kept and the size of the SHA512 entry preferred;
    and it fails exactly when a row is malformed, a block declares a path twice
    with different values, a line or the number of rows passes its bound, or
    no row names a member. *)
Theorem ParseRelease_refines text :
  match ParseRelease text with
  | Ok members => release_spec text = Some members
  | Err _ => release_spec text = None
  end.
Proof. apply parse_release_spec. Qed.

(** ** Consequences of the specification *)

(** A member that is safe to fetch, store and serve. *)
Record member_ok (m : ReleaseMember) : Prop := {
  mo_path : validateMemberPath (Path m) = None;
  mo_self : isMetadataSelfPath (Path m) = false;
  mo_sha256 : SHA256 m = "" ∨ validHexSHA256 (SHA256 m) = true;
  mo_sha512 : SHA512 m = "" ∨ validHexSHA512 (SHA512 m) = true;
  mo_declared : SHA256 m ≠ "" ∨ SHA512 m ≠ "";
  mo_size : 0 <= Size m < 2 ^ 63;
}.

Definition row_ok (r : row) : Prop :=
  row_valid r ∧ 0 <= Size r.2 < 2 ^ 63 ∧ validateMemberPath (Path r.2) = None.

Lemma row_step_ok line a a' :
  row_step line a = Some a' → Forall row_ok a.2 → Forall row_ok a'.2.
Proof.
  destruct a as [[blk saw] rows]. unfold row_step. intros H Hok.
  repeat case_match; simplify_eq; simpl in *; try done.
  apply Forall_app. split; [done|]. constructor; [|done].
  match goal with Hp : parseReleaseHashLine _ _ = Ok _ |- _ => by apply parsed_row_valid in Hp end.
Qed.

Lemma foldl_option_inv {A B} (f : B → A → option A) (P : A → Prop) l a a' :
  (∀ x a a', f x a = Some a' → P a → P a') →
  P a → foldl (λ o x, o ≫= f x) (Some a) l = Some a' → P a'.
Proof.
  intros Hf. revert a. induction l as [|x l IH]; intros a Ha H; simpl in H; [by simplify_eq|].
  destruct (f x a) as [b|] eqn:Hb; [by eauto|].
  exfalso. clear -H. induction l; naive_solver.
Qed.

Lemma merged_ok rows p :
  Forall row_ok rows → p ∈ first_paths (kept rows) → member_ok (merged (kept rows) p).
Proof.
  intros Hok Hp.
  assert (∀ r, r ∈ kept rows → row_ok r ∧ isMetadataSelfPath (Path r.2) = false) as Hkept.
  { intros r Hr. apply list_elem_of_In, filter_In in Hr as [Hr Hself].
    rewrite Forall_forall in Hok. split; [|by apply negb_true_iff].
    apply Hok. by apply list_elem_of_In. }
  assert (∀ b h n, entry b p (kept rows) = Some (h, n) → valid_hash b h = true ∧ 0 <= n < 2 ^ 63) as Hent.
  { intros b h n He. apply entry_Some_elem in He as (m & Hm & _ & [= -> ->]).
    by destruct (Hkept _ Hm) as [(Hv & Hn & _) _]. }
  apply first_paths_elem in Hp as ([b m] & Hr & Hp). simpl in Hp.
  destruct (Hkept _ Hr) as [(_ & _ & Hpath) Hself]. simpl in *. rewrite Hp in *.
  assert (entry b p (kept rows) ≠ None) as Hb.
  { rewrite entry_None. intros H. by apply (H m). }
  constructor; simpl; try done.
  - destruct (entry BlockSHA256 p (kept rows)) as [[h n]|] eqn:E; [right|by left].
    by apply Hent in E as [? _].
  - destruct (entry BlockSHA512 p (kept rows)) as [[h n]|] eqn:E; [right|by left].
    by apply Hent in E as [? _].
  - destruct b; [left|right]; (destruct (entry _ p (kept rows)) as [[h n]|] eqn:E; [|done]);
      apply Hent in E as [?%valid_hash_nonempty _]; done.
  - destruct (entry BlockSHA512 p (kept rows)) as [[h n]|] eqn:E; [by apply Hent in E as [_ ?]|].
    destruct (entry BlockSHA256 p (kept rows)) as [[h n]|] eqn:E'; [by apply Hent in E' as [_ ?]|].
    simpl. lia.
Qed.

Lemma release_spec_some text members :
  release_spec text = Some members →
  ∃ rows, members = merge (kept rows) ∧ Forall row_ok rows ∧ kept rows ≠ [] ∧
    Z.of_nat (length rows) <= MaxReleaseMembers.
Proof.
  unfold release_spec. destruct (scan_lines text) as [lines too_long]. intros (a & Ha & H)%bind_Some.
  destruct (admissible a && _ && _ && _) eqn:Hc; [|done]. simplify_eq. bclean.
  exists a.2. split_and!; try done.
  - eapply (foldl_option_inv row_step (λ a, Forall row_ok a.2)); [exact row_step_ok| |exact Ha].
    by constructor.
  - unfold admissible in *. bclean. lia.
Qed.

Lemma kept_length rows : (length (kept rows) ≤ length rows)%nat.
Proof. apply List.filter_length_le. Qed.

Lemma first_paths_length rows : (length (first_paths rows) ≤ length rows)%nat.
Proof.
  induction rows as [|r rows IH] using rev_ind; [done|].
  rewrite first_paths_app, length_app. unfold add_path. case_bool_decide; simpl; [lia|].
  rewrite length_app. simpl. lia.
Qed.

Lemma ParseRelease_rows text members :
  ParseRelease text = Ok members →
  ∃ rows, members = merge (kept rows) ∧ Forall row_ok rows ∧ kept rows ≠ [] ∧
    Z.of_nat (length rows) <= MaxReleaseMembers.
Proof.
  intros H. apply release_spec_some with (text := text).
  pose proof (parse_release_spec text) as Hr. by rewrite H in Hr.
Qed.

Lemma ParseRelease_members text members : ParseRelease text = Ok members → Forall member_ok members.
Proof.
  intros (rows & -> & Hok & _)%ParseRelease_rows. apply Forall_forall. unfold merge. intros m Hm.
  apply list_elem_of_In, in_map_iff in Hm as (p & <- & Hp).
  apply merged_ok; [done|]. by apply list_elem_of_In.
Qed.

(** C37. Every member [ParseRelease] answers is well formed: its path stays
    inside the suite and names neither the Release nor its signatures, each
    hash is absent or of its algorithm's shape with at least one declared, its
    size is a non-negative int64; no two members have the same path, and there
    are between one and [MaxReleaseMembers] of them. *)
Theorem ParseRelease_sound text members :
  ParseRelease text = Ok members →
  Forall member_ok members ∧ NoDup (map Path members) ∧
  1 <= Z.of_nat (length members) <= MaxReleaseMembers.
Proof.
  intros H. pose proof (ParseRelease_members _ _ H). apply ParseRelease_rows in H as (rows & -> & Hok & Hne & Hlen).
  split_and!; [done|..].
  - unfold merge. rewrite map_map. simpl. rewrite map_id. apply first_paths_NoDup.
  - pose proof (merge_nil (kept rows)). destruct (merge (kept rows)) eqn:E; [naive_solver|]. simpl. lia.
  - unfold merge. rewrite length_map. pose proof (first_paths_length (kept rows)).
    pose proof (kept_length rows). lia.
Qed.

(** ** A Release in both algorithms *)

Fixpoint repeat_string (n : nat) (s : string) : string :=
  match n with O => "" | S n => s +:+ repeat_string n s end.

Definition demo_sha256 : string := repeat_string 64 "a".
Definition demo_sha512 : string := repeat_string 64 "0f".

Definition demo_release : string :=
  join (String lf "")
    ["Origin: Demo"; "SHA256:"; " " +:+ demo_sha256 +:+ " 10 main/binary-amd64/Packages";
     " " +:+ demo_sha256 +:+ " 188 Release"; "SHA512:";
     " " +:+ demo_sha512 +:+ " 11 main/binary-amd64/Packages";
     " " +:+ demo_sha512 +:+ " 7 main/source/Sources"; ""].

Definition demo_members : list ReleaseMember :=
  [{| Path := "main/binary-amd64/Packages"; SHA256 := demo_sha256; SHA512 := demo_sha512; Size := 11 |};
   {| Path := "main/source/Sources"; SHA256 := ""; SHA512 := demo_sha512; Size := 7 |}].

Lemma ParseRelease_sound_witness :
  ParseRelease demo_release = Ok demo_members ∧ Forall member_ok demo_members.
Proof.
  assert (ParseRelease demo_release = Ok demo_members) as H by (vm_compute; reflexivity).
  split; [exact H|]. exact (proj1 (ParseRelease_sound demo_release demo_members H)).
Defined.
