(* ===== verification/PackagesParse.v ===== *)
(** * Reading a Packages file (internal/freshness/packages_parse.go)

    The (Filename, SHA256) pairs a Packages file vouches for, and the
    Filenames it names without a SHA256.  The parser is one loop over lines
    with a stanza open; it is proved to read each stanza by itself. *)
From S2P Require Import Prelude GoStrings AptPath GoText ReleaseParse.
Local Open Scope Z_scope.

(** ** Data *)

Record PackageRef := {
  Filename : string;
  pr_SHA256 : string;
  pr_Size : Z;
  Package : string;
  Architecture : string;
  Version : string;
}.

#[export] Instance PackageRef_eq_dec : EqDecision PackageRef.
Proof. solve_decision. Defined.

Definition MaxPackageStanzas : Z := 1000000.

Inductive filename_error :=
| FilenameEmpty | FilenameLong | FilenameAbsolute | FilenameBackslash | FilenameDelimiter
| FilenameControl (c : ascii) | FilenameEmptySegment | FilenameDotDot | FilenameNoFile.

Inductive stanza_error :=
| StanzaSHA256 (h : string)
| StanzaFilename (f : string) (e : filename_error)
| StanzaTooMany.

Inductive packages_error :=
| PkgStanza (n : Z) (e : stanza_error)
| PkgHeader (n : Z) (line : string)
| PkgSize (n : Z) (v : string)
| PkgNegative (n : Z) (v : Z)
| PkgScan
| PkgTail (e : stanza_error)
| PkgNoFilename.

(** ** [validateFilename] *)

Definition control_byte (c : ascii) : bool := (byte c <? 32) || (byte c =? 127).

Fixpoint first_control (s : string) : option ascii :=
  match s with
  | EmptyString => None
  | String c s => if control_byte c then Some c else first_control s
  end.

Fixpoint filename_segments (named : bool) (l : list string) : option filename_error :=
  match l with
  | [] => if named then None else Some FilenameNoFile
  | s :: l =>
      if (s =? "")%string then Some FilenameEmptySegment
      else if (s =? "..")%string then Some FilenameDotDot
      else if (s =? ".")%string then filename_segments named l
      else filename_segments true l
  end.

Definition validateFilename (f : string) : option filename_error :=
  if (f =? "")%string then Some FilenameEmpty
  else if MaxFilenameBytes <? len f then Some FilenameLong
  else if has_prefix "/" f then Some FilenameAbsolute
  else if contains_byte "\" f then Some FilenameBackslash
  else if string_existsb (in_set "?#") f then Some FilenameDelimiter
  else match first_control f with
  | Some c => Some (FilenameControl c)
  | None => filename_segments false (split_byte slash f)
  end.

(** ** The loop *)

(** The fields of the open stanza. *)
Record stanza := {
  st_filename : string;
  st_sha256 : string;
  st_size : Z;
  st_sizeSet : bool;
  st_pkg : string;
  st_arch : string;
  st_version : string;
}.

Definition no_stanza : stanza :=
  {| st_filename := ""; st_sha256 := ""; st_size := 0; st_sizeSet := false;
     st_pkg := ""; st_arch := ""; st_version := "" |}.

Record packages_st := {
  ps_out : list PackageRef;
  ps_noSHA256 : list string;
  ps_stanza : stanza;
}.

Definition packages_init : packages_st :=
  {| ps_out := []; ps_noSHA256 := []; ps_stanza := no_stanza |}.

Definition ps_count (st : packages_st) : Z :=
  Z.of_nat (length (ps_out st)) + Z.of_nat (length (ps_noSHA256 st)).

Definition stanza_ref (z : stanza) : PackageRef :=
  {| Filename := st_filename z; pr_SHA256 := st_sha256 z;
     pr_Size := if st_sizeSet z then st_size z else 0;
     Package := st_pkg z; Architecture := st_arch z; Version := st_version z |}.

Definition flush (st : packages_st) : result stanza_error packages_st :=
  let z := ps_stanza st in
  if (st_filename z =? "")%string || (st_sha256 z =? "")%string then
    if negb (st_filename z =? "")%string then
      if MaxPackageStanzas <=? ps_count st then Err StanzaTooMany
      else Ok {| ps_out := ps_out st; ps_noSHA256 := ps_noSHA256 st ++ [st_filename z];
                 ps_stanza := no_stanza |}
    else Ok {| ps_out := ps_out st; ps_noSHA256 := ps_noSHA256 st; ps_stanza := no_stanza |}
  else if negb (validHexSHA256 (st_sha256 z)) then Err (StanzaSHA256 (st_sha256 z))
  else match validateFilename (st_filename z) with
  | Some e => Err (StanzaFilename (st_filename z) e)
  | None =>
      if MaxPackageStanzas <=? ps_count st then Err StanzaTooMany
      else Ok {| ps_out := ps_out st ++ [stanza_ref z]; ps_noSHA256 := ps_noSHA256 st;
                 ps_stanza := no_stanza |}
  end.

(** A header of the stanza: the last value of a repeated field stays. *)
Definition set_field (n : Z) (field value : string) (z : stanza) : result packages_error stanza :=
  let f := ToLower field in
  if (f =? "filename")%string then
    Ok {| st_filename := value; st_sha256 := st_sha256 z; st_size := st_size z;
          st_sizeSet := st_sizeSet z; st_pkg := st_pkg z; st_arch := st_arch z;
          st_version := st_version z |}
  else if (f =? "sha256")%string then
    Ok {| st_filename := st_filename z; st_sha256 := value; st_size := st_size z;
          st_sizeSet := st_sizeSet z; st_pkg := st_pkg z; st_arch := st_arch z;
          st_version := st_version z |}
  else if (f =? "size")%string then
    match ParseInt value with
    | None => Err (PkgSize n value)
    | Some v =>
        if v <? 0 then Err (PkgNegative n v)
        else Ok {| st_filename := st_filename z; st_sha256 := st_sha256 z; st_size := v;
                   st_sizeSet := true; st_pkg := st_pkg z; st_arch := st_arch z;
                   st_version := st_version z |}
    end
  else if (f =? "package")%string then
    Ok {| st_filename := st_filename z; st_sha256 := st_sha256 z; st_size := st_size z;
          st_sizeSet := st_sizeSet z; st_pkg := value; st_arch := st_arch z;
          st_version := st_version z |}
  else if (f =? "architecture")%string then
    Ok {| st_filename := st_filename z; st_sha256 := st_sha256 z; st_size := st_size z;
          st_sizeSet := st_sizeSet z; st_pkg := st_pkg z; st_arch := value;
          st_version := st_version z |}
  else if (f =? "version")%string then
    Ok {| st_filename := st_filename z; st_sha256 := st_sha256 z; st_size := st_size z;
          st_sizeSet := st_sizeSet z; st_pkg := st_pkg z; st_arch := st_arch z;
          st_version := value |}
  else Ok z.

(** One line of a stanza. *)
Definition header_line (n : Z) (line : string) (z : stanza) : result packages_error stanza :=
  match line with
  | String c _ =>
      if blank c then Ok z
      else match cut_byte ":" line with
      | None | Some (EmptyString, _) => Err (PkgHeader n line)
      | Some (field, value) => set_field n (TrimSpace field) (TrimSpace value) z
      end
  | EmptyString => Ok z
  end.

Definition packages_line (n : Z) (line : string) (st : packages_st) : result packages_error packages_st :=
  match line with
  | EmptyString =>
      match flush st with
      | Ok st => Ok st
      | Err e => Err (PkgStanza n e)
      end
  | _ =>
      z ← header_line n line (ps_stanza st);
      Ok {| ps_out := ps_out st; ps_noSHA256 := ps_noSHA256 st; ps_stanza := z |}
  end.

Definition parsePackages (text : string) : result packages_error (list PackageRef * list string) :=
  let '(lines, too_long) := scan_lines text in
  st ← each_line packages_line 1 lines packages_init;
  if too_long then Err PkgScan
  else match flush st with
  | Err e => Err (PkgTail e)
  | Ok st =>
      if (ps_count st =? 0) && (0 <? len (TrimSpace text)) then Err PkgNoFilename
      else Ok (ps_out st, ps_noSHA256 st)
  end.

Definition ParsePackages (text : string) : result packages_error (list PackageRef) :=
  r ← parsePackages text; Ok r.1.

(** ** Specification: what each stanza says by itself *)
Section specification.

Inductive says :=
| Vouches (r : PackageRef)
| Unvouched (f : string)
| Nothing.

Definition stanza_says (z : stanza) : option says :=
  if (st_filename z =? "")%string then Some Nothing
  else if (st_sha256 z =? "")%string then Some (Unvouched (st_filename z))
  else if validHexSHA256 (st_sha256 z) && negb (bool_decide (is_Some (validateFilename (st_filename z))))
  then Some (Vouches (stanza_ref z)) else None.

Definition field_step (line : string) (z : stanza) : option stanza :=
  match header_line 0 line z with Ok z => Some z | Err _ => None end.

Definition vouched (l : list says) : list PackageRef :=
  omap (λ v, match v with Vouches r => Some r | _ => None end) l.
Definition unvouched (l : list says) : list string :=
  omap (λ v, match v with Unvouched f => Some f | _ => None end) l.
Definition named_stanzas (l : list says) : Z :=
  Z.of_nat (length (vouched l)) + Z.of_nat (length (unvouched l)).

Definition packages_spec (text : string) : option (list PackageRef * list string) :=
  let '(lines, too_long) := scan_lines text in
  said ← mapM (stanza_verdict field_step stanza_says no_stanza) (stanzas lines);
  if (named_stanzas said <=? MaxPackageStanzas) && negb too_long &&
     negb ((named_stanzas said =? 0) && (0 <? len (TrimSpace text)))
  then Some (vouched said, unvouched said) else None.

End specification.

Record packages_sim (st : packages_st) (a : list says * stanza) : Prop := {
  pk_out : ps_out st = vouched a.1;
  pk_no : ps_noSHA256 st = unvouched a.1;
  pk_stanza : ps_stanza st = a.2;
  pk_within : (named_stanzas a.1 <=? MaxPackageStanzas) = true;
}.

Lemma packages_count st a : packages_sim st a → ps_count st = named_stanzas a.1.
Proof. intros [H1 H2 _ _]. unfold ps_count, named_stanzas. by rewrite H1, H2. Qed.

Lemma named_stanzas_app l v :
  named_stanzas (l ++ [v]) = named_stanzas l + match v with Nothing => 0 | _ => 1 end.
Proof.
  unfold named_stanzas, vouched, unvouched. rewrite !omap_app, !length_app.
  destruct v; simpl; lia.
Qed.

Definition within (a : list says * stanza) : bool := named_stanzas a.1 <=? MaxPackageStanzas.

(** The state after a stanza that said [v]. *)
Definition after (st : packages_st) (v : says) : packages_st :=
  {| ps_out := ps_out st ++ match v with Vouches r => [r] | _ => [] end;
     ps_noSHA256 := ps_noSHA256 st ++ match v with Unvouched f => [f] | _ => [] end;
     ps_stanza := no_stanza |}.

Lemma after_sim st a v :
  packages_sim st a → within (a.1 ++ [v], no_stanza) = true →
  packages_sim (after st v) (a.1 ++ [v], no_stanza).
Proof.
  intros [Ho Hn Hz Hw] Hv. unfold after. rewrite Ho, Hn.
  constructor; try done; cbn [fst]; unfold vouched, unvouched; rewrite omap_app; by destruct v.
Qed.

(** Closing a stanza is its verdict, within the bound. *)
Lemma flush_sim st a :
  packages_sim st a →
  match flush st with
  | Ok st' => ∃ v, stanza_says a.2 = Some v ∧ packages_sim st' (a.1 ++ [v], no_stanza)
  | Err _ => ∀ v, stanza_says a.2 = Some v → within (a.1 ++ [v], no_stanza) = false
  end.
Proof.
  intros Hsim.
  assert (∀ v st', flush st = Ok st' → st' = after st v → stanza_says a.2 = Some v →
    within (a.1 ++ [v], no_stanza) = true →
    ∃ v, stanza_says a.2 = Some v ∧ packages_sim st' (a.1 ++ [v], no_stanza)) as Hok.
  { intros v st' _ -> Hv Hw. exists v. split; [done|]. by apply after_sim. }
  pose proof (packages_count _ _ Hsim) as Hc. destruct Hsim as [Ho Hn Hz Hw].
  destruct (flush st) as [st'|e] eqn:Hf; unfold flush in Hf; rewrite Hz, Hc in Hf;
    unfold within in *; cbn [fst snd] in *; unfold stanza_says in *.
  - destruct (st_filename a.2 =? "")%string; cbn [orb negb] in Hf.
    { apply (Hok Nothing st'); try done; [|rewrite named_stanzas_app; bclean; lia].
      injection Hf as <-. unfold after. by rewrite !app_nil_r. }
    destruct (st_sha256 a.2 =? "")%string;
      [|destruct (validHexSHA256 (st_sha256 a.2)); [|done]; cbn [negb andb] in *;
        destruct (validateFilename (st_filename a.2)) as [e|]; [done|];
        rewrite bool_decide_eq_false_2 in Hok by (by intros [? ?]); cbn [negb] in Hok];
      (destruct (MaxPackageStanzas <=? named_stanzas a.1) eqn:E; [done|]);
      eapply (Hok _ st'); try done; try (rewrite named_stanzas_app; bclean; lia);
      injection Hf as <-; unfold after; by rewrite app_nil_r.
  - intros v Hv.
    destruct (st_filename a.2 =? "")%string; cbn [orb negb] in Hf; [done|].
    destruct (st_sha256 a.2 =? "")%string;
      [|destruct (validHexSHA256 (st_sha256 a.2)); [|done]; cbn [negb andb] in *;
        destruct (validateFilename (st_filename a.2)) as [e'|];
        [by rewrite bool_decide_eq_true_2 in Hv by (by eexists)|];
        rewrite bool_decide_eq_false_2 in Hv by (by intros [? ?]); cbn [negb] in Hv];
      (destruct (MaxPackageStanzas <=? named_stanzas a.1) eqn:E; [|done]);
      injection Hv as <-; rewrite named_stanzas_app; bclean; lia.
Qed.

(** The line number only reaches the error. *)
Lemma header_line_any n line z :
  match header_line n line z with
  | Ok z' => field_step line z = Some z'
  | Err _ => field_step line z = None
  end.
Proof.
  unfold field_step, header_line, set_field. destruct line as [|c line]; [done|].
  destruct (blank c); [done|].
  destruct (cut_byte ":" (String c line)) as [[[|d f] v]|]; try done.
  repeat case_match; simplify_eq; done.
Qed.

Definition says_step : string → list says * stanza → option (list says * stanza) :=
  stanza_step field_step stanza_says no_stanza.

Definition checked_says (line : string) (a : list says * stanza) : option (list says * stanza) :=
  a' ← says_step line a; if within a' then Some a' else None.

Lemma packages_line_sim n line st a :
  packages_sim st a →
  match packages_line n line st with
  | Ok st' => ∃ a', checked_says line a = Some a' ∧ packages_sim st' a'
  | Err _ => checked_says line a = None
  end.
Proof.
  intros Hsim. unfold packages_line, checked_says, says_step, stanza_step. destruct line as [|c line].
  - pose proof (flush_sim st a Hsim) as Hf. rewrite String.eqb_refl.
    destruct (flush st) as [st'|e].
    + destruct Hf as (v & -> & Hs). cbn [mbind option_bind].
      eexists. split; [|exact Hs]. unfold within. by rewrite (pk_within _ _ Hs).
    + destruct (stanza_says a.2) as [v|]; [|done]. cbn [mbind option_bind]. by rewrite (Hf v).
  - replace (String c line =? "")%string with false by done.
    pose proof (header_line_any n (String c line) (ps_stanza st)) as Hh.
    destruct Hsim as [Ho Hn Hz Hw]. rewrite Hz in *.
    unfold mbind at 1, result_bind. destruct (header_line n (String c line) a.2) as [z'|e]; rewrite Hh;
      cbn [mbind option_bind]; [|done].
    unfold within. cbn [fst]. rewrite Hw. eexists. split; [done|]. by constructor.
Qed.

Lemma within_step x a a' :
  says_step x a = Some a' → within a' = true → within a = true.
Proof.
  unfold says_step, stanza_step, within. destruct (x =? "")%string.
  - intros (v & _ & [= <-])%bind_Some. cbn [fst]. rewrite named_stanzas_app.
    destruct v; intros; bclean; lia.
  - by intros (z & _ & [= <-])%bind_Some.
Qed.

Lemma packages_init_sim : packages_sim packages_init ([], no_stanza).
Proof. by constructor. Qed.

Lemma parsePackages_spec text :
  match parsePackages text with
  | Ok r => packages_spec text = Some r
  | Err _ => packages_spec text = None
  end.
Proof.
  unfold parsePackages, packages_spec. destruct (scan_lines text) as [lines too_long].
  pose proof (each_line_sim packages_line checked_says packages_sim packages_line_sim
                lines 1 packages_init _ packages_init_sim) as H.
  unfold checked_says in H.
  rewrite foldl_check in H; [|exact within_step|done].
  rewrite <-stanza_fold_init. fold says_step. unfold mbind at 1, result_bind.
  destruct (foldl _ _ lines) as [a|] eqn:Hfold; cbn [mbind option_bind] in *.
  2:{ destruct (each_line packages_line 1 lines packages_init); [by destruct H as (? & ? & _)|done]. }
  unfold stanza_close.
  assert (∀ v, within a = false → (named_stanzas (a.1 ++ [v]) <=? MaxPackageStanzas) = false) as Hmono.
  { unfold within. intros v Hw. rewrite named_stanzas_app. destruct v; bclean; lia. }
  destruct (each_line packages_line 1 lines packages_init) as [st|e].
  - destruct H as (a' & Ha & Hsim). destruct (within a); [|done]. injection Ha as <-.
    destruct too_long.
    { destruct (stanza_says a.2); [|done]. cbn [mbind option_bind]. by rewrite andb_false_r. }
    pose proof (flush_sim st a Hsim) as Hf. destruct (flush st) as [st'|e].
    + destruct Hf as (v & -> & Hs). cbn [mbind option_bind].
      pose proof (pk_within _ _ Hs) as Hw. cbn [fst] in Hw. rewrite Hw.
      rewrite (packages_count _ _ Hs). cbn [negb andb fst].
      destruct ((named_stanzas (a.1 ++ [v]) =? 0) && (0 <? len (TrimSpace text))); [done|].
      cbn [negb]. by rewrite (pk_out _ _ Hs), (pk_no _ _ Hs).
    + destruct (stanza_says a.2) as [v|]; [|done]. cbn [mbind option_bind].
      specialize (Hf v eq_refl). unfold within in Hf. cbn [fst] in Hf. by rewrite Hf.
  - destruct (within a) eqn:Hw; [done|].
    destruct (stanza_says a.2) as [v|]; [|done]. cbn [mbind option_bind]. by rewrite Hmono.
Qed.

(** C31. [parsePackages] reads each stanza by itself: it answers the (Filename,
    SHA256) reference of every stanza that has both, in file order, and the
    Filenames declared without a SHA256; it fails exactly when a stanza has a
    malformed line, size, hash or Filename, when more than [MaxPackageStanzas]
    stanzas name a file, when a line is too long, or when no stanza of a text
    that is not blank names one. *)
Theorem parsePackages_by_stanza text :
  match parsePackages text with
  | Ok r => packages_spec text = Some r
  | Err _ => packages_spec text = None
  end.
Proof. apply parsePackages_spec. Qed.

(** A reference that can name a file of the repository. *)
Definition ref_ok (r : PackageRef) : Prop :=
  validHexSHA256 (pr_SHA256 r) = true ∧ validateFilename (Filename r) = None ∧
  0 <= pr_Size r < 2 ^ 63.

Definition stanza_ok (z : stanza) : Prop := 0 <= st_size z < 2 ^ 63.

Lemma field_step_ok line z z' : field_step line z = Some z' → stanza_ok z → stanza_ok z'.
Proof.
  unfold field_step, header_line, set_field, stanza_ok. intros H Hz.
  repeat case_match; simplify_eq; try done; cbn [st_size]; bclean;
    match goal with Hp : ParseInt _ = Some _ |- _ => apply ParseInt_range in Hp; lia end.
Qed.

Lemma fields_of_ok s z z' : fields_of field_step z s = Some z' → stanza_ok z → stanza_ok z'.
Proof.
  unfold fields_of. intros H Hz. revert H. apply foldl_option_inv; [|done]. apply field_step_ok.
Qed.

Lemma stanza_says_ok z r : stanza_ok z → stanza_says z = Some (Vouches r) → ref_ok r.
Proof.
  unfold stanza_says, stanza_ok. intros Hz H. repeat case_match; simplify_eq; bclean.
  split; [done|split]; cbn; [by apply eq_None_not_Some|].
  destruct (st_sizeSet z); lia.
Qed.

Lemma parsePackages_refs text refs no :
  parsePackages text = Ok (refs, no) → Forall ref_ok refs.
Proof.
  intros H. pose proof (parsePackages_spec text) as Hspec. rewrite H in Hspec.
  unfold packages_spec in Hspec. destruct (scan_lines text) as [lines bad].
  apply bind_Some in Hspec as (said & Hsaid & Hspec).
  destruct (_ && _ && _); [|done]. injection Hspec as <- _.
  apply mapM_Some in Hsaid. unfold vouched. clear H.
  induction Hsaid as [|s v l l' Hv Hl IH]; [constructor|]. cbn.
  destruct v as [r|f|]; [constructor; [|done]|done|done].
  unfold stanza_verdict in Hv. apply bind_Some in Hv as (z & Hz & Hv).
  eapply stanza_says_ok; [|exact Hv]. eapply fields_of_ok; [exact Hz|]. by cbv.
Qed.
