(* ===== verification/SourcesParse.v ===== *)
(** * Reading Sources files and pdiff indexes (internal/freshness
    sources_parse.go, pdiff_parse.go)

    The source artifacts a Sources file declares and the patches a pdiff Index
    declares, with what each parser drops and what it refuses. *)
From S2P Require Import Prelude GoStrings GoText ReleaseParse.
Local Open Scope Z_scope.

(** ** Sources *)

Record SourceRef := {
  sr_Path : string;
  sr_SHA256 : string;
  sr_Size : Z;
  PackageName : string;
}.

Definition MaxSourceStanzas : Z := 1000000.

Record SourcesParseStats := {
  StanzaCount : Z;
  PathsSkipped : Z;
  FirstSkipped : string;
}.

Record sourceChecksumEntry := { ce_sha256 : string; ce_size : Z; ce_filename : string }.

Inductive sources_error :=
| SrcTooMany (n : Z)
| SrcHeader (n : Z) (line : string)
| SrcScan
| SrcTailTooMany
| SrcAllRefused (skipped : Z)
| SrcNoStanza.

Definition parseSourcesChecksumLine (line : string) : option sourceChecksumEntry :=
  match Fields line with
  | [h; size; name] =>
      n ← ParseInt size;
      if n <? 0 then None
      else Some {| ce_sha256 := ToLower h; ce_size := n; ce_filename := name |}
  | _ => None
  end.

Record sources_st := {
  ss_out : list SourceRef;
  ss_stats : SourcesParseStats;
  ss_package : string;
  ss_directory : string;
  ss_entries : list sourceChecksumEntry;
  ss_inSha256 : bool;
  ss_open : bool;
}.

Definition sources_init : sources_st :=
  {| ss_out := []; ss_stats := {| StanzaCount := 0; PathsSkipped := 0; FirstSkipped := "" |};
     ss_package := ""; ss_directory := ""; ss_entries := []; ss_inSha256 := false; ss_open := false |}.

Definition is_member_path (p : string) : bool :=
  match validateMemberPath p with None => true | Some _ => false end.

Definition skip_path (full : string) (s : SourcesParseStats) : SourcesParseStats :=
  {| StanzaCount := StanzaCount s; PathsSkipped := PathsSkipped s + 1;
     FirstSkipped := if (FirstSkipped s =? "")%string then full else FirstSkipped s |}.

(** A checksum entry that is dropped without being counted. *)
Definition unusable (e : sourceChecksumEntry) : bool :=
  negb (validHexSHA256 (ce_sha256 e)) ||
  ((ce_filename e =? "")%string || string_existsb (in_set ("/\" +:+ bytes_of [0])) (ce_filename e)) ||
  ((ce_filename e =? ".")%string || (ce_filename e =? "..")%string).

(** The entries of a closing stanza; [None] is the bound on the output. *)
Fixpoint flush_entries (pkg dir : string) (dirOK : bool) (l : list sourceChecksumEntry)
  (out : list SourceRef) (stats : SourcesParseStats) : option (list SourceRef * SourcesParseStats) :=
  match l with
  | [] => Some (out, stats)
  | e :: l =>
      if unusable e then flush_entries pkg dir dirOK l out stats
      else
        let full := dir +:+ "/" +:+ ce_filename e in
        if negb dirOK || negb (is_member_path full)
        then flush_entries pkg dir dirOK l out (skip_path full stats)
        else if MaxSourceStanzas <=? Z.of_nat (length out) then None
        else flush_entries pkg dir dirOK l
               (out ++ [{| sr_Path := full; sr_SHA256 := ce_sha256 e; sr_Size := ce_size e;
                           PackageName := pkg |}]) stats
  end.

Definition count_stanza (opened : bool) (s : SourcesParseStats) : SourcesParseStats :=
  if opened then {| StanzaCount := StanzaCount s + 1; PathsSkipped := PathsSkipped s;
                    FirstSkipped := FirstSkipped s |} else s.

Definition sources_flush (st : sources_st) : option sources_st :=
  let stats := count_stanza (ss_open st) (ss_stats st) in
  let closed out stats :=
    {| ss_out := out; ss_stats := stats; ss_package := ""; ss_directory := ""; ss_entries := [];
       ss_inSha256 := false; ss_open := false |} in
  if (ss_package st =? "")%string || (ss_directory st =? "")%string ||
     bool_decide (ss_entries st = [])
  then Some (closed (ss_out st) stats)
  else '(out, stats) ← flush_entries (ss_package st) (ss_directory st)
                         (is_member_path (ss_directory st)) (ss_entries st) (ss_out st) stats;
       Some (closed out stats).

Definition with_header (pkg dir : string) (in256 : bool) (st : sources_st) : sources_st :=
  {| ss_out := ss_out st; ss_stats := ss_stats st; ss_package := pkg; ss_directory := dir;
     ss_entries := ss_entries st; ss_inSha256 := in256; ss_open := true |}.

Definition add_entry (e : sourceChecksumEntry) (st : sources_st) : sources_st :=
  {| ss_out := ss_out st; ss_stats := ss_stats st; ss_package := ss_package st;
     ss_directory := ss_directory st; ss_entries := ss_entries st ++ [e];
     ss_inSha256 := ss_inSha256 st; ss_open := ss_open st |}.

Definition sources_line (n : Z) (line : string) (st : sources_st) : result sources_error sources_st :=
  match line with
  | EmptyString =>
      match sources_flush st with Some st => Ok st | None => Err (SrcTooMany n) end
  | String c _ =>
      if blank c then
        if negb (ss_inSha256 st) then Ok st
        else match parseSourcesChecksumLine line with
        | Some e => Ok (add_entry e st)
        | None => Ok st
        end
      else match cut_byte ":" line with
      | None | Some (EmptyString, _) => Err (SrcHeader n line)
      | Some (field, value) =>
          let f := ToLower (TrimSpace field) in
          Ok (if (f =? "package")%string then with_header (TrimSpace value) (ss_directory st) false st
              else if (f =? "directory")%string then with_header (ss_package st) (TrimSpace value) false st
              else if (f =? "checksums-sha256")%string
              then with_header (ss_package st) (ss_directory st) true st
              else with_header (ss_package st) (ss_directory st) false st)
      end
  end.

Definition ParseSources (text : string) : result sources_error (list SourceRef * SourcesParseStats) :=
  let '(lines, too_long) := scan_lines text in
  st ← each_line sources_line 1 lines sources_init;
  if too_long then Err SrcScan
  else match sources_flush st with
  | None => Err SrcTailTooMany
  | Some st =>
      let none := bool_decide (length (ss_out st) = O) in
      if none && (0 <? PathsSkipped (ss_stats st)) then Err (SrcAllRefused (PathsSkipped (ss_stats st)))
      else if none && (0 <? len (TrimSpace text)) then Err SrcNoStanza
      else Ok (ss_out st, ss_stats st)
  end.

(** ** pdiff indexes *)

Record PdiffPatchRef := { pd_Filename : string; pd_SHA256 : string; pd_Size : Z }.

Definition MaxPdiffPatchEntries : Z := 1024.

Inductive pdiff_error := PdiffTooMany | PdiffHeader (n : Z) (line : string) | PdiffScan.

(** [^[0-9.-]+\.gz$] *)
Definition pdiffPatchFilenameRE (s : string) : bool :=
  has_suffix ".gz" s &&
  let stem := trim_suffix s ".gz" in
  negb (stem =? "")%string && string_forallb (λ c, is_digit c || in_set ".-" c) stem.

Definition parsePdiffDownloadLine (line : string) : option PdiffPatchRef :=
  match Fields line with
  | [h; size; name] =>
      let hash := ToLower h in
      if negb (validHexSHA256 hash) then None
      else n ← ParseInt size;
           if n <? 0 then None
           else Some {| pd_Filename := name; pd_SHA256 := hash; pd_Size := n |}
  | _ => None
  end.

Definition pdiff_st : Type := list PdiffPatchRef * bool.

Definition pdiff_line (n : Z) (line : string) (st : pdiff_st) : result pdiff_error pdiff_st :=
  let '(out, inBlock) := st in
  match line with
  | EmptyString => Ok (out, false)
  | String c _ =>
      if blank c then
        if negb inBlock then Ok st
        else match parsePdiffDownloadLine line with
        | None => Ok st
        | Some ref =>
            if negb (pdiffPatchFilenameRE (pd_Filename ref)) then Ok st
            else if MaxPdiffPatchEntries <=? Z.of_nat (length out) then Err PdiffTooMany
            else Ok (out ++ [ref], inBlock)
        end
      else match cut_byte ":" line with
      | None | Some (EmptyString, _) => Err (PdiffHeader n line)
      | Some (field, _) => Ok (out, EqualFold (TrimSpace field) "SHA256-Download")
      end
  end.

Definition ParsePdiffIndex (text : string) : result pdiff_error (list PdiffPatchRef) :=
  let '(lines, too_long) := scan_lines text in
  st ← each_line pdiff_line 1 lines ([], false);
  if too_long then Err PdiffScan else Ok st.1.

(** ** What is never vouched for *)

Definition source_ok (r : SourceRef) : Prop :=
  validHexSHA256 (sr_SHA256 r) = true ∧ validateMemberPath (sr_Path r) = None ∧
  0 <= sr_Size r < 2 ^ 63 ∧
  ∃ dir name, sr_Path r = dir +:+ "/" +:+ name ∧ validateMemberPath dir = None ∧
    contains_byte slash name = false ∧ name ≠ "" ∧ name ≠ "." ∧ name ≠ "..".

Definition entry_ok (e : sourceChecksumEntry) : Prop := 0 <= ce_size e < 2 ^ 63.

Definition sources_inv (st : sources_st) : Prop :=
  (Forall source_ok (ss_out st) ∧ Z.of_nat (length (ss_out st)) <= MaxSourceStanzas) ∧
  0 <= PathsSkipped (ss_stats st) ∧ Forall entry_ok (ss_entries st).

Lemma is_member_path_ok p : is_member_path p = true ↔ validateMemberPath p = None.
Proof. unfold is_member_path. by destruct (validateMemberPath p). Qed.

Lemma usable_name e :
  unusable e = false →
  validHexSHA256 (ce_sha256 e) = true ∧ contains_byte slash (ce_filename e) = false ∧
  ce_filename e ≠ "" ∧ ce_filename e ≠ "." ∧ ce_filename e ≠ "..".
Proof.
  unfold unusable. intros H. bclean. split_and!; try done.
  match goal with Hs : string_existsb _ _ = false |- _ => revert Hs end. clear.
  unfold contains_byte. induction (ce_filename e) as [|c s IH]; cbn [string_existsb]; [done|].
  intros [Hc Hs]%orb_false_iff. rewrite IH, orb_false_r by done.
  apply Ascii.eqb_neq. intros <-. by vm_compute in Hc.
Qed.

Lemma flush_entries_ok pkg dir l out stats out' stats' :
  Forall entry_ok l → Forall source_ok out → Z.of_nat (length out) <= MaxSourceStanzas →
  0 <= PathsSkipped stats →
  flush_entries pkg dir (is_member_path dir) l out stats = Some (out', stats') →
  (Forall source_ok out' ∧ Z.of_nat (length out') <= MaxSourceStanzas) ∧ 0 <= PathsSkipped stats'.
Proof.
  revert out stats. induction l as [|e l IH]; intros out stats Hl Hout Hlen Hs H; cbn [flush_entries] in H.
  { by simplify_eq. }
  apply Forall_cons in Hl as [He Hl].
  destruct (unusable e) eqn:Hu; [by eauto|].
  destruct (negb (is_member_path dir) || _) eqn:Hp; [eapply IH; [..|exact H]; try done; cbn; lia|].
  destruct (MaxSourceStanzas <=? Z.of_nat (length out)) eqn:Hmax; [done|].
  apply IH in H; [done|done| |rewrite length_app; bclean; simpl; lia|done].
  apply Forall_app. split; [done|]. constructor; [|done].
  apply usable_name in Hu as (? & ? & ? & ? & ?). bclean.
  repeat match goal with Hm : is_member_path _ = true |- _ => apply is_member_path_ok in Hm end.
  unfold source_ok. cbn [sr_SHA256 sr_Path sr_Size]. split; [done|]. split; [done|]. split; [done|].
  by exists dir, (ce_filename e).
Qed.

Lemma sources_flush_inv st st' : sources_inv st → sources_flush st = Some st' → sources_inv st'.
Proof.
  intros ((Ho & Hl) & Hs & He) H. unfold sources_flush in H.
  assert (0 <= PathsSkipped (count_stanza (ss_open st) (ss_stats st))) as Hs'
    by (by destruct (ss_open st)).
  destruct (_ || _ || _); [by simplify_eq|].
  apply bind_Some in H as ([out stats] & Hf & [= <-]).
  destruct (flush_entries_ok _ _ _ _ _ _ _ He Ho Hl Hs' Hf) as [? ?].
  split; [done|]. split; [done|constructor].
Qed.

Lemma parseSourcesChecksumLine_ok line e : parseSourcesChecksumLine line = Some e → entry_ok e.
Proof.
  unfold parseSourcesChecksumLine, entry_ok. intros H. repeat case_match; try done.
  apply bind_Some in H as (n & Hn%ParseInt_range & H). destruct (n <? 0) eqn:E; [done|].
  simplify_eq. cbn. bclean. lia.
Qed.

Lemma sources_line_inv n line st st' :
  sources_inv st → sources_line n line st = Ok st' → sources_inv st'.
Proof.
  intros Hinv H. pose proof Hinv as (Ho & Hl & He). unfold sources_line in H.
  destruct line as [|c line].
  { destruct (sources_flush st) eqn:Hf; [|done]. simplify_eq. by eapply sources_flush_inv. }
  destruct (blank c).
  - destruct (negb (ss_inSha256 st)); [by simplify_eq|].
    destruct (parseSourcesChecksumLine _) as [e|] eqn:Hp; simplify_eq; [|done].
    split; [done|]. split; [done|]. apply Forall_app. split; [done|]. constructor; [|done].
    by eapply parseSourcesChecksumLine_ok.
  - destruct (cut_byte ":" (String c line)) as [[[|d f] v]|]; try done.
    injection H as <-. by repeat case_match.
Qed.

(** [ParseSources] vouches for nothing outside the archive: every reference
    it answers has a lower-case SHA-256, a non-negative int64 size and a path
    that names one file directly in the stanza's Directory, the Directory and
    the whole path both accepted by [validateMemberPath]; at most
    [MaxSourceStanzas] are answered; and a text in which every path was refused
    is an error, never an empty success. *)
Theorem ParseSources_sound text refs stats :
  ParseSources text = Ok (refs, stats) →
  Forall source_ok refs ∧ Z.of_nat (length refs) <= MaxSourceStanzas ∧
  (refs = [] → PathsSkipped stats = 0 ∧ TrimSpace text = "").
Proof.
  unfold ParseSources. destruct (scan_lines text) as [lines bad]. unfold mbind, result_bind.
  destruct (each_line sources_line 1 lines sources_init) as [st|] eqn:Hrun; [|done].
  apply (each_line_inv sources_line sources_inv) in Hrun;
    [|exact sources_line_inv|split; [split; [constructor|by vm_compute]|split; [by vm_compute|constructor]]].
  destruct bad; [done|]. destruct (sources_flush st) as [st'|] eqn:Hf; [|done].
  apply sources_flush_inv in Hf as ((Ho & Hl) & Hn & _); [|done].
  case_bool_decide as Hnone; cbn [andb].
  - destruct (0 <? PathsSkipped (ss_stats st')) eqn:Hs; [done|].
    destruct (0 <? len (TrimSpace text)) eqn:Ht; [done|]. intros [= <- <-].
    split_and!; [done|done|]. intros _. bclean. split; [lia|].
    destruct (TrimSpace text); [done|]. unfold len in Ht. simpl in Ht. lia.
  - intros [= <- <-]. split_and!; [done|done|]. intros Hr. by rewrite Hr in Hnone.
Qed.

Definition demo_sources : string :=
  join (String lf "")
    ["Package: hello"; "Directory: pool/main/h/hello"; "Checksums-Sha256:";
     " " +:+ demo_sha256 +:+ " 12 hello_1.dsc"; " " +:+ demo_sha256 +:+ " 12 ../evil";
     "Version: 1"; ""; "Package: bad"; "Directory: ../up"; "Checksums-Sha256:";
     " " +:+ demo_sha256 +:+ " 3 x.dsc"; ""].

Definition demo_source_refs : list SourceRef :=
  [{| sr_Path := "pool/main/h/hello/hello_1.dsc"; sr_SHA256 := demo_sha256; sr_Size := 12;
      PackageName := "hello" |}].

Lemma ParseSources_sound_witness :
  ParseSources demo_sources =
    Ok (demo_source_refs, {| StanzaCount := 2; PathsSkipped := 1; FirstSkipped := "../up/x.dsc" |})
  ∧ Forall source_ok demo_source_refs.
Proof.
  assert (ParseSources demo_sources =
    Ok (demo_source_refs, {| StanzaCount := 2; PathsSkipped := 1; FirstSkipped := "../up/x.dsc" |})) as H
    by (vm_compute; reflexivity).
  split; [exact H|]. exact (proj1 (ParseSources_sound _ _ _ H)).
Defined.

(** The patches of a pdiff index are bounded, and name plain patch files. *)
Definition patch_ok (p : PdiffPatchRef) : Prop :=
  validHexSHA256 (pd_SHA256 p) = true ∧ 0 <= pd_Size p < 2 ^ 63 ∧
  pdiffPatchFilenameRE (pd_Filename p) = true.

Lemma ParsePdiffIndex_ok text refs :
  ParsePdiffIndex text = Ok refs →
  Forall patch_ok refs ∧ Z.of_nat (length refs) <= MaxPdiffPatchEntries.
Proof.
  unfold ParsePdiffIndex. destruct (scan_lines text) as [lines bad]. unfold mbind, result_bind.
  destruct (each_line pdiff_line 1 lines _) as [st|] eqn:Hrun; [|done].
  apply (each_line_inv pdiff_line
    (λ st : pdiff_st, Forall patch_ok st.1 ∧ Z.of_nat (length st.1) <= MaxPdiffPatchEntries)) in Hrun.
  - destruct bad; [done|]. by intros [= <-].
  - clear. intros n line [out inb] st' [Hok Hlen] H. cbn [fst] in *. unfold pdiff_line in H.
    destruct line as [|c line]; [by simplify_eq|]. destruct (blank c).
    + destruct inb; cbn [negb] in H; [|by simplify_eq].
      destruct (parsePdiffDownloadLine (String c line)) as [r|] eqn:Hp; [|by simplify_eq].
      destruct (pdiffPatchFilenameRE (pd_Filename r)) eqn:Hre; cbn [negb] in H; [|by simplify_eq].
      destruct (MaxPdiffPatchEntries <=? _) eqn:Hm; [done|]. simplify_eq. cbn [fst].
      split; [|rewrite length_app; bclean; simpl; lia].
      apply Forall_app. split; [done|]. constructor; [|done].
      unfold parsePdiffDownloadLine in Hp. repeat case_match; try done.
      apply bind_Some in Hp as (z & Hz%ParseInt_range & Hp).
      destruct (z <? 0) eqn:Hn; [done|]. simplify_eq. unfold patch_ok. cbn [pd_SHA256 pd_Size pd_Filename] in *. bclean.
      split; [done|]. split; [lia|done].
    + destruct (cut_byte ":" (String c line)) as [[[|d f] v]|]; try done. by simplify_eq.
  - split; [constructor|by vm_compute].
Qed.
