(* ===== verification/PackageIndex.v ===== *)
(** * What an adoption vouches for (internal/freshness/adoption.go,
    the index classifiers and buildPackageHashes, buildSourceHashes,
    buildPdiffHashes, missingRequestableIndexGroups)

    The indexes of a Release are read from the blob pool and their declarations
    become the package_hash rows of the snapshot.  The pool's files and the
    decompressors are parameters: [pool h] is the content of blob [h], and
    [gunzip n b], [unxz n b] are the first [n] bytes of the decompressed [b]. *)
From S2P Require Import Prelude GoStrings AptPath GoText ReleaseParse PackagesParse SourcesParse Tables Snapshots.
Local Open Scope Z_scope.

(** ** The classifiers of a member path *)

Definition arch_byte (c : ascii) : bool := is_lower c || is_digit c.

(** [[a-z][a-z0-9]*] *)
Definition arch_name (s : string) : bool :=
  match s with EmptyString => false | String c t => is_lower c && string_forallb arch_byte t end.

(** An optional [.gz], [.xz] or [.bz2]. *)
Definition strip_known_ext (s : string) : string :=
  match find (λ e, has_suffix e s) [".gz"; ".xz"; ".bz2"] with
  | Some e => trim_suffix s e
  | None => s
  end.

(** Any one [.ext] of lower-case letters and digits. *)
Definition stem_ext (stem s : string) : bool :=
  match cut_prefix s stem with
  | Some EmptyString => true
  | Some (String "." e) => negb (e =? "")%string && string_forallb arch_byte e
  | _ => false
  end.

Definition rsegments (p : string) : list string := rev (split_byte slash p).

Definition binary_segment (s : string) : option string :=
  a ← cut_prefix s "binary-"; if arch_name a then Some a else None.

(** [binary-<arch>/] before an index of Packages *)
Definition archFilterBinaryRE (p : string) : option string :=
  match rsegments p with
  | last :: b :: rest =>
      if (strip_known_ext last =? "Packages")%string then binary_segment b
      else match rest with
      | c :: _ => if (last =? "Index")%string && (b =? "Packages.diff")%string
                  then binary_segment c else None
      | [] => None
      end
  | _ => None
  end.

Definition archFilterSourceRE (p : string) : bool :=
  match rsegments p with
  | last :: b :: rest =>
      ((strip_known_ext last =? "Sources")%string && (b =? "source")%string) ||
      match rest with
      | c :: _ => (last =? "Index")%string && (b =? "Sources.diff")%string && (c =? "source")%string
      | [] => false
      end
  | _ => false
  end.

Definition flatArchFilterSourceRE (p : string) : bool :=
  match split_byte slash p with
  | [s] => (strip_known_ext s =? "Sources")%string
  | [s; t] => (s =? "Sources.diff")%string && (t =? "Index")%string
  | _ => false
  end.

Definition checked_arch (s : string) : option string := if arch_name s then Some s else None.

(** Contents, command-not-found and AppStream files, by architecture. *)
Definition archFilterOptional (p : string) : option string :=
  match rsegments p with
  | [] => None
  | last :: rest =>
      let name := strip_known_ext last in
      let under d := match rest with s :: _ => (s =? d)%string | [] => false end in
      match cut_prefix name "Contents-" with
      | Some a =>
          match cut_prefix a "udeb-" with Some a' => checked_arch a' | None => checked_arch a end
      | None =>
          match cut_prefix name "Commands-" with
          | Some a => if under "cnf" then checked_arch a else None
          | None =>
              match cut_prefix name "Components-" with
              | Some a => if under "dep11" && has_suffix ".yml" a
                          then checked_arch (trim_suffix a ".yml") else None
              | None => None
              end
          end
      end
  end.

(** The architecture of a member the allowlist may drop. *)
Definition archFromFilteredPath (suitePath p : string) : option string :=
  let keep_all a := if (a =? "all")%string then None else Some a in
  if IsFlatSuitePath suitePath && flatArchFilterSourceRE p then Some "source"
  else match archFilterBinaryRE p with
  | Some a => keep_all a
  | None =>
      if archFilterSourceRE p then Some "source"
      else match archFilterOptional p with Some a => keep_all a | None => None end
  end.

Definition indexTargetRE (p : string) : bool :=
  match rsegments p with
  | last :: b :: rest =>
      (stem_ext "Packages" last && bool_decide (is_Some (binary_segment b))) ||
      (stem_ext "Sources" last && (b =? "source")%string) ||
      match rest with
      | c :: _ =>
          (last =? "Index")%string &&
          (((b =? "Packages.diff")%string && bool_decide (is_Some (binary_segment c))) ||
           ((b =? "Sources.diff")%string && (c =? "source")%string))
      | [] => false
      end
  | _ => false
  end.

Definition flatIndexTargetRE (p : string) : bool :=
  match split_byte slash p with
  | [s] => stem_ext "Packages" s || stem_ext "Sources" s
  | [s; t] => ((s =? "Packages.diff")%string || (s =? "Sources.diff")%string) && (t =? "Index")%string
  | _ => false
  end.

Definition isIndexTarget (suitePath p : string) : bool :=
  if IsFlatSuitePath suitePath then flatIndexTargetRE p else indexTargetRE p.

(** The index a variant belongs to, and its architecture. *)
Definition indexTargetGroup (suitePath p : string) : option (string * string) :=
  if IsFlatSuitePath suitePath then
    match split_byte slash p with
    | [s] => if stem_ext "Sources" s then Some ("Sources", "source")
             else if stem_ext "Packages" s then Some ("Packages", "all") else None
    | _ => None
    end
  else match rsegments p with
  | last :: b :: rest =>
      let group stem := join "/" (rev (stem :: b :: rest)) in
      if stem_ext "Packages" last then a ← binary_segment b; Some (group "Packages", a)
      else if stem_ext "Sources" last && (b =? "source")%string then Some (group "Sources", "source")
      else None
  | _ => None
  end.

(** The requestable indexes none of whose variants was fetched, in order. *)
Definition requestable (allowlist : option (gset string)) (arch : string) : bool :=
  (arch =? "all")%string ||
  match allowlist with Some s => bool_decide (arch ∈ s) | None => false end.

Definition groups_of (suitePath : string) (l : list ReleaseMember) (want : string → bool)
  : gset string :=
  list_to_set (omap (λ m, '(g, a) ← indexTargetGroup suitePath (Path m); if want a : bool then Some g else None) l).

Definition missingRequestableIndexGroups (suitePath : string) (declared fetched : list ReleaseMember)
    (allowlist : option (gset string)) : list string :=
  sort_by String.leb
    (elements (groups_of suitePath declared (requestable allowlist) ∖
               groups_of suitePath fetched (λ _, true))).

Definition isPackagesBasename (base : string) : bool :=
  (base =? "Packages")%string ||
  match cut_prefix base "Packages." with Some e => negb (e =? "")%string | None => false end.

Definition isPackagesMember (p : string) : bool :=
  let b := PathBase p in
  (b =? "Packages")%string || (b =? "Packages.gz")%string || (b =? "Packages.xz")%string.

Definition isSourcesMember (p : string) : bool :=
  let b := PathBase p in
  (b =? "Sources")%string || (b =? "Sources.gz")%string || (b =? "Sources.xz")%string.

Definition isPdiffIndexMember (p : string) : bool :=
  has_suffix "/Packages.diff/Index" p || has_suffix "/Sources.diff/Index" p.

Definition archFromPdiffIndexPath (p : string) : option string :=
  match archFilterBinaryRE p with
  | Some a => if has_suffix "/Packages.diff/Index" p then Some a
              else if archFilterSourceRE p && has_suffix "/Sources.diff/Index" p then Some "source" else None
  | None => if archFilterSourceRE p && has_suffix "/Sources.diff/Index" p then Some "source" else None
  end.

(** [suitePath[:strings.Index(suitePath, "/dists/")+1]] *)
Fixpoint repoRootFromSuitePath (s : string) : option string :=
  match s with
  | EmptyString => None
  | String c t => if has_prefix "/dists/" s then Some "/"
                  else r ← repoRootFromSuitePath t; Some (String c r)
  end.

(** ** The rows of a snapshot *)

Inductive index_error :=
| IndexRead (member : string)
| IndexParse (member : string) (e : packages_error)
| IndexConflict (path : string).

Section pool.
Context (pool : string → option string).
Context (gunzip unxz : Z → string → option string).

Definition maxDecompressedPackagesBytes : Z := 256 * 2 ^ 20.

Definition capped (body : string) : option string :=
  if maxDecompressedPackagesBytes <? len body then None else Some body.

Definition readPackagesBlob (memberPath blobHash : string) : option string :=
  f ← pool blobHash;
  if has_suffix ".gz" memberPath then gunzip (maxDecompressedPackagesBytes + 1) f ≫= capped
  else if has_suffix ".xz" memberPath then unxz (maxDecompressedPackagesBytes + 1) f ≫= capped
  else capped f.

(** *** Binary packages *)

Record debPathDecl := { dd_sha256 : string; dd_name : string; dd_arch : string; dd_version : string }.

Definition decl_of (r : PackageRef) : debPathDecl :=
  {| dd_sha256 := pr_SHA256 r; dd_name := PackagesParse.Package r; dd_arch := Architecture r; dd_version := Version r |}.

(** One declaration: a path already declared must agree on the hash and on
    every identity field both declare; a field still empty is filled in. *)
Definition add_ref (root : string) (r : PackageRef) (dedup : gmap string debPathDecl)
  : result index_error (gmap string debPathDecl) :=
  let path := root +:+ Filename r in
  match dedup !! path with
  | None => Ok (<[path := decl_of r]> dedup)
  | Some e =>
      if negb (dd_sha256 e =? pr_SHA256 r)%string then Err (IndexConflict path)
      else if identity_conflict (dd_name e) (PackagesParse.Package r) then Err (IndexConflict path)
      else if identity_conflict (dd_arch e) (Architecture r) then Err (IndexConflict path)
      else if identity_conflict (dd_version e) (Version r) then Err (IndexConflict path)
      else Ok (<[path := {| dd_sha256 := dd_sha256 e; dd_name := heal (dd_name e) (PackagesParse.Package r);
                            dd_arch := heal (dd_arch e) (Architecture r);
                            dd_version := heal (dd_version e) (Version r) |}]> dedup)
  end.

Record index_st := {
  ix_dedup : gmap string debPathDecl;
  ix_noSHA256 : gset string;
  ix_parseable : gset string;
}.

Definition index_init : index_st := {| ix_dedup := ∅; ix_noSHA256 := ∅; ix_parseable := ∅ |}.

(** A member of the suite's Packages indexes, in the given shape. *)
Definition packagesIndex (flat : bool) (shape : string → bool) (p : string) : bool :=
  shape p && (negb flat || negb (contains_byte slash p)).

Definition add_index (flat : bool) (root : string) (m : ReleaseMember) (st : index_st)
  : result index_error index_st :=
  if negb (packagesIndex flat isPackagesMember (Path m)) then Ok st
  else match readPackagesBlob (Path m) (SHA256 m) with
  | None => Err (IndexRead (Path m))
  | Some body =>
      match parsePackages body with
      | Err e => Err (IndexParse (Path m) e)
      | Ok (refs, gaps) =>
          dedup ← each (add_ref root) refs (ix_dedup st);
          Ok {| ix_dedup := dedup;
                ix_noSHA256 := list_to_set (map (λ f, root +:+ f) gaps) ∪ ix_noSHA256 st;
                ix_parseable := {[PathDir (Path m)]} ∪ ix_parseable st |}
      end
  end.

Definition incomplete (d : debPathDecl) : bool :=
  (dd_name d =? "")%string || (dd_arch d =? "")%string || (dd_version d =? "")%string.

Definition deb_row (flat : bool) (root : string) (k : SuiteKey) (id : Z) (e : string * debPathDecl)
  : PackageHash :=
  {| pkh_key := (key_scheme k, key_host k, e.1); pkh_declared := dd_sha256 e.2; pkh_id := id;
     pkh_name := dd_name e.2; pkh_arch := dd_arch e.2; pkh_version := dd_version e.2;
     pkh_flat := if flat then DotClean (match cut_prefix e.1 root with Some f => f | None => e.1 end)
                 else "" |}.

(** The directories that must be covered: those of every declared Packages*. *)
Definition pkg_dirs (flat : bool) (members : list ReleaseMember) : gset string :=
  list_to_set (map (λ m, PathDir (Path m))
    (List.filter (λ m, packagesIndex flat (λ p, isPackagesBasename (PathBase p)) (Path m)) members)).

Definition suite_root (suitePath : string) : option string :=
  if IsFlatSuitePath suitePath then Some (FlatBase suitePath +:+ "/") else repoRootFromSuitePath suitePath.

Definition buildPackageHashes (k : SuiteKey) (id : Z) (form : string)
    (allMembers fetchedMembers : list ReleaseMember) : result index_error (list PackageHash * bool) :=
  if (form =? FormUnsigned)%string then Ok ([], false)
  else match suite_root (key_path k) with
  | None => Ok ([], false)
  | Some root =>
      let flat := IsFlatSuitePath (key_path k) in
      st ← each (add_index flat root) fetchedMembers index_init;
      let decls := map_to_list (ix_dedup st) in
      let complete := List.filter (λ e, negb (incomplete e.2)) decls in
      let skipped := List.filter (λ e, incomplete e.2) decls in
      let dirs := pkg_dirs flat allMembers in
      Ok (map (deb_row flat root k id) complete,
          negb (bool_decide (dirs = ∅)) && bool_decide (dirs ⊆ ix_parseable st) &&
          bool_decide (ix_noSHA256 st = ∅) &&
          (bool_decide (skipped = []) || negb (bool_decide (complete = []))))
  end.

(** *** Sources: best effort, never a guess *)

Record sourcePathDecl := { sd_sha256 : string; sd_package : string }.

Record source_st := {
  sx_dedup : gmap string sourcePathDecl;
  sx_conflicted : gset string;
  sx_parsed : Z;
}.

Definition add_source_ref (root : string) (st : source_st) (r : SourceRef) : source_st :=
  let path := root +:+ sr_Path r in
  match sx_dedup st !! path with
  | None => {| sx_dedup := <[path := {| sd_sha256 := sr_SHA256 r; sd_package := PackageName r |}]> (sx_dedup st);
               sx_conflicted := sx_conflicted st; sx_parsed := sx_parsed st |}
  | Some e =>
      if negb (sd_sha256 e =? sr_SHA256 r)%string then
        {| sx_dedup := sx_dedup st; sx_conflicted := {[path]} ∪ sx_conflicted st; sx_parsed := sx_parsed st |}
      else if identity_conflict (sd_package e) (PackageName r) then st
      else if (sd_package e =? "")%string then
        {| sx_dedup := <[path := {| sd_sha256 := sd_sha256 e; sd_package := PackageName r |}]> (sx_dedup st);
           sx_conflicted := sx_conflicted st; sx_parsed := sx_parsed st |}
      else st
  end.

(** An unreadable or unparseable Sources is left out. *)
Definition add_sources (root : string) (st : source_st) (m : ReleaseMember) : source_st :=
  if negb (isSourcesMember (Path m)) then st
  else match readPackagesBlob (Path m) (SHA256 m) with
  | None => st
  | Some body =>
      match ParseSources body with
      | Err _ => st
      | Ok (refs, _) =>
          foldl (add_source_ref root)
            {| sx_dedup := sx_dedup st; sx_conflicted := sx_conflicted st; sx_parsed := sx_parsed st + 1 |} refs
      end
  end.

Definition source_row (k : SuiteKey) (id : Z) (e : string * sourcePathDecl) : PackageHash :=
  {| pkh_key := (key_scheme k, key_host k, e.1); pkh_declared := sd_sha256 e.2; pkh_id := id;
     pkh_name := sd_package e.2; pkh_arch := "source"; pkh_version := ""; pkh_flat := "" |}.

Definition source_init : source_st := {| sx_dedup := ∅; sx_conflicted := ∅; sx_parsed := 0 |}.

Definition buildSourceHashes (k : SuiteKey) (id : Z) (fetchedMembers : list ReleaseMember)
  : list PackageHash * Z :=
  match repoRootFromSuitePath (key_path k) with
  | None => ([], 0)
  | Some root =>
      let st := foldl (add_sources root) source_init fetchedMembers in
      (map (source_row k id)
         (List.filter (λ e, negb (bool_decide (e.1 ∈ sx_conflicted st))) (map_to_list (sx_dedup st))),
       sx_parsed st)
  end.

(** *** pdiff patches *)

Record pdiffPathDecl := { pp_sha256 : string; pp_arch : string }.

Definition add_patch (base arch : string) (r : PdiffPatchRef) (dedup : gmap string pdiffPathDecl)
  : result index_error (gmap string pdiffPathDecl) :=
  let path := base +:+ "/" +:+ pd_Filename r in
  match dedup !! path with
  | Some e => if negb (pp_sha256 e =? pd_SHA256 r)%string then Err (IndexConflict path) else Ok dedup
  | None => Ok (<[path := {| pp_sha256 := pd_SHA256 r; pp_arch := arch |}]> dedup)
  end.

Definition add_pdiff (root : string) (m : ReleaseMember) (st : gmap string pdiffPathDecl * Z)
  : result index_error (gmap string pdiffPathDecl * Z) :=
  if negb (isPdiffIndexMember (Path m)) then Ok st
  else match archFromPdiffIndexPath (Path m) with
  | None => Ok st
  | Some arch =>
      match readPackagesBlob (Path m) (SHA256 m) with
      | None => Ok st
      | Some body =>
          match ParsePdiffIndex body with
          | Err _ => Ok st
          | Ok refs =>
              dedup ← each (add_patch (root +:+ PathDir (Path m)) arch) refs st.1;
              Ok (dedup, st.2 + 1)
          end
      end
  end.

Definition pdiff_row (k : SuiteKey) (id : Z) (e : string * pdiffPathDecl) : PackageHash :=
  {| pkh_key := (key_scheme k, key_host k, e.1); pkh_declared := pp_sha256 e.2; pkh_id := id;
     pkh_name := ""; pkh_arch := pp_arch e.2; pkh_version := ""; pkh_flat := "" |}.

Definition buildPdiffHashes (k : SuiteKey) (id : Z) (fetchedMembers : list ReleaseMember)
  : result index_error (list PackageHash * Z) :=
  match repoRootFromSuitePath (key_path k) with
  | None => Ok ([], 0)
  | Some root =>
      st ← each (add_pdiff root) fetchedMembers (∅, 0);
      Ok (map (pdiff_row k id) (map_to_list st.1), st.2)
  end.
End pool.

(** ** What the rows say *)
Section package_laws.
Context (pool : string → option string).
Context (gunzip unxz : Z → string → option string).

(** What one fetched member declares, when it is a Packages index. *)
Definition member_says (flat : bool) (m : ReleaseMember) : list PackageRef * list string :=
  if packagesIndex flat isPackagesMember (Path m) then
    match readPackagesBlob pool gunzip unxz (Path m) (SHA256 m) ≫=
          λ body, match parsePackages body with Ok r => Some r | Err _ => None end with
    | Some r => r
    | None => ([], [])
    end
  else ([], []).

Definition all_refs (flat : bool) (l : list ReleaseMember) : list PackageRef :=
  concat (map (λ m, (member_says flat m).1) l).
Definition all_gaps (flat : bool) (l : list ReleaseMember) : list string :=
  concat (map (λ m, (member_says flat m).2) l).
Definition parseable_dirs (flat : bool) (l : list ReleaseMember) : gset string :=
  list_to_set (map (λ m, PathDir (Path m))
    (List.filter (λ m, packagesIndex flat isPackagesMember (Path m)) l)).

(** The value the declarations of a path give one identity field: the empty
    string when none gives it, else the only value given. *)
Definition field_says (at_path : PackageRef → Prop) (f : PackageRef → string) (v : string)
    (rs : list PackageRef) : Prop :=
  (∀ r, r ∈ rs → at_path r → f r = "" ∨ f r = v) ∧
  (v = "" ∨ ∃ r, r ∈ rs ∧ at_path r ∧ f r = v).

(** [e] is what the declarations [rs] say of the path [p], without dissent. *)
Record speaks (root : string) (rs : list PackageRef) (p : string) (e : debPathDecl) : Prop := {
  sp_declared : ∃ r, r ∈ rs ∧ root +:+ Filename r = p;
  sp_hash : ∀ r, r ∈ rs → root +:+ Filename r = p → pr_SHA256 r = dd_sha256 e;
  sp_name : field_says (λ r, root +:+ Filename r = p) PackagesParse.Package (dd_name e) rs;
  sp_arch : field_says (λ r, root +:+ Filename r = p) Architecture (dd_arch e) rs;
  sp_version : field_says (λ r, root +:+ Filename r = p) Version (dd_version e) rs;
}.

Definition dedup_ok (root : string) (rs : list PackageRef) (d : gmap string debPathDecl) : Prop :=
  ∀ p, match d !! p with
       | None => ∀ r, r ∈ rs → root +:+ Filename r ≠ p
       | Some e => speaks root rs p e
       end.

Lemma field_says_heal P f v rs r :
  field_says P f v rs → identity_conflict v (f r) = false → P r →
  field_says P f (heal v (f r)) (rs ++ [r]).
Proof.
  intros [Hall Hfrom] Hc HP. unfold field_says, heal. setoid_rewrite elem_of_app.
  setoid_rewrite list_elem_of_singleton. unfold identity_conflict in Hc.
  destruct (String.eqb_spec v "") as [->|Hv].
  - split; [|destruct (decide (f r = "")); [by left|right; naive_solver]].
    intros r' [Hr| ->] HPr; [|by right]. left. destruct (Hall r' Hr HPr); congruence.
  - split; [|destruct Hfrom as [?|(r' & ? & ? & ?)]; [done|right; exists r'; naive_solver]].
    intros r' [Hr| ->] HPr; [by apply Hall|].
    destruct (String.eqb_spec (f r) "") as [?|Hf]; [by left|right].
    cbn in Hc. apply negb_false_iff, String.eqb_eq in Hc. done.
Qed.

Lemma field_says_new P f rs r :
  (∀ r', r' ∈ rs → ¬ P r') → P r → field_says P f (f r) (rs ++ [r]).
Proof.
  intros Hno HP. split.
  - intros r' [Hr| ->%list_elem_of_singleton]%elem_of_app HPr; [by destruct (Hno r')|by right].
  - right. exists r. split; [|done]. apply elem_of_app. right. by apply list_elem_of_singleton.
Qed.

Lemma field_says_other P f v rs r : ¬ P r → field_says P f v rs → field_says P f v (rs ++ [r]).
Proof.
  intros HP [Hall Hfrom]. split.
  - intros r' [Hr| ->%list_elem_of_singleton]%elem_of_app HPr; [by apply Hall|done].
  - destruct Hfrom as [->|(r' & ? & ? & ?)]; [by left|right].
    exists r'. split; [|done]. apply elem_of_app. by left.
Qed.

Lemma speaks_new root rs r :
  (∀ r', r' ∈ rs → root +:+ Filename r' ≠ root +:+ Filename r) →
  speaks root (rs ++ [r]) (root +:+ Filename r) (decl_of r).
Proof.
  intros Hno. constructor; try (by apply field_says_new).
  - exists r. split; [|done]. apply elem_of_app. right. by apply list_elem_of_singleton.
  - intros r' [Hr| ->%list_elem_of_singleton]%elem_of_app Hp; [by destruct (Hno r')|done].
Qed.

Lemma speaks_other root rs p e r :
  root +:+ Filename r ≠ p → speaks root rs p e → speaks root (rs ++ [r]) p e.
Proof.
  intros Hne [(r0 & Hr0 & Hp0) Hh Hn Ha Hv]. constructor; try (by apply field_says_other).
  - exists r0. split; [|done]. apply elem_of_app. by left.
  - intros r' [Hr| ->%list_elem_of_singleton]%elem_of_app Hp; [by apply Hh|done].
Qed.

Lemma add_ref_ok root rs r d d' :
  dedup_ok root rs d → add_ref root r d = Ok d' → dedup_ok root (rs ++ [r]) d'.
Proof.
  intros Hok Hadd p. pose proof (Hok (root +:+ Filename r)) as Hr. unfold add_ref in Hadd.
  assert (∀ v, d' = <[root +:+ Filename r := v]> d →
    speaks root (rs ++ [r]) (root +:+ Filename r) v →
    match d' !! p with
    | None => ∀ r', r' ∈ rs ++ [r] → root +:+ Filename r' ≠ p
    | Some e => speaks root (rs ++ [r]) p e
    end) as Hins.
  { intros v -> Hv. destruct (decide (root +:+ Filename r = p)) as [<-|Hne].
    { by rewrite lookup_insert_eq. }
    rewrite lookup_insert_ne by done. specialize (Hok p). destruct (d !! p).
    - by apply speaks_other.
    - intros r' [?| ->%list_elem_of_singleton]%elem_of_app; [by apply Hok|done]. }
  destruct (d !! (root +:+ Filename r)) as [e|]; [|injection Hadd as <-; eapply Hins; [done|by apply speaks_new]].
  destruct Hr as [(r0 & Hr0 & Hp0) Hh Hn Ha Hv].
  destruct (dd_sha256 e =? pr_SHA256 r)%string eqn:Eh; cbn [negb] in Hadd; [|done].
  destruct (identity_conflict (dd_name e) _) eqn:En; [done|].
  destruct (identity_conflict (dd_arch e) _) eqn:Ea; [done|].
  destruct (identity_conflict (dd_version e) _) eqn:Ev; [done|].
  injection Hadd as <-. eapply Hins; [done|]. apply String.eqb_eq in Eh.
  constructor; cbn; try (by apply field_says_heal).
  - exists r0. split; [|done]. apply elem_of_app. by left.
  - intros r' [?| ->%list_elem_of_singleton]%elem_of_app Hp; [by apply Hh|done].
Qed.

Lemma add_refs_ok root rs l d d' :
  dedup_ok root rs d → each (add_ref root) l d = Ok d' → dedup_ok root (rs ++ l) d'.
Proof.
  intros Hok. apply (each_inv (add_ref root) (λ done d, dedup_ok root (rs ++ done) d)).
  - intros done r d1 d2. rewrite app_assoc. apply add_ref_ok.
  - by rewrite app_nil_r.
Qed.

(** What the state of the walk holds of the members it went through. *)
Record index_ok (flat : bool) (root : string) (l : list ReleaseMember) (st : index_st) : Prop := {
  io_dedup : dedup_ok root (all_refs flat l) (ix_dedup st);
  io_gaps : ix_noSHA256 st = list_to_set (map (λ f, root +:+ f) (all_gaps flat l));
  io_dirs : ix_parseable st = parseable_dirs flat l;
}.

Lemma concat_snoc {A B} (f : A → list B) l x : concat (map f (l ++ [x])) = concat (map f l) ++ f x.
Proof. rewrite map_app, concat_app. simpl. by rewrite app_nil_r. Qed.

Lemma add_index_ok flat root l m st st' :
  index_ok flat root l st → add_index pool gunzip unxz flat root m st = Ok st' →
  index_ok flat root (l ++ [m]) st'.
Proof.
  intros [Hd Hg Hp] H. unfold add_index in H.
  assert (all_refs flat (l ++ [m]) = all_refs flat l ++ (member_says flat m).1) as Er
    by exact (concat_snoc (λ m, (member_says flat m).1) l m).
  assert (all_gaps flat (l ++ [m]) = all_gaps flat l ++ (member_says flat m).2) as Eg
    by exact (concat_snoc (λ m, (member_says flat m).2) l m).
  assert (parseable_dirs flat (l ++ [m]) =
    (if packagesIndex flat isPackagesMember (Path m) then {[PathDir (Path m)]} else ∅) ∪ parseable_dirs flat l) as Ep.
  { unfold parseable_dirs. rewrite List.filter_app, map_app, list_to_set_app_L. simpl.
    destruct (packagesIndex _ _ _); simpl; [|by rewrite union_empty_l_L, union_empty_r_L].
    by rewrite union_empty_r_L, union_comm_L. }
  unfold member_says in Er, Eg.
  destruct (packagesIndex flat isPackagesMember (Path m)); cbn [negb] in H.
  2:{ injection H as <-. rewrite app_nil_r in Er, Eg.
      constructor; rewrite ?Er, ?Eg, ?Ep, ?union_empty_l_L; done. }
  destruct (readPackagesBlob _ _ _ (Path m) (SHA256 m)) as [body|]; [|done].
  destruct (parsePackages body) as [[refs gaps]|e] eqn:Hparse; [|done].
  cbn [mbind option_bind] in Er, Eg. rewrite Hparse in Er, Eg. cbn [fst snd] in Er, Eg.
  unfold mbind, result_bind in H.
  destruct (each (add_ref root) refs (ix_dedup st)) as [d|e] eqn:He; [|done].
  injection H as <-. constructor; cbn [ix_dedup ix_noSHA256 ix_parseable]; rewrite ?Er, ?Eg, ?Ep.
  - by eapply add_refs_ok.
  - rewrite map_app, list_to_set_app_L, Hg. by rewrite union_comm_L.
  - by rewrite Hp.
Qed.

Lemma index_run flat root l st :
  each (add_index pool gunzip unxz flat root) l index_init = Ok st → index_ok flat root l st.
Proof.
  apply (each_inv (add_index pool gunzip unxz flat root) (index_ok flat root)).
  - intros done m s s'. apply add_index_ok.
  - constructor; [|done..]. intros p. cbn. rewrite lookup_empty. by intros r ?%elem_of_nil.
Qed.

Lemma speaks_unique root rs p e1 e2 : speaks root rs p e1 → speaks root rs p e2 → e1 = e2.
Proof.
  intros [(r & Hr & Hp) Hh1 Hn1 Ha1 Hv1] [_ Hh2 Hn2 Ha2 Hv2].
  assert (∀ f v1 v2, field_says (λ r, root +:+ Filename r = p) f v1 rs →
    field_says (λ r, root +:+ Filename r = p) f v2 rs → v1 = v2) as Hf.
  { intros f v1 v2 [H1 F1] [H2 F2].
    destruct F1 as [->|(r1 & ? & ? & <-)], F2 as [->|(r2 & ? & ? & <-)]; [done| | |].
    - by destruct (H1 r2).
    - destruct (H2 r1); congruence.
    - destruct (H1 r2), (H2 r1); congruence. }
  pose proof (Hh1 r Hr Hp). pose proof (Hh2 r Hr Hp). destruct e1, e2; simpl in *. f_equal; eauto.
  congruence.
Qed.

Lemma dedup_lookup root rs d p e : dedup_ok root rs d → (d !! p = Some e ↔ speaks root rs p e).
Proof.
  intros Hok. specialize (Hok p). split.
  - intros H. by rewrite H in Hok.
  - intros Hs. destruct (d !! p) as [e'|]; [f_equal; by eapply speaks_unique|].
    destruct (sp_declared _ _ _ _ Hs) as (r & Hr & Hp). by destruct (Hok r Hr).
Qed.

(** The rows stand at distinct paths. *)
Lemma map_to_list_filter_keys {A} (m : gmap string A) (f : string * A → bool) :
  NoDup (map fst (List.filter f (map_to_list m))).
Proof.
  pose proof (NoDup_fst_map_to_list m) as H.
  induction (map_to_list m) as [|x l IH]; [constructor|].
  simpl in *. apply NoDup_cons in H as [Hx H].
  destruct (f x); [|by apply IH]. simpl. apply NoDup_cons. split; [|by apply IH].
  intros (y & Hy & Hin)%list_elem_of_In%in_map_iff. apply Hx.
  apply list_elem_of_fmap. exists y. split; [done|].
  apply filter_In in Hin as [Hin _]. by apply list_elem_of_In.
Qed.

(** C26. The .deb hashes an adoption vouches for are exactly what the fetched
    Packages indexes say without dissent: there is a row for a path if and only
    if some fetched index declares it and between them the indexes give its
    package, architecture and version; the row's SHA-256 is the one every
    declaration of the path has, its identity the only one declared; no path
    has two rows. Coverage is claimed exactly when the Release declares a
    Packages index, every directory that has one contributed a parsed variant,
    no stanza named a file without a SHA-256, and the stanzas without a full
    identity are not all there is. *)
Theorem buildPackageHashes_vouches k id form allMembers fetchedMembers root rows coverage :
  form ≠ FormUnsigned → suite_root (key_path k) = Some root →
  buildPackageHashes pool gunzip unxz k id form allMembers fetchedMembers = Ok (rows, coverage) →
  let flat := IsFlatSuitePath (key_path k) in
  let refs := all_refs flat fetchedMembers in
  (∀ row, row ∈ rows ↔
     ∃ p e, speaks root refs p e ∧ incomplete e = false ∧ row = deb_row flat root k id (p, e)) ∧
  NoDup (map pkh_key rows) ∧
  (coverage = true ↔
     pkg_dirs flat allMembers ≠ ∅ ∧
     pkg_dirs flat allMembers ⊆ parseable_dirs flat fetchedMembers ∧
     all_gaps flat fetchedMembers = [] ∧
     ((∀ p e, speaks root refs p e → incomplete e = false) ∨ rows ≠ [])).
Proof.
  intros Hform Hroot H flat refs. unfold buildPackageHashes in H.
  apply String.eqb_neq in Hform. rewrite Hform, Hroot in H. fold flat in H.
  unfold mbind, result_bind in H. destruct (each _ fetchedMembers index_init) as [st|] eqn:Hst; [|done].
  apply index_run in Hst as [Hd Hg Hp]. fold refs in Hd. injection H as <- <-.
  assert (∀ p e, (p, e) ∈ map_to_list (ix_dedup st) ↔ speaks root refs p e) as Hlist.
  { intros p e. rewrite elem_of_map_to_list. by apply dedup_lookup. }
  assert (∀ (f : string * debPathDecl → bool) x, x ∈ List.filter f (map_to_list (ix_dedup st)) ↔
    speaks root refs x.1 x.2 ∧ f x = true) as Hfilter.
  { intros f [p e]. by rewrite list_elem_of_In, filter_In, <-list_elem_of_In, Hlist. }
  split_and!.
  - intros row. rewrite list_elem_of_In, in_map_iff. setoid_rewrite <-list_elem_of_In.
    setoid_rewrite Hfilter. split.
    + intros ([p e] & <- & Hs & Hi). exists p, e. by apply negb_true_iff in Hi.
    + intros (p & e & Hs & Hi & ->). exists (p, e). cbn [fst snd]. by rewrite Hi.
  - assert (∀ l, map pkh_key (map (deb_row flat root k id) l) =
      map (λ p, (key_scheme k, key_host k, p)) (map fst l)) as -> by (intros; by rewrite !map_map).
    apply (NoDup_fmap_2 (λ p, (key_scheme k, key_host k, p))). apply map_to_list_filter_keys.
  - rewrite !andb_true_iff, orb_true_iff, !negb_true_iff, !bool_decide_eq_true, !bool_decide_eq_false.
    rewrite Hp, Hg.
    assert ((list_to_set (map (λ f, root +:+ f) (all_gaps flat fetchedMembers)) : gset string) = ∅
      ↔ all_gaps flat fetchedMembers = []) as Hgaps.
    { split; [|by intros ->]. destruct (all_gaps flat fetchedMembers); [done|]. simpl. set_solver. }
    rewrite Hgaps.
    assert (List.filter (λ e, incomplete e.2) (map_to_list (ix_dedup st)) = [] ↔
      ∀ p e, speaks root refs p e → incomplete e = false) as Hskip.
    { split.
      - intros Hnil p e Hs. destruct (incomplete e) eqn:Hi; [|done].
        assert ((p, e) ∈ List.filter (λ e, incomplete e.2) (map_to_list (ix_dedup st))) as Hin
          by by apply Hfilter.
        rewrite Hnil in Hin. by apply elem_of_nil in Hin.
      - intros Hall. destruct (List.filter _ _) as [|x l] eqn:Hf; [done|].
        assert (x ∈ x :: l) as Hx by by left. rewrite <-Hf in Hx. apply Hfilter in Hx as [Hs Hi].
        by rewrite (Hall _ _ Hs) in Hi. }
    rewrite Hskip.
    assert (List.filter (λ e, negb (incomplete e.2)) (map_to_list (ix_dedup st)) ≠ [] ↔
      map (deb_row flat root k id) (List.filter (λ e, negb (incomplete e.2)) (map_to_list (ix_dedup st))) ≠ [])
      as Hne by (destruct (List.filter (λ e, negb (incomplete e.2)) _); split; done).
    rewrite Hne. tauto.
Qed.
End package_laws.

(** ** Source artifacts *)
Section source_laws.
Context (pool : string → option string).
Context (gunzip unxz : Z → string → option string).

(** What the readable, well-formed Sources among the members declare. *)
Definition sources_say (m : ReleaseMember) : list SourceRef :=
  if isSourcesMember (Path m) then
    match readPackagesBlob pool gunzip unxz (Path m) (SHA256 m) with
    | Some body => match ParseSources body with Ok (refs, _) => refs | Err _ => [] end
    | None => []
    end
  else [].

Definition all_source_refs (l : list ReleaseMember) : list SourceRef := concat (map sources_say l).

(** Every declaration of [p] in [rs] has the hash [h]. *)
Definition agreed (root : string) (rs : list SourceRef) (p h : string) : Prop :=
  ∀ r, r ∈ rs → root +:+ sr_Path r = p → sr_SHA256 r = h.

Record sources_ok (root : string) (rs : list SourceRef) (st : source_st) : Prop := {
  so_none : ∀ p, sx_dedup st !! p = None → ∀ r, r ∈ rs → root +:+ sr_Path r ≠ p;
  so_some : ∀ p e, sx_dedup st !! p = Some e →
    (∃ r, r ∈ rs ∧ root +:+ sr_Path r = p ∧ sr_SHA256 r = sd_sha256 e) ∧
    (p ∉ sx_conflicted st → agreed root rs p (sd_sha256 e)) ∧
    (p ∈ sx_conflicted st → ¬ agreed root rs p (sd_sha256 e));
}.

Lemma agreed_app root rs r p h :
  agreed root (rs ++ [r]) p h ↔ agreed root rs p h ∧ (root +:+ sr_Path r = p → sr_SHA256 r = h).
Proof.
  unfold agreed. setoid_rewrite elem_of_app. setoid_rewrite list_elem_of_singleton.
  split; [intros H; split; naive_solver|]. intros [H1 H2] r' [?| ->]; auto.
Qed.

(** A state that changes nothing but the entry of the declared path, whose hash
    stays, and reports that path as conflicted exactly when this one dissents. *)
Lemma sources_ok_step root rs r st st' e :
  sources_ok root rs st →
  sx_dedup st' !! (root +:+ sr_Path r) = Some e →
  (∀ p, p ≠ root +:+ sr_Path r → sx_dedup st' !! p = sx_dedup st !! p) →
  match sx_dedup st !! (root +:+ sr_Path r) with
  | Some e0 => sd_sha256 e = sd_sha256 e0
  | None => sd_sha256 e = sr_SHA256 r
  end →
  (∀ p, p ∈ sx_conflicted st' ↔
     p ∈ sx_conflicted st ∨ p = root +:+ sr_Path r ∧ sr_SHA256 r ≠ sd_sha256 e) →
  (∀ p, p ∈ sx_conflicted st → is_Some (sx_dedup st !! p)) →
  sources_ok root (rs ++ [r]) st'.
Proof.
  intros [Hnone Hsome] He Hother Hold Hconf Hin. constructor.
  - intros p Hp r' [Hr| ->%list_elem_of_singleton]%elem_of_app Heq.
    + destruct (decide (p = root +:+ sr_Path r)) as [->|Hne]; [congruence|].
      rewrite Hother in Hp by done. by apply (Hnone p Hp r').
    + congruence.
  - intros p e' Hp. setoid_rewrite elem_of_app. setoid_rewrite list_elem_of_singleton.
    rewrite agreed_app. destruct (decide (p = root +:+ sr_Path r)) as [->|Hne].
    + rewrite He in Hp. injection Hp as <-. destruct (sx_dedup st !! (root +:+ sr_Path r)) as [e0|] eqn:E0.
      * destruct (Hsome _ _ E0) as ((r0 & Hr0 & Hp0 & Hh0) & Hno & Hyes). rewrite <-Hold in *.
        split; [exists r0; by split_and!; [left|..]|]. rewrite Hconf. split.
        -- intros Hn. split; [apply Hno; tauto|]. intros _.
           destruct (decide (sr_SHA256 r = sd_sha256 e)) as [|Hd]; [done|].
           destruct Hn. by right.
        -- intros [Hc|[_ Hd]] [Ha Hb]; [by apply (Hyes Hc)|by apply Hd, Hb].
      * split; [exists r; by split_and!; [right|..]|]. rewrite Hconf. split.
        -- intros _. split; [|done]. intros r' Hr' Hp'. by destruct (Hnone _ E0 r').
        -- intros [Hc|[_ Hd]] _; [|by destruct Hd]. apply Hin in Hc as [? ?]. congruence.
    + rewrite Hother in Hp by done. destruct (Hsome _ _ Hp) as ((r0 & Hr0 & Hp0 & Hh0) & Hno & Hyes).
      split; [exists r0; by split_and!; [left|..]|]. rewrite Hconf. split.
      * intros Hn. split; [apply Hno; tauto|]. intros Heq. congruence.
      * intros [Hc|[Heq _]] [Ha _]; [by apply (Hyes Hc)|congruence].
Qed.

Definition source_inv (root : string) (rs : list SourceRef) (st : source_st) : Prop :=
  sources_ok root rs st ∧ ∀ p, p ∈ sx_conflicted st → is_Some (sx_dedup st !! p).

Lemma add_source_ref_ok root rs st r :
  source_inv root rs st → source_inv root (rs ++ [r]) (add_source_ref root st r).
Proof.
  intros [Hok Hin]. unfold add_source_ref. set (q := root +:+ sr_Path r).
  destruct (sx_dedup st !! q) as [e|] eqn:Hq.
  - destruct (sd_sha256 e =? sr_SHA256 r)%string eqn:Hh; cbn [negb].
    + apply String.eqb_eq in Hh.
      assert (∀ p, p ∈ sx_conflicted st ↔ p ∈ sx_conflicted st ∨ p = q ∧ sr_SHA256 r ≠ sd_sha256 e)
        as Hsame by (intros p; split; [by left|intros [?|[_ Hd]]; [done|by destruct Hd]]).
      destruct (identity_conflict (sd_package e) (PackageName r)).
      { split; [|done]. eapply (sources_ok_step root rs r st st e); try done; fold q; by rewrite Hq. }
      destruct (sd_package e =? "")%string.
      * split.
        -- eapply (sources_ok_step root rs r st _ {| sd_sha256 := sd_sha256 e; sd_package := PackageName r |});
             cbn [sx_dedup sx_conflicted sd_sha256]; try done; fold q.
           ++ by rewrite lookup_insert_eq.
           ++ intros p Hp. by rewrite lookup_insert_ne.
           ++ by rewrite Hq.
        -- intros p Hp. cbn in *. destruct (decide (p = q)) as [->|]; [by rewrite lookup_insert_eq|].
           rewrite lookup_insert_ne by done. by apply Hin.
      * split; [|done]. eapply (sources_ok_step root rs r st st e); try done; fold q; by rewrite Hq.
    + apply String.eqb_neq in Hh. split.
      * eapply (sources_ok_step root rs r st _ e); cbn [sx_dedup sx_conflicted]; try done; fold q; [by rewrite Hq|].
        intros p. rewrite elem_of_union, elem_of_singleton. split; [|tauto].
        intros [->|?]; [right|left]; [split; [done|congruence]|done].
      * intros p. cbn. rewrite elem_of_union, elem_of_singleton. intros [->|?]; [by rewrite Hq|by apply Hin].
  - split.
    + eapply (sources_ok_step root rs r st _ {| sd_sha256 := sr_SHA256 r; sd_package := PackageName r |});
        cbn [sx_dedup sx_conflicted sd_sha256]; try done; fold q.
      * by rewrite lookup_insert_eq.
      * intros p Hp. by rewrite lookup_insert_ne.
      * by rewrite Hq.
      * intros p. split; [by left|]. intros [?|[_ Hd]]; [done|by destruct Hd].
    + intros p Hp. cbn in *. destruct (decide (p = q)) as [->|]; [by rewrite lookup_insert_eq|].
      rewrite lookup_insert_ne by done. by apply Hin.
Qed.

Lemma add_sources_ok root l m st :
  source_inv root (all_source_refs l) st →
  source_inv root (all_source_refs (l ++ [m])) (add_sources pool gunzip unxz root st m).
Proof.
  intros Hinv. unfold all_source_refs, add_sources. rewrite concat_snoc.
  assert (source_inv root (concat (map sources_say l) ++ []) st) as H0 by (by rewrite app_nil_r).
  unfold sources_say at 2. destruct (isSourcesMember (Path m)); cbn [negb]; [|done].
  destruct (readPackagesBlob _ _ _ _ _) as [body|]; [|done].
  destruct (ParseSources body) as [[refs stats]|]; [|done].
  apply (foldl_inv (add_source_ref root)
           (λ done st, source_inv root (concat (map sources_say l) ++ done) st)).
  - intros done r s. rewrite app_assoc. apply add_source_ref_ok.
  - rewrite app_nil_r. destruct Hinv as [[Hn Hs] Hi]. by split.
Qed.

Lemma sources_run root l :
  source_inv root (all_source_refs l) (foldl (add_sources pool gunzip unxz root) source_init l).
Proof.
  apply (foldl_inv (add_sources pool gunzip unxz root) (λ done, source_inv root (all_source_refs done))).
  - intros done m s. apply add_sources_ok.
  - split; [|by intros p ?%elem_of_empty]. constructor.
    + by intros p _ r ?%elem_of_nil.
    + intros p e. cbn. by rewrite lookup_empty.
Qed.

(** Source artifacts are never vouched for by guess: a path has a row with
    hash [h] exactly when some readable Sources declares it and all that do
    declare [h]; a path they disagree about has none, whatever the order they
    are read in; the rows are of architecture "source" and no path has two. *)
Theorem buildSourceHashes_agreed k id members root rows parsed :
  repoRootFromSuitePath (key_path k) = Some root →
  buildSourceHashes pool gunzip unxz k id members = (rows, parsed) →
  (∀ p h,
     (∃ row, row ∈ rows ∧ pkh_key row = (key_scheme k, key_host k, p) ∧ pkh_declared row = h) ↔
     (∃ r, r ∈ all_source_refs members ∧ root +:+ sr_Path r = p) ∧
     agreed root (all_source_refs members) p h) ∧
  Forall (λ row, pkh_arch row = "source" ∧ pkh_id row = id) rows ∧
  NoDup (map pkh_key rows).
Proof.
  intros Hroot H. unfold buildSourceHashes in H. rewrite Hroot in H. injection H as <- <-.
  destruct (sources_run root members) as [[Hnone Hsome] _].
  set (st := foldl _ source_init members) in *. set (refs := all_source_refs members) in *.
  split_and!.
  - intros p h. setoid_rewrite list_elem_of_In. setoid_rewrite in_map_iff.
    setoid_rewrite filter_In. setoid_rewrite <-list_elem_of_In. split.
    + intros (row & ([q e] & <- & Hin & Hc) & [= Hq] & <-). cbn in Hq, Hc |- *. subst q.
      apply elem_of_map_to_list in Hin. apply negb_true_iff, bool_decide_eq_false in Hc.
      destruct (Hsome _ _ Hin) as ((r & Hr & Hp & _) & Hag & _). split; [by exists r|by apply Hag].
    + intros [(r & Hr & Hp) Hag]. destruct (sx_dedup st !! p) as [e|] eqn:He.
      2:{ by destruct (Hnone p He r). }
      destruct (Hsome _ _ He) as ((r0 & Hr0 & Hp0 & Hh0) & _ & Hdis).
      assert (h = sd_sha256 e) as -> by (rewrite <-Hh0; symmetry; by apply Hag).
      exists (source_row k id (p, e)). split_and!; [|done|done]. exists (p, e). split; [done|].
      split; [by apply elem_of_map_to_list|]. apply negb_true_iff, bool_decide_eq_false.
      intros Hc. by apply (Hdis Hc).
  - apply Forall_forall. intros row Hrow%list_elem_of_In. apply in_map_iff in Hrow as (e & <- & _). done.
  - assert (∀ l, map pkh_key (map (source_row k id) l) =
      map (λ p, (key_scheme k, key_host k, p)) (map fst l)) as -> by (intros; by rewrite !map_map).
    apply (NoDup_fmap_2 (λ p, (key_scheme k, key_host k, p))). apply map_to_list_filter_keys.
Qed.
End source_laws.

(** ** Witnesses *)

Definition no_stream (n : Z) (b : string) : option string := None.

Definition lines_of (l : list string) : string := join (String lf "") l.

Definition demo_packages : string :=
  lines_of ["Package: hello"; "Version: 1"; "Architecture: amd64"; "Filename: pool/hello_1.deb";
            "Size: 3"; "SHA256: " +:+ demo_sha256; ""; "Package: nameless"; "Filename: pool/x.deb";
            "SHA256: " +:+ demo_sha256; ""].

(** A file per hash: the Packages of [demo_sha256], the Sources under "s". *)
Definition demo_pool (h : string) : option string :=
  if (h =? demo_sha256)%string then Some demo_packages
  else if (h =? "s")%string then Some demo_sources else None.

Definition demo_suite : SuiteKey := ("https", "deb.example.org", "/debian/dists/stable").

Definition demo_index_member : ReleaseMember :=
  {| Path := "main/binary-amd64/Packages"; SHA256 := demo_sha256; SHA512 := ""; Size := 10 |}.
Definition demo_sources_member : ReleaseMember :=
  {| Path := "main/source/Sources"; SHA256 := "s"; SHA512 := ""; Size := 7 |}.

Definition demo_row : PackageHash :=
  {| pkh_key := ("https", "deb.example.org", "/debian/pool/hello_1.deb"); pkh_declared := demo_sha256;
     pkh_id := 1; pkh_name := "hello"; pkh_arch := "amd64"; pkh_version := "1"; pkh_flat := "" |}.

Lemma buildPackageHashes_vouches_witness :
  buildPackageHashes demo_pool no_stream no_stream demo_suite 1 FormInline
    [demo_index_member] [demo_index_member] = Ok ([demo_row], true) ∧
  NoDup (map pkh_key [demo_row]).
Proof.
  assert (buildPackageHashes demo_pool no_stream no_stream demo_suite 1 FormInline
    [demo_index_member] [demo_index_member] = Ok ([demo_row], true)) as H by (vm_compute; reflexivity).
  split; [exact H|].
  refine (proj1 (proj2 (buildPackageHashes_vouches demo_pool no_stream no_stream demo_suite 1 FormInline
    [demo_index_member] [demo_index_member] "/debian/" [demo_row] true _ _ H))).
  - intros Hf. vm_compute in Hf. discriminate Hf.
  - vm_compute. reflexivity.
Defined.

Lemma buildSourceHashes_agreed_witness :
  ∃ rows, buildSourceHashes demo_pool no_stream no_stream demo_suite 1 [demo_sources_member] = (rows, 1) ∧
    length rows = 1%nat ∧ NoDup (map pkh_key rows).
Proof.
  destruct (buildSourceHashes demo_pool no_stream no_stream demo_suite 1 [demo_sources_member])
    as [rows n] eqn:H.
  assert (repoRootFromSuitePath (key_path demo_suite) = Some "/debian/") as Hroot by (vm_compute; reflexivity).
  pose proof (proj2 (proj2 (buildSourceHashes_agreed demo_pool no_stream no_stream demo_suite 1
    [demo_sources_member] "/debian/" rows n Hroot H))) as Hnd.
  exists rows. vm_compute in H. injection H as <- <-. by split_and!.
Defined.
