(* ===== verification/SeedRejections.v ===== *)
(** * Suites refused a row, for a while (internal/handler/suite_rows.go
    seedRejections)

    A suite that a cap refused is not offered again on every request: it is
    remembered until its time is over, in a map of bounded size that a timer
    sweeps. *)
From S2P Require Import Prelude Maps Tables.
Local Open Scope Z_scope.

Definition seedRejectTTL : Z := 600.
Definition seedRejectBusyTTL : Z := 60.
Definition seedRejectMax : nat := 4096.
Definition seedRejectSweep : Z := 60.

(** [lastSweep] is the zero time before the first sweep; [timer] is whether
    the sweep is scheduled. *)
Record seedRejections := {
  until : gmap SuiteKey Z; lastSweep : option Z; timer : bool; closed : bool }.

Definition no_rejections : seedRejections :=
  {| until := ∅; lastSweep := None; timer := false; closed := false |}.

Definition due (s : seedRejections) (now : Z) : bool :=
  match lastSweep s with None => true | Some t => seedRejectSweep <=? now - t end.

Definition sweepLocked (force : bool) (now : Z) (s : seedRejections) : seedRejections :=
  if negb force && negb (due s now) then s
  else {| until := delete_where (λ _ t, t <=? now) (until s); lastSweep := Some now;
          timer := timer s; closed := closed s |}.

Definition armLocked (s : seedRejections) : seedRejections :=
  {| until := until s; lastSweep := lastSweep s;
     timer := timer s || negb (closed s) && negb (size (until s) =? 0)%nat; closed := closed s |}.

Definition set_until (f : gmap SuiteKey Z → gmap SuiteKey Z) (s : seedRejections) : seedRejections :=
  {| until := f (until s); lastSweep := lastSweep s; timer := timer s; closed := closed s |}.

Definition rejected (k : SuiteKey) (now : Z) (s : seedRejections) : bool * seedRejections :=
  let s := sweepLocked false now s in
  match until s !! k with
  | None => (false, s)
  | Some t => if t <=? now then (false, set_until (delete k) s) else (true, s)
  end.

(** The room for one more entry. *)
Definition make_room (now : Z) (s : seedRejections) : seedRejections :=
  if (seedRejectMax <=? size (until s))%nat then
    let s := sweepLocked true now s in
    if (seedRejectMax <=? size (until s))%nat then set_until (λ _, ∅) s else s
  else s.

Definition add (k : SuiteKey) (ttl now : Z) (s : seedRejections) : seedRejections :=
  armLocked (set_until (<[k := now + ttl]>) (make_room now s)).

Definition expire (now : Z) (s : seedRejections) : seedRejections :=
  let s := {| until := until s; lastSweep := lastSweep s; timer := false; closed := closed s |} in
  if closed s then s else armLocked (sweepLocked true now s).

Definition close (s : seedRejections) : seedRejections :=
  {| until := until s; lastSweep := lastSweep s; timer := false; closed := true |}.

(** ** Histories *)

Inductive event := Asked (k : SuiteKey) | Added (k : SuiteKey) (ttl : Z) | Expired | Closed.

Definition apply_event (s : seedRejections) (e : Z * event) : seedRejections :=
  match e.2 with
  | Asked k => (rejected k e.1 s).2
  | Added k ttl => add k ttl e.1 s
  | Expired => expire e.1 s
  | Closed => close s
  end.

Definition run (l : list (Z * event)) : seedRejections := fold_left apply_event l no_rejections.

(** What holds of the map after the history [l]. *)
Record kept_in (l : list (Z * event)) (s : seedRejections) : Prop := {
  ki_size : (size (until s) <= seedRejectMax)%nat;
  ki_timer : closed s = false → until s ≠ ∅ → timer s = true;
  ki_added : ∀ k u, until s !! k = Some u → ∃ a ttl, (a, Added k ttl) ∈ l ∧ u = a + ttl }.

Lemma size_delete_where (P : SuiteKey → Z → bool) m : (size (delete_where P m) <= size m)%nat.
Proof. apply map_subseteq_size, map_subseteq_spec. intros k u Hk. by apply lookup_delete_where_Some in Hk as [? _]. Qed.

(** A map with fewer entries is kept too, when its timer is. *)
Lemma kept_in_sub l s s' :
  kept_in l s → until s' ⊆ until s → timer s' = timer s → closed s' = closed s → kept_in l s'.
Proof.
  intros [H1 H2 H3] Hsub Ht Hc. split.
  - apply map_subseteq_size in Hsub. lia.
  - rewrite Ht, Hc. intros Hcl Hne. apply H2; [done|]. intros He. rewrite He in Hsub.
    apply Hne, map_eq. intros k. rewrite lookup_empty. destruct (until s' !! k) as [u|] eqn:Hk; [|done].
    eapply lookup_weaken in Hk; [|exact Hsub]. by rewrite lookup_empty in Hk.
  - intros k u Hk. eapply H3, lookup_weaken; done.
Qed.

Lemma sweep_sub force now s : until (sweepLocked force now s) ⊆ until s.
Proof.
  unfold sweepLocked. destruct (_ && _); [done|]. apply map_subseteq_spec. cbn.
  intros k u Hk. by apply lookup_delete_where_Some in Hk as [? _].
Qed.

Lemma sweep_timer force now s : timer (sweepLocked force now s) = timer s.
Proof. unfold sweepLocked. by destruct (_ && _). Qed.
Lemma sweep_closed force now s : closed (sweepLocked force now s) = closed s.
Proof. unfold sweepLocked. by destruct (_ && _). Qed.

Lemma make_room_spec now s :
  until (make_room now s) ⊆ until s ∧ timer (make_room now s) = timer s ∧
  closed (make_room now s) = closed s ∧ (size (until (make_room now s)) < seedRejectMax)%nat.
Proof.
  unfold make_room. destruct (Nat.leb_spec seedRejectMax (size (until s))) as [Hs|Hs]; [|done].
  destruct (Nat.leb_spec seedRejectMax (size (until (sweepLocked true now s)))) as [Hw|Hw].
  - cbn [set_until until timer closed]. rewrite sweep_timer, sweep_closed, map_size_empty.
    split_and!; [apply map_empty_subseteq|done|done|unfold seedRejectMax; lia].
  - rewrite sweep_timer, sweep_closed. split_and!; [apply sweep_sub|done|done|done].
Qed.

Lemma kept_in_arm l s :
  (size (until s) <= seedRejectMax)%nat →
  (∀ k u, until s !! k = Some u → ∃ a ttl, (a, Added k ttl) ∈ l ∧ u = a + ttl) → kept_in l (armLocked s).
Proof.
  intros H1 H2. split; cbn; [done| |done]. intros -> Hne. cbn. apply orb_true_iff. right.
  apply negb_true_iff, Nat.eqb_neq. by rewrite map_size_empty_iff.
Qed.

Lemma kept_in_mono l l' s : kept_in l s → kept_in (l ++ l') s.
Proof.
  intros [H1 H2 H3]. split; [done|done|]. intros k u Hk. destruct (H3 k u Hk) as (a & ttl & Ha & ->).
  exists a, ttl. by rewrite elem_of_app; auto.
Qed.

Lemma apply_event_kept l e s : kept_in l s → kept_in (l ++ [e]) (apply_event s e).
Proof.
  intros Hk. destruct e as [now [k|k ttl| |]]; unfold apply_event; cbn [fst snd].
  - apply kept_in_mono. unfold rejected. set (s1 := sweepLocked false now s).
    assert (kept_in l s1) as H1 by (eapply kept_in_sub; [exact Hk|apply sweep_sub|apply sweep_timer|apply sweep_closed]).
    destruct (until s1 !! k) as [t|]; [|done]. destruct (t <=? now); [|done].
    eapply kept_in_sub; [exact H1|apply delete_subseteq|done|done].
  - destruct (make_room_spec now s) as (Hsub & _ & _ & Hroom). apply kept_in_arm; cbn [set_until until].
    + rewrite map_size_insert. case_match; unfold seedRejectMax in *; cbn in *; lia.
    + intros k' u [[<- <-]|[_ Hu]]%lookup_insert_Some; [exists now, ttl; rewrite elem_of_app, list_elem_of_singleton; auto|].
      eapply lookup_weaken in Hu; [|exact Hsub]. destruct (ki_added _ _ Hk k' u Hu) as (a & t & Ha & ->).
      exists a, t. rewrite elem_of_app. auto.
  - apply kept_in_mono. unfold expire. set (s0 := {| until := until s; timer := false |}).
    destruct Hk as [H1 H2 H3]. destruct (closed s0) eqn:Hc.
    + split; [done| |done]. cbn in *. congruence.
    + pose proof (sweep_sub true now s0) as Hsub. apply kept_in_arm.
      * apply map_subseteq_size in Hsub. change (until s0) with (until s) in Hsub. lia.
      * intros k u Hu. eapply lookup_weaken in Hu; [|exact Hsub]. by apply H3.
  - apply kept_in_mono. destruct Hk as [H1 H2 H3]. by split.
Qed.

Lemma run_kept l : kept_in l (run l).
Proof.
  unfold run. induction l as [|e l IH] using rev_ind.
  - split; cbn; [rewrite map_size_empty; lia|done|by intros k u ?%lookup_empty_Some].
  - rewrite fold_left_app. by apply apply_event_kept.
Qed.

Lemma rejected_true k now s : (rejected k now s).1 = true ↔ ∃ u, until s !! k = Some u ∧ now < u.
Proof.
  unfold rejected.
  assert (∀ u, now < u → until (sweepLocked false now s) !! k = Some u ↔ until s !! k = Some u) as Hsw.
  { intros u Hu. unfold sweepLocked. destruct (_ && _); [done|]. cbn. rewrite lookup_delete_where_Some.
    split; [by intros [? _]|]. intros Hk. split; [done|]. by apply Z.leb_gt. }
  destruct (until (sweepLocked false now s) !! k) as [t|] eqn:Ht; cbn.
  - destruct (Z.leb_spec t now) as [Hle|Hlt]; cbn.
    + split; [done|]. intros (u & Hu & Hnow). apply (proj2 (Hsw u Hnow)) in Hu. simplify_eq. lia.
    + split; [|done]. intros _. exists t. split; [by apply Hsw|done].
  - split; [done|]. intros (u & Hu & Hnow). apply (proj2 (Hsw u Hnow)) in Hu. congruence.
Qed.

(** The refused suites that are remembered.  After any history of
    questions, refusals, sweeps and a shutdown, at most 4096 suites are held;
    while the handler runs, a held suite means that the sweep is scheduled, so
    none stays for good; a suite is reported as refused only within the time
    of a refusal it really had, and a suite just refused is reported as such
    until its time is over. *)
Theorem seedRejections_correct l :
  let s := run l in
  (size (until s) <= seedRejectMax)%nat ∧
  (closed s = false → until s ≠ ∅ → timer s = true) ∧
  (∀ k now, (rejected k now s).1 = true → ∃ a ttl, (a, Added k ttl) ∈ l ∧ now < a + ttl) ∧
  (∀ k ttl a now, now < a + ttl → (rejected k now (add k ttl a s)).1 = true).
Proof.
  cbv zeta. destruct (run_kept l) as [H1 H2 H3]. split_and!; [done|done| |].
  - intros k now (u & Hu & Hnow)%rejected_true. destruct (H3 k u Hu) as (a & ttl & Ha & ->). eauto.
  - intros k ttl a now Hnow. apply rejected_true. exists (a + ttl). split; [|done].
    cbn. by rewrite lookup_insert_eq.
Qed.
