(* ===== verification/HTTPContent.v ===== *)
(** * Serving a file's content (net/http's ServeContent as
    internal/handler/validators.go calls it)

    The handler sets the entity tag of the blob and passes the zero time, so of
    the conditional headers only If-Match, If-None-Match and If-Range with a
    tag can hold.  What is sent is a list of slices of the content: all of it,
    one range, several ranges as a multipart body, or nothing. *)
From stdpp Require Import pretty.
From S2P Require Import Prelude GoStrings GoText.
Local Open Scope Z_scope.

(** The request headers [ServeContent] reads; an absent header is empty. *)
Record Conditions := {
  If_Match : string; If_None_Match : string; If_Range : string; Range : string }.

(** A response's content: the status, the Content-Range, the slices of the
    body (offset and length), and whether the entity tag and the date that the
    handler set are still among the headers. *)
Record content := {
  ct_status : Z; ct_range : string; ct_slices : list (Z * Z); ct_etag : bool; ct_date : bool }.

(** ** Entity tags *)

(** [textproto.TrimString] *)
Definition TrimString (s : string) : string := Trim (String " " (bytes_of [9; 10; 13])) s.

Definition quote : ascii := chr 34.

Definition etag_byte (c : ascii) : bool :=
  (byte c =? 33) || ((35 <=? byte c) && (byte c <=? 126)) || (128 <=? byte c).

(** The rest of a tag after its opening quote, up to and with the closing one. *)
Fixpoint scan_opaque (s : string) : option (string * string) :=
  match s with
  | EmptyString => None
  | String c s =>
      if Ascii.eqb c quote then Some (String c "", s)
      else if etag_byte c then
        match scan_opaque s with Some (t, r) => Some (String c t, r) | None => None end
      else None
  end.

Definition scanETag (s : string) : option (string * string) :=
  let s := TrimString s in
  let '(weak, rest) := match cut_prefix s "W/" with Some r => ("W/", r) | None => ("", s) end in
  match rest with
  | String c r =>
      if (String.length r =? 0)%nat || negb (Ascii.eqb c quote) then None
      else match scan_opaque r with
           | Some (t, remain) => Some (weak +:+ String c t, remain)
           | None => None
           end
  | EmptyString => None
  end.

Definition starts_with (c : ascii) (s : string) : bool :=
  match s with String d _ => Ascii.eqb c d | EmptyString => false end.

Definition etagStrongMatch (a b : string) : bool := String.eqb a b && starts_with quote a.

Definition unweaken (a : string) : string := match cut_prefix a "W/" with Some r => r | None => a end.
Definition etagWeakMatch (a b : string) : bool := String.eqb (unweaken a) (unweaken b).

Inductive condResult := condNone | condTrue | condFalse.

(** The scan of a header's list of tags: does one of them match? *)
Fixpoint any_tag (fuel : nat) (matches : string → bool) (s : string) : bool :=
  match fuel with
  | O => false
  | S fuel =>
      match TrimString s with
      | EmptyString => false
      | String c t =>
          if Ascii.eqb c "," then any_tag fuel matches t
          else if Ascii.eqb c "*" then true
          else match scanETag (String c t) with
               | None => false
               | Some (tag, remain) => matches tag || any_tag fuel matches remain
               end
      end
  end.

Definition checkIfMatch (r : Conditions) (etag : string) : condResult :=
  let im := If_Match r in
  if (im =? "")%string then condNone
  else if any_tag (S (String.length im)) (λ t, etagStrongMatch t etag) im then condTrue else condFalse.

Definition checkIfNoneMatch (r : Conditions) (etag : string) : condResult :=
  let inm := If_None_Match r in
  if (inm =? "")%string then condNone
  else if any_tag (S (String.length inm)) (λ t, etagWeakMatch t etag) inm then condFalse else condTrue.

(** A date in If-Range cannot match the zero time. *)
Definition checkIfRange (r : Conditions) (etag : string) : condResult :=
  if (If_Range r =? "")%string then condNone
  else match scanETag (If_Range r) with
       | Some (t, _) => if etagStrongMatch t etag then condTrue else condFalse
       | None => condFalse
       end.

(** ** Ranges *)

Inductive range_error := invalidRange | errNoOverlap.

(** One range of the list: [None] for one that starts past the end. *)
Definition parse_range (ra : string) (size : Z) : result range_error (option (Z * Z)) :=
  match cut_byte "-" ra with
  | None => Err invalidRange
  | Some (start, stop) =>
      let start := TrimString start in
      let stop := TrimString stop in
      if (start =? "")%string then
        if starts_with "-" stop then Err invalidRange
        else match ParseInt stop with
             | None => Err invalidRange
             | Some i => if i <? 0 then Err invalidRange
                         else Ok (Some (size - Z.min i size, Z.min i size))
             end
      else match ParseInt start with
           | None => Err invalidRange
           | Some i =>
               if i <? 0 then Err invalidRange
               else if size <=? i then Ok None
               else if (stop =? "")%string then Ok (Some (i, size - i))
               else match ParseInt stop with
                    | None => Err invalidRange
                    | Some j => if j <? i then Err invalidRange
                                else Ok (Some (i, Z.min j (size - 1) - i + 1))
                    end
           end
  end.

Fixpoint parse_ranges (l : list string) (size : Z) : result range_error (list (Z * Z) * bool) :=
  match l with
  | [] => Ok ([], false)
  | ra :: l =>
      let ra := TrimString ra in
      if (ra =? "")%string then parse_ranges l size
      else match parse_range ra size with
           | Err e => Err e
           | Ok o =>
               match parse_ranges l size with
               | Err e => Err e
               | Ok (rs, noOverlap) =>
                   match o with
                   | None => Ok (rs, true)
                   | Some r => Ok (r :: rs, noOverlap)
                   end
               end
           end
  end.

Definition parseRange (s : string) (size : Z) : result range_error (list (Z * Z)) :=
  if (s =? "")%string then Ok []
  else match cut_prefix s "bytes=" with
       | None => Err invalidRange
       | Some l =>
           match parse_ranges (split_byte "," l) size with
           | Err e => Err e
           | Ok (rs, noOverlap) => if noOverlap && (length rs =? 0)%nat then Err errNoOverlap else Ok rs
           end
       end.

Definition sumRangesSize (l : list (Z * Z)) : Z := foldr (λ r n, r.2 + n) 0 l.

Definition contentRange (r : Z * Z) (size : Z) : string :=
  "bytes " +:+ pretty r.1 +:+ "-" +:+ pretty (r.1 + r.2 - 1) +:+ "/" +:+ pretty size.

(** ** ServeContent *)

Definition bare (status : Z) (range : string) (etag date : bool) : content :=
  {| ct_status := status; ct_range := range; ct_slices := []; ct_etag := etag; ct_date := date |}.

(** The ranges that are sent; none is the whole content. *)
Definition sent_ranges (range : string) (size : Z) : result range_error (list (Z * Z)) :=
  match parseRange range size with
  | Ok rs => Ok (if size <? sumRangesSize rs then [] else rs)
  | Err errNoOverlap => if size =? 0 then Ok [] else Err errNoOverlap
  | Err e => Err e
  end.

Definition serve_ranges (head : bool) (range : string) (size : Z) : content :=
  match sent_ranges range size with
  | Err errNoOverlap => bare 416 ("bytes */" +:+ pretty size) false false
  | Err invalidRange => bare 416 "" false false
  | Ok rs =>
      {| ct_status := match rs with [] => 200 | _ => 206 end;
         ct_range := match rs with [x] => contentRange x size | _ => "" end;
         ct_slices := if head then [] else match rs with [] => [(0, size)] | _ => rs end;
         ct_etag := true; ct_date := true |}
  end.

Definition ServeContent (head : bool) (r : Conditions) (etag : string) (size : Z) : content :=
  match checkIfMatch r etag with
  | condFalse => bare 412 "" true true
  | _ =>
      match checkIfNoneMatch r etag with
      | condFalse => bare 304 "" true false
      | _ => serve_ranges head (match checkIfRange r etag with condFalse => "" | _ => Range r end) size
      end
  end.

(** The bytes of a slice. *)
Definition slice (s : string) (r : Z * Z) : string :=
  take_bytes (Z.to_nat r.2) (drop_bytes (Z.to_nat r.1) s).

(** ** The scan of tags *)

Lemma trim_left_length f s : (String.length (trim_left f s) <= String.length s)%nat.
Proof. induction s as [|c s IH]; cbn; [done|]. destruct (f c); cbn; lia. Qed.

Lemma trim_right_length f s : (String.length (trim_right f s) <= String.length s)%nat.
Proof.
  induction s as [|c s IH]; cbn; [done|]. revert IH. destruct (trim_right f s); cbn; destruct (f c); cbn; lia.
Qed.

Lemma TrimString_length s : (String.length (TrimString s) <= String.length s)%nat.
Proof. unfold TrimString, Trim. etrans; [apply trim_right_length|apply trim_left_length]. Qed.

Lemma scan_opaque_length s t r : scan_opaque s = Some (t, r) → (String.length r < String.length s)%nat.
Proof.
  revert t. induction s as [|c s IH]; intros t; cbn [scan_opaque String.length]; [done|].
  destruct (Ascii.eqb c quote); [intros H; injection H; intros; subst; lia|].
  destruct (etag_byte c); [|done]. destruct (scan_opaque s) as [[t' r']|]; [|done].
  intros H; injection H; intros; subst. specialize (IH _ eq_refl). lia.
Qed.

Lemma scanETag_length s t r : scanETag s = Some (t, r) → (String.length r < String.length s)%nat.
Proof.
  unfold scanETag. pose proof (TrimString_length s) as Hl.
  assert (∀ w rest, (String.length rest <= String.length s)%nat →
    match rest with
    | String c r => if (String.length r =? 0)%nat || negb (Ascii.eqb c quote) then None
                    else match scan_opaque r with Some (t, remain) => Some (w +:+ String c t, remain) | None => None end
    | EmptyString => None
    end = Some (t, r) → (String.length r < String.length s)%nat) as Hrest.
  { intros w [|c rest] Hle; [done|]. cbn in Hle. destruct (_ || _); [done|].
    destruct (scan_opaque rest) as [[t' r']|] eqn:Hs; [|done]. intros H; injection H; intros; subst.
    apply scan_opaque_length in Hs. lia. }
  destruct (cut_prefix (TrimString s) "W/") as [r'|] eqn:Hc; [|by apply Hrest].
  apply cut_prefix_spec in Hc. apply Hrest. rewrite Hc, length_append in Hl. lia.
Qed.

(** One unit of fuel per byte is enough. *)
Lemma any_tag_fuel matches n m s :
  (String.length s < n)%nat → (String.length s < m)%nat → any_tag n matches s = any_tag m matches s.
Proof.
  revert m s. induction n as [|n IH]; intros [|m] s Hn Hm; try lia. cbn [any_tag].
  pose proof (TrimString_length s) as Hl. destruct (TrimString s) as [|c t]; [done|]. cbn in Hl.
  destruct (Ascii.eqb c ","); [apply IH; lia|]. destruct (Ascii.eqb c "*"); [done|].
  destruct (scanETag (String c t)) as [[tag r]|] eqn:Hs; [|done].
  apply scanETag_length in Hs. cbn in Hs. rewrite (IH m) by lia. done.
Qed.

(** ** What is sent *)

(** A slice of a content of [size] bytes. *)
Definition slice_ok (size : Z) (r : Z * Z) : Prop := 0 <= r.1 ∧ 0 <= r.2 ∧ r.1 + r.2 <= size.

Lemma parse_range_ok ra size r : 0 <= size → parse_range ra size = Ok (Some r) → slice_ok size r.
Proof.
  unfold parse_range, slice_ok. intros Hs. repeat case_match; intros [= <-]; cbn; rewrite ?Z.ltb_ge, ?Z.leb_gt in *; lia.
Qed.

Lemma parse_ranges_ok l size rs b : 0 <= size → parse_ranges l size = Ok (rs, b) → Forall (slice_ok size) rs.
Proof.
  intros Hs. revert rs b. induction l as [|ra l IH]; intros rs b; cbn [parse_ranges]; [intros [= <- <-]; constructor|].
  destruct (TrimString ra =? "")%string; [apply IH|].
  destruct (parse_range (TrimString ra) size) as [o|] eqn:Ho; [|done].
  destruct (parse_ranges l size) as [[rs' b']|]; [|done]. specialize (IH _ _ eq_refl).
  destruct o as [r|]; intros [= <- <-]; [|done]. constructor; [by eapply parse_range_ok|done].
Qed.

Lemma sent_ranges_ok range size rs :
  0 <= size → sent_ranges range size = Ok rs → Forall (slice_ok size) rs ∧ sumRangesSize rs <= size.
Proof.
  intros Hs. unfold sent_ranges. destruct (parseRange range size) as [rs'|[]] eqn:Hp; [| done |].
  - assert (Forall (slice_ok size) rs') as Hok.
    { unfold parseRange in Hp. destruct (range =? "")%string; [by injection Hp as <-; constructor|].
      destruct (cut_prefix range "bytes="); [|done]. destruct (parse_ranges _ _) as [[rs'' b]|] eqn:Hpr; [|done].
      destruct (_ && _); [done|]. injection Hp as <-. by eapply parse_ranges_ok. }
    destruct (Z.ltb_spec size (sumRangesSize rs')); intros [= <-]; [by split|done].
  - destruct (Z.eqb_spec size 0) as [->|]; [|done]. intros [= <-]. done.
Qed.

Definition slices_ok (size : Z) (l : list (Z * Z)) : Prop := Forall (slice_ok size) l ∧ sumRangesSize l <= size.

Lemma slices_ok_nil size : 0 <= size → slices_ok size [].
Proof. by split; [constructor|]. Qed.

Lemma serve_ranges_ok head range size :
  0 <= size →
  let c := serve_ranges head range size in
  slices_ok size (ct_slices c) ∧
  (ct_status c = 200 ∧ ct_slices c = (if head then [] else [(0, size)]) ∨
   ct_status c = 206 ∧ range ≠ "" ∧ (ct_slices c = [] ↔ head = true) ∨
   ct_status c = 416 ∧ range ≠ "" ∧ ct_slices c = []).
Proof.
  intros Hs. cbv zeta. unfold serve_ranges.
  assert (sent_ranges "" size = Ok []) as Hnone by (unfold sent_ranges; cbn; by destruct (Z.ltb_spec size 0)).
  destruct (decide (range = "")) as [->|Hne].
  { rewrite Hnone. cbn. split; [|by left]. destruct head; [by apply slices_ok_nil|].
    split; cbn; [repeat constructor; cbn; lia|lia]. }
  destruct (sent_ranges range size) as [rs|[]] eqn:Hsent; cbn;
    [|by split; [apply slices_ok_nil|auto]|by split; [apply slices_ok_nil|auto]].
  apply sent_ranges_ok in Hsent as Hok; [|done]. destruct rs as [|x rs], head; cbn.
  - split; [by apply slices_ok_nil|auto].
  - split; [split; cbn; [repeat constructor; cbn; lia|lia]|auto].
  - split; [by apply slices_ok_nil|]. right; left. done.
  - split; [exact Hok|]. right; left. done.
Qed.

Lemma ServeContent_ok head r etag size :
  0 <= size →
  let c := ServeContent head r etag size in
  slices_ok size (ct_slices c) ∧ (ct_status c = 416 ∨ ct_etag c = true) ∧
  ct_status c ∈ [200; 206; 304; 412; 416].
Proof.
  intros Hs. cbv zeta. unfold ServeContent.
  pose proof (serve_ranges_ok head (match checkIfRange r etag with condFalse => "" | _ => Range r end) size Hs) as [Hok _].
  assert (∀ range, let c := serve_ranges head range size in
    (ct_status c = 416 ∨ ct_etag c = true) ∧ ct_status c ∈ [200; 206; 304; 412; 416]) as Hr.
  { intros range. cbv zeta. unfold serve_ranges. destruct (sent_ranges range size) as [[|]|[]]; cbn; split; auto; set_solver. }
  destruct (checkIfMatch r etag), (checkIfNoneMatch r etag);
    first [by split_and!; [apply slices_ok_nil|right|cbn; set_solver] | split; [exact Hok|apply Hr]].
Qed.

(** What a file request is answered with.  Of a content of [size] bytes
    the slices that are sent lie inside it and are together no longer than it;
    a 200 sends all of it, several slices or a Content-Range only come with a
    206, and neither comes when the request's If-Range names another tag; a
    304 answers only a request whose If-None-Match has the tag of the content
    itself (or is a wildcard), a 412 only an If-Match that has not; a HEAD, a
    304, a 412 and a 416 have no body; and no other status is answered. *)
Theorem ServeContent_correct head r etag size :
  0 <= size →
  let c := ServeContent head r etag size in
  slices_ok size (ct_slices c) ∧
  (ct_status c = 200 ∧ ct_slices c = (if head then [] else [(0, size)]) ∨
   ct_status c = 206 ∧ checkIfRange r etag ≠ condFalse ∧ Range r ≠ "" ∧ (ct_slices c = [] ↔ head = true) ∨
   ct_status c = 304 ∧ ct_slices c = [] ∧ checkIfNoneMatch r etag = condFalse ∨
   ct_status c = 412 ∧ ct_slices c = [] ∧ checkIfMatch r etag = condFalse ∨
   ct_status c = 416 ∧ ct_slices c = [] ∧ Range r ≠ "").
Proof.
  intros Hs. cbv zeta. unfold ServeContent.
  pose proof (serve_ranges_ok head (match checkIfRange r etag with condFalse => "" | _ => Range r end) size Hs) as Hr.
  destruct (checkIfMatch r etag) eqn:Him, (checkIfNoneMatch r etag) eqn:Hinm; cbn in Hr |- *;
    try (split; [by apply slices_ok_nil|auto 10]); destruct Hr as [Hok Hr]; (split; [exact Hok|]);
    destruct (checkIfRange r etag); destruct Hr as [?|[(? & ? & ?)|(? & ? & ?)]]; auto 10.
Qed.

Lemma ServeContent_correct_witness :
  let c := ServeContent false {| If_Match := ""; If_None_Match := ""; If_Range := ""; Range := "bytes=2-, 0-0" |}
             "tag" 5 in
  ct_slices c = [(2, 3); (0, 1)] ∧ sumRangesSize (ct_slices c) <= 5.
Proof.
  split; [reflexivity|].
  apply (ServeContent_correct false {| If_Match := ""; If_None_Match := ""; If_Range := ""; Range := "bytes=2-, 0-0" |}
    "tag" 5). lia.
Defined.
