(* ===== verification/MemberFetch.v ===== *)
(** * Fetching and verifying one member (internal/freshness/adoption.go
    adoptMember, member_verify.go; internal/cache/blob.go BlobWriter)

    The bytes of a member reach the blob pool through a temporary file that is
    verified against every hash its Release declares.  The world these
    operations run in is the database and the pool's files; what is outside the
    program is the environment: the digests, the upstream servers, the clock,
    which disk and database operations fail and when the run is cancelled.
    Each effect is an event with a number, and the environment answers by that
    number, so that it may answer differently every time. *)
From S2P Require Import Prelude GoStrings AptPath GoText ReleaseParse Tables Invariant Snapshots Suites GC.
Local Open Scope Z_scope.

(** ** The environment and the world *)

(** The outcome of [fetch.Client.Fetch] into a writer. *)
Inductive response :=
| Served (body : string) (contentLength : Z) (lastModified : string)
| StatusError (code : Z)
| Unavailable.

Class Env := {
  sha256 : string → string;
  sha512 : string → string;
  clock : nat → Z;
  disk_fault : nat → bool;
  lost : nat → bool;         (** the database did it, and the caller gets an error *)
  cancelled : nat → bool;
  serve : nat → string → response;
}.

Record World := {
  w_db : DB;
  w_pool : gmap string string;   (** a file of the pool: its name, its content *)
  w_tick : nat;
}.

Definition io (E A : Type) : Type := World → result E A * World.

#[export] Instance io_ret E : MRet (io E) := λ A a w, (Ok a, w).
#[export] Instance io_bind E : MBind (io E) := λ A B f m w,
  match m w with (Ok a, w) => f a w | (Err e, w) => (Err e, w) end.

Definition iofail {E A} (e : E) : io E A := λ w, (Err e, w).
Definition ioassert {E} (b : bool) (e : E) : io E unit := if b then mret tt else iofail e.
Definition maperr {E F A} (f : E → F) (m : io E A) : io F A := λ w,
  match m w with (Ok a, w) => (Ok a, w) | (Err e, w) => (Err (f e), w) end.

Definition event {E} : io E nat := λ w,
  (Ok (w_tick w), {| w_db := w_db w; w_pool := w_pool w; w_tick := S (w_tick w) |}).
Definition get_pool {E} : io E (gmap string string) := λ w, (Ok (w_pool w), w).
Definition set_pool {E} (p : gmap string string) : io E unit := λ w,
  (Ok tt, {| w_db := w_db w; w_pool := p; w_tick := w_tick w |}).
Definition get_db {E} : io E DB := λ w, (Ok (w_db w), w).

(** ** Errors *)

(** The sentinels of an adoption; [DBFailed] wraps a failed disk operation
    ([None]) or the database's refusal. *)
Inductive adoption_error :=
| GPGFailed
| ReleaseRejected (e : release_error)
| IndexRejected
| MemberFetchFailed (path : string)
| MemberMismatch (path : string)
| GuardFailed (path : string)
| DBFailed (e : option cache_error)
| UpstreamOlder
| RollbackRefused
| DateInFuture
| UnsignedDisabled
| UnsignedDowngradeRefused
| UnsignedTooLarge
| MemberSkipped
| Shutdown.

Inductive verify_error :=
| VNoHash
| VMismatch (algo : HashBlock) (declared actual : string)
| VDB
| VFinalize.

Section member.
Context `{Env} `{HTTPTime}.

(** A disk operation, or a statement, that may fail. *)
Definition faulty {E} (e : E) : io E unit :=
  n ← event; ioassert (negb (disk_fault n)) e.

(** One database operation.  It may find the database unavailable; or it is
    done and its answer does not reach the caller, whose context ended while
    the write was queued or run ([submitWrite]). *)
Definition sql {A} (m : Z → T A) : io adoption_error A :=
  n ← event;
  if disk_fault n then iofail (DBFailed None)
  else λ w, match atomically (m (clock n)) (w_db w) with
            | (Ok a, d) => (if lost n then Err (DBFailed None) else Ok a,
                            {| w_db := d; w_pool := w_pool w; w_tick := w_tick w |})
            | (Err e, d) => (Err (DBFailed (Some e)), {| w_db := d; w_pool := w_pool w; w_tick := w_tick w |})
            end.

(** ** The writer's ends *)

(** Renaming the temporary file into the pool: a file already there stays. *)
Definition into_pool (body : string) : io verify_error string :=
  p ← get_pool;
  let h := sha256 body in
  _ ← set_pool (match p !! h with Some _ => p | None => <[h := body]> p end);
  mret h.

Definition Finalize (body : string) (expectedSize : Z) : io verify_error string :=
  _ ← ioassert (negb ((0 <? expectedSize) && negb (len body =? expectedSize))) VFinalize;
  _ ← faulty VFinalize;
  into_pool body.

Definition FinalizeExpectingHash (body expected : string) (expectedSize : Z) : io verify_error string :=
  _ ← ioassert (validBlobHash expected) VFinalize;
  _ ← ioassert (negb ((0 <? expectedSize) && negb (len body =? expectedSize))) VFinalize;
  _ ← faulty VFinalize;
  if negb (sha256 body =? expected)%string then iofail (VMismatch BlockSHA256 expected (sha256 body))
  else _ ← faulty VFinalize; into_pool body.

(** A pooled file whose content is not what its name says is removed. *)
Definition rehashPooledBlob (derived : string) : io verify_error unit :=
  p ← get_pool;
  match p !! derived with
  | None => mret tt
  | Some content =>
      _ ← faulty VDB;
      if (sha256 content =? derived)%string then mret tt
      else _ ← faulty VDB; set_pool (delete derived p)
  end.

Definition verifyMember (body : string) (m : ReleaseMember) (size : Z) : io verify_error string :=
  if (SHA256 m =? "")%string && (SHA512 m =? "")%string then iofail VNoHash
  else if negb (SHA512 m =? "")%string && negb (sha512 body =? SHA512 m)%string
  then iofail (VMismatch BlockSHA512 (SHA512 m) (sha512 body))
  else if (SHA256 m =? "")%string then
    _ ← rehashPooledBlob (sha256 body);
    Finalize body size
  else FinalizeExpectingHash body (SHA256 m) size.

(** ** Names *)

Definition byHashPath (declaredPath algo hexHash : string) : string :=
  let dir := PathDir declaredPath in
  if (dir =? ".")%string || (dir =? "")%string then "by-hash/" +:+ algo +:+ "/" +:+ hexHash
  else dir +:+ "/by-hash/" +:+ algo +:+ "/" +:+ hexHash.

Definition byHashAliasPath (declaredPath hexHash : string) : string :=
  if (declaredPath =? "")%string then "" else byHashPath declaredPath "SHA256" hexHash.

Definition byHashAliases (m : ReleaseMember) : list string :=
  (if (SHA256 m =? "")%string then [] else [byHashAliasPath (Path m) (SHA256 m)]) ++
  (if (SHA512 m =? "")%string then [] else [byHashPath (Path m) "SHA512" (SHA512 m)]).

Definition byHashProbePath (m : ReleaseMember) : string :=
  if negb (SHA512 m =? "")%string then byHashPath (Path m) "SHA512" (SHA512 m)
  else byHashAliasPath (Path m) (SHA256 m).

Definition buildMemberURL (k : SuiteKey) (relPath : string) : string :=
  BuildUpstreamURL (key_scheme k) (key_host k) (trim_suffix (key_path k) "/" +:+ "/" +:+ relPath).

Definition member_key (k : SuiteKey) (relPath : string) : URLKey :=
  (key_scheme k, key_host k, key_path k +:+ "/" +:+ relPath).

(** ** One member *)

Definition fetch (url : string) : io adoption_error response :=
  n ← event; mret (serve n url).

(** The by-hash probe: any failure but the database's falls back. *)
Definition tryByHashFetch (k : SuiteKey) (m : ReleaseMember) (rel : string)
  : io adoption_error string :=
  _ ← faulty (DBFailed None);
  r ← fetch (buildMemberURL k rel);
  match r with
  | Served body _ lastmod =>
      h ← maperr (λ e, match e with VDB => DBFailed None | _ => MemberFetchFailed (Path m) end)
            (verifyMember body m (Size m));
      _ ← sql (PutBlob h (len body));
      _ ← sql (PutRepresentation (member_key k rel) h lastmod);
      _ ← sql (PutRepresentation (member_key k (Path m)) h lastmod);
      mret h
  | _ => iofail (MemberFetchFailed (Path m))
  end.

Definition verify_failure (m : ReleaseMember) (e : verify_error) : adoption_error :=
  match e with
  | VDB => DBFailed None
  | VMismatch _ _ _ => MemberMismatch (Path m)
  | VNoHash | VFinalize => MemberFetchFailed (Path m)
  end.

Definition fetchMemberURL (k : SuiteKey) (m : ReleaseMember) (rel : string) : io adoption_error string :=
  _ ← faulty (DBFailed None);
  r ← fetch (buildMemberURL k rel);
  match r with
  | StatusError code =>
      iofail (if (code =? 404) || (code =? 410) then MemberSkipped else MemberFetchFailed (Path m))
  | Unavailable => iofail (MemberFetchFailed (Path m))
  | Served body contentLength lastmod =>
      _ ← ioassert (negb ((0 <? Size m) && (0 <? contentLength) && negb (contentLength =? Size m)))
            (MemberFetchFailed (Path m));
      h ← maperr (verify_failure m) (verifyMember body m (Size m));
      _ ← sql (PutBlob h (len body));
      _ ← sql (PutRepresentation (member_key k rel) h lastmod);
      mret h
  end.

(** The blob a member already has in the pool, rehashed: [None] when there is
    none, or when it was corrupted and is evicted. *)
Definition reusePooled (m : ReleaseMember) : io adoption_error (option string) :=
  if (SHA256 m =? "")%string then mret None
  else
    _ ← faulty (DBFailed None);
    p ← get_pool;
    match p !! SHA256 m with
    | None => mret None
    | Some content =>
        _ ← faulty (DBFailed None);
        if (sha256 content =? SHA256 m)%string then
          if negb (SHA512 m =? "")%string && negb (sha512 content =? SHA512 m)%string
          then iofail (MemberMismatch (Path m))
          else _ ← sql (PutBlob (SHA256 m) (Size m)); mret (Some (SHA256 m))
        else
          _ ← faulty (DBFailed None);
          _ ← set_pool (delete (SHA256 m) p);
          mret None
    end.

Definition is_db_failed (e : adoption_error) : bool :=
  match e with DBFailed _ => true | _ => false end.

(** [orelse m f]: [f e] runs in the world the failed [m] left. *)
Definition orelse {A} (m : io adoption_error A) (f : adoption_error → io adoption_error A)
  : io adoption_error A := λ w,
  match m w with (Ok a, w) => (Ok a, w) | (Err e, w) => f e w end.

Definition adoptMember (k : SuiteKey) (m : ReleaseMember) (acquireByHash : bool)
  : io adoption_error string :=
  reused ← reusePooled m;
  match reused with
  | Some h => mret h
  | None =>
      n ← event;
      _ ← ioassert (negb (cancelled n)) (MemberFetchFailed (Path m));
      if acquireByHash && negb (Path m =? "")%string then
        orelse (tryByHashFetch k m (byHashProbePath m))
          (λ e, if is_db_failed e then iofail e else fetchMemberURL k m (Path m))
      else fetchMemberURL k m (Path m)
  end.

Definition retryable (e : adoption_error) : bool :=
  match e with MemberFetchFailed _ | GuardFailed _ | MemberMismatch _ => true | _ => false end.

Fixpoint member_attempts (retries : nat) (k : SuiteKey) (m : ReleaseMember) (acquireByHash : bool)
    (e : adoption_error) : io adoption_error string :=
  match retries with
  | O => iofail e
  | S r =>
      n ← event;
      if cancelled n || negb (retryable e) then iofail e
      else
        n ← event;   (* the sleep before the retry *)
        if cancelled n then iofail e
        else orelse (adoptMember k m acquireByHash) (member_attempts r k m acquireByHash)
  end.

Definition adoptMemberWithRetry (retries : nat) (k : SuiteKey) (m : ReleaseMember) (acquireByHash : bool)
  : io adoption_error string :=
  orelse (adoptMember k m acquireByHash)
    (λ e, if (retries =? 0)%nat then iofail e else member_attempts retries k m acquireByHash e).
End member.

(** ** Running worlds *)

Lemma io_bind_ok {E A B} (m : io E A) (f : A → io E B) w b w' :
  (m ≫= f) w = (Ok b, w') ↔ ∃ a w1, m w = (Ok a, w1) ∧ f a w1 = (Ok b, w').
Proof.
  unfold mbind, io_bind. destruct (m w) as [[a|e] w1]; split.
  - eauto.
  - intros (a' & w2 & [= <- <-] & ?). done.
  - done.
  - by intros (a' & w2 & [=] & _).
Qed.

Lemma ioassert_ok {E} b (e : E) w u w' : ioassert b e w = (Ok u, w') → b = true ∧ w' = w.
Proof. unfold ioassert. destruct b; intros H; by injection H. Qed.

Lemma maperr_ok {E F A} (f : E → F) (m : io E A) w a w' :
  maperr f m w = (Ok a, w') ↔ m w = (Ok a, w').
Proof. unfold maperr. destruct (m w) as [[?|?] ?]; split; congruence. Qed.

Lemma orelse_ok {A} (m : io adoption_error A) f w a w' :
  orelse m f w = (Ok a, w') →
  m w = (Ok a, w') ∨ ∃ e w1, m w = (Err e, w1) ∧ f e w1 = (Ok a, w').
Proof. unfold orelse. destruct (m w) as [[?|?] ?]; [left; congruence|right; eauto]. Qed.

(** Inversion of a run that answered, statement by statement. *)
Ltac ioinv1 :=
  match goal with
  | H : mret _ _ = (Ok _, _) |- _ => unfold mret, io_ret in H; injection H as <- <-
  | H : iofail _ _ = (Ok _, _) |- _ => unfold iofail in H; discriminate H
  | H : get_pool _ = (Ok _, _) |- _ => unfold get_pool in H; injection H as <- <-
  | H : get_db _ = (Ok _, _) |- _ => unfold get_db in H; injection H as <- <-
  | H : set_pool _ _ = (Ok _, _) |- _ => unfold set_pool in H; injection H as <- <-
  | H : event _ = (Ok _, _) |- _ => unfold event in H; injection H as <- <-
  | H : ioassert _ _ _ = (Ok _, _) |- _ => apply ioassert_ok in H as [H ->]
  | H : maperr _ _ _ = (Ok _, _) |- _ => apply maperr_ok in H
  | H : (_ ≫= _) _ = (Ok _, _) |- _ =>
      let x := fresh "rv" in let w1 := fresh "w1" in let H1 := fresh "Hrun" in
      apply io_bind_ok in H as (x & w1 & H1 & H)
  end.
Ltac ioinv := repeat (ioinv1; cbn beta zeta in * ).

(** A property of the world that a program keeps, whether it answers or fails. *)
Definition stays {E A} (I : World → Prop) (m : io E A) : Prop := ∀ w, I w → I (m w).2.

Lemma stays_bind {E A B} I (m : io E A) (f : A → io E B) :
  stays I m → (∀ a, stays I (f a)) → stays I (m ≫= f).
Proof.
  intros Hm Hf w Hw. unfold mbind, io_bind. specialize (Hm w Hw).
  destruct (m w) as [[a|e] w1]; [by apply Hf|done].
Qed.

Lemma stays_ret {E A} I (a : A) : stays I (mret a : io E A).
Proof. by intros w. Qed.
Lemma stays_fail {E A} I (e : E) : stays I (iofail e : io E A).
Proof. by intros w. Qed.
Lemma stays_assert {E} I b (e : E) : stays I (ioassert b e).
Proof. by destruct b; intros w. Qed.
Lemma stays_maperr {E F A} I (f : E → F) (m : io E A) : stays I m → stays I (maperr f m).
Proof. intros Hm w Hw. specialize (Hm w Hw). unfold maperr. by destruct (m w) as [[?|?] ?]. Qed.
Lemma stays_orelse {A} I (m : io adoption_error A) f :
  stays I m → (∀ e, stays I (f e)) → stays I (orelse m f).
Proof.
  intros Hm Hf w Hw. specialize (Hm w Hw). unfold orelse.
  destruct (m w) as [[?|?] ?]; [done|by apply Hf].
Qed.
Lemma stays_get_pool {E} I : stays I (get_pool : io E _).
Proof. by intros w. Qed.
Lemma stays_get_db {E} I : stays I (get_db : io E _).
Proof. by intros w. Qed.

Create HintDb stays.
#[export] Hint Resolve stays_ret stays_fail stays_assert stays_get_pool stays_get_db : stays.

(** Through a program statement by statement. *)
Ltac iokeep :=
  repeat first
    [ solve [eauto 2 with stays]
    | lazymatch goal with
      | |- stays ?I (_ ≫= _) => apply (stays_bind I); [|intros ?]
      | |- stays ?I (maperr _ _) => apply (stays_maperr I)
      | |- stays ?I (orelse _ _) => apply (stays_orelse I); [|intros ?]
      | |- stays _ (match ?x with _ => _ end) => destruct x
      end
    | progress cbn beta zeta ].

Section member_laws.
Context `{Env} `{HTTPTime}.

(** *** Goodness of a pooled file *)

(** The file named [h], if there is one, has that digest. *)
Definition good (h : string) (w : World) : Prop :=
  ∀ c, w_pool w !! h = Some c → sha256 c = h.

Lemma stays_event {E} h : stays (good h) (event : io E nat).
Proof. by intros w. Qed.
Lemma stays_faulty {E} h (e : E) : stays (good h) (faulty e).
Proof. apply stays_bind; [apply stays_event|intros]. apply stays_assert. Qed.
Lemma stays_sql {A} h (m : Z → T A) : stays (good h) (sql m).
Proof.
  apply stays_bind; [apply stays_event|intros n]. destruct (disk_fault n); [apply stays_fail|].
  intros w Hw. by destruct (atomically (m (clock n)) (w_db w)) as [[?|?] ?], (lost n).
Qed.
Lemma stays_fetch h url : stays (good h) (fetch url).
Proof. apply stays_bind; [apply stays_event|intros n]. apply stays_ret. Qed.

(** Removing a file, or adding one under its digest, spoils nothing. *)
Lemma stays_into_pool h body : stays (good h) (into_pool body).
Proof.
  intros w Hw c. unfold into_pool, get_pool, set_pool, mbind, io_bind, mret, io_ret. cbn. destruct (w_pool w !! sha256 body) eqn:Hb; [exact (Hw c)|].
  intros [[<- <-]|[_ Hc]]%lookup_insert_Some; [done|exact (Hw c Hc)].
Qed.

#[local] Hint Resolve stays_event stays_faulty stays_sql stays_fetch stays_into_pool : stays.

Lemma stays_rehash h derived : stays (good h) (rehashPooledBlob derived).
Proof.
  intros w Hw. unfold rehashPooledBlob, get_pool, mbind, io_bind. cbn.
  destruct (w_pool w !! derived) as [c|]; [|done].
  pose proof (stays_faulty h VDB w Hw) as H1. destruct (faulty VDB w) as [[?|?] w1]; [|done].
  destruct (sha256 c =? derived)%string; [done|].
  pose proof (stays_faulty h VDB w1 H1) as H2. destruct (faulty VDB w1) as [[?|?] w2]; [|done].
  intros c' Hc. cbn in Hc. apply lookup_delete_Some in Hc as [_ Hc]. exact (Hw c' Hc).
Qed.
#[local] Hint Resolve stays_rehash : stays.

Lemma stays_Finalize h body size : stays (good h) (Finalize body size).
Proof. unfold Finalize. iokeep. Qed.
Lemma stays_FinalizeExpectingHash h body expected size :
  stays (good h) (FinalizeExpectingHash body expected size).
Proof. unfold FinalizeExpectingHash. iokeep. Qed.
#[local] Hint Resolve stays_Finalize stays_FinalizeExpectingHash : stays.

Lemma stays_verifyMember h body m size : stays (good h) (verifyMember body m size).
Proof. unfold verifyMember. iokeep. Qed.
#[local] Hint Resolve stays_verifyMember : stays.

Lemma stays_tryByHash h k m rel : stays (good h) (tryByHashFetch k m rel).
Proof. unfold tryByHashFetch. iokeep. Qed.

Lemma sql_pool {A} (m : Z → T A) w a w' :
  sql m w = (Ok a, w') →
  w_pool w' = w_pool w ∧ ∃ now, m now (w_db w) = Ok (a, w_db w').
Proof.
  unfold sql. intros Hrun. ioinv. destruct (disk_fault (w_tick w)); [done|]. cbn in Hrun.
  destruct (atomically (m (clock (w_tick w))) (w_db w)) as [[x|e] d] eqn:Hat; [|done].
  destruct (lost (w_tick w)); [done|]. injection Hrun as <- <-. cbn. split; [done|]. exists (clock (w_tick w)). by apply atomically_ok.
Qed.

Lemma fetch_pool url w r w' : fetch url w = (Ok r, w') → w_pool w' = w_pool w ∧ w_db w' = w_db w.
Proof. unfold fetch. intros Hf. by ioinv. Qed.

Lemma faulty_pool {E} (e : E) w u w' : faulty e w = (Ok u, w') → w_pool w' = w_pool w ∧ w_db w' = w_db w.
Proof. unfold faulty. intros Hf. by ioinv. Qed.

Lemma into_pool_ok body w h w' :
  good (sha256 body) w → into_pool body w = (Ok h, w') →
  h = sha256 body ∧ ∃ c, w_pool w' !! h = Some c ∧ sha256 c = h.
Proof.
  intros Hg Hrun. unfold into_pool in Hrun. ioinv. split; [done|]. cbn.
  destruct (w_pool w !! sha256 body) as [c|] eqn:Hc.
  - exists c. split; [done|by apply Hg].
  - exists body. by rewrite lookup_insert_eq.
Qed.

(** Rehashing leaves the file good or gone. *)
Lemma rehash_ok derived w u w' : rehashPooledBlob derived w = (Ok u, w') → good derived w'.
Proof.
  unfold rehashPooledBlob. intros Hrun. ioinv.
  destruct (w_pool w !! derived) as [c|] eqn:Hc.
  - ioinv. apply faulty_pool in Hrun0 as [Hp _].
    destruct (sha256 c =? derived)%string eqn:Hh; ioinv.
    + intros c' Hc'. rewrite Hp, Hc in Hc'. injection Hc' as <-. by apply String.eqb_eq.
    + intros c' Hc'. cbn in Hc'. by rewrite lookup_delete_eq in Hc'.
  - ioinv. intros c' Hc'. congruence.
Qed.

(** What a verified member is: a pooled file with the digest it is named by,
    that digest the declared SHA-256 if there is one, and bytes of that digest
    that have the declared SHA-512 if there is one. *)
Record verified (m : ReleaseMember) (h : string) (w : World) : Prop := {
  vf_file : ∃ c, w_pool w !! h = Some c ∧ sha256 c = h;
  vf_sha256 : SHA256 m ≠ "" → h = SHA256 m;
  vf_sha512 : SHA512 m ≠ "" → ∃ body, sha256 body = h ∧ sha512 body = SHA512 m;
  vf_declared : SHA256 m ≠ "" ∨ SHA512 m ≠ "";
}.

Definition ready (m : ReleaseMember) (w : World) : Prop := SHA256 m ≠ "" → good (SHA256 m) w.

Lemma ready_stays {E A} m (c : io E A) : (∀ h, stays (good h) c) → stays (ready m) c.
Proof. intros Hc w Hw Hne. apply Hc. by apply Hw. Qed.

Lemma ready_pool m w w' : w_pool w' = w_pool w → ready m w → ready m w'.
Proof. intros Hp Hr Hne c Hc. apply (Hr Hne). congruence. Qed.

Lemma verifyMember_ok body m size w h w' :
  ready m w → verifyMember body m size w = (Ok h, w') → verified m h w'.
Proof.
  intros Hg Hrun. unfold verifyMember in Hrun.
  destruct ((SHA256 m =? "")%string && (SHA512 m =? "")%string) eqn:Hnone; [done|].
  destruct (negb (SHA512 m =? "")%string && negb (sha512 body =? SHA512 m)%string) eqn:H512; [done|].
  assert (SHA512 m ≠ "" → sha512 body = SHA512 m) as Hs512.
  { intros Hne%String.eqb_neq. rewrite Hne in H512. cbn [negb andb] in H512. by bclean. }
  assert (SHA256 m ≠ "" ∨ SHA512 m ≠ "") as Hdecl.
  { apply andb_false_iff in Hnone as [?|?]; [left|right]; by apply String.eqb_neq. }
  destruct (SHA256 m =? "")%string eqn:Hs.
  - apply String.eqb_eq in Hs. ioinv. apply rehash_ok in Hrun0. unfold Finalize in Hrun. ioinv.
    repeat match goal with Hf : faulty _ _ = _ |- _ => apply faulty_pool in Hf as [? ?] end.
    apply into_pool_ok in Hrun as [-> Hfile]; [|intros c Hc; apply Hrun0; congruence]. constructor; [done|congruence| |done].
    intros Hne. exists body. split; [done|by apply Hs512].
  - apply String.eqb_neq in Hs. unfold FinalizeExpectingHash in Hrun. ioinv.
    destruct (sha256 body =? SHA256 m)%string eqn:Hh; cbn [negb] in Hrun; [|done]. ioinv.
    apply String.eqb_eq in Hh.
    repeat match goal with Hf : faulty _ _ = _ |- _ => apply faulty_pool in Hf as [? ?] end.
    apply into_pool_ok in Hrun as [-> Hfile].
    + constructor; [done|done| |done]. intros Hne. exists body. split; [done|by apply Hs512].
    + intros c Hc. rewrite Hh. apply Hg; [done|]. rewrite <-Hh. congruence.
Qed.

(** Through the rest of a fetch: the file stays, the blob row is there. *)
Lemma verified_pool m h w w' : w_pool w' = w_pool w → verified m h w → verified m h w'.
Proof. intros Hp [Hf H1 H2 H3]. by constructor; rewrite ?Hp. Qed.

Lemma PutBlob_has h size now d u d' :
  PutBlob h size now d = Ok (u, d') → is_Some (blob_t d' !! h).
Proof. unfold PutBlob. intros Hrun. minv. cbn. rewrite lookup_insert_eq. by eexists. Qed.

Lemma PutRepresentation_blobs k h lastmod now d u d' :
  PutRepresentation k h lastmod now d = Ok (u, d') → blob_t d' = blob_t d.
Proof. unfold PutRepresentation, putRepresentation. intros Hrun. by minv. Qed.

Definition stored (m : ReleaseMember) (h : string) (w : World) : Prop :=
  verified m h w ∧ is_Some (blob_t (w_db w) !! h).

Lemma put_blob_stored m h size w u w' :
  verified m h w → sql (PutBlob h size) w = (Ok u, w') → stored m h w'.
Proof.
  intros Hv Hrun. apply sql_pool in Hrun as (Hp & now & Hdb). split.
  - by eapply verified_pool.
  - by eapply PutBlob_has.
Qed.

Lemma put_representation_stored m h k lastmod w u w' :
  stored m h w → sql (PutRepresentation k h lastmod) w = (Ok u, w') → stored m h w'.
Proof.
  intros [Hv Hb] Hrun. apply sql_pool in Hrun as (Hp & now & Hdb). split.
  - by eapply verified_pool.
  - by erewrite PutRepresentation_blobs.
Qed.

Lemma tryByHash_ok k m rel w h w' :
  ready m w → tryByHashFetch k m rel w = (Ok h, w') → stored m h w'.
Proof.
  intros Hg Hrun. unfold tryByHashFetch in Hrun. ioinv.
  apply faulty_pool in Hrun0 as [Hp0 _]. apply fetch_pool in Hrun1 as [Hp1 _].
  destruct rv0 as [body cl lastmod|code|]; ioinv.
  match goal with Hv : verifyMember _ _ _ _ = _ |- _ =>
    apply verifyMember_ok in Hv; [|eapply ready_pool; [|exact Hg]; congruence] end.
  eapply put_representation_stored; [|eassumption].
  eapply put_representation_stored; [|eassumption]. by eapply put_blob_stored.
Qed.

Lemma fetchMemberURL_ok k m rel w h w' :
  ready m w → fetchMemberURL k m rel w = (Ok h, w') → stored m h w'.
Proof.
  intros Hg Hrun. unfold fetchMemberURL in Hrun. ioinv.
  apply faulty_pool in Hrun0 as [Hp0 _]. apply fetch_pool in Hrun1 as [Hp1 _].
  destruct rv0 as [body cl lastmod|code|]; ioinv.
  match goal with Hv : verifyMember _ _ _ _ = _ |- _ =>
    apply verifyMember_ok in Hv; [|eapply ready_pool; [|exact Hg]; congruence] end.
  eapply put_representation_stored; [|eassumption]. by eapply put_blob_stored.
Qed.

Lemma reusePooled_ok m w r w' :
  SHA256 m ≠ "" ∨ SHA512 m ≠ "" → reusePooled m w = (Ok r, w') →
  match r with Some h => stored m h w' | None => ready m w' end.
Proof.
  intros Hdecl Hrun. unfold reusePooled in Hrun. destruct (SHA256 m =? "")%string eqn:Hs.
  { apply String.eqb_eq in Hs. ioinv. by intros ?. }
  apply String.eqb_neq in Hs. ioinv. apply faulty_pool in Hrun0 as [Hp0 _].
  destruct (w_pool w1 !! SHA256 m) as [c|] eqn:Hc; ioinv.
  2:{ intros _ c Hc'. congruence. }
  match goal with Hf : faulty _ _ = _ |- _ => apply faulty_pool in Hf as [Hp1 _] end.
  destruct (sha256 c =? SHA256 m)%string eqn:Hh.
  - apply String.eqb_eq in Hh.
    destruct (negb (SHA512 m =? "")%string && negb (sha512 c =? SHA512 m)%string) eqn:H5; ioinv.
    eapply put_blob_stored; [|eassumption]. constructor; [|done| |done].
    + exists c. split; [congruence|done].
    + intros Hne. exists c. split; [done|]. apply String.eqb_neq in Hne. rewrite Hne in H5.
      cbn in H5. by bclean.
  - ioinv. intros _ c' Hc'. cbn in Hc'. by rewrite lookup_delete_eq in Hc'.
Qed.

Lemma adoptMember_ok k m abh w h w' :
  SHA256 m ≠ "" ∨ SHA512 m ≠ "" → adoptMember k m abh w = (Ok h, w') → stored m h w'.
Proof.
  intros Hdecl Hrun. unfold adoptMember in Hrun. ioinv.
  apply reusePooled_ok in Hrun0; [|done]. destruct rv as [r|]; ioinv; [done|].
  assert (ready m {| w_db := w_db w1; w_pool := w_pool w1; w_tick := S (w_tick w1) |}) as Hr
    by (by eapply ready_pool; [|exact Hrun0]).
  destruct (abh && negb (Path m =? "")%string); [|by eapply fetchMemberURL_ok].
  apply orelse_ok in Hrun as [Hrun|(e & w2 & He & Hrun)]; [by eapply tryByHash_ok|].
  destruct (is_db_failed e); [done|]. eapply fetchMemberURL_ok; [|exact Hrun].
  pose proof (ready_stays m _ (λ h, stays_tryByHash h k m (byHashProbePath m)) _ Hr) as Hk.
  by rewrite He in Hk.
Qed.

Lemma member_attempts_ok r k m abh e w h w' :
  SHA256 m ≠ "" ∨ SHA512 m ≠ "" → member_attempts r k m abh e w = (Ok h, w') → stored m h w'.
Proof.
  intros Hdecl. revert e w. induction r as [|r IH]; intros e w Hrun; cbn [member_attempts] in Hrun; [done|].
  ioinv. destruct (cancelled _ || negb (retryable e)); [done|]. ioinv.
  destruct (cancelled _); [done|].
  apply orelse_ok in Hrun as [Hrun|(e' & w2 & _ & Hrun)]; [by eapply adoptMember_ok|by eapply IH].
Qed.

Lemma adoptMemberWithRetry_ok retries k m abh w h w' :
  SHA256 m ≠ "" ∨ SHA512 m ≠ "" →
  adoptMemberWithRetry retries k m abh w = (Ok h, w') → stored m h w'.
Proof.
  intros Hdecl Hrun. apply orelse_ok in Hrun as [Hrun|(e & w1 & _ & Hrun)]; [by eapply adoptMember_ok|].
  destruct (retries =? 0)%nat; [done|]. by eapply member_attempts_ok.
Qed.

(** C22. A member is adopted only with bytes that match everything its Release
    declares: when the fetch of a member answers [h], through any number of
    retries, by-hash or by path, fresh or reused from the pool, and whatever
    the servers, the disk and the pool did, the pool holds a file of that
    SHA-256 under that name, [h] is the declared SHA-256 if there is one, bytes
    of that digest have the declared SHA-512 if there is one, and the database
    has the blob. *)
Theorem adopted_member_verified retries k m acquireByHash w h w' :
  member_ok m →
  adoptMemberWithRetry retries k m acquireByHash w = (Ok h, w') →
  (∃ content, w_pool w' !! h = Some content ∧ sha256 content = h) ∧
  (SHA256 m ≠ "" → h = SHA256 m) ∧
  (SHA512 m ≠ "" → ∃ body, sha256 body = h ∧ sha512 body = SHA512 m) ∧
  is_Some (blob_t (w_db w') !! h).
Proof.
  intros Hm Hrun. apply adoptMemberWithRetry_ok in Hrun as [[Hf H1 H2 _] Hb]; [done|apply Hm].
Qed.
End member_laws.

(** ** A member fetched by hash *)

Definition dateless : HTTPTime := {| ParseTime := λ _, None; FormatTime := λ _, "" |}.

Definition other_hash : string := repeat_string 64 "b".

(** Everything is served as "hello", whose digests are the demonstration's. *)
Definition quiet_env : Env :=
  {| sha256 := λ s, if (s =? "hello")%string then demo_sha256 else other_hash;
     sha512 := λ s, if (s =? "hello")%string then demo_sha512 else other_hash;
     clock := λ n, 1000 + Z.of_nat n; disk_fault := λ _, false; lost := λ _, false; cancelled := λ _, false;
     serve := λ _ _, Served "hello" 5 "" |}.

(** The pool has a corrupted file under the member's name. *)
Definition corrupted_world : World :=
  {| w_db := empty_db; w_pool := {[ demo_sha256 := "jello" ]}; w_tick := 0 |}.

Definition demo_member : ReleaseMember :=
  {| Path := "main/Contents-amd64"; SHA256 := demo_sha256; SHA512 := demo_sha512; Size := 5 |}.

Definition demo_key : SuiteKey := ("https", "deb.example.org", "/debian/dists/stable").

Definition demo_run : result adoption_error string * World :=
  @adoptMemberWithRetry quiet_env dateless 1 demo_key demo_member true corrupted_world.

Lemma demo_member_ok : member_ok demo_member.
Proof.
  constructor; try (vm_compute; reflexivity).
  - right. vm_compute. reflexivity.
  - right. vm_compute. reflexivity.
  - left. intros Hd. vm_compute in Hd. discriminate Hd.
  - vm_compute. split; [intros Hd; discriminate Hd|reflexivity].
Qed.

Lemma answered_pair {A B} (p : A * B) a : p.1 = a → p = (a, p.2).
Proof. intros <-. by destruct p. Qed.

Lemma fetched_run : demo_run = (Ok demo_sha256, demo_run.2).
Proof. apply answered_pair. vm_compute. reflexivity. Qed.

Lemma adopted_member_verified_witness :
  demo_run.1 = Ok demo_sha256 ∧ is_Some (blob_t (w_db demo_run.2) !! demo_sha256).
Proof.
  split; [rewrite fetched_run; reflexivity|].
  exact (proj2 (proj2 (proj2 (@adopted_member_verified quiet_env dateless 1 demo_key demo_member true
    corrupted_world demo_sha256 demo_run.2 demo_member_ok fetched_run)))).
Defined.
