(* ===== verification/Fetch.v ===== *)
(** * Upstream fetches (internal/fetch)

    A fetch streams an upstream object into a destination, resuming an
    interrupted transfer with a conditional range request and starting over
    when the server's copy has changed.  The network is a function from the
    number of the attempt and the request to a reply; the disk may refuse a
    write or a truncation. *)
From S2P Require Import Prelude GoStrings GoText.
Local Open Scope Z_scope.

(** ** Errors *)

(** What is left of a network error once it is classified. *)
Inductive net_error := Canceled | DeadlineExceeded | DNSError | OpError | OtherNetError.

(** The errors [Fetch] and [Conditional] return, with what they wrap. *)
Inductive fetch_error :=
| BadArgument
| InvalidURL
| HostNotAllowed
| TargetDenied
| ProxyAuthRequired                      (** wraps ErrUpstreamUnavailable *)
| StatusCode (code : Z)                  (** [*StatusError] *)
| RedirectBlocked (code : option Z)      (** with the 3xx that was refused, when there is one *)
| HostUnreachable                        (** wraps ErrUpstreamUnavailable *)
| CacheWriteFailed
| SizeMismatch
| InvalidContentRange
| TotalSizeMismatch
| ServerError                            (** ErrUpstreamServerError, bare *)
| ConditionalBodyTooLarge
| Transport (e : net_error)
| Exhausted (last : fetch_error).        (** ErrUpstreamUnavailable and the last attempt's error *)

(** The sentinels that [errors.Is] asks for. *)
Inductive sentinel :=
| ErrHostNotAllowed | ErrTargetDenied | ErrUpstreamUnavailable | ErrProxyAuthRequired
| ErrUpstreamStatus | ErrUpstreamServerError | ErrSizeMismatch | ErrInvalidContentRange
| ErrTotalSizeMismatch | ErrInvalidURL | ErrRedirectBlocked | ErrCacheWriteFailed
| ErrHostUnreachable | ErrConditionalBodyTooLarge
| ContextCanceled | ContextDeadlineExceeded.

(** [StatusError.Is] *)
Definition status_is (code : Z) (s : sentinel) : bool :=
  match s with
  | ErrUpstreamStatus => (400 <=? code) && (code <? 500)
  | ErrUpstreamServerError => (500 <=? code) && (code <? 600)
  | _ => false
  end.

Fixpoint errors_is (e : fetch_error) (s : sentinel) : bool :=
  match e, s with
  | InvalidURL, ErrInvalidURL | HostNotAllowed, ErrHostNotAllowed | TargetDenied, ErrTargetDenied
  | ProxyAuthRequired, ErrProxyAuthRequired | ProxyAuthRequired, ErrUpstreamUnavailable
  | HostUnreachable, ErrHostUnreachable | HostUnreachable, ErrUpstreamUnavailable
  | CacheWriteFailed, ErrCacheWriteFailed | SizeMismatch, ErrSizeMismatch
  | InvalidContentRange, ErrInvalidContentRange | TotalSizeMismatch, ErrTotalSizeMismatch
  | ServerError, ErrUpstreamServerError | ConditionalBodyTooLarge, ErrConditionalBodyTooLarge
  | RedirectBlocked _, ErrRedirectBlocked
  | Transport Canceled, ContextCanceled | Transport DeadlineExceeded, ContextDeadlineExceeded
  | Exhausted _, ErrUpstreamUnavailable => true
  | StatusCode code, s | RedirectBlocked (Some code), s => status_is code s
  | Exhausted e, s => errors_is e s
  | _, _ => false
  end.

(** [errors.As] of a [*StatusError], and of a [*net.OpError] with or without
    a [*net.DNSError] in it. *)
Fixpoint as_status (e : fetch_error) : option Z :=
  match e with
  | StatusCode code | RedirectBlocked (Some code) => Some code
  | Exhausted e => as_status e
  | _ => None
  end.

Fixpoint as_net (e : fetch_error) : option net_error :=
  match e with Transport n => Some n | Exhausted e => as_net e | _ => None end.

Definition isRetryable (e : fetch_error) : bool :=
  if errors_is e ContextCanceled || errors_is e ContextDeadlineExceeded then false
  else if errors_is e ErrHostNotAllowed || errors_is e ErrTargetDenied then false
  else if errors_is e ErrProxyAuthRequired then false
  else match as_status e with
  | Some code => (500 <=? code) && (code <? 600)
  | None =>
      if errors_is e ErrUpstreamStatus then false
      else if errors_is e ErrRedirectBlocked || errors_is e ErrInvalidURL then false
      else if errors_is e ErrHostUnreachable then false
      else if errors_is e ErrCacheWriteFailed then false
      else true
  end.

(** The rows of the metric's outcome table, in their order. *)
Definition classifyError (e : fetch_error) (conditional : bool) : string :=
  if errors_is e ErrHostNotAllowed then "host_not_allowed"
  else if errors_is e ErrTargetDenied then "target_denied"
  else if errors_is e ErrInvalidURL then "invalid_url"
  else if errors_is e ErrRedirectBlocked then "redirect_blocked"
  else if conditional && errors_is e ErrConditionalBodyTooLarge then "body_too_large"
  else if errors_is e ErrCacheWriteFailed then "cache_write_failed"
  else if errors_is e ErrSizeMismatch then "size_mismatch"
  else if errors_is e ErrInvalidContentRange then "invalid_content_range"
  else if errors_is e ErrTotalSizeMismatch then "total_size_mismatch"
  else if errors_is e ErrHostUnreachable then "host_unreachable"
  else if errors_is e ContextDeadlineExceeded then "timeout"
  else if errors_is e ContextCanceled then "canceled"
  else
    let by_class code := if (500 <=? code) && (code <? 600) then Some "5xx"
                         else if (400 <=? code) && (code <? 500) then Some "4xx" else None in
    match as_status e ≫= by_class with
    | Some l => l
    | None =>
        if errors_is e ErrUpstreamServerError then "5xx"
        else if errors_is e ErrUpstreamStatus then "4xx"
        else if errors_is e ErrUpstreamUnavailable then "unavailable"
        else match as_net e with
        | Some DNSError => "dns_failed"
        | Some OpError => "connect_failed"
        | _ => "error"
        end
    end.

(** ** Hosts and redirects *)

Definition normalizeHost (h : string) : string :=
  let h := ToLower (trim_suffix h ".") in
  match h with
  | String "[" t => if has_suffix "]" t then trim_suffix t "]" else h
  | _ => h
  end.

(** A compiled allowlist: each pattern as the hosts it matches. *)
Definition hostAllowed (allow : list (string → bool)) (host : string) : bool :=
  existsb (λ re, re host) allow.

Record Client := {
  allow : list (string → bool);
  allowDowngrade : bool;
  proxyEnabled : bool;
  maxRetries : nat;
}.

(** The scheme and host of a hop. *)
Record hop := { h_scheme : string; h_hostname : string }.

Definition http_scheme (s : string) : bool := (s =? "http")%string || (s =? "https")%string.

(** May the redirect to [req] be followed after the hops [via], newest last? *)
Definition checkRedirect (c : Client) (req : hop) (via : list hop) : bool :=
  if (10 <=? length via)%nat then false
  else
    let scheme := ToLower (h_scheme req) in
    if negb (http_scheme scheme) then false
    else
      let prevScheme := ToLower (match last via with Some p => h_scheme p | None => "" end) in
      if negb (allowDowngrade c) && (prevScheme =? "https")%string && (scheme =? "http")%string then false
      else
        let target := normalizeHost (h_hostname req) in
        negb (target =? "")%string && hostAllowed (allow c) target.

Record Target := { CanonicalHost : string; t_URL : string }.

(** The gate before any network I/O; [parse] is [url.Parse] with the URL's
    scheme and hostname. *)
Definition checkTarget (c : Client) (parse : string → option hop) (t : Target) : option fetch_error :=
  match parse (t_URL t) with
  | None => Some InvalidURL
  | Some u =>
      if negb (http_scheme (ToLower (h_scheme u))) then Some InvalidURL
      else
        let urlHost := normalizeHost (h_hostname u) in
        if (urlHost =? "")%string then Some InvalidURL
        else
          let canonHost := normalizeHost (CanonicalHost t) in
          if negb (urlHost =? canonHost)%string then Some InvalidURL
          else if hostAllowed (allow c) canonHost then None else Some HostNotAllowed
  end.

(** ** The network *)

(** The headers [doAttempt] sets; the range is open-ended. *)
Record request := { rq_range : option (Z * string) }.   (** first byte, If-Range *)

Record response := {
  StatusLine : Z;
  ContentType : string;
  ContentLength : Z;                (** -1 when it is unknown *)
  ETag : string;
  LastModified : string;
  ContentRange : string;
  Body : string;                    (** the bytes the body reader yields *)
  BodyError : option net_error;     (** what it ends with, if not the end of the body *)
}.

(** What [http.Client.Do] answers. *)
Inductive reply :=
| DialDenied
| RedirectRefused (resp : option Z)
| ProxyConnectAuth
| CooldownProbeFailed
| NetFailed (e : net_error)
| Answered (r : response).

Record FetchResult := {
  fr_Status : Z;
  fr_ContentType : string;
  fr_ContentLength : Z;
  fr_ETag : string;
  fr_LastModified : string;
}.

Definition parseContentRange (s : string) : option (Z * Z * Z) :=
  let s := TrimSpace s in
  rest ← cut_prefix s "bytes ";
  '(span, totalStr) ← cut_byte slash rest;
  '(f, l) ← cut_byte "-" span;
  first ← ParseInt f;
  last ← ParseInt l;
  total ← (if (totalStr =? "*")%string then Some (-1) else ParseInt totalStr);
  if last <? first then None else Some (first, last, total).

(** The disk: how many bytes of the [n]th attempt's body it takes before it
    fails, and whether its truncation fails. *)
Class Disk := {
  write_limit : nat → option nat;
  truncate_fails : nat → bool;
}.

Section fetch.
Context `{Disk} (c : Client) (net : nat → request → reply) (ctx_err : nat → option net_error).

Definition do_error (e : reply) : fetch_error + response :=
  match e with
  | DialDenied => inl TargetDenied
  | RedirectRefused r => inl (RedirectBlocked r)
  | ProxyConnectAuth => inl ProxyAuthRequired
  | CooldownProbeFailed => inl HostUnreachable
  | NetFailed e => inl (Transport e)
  | Answered r => if proxyEnabled c && (StatusLine r =? 407) then inl ProxyAuthRequired else inr r
  end.

(** [streamBody]: the write error comes first. *)
Definition streamBody (i : nat) (r : response) (dst : string) : result fetch_error unit * string :=
  let read := (match BodyError r with Some e => Err (Transport e) | None => Ok tt end, dst +:+ Body r) in
  match write_limit i with
  | Some k => if (k <? String.length (Body r))%nat then (Err CacheWriteFailed, dst +:+ take_bytes k (Body r))
              else read
  | None => read
  end.

Definition headers (r : response) (status len : Z) : FetchResult :=
  {| fr_Status := status; fr_ContentType := ContentType r; fr_ContentLength := len;
     fr_ETag := ETag r; fr_LastModified := LastModified r |}.

(** A 200: the whole object, from an empty destination. *)
Definition take_full (i : nat) (r : response) (sendRange : bool) (dst : string) : result fetch_error unit * string :=
  if sendRange && truncate_fails i then (Err CacheWriteFailed, dst)
  else
    let '(o, dst) := streamBody i r (if sendRange then "" else dst) in
    match o with
    | Err e => (Err e, dst)
    | Ok _ => if (0 <? ContentLength r) && negb (len dst =? ContentLength r) then (Err SizeMismatch, dst)
              else (Ok tt, dst)
    end.

(** A 206: the rest of the object, at the end of the destination. *)
Definition take_part (i : nat) (r : response) (rangeStart expectedTotal : Z) (dst : string)
  : Z * result fetch_error unit * string :=
  match parseContentRange (ContentRange r) with
  | None => (ContentLength r, Err InvalidContentRange, dst)
  | Some (first, last, total) =>
      if negb (first =? rangeStart) then (ContentLength r, Err InvalidContentRange, dst)
      else if (0 <? expectedTotal) && (total <? 0) then (ContentLength r, Err InvalidContentRange, dst)
      else if (0 <? expectedTotal) && negb (total =? expectedTotal) then (ContentLength r, Err TotalSizeMismatch, dst)
      else if (0 <? total) && (total <=? last) then (ContentLength r, Err InvalidContentRange, dst)
      else
        let '(o, dst) := streamBody i r dst in
        (total,
         match o with
         | Err e => Err e
         | Ok _ => if negb (len dst =? last + 1) then Err SizeMismatch
                   else if (0 <? total) && negb (len dst =? total) then Err SizeMismatch
                   else Ok tt
         end, dst)
  end.

(** One attempt: the headers of a response, its error, the destination. *)
Definition doAttempt (i : nat) (dst : string) (range : option (Z * string)) (expectedTotal : Z)
  : option FetchResult * result fetch_error unit * string :=
  match do_error (net i {| rq_range := range |}) with
  | inl e => (None, Err e, dst)
  | inr r =>
      if StatusLine r =? 204 then
        if (0 <? len dst) && truncate_fails i then (Some (headers r 204 (ContentLength r)), Err CacheWriteFailed, dst)
        else (Some (headers r 200 0), Ok tt, "")
      else if StatusLine r =? 200 then
        let '(o, dst) := take_full i r (match range with Some _ => true | None => false end) dst in
        (Some (headers r 200 (ContentLength r)), o, dst)
      else if StatusLine r =? 206 then
        match range with
        | None => (Some (headers r 206 (ContentLength r)), Err InvalidContentRange, dst)
        | Some (rangeStart, _) =>
            let '(n, o, dst) := take_part i r rangeStart expectedTotal dst in
            (Some (headers r 206 n), o, dst)
        end
      else (Some (headers r (StatusLine r) (ContentLength r)), Err (StatusCode (StatusLine r)), dst)
  end.

(** The retry loop.  The attempts are numbered; an iteration that finds
    nothing to resume by makes none. *)
Record loop := {
  l_initial : option FetchResult;
  l_attempts : nat;
  l_last : option fetch_error;
  l_dst : string;
}.

Definition validator_of (f : FetchResult) : string :=
  if (fr_ETag f =? "")%string then fr_LastModified f else fr_ETag f.

Inductive step := Continue (s : loop) | Return (r : result fetch_error FetchResult) (dst : string).

(** [initial] refreshed by a response that answered 200. *)
Definition refreshed (initial out : option FetchResult) : option FetchResult :=
  match out with Some o => if fr_Status o =? 200 then out else initial | None => initial end.

Definition attempt_step (s : loop) (range : option (Z * string)) : step :=
  let expectedTotal := match l_initial s with Some f => fr_ContentLength f | None => 0 end in
  let '(out, o, dst) := doAttempt (l_attempts s) (l_dst s) range expectedTotal in
  let initial := refreshed (l_initial s) out in
  match o with
  | Ok _ =>
      match initial with
      | Some f => Return (Ok {| fr_Status := 200; fr_ContentType := fr_ContentType f;
                                fr_ContentLength := fr_ContentLength f; fr_ETag := fr_ETag f;
                                fr_LastModified := fr_LastModified f |}) dst
      | None => Return (Err BadArgument) dst     (* a nil dereference: excluded below *)
      end
  | Err e =>
      if negb (isRetryable e) then Return (Err e) dst
      else match ctx_err (l_attempts s) with
      | Some ce => Return (Err (Transport ce)) dst
      | None => Continue {| l_initial := initial; l_attempts := S (l_attempts s); l_last := Some e; l_dst := dst |}
      end
  end.

Definition fetch_step (s : loop) : step :=
  if (maxRetries c <? l_attempts s)%nat then
    Return (Err (Exhausted (default BadArgument (l_last s)))) (l_dst s)
  else
    match l_initial s with
    | Some f =>
        if 0 <? len (l_dst s) then
          let validator := validator_of f in
          if (validator =? "")%string then
            if truncate_fails (l_attempts s) then Return (Err CacheWriteFailed) (l_dst s)
            else Continue {| l_initial := None; l_attempts := l_attempts s; l_last := l_last s; l_dst := "" |}
          else attempt_step s (Some (len (l_dst s), validator))
        else attempt_step s None
    | None => attempt_step s None
    end.

Fixpoint fetch_loop (fuel : nat) (s : loop) : option (result fetch_error FetchResult * string) :=
  match fuel with
  | O => None
  | S fuel => match fetch_step s with Return r dst => Some (r, dst) | Continue s => fetch_loop fuel s end
  end.

(** Each attempt takes at most two iterations, and the last one finds the
    attempts used up. *)
Definition fetch_fuel : nat := 2 * S (maxRetries c) + 2.

Definition Fetch (parse : string → option hop) (t : Target) (dst : string)
  : option (result fetch_error FetchResult * string) :=
  match checkTarget c parse t with
  | Some e => Some (Err e, dst)
  | None => fetch_loop fetch_fuel {| l_initial := None; l_attempts := 0; l_last := None; l_dst := dst |}
  end.
End fetch.

(** ** Conditional requests (conditional.go) *)

Record ConditionalResult := {
  cr_Status : Z;
  cr_ETag : string;
  cr_LastModified : string;
  cr_Body : string;
}.

(** The error of [http.Client.Do]; a refused redirect keeps no status here. *)
Definition conditional_error (e : reply) : option fetch_error :=
  match e with
  | DialDenied => Some TargetDenied
  | RedirectRefused _ => Some (RedirectBlocked None)
  | ProxyConnectAuth => Some ProxyAuthRequired
  | CooldownProbeFailed => Some HostUnreachable
  | NetFailed e => Some (Transport e)
  | Answered _ => None
  end.

(** [net] is given If-None-Match and If-Modified-Since, when they are set. *)
Definition Conditional (c : Client) (net : option string → option string → reply)
    (parse : string → option hop) (t : Target) (etag lastmod : string) (maxBody : Z)
  : result fetch_error ConditionalResult :=
  if maxBody <=? 0 then Err BadArgument
  else match checkTarget c parse t with
  | Some e => Err e
  | None =>
      let header v := if (v =? "")%string then None else Some v in
      match net (header etag) (header lastmod) with
      | Answered r =>
          let code := StatusLine r in
          let out body := {| cr_Status := code; cr_ETag := ETag r; cr_LastModified := LastModified r;
                             cr_Body := body |} in
          if proxyEnabled c && (code =? 407) then Err ProxyAuthRequired
          else if code =? 304 then Ok (out "")
          else if code =? 200 then
            if maxBody <? ContentLength r then Err ConditionalBodyTooLarge
            else
              (* the reader stops after [maxBody + 1] bytes, before a later error *)
              let over := maxBody <? len (Body r) in
              match BodyError r with
              | Some e => if over then Err ConditionalBodyTooLarge else Err (Transport e)
              | None => if over then Err ConditionalBodyTooLarge else Ok (out (Body r))
              end
          else if (500 <=? code) && (code <? 600) then Err ServerError
          else Err (StatusCode code)
      | e => match conditional_error e with Some e => Err e | None => Err BadArgument end
      end
  end.

Definition ClassifyFetchOutcome (e : option fetch_error) : string :=
  match e with None => "success" | Some e => classifyError e false end.

Definition ClassifyConditionalOutcome (r : result fetch_error ConditionalResult) : string :=
  match r with
  | Ok res => if cr_Status res =? 200 then "cond_changed"
              else if cr_Status res =? 304 then "cond_unchanged" else "error"
  | Err e => classifyError e true
  end.

(** ** Hosts that do not answer (unreachable.go, dialer.go) *)

(** [None] is the tracker a zero cooldown disables; times and durations are in
    one unit. *)
Record Tracker := { cooldown : Z; probeTimeout : Z }.

Abbreviation failures := (gmap string Z).

Definition inCooldown (u : option Tracker) (now : Z) (host : string) (last : failures)
  : (bool * Z) * failures :=
  match u with
  | None => ((false, 0), last)
  | Some u =>
      match last !! host with
      | None => ((false, 0), last)
      | Some t => if cooldown u <=? now - t then ((false, 0), delete host last)
                  else ((true, probeTimeout u), last)
      end
  end.

Definition markFailed (u : option Tracker) (now : Z) (host : string) (last : failures) : failures :=
  match u with
  | None => last
  | Some u =>
      if (host =? "")%string then last
      else filter (λ kt, kt.1 = host ∨ now - kt.2 < cooldown u) (<[host := now]> last)
  end.

Definition markOK (u : option Tracker) (host : string) (last : failures) : failures :=
  match u with
  | None => last
  | Some _ => if (host =? "")%string then last else delete host last
  end.

(** The wrapped dialer: a host in its cooldown gets one short probe.  [dial]
    is given the probe's deadline, 0 for none; [later] is the time at which it
    returns. *)
Definition wrapDial (u : option Tracker) (now later : Z) (host : string) (dial : Z → option reply)
    (last : failures) : option reply * failures :=
  let '((cooling, probe), last) := inCooldown u now host last in
  match dial (if cooling && (0 <? probe) then probe else 0) with
  | None => (None, markOK u host last)
  | Some DialDenied => (Some DialDenied, last)
  | Some e => (Some (if cooling : bool then CooldownProbeFailed else e), markFailed u later host last)
  end.

(** ** Termination and the number of requests *)

Section total.
Context `{Disk} (c : Client) (ctx_err : nat → option net_error).

(** Iterations left at most. *)
Definition measure (s : loop) : nat :=
  2 * (S (maxRetries c) - l_attempts s) + match l_initial s with Some _ => 1 | None => 0 end.

Lemma step_measure net s s' : fetch_step c net ctx_err s = Continue s' → (measure s' < measure s)%nat.
Proof.
  unfold fetch_step. destruct (Nat.ltb_spec (maxRetries c) (l_attempts s)) as [|Hle]; [done|].
  assert (∀ range s1, attempt_step c net ctx_err s range = Continue s1 → (measure s1 < measure s)%nat) as Hatt.
  { intros range s1. unfold attempt_step. destruct (doAttempt _ _ _ _ _ _) as [[out o] dst].
    destruct o as [u|e]; [by destruct (refreshed _ _)|]. destruct (negb (isRetryable e)); [done|].
    destruct (ctx_err _); [done|]. intros [= <-]. unfold measure. cbn.
    destruct (refreshed _ _), (l_initial s); lia. }
  destruct (l_initial s) as [f|] eqn:Hi; [|apply Hatt].
  destruct (0 <? len (l_dst s)); [|apply Hatt]. destruct (validator_of f =? "")%string; [|apply Hatt].
  destruct (truncate_fails _); [done|]. intros [= <-]. unfold measure. cbn. rewrite Hi. lia.
Qed.

Lemma loop_total net fuel s : (measure s < fuel)%nat → is_Some (fetch_loop c net ctx_err fuel s).
Proof.
  revert s. induction fuel as [|fuel IH]; intros s Hm; [lia|]. cbn [fetch_loop].
  destruct (fetch_step c net ctx_err s) as [s'|r dst] eqn:Hs; [|eauto].
  apply IH. pose proof (step_measure net s s' Hs). lia.
Qed.

(** The loop asks for the attempts up to [maxRetries] only. *)
Lemma loop_ext net net' fuel s :
  (∀ i rq, (i ≤ maxRetries c)%nat → net' i rq = net i rq) →
  fetch_loop c net' ctx_err fuel s = fetch_loop c net ctx_err fuel s.
Proof.
  intros Hnet. revert s. induction fuel as [|fuel IH]; intros s; [done|]. cbn [fetch_loop].
  assert (fetch_step c net' ctx_err s = fetch_step c net ctx_err s) as ->.
  { unfold fetch_step. destruct (Nat.ltb_spec (maxRetries c) (l_attempts s)) as [|Hle]; [done|].
    assert (∀ range, attempt_step c net' ctx_err s range = attempt_step c net ctx_err s range) as Hatt.
    { intros range. unfold attempt_step, doAttempt. by rewrite Hnet. }
    destruct (l_initial s); by rewrite !Hatt. }
  destruct (fetch_step c net ctx_err s); [apply IH|done].
Qed.

(** C32. A fetch always returns, after at most [maxRetries + 1] requests:
    whatever the network, the disk and the deadline do, the loop ends within
    its fuel, and its answer and what it wrote depend on the replies to those
    requests only. *)
Theorem Fetch_returns net parse t dst :
  (∃ answer, Fetch c net ctx_err parse t dst = Some answer) ∧
  ∀ net', (∀ i rq, (i ≤ maxRetries c)%nat → net' i rq = net i rq) →
    Fetch c net' ctx_err parse t dst = Fetch c net ctx_err parse t dst.
Proof.
  unfold Fetch. destruct (checkTarget c parse t) as [e|]; [eauto|]. split.
  - apply loop_total. unfold measure, fetch_fuel. cbn. lia.
  - intros net' Hnet. by apply loop_ext.
Qed.
End total.

(** ** What a fetch assembles *)

Definition prefix_of (a b : string) : Prop := ∃ d, b = a +:+ d.

Lemma prefix_refl a : prefix_of a a.
Proof. exists "". by rewrite append_nil_r. Qed.
Lemma prefix_nil a : prefix_of "" a.
Proof. by exists a. Qed.
Lemma prefix_take k s : prefix_of (take_bytes k s) s.
Proof. exists (drop_bytes k s). by rewrite take_drop_bytes. Qed.
Lemma prefix_trans a b d : prefix_of a b → prefix_of b d → prefix_of a d.
Proof. intros [x ->] [y ->]. exists (x +:+ y). by rewrite append_assoc. Qed.
Lemma prefix_extend a b d : prefix_of a d → prefix_of b (drop_bytes (String.length a) d) → prefix_of (a +:+ b) d.
Proof. intros [x ->] [y Hy]. rewrite drop_bytes_app in Hy. subst. exists y. by rewrite append_assoc. Qed.
Lemma prefix_full a b : prefix_of a b → len a = len b → a = b.
Proof.
  intros [x ->] Hl. rewrite len_append in Hl. destruct x; [by rewrite append_nil_r|].
  unfold len in Hl. simpl in Hl. lia.
Qed.

(** A server: its copy at each attempt, with the validators it gives. *)
Record Server := { sv_copy : nat → string; sv_etag : nat → string; sv_lastmod : nat → string }.

Definition validates (S : Server) (v : string) (i : nat) : Prop :=
  v ≠ "" ∧ (v = sv_etag S i ∨ v = sv_lastmod S i).

(** A server that keeps to HTTP: one validator is never given for two
    different objects; a 200 carries a prefix of the current one, its length
    if it is declared, and ends without an error only at its end when it is
    not; a range is answered with a 206 only if the validator is the current
    object's, and then with bytes of that object from the asked position. *)
Record honest (S : Server) (net : nat → request → reply) : Prop := {
  hn_identify v i j : validates S v i → validates S v j → sv_copy S i = sv_copy S j;
  hn_full i rq r : net i rq = Answered r → StatusLine r = 200 →
    ETag r = sv_etag S i ∧ LastModified r = sv_lastmod S i ∧ prefix_of (Body r) (sv_copy S i) ∧
    (0 < ContentLength r → ContentLength r = len (sv_copy S i)) ∧
    (ContentLength r <= 0 → BodyError r = None → Body r = sv_copy S i);
  hn_part i n v r first last total : net i {| rq_range := Some (n, v) |} = Answered r →
    StatusLine r = 206 → parseContentRange (ContentRange r) = Some (first, last, total) → first = n →
    validates S v i ∧ prefix_of (Body r) (drop_bytes (Z.to_nat n) (sv_copy S i)) ∧
    (0 < total → total = len (sv_copy S i)) ∧ (total <= 0 → last + 1 = len (sv_copy S i)) }.

Section assembly.
Context `{Disk} (c : Client) (net : nat → request → reply) (ctx_err : nat → option net_error).
Context (srv : Server) (Hhonest : honest srv net).

(** What is written so far is the beginning of the copy the headers are of. *)
Definition begun (f : FetchResult) (dst : string) : Prop :=
  ∃ i, prefix_of dst (sv_copy srv i) ∧ fr_ETag f = sv_etag srv i ∧ fr_LastModified f = sv_lastmod srv i.

Definition resumable (s : loop) : Prop :=
  match l_initial s with Some f => begun f (l_dst s) | None => l_dst s = "" end.

(** What an answer with [f] must have written: a server's copy whose
    validators [f] has, or nothing, for a 204. *)
Definition assembled (f : FetchResult) (dst : string) : Prop :=
  (∃ i, dst = sv_copy srv i ∧ fr_ETag f = sv_etag srv i ∧ fr_LastModified f = sv_lastmod srv i) ∨
  (dst = "" ∧ fr_ContentLength f = 0 ∧ ∃ i rq r, net i rq = Answered r ∧ StatusLine r = 204).

Lemma streamBody_ok i r dst o dst' :
  streamBody i r dst = (o, dst') →
  ∃ b, dst' = dst +:+ b ∧ prefix_of b (Body r) ∧ (o = Ok tt → b = Body r ∧ BodyError r = None).
Proof.
  unfold streamBody. set (read := (_, dst +:+ Body r)).
  assert (read = (o, dst') → ∃ b, dst' = dst +:+ b ∧ prefix_of b (Body r) ∧
            (o = Ok tt → b = Body r ∧ BodyError r = None)) as Hread.
  { intros [= <- <-]. exists (Body r). split_and!; [done|apply prefix_refl|]. by destruct (BodyError r). }
  destruct (write_limit i) as [k|]; [|done]. destruct (k <? String.length (Body r))%nat; [|done].
  intros [= <- <-]. eexists. split_and!; [done|apply prefix_take|done].
Qed.

Lemma take_full_ok i rq r range dst o dst' :
  net i rq = Answered r → StatusLine r = 200 → (range = false → dst = "") →
  take_full i r range dst = (o, dst') →
  (o = Err CacheWriteFailed) ∨ (prefix_of dst' (sv_copy srv i) ∧ (o = Ok tt → dst' = sv_copy srv i)).
Proof.
  intros Hnet Hst Hdst. destruct (hn_full _ _ Hhonest _ _ _ Hnet Hst) as (_ & _ & Hpre & Hlen & Hend).
  unfold take_full. destruct (range && truncate_fails i); [intros [= <- <-]; by left|].
  replace (if range then "" else dst) with "" by (destruct range; [done|symmetry; auto]).
  destruct (streamBody i r "") as [o1 d1] eqn:Hs. apply streamBody_ok in Hs as (b & -> & Hb & Hok).
  rewrite append_empty. assert (prefix_of b (sv_copy srv i)) as Hpb by by eapply prefix_trans.
  destruct o1 as [[]|e]; [|intros [= <- <-]; by right].
  destruct (Hok eq_refl) as [-> Herr].
  destruct ((0 <? ContentLength r) && negb (len (Body r) =? ContentLength r)) eqn:Hc;
    intros [= <- <-]; right; split; try done. intros _.
  destruct (Z.ltb_spec 0 (ContentLength r)) as [Hpos|Hneg]; [|by apply Hend].
  cbn [andb] in Hc. bclean. apply prefix_full; [done|]. rewrite Hc. by apply Hlen.
Qed.

(** The rest arrives only from the copy the beginning is of. *)
Lemma take_part_ok i r v expected dst n o dst' j :
  net i {| rq_range := Some (len dst, v) |} = Answered r → StatusLine r = 206 →
  validates srv v j → prefix_of dst (sv_copy srv j) →
  take_part i r (len dst) expected dst = (n, o, dst') →
  prefix_of dst' (sv_copy srv j) ∧ (o = Ok tt → dst' = sv_copy srv j).
Proof.
  intros Hnet Hst Hv Hpre. unfold take_part.
  destruct (parseContentRange (ContentRange r)) as [[[first last] total]|] eqn:Hp; [|by intros [= <- <- <-]].
  destruct (Z.eqb_spec first (len dst)) as [Hf|]; cbn [negb]; [|by intros [= <- <- <-]].
  destruct (hn_part _ _ Hhonest _ _ _ _ _ _ _ Hnet Hst Hp Hf) as (Hv' & Hb & Htot & Hend).
  rewrite (hn_identify _ _ Hhonest v i j Hv' Hv) in Hb, Htot, Hend.
  unfold len in Hb. rewrite Nat2Z.id in Hb.
  destruct ((0 <? expected) && (total <? 0)); [by intros [= <- <- <-]|].
  destruct ((0 <? expected) && negb (total =? expected)); [by intros [= <- <- <-]|].
  destruct ((0 <? total) && (total <=? last)); [by intros [= <- <- <-]|].
  destruct (streamBody i r dst) as [o1 d1] eqn:Hs. apply streamBody_ok in Hs as (b & -> & Hbb & Hok).
  assert (prefix_of (dst +:+ b) (sv_copy srv j)) as Hp1 by (apply prefix_extend; [done|by eapply prefix_trans]).
  intros [= <- <- <-]. split; [done|]. destruct o1 as [[]|e]; [|done].
  destruct (Z.eqb_spec (len (dst +:+ b)) (last + 1)) as [Hl|]; cbn [negb]; [|done].
  destruct (Z.ltb_spec 0 total) as [Hpos|Hneg]; cbn [andb].
  - destruct (Z.eqb_spec (len (dst +:+ b)) total) as [Ht|]; cbn [negb]; [|done].
    intros _. apply prefix_full; [done|]. rewrite Ht. by apply Htot.
  - intros _. apply prefix_full; [done|]. rewrite Hl. by apply Hend.
Qed.

Lemma validator_validates f dst : begun f dst → validator_of f ≠ "" →
  ∃ j, validates srv (validator_of f) j ∧ prefix_of dst (sv_copy srv j) ∧
       fr_ETag f = sv_etag srv j ∧ fr_LastModified f = sv_lastmod srv j.
Proof.
  intros (j & Hp & He & Hl) Hv. exists j. split_and!; try done. split; [done|].
  unfold validator_of. destruct (fr_ETag f =? "")%string; auto.
Qed.

(** The attempt keeps the beginning, or answers with the whole. *)
Lemma attempt_written s range :
  resumable s →
  match range with
  | None => l_dst s = ""
  | Some (n, v) => n = len (l_dst s) ∧ ∃ f, l_initial s = Some f ∧ v = validator_of f ∧ v ≠ ""
  end →
  match attempt_step c net ctx_err s range with
  | Continue s' => resumable s'
  | Return (Ok f) dst => assembled f dst
  | Return (Err _) _ => True
  end.
Proof.
  intros Hres Hrange. unfold attempt_step, doAttempt.
  destruct (do_error c (net (l_attempts s) {| rq_range := range |})) as [e|r] eqn:Hdo.
  { cbn. destruct (isRetryable e); [|done]. by destruct (ctx_err _). }
  assert (net (l_attempts s) {| rq_range := range |} = Answered r) as Hnet.
  { unfold do_error in Hdo. destruct (net _ _); try done. destruct (_ && _); congruence. }
  destruct (Z.eqb_spec (StatusLine r) 204) as [H204|_].
  { destruct ((0 <? _) && _); [done|]. cbn. right. split_and!; try done. eauto. }
  destruct (Z.eqb_spec (StatusLine r) 200) as [H200|Hn200].
  { destruct (take_full _ r _ _) as [o dst] eqn:Ht.
    eapply take_full_ok in Ht; [|exact Hnet|done|by destruct range].
    destruct (hn_full _ _ Hhonest _ _ _ Hnet H200) as (He & Hl & _).
    destruct Ht as [->|[Hp Hok]]; [done|]. cbn.
    destruct o as [[]|e].
    - left. exists (l_attempts s). split_and!; [by apply Hok|done..].
    - destruct (negb (isRetryable e)); [done|]. destruct (ctx_err _); [done|].
      exists (l_attempts s). by split_and!. }
  destruct (Z.eqb_spec (StatusLine r) 206) as [H206|Hother].
  - destruct range as [[n v]|]; [|cbn; by destruct (ctx_err _)].
    destruct Hrange as (-> & f & Hf & Hv & Hne). subst v.
    unfold resumable in Hres. rewrite Hf in Hres.
    destruct (validator_validates f _ Hres Hne) as (j & Hval & Hpre & He & Hl).
    destruct (take_part _ r _ _ _) as [[n o] dst] eqn:Ht.
    eapply take_part_ok in Ht as [Hp Hok]; [|done..].
    unfold refreshed. cbn. rewrite Hf. destruct o as [[]|e].
    + left. exists j. split_and!; [by apply Hok|done..].
    + destruct (negb (isRetryable e)); [done|]. destruct (ctx_err _); [done|].
      unfold resumable. cbn. exists j. by split_and!.
  - unfold refreshed. cbn. destruct (_ && _); [|done]. destruct (ctx_err _); [done|].
    destruct (Z.eqb_spec (StatusLine r) 200); [lia|]. exact Hres.
Qed.

Lemma loop_ok fuel s f dst :
  resumable s → fetch_loop c net ctx_err fuel s = Some (Ok f, dst) → assembled f dst.
Proof.
  revert s. induction fuel as [|fuel IH]; intros s Hres Hrun; [done|]. cbn [fetch_loop] in Hrun.
  assert (match fetch_step c net ctx_err s with
          | Continue s' => resumable s' | Return (Ok f) dst => assembled f dst | Return (Err _) _ => True end)
    as Hstep.
  { unfold fetch_step. destruct (maxRetries c <? l_attempts s)%nat; [done|].
    destruct (l_initial s) as [g|] eqn:Hg.
    - destruct (Z.ltb_spec 0 (len (l_dst s))) as [Hpos|Hz].
      + destruct (String.eqb_spec (validator_of g) "") as [Hv|Hv].
        * by destruct (truncate_fails _).
        * apply attempt_written; [done|]. split; [done|]. exists g. done.
      + apply attempt_written; [done|]. cbn. destruct (l_dst s); [done|]. unfold len in Hz. simpl in Hz. lia.
    - apply attempt_written; [done|]. unfold resumable in Hres. by rewrite Hg in Hres. }
  destruct (fetch_step c net ctx_err s) as [s'|r d]; [by eapply IH|]. by simplify_eq.
Qed.

(** C23. A fetch that succeeds has written one copy of the object, whole: from
    a server that keeps to HTTP, however often the transfer was interrupted,
    resumed, restarted or answered by a changed object, and wherever the disk
    refused, the destination is exactly a copy the server had at some
    attempt, with the validators the answer carries, and never a splice of
    two (or empty, when the server said 204). *)
Theorem Fetch_resumes parse t f dst :
  Fetch c net ctx_err parse t "" = Some (Ok f, dst) → assembled f dst.
Proof.
  unfold Fetch. destruct (checkTarget c parse t); [done|]. by apply loop_ok.
Qed.
End assembly.

(** ** The other helpers *)

(** A conditional answer is a 304, or a body within the bound. *)
Lemma Conditional_bounded c net parse t etag lastmod maxBody r :
  Conditional c net parse t etag lastmod maxBody = Ok r →
  cr_Status r = 304 ∧ cr_Body r = "" ∨ cr_Status r = 200 ∧ len (cr_Body r) <= maxBody.
Proof.
  unfold Conditional. destruct (maxBody <=? 0); [done|]. destruct (checkTarget c parse t); [done|].
  destruct (net _ _) as [|[]| | | |r0]; try done. destruct (_ && _); [done|].
  destruct (Z.eqb_spec (StatusLine r0) 304) as [H3|]; [intros [= <-]; by left|].
  destruct (Z.eqb_spec (StatusLine r0) 200) as [H2|]; [|by destruct (_ && _)].
  destruct (maxBody <? ContentLength r0); [done|].
  destruct (BodyError r0), (Z.ltb_spec maxBody (len (Body r0))); try done.
  intros [= <-]. right. split; [done|]. cbn. lia.
Qed.

(** The tracker holds only hosts that failed within the last cooldown. *)
Lemma markFailed_recent u now host last k t :
  0 < cooldown u → markFailed (Some u) now host last !! k = Some t → host ≠ "" → now - t < cooldown u.
Proof.
  intros Hpos Hk Hne. unfold markFailed in Hk. apply String.eqb_neq in Hne. rewrite Hne in Hk.
  apply map_lookup_filter_Some in Hk as [Hk Hor]. cbn in Hor. destruct Hor as [->|?]; [|done].
  rewrite lookup_insert_eq in Hk. injection Hk as <-. lia.
Qed.

(** ** A transfer interrupted once *)

Definition demo_client : Client :=
  {| allow := [λ h, (h =? "deb.example.org")%string]; allowDowngrade := false; proxyEnabled := false; maxRetries := 3 |}.

Definition demo_server : Server :=
  {| sv_copy := λ _, "hello world"; sv_etag := λ _, "v1"; sv_lastmod := λ _, "" |}.

Definition demo_response (status : Z) (range body : string) (e : option net_error) : response :=
  {| StatusLine := status; ContentType := "text/plain"; ContentLength := 11; ETag := "v1"; LastModified := "";
     ContentRange := range; Body := body; BodyError := e |}.

(** The first transfer breaks after "hello"; the rest is answered to a range
    from there. *)
Definition demo_net (i : nat) (rq : request) : reply :=
  match rq_range rq with
  | Some (5, "v1"%string) => Answered (demo_response 206 "bytes 5-10/11" " world" None)
  | _ => Answered (demo_response 200 "" "hello" (Some OtherNetError))
  end.

Definition good_disk : Disk := {| write_limit := λ _, None; truncate_fails := λ _, false |}.

Definition demo_parse (s : string) : option hop := Some {| h_scheme := "https"; h_hostname := "deb.example.org" |}.
Definition demo_target : Target :=
  {| CanonicalHost := "deb.example.org"; t_URL := "https://deb.example.org/x" |}.

Definition demo_result : FetchResult :=
  {| fr_Status := 200; fr_ContentType := "text/plain"; fr_ContentLength := 11; fr_ETag := "v1"; fr_LastModified := "" |}.

Lemma demo_net_full i rq r : demo_net i rq = Answered r → StatusLine r = 200 →
  r = demo_response 200 "" "hello" (Some OtherNetError).
Proof. unfold demo_net. repeat case_match; intros; by simplify_eq. Qed.

Lemma demo_net_part i rq r : demo_net i rq = Answered r → StatusLine r = 206 →
  r = demo_response 206 "bytes 5-10/11" " world" None ∧ rq_range rq = Some (5, "v1"%string).
Proof. unfold demo_net. repeat case_match; intros; by simplify_eq. Qed.

Lemma demo_honest : honest demo_server demo_net.
Proof.
  split.
  - done.
  - intros i rq r Hn Hs. rewrite (demo_net_full i rq r Hn Hs). cbn. split_and!; try done. by exists " world".
  - intros i n v r first last total Hn Hs Hp Hf.
    destruct (demo_net_part i _ r Hn Hs) as [-> [= -> ->]].
    assert (parseContentRange "bytes 5-10/11" = Some (5, 10, 11)) as Hr by (vm_compute; reflexivity).
    cbn [ContentRange demo_response] in Hp. rewrite Hr in Hp. simplify_eq. split_and!; try done.
    + split; [done|by left].
    + by exists "".
Qed.

Lemma Fetch_resumes_witness :
  @Fetch good_disk demo_client demo_net (λ _, None) demo_parse demo_target "" = Some (Ok demo_result, "hello world") ∧
  assembled demo_net demo_server demo_result "hello world".
Proof.
  assert (@Fetch good_disk demo_client demo_net (λ _, None) demo_parse demo_target "" =
          Some (Ok demo_result, "hello world")) as Hrun by (vm_compute; reflexivity).
  split; [exact Hrun|].
  exact (@Fetch_resumes good_disk demo_client demo_net (λ _, None) demo_server demo_honest demo_parse demo_target
    demo_result "hello world" Hrun).
Defined.
