(* ===== verification/ReleaseDate.v ===== *)
(** * The Date of a Release (internal/freshness/release_date.go)

    apt's reading of the Date field: the three forms of an HTTP date, in UTC,
    as Unix seconds; 0 stands for a Release without a Date that reads. *)
From S2P Require Import Prelude GoStrings GoText ReleaseParse.
Local Open Scope Z_scope.

Definition aptSpace : string := String " " (bytes_of [9; 10; 11; 12; 13]).

Definition isAptWeekday (s : string) : bool :=
  existsb (String.eqb s) ["sun"; "mon"; "tue"; "wed"; "thu"; "fri"; "sat"].

(** The month apt tells from at most three letters; anything else is January. *)
Definition aptMonth (m : string) : Z :=
  let at_ i := match get_byte i m with Some c => Some (lower_byte c) | None => None end in
  let is_at i c := bool_decide (at_ i = Some c) in
  if is_at 0%nat "a"%char then if is_at 1%nat "p"%char then 4 else 8
  else if is_at 0%nat "d"%char then 12
  else if is_at 0%nat "f"%char then 2
  else if is_at 0%nat "j"%char then if is_at 1%nat "a"%char then 1 else if is_at 2%nat "n"%char then 6 else 7
  else if is_at 0%nat "m"%char then if is_at 2%nat "r"%char then 3 else 5
  else if is_at 0%nat "n"%char then 11
  else if is_at 0%nat "o"%char then 10
  else if is_at 0%nat "s"%char then 9
  else 1.

Definition aptDigits (s : string) : option Z :=
  if (s =? "")%string || (5 <? len s) then None
  else if negb (string_forallb is_digit s) then None
  else v ← Atoi s; if 65535 <? v then None else Some v.

Definition aptSignedInt (s : string) : option Z := Atoi s.
Definition aptStoi (s : string) : option Z := aptSignedInt s.

Definition aptUTCZone (z : string) : bool :=
  (z =? "GMT")%string || (z =? "UTC")%string || (z =? "Z")%string || bool_decide (aptStoi z = Some 0).

(** One or two digits, the second only when the value can still fit. *)
Definition clock_num (max : Z) (s : string) : option (Z * string) :=
  match s with
  | String c t =>
      if negb (is_digit c) then None
      else
        let v := byte c - 48 in
        let '(v, rest) := match t with
          | String d t' => if (v * 10 <=? max) && is_digit d then (v * 10 + (byte d - 48), t') else (v, t)
          | EmptyString => (v, t)
          end in
        if v <=? max then Some (v, rest) else None
  | EmptyString => None
  end.

Definition clock_colon (s : string) : option string :=
  match s with String ":" t => Some t | _ => None end.

(** What follows the seconds is not looked at. *)
Definition aptClock (ts : string) : option (Z * Z * Z) :=
  '(h, s) ← clock_num 23 ts; s ← clock_colon s;
  '(m, s) ← clock_num 59 s; s ← clock_colon s;
  '(sec, _) ← clock_num 61 s;
  Some (h, m, sec).

(** [time.Date(...).Unix()] in UTC, the day of the month normalised into the
    next month when it does not exist. *)
Definition leaps (y : Z) : Z := y / 4 - y / 100 + y / 400.
Definition is_leap (y : Z) : bool := (y mod 4 =? 0) && (negb (y mod 100 =? 0) || (y mod 400 =? 0)).
Definition daysBefore (m : Z) : Z :=
  nth (Z.to_nat (m - 1)) [0; 31; 59; 90; 120; 151; 181; 212; 243; 273; 304; 334] 0.
Definition days_of (y m d : Z) : Z :=
  365 * (y - 1970) + (leaps (y - 1) - leaps 1969) + daysBefore m
  + (if is_leap y && (2 <? m) then 1 else 0) + (d - 1).
Definition unix_of (y m d h mi s : Z) : Z := days_of y m d * 86400 + h * 3600 + mi * 60 + s.

(** Addition of 64-bit integers. *)
Definition wrap64 (n : Z) : Z := (n + 2 ^ 63) mod 2 ^ 64 - 2 ^ 63.

Definition date_fields (f : list string) : option (Z * Z * Z * string * string) :=
  match f with
  | [] => None
  | w :: f =>
      let wd := ToLower w in
      if (len wd <? 3) || negb (isAptWeekday (take_bytes 3 wd)) then None
      else if len wd =? 3 then
        match f with
        | [mon; d; ts; y] => d ← aptDigits d; y ← aptSignedInt y; Some (y, aptMonth mon, d, ts, "UTC")
        | _ => None
        end
      else if len wd =? 4 then
        if negb (bool_decide (get_byte 3 wd = Some ","%char)) then None
        else match f with
        | [d; mon; y; ts; zone] =>
            d ← aptDigits d; y ← aptSignedInt y; Some (y, aptMonth mon, d, ts, zone)
        | _ => None
        end
      else if negb (has_suffix "," wd) then None
      else match f with
      | [date; ts; zone] =>
          match split_byte "-" date with
          | [d; mon; yy] =>
              d ← aptStoi d;
              if (d <? 0) || (65535 <? d) then None
              else yy ← aptStoi yy; Some (wrap64 (1900 + yy), aptMonth mon, d, ts, zone)
          | _ => None
          end
      | _ => None
      end
  end.

Definition parseAptDate (s : string) : option Z :=
  '(y, m, d, ts, zone) ← date_fields (FieldsSet aptSpace s);
  if negb (aptUTCZone zone) then None
  else if (y <? 0) || (9999 <? y) || (d <? 1) || (31 <? d) then None
  else '(h, mi, sec) ← aptClock ts; Some (unix_of y m d h mi sec).

Fixpoint release_date (lines : list string) : Z :=
  match lines with
  | [] => 0
  | EmptyString :: l => release_date l
  | (String c _ as line) :: l =>
      if blank c then release_date l
      else match cut_byte ":" line with
      | Some (key, val) =>
          if EqualFold (Trim aptSpace key) "Date" then
            match parseAptDate (Trim aptSpace val) with Some t => t | None => 0 end
          else release_date l
      | None => release_date l
      end
  end.

Definition releaseDate (text : string) : Z := release_date (scan_lines text).1.

(** ** Bounds *)

Lemma parseAptDate_known :
  map parseAptDate ["Thu, 01 Jan 1970 00:00:00 UTC"; "Sat, 29 Feb 2020 12:34:56 GMT";
                    "Sun Nov  6 08:49:37 1994"; "Sunday, 06-Nov-94 08:49:37 GMT";
                    "Fri, 31 Dec 9999 23:59:61 +0000"; "Fri, 31 Dec 9999 23:59:59 +0100"] =
  [Some 0; Some 1582979696; Some 784111777; Some 784111777; Some 253402300801; None].
Proof. vm_compute. reflexivity. Qed.

Lemma clock_num_range max s v r : clock_num max s = Some (v, r) → 0 <= v <= max.
Proof.
  unfold clock_num. destruct s as [|c t]; [done|]. destruct (is_digit c) eqn:Hc; [|done].
  assert (0 <= byte c - 48) as Hlo by (unfold is_digit in Hc; bclean; lia). cbn [negb].
  destruct t as [|d t']; [|destruct ((byte c - 48) * 10 <=? max) eqn:Hm; cbn [andb];
    [destruct (is_digit d) eqn:Hd|]]; intros Hv;
    match type of Hv with (if ?b then _ else _) = _ => destruct b eqn:Hb; [|done] end;
    injection Hv as <- _; bclean; try lia.
  unfold is_digit in Hd. bclean. lia.
Qed.

Lemma aptMonth_range m : 1 <= aptMonth m <= 12.
Proof. unfold aptMonth. repeat case_bool_decide; simpl; lia. Qed.

Lemma daysBefore_range m : 1 <= m <= 12 → 0 <= daysBefore m <= 334.
Proof.
  intros Hm. assert (forallb (λ n, (0 <=? daysBefore (Z.of_nat n)) && (daysBefore (Z.of_nat n) <=? 334))
    (seq 1 12) = true) as Hall by (vm_compute; reflexivity).
  rewrite forallb_forall in Hall. specialize (Hall (Z.to_nat m)).
  rewrite Z2Nat.id in Hall by lia. assert (In (Z.to_nat m) (seq 1 12)) as Hin by (apply in_seq; lia).
  specialize (Hall Hin). bclean. lia.
Qed.

(** A Date that reads is within the years 0 to 9999: the arithmetic never
    leaves 64 bits. *)
Lemma parseAptDate_range s t : parseAptDate s = Some t → - 2 ^ 36 <= t < 2 ^ 38.
Proof.
  unfold parseAptDate. intros ([[[[y m] d] ts] zone] & Hf & H)%bind_Some.
  assert (1 <= m <= 12) as Hm.
  { unfold date_fields in Hf. repeat case_match; try done;
      repeat (apply bind_Some in Hf as (? & ? & Hf)); repeat case_match; try done;
      repeat (apply bind_Some in Hf as (? & ? & Hf)); simplify_eq; apply aptMonth_range. }
  destruct (aptUTCZone zone); [|done]. cbn [negb] in H.
  destruct (_ || _ || _ || _) eqn:Hr; [done|]. bclean.
  apply bind_Some in H as ([[h mi] sec] & Hc & [= <-]). unfold aptClock in Hc.
  apply bind_Some in Hc as ([h0 s1] & Hh%clock_num_range & Hc).
  apply bind_Some in Hc as (s2 & _ & Hc).
  apply bind_Some in Hc as ([m0 s3] & Hmi%clock_num_range & Hc).
  apply bind_Some in Hc as (s4 & _ & Hc).
  apply bind_Some in Hc as ([sec0 s5] & Hsec%clock_num_range & [= -> -> ->]).
  pose proof (daysBefore_range m Hm). unfold unix_of, days_of, leaps.
  assert (-1 <= (y - 1) / 4 <= 2499) by (Z.to_euclidean_division_equations; lia).
  assert (-1 <= (y - 1) / 100 <= 99) by (Z.to_euclidean_division_equations; lia).
  assert (-1 <= (y - 1) / 400 <= 24) by (Z.to_euclidean_division_equations; lia).
  replace (1969 / 4 - 1969 / 100 + 1969 / 400) with 477 by reflexivity.
  change (2 ^ 36) with 68719476736. change (2 ^ 38) with 274877906944.
  destruct (is_leap y && (2 <? m)); lia.
Qed.
