(* ===== verification/Scheduler.v ===== *)
(** * The check scheduler (internal/freshness/scheduler.go, admission.go,
    retry.go, first_adoption.go)

    Due suites wait in per-host queues; hosts take turns, one check in flight
    per host, and a suite whose adoption found no admission slot is parked and
    offered again when one is freed.  A state of the loop is the queues with
    the checks that are in flight. *)
From S2P Require Import Prelude GoStrings AptPath Tables Invariant Snapshots Suites GC.
Local Open Scope Z_scope.

(** ** Pacing *)

(** Durations and times are in nanoseconds; the database's stamps in Unix
    seconds. *)
Definition Second : Z := 10 ^ 9.
Definition Unix (t : Z) : Z := t / Second.

Definition retryBaseDelay : Z := 120 * Second.
Definition retryMaxDelay : Z := 3600 * Second.
Definition retryHorizon : Z := retryMaxDelay + retryMaxDelay / 4.
Definition clockStepTolerance : Z := 2 * Second.
Definition interestWindow : Z := 7 * 24 * 3600 * Second.
Definition minFastTickInterval : Z := 5 * Second.
Definition staleSuiteFactor : Z := 4.

Definition backoffDelay (count : Z) : Z :=
  if count <? 1 then 0
  else if 6 <? count then retryMaxDelay
  else Z.min (Z.shiftl retryBaseDelay (count - 1)) retryMaxDelay.

Definition tickInterval (refresh : Z) : Z := Z.max (refresh / 4) minFastTickInterval.

(** The client's interest, and whether its stamp is ahead of the clock. *)
Definition interested (lastRequested : option Z) (now : Z) : bool * bool :=
  match lastRequested with
  | None => (false, false)
  | Some last => (Z.abs (now - last * Second) <? interestWindow, now + clockStepTolerance <? last * Second)
  end.

Definition recordPacesAdopted (reason : string) : bool :=
  (reason =? "anchor_absent")%string || (reason =? "unsigned_disabled")%string.

Definition IsRefusalReason (reason : string) : bool := existsb (String.eqb reason) refusalReasons.

Definition reason_is (P : string → bool) (s : SuiteFreshness) : bool :=
  (0 <? sf_fail_count s) && match sf_fail_reason s with Some r => P r | None => false end.

(** The gauges of a tick: adopted and unadopted suites past the staleness
    threshold, and the adopted ones that a record paces. *)
Definition stale_count (staleBefore now : Z) (acc : Z * Z * Z) (s : SuiteFreshness) : Z * Z * Z :=
  let '(adopted, unadopted, absent) := acc in
  match sf_last_success s with
  | None => acc
  | Some t =>
      if (staleBefore <=? t) && (t <=? now + clockStepTolerance / Second) then acc
      else match sf_current s with
      | None => (adopted, unadopted + 1, absent)
      | Some _ => if reason_is recordPacesAdopted s then (adopted + 1, unadopted, absent + 1)
                  else (adopted + 1, unadopted, absent)
      end
  end.

Definition staleSuiteCounts (suites : list SuiteFreshness) (staleBefore now : Z) : Z * Z * Z :=
  foldl (stale_count staleBefore now) (0, 0, 0) suites.

Definition failingAdoptionCount (suites : list SuiteFreshness) : nat :=
  length (List.filter (reason_is (λ r, negb (IsRefusalReason r))) suites).

(** The checker's settings a due test reads. *)
Record Checker := {
  ck_adopts : bool;
  ck_refresh : Z;
  ck_maxSuites : Z;
  ck_absentAnswered : gset string;
}.

Definition suiteKey (k : SuiteKey) : string := key_scheme k +:+ "|" +:+ key_host k +:+ "|" +:+ key_path k.

Definition pendingChange (c : Checker) (s : SuiteFreshness) : bool :=
  ck_adopts c && bool_decide (is_Some (sf_change_seen s)) && (sf_fail_count s =? 0).

(** A record whose retry is ahead, within the horizon, paces an adopted suite. *)
Definition paced (c : Checker) (k : SuiteKey) (s : SuiteFreshness) (nowU : Z) : bool :=
  ck_adopts c && bool_decide (is_Some (sf_current s)) && (0 <? sf_fail_count s)
  && match sf_next_retry s with Some t => (nowU <? t) && (t <=? nowU + retryHorizon / Second) | None => false end
  && (match sf_fail_reason s with Some r => recordPacesAdopted r | None => false end
      || bool_decide (suiteKey k ∈ ck_absentAnswered c)).

Definition suiteDue (c : Checker) (k : SuiteKey) (s : SuiteFreshness) (now : Z) : bool :=
  let nowU := Unix now in
  let future := nowU + clockStepTolerance / Second in
  let stale := match sf_last_success s with
               | None => true
               | Some t => (t <=? Unix (now - ck_refresh c)) || (future <? t)
               end in
  let retryDue := ck_adopts c && (0 <? sf_fail_count s)
                  && match sf_next_retry s with Some t => t <=? nowU | None => false end in
  if paced c k s nowU then false
  else if negb stale && negb retryDue && negb (pendingChange c s) then false
  else if ck_adopts c && bool_decide (sf_current s = None) && negb (interested (sf_last_requested s) now).1
  then false
  else match sf_last_check s with
  | Some t => negb ((0 <? sf_check_fail s) && (t <=? future)
                    && (nowU <? t + backoffDelay (sf_check_fail s) / Second))
  | None => true
  end.

(** ** The queues *)

Record schedItem := {
  si_ref : SuiteKey;
  si_key : string;
  si_waiting : bool;
  si_signed : bool;
  si_held : bool;
  si_pending : bool;
  si_waitSeq : Z;
  si_gen : Z;
}.

Definition set_waiting (signed : bool) (seq : Z) (i : schedItem) : schedItem :=
  {| si_ref := si_ref i; si_key := si_key i; si_waiting := true; si_signed := signed; si_held := si_held i;
     si_pending := si_pending i; si_waitSeq := seq; si_gen := si_gen i |}.
Definition set_signed (b : bool) (i : schedItem) : schedItem :=
  {| si_ref := si_ref i; si_key := si_key i; si_waiting := si_waiting i; si_signed := b; si_held := si_held i;
     si_pending := si_pending i; si_waitSeq := si_waitSeq i; si_gen := si_gen i |}.
Definition set_held (b : bool) (i : schedItem) : schedItem :=
  {| si_ref := si_ref i; si_key := si_key i; si_waiting := si_waiting i; si_signed := si_signed i; si_held := b;
     si_pending := si_pending i; si_waitSeq := si_waitSeq i; si_gen := si_gen i |}.
Definition set_pending (b : bool) (i : schedItem) : schedItem :=
  {| si_ref := si_ref i; si_key := si_key i; si_waiting := si_waiting i; si_signed := si_signed i;
     si_held := si_held i; si_pending := b; si_waitSeq := si_waitSeq i; si_gen := si_gen i |}.
Definition withGen (i : schedItem) (gen : Z) : schedItem :=
  {| si_ref := si_ref i; si_key := si_key i; si_waiting := si_waiting i; si_signed := si_signed i;
     si_held := si_held i; si_pending := si_pending i; si_waitSeq := si_waitSeq i; si_gen := gen |}.

Definition si_host (i : schedItem) : string := key_host (si_ref i).

(** The classes in the order they are served: healthy, never checked,
    failing. *)
Record hostQueue := {
  hq_classes : list (list schedItem);
  hq_waiting : list schedItem;
  hq_inFlight : bool;
}.

Definition numSchedClasses : nat := 3.

Definition classOf (s : SuiteFreshness) : nat :=
  if 0 <? sf_check_fail s then 2 else if bool_decide (sf_last_check s = None) then 1 else 0.

Definition hq_new : hostQueue :=
  {| hq_classes := replicate numSchedClasses []; hq_waiting := []; hq_inFlight := false |}.

Definition items (h : hostQueue) : list schedItem := hq_waiting h ++ concat (hq_classes h).

(** [hostQueue.empty] *)
Definition hq_empty (h : hostQueue) : bool :=
  match hq_waiting h with [] => forallb (λ l, match l with [] => true | _ => false end) (hq_classes h) | _ => false end.

Record schedQueues := {
  sq_hosts : gmap string hostQueue;
  sq_order : list string;
  sq_next : nat;
  sq_queued : gset string;
  sq_pending : gset string;
  sq_waitSeq : Z;
}.

Definition newSchedQueues : schedQueues :=
  {| sq_hosts := ∅; sq_order := []; sq_next := 0; sq_queued := ∅; sq_pending := ∅; sq_waitSeq := 0 |}.

Definition with_hosts (f : gmap string hostQueue → gmap string hostQueue) (q : schedQueues) : schedQueues :=
  {| sq_hosts := f (sq_hosts q); sq_order := sq_order q; sq_next := sq_next q; sq_queued := sq_queued q;
     sq_pending := sq_pending q; sq_waitSeq := sq_waitSeq q |}.

Definition new_item (k : SuiteKey) (pending : bool) : schedItem :=
  {| si_ref := k; si_key := suiteKey k; si_waiting := false; si_signed := false; si_held := false;
     si_pending := pending; si_waitSeq := 0; si_gen := 0 |}.

Definition push_class (c : nat) (i : schedItem) (h : hostQueue) : hostQueue :=
  {| hq_classes := alter (λ l, l ++ [i]) c (hq_classes h); hq_waiting := hq_waiting h; hq_inFlight := hq_inFlight h |}.

Definition enqueue (q : schedQueues) (k : SuiteKey) (s : SuiteFreshness) (pending : bool) : schedQueues * bool :=
  let key := suiteKey k in
  if bool_decide (key ∈ sq_queued q) then
    ({| sq_hosts := sq_hosts q; sq_order := sq_order q; sq_next := sq_next q; sq_queued := sq_queued q;
        sq_pending := if pending then {[key]} ∪ sq_pending q else sq_pending q; sq_waitSeq := sq_waitSeq q |}, false)
  else
    let host := key_host k in
    let h := default hq_new (sq_hosts q !! host) in
    ({| sq_hosts := <[host := push_class (classOf s) (new_item k pending) h]> (sq_hosts q);
        sq_order := match sq_hosts q !! host with Some _ => sq_order q | None => sq_order q ++ [host] end;
        sq_next := sq_next q; sq_queued := {[key]} ∪ sq_queued q; sq_pending := sq_pending q;
        sq_waitSeq := sq_waitSeq q |}, true).

(** The hosts that still have a check or a suite stay; the turn passes to the
    first that stays. *)
Definition keeps_host (q : schedQueues) (host : string) : bool :=
  match sq_hosts q !! host with Some h => hq_inFlight h || negb (hq_empty h) | None => false end.

Definition prune (q : schedQueues) : schedQueues :=
  match sq_order q with
  | [] => q
  | order =>
      let nextIdx := (sq_next q mod length order)%nat in
      let kept := List.filter (keeps_host q) order in
      let before := List.filter (keeps_host q) (take nextIdx order) in
      {| sq_hosts := filter (λ hq, hq.1 ∉ order ∨ keeps_host q hq.1 = true) (sq_hosts q);
         sq_order := kept;
         sq_next := if (length before <? length kept)%nat then length before else 0%nat;
         sq_queued := sq_queued q; sq_pending := sq_pending q; sq_waitSeq := sq_waitSeq q |}
  end.

Definition stop_flight (h : hostQueue) : hostQueue :=
  {| hq_classes := hq_classes h; hq_waiting := hq_waiting h; hq_inFlight := false |}.

(** [done] *)
Definition sched_done (q : schedQueues) (i : schedItem) : schedQueues :=
  prune {| sq_hosts := alter stop_flight (si_host i) (sq_hosts q); sq_order := sq_order q; sq_next := sq_next q;
           sq_queued := sq_queued q ∖ {[si_key i]}; sq_pending := sq_pending q ∖ {[si_key i]};
           sq_waitSeq := sq_waitSeq q |}.

(** Before the first waiter that is not older. *)
Fixpoint insert_waiter (i : schedItem) (l : list schedItem) : list schedItem :=
  match l with
  | [] => [i]
  | w :: l => if si_waitSeq w <? si_waitSeq i then w :: insert_waiter i l else i :: w :: l
  end.

Definition park (q : schedQueues) (i : schedItem) (signed : bool) : schedQueues :=
  let host := si_host i in
  match sq_hosts q !! host with
  | None => sched_done q i
  | Some h =>
      let seq := if si_waiting i then sq_waitSeq q else sq_waitSeq q + 1 in
      let i := set_waiting signed (if si_waiting i then si_waitSeq i else seq) i in
      {| sq_hosts := <[host := {| hq_classes := hq_classes h; hq_waiting := insert_waiter i (hq_waiting h);
                                  hq_inFlight := false |}]> (sq_hosts q);
         sq_order := sq_order q; sq_next := sq_next q; sq_queued := sq_queued q; sq_pending := sq_pending q;
         sq_waitSeq := seq |}
  end.

Definition map_waiting (f : schedItem → schedItem) (h : hostQueue) : hostQueue :=
  {| hq_classes := hq_classes h; hq_waiting := map f (hq_waiting h); hq_inFlight := hq_inFlight h |}.

Definition refreshSigned (q : schedQueues) (signed : gset string) : schedQueues :=
  with_hosts (fmap (map_waiting (λ i, set_signed (bool_decide (si_key i ∈ signed)) i))) q.

Definition unhold (q : schedQueues) : schedQueues := with_hosts (fmap (map_waiting (set_held false))) q.

(** What a check reported. *)
Record checkReport := { rep_result : string; rep_signedCurrent : bool }.

Definition resultBusy : string := "busy".

Definition isQueuedResult (result : string) : bool :=
  (result =? "changed_queued")%string || (result =? "first_adoption_queued")%string.

Definition finish (q : schedQueues) (i : schedItem) (r : checkReport) (gen : Z) : schedQueues :=
  if isQueuedResult (rep_result r) then park q (set_held (si_waiting i && (gen =? si_gen i)) i) (rep_signedCurrent r)
  else if si_waiting i && (rep_result r =? resultBusy)%string then park q (set_held true i) (si_signed i)
  else sched_done q i.

(** The oldest waiter that may be offered a slot. *)
Fixpoint pop_waiting (admits : bool → bool) (l : list schedItem) : option (schedItem * list schedItem) :=
  match l with
  | [] => None
  | w :: l => if negb (si_held w) && admits (si_signed w) then Some (w, l)
              else '(x, l) ← pop_waiting admits l; Some (x, w :: l)
  end.

(** The first suite of the best class. *)
Fixpoint pop_class (cs : list (list schedItem)) : option (schedItem * list (list schedItem)) :=
  match cs with
  | [] => None
  | [] :: cs => '(x, cs) ← pop_class cs; Some (x, [] :: cs)
  | (x :: c) :: cs => Some (x, c :: cs)
  end.

Definition pop_host (admits : bool → bool) (pending : gset string) (h : hostQueue)
  : option (schedItem * hostQueue * gset string) :=
  match pop_waiting admits (hq_waiting h) with
  | Some (w, l) => Some (w, {| hq_classes := hq_classes h; hq_waiting := l; hq_inFlight := true |}, pending)
  | None =>
      '(x, cs) ← pop_class (hq_classes h);
      let h := {| hq_classes := cs; hq_waiting := hq_waiting h; hq_inFlight := true |} in
      if bool_decide (si_key x ∈ pending) then Some (set_pending true x, h, pending ∖ {[si_key x]})
      else Some (x, h, pending)
  end.

Fixpoint pop_from (admits : string → bool → bool) (q : schedQueues) (idxs : list nat)
  : option (schedItem * schedQueues) :=
  match idxs with
  | [] => None
  | idx :: idxs =>
      host ← sq_order q !! idx;
      h ← sq_hosts q !! host;
      if hq_inFlight h : bool then pop_from admits q idxs
      else match pop_host (admits host) (sq_pending q) h with
      | Some (x, h, pending) =>
          Some (x, {| sq_hosts := <[host := h]> (sq_hosts q); sq_order := sq_order q;
                      sq_next := ((idx + 1) mod length (sq_order q))%nat; sq_queued := sq_queued q;
                      sq_pending := pending; sq_waitSeq := sq_waitSeq q |})
      | None => pop_from admits q idxs
      end
  end.

Definition turn (q : schedQueues) (i : nat) : nat := ((sq_next q + i) mod length (sq_order q))%nat.

Definition pop (admits : string → bool → bool) (q : schedQueues) : option (schedItem * schedQueues) :=
  pop_from admits q (map (turn q) (seq 0 (length (sq_order q)))).

(** ** A tick *)

Definition has (q : schedQueues) (key : string) : bool := bool_decide (key ∈ sq_queued q).

Definition lastCheck (now : Z) (d : SuiteKey * SuiteFreshness) : Z :=
  match sf_last_check d.2 with
  | None => - 2 ^ 63
  | Some t => if now + clockStepTolerance / Second <? t then - 2 ^ 63 else t
  end.

(** At most [maxSuites] suites are queued: of the new ones, those checked
    longest ago. *)
Definition boundDue (due : list (SuiteKey * SuiteFreshness)) (q : schedQueues) (maxSuites now : Z)
  : list (SuiteKey * SuiteFreshness) :=
  let fresh := List.filter (λ d, negb (has q (suiteKey d.1))) due in
  let room := maxSuites - Z.of_nat (size (sq_queued q)) in
  if Z.of_nat (length fresh) <=? room then fresh
  else if room <=? 0 then []
  else
    let byCheck := sort_by (λ a b, lastCheck now a <=? lastCheck now b) fresh in
    let admitted := map (λ d, suiteKey d.1) (take (Z.to_nat room) byCheck) in
    List.filter (λ d, existsb (String.eqb (suiteKey d.1)) admitted) fresh.

(** A row of the suite table with the form of its current snapshot. *)
Definition signedForm (form : string) : bool := (form =? FormInline)%string || (form =? FormDetached)%string.

Definition tick (c : Checker) (rows : list (SuiteKey * SuiteFreshness * string)) (now : Z) (q : schedQueues)
  : schedQueues :=
  let signed := list_to_set (map (λ r, suiteKey r.1.1) (List.filter (λ r, signedForm r.2) rows)) in
  let q := refreshSigned q signed in
  let due := List.filter (λ d, suiteDue c d.1 d.2 now) (map fst rows) in
  let due := sort_by (λ a b, String.leb (suiteKey a.1) (suiteKey b.1)) due in
  let due := if 0 <? ck_maxSuites c then boundDue due q (ck_maxSuites c) (Unix now) else due in
  foldl (λ q d, (enqueue q d.1 d.2 (pendingChange c d.2)).1) q due.

(** ** Admission slots *)

Record admission := {
  ad_global : Z;              (** 0: no bound *)
  ad_inUse : Z;
  ad_hosts : gset string;
  ad_releases : Z;
}.

Record lease := { ls_host : string; ls_hostHeld : bool; ls_globalHeld : bool }.

Definition newAdmission (global : Z) : admission :=
  {| ad_global := global; ad_inUse := 0; ad_hosts := ∅; ad_releases := 0 |}.

Definition admissionUnlimited : Z := 2 ^ 30.

(** The last slot is a signed suite's. *)
Definition tryAcquire (a : admission) (host : string) (signedCurrent : bool) : option (lease * admission) :=
  if bool_decide (host ∈ ad_hosts a) then None
  else
    let free := ad_global a - ad_inUse a in
    if (0 <? ad_global a)
       && ((free <=? 0) || ((2 <=? ad_global a) && (free =? 1) && negb signedCurrent)) then None
    else Some ({| ls_host := host; ls_hostHeld := true; ls_globalHeld := true |},
               {| ad_global := ad_global a; ad_inUse := ad_inUse a + 1; ad_hosts := {[host]} ∪ ad_hosts a;
                  ad_releases := ad_releases a |}).

Definition freeFor (a : admission) (host : string) (signedCurrent : bool) : Z :=
  if bool_decide (host ∈ ad_hosts a) then 0
  else if ad_global a =? 0 then admissionUnlimited
  else
    let free := ad_global a - ad_inUse a in
    Z.max (if (2 <=? ad_global a) && negb signedCurrent then free - 1 else free) 0.

Definition releaseHost (l : lease) (a : admission) : lease * admission :=
  if ls_hostHeld l then
    ({| ls_host := ls_host l; ls_hostHeld := false; ls_globalHeld := ls_globalHeld l |},
     {| ad_global := ad_global a; ad_inUse := ad_inUse a; ad_hosts := ad_hosts a ∖ {[ls_host l]};
        ad_releases := ad_releases a + 1 |})
  else (l, a).

Definition release (l : lease) (a : admission) : lease * admission :=
  ({| ls_host := ls_host l; ls_hostHeld := false; ls_globalHeld := false |},
   {| ad_global := ad_global a;
      ad_inUse := if ls_globalHeld l then ad_inUse a - 1 else ad_inUse a;
      ad_hosts := if ls_hostHeld l then ad_hosts a ∖ {[ls_host l]} else ad_hosts a;
      ad_releases := if ls_hostHeld l || ls_globalHeld l then ad_releases a + 1 else ad_releases a |}).

(** ** The loop *)

(** A state is the queues and the items whose checks are in flight. *)
Inductive sched_step : schedQueues * list schedItem → schedQueues * list schedItem → Prop :=
| step_enqueue q fl k s pending : sched_step (q, fl) ((enqueue q k s pending).1, fl)
| step_refresh q fl signed : sched_step (q, fl) (refreshSigned q signed, fl)
| step_unhold q fl : sched_step (q, fl) (unhold q, fl)
| step_pop q fl admits gen x q' : pop admits q = Some (x, q') → sched_step (q, fl) (q', withGen x gen :: fl)
| step_finish q fl1 x fl2 r gen : sched_step (q, fl1 ++ x :: fl2) (finish q x r gen, fl1 ++ fl2).

Definition scheduled : schedQueues * list schedItem → Prop := rtc sched_step (newSchedQueues, []).

(** *** What the queues hold *)

Definition items_at (hosts : gmap string hostQueue) (host : string) : list schedItem :=
  match hosts !! host with Some h => items h | None => [] end.

Definition all_items (hosts : gmap string hostQueue) (order : list string) : list schedItem :=
  concat (map (items_at hosts) order).

Definition keys (q : schedQueues) (fl : list schedItem) : list string :=
  map si_key (fl ++ all_items (sq_hosts q) (sq_order q)).

Lemma all_items_app hosts l1 l2 : all_items hosts (l1 ++ l2) = all_items hosts l1 ++ all_items hosts l2.
Proof. unfold all_items. by rewrite map_app, concat_app. Qed.

Lemma all_items_ext hosts hosts' order :
  (∀ h, h ∈ order → items_at hosts' h = items_at hosts h) → all_items hosts' order = all_items hosts order.
Proof.
  intros Hext. unfold all_items. f_equal. apply map_ext_in. intros h Hh. apply Hext. by apply list_elem_of_In.
Qed.

(** One host's items, and the others', which do not change with them. *)
Lemma all_items_host hosts order host :
  NoDup order → host ∈ order →
  ∃ rest, all_items hosts order ≡ₚ items_at hosts host ++ rest ∧
    ∀ h, all_items (<[host := h]> hosts) order ≡ₚ items h ++ rest.
Proof.
  intros Hnd (l1 & l2 & ->)%list_elem_of_split. exists (all_items hosts l1 ++ all_items hosts l2).
  apply NoDup_app in Hnd as (_ & Hd & Hnd). apply NoDup_cons in Hnd as [Hn2 _].
  assert (∀ hosts, all_items hosts (l1 ++ host :: l2) ≡ₚ
            items_at hosts host ++ all_items hosts l1 ++ all_items hosts l2) as Hsplit.
  { intros hs. rewrite all_items_app. change (all_items hs (host :: l2)) with (items_at hs host ++ all_items hs l2).
    rewrite (Permutation_app_comm (all_items hs l1)), <-app_assoc. apply Permutation_app_head, Permutation_app_comm. }
  split; [apply Hsplit|]. intros h. rewrite Hsplit. unfold items_at at 1. rewrite lookup_insert_eq.
  rewrite (all_items_ext hosts (<[host := h]> hosts) l1), (all_items_ext hosts (<[host := h]> hosts) l2); [done|..];
    intros h' Hh'; unfold items_at; rewrite lookup_insert_ne; try done; intros ->.
  - by apply Hn2.
  - eapply (Hd h'); [done|by left].
Qed.

Lemma in_all_items hosts order x :
  x ∈ all_items hosts order ↔ ∃ host, host ∈ order ∧ x ∈ items_at hosts host.
Proof.
  unfold all_items. rewrite list_elem_of_In, in_concat. split.
  - intros (l & Hl & Hx). apply in_map_iff in Hl as (h & <- & Hh). exists h. by rewrite !list_elem_of_In.
  - intros (h & Hh & Hx). exists (items_at hosts h). split; [|by apply list_elem_of_In].
    apply in_map_iff. exists h. split; [done|by apply list_elem_of_In].
Qed.


Lemma hq_empty_items h : hq_empty h = true → items h = [].
Proof.
  unfold hq_empty, items. destruct (hq_waiting h); [|done]. simpl. induction (hq_classes h) as [|[|x l] cs IH]; simpl; [done|exact IH|done].
Qed.

(** *** The invariant *)

Definition older (a b : schedItem) : Prop := si_waitSeq a <= si_waitSeq b.

Record host_ok (strict : bool) (q : schedQueues) (fl : list schedItem) (host : string) (h : hostQueue) : Prop := {
  ho_home x : x ∈ items h → si_host x = host;
  ho_flight : hq_inFlight h = true ↔ host ∈ map si_host fl;
  ho_live : strict = true → hq_inFlight h = true ∨ hq_empty h = false;
  ho_classes : length (hq_classes h) = numSchedClasses;
  ho_sorted : StronglySorted older (hq_waiting h);
  ho_waiters x : x ∈ hq_waiting h → si_waiting x = true ∧ si_waitSeq x <= sq_waitSeq q;
  ho_fresh x : x ∈ concat (hq_classes h) → si_waiting x = false }.

(** With [strict], no host is kept without a suite or a check. *)
Record sched_inv (strict : bool) (q : schedQueues) (fl : list schedItem) : Prop := {
  so_order : NoDup (sq_order q);
  so_dom host : host ∈ sq_order q ↔ is_Some (sq_hosts q !! host);
  so_keys : NoDup (keys q fl);
  so_queued k : k ∈ sq_queued q ↔ k ∈ keys q fl;
  so_pending k : k ∈ sq_pending q → k ∈ sq_queued q;
  so_one : NoDup (map si_host fl);
  so_known x : x ∈ fl → is_Some (sq_hosts q !! si_host x);
  so_seq x : x ∈ fl → si_waiting x = true → si_waitSeq x <= sq_waitSeq q;
  so_next : (sq_next q < Nat.max 1 (length (sq_order q)))%nat;
  so_hosts host h : sq_hosts q !! host = Some h → host_ok strict q fl host h }.

Abbreviation sched_ok := (sched_inv true).

Lemma sched_ok_new : sched_ok newSchedQueues [].
Proof.
  split; simpl; try apply NoDup_nil_2; try (by intros ? ?%not_elem_of_nil); try done.
  - intros h. split; [by intros ?%not_elem_of_nil|by intros [? ?]].
  - intros k. split; [by intros ?%not_elem_of_empty|by intros ?%not_elem_of_nil].
  - lia.
Qed.

(** *** Changing flags only *)

(** [g] is [f]'s item to everything but its flags. *)
Definition same_item (a b : schedItem) : Prop :=
  si_key a = si_key b ∧ si_ref a = si_ref b ∧ si_waiting a = si_waiting b ∧ si_waitSeq a = si_waitSeq b.

Lemma same_host a b : same_item a b → si_host a = si_host b.
Proof. intros (_ & Hr & _). unfold si_host. by rewrite Hr. Qed.

Lemma elem_of_map_fun {A B} (f : A → B) l y : y ∈ map f l ↔ ∃ x, y = f x ∧ x ∈ l.
Proof.
  rewrite list_elem_of_In, in_map_iff. split; intros (x & ? & ?); exists x; (split; [done|by apply list_elem_of_In]).
Qed.

Lemma items_map f h x : x ∈ items (map_waiting f h) → (∀ y, same_item (f y) y) → ∃ y, y ∈ items h ∧ same_item x y.
Proof.
  intros [(y & -> & Hy)%elem_of_map_fun|Hx]%elem_of_app Hf.
  - exists y. split; [|done]. apply elem_of_app. by left.
  - exists x. split; [|done]. apply elem_of_app. by right.
Qed.

Lemma sorted_map f l : (∀ y, same_item (f y) y) → StronglySorted older l → StronglySorted older (map f l).
Proof.
  intros Hf. induction 1 as [|a l Hl IH Ha]; simpl; constructor; [done|].
  rewrite Forall_forall in *. intros x (y & -> & Hy)%elem_of_map_fun. unfold older.
  destruct (Hf a) as (_&_&_&->), (Hf y) as (_&_&_&->). by apply Ha.
Qed.

Lemma map_waiting_ok q fl f :
  (∀ y, same_item (f y) y) → sched_ok q fl → sched_ok (with_hosts (fmap (map_waiting f)) q) fl.
Proof.
  intros Hf Hok. set (q' := with_hosts _ q).
  assert (∀ host h, sq_hosts q' !! host = Some h ↔ ∃ h0, h = map_waiting f h0 ∧ sq_hosts q !! host = Some h0) as Hh.
  { intros host h. simpl. rewrite lookup_fmap_Some. split; intros (h0 & ? & ?); by exists h0. }
  assert (∀ host, is_Some (sq_hosts q' !! host) ↔ is_Some (sq_hosts q !! host)) as Hdom.
  { intros host. simpl. rewrite lookup_fmap. apply fmap_is_Some. }
  assert (keys q' fl = keys q fl) as Hkeys.
  { unfold keys. rewrite !map_app. f_equal. unfold all_items. rewrite !concat_map, !map_map. f_equal. simpl.
    apply map_ext. intros host. unfold items_at. rewrite lookup_fmap.
    destruct (sq_hosts q !! host) as [h|]; [|done]. simpl. unfold items. rewrite !map_app. f_equal.
    simpl. rewrite map_map. apply map_ext. intros y. apply Hf. }
  destruct Hok as [H1 H2 H3 H4 H5 H6 H7 H8 H9 H10]. split; simpl; try done.
  - intros host. rewrite H2. symmetry. apply Hdom.
  - by rewrite Hkeys.
  - intros k. by rewrite Hkeys.
  - intros x Hx. apply Hdom. auto.
  - intros host h (h0 & -> & Hh0)%Hh. destruct (H10 host h0 Hh0) as [G1 G2 G3 G4 G5 G6 G7]. split; simpl; try done.
    + intros x Hx. destruct (items_map f h0 x Hx Hf) as (y & Hy & Hs). rewrite (same_host _ _ Hs). auto.
    + destruct (G3 eq_refl) as [?|G3']; [by left|right]. unfold hq_empty in *. simpl. by destruct (hq_waiting h0).
    + by apply sorted_map.
    + intros x (y & -> & Hy)%elem_of_map_fun. destruct (Hf y) as (_ & _ & -> & ->). auto.
Qed.

(** *** Adding a suite *)

Lemma push_class_items c i h : (c < length (hq_classes h))%nat → items (push_class c i h) ≡ₚ i :: items h.
Proof.
  intros Hc. unfold items. simpl. rewrite (Permutation_middle (hq_waiting h)). apply Permutation_app_head.
  revert c Hc. induction (hq_classes h) as [|l cs IH]; intros c Hc; [simpl in Hc; lia|].
  destruct c as [|c]; simpl.
  - rewrite <-app_assoc. simpl. by rewrite <-Permutation_middle.
  - etrans; [apply Permutation_app_head, (IH c); simpl in Hc; lia|]. by rewrite Permutation_middle.
Qed.

Lemma classOf_bound s : (classOf s < numSchedClasses)%nat.
Proof. unfold classOf, numSchedClasses. destruct (0 <? sf_check_fail s); [lia|]. case_bool_decide; lia. Qed.

Lemma sorted_nil : StronglySorted older [].
Proof. constructor. Qed.

Lemma push_host_ok q q' fl host h c i :
  (c < numSchedClasses)%nat → si_host i = host → si_waiting i = false → sq_waitSeq q' = sq_waitSeq q →
  host_ok true q fl host h ∨ h = hq_new ∧ host ∉ map si_host fl → host_ok true q' fl host (push_class c i h).
Proof.
  intros Hc Hi Hw Hq Hh.
  assert (length (hq_classes h) = numSchedClasses) as Hlen by (destruct Hh as [Hh|[-> _]]; [apply Hh|done]).
  assert (∀ x, x ∈ concat (hq_classes (push_class c i h)) → x = i ∨ x ∈ concat (hq_classes h)) as Hcls.
  { intros x Hx. pose proof (push_class_items c i {| hq_classes := hq_classes h; hq_waiting := []; hq_inFlight := false |})
      as Hp. unfold items in Hp. simpl in Hp. rewrite Hp in Hx by (rewrite Hlen; done).
    by apply elem_of_cons in Hx. }
  split; simpl.
  - intros x Hx. rewrite push_class_items in Hx by (rewrite Hlen; done).
    apply elem_of_cons in Hx as [->|Hx]; [done|]. destruct Hh as [Hh|[-> _]]; [by eapply ho_home|].
    by apply not_elem_of_nil in Hx.
  - destruct Hh as [Hh|[-> Hn]]; [apply Hh|]. simpl. split; [done|]. by intros ?.
  - right. destruct (hq_empty (push_class c i h)) eqn:He; [|done]. apply hq_empty_items in He.
    assert (i ∈ items (push_class c i h)) as Hin; [|rewrite He in Hin; by apply not_elem_of_nil in Hin].
    rewrite push_class_items by (rewrite Hlen; done). by left.
  - by rewrite length_alter.
  - destruct Hh as [Hh|[-> _]]; [apply Hh|constructor].
  - rewrite Hq. destruct Hh as [Hh|[-> _]]; [apply Hh|]. by intros x ?%not_elem_of_nil.
  - intros x [->|Hx]%Hcls; [done|]. destruct Hh as [Hh|[-> _]]; [by eapply ho_fresh|]. by apply not_elem_of_nil in Hx.
Qed.

(** The host's queue gains the new item; every other host stays. *)
Lemma enqueue_ok q fl k s pending : sched_ok q fl → sched_ok (enqueue q k s pending).1 fl.
Proof.
  intros Hok. unfold enqueue. case_bool_decide as Hin.
  { destruct Hok as [H1 H2 H3 H4 H5 H6 H7 H8 H9 H10]. split; simpl; try done.
    - destruct pending; [|done]. intros x [->%elem_of_singleton|Hx]%elem_of_union; auto.
    - intros host h Hh. destruct (H10 host h Hh). by split. }
  simpl. set (host := key_host k). set (i := new_item k pending).
  set (h0 := default hq_new (sq_hosts q !! host)). set (h := push_class (classOf s) i h0).
  set (order' := match sq_hosts q !! host with Some _ => sq_order q | None => sq_order q ++ [host] end).
  pose proof Hok as [H1 H2 H3 H4 H5 H6 H7 H8 H9 H10].
  assert (NoDup order' ∧ host ∈ order' ∧ (∀ x, x ∈ order' ↔ x = host ∨ x ∈ sq_order q) ∧
          all_items (sq_hosts q) order' = all_items (sq_hosts q) (sq_order q) ∧
          (length (sq_order q) ≤ length order')%nat) as (Hnd & Hho & Hmem & Hall & Hlen).
  { unfold order'. destruct (sq_hosts q !! host) as [h1|] eqn:Hh.
    - assert (host ∈ sq_order q) as Hho by (apply H2; eauto). split_and!; try done.
      intros x. split; [auto|]. by intros [->|?].
    - assert (host ∉ sq_order q) as Hno by (rewrite H2, Hh; by intros [? ?]). split_and!.
      + apply NoDup_app. split_and!; [done| |apply NoDup_singleton]. by intros x Hx ->%list_elem_of_singleton.
      + apply elem_of_app. right. by left.
      + intros x. rewrite elem_of_app, list_elem_of_singleton. tauto.
      + rewrite all_items_app. unfold all_items at 2. simpl. unfold items_at. rewrite Hh. simpl. by rewrite app_nil_r.
      + rewrite length_app. lia. }
  assert (length (hq_classes h0) = numSchedClasses ∧ items_at (sq_hosts q) host = items h0) as [Hcl Hit].
  { unfold h0, items_at. destruct (sq_hosts q !! host) as [h1|] eqn:Hh; [|done].
    split; [|done]. apply (H10 host h1 Hh). }
  assert (items h ≡ₚ i :: items h0) as Hpush.
  { apply push_class_items. rewrite Hcl. apply classOf_bound. }
  match goal with |- sched_ok ?q1 fl => set (q' := q1) end.
  assert (keys q' fl ≡ₚ si_key i :: keys q fl) as Hkeys.
  { destruct (all_items_host (sq_hosts q) order' host Hnd Hho) as (rest & Hr1 & Hr2).
    unfold keys. simpl. rewrite Hr2, Hpush, <-Hall, Hr1, Hit. simpl.
    rewrite <-Permutation_middle. done. }
  split; simpl; try done.
  - intros x. rewrite Hmem, H2. split.
    + intros [->|Hx]; [rewrite lookup_insert_eq; eauto|].
      destruct (decide (x = host)) as [->|]; [rewrite lookup_insert_eq; eauto|by rewrite lookup_insert_ne].
    + destruct (decide (x = host)) as [->|]; [by left|]. rewrite lookup_insert_ne by done. by right.
  - rewrite Hkeys. apply NoDup_cons. split; [|done]. by rewrite <-H4.
  - intros x. rewrite Hkeys, elem_of_cons, elem_of_union, elem_of_singleton, H4. done.
  - intros x Hx. apply elem_of_union. right. auto.
  - intros x Hx. destruct (decide (si_host x = host)) as [->|]; [rewrite lookup_insert_eq; eauto|].
    rewrite lookup_insert_ne by done. auto.
  - lia.
  - intros x hx [[<- <-]|[Hne Hx]]%lookup_insert_Some.
    + apply (push_host_ok q); [apply classOf_bound|done|done|done|]. unfold h0.
      destruct (sq_hosts q !! host) as [h1|] eqn:Hh; [left; by destruct (H10 host h1 Hh)|right].
      split; [done|]. intros (x & Hx & Hf)%elem_of_map_fun. destruct (H7 x Hf) as [? Hs]. simpl in *. congruence.
    + destruct (H10 x hx Hx). by split.
Qed.

(** *** Taking a suite *)

Lemma pop_waiting_spec admits l w l' :
  pop_waiting admits l = Some (w, l') → ∃ l1 l2, l = l1 ++ w :: l2 ∧ l' = l1 ++ l2.
Proof.
  revert l'. induction l as [|x l IH]; intros l' Hp; [done|]. simpl in Hp.
  destruct (negb (si_held x) && admits (si_signed x)).
  - simplify_eq. by exists [], l'.
  - apply bind_Some in Hp as ([y l0] & Hl & [= -> <-]). destruct (IH _ Hl) as (l1 & l2 & -> & ->).
    by exists (x :: l1), l2.
Qed.

Lemma pop_class_spec cs x cs' :
  pop_class cs = Some (x, cs') → concat cs = x :: concat cs' ∧ length cs' = length cs.
Proof.
  revert cs'. induction cs as [|[|y c] cs IH]; intros cs' Hp; [done| |]; simpl in Hp.
  - apply bind_Some in Hp as ([y c] & Hc & [= -> <-]). destruct (IH _ Hc) as [Hx Hl]. simpl. by rewrite Hx, Hl.
  - by simplify_eq.
Qed.





Lemma sorted_remove (l1 : list schedItem) x l2 : StronglySorted older (l1 ++ x :: l2) → StronglySorted older (l1 ++ l2).
Proof.
  induction l1 as [|a l1 IH]; simpl; intros Hs; inversion Hs as [|? ? Hs' Ha]; subst; [done|].
  constructor; [by apply IH|]. apply Forall_app in Ha as [? Ha]. apply Forall_cons in Ha as [_ ?].
  by apply Forall_app.
Qed.

(** What taking an item does to its host. *)
Lemma pop_host_spec admits pending q fl host h x h' pending' :
  host_ok true q fl host h → pop_host admits pending h = Some (x, h', pending') →
  (∃ x0, items h ≡ₚ x0 :: items h' ∧ same_item x x0) ∧
  (si_waiting x = true → si_waitSeq x <= sq_waitSeq q) ∧ (∀ k, k ∈ pending' → k ∈ pending) ∧
  ∀ q' fl', sq_waitSeq q' = sq_waitSeq q → host ∈ map si_host fl' → host_ok true q' fl' host h'.
Proof.
  intros [G1 G2 G3 G4 G5 G6 G7] Hp. unfold pop_host in Hp.
  destruct (pop_waiting admits (hq_waiting h)) as [[w l]|] eqn:Hw.
  - simplify_eq. apply pop_waiting_spec in Hw as (l1 & l2 & Hl & ->).
    assert (items h ≡ₚ x :: items {| hq_classes := hq_classes h; hq_waiting := l1 ++ l2; hq_inFlight := true |}) as Hit.
    { unfold items. simpl. rewrite Hl, <-!app_assoc. symmetry. apply Permutation_middle. }
    split_and!; [exists x; split; [exact Hit|by split_and!]| |done|].
    + intros _. apply G6. rewrite Hl. apply elem_of_app. right. by left.
    + intros q' fl' Hq Hfl. split; simpl; try done.
      * intros y Hy. apply G1. rewrite Hit. by right.
      * by left.
      * rewrite Hl in G5. by eapply sorted_remove.
      * rewrite Hq. intros y Hy. apply G6. rewrite Hl. apply elem_of_app in Hy as [?|?]; apply elem_of_app;
          [by left|right; by right].
  - apply bind_Some in Hp as ([y cs] & Hc & Hp). apply pop_class_spec in Hc as [Hc Hlen].
    assert (items h ≡ₚ y :: items {| hq_classes := cs; hq_waiting := hq_waiting h; hq_inFlight := true |}) as Hit.
    { unfold items. simpl. rewrite Hc. by rewrite Permutation_middle. }
    assert (si_waiting y = false) as Hy by (apply G7; rewrite Hc; by left).
    assert (x = y ∧ pending' = pending ∨ x = set_pending true y ∧ pending' = pending ∖ {[si_key y]}) as Hx.
    { simpl in Hp. case_bool_decide; simplify_eq; auto. }
    assert (h' = {| hq_classes := cs; hq_waiting := hq_waiting h; hq_inFlight := true |}) as ->.
    { simpl in Hp. case_bool_decide; by simplify_eq. }
    clear Hp. split_and!.
    + exists y. split; [done|]. destruct Hx as [[-> _]|[-> _]]; by split_and!.
    + destruct Hx as [[-> _]|[-> _]]; simpl; congruence.
    + destruct Hx as [[_ ->]|[_ ->]]; [done|]. by intros k [? _]%elem_of_difference.
    + intros q' fl' Hq Hfl. split; simpl; try done.
      * intros z Hz. apply G1. rewrite Hit. by right.
      * by left.
      * congruence.
      * by rewrite Hq.
      * intros z Hz. apply G7. rewrite Hc. by right.
Qed.

Lemma pop_from_spec admits q idxs x q' :
  pop_from admits q idxs = Some (x, q') →
  ∃ idx host h h' pending', idx ∈ idxs ∧ sq_order q !! idx = Some host ∧ sq_hosts q !! host = Some h ∧
    hq_inFlight h = false ∧ pop_host (admits host) (sq_pending q) h = Some (x, h', pending') ∧
    q' = {| sq_hosts := <[host := h']> (sq_hosts q); sq_order := sq_order q;
            sq_next := ((idx + 1) mod length (sq_order q))%nat; sq_queued := sq_queued q;
            sq_pending := pending'; sq_waitSeq := sq_waitSeq q |}.
Proof.
  induction idxs as [|idx idxs IH]; intros Hp; [done|]. cbn [pop_from] in Hp.
  apply bind_Some in Hp as (host & Ho & Hp). apply bind_Some in Hp as (h & Hh & Hp).
  assert (pop_from admits q idxs = Some (x, q') → ∃ idx0 host0 h0 h' pending', idx0 ∈ idx :: idxs ∧
    sq_order q !! idx0 = Some host0 ∧ sq_hosts q !! host0 = Some h0 ∧ hq_inFlight h0 = false ∧
    pop_host (admits host0) (sq_pending q) h0 = Some (x, h', pending') ∧
    q' = {| sq_hosts := <[host0 := h']> (sq_hosts q); sq_order := sq_order q;
            sq_next := ((idx0 + 1) mod length (sq_order q))%nat; sq_queued := sq_queued q;
            sq_pending := pending'; sq_waitSeq := sq_waitSeq q |}) as Hrest.
  { intros Hr. destruct (IH Hr) as (i & ho & h0 & h' & pe & Hi & ?). exists i, ho, h0, h', pe. split; [by right|done]. }
  destruct (hq_inFlight h) eqn:Hf; [by apply Hrest|].
  destruct (pop_host _ _ h) as [[[y h'] pe]|] eqn:Hph; [|by apply Hrest].
  simplify_eq. exists idx, host, h, h', pe. split_and!; try done. by left.
Qed.

Lemma pop_ok q fl admits gen x q' :
  sched_ok q fl → pop admits q = Some (x, q') →
  sched_ok q' (withGen x gen :: fl) ∧ keys q' (withGen x gen :: fl) ≡ₚ keys q fl.
Proof.
  intros Hok Hp. pose proof Hok as [H1 H2 H3 H4 H5 H6 H7 H8 H9 H10].
  apply pop_from_spec in Hp as (idx & host & h & h' & pe & _ & Ho & Hh & Hf & Hph & ->).
  destruct (pop_host_spec _ _ q fl host h x h' pe (H10 host h Hh) Hph) as ((x0 & Hit & Hsame) & Hseq & Hpe & Hhost).
  assert (si_host x = host) as Hx.
  { rewrite (same_host _ _ Hsame). apply (ho_home _ _ _ _ _ (H10 host h Hh)). rewrite Hit. by left. }
  assert (host ∉ map si_host fl) as Hfree.
  { rewrite <-(ho_flight _ _ _ _ _ (H10 host h Hh)). by rewrite Hf. }
  match goal with |- sched_ok ?q1 _ ∧ _ => set (q' := q1) end.
  assert (keys q' (withGen x gen :: fl) ≡ₚ keys q fl) as Hkeys.
  { destruct (all_items_host (sq_hosts q) (sq_order q) host H1) as (rest & Hr1 & Hr2).
    { by eapply list_elem_of_lookup_2. }
    unfold keys. simpl. rewrite Hr2, Hr1. unfold items_at. rewrite Hh, Hit, !map_app. simpl.
    destruct Hsame as (-> & _). by rewrite <-Permutation_middle. }
  split; [|done]. split; simpl; try done.
  - intros y. rewrite H2. destruct (decide (y = host)) as [->|]; [rewrite Hh, lookup_insert_eq|rewrite lookup_insert_ne by done; done].
    split; eauto.
  - by rewrite Hkeys.
  - intros k. by rewrite Hkeys.
  - auto.
  - apply NoDup_cons. split; [|done]. unfold si_host. simpl. fold (si_host x). by rewrite Hx.
  - intros y [->|Hy]%elem_of_cons.
    + unfold si_host. simpl. fold (si_host x). rewrite Hx, lookup_insert_eq. eauto.
    + destruct (decide (si_host y = host)) as [->|]; [rewrite lookup_insert_eq; eauto|].
      rewrite lookup_insert_ne by done. auto.
  - intros y [->|Hy]%elem_of_cons; auto.
  - assert (length (sq_order q) ≠ 0)%nat as Hn by (intros Hn; apply length_zero_iff_nil in Hn; by rewrite Hn in Ho).
    pose proof (Nat.mod_upper_bound (idx + 1) _ Hn). lia.
  - intros y hy [[<- <-]|[Hne Hy]]%lookup_insert_Some.
    + apply Hhost; [done|]. simpl. unfold si_host at 1. simpl. fold (si_host x). rewrite Hx. by left.
    + destruct (H10 y hy Hy) as [G1 G2 G3 G4 G5 G6 G7]. split; try done. rewrite G2. simpl.
      unfold si_host at 2. simpl. fold (si_host x). rewrite Hx, elem_of_cons. split; [by right|]. by intros [->|?].
Qed.

(** *** The end of a check *)

Lemma keys_flight q fl1 x fl2 : keys q (fl1 ++ x :: fl2) ≡ₚ si_key x :: keys q (fl1 ++ fl2).
Proof. unfold keys. rewrite <-!app_assoc, !map_app. symmetry. apply Permutation_middle. Qed.

(** The hosts of the other checks in flight. *)
Lemma flight_others (fl1 : list schedItem) x fl2 h :
  NoDup (map si_host (fl1 ++ x :: fl2)) →
  h ∈ map si_host (fl1 ++ fl2) ↔ h ≠ si_host x ∧ h ∈ map si_host (fl1 ++ x :: fl2).
Proof.
  rewrite !map_app. simpl. intros Hnd.
  apply NoDup_app in Hnd as (_ & Hd & Hnd). apply NoDup_cons in Hnd as [Hn _].
  rewrite !elem_of_app, elem_of_cons. split; [|intros [Hne [?|[?|?]]]; [by left|done|by right]].
  intros [Hh|Hh]; (split; [|tauto]); intros ->; [|done]. apply (Hd _ Hh). by left.
Qed.

Lemma flight_nodup (fl1 : list schedItem) x fl2 :
  NoDup (map si_host (fl1 ++ x :: fl2)) → NoDup (map si_host (fl1 ++ fl2)).
Proof. rewrite !map_app. simpl. rewrite <-Permutation_middle. by intros [_ ?]%NoDup_cons. Qed.

Lemma insert_waiter_perm i l : insert_waiter i l ≡ₚ i :: l.
Proof.
  induction l as [|w l IH]; [done|]. simpl. destruct (si_waitSeq w <? si_waitSeq i); [|done].
  rewrite IH. constructor.
Qed.

Lemma insert_waiter_sorted i l : StronglySorted older l → StronglySorted older (insert_waiter i l).
Proof.
  induction 1 as [|w l Hs IH Hw]; simpl; [repeat constructor|].
  destruct (Z.ltb_spec (si_waitSeq w) (si_waitSeq i)).
  - constructor; [done|]. rewrite Forall_forall in *. intros y Hy. rewrite insert_waiter_perm in Hy.
    apply elem_of_cons in Hy as [->|Hy]; [unfold older; lia|auto].
  - constructor; [by constructor|]. constructor; [unfold older; lia|].
    rewrite Forall_forall in *. intros y Hy. specialize (Hw y Hy). unfold older in *. lia.
Qed.

Lemma park_ok q fl1 x0 x fl2 signed :
  sched_ok q (fl1 ++ x0 :: fl2) → same_item x x0 →
  sched_ok (park q x signed) (fl1 ++ fl2) ∧ keys (park q x signed) (fl1 ++ fl2) ≡ₚ keys q (fl1 ++ x0 :: fl2).
Proof.
  intros Hok Hsame. pose proof Hok as [H1 H2 H3 H4 H5 H6 H7 H8 H9 H10].
  assert (x0 ∈ fl1 ++ x0 :: fl2) as Hin by (apply elem_of_app; right; by left).
  pose proof (same_host _ _ Hsame) as Hhost. destruct Hsame as (Hkey & _ & Hwait & Hseq).
  destruct (H7 x0 Hin) as [h Hh]. unfold park. rewrite Hhost, Hh.
  set (seq := if si_waiting x then sq_waitSeq q else sq_waitSeq q + 1).
  set (i := set_waiting signed _ x). set (host := si_host x0) in *.
  match goal with |- sched_ok ?q1 _ ∧ _ => set (q' := q1) end.
  destruct (H10 host h Hh) as [G1 G2 G3 G4 G5 G6 G7].
  assert (items {| hq_classes := hq_classes h; hq_waiting := insert_waiter i (hq_waiting h); hq_inFlight := false |}
            ≡ₚ i :: items h) as Hit.
  { unfold items. simpl. by rewrite insert_waiter_perm. }
  assert (keys q' (fl1 ++ fl2) ≡ₚ keys q (fl1 ++ x0 :: fl2)) as Hkeys.
  { destruct (all_items_host (sq_hosts q) (sq_order q) host H1) as (rest & Hr1 & Hr2); [by apply H2; eauto|].
    rewrite keys_flight, <-Hkey. unfold keys. simpl. rewrite Hr2, Hr1, Hit. unfold items_at. rewrite Hh.
    rewrite !map_app.
    simpl. rewrite <-Permutation_middle. done. }
  assert (sq_waitSeq q <= seq ∧ si_waitSeq i <= seq) as [Hle Hi].
  { unfold seq, i. simpl. destruct (si_waiting x) eqn:Hw; [|lia]. split; [lia|]. rewrite Hseq. apply H8; congruence. }
  split; [|done]. split; simpl; try done.
  - intros y. rewrite H2. destruct (decide (y = host)) as [->|]; [rewrite Hh, lookup_insert_eq|rewrite lookup_insert_ne by done; done].
    split; eauto.
  - by rewrite Hkeys.
  - intros k. by rewrite Hkeys.
  - by eapply flight_nodup.
  - intros y Hy. destruct (decide (si_host y = host)) as [->|]; [rewrite lookup_insert_eq; eauto|].
    rewrite lookup_insert_ne by done. apply H7. apply elem_of_app in Hy as [?|?]; apply elem_of_app; [by left|right; by right].
  - intros y Hy Hw. trans (sq_waitSeq q); [|done]. apply H8; [|done].
    apply elem_of_app in Hy as [?|?]; apply elem_of_app; [by left|right; by right].
  - intros y hy [[<- <-]|[Hne Hy]]%lookup_insert_Some.
    + split; simpl; try done.
      * intros z Hz. rewrite Hit in Hz. apply elem_of_cons in Hz as [->|Hz]; [done|auto].
      * rewrite (flight_others fl1 x0 fl2) by done. split; [done|]. by intros [? _].
      * right. unfold hq_empty. simpl. destruct (hq_waiting h) as [|w l]; simpl; [done|]. by destruct (_ <? _).
      * by apply insert_waiter_sorted.
      * intros z Hz. rewrite insert_waiter_perm in Hz. apply elem_of_cons in Hz as [->|Hz]; [done|].
        destruct (G6 z Hz). split; [done|lia].
    + destruct (H10 y hy Hy) as [E1 E2 E3 E4 E5 E6 E7]. split; try done.
      * rewrite E2, (flight_others fl1 x0 fl2) by done. split; [|tauto]. intros ?. split; [|done]. intros Heq. apply Hne. by symmetry.
      * intros z Hz. destruct (E6 z Hz). simpl. split; [done|lia].
Qed.

Lemma items_stop h : items (stop_flight h) = items h.
Proof. done. Qed.

Lemma all_items_filter (keep : string → bool) hosts hosts' order :
  (∀ h, h ∈ order → if keep h then items_at hosts' h = items_at hosts h else items_at hosts h = []) →
  all_items hosts' (List.filter keep order) = all_items hosts order.
Proof.
  intros Hk. induction order as [|h order IH]; [done|].
  assert (all_items hosts' (List.filter keep order) = all_items hosts order) as E.
  { apply IH. intros x Hx. apply Hk. by right. }
  assert (if keep h then items_at hosts' h = items_at hosts h else items_at hosts h = []) as Hh by (apply Hk; by left).
  change (all_items hosts (h :: order)) with (items_at hosts h ++ all_items hosts order). rewrite <-E. simpl.
  destruct (keep h); [|by rewrite Hh]. rewrite <-Hh. done.
Qed.

(** The other hosts do not notice that a check of [x]'s host is over. *)
Lemma stop_ok q fl1 x0 fl2 :
  sched_ok q (fl1 ++ x0 :: fl2) →
  sched_inv false
    {| sq_hosts := alter stop_flight (si_host x0) (sq_hosts q); sq_order := sq_order q; sq_next := sq_next q;
       sq_queued := sq_queued q ∖ {[si_key x0]}; sq_pending := sq_pending q ∖ {[si_key x0]};
       sq_waitSeq := sq_waitSeq q |} (fl1 ++ fl2) ∧
  all_items (alter stop_flight (si_host x0) (sq_hosts q)) (sq_order q) = all_items (sq_hosts q) (sq_order q).
Proof.
  intros [H1 H2 H3 H4 H5 H6 H7 H8 H9 H10]. set (host := si_host x0) in *.
  assert (∀ y, y ∈ fl1 ++ fl2 → y ∈ fl1 ++ x0 :: fl2) as Hfl.
  { intros y [?|?]%elem_of_app; apply elem_of_app; [by left|right; by right]. }
  assert (∀ h, is_Some (alter stop_flight host (sq_hosts q) !! h) ↔ is_Some (sq_hosts q !! h)) as Hdom.
  { intros h. destruct (decide (host = h)) as [->|Hne].
    - rewrite lookup_alter_eq. apply fmap_is_Some.
    - by rewrite lookup_alter_ne. }
  assert (all_items (alter stop_flight host (sq_hosts q)) (sq_order q) = all_items (sq_hosts q) (sq_order q)) as Hall.
  { apply all_items_ext. intros h _. unfold items_at. destruct (decide (host = h)) as [->|Hne].
    - rewrite lookup_alter_eq. by destruct (sq_hosts q !! _).
    - by rewrite lookup_alter_ne. }
  split; [|done]. rewrite keys_flight in H3. apply NoDup_cons in H3 as [Hnx Hnd].
  assert (∀ k, k ∈ sq_queued q ↔ k = si_key x0 ∨ k ∈ keys q (fl1 ++ fl2)) as Hq.
  { intros k. rewrite H4, keys_flight. apply elem_of_cons. }
  split; simpl; try done.
  - intros h. rewrite H2. symmetry. apply Hdom.
  - unfold keys. simpl. by rewrite Hall.
  - intros k. unfold keys. simpl. rewrite Hall. fold (keys q (fl1 ++ fl2)).
    rewrite elem_of_difference, elem_of_singleton, Hq. split; [tauto|]. intros Hk. split; [auto|]. by intros ->.
  - intros k. rewrite !elem_of_difference. intros [? ?]. auto.
  - by eapply flight_nodup.
  - intros y Hy. apply Hdom. auto.
  - auto.
  - intros h hq [(<- & h0 & Hh & ->)|[Hne Hh]]%lookup_alter_Some.
    + destruct (H10 _ _ Hh) as [G1 G2 G3 G4 G5 G6 G7]. split; try done.
      rewrite (flight_others fl1 x0 fl2) by done. split; [done|]. by intros [? _].
    + destruct (H10 _ _ Hh) as [G1 G2 G3 G4 G5 G6 G7]. split; try done.
      rewrite G2, (flight_others fl1 x0 fl2) by done. split; [|tauto]. intros ?. split; [|done].
      intros Heq. apply Hne. by symmetry.
Qed.

Lemma live_spec h : hq_inFlight h || negb (hq_empty h) = true ↔ hq_inFlight h = true ∨ hq_empty h = false.
Proof. by rewrite orb_true_iff, negb_true_iff. Qed.

Lemma keeps_host_spec q h :
  keeps_host q h = true ↔ ∃ hq, sq_hosts q !! h = Some hq ∧ (hq_inFlight hq = true ∨ hq_empty hq = false).
Proof.
  unfold keeps_host. destruct (sq_hosts q !! h) as [hq|]; [|by split; [|intros (?&?&_)]].
  rewrite live_spec. split; [eauto|]. by intros (? & [= <-] & ?).
Qed.

(** Pruning drops only hosts that have nothing. *)
Lemma prune_ok q fl :
  sched_inv false q fl → sched_ok (prune q) fl ∧ keys (prune q) fl = keys q fl.
Proof.
  intros [H1 H2 H3 H4 H5 H6 H7 H8 H9 H10]. destruct (sq_order q) as [|o os] eqn:Ho.
  { unfold prune. rewrite Ho. split; [|done]. split; rewrite ?Ho; try done.
    intros h hq Hh. exfalso. assert (h ∈ []) as Hin by (apply H2; eauto). by apply not_elem_of_nil in Hin. }
  assert (prune q = {| sq_hosts := filter (λ hq, hq.1 ∉ sq_order q ∨ keeps_host q hq.1 = true) (sq_hosts q);
    sq_order := List.filter (keeps_host q) (sq_order q); sq_next := sq_next (prune q);
    sq_queued := sq_queued q; sq_pending := sq_pending q; sq_waitSeq := sq_waitSeq q |}) as Hpr.
  { unfold prune. by rewrite Ho. }
  assert ((sq_next (prune q) < Nat.max 1 (length (List.filter (keeps_host q) (sq_order q))))%nat) as Hnext.
  { unfold prune. rewrite Ho. cbn [sq_next]. case_match eqn:Hlt; [apply Nat.ltb_lt in Hlt|]; lia. }
  rewrite Hpr. clear Hpr. rewrite <-Ho in *. set (n := sq_next (prune q)) in *. clearbody n. clear Ho o os.
  assert (∀ h hq, filter (λ hq, hq.1 ∉ sq_order q ∨ keeps_host q hq.1 = true) (sq_hosts q) !! h = Some hq ↔
            sq_hosts q !! h = Some hq ∧ keeps_host q h = true) as Hl.
  { intros h hq. rewrite map_lookup_filter_Some. simpl. split; [|tauto]. intros [Hh [Hno|?]]; [|done].
    destruct Hno. apply H2. eauto. }
  assert (∀ h, h ∈ List.filter (keeps_host q) (sq_order q) ↔ h ∈ sq_order q ∧ keeps_host q h = true) as Hf.
  { intros h. rewrite (list_elem_of_In (List.filter _ _)), filter_In. by rewrite <-list_elem_of_In. }
  assert (all_items (filter (λ hq, hq.1 ∉ sq_order q ∨ keeps_host q hq.1 = true) (sq_hosts q))
            (List.filter (keeps_host q) (sq_order q)) = all_items (sq_hosts q) (sq_order q)) as Hall.
  { apply all_items_filter. intros h Hh. apply H2 in Hh as [hq Hhq]. unfold items_at. rewrite Hhq.
    destruct (keeps_host q h) eqn:Hk.
    - by rewrite (proj2 (Hl h hq)).
    - apply hq_empty_items. unfold keeps_host in Hk. rewrite Hhq in Hk. by apply orb_false_iff in Hk as [_ ?%negb_false_iff]. }
  match goal with |- sched_ok ?q2 _ ∧ _ => assert (keys q2 fl = keys q fl) as Hkeys by (unfold keys; simpl; by rewrite Hall) end.
  split; [|done]. split; rewrite ?Hkeys; try done; simpl.
  - apply NoDup_ListNoDup, List.NoDup_filter. by apply NoDup_ListNoDup.
  - intros h. rewrite Hf. split.
    + intros [_ Hk]. pose proof Hk as (hq & Hh & _)%keeps_host_spec. exists hq. by apply Hl.
    + intros [hq [Hh Hk]%Hl]. split; [apply H2; eauto|done].
  - intros x Hx. destruct (H7 x Hx) as [hq Hh]. exists hq. apply Hl. split; [done|].
    apply keeps_host_spec. exists hq. split; [done|]. left. apply (ho_flight _ _ _ _ _ (H10 _ _ Hh)).
    apply elem_of_map_fun. eauto.
  - intros h hq [Hh Hk]%Hl. destruct (H10 h hq Hh) as [G1 G2 G3 G4 G5 G6 G7]. split; try done.
    intros _. apply keeps_host_spec in Hk as (hq' & Hh' & ?). congruence.
Qed.

Lemma done_ok q fl1 x0 x fl2 :
  sched_ok q (fl1 ++ x0 :: fl2) → same_item x x0 →
  sched_ok (sched_done q x) (fl1 ++ fl2) ∧
  si_key x0 :: keys (sched_done q x) (fl1 ++ fl2) ≡ₚ keys q (fl1 ++ x0 :: fl2).
Proof.
  intros Hok Hsame. destruct (stop_ok q fl1 x0 fl2 Hok) as [Hst Hall]. unfold sched_done.
  rewrite (same_host _ _ Hsame). destruct Hsame as (-> & _). destruct (prune_ok _ _ Hst) as [Hpr Hkeys].
  split; [done|]. rewrite Hkeys, keys_flight. unfold keys. simpl. by rewrite Hall.
Qed.

Lemma same_held b x : same_item (set_held b x) x.
Proof. by split_and!. Qed.

Lemma finish_ok q fl1 x fl2 r gen :
  sched_ok q (fl1 ++ x :: fl2) → sched_ok (finish q x r gen) (fl1 ++ fl2).
Proof.
  intros Hok. unfold finish. destruct (isQueuedResult (rep_result r)).
  - eapply park_ok; [exact Hok|apply same_held].
  - destruct (si_waiting x && _); [eapply park_ok; [exact Hok|apply same_held]|].
    eapply done_ok; [exact Hok|by split_and!].
Qed.

Lemma step_ok st st' : sched_step st st' → sched_ok st.1 st.2 → sched_ok st'.1 st'.2.
Proof.
  intros [q fl k s pending|q fl signed|q fl|q fl admits gen x q' Hp|q fl1 x fl2 r gen] Hok; simpl in *.
  - by apply enqueue_ok.
  - by apply map_waiting_ok.
  - by apply map_waiting_ok.
  - by eapply pop_ok.
  - by apply finish_ok.
Qed.

Lemma scheduled_ok st : scheduled st → sched_ok st.1 st.2.
Proof.
  unfold scheduled. intros Hs. assert (sched_ok newSchedQueues []) as H0 by apply sched_ok_new.
  cut (∀ st0, rtc sched_step st0 st → sched_ok st0.1 st0.2 → sched_ok st.1 st.2); [eauto|].
  clear. induction 1; [done|]. eauto using step_ok.
Qed.

(** *** Turns *)

(** The hosts in the order of their turns. *)
Definition rotation (q : schedQueues) : list string := drop (sq_next q) (sq_order q) ++ take (sq_next q) (sq_order q).

(** A host that would be given a check now. *)
Definition ready (admits : string → bool → bool) (q : schedQueues) (host : string) : bool :=
  match sq_hosts q !! host with
  | Some h => negb (hq_inFlight h) && bool_decide (is_Some (pop_host (admits host) (sq_pending q) h))
  | None => false
  end.

Lemma rotation_perm q : rotation q ≡ₚ sq_order q.
Proof. unfold rotation. rewrite Permutation_app_comm. by rewrite take_drop. Qed.

(** An index into a list that starts at [n] and wraps around. *)
Lemma rotated_lookup {A} (l : list A) n i :
  (n ≤ length l)%nat → (i < length l)%nat → (drop n l ++ take n l) !! i = l !! ((n + i) mod length l)%nat.
Proof.
  intros Hn Hi. destruct (decide (n + i < length l)%nat) as [Hlt|Hge].
  - rewrite Nat.mod_small by done. rewrite lookup_app_l by (rewrite length_drop; lia). by rewrite lookup_drop.
  - rewrite lookup_app_r by (rewrite length_drop; lia). rewrite length_drop.
    replace ((n + i) mod length l)%nat with (i - (length l - n))%nat.
    + rewrite lookup_take_lt; [done|lia].
    + replace (n + i)%nat with ((i - (length l - n)) + 1 * length l)%nat by lia.
      rewrite Nat.Div0.mod_add. symmetry. apply Nat.mod_small. lia.
Qed.

(** Moving the start past the [i]-th element of the turn. *)
Lemma rotated_next {A} (l l1 l2 : list A) n x :
  (n ≤ length l)%nat → drop n l ++ take n l = l1 ++ x :: l2 →
  let n' := ((n + length l1 + 1) mod length l)%nat in drop n' l ++ take n' l = l2 ++ l1 ++ [x].
Proof.
  intros Hn Hl n'. assert (length l = length (l1 ++ x :: l2)) as Hlen.
  { rewrite <-Hl, length_app, length_drop, length_take. lia. }
  assert (length l ≠ 0)%nat as H0 by (rewrite Hlen, length_app; simpl; lia).
  pose proof (Nat.mod_upper_bound (n + length l1 + 1) _ H0) as Hn'. fold n' in Hn'.
  apply list_eq_same_length with (length l); [|rewrite length_app, length_drop, length_take; lia|].
  { rewrite Hlen, !length_app. simpl. lia. }
  intros j a b Hj Ha Hb. rewrite rotated_lookup in Ha by lia.
  assert ((l1 ++ [x]) ++ l2 = drop n l ++ take n l) as Hl' by (by rewrite Hl, <-app_assoc).
  assert (l2 ++ l1 ++ [x] = drop (length l1 + 1) (drop n l ++ take n l) ++ take (length l1 + 1) (drop n l ++ take n l)) as E.
  { rewrite <-Hl', drop_app_length', take_app_length'; [done|rewrite length_app; simpl; lia..]. }
  assert (length (drop n l ++ take n l) = length l) as Hlr by (rewrite length_app, length_drop, length_take; lia).
  rewrite E, rotated_lookup, Hlr, rotated_lookup in Hb; rewrite ?Hlr;
    try (apply Nat.mod_upper_bound); try lia; [|rewrite Hlen, length_app; simpl; lia].
  rewrite Nat.Div0.add_mod_idemp_r in Hb. unfold n' in Ha. rewrite Nat.Div0.add_mod_idemp_l in Ha.
  replace (n + length l1 + 1 + j)%nat with (n + (length l1 + 1 + j))%nat in Ha by lia. congruence.
Qed.

(** Every host of a queue of turns, none skipped that is ready. *)
Lemma pop_from_turns admits q idxs rs :
  Forall2 (λ i host, sq_order q !! i = Some host ∧ is_Some (sq_hosts q !! host)) idxs rs →
  match pop_from admits q idxs with
  | None => ∀ host, host ∈ rs → ready admits q host = false
  | Some (x, q') => ∃ rs1 host rs2 h h' pe idx,
      rs = rs1 ++ host :: rs2 ∧ (∀ r, r ∈ rs1 → ready admits q r = false) ∧ idxs !! length rs1 = Some idx ∧
      sq_hosts q !! host = Some h ∧ pop_host (admits host) (sq_pending q) h = Some (x, h', pe) ∧
      sq_order q' = sq_order q ∧ sq_next q' = ((idx + 1) mod length (sq_order q))%nat
  end.
Proof.
  induction 1 as [|i host idxs rs [Hi [h Hh]] Hrs IH]; [by intros ? ?%not_elem_of_nil|].
  cbn [pop_from]. rewrite Hi. cbn [mbind option_bind]. rewrite Hh. cbn [mbind option_bind].
  assert (ready admits q host = false → match pop_from admits q idxs with
    | None => ∀ r, r ∈ host :: rs → ready admits q r = false
    | Some (x, q') => ∃ rs1 ho rs2 h h' pe idx, host :: rs = rs1 ++ ho :: rs2 ∧
        (∀ r, r ∈ rs1 → ready admits q r = false) ∧ (i :: idxs) !! length rs1 = Some idx ∧
        sq_hosts q !! ho = Some h ∧ pop_host (admits ho) (sq_pending q) h = Some (x, h', pe) ∧
        sq_order q' = sq_order q ∧ sq_next q' = ((idx + 1) mod length (sq_order q))%nat end) as Hskip.
  { intros Hr. destruct (pop_from admits q idxs) as [[x q']|].
    - destruct IH as (rs1 & ho & rs2 & h0 & h' & pe & idx & -> & Hrs1 & ?).
      exists (host :: rs1), ho, rs2, h0, h', pe, idx. split; [done|]. split; [|done].
      intros r [->|?]%elem_of_cons; auto.
    - intros r [->|?]%elem_of_cons; auto. }
  unfold ready in Hskip at 1. rewrite Hh in Hskip.
  destruct (hq_inFlight h); [by apply Hskip|].
  destruct (pop_host (admits host) (sq_pending q) h) as [[[x h'] pe]|] eqn:Hp; [|apply Hskip; by case_bool_decide as Hs; [destruct Hs|]].
  exists [], host, rs, h, h', pe, i. split_and!; try done. by intros r ?%not_elem_of_nil.
Qed.

(** The first ready host of the turn is served, and goes to its end. *)
Lemma pop_turns q fl admits :
  sched_ok q fl →
  match pop admits q with
  | None => ∀ host, ready admits q host = false
  | Some (x, q') => ∃ rs1 rs2, rotation q = rs1 ++ si_host x :: rs2 ∧
      (∀ r, r ∈ rs1 → ready admits q r = false) ∧ rotation q' = rs2 ++ rs1 ++ [si_host x]
  end.
Proof.
  intros Hok. pose proof (so_next _ _ _ Hok) as Hn. unfold pop.
  assert (Forall2 (λ i host, sq_order q !! i = Some host ∧ is_Some (sq_hosts q !! host))
            (map (turn q) (seq 0 (length (sq_order q)))) (rotation q)) as Hall.
  { apply Forall2_same_length_lookup_2.
    - by rewrite length_map, length_seq, (rotation_perm q).
    - intros i y host Hy Hr. change (map (turn q)) with (fmap (M:=list) (turn q)) in Hy.
      apply list_lookup_fmap_Some in Hy as (j & -> & Hj). apply lookup_seq in Hj as [-> Hj]. simpl.
      assert (sq_order q !! turn q i = Some host) as Ho.
      { rewrite <-Hr. unfold turn, rotation. symmetry. apply rotated_lookup; lia. }
      split; [done|]. apply (so_dom _ _ _ Hok). by eapply list_elem_of_lookup_2. }
  pose proof (pop_from_turns admits q _ _ Hall) as Hp. destruct (pop_from _ _ _) as [[x q']|].
  - destruct Hp as (rs1 & host & rs2 & h & h' & pe & idx & Hr & Hrs1 & Hidx & Hh & Hph & Ho & Hq).
    assert (si_host x = host) as ->.
    { destruct (pop_host_spec _ _ q fl host h x h' pe (so_hosts _ _ _ Hok host h Hh) Hph) as ((x0 & Hit & Hs) & _).
      rewrite (same_host _ _ Hs). apply (ho_home _ _ _ _ _ (so_hosts _ _ _ Hok host h Hh)). rewrite Hit. by left. }
    exists rs1, rs2. split_and!; [done|done|].
    change (map (turn q)) with (fmap (M:=list) (turn q)) in Hidx.
    apply list_lookup_fmap_Some in Hidx as (j & -> & Hj). apply lookup_seq in Hj as [-> Hj].
    unfold rotation. rewrite Ho, Hq. unfold turn. rewrite Nat.Div0.add_mod_idemp_l.
    apply rotated_next; [lia|done].
  - intros host. destruct (ready admits q host) eqn:Hr; [|done]. rewrite <-Hr. apply Hp. rewrite rotation_perm.
    apply (so_dom _ _ _ Hok). unfold ready in Hr. destruct (sq_hosts q !! host); [eauto|done].
Qed.

(** Pruning keeps the turn's order. *)
Lemma prune_rotation q : (sq_next q < Nat.max 1 (length (sq_order q)))%nat →
  rotation (prune q) = List.filter (keeps_host q) (rotation q).
Proof.
  intros Hn. destruct (sq_order q) as [|o os] eqn:Ho.
  { assert (prune q = q) as -> by (unfold prune; by rewrite Ho). unfold rotation. rewrite Ho. by rewrite drop_nil, take_nil. }
  unfold prune. rewrite Ho. cbn [length] in Hn. unfold rotation. cbn [sq_next sq_order]. rewrite Ho.
  set (l := o :: os) in *. set (n := sq_next q) in *.
  assert (n < length l)%nat as Hn' by (unfold l; simpl; lia). clearbody l n.
  rewrite Nat.mod_small by done. rewrite List.filter_app.
  assert (List.filter (keeps_host q) l = List.filter (keeps_host q) (take n l) ++ List.filter (keeps_host q) (drop n l)) as ->.
  { by rewrite <-List.filter_app, take_drop. }
  set (a := List.filter _ (take n l)). set (b := List.filter _ (drop n l)). clearbody a b.
  rewrite length_app. destruct (Nat.ltb_spec (length a) (length a + length b)) as [Hlt|Hge].
  - by rewrite drop_app_length, take_app_length.
  - assert (b = []) as -> by (apply length_zero_iff_nil; lia). by rewrite drop_0, take_0, !app_nil_r.
Qed.

Lemma finish_rotation q fl x r gen :
  sched_ok q fl → ∃ keep, rotation (finish q x r gen) = List.filter keep (rotation q).
Proof.
  intros Hok. pose proof (so_next _ _ _ Hok) as Hn.
  assert (∀ i, rotation (sched_done q i) = List.filter (keeps_host {| sq_hosts := alter stop_flight (si_host i) (sq_hosts q);
            sq_order := sq_order q; sq_next := sq_next q; sq_queued := sq_queued q ∖ {[si_key i]};
            sq_pending := sq_pending q ∖ {[si_key i]}; sq_waitSeq := sq_waitSeq q |}) (rotation q)) as Hd.
  { intros i. unfold sched_done. by rewrite prune_rotation. }
  assert (∀ i b, ∃ keep, rotation (park q i b) = List.filter keep (rotation q)) as Hp.
  { intros i b. unfold park. destruct (sq_hosts q !! si_host i); [|eauto].
    exists (λ _, true). unfold rotation. simpl. symmetry. apply forallb_filter_id. by apply forallb_forall. }
  unfold finish. destruct (isQueuedResult (rep_result r)); [apply Hp|]. destruct (_ && _); [apply Hp|eauto].
Qed.

(** A host that stays in a filtered turn has no more hosts before it. *)
Lemma filter_split {A} (keep : A → bool) l l1 x l2 :
  List.filter keep l = l1 ++ x :: l2 → ∃ k1 k2, l = k1 ++ x :: k2 ∧ (length l1 ≤ length k1)%nat.
Proof.
  revert l1. induction l as [|y l IH]; intros l1 Hf; [by destruct l1|]. simpl in Hf. destruct (keep y).
  - destruct l1 as [|z l1]; simplify_eq/=; [by exists [], l; split; [|simpl; lia]|].
    destruct (IH l1) as (k1 & k2 & -> & Hk); [done|]. exists (z :: k1), k2. split; [done|simpl; lia].
  - destruct (IH l1 Hf) as (k1 & k2 & -> & Hk). exists (y :: k1), k2. split; [done|simpl; lia].
Qed.

Lemma NoDup_split_inj {A} (l1 l2 k1 k2 : list A) x :
  NoDup (k1 ++ x :: k2) → k1 ++ x :: k2 = l1 ++ x :: l2 → l1 = k1.
Proof.
  revert l1. induction k1 as [|y k1 IH]; intros l1 Hnd Heq; destruct l1 as [|z l1]; simplify_eq/=; try done.
  - apply NoDup_cons in Hnd as [Hn _]. destruct Hn. apply elem_of_app. right. by left.
  - apply NoDup_cons in Hnd as [Hn _]. destruct Hn. apply elem_of_app. right. by left.
  - apply NoDup_cons in Hnd as [_ Hnd]. f_equal. by apply IH.
Qed.

(** A run of the loop in which [host] is passed over [n] times: it is ready at
    each pop and another host is served.  No host is new. *)
Inductive passed_over (host : string) : nat → schedQueues * list schedItem → Prop :=
| po_stop st : passed_over host 0 st
| po_enqueue n q fl k s pending :
    is_Some (sq_hosts q !! key_host k) → passed_over host n ((enqueue q k s pending).1, fl) → passed_over host n (q, fl)
| po_refresh n q fl signed : passed_over host n (refreshSigned q signed, fl) → passed_over host n (q, fl)
| po_unhold n q fl : passed_over host n (unhold q, fl) → passed_over host n (q, fl)
| po_pop n q fl admits gen x q' :
    pop admits q = Some (x, q') → ready admits q host = true → si_host x ≠ host →
    passed_over host n (q', withGen x gen :: fl) → passed_over host (S n) (q, fl)
| po_finish n q fl1 x fl2 r gen :
    passed_over host n (finish q x r gen, fl1 ++ fl2) → passed_over host n (q, fl1 ++ x :: fl2).

Lemma passed_over_before host n st :
  passed_over host n st → sched_ok st.1 st.2 →
  n = 0%nat ∨ ∃ l1 l2, rotation st.1 = l1 ++ host :: l2 ∧ (n ≤ length l1)%nat.
Proof.
  induction 1 as [st|n q fl k s pending Hk _ IH|n q fl signed _ IH|n q fl _ IH|n q fl admits gen x q' Hp Hr Hne _ IH
    |n q fl1 x fl2 r gen _ IH]; intros Hok; simpl in *.
  - by left.
  - destruct IH as [->|IH]; [by apply enqueue_ok|by left|right].
    unfold enqueue in IH. case_bool_decide; [done|]. destruct Hk as [h Hk]. by rewrite Hk in IH.
  - apply IH. by apply map_waiting_ok.
  - apply IH. by apply map_waiting_ok.
  - right. pose proof (pop_turns q fl admits Hok) as Ht. rewrite Hp in Ht. destruct Ht as (rs1 & rs2 & Hrot & Hno & Hrot').
    assert (host ∈ rs2) as Hin.
    { assert (host ∈ rotation q) as Hin.
      { rewrite rotation_perm. apply (so_dom _ _ _ Hok). unfold ready in Hr. destruct (sq_hosts q !! host); [eauto|done]. }
      rewrite Hrot in Hin. apply elem_of_app in Hin as [Hin|[?|?]%elem_of_cons]; [|congruence|done].
      by rewrite (Hno _ Hin) in Hr. }
    apply list_elem_of_split in Hin as (k1 & k2 & ->).
    assert (NoDup (rotation q')) as Hnd.
    { rewrite Hrot'. rewrite Permutation_app_comm, <-app_assoc. simpl. rewrite <-Hrot. rewrite rotation_perm. apply Hok. }
    exists (rs1 ++ si_host x :: k1), k2. split; [by rewrite Hrot, <-app_assoc|]. rewrite length_app. simpl.
    destruct IH as [->|(l1 & l2 & Hl & Hn)]; [by eapply pop_ok|lia|]. simpl in Hl.
    assert (l1 = k1) as ->; [|lia]. rewrite Hrot', <-!app_assoc in Hl. simpl in Hl. rewrite Hrot', <-!app_assoc in Hnd.
    simpl in Hnd. by eapply (NoDup_split_inj l1 l2 k1).
  - destruct IH as [->|(l1 & l2 & Hl & Hn)]; [by apply finish_ok|by left|right]. simpl in Hl.
    destruct (finish_rotation q _ x r gen Hok) as [keep Hk]. rewrite Hk in Hl.
    destruct (filter_split _ _ _ _ _ Hl) as (k1 & k2 & ? & ?). exists k1, k2. split; [done|lia].
Qed.

(** *** A bounded tick *)

Lemma boundDue_fresh due q maxSuites now d :
  d ∈ boundDue due q maxSuites now → d ∈ due ∧ suiteKey d.1 ∉ sq_queued q.
Proof.
  set (fresh := List.filter (λ d, negb (has q (suiteKey d.1))) due).
  assert (∀ d, d ∈ fresh → d ∈ due ∧ suiteKey d.1 ∉ sq_queued q) as Hf.
  { intros e. unfold fresh, has. rewrite !list_elem_of_In, filter_In, negb_true_iff, bool_decide_eq_false. done. }
  unfold boundDue. fold fresh. repeat case_match; [apply Hf|by intros ?%not_elem_of_nil|].
  rewrite list_elem_of_In, filter_In. intros [Hd _]. apply Hf. by apply list_elem_of_In.
Qed.

Definition due_keys (l : list (SuiteKey * SuiteFreshness)) : list string := map (λ d, suiteKey d.1) l.

Lemma due_keys_filter (P : SuiteKey * SuiteFreshness → bool) l : NoDup (due_keys l) → NoDup (due_keys (List.filter P l)).
Proof.
  induction l as [|d l IH]; intros Hnd; [done|]. apply NoDup_cons in Hnd as [Hd Hnd]. simpl.
  destruct (P d); [|auto]. apply NoDup_cons. split; [|auto].
  intros Hin. apply Hd. apply elem_of_map_fun in Hin as (e & He & Hin). apply elem_of_map_fun. exists e. split; [done|].
  rewrite list_elem_of_In in *. by apply filter_In in Hin as [? _].
Qed.

Lemma due_keys_inj l d e : NoDup (due_keys l) → d ∈ l → e ∈ l → suiteKey d.1 = suiteKey e.1 → d = e.
Proof.
  induction l as [|x l IH]; [by intros _ ?%not_elem_of_nil|]. intros [Hx Hnd]%NoDup_cons Hd He Hk.
  apply elem_of_cons in Hd as [->|Hd]; apply elem_of_cons in He as [->|He]; [done| | |by apply IH];
    destruct Hx; apply elem_of_map_fun; eauto.
Qed.

Lemma boundDue_length due q maxSuites now :
  NoDup (due_keys due) →
  NoDup (due_keys (boundDue due q maxSuites now)) ∧
  Z.of_nat (length (boundDue due q maxSuites now)) <= Z.max 0 (maxSuites - Z.of_nat (size (sq_queued q))).
Proof.
  intros Hnd. unfold boundDue. set (fresh := List.filter _ due).
  assert (NoDup (due_keys fresh)) as Hf by by apply due_keys_filter.
  destruct (Z.leb_spec (Z.of_nat (length fresh)) (maxSuites - Z.of_nat (size (sq_queued q)))); [split; [done|lia]|].
  destruct (Z.leb_spec (maxSuites - Z.of_nat (size (sq_queued q))) 0); [split; [constructor|simpl; lia]|].
  set (room := maxSuites - _) in *. set (adm := map _ (take _ _)). split; [by apply due_keys_filter|].
  assert (length (due_keys (List.filter (λ d, existsb (String.eqb (suiteKey d.1)) adm) fresh)) ≤ length adm)%nat as Hl.
  { apply submseteq_length, NoDup_submseteq; [by apply due_keys_filter|].
    intros k (d & -> & Hd)%elem_of_map_fun. rewrite list_elem_of_In, filter_In in Hd. destruct Hd as [_ Hd].
    apply existsb_exists in Hd as (k & Hk & ->%String.eqb_eq). by apply list_elem_of_In. }
  unfold due_keys in Hl. rewrite length_map in Hl. unfold adm at 2 in Hl. rewrite length_map, length_take in Hl. lia.
Qed.

(** The suites that are left out, when some are: the queue is full, and those let in
    were not checked later. *)
Lemma boundDue_least due q maxSuites now d :
  NoDup (due_keys due) → d ∈ due → suiteKey d.1 ∉ sq_queued q → suiteKey d.1 ∉ due_keys (boundDue due q maxSuites now) →
  maxSuites <= Z.of_nat (length (boundDue due q maxSuites now) + size (sq_queued q)) ∧
  ∀ e, e ∈ boundDue due q maxSuites now → lastCheck now e <= lastCheck now d.
Proof.
  intros Hnd Hd Hq. unfold boundDue. set (fresh := List.filter _ due).
  assert (NoDup (due_keys fresh)) as Hf by by apply due_keys_filter.
  assert (d ∈ fresh) as Hdf.
  { unfold fresh, has. by rewrite list_elem_of_In, filter_In, <-list_elem_of_In, negb_true_iff, bool_decide_eq_false. }
  destruct (Z.leb_spec (Z.of_nat (length fresh)) (maxSuites - Z.of_nat (size (sq_queued q)))).
  { intros Hno. destruct Hno. apply elem_of_map_fun. by exists d. }
  destruct (Z.leb_spec (maxSuites - Z.of_nat (size (sq_queued q))) 0).
  { intros _. split; [cbn; lia|]. by intros e ?%not_elem_of_nil. }
  set (room := maxSuites - _) in *. set (byCheck := sort_by _ fresh). set (adm := map _ (take _ _)).
  assert (byCheck ≡ₚ fresh) as Hperm by apply sort_by_perm.
  assert (NoDup (due_keys byCheck)) as Hnb by (unfold due_keys; by rewrite (Permutation_map _ Hperm)).
  assert (∀ e, e ∈ List.filter (λ d0, existsb (String.eqb (suiteKey d0.1)) adm) fresh ↔ e ∈ fresh ∧ suiteKey e.1 ∈ adm) as Hin.
  { intros e. rewrite list_elem_of_In, filter_In, <-list_elem_of_In, existsb_exists. split; intros [? Hx]; (split; [done|]).
    - destruct Hx as (k & Hk & ->%String.eqb_eq). by apply list_elem_of_In.
    - exists (suiteKey e.1). by rewrite <-list_elem_of_In, String.eqb_eq. }
  intros Hout. assert (suiteKey d.1 ∉ adm) as Hda.
  { intros Ha. apply Hout, elem_of_map_fun. exists d. split; [done|]. by apply Hin. }
  assert (∀ e, e ∈ byCheck → suiteKey e.1 ∈ adm → e ∈ take (Z.to_nat room) byCheck) as Htake.
  { intros e He Ha. apply elem_of_map_fun in Ha as (e' & Hk & He'). assert (e = e') as ->; [|done].
    apply subseteq_take in He'. by apply (due_keys_inj byCheck). }
  assert (d ∈ drop (Z.to_nat room) byCheck) as Hdd.
  { assert (d ∈ byCheck) as Hb by by rewrite Hperm. rewrite <-(take_drop (Z.to_nat room) byCheck) in Hb.
    apply elem_of_app in Hb as [Hb|Hb]; [|done]. destruct Hda. apply elem_of_map_fun. by exists d. }
  split.
  - assert (length adm ≤ length (List.filter (λ d0, existsb (String.eqb (suiteKey d0.1)) adm) fresh))%nat as Hlen.
    { rewrite <-(length_map (λ d0, suiteKey d0.1) (List.filter _ fresh)). apply submseteq_length, NoDup_submseteq.
      - unfold due_keys in Hnb. rewrite <-(take_drop (Z.to_nat room) byCheck), map_app in Hnb. by apply NoDup_app in Hnb as [? _].
      - intros k Hk. apply elem_of_map_fun in Hk as (e & -> & He). pose proof (subseteq_take _ _ _ He) as He'.
        apply elem_of_map_fun. exists e. split; [done|]. apply Hin. rewrite <-Hperm. split; [done|].
        apply elem_of_map_fun. by exists e. }
    unfold adm at 1 in Hlen. rewrite length_map, length_take in Hlen.
    assert (length byCheck = length fresh) as Hbl by by rewrite Hperm. lia.
  - intros e [He Ha]%Hin. apply Z.leb_le.
    assert (StronglySorted (λ a b, (lastCheck now a <=? lastCheck now b) = true) byCheck) as Hs.
    { apply Sorted_StronglySorted; [intros a b c; rewrite !Z.leb_le; lia|]. apply sort_by_sorted. intros a b. rewrite !Z.leb_le. lia. }
    rewrite <-(take_drop (Z.to_nat room) byCheck) in Hs.
    eapply (StronglySorted_app_1_elem_of _ _ _ e d Hs); [|done]. apply Htake; [by rewrite Hperm|done].
Qed.

Lemma enqueue_all c due q :
  NoDup (due_keys due) → (∀ d, d ∈ due → suiteKey d.1 ∉ sq_queued q) →
  let q' := foldl (λ q d, (enqueue q d.1 d.2 (pendingChange c d.2)).1) q due in
  sq_pending q' = sq_pending q ∧ size (sq_queued q') = (length due + size (sq_queued q))%nat ∧
  ∀ k, k ∈ sq_queued q' ↔ k ∈ due_keys due ∨ k ∈ sq_queued q.
Proof.
  revert q. induction due as [|d due IH]; intros q Hnd Hq.
  { split_and!; [done..|]. intros k. split; [by right|]. by intros [?%not_elem_of_nil|?]. }
  apply NoDup_cons in Hnd as [Hd Hnd]. cbn [foldl].
  assert (suiteKey d.1 ∉ sq_queued q) as Hdq by (apply Hq; by left).
  set (q1 := (enqueue q d.1 d.2 (pendingChange c d.2)).1).
  assert (sq_queued q1 = {[suiteKey d.1]} ∪ sq_queued q ∧ sq_pending q1 = sq_pending q) as [Hq1 Hp1].
  { unfold q1, enqueue. by rewrite bool_decide_false. }
  destruct (IH q1) as (-> & -> & Hk); [done| |].
  - intros e He. rewrite Hq1. intros [Hin%elem_of_singleton|Hin]%elem_of_union.
    + apply Hd. apply elem_of_map_fun. by exists e.
    + by apply (Hq e); [right|].
  - split; [done|]. split; [rewrite Hq1, size_union, size_singleton; [simpl; lia|]; by apply disjoint_singleton_l|].
    intros k. rewrite Hk, Hq1, elem_of_union, elem_of_singleton. unfold due_keys. cbn [map]. rewrite elem_of_cons. tauto.
Qed.

(** *** Admission *)

(** A slot is offered exactly where one would be granted. *)
Lemma freeFor_tryAcquire a host signed :
  0 <= ad_global a → 0 < freeFor a host signed ↔ is_Some (tryAcquire a host signed).
Proof.
  intros Hg. unfold freeFor, tryAcquire. case_bool_decide; [split; [lia|by intros [? ?]]|].
  destruct (Z.eqb_spec (ad_global a) 0) as [->|Hne].
  - simpl. split; [eauto|]. unfold admissionUnlimited. lia.
  - destruct (Z.ltb_spec 0 (ad_global a)); [|lia]. cbn [andb].
    destruct (Z.leb_spec 2 (ad_global a)), signed; cbn [andb negb orb];
      repeat match goal with |- context [?x <=? 0] => destruct (Z.leb_spec x 0)
                           | |- context [?x =? 1] => destruct (Z.eqb_spec x 1) end; cbn [andb negb orb];
      (split; [intros; first [by eauto|lia]|intros [? ?]; first [done|lia]]).
Qed.

(** *** The retry delays *)

Lemma backoffDelay_bounds count : 1 <= count → retryBaseDelay <= backoffDelay count <= retryMaxDelay.
Proof.
  intros Hc. unfold backoffDelay. destruct (Z.ltb_spec count 1); [lia|].
  destruct (Z.ltb_spec 6 count); [by vm_compute|]. rewrite Z.shiftl_mul_pow2 by lia.
  assert (1 <= 2 ^ (count - 1)) by (pose proof (Z.pow_pos_nonneg 2 (count - 1)); lia).
  unfold retryBaseDelay, retryMaxDelay, Second. lia.
Qed.

Lemma backoffDelay_mono a b : a <= b → backoffDelay a <= backoffDelay b.
Proof.
  intros Hab. unfold backoffDelay. destruct (Z.ltb_spec a 1), (Z.ltb_spec b 1); try lia.
  - pose proof (backoffDelay_bounds b). unfold backoffDelay in *. destruct (Z.ltb_spec b 1); [lia|].
    unfold retryBaseDelay, Second in *. lia.
  - destruct (Z.ltb_spec 6 a), (Z.ltb_spec 6 b); try lia.
    rewrite !Z.shiftl_mul_pow2 by lia. apply Z.min_le_compat_r, Z.mul_le_mono_nonneg_l; [by vm_compute|].
    apply Z.pow_le_mono_r; lia.
Qed.

(** ** Properties *)




(** C34. The scheduler starves no host: a pop finds a check whenever a host is
    ready, and however the loop runs on from a state, a host that is ready at
    every pop is passed over fewer times than there are hosts, unless hosts
    are added. *)
Theorem turns_fair q fl :
  scheduled (q, fl) →
  (∀ admits, pop admits q = None ↔ ∀ host, ready admits q host = false) ∧
  ∀ host n, passed_over host n (q, fl) → (n < Nat.max 1 (length (sq_order q)))%nat.
Proof.
  intros Hok%scheduled_ok. simpl in Hok. split.
  - intros admits. pose proof (pop_turns q fl admits Hok) as Ht. destruct (pop admits q) as [[x q']|] eqn:Hp; [|done].
    split; [done|]. intros Hno. exfalso. unfold pop in Hp.
    apply pop_from_spec in Hp as (idx & host & h & h' & pe & _ & _ & Hh & Hf & Hph & _).
    specialize (Hno host). unfold ready in Hno. rewrite Hh, Hf, Hph in Hno. by rewrite bool_decide_true in Hno by eauto.
  - intros host n Hn. destruct (passed_over_before host n _ Hn Hok) as [->|(l1 & l2 & Hl & Hn')]; [lia|].
    assert (length (rotation q) = length (sq_order q)) as Hlen by by rewrite rotation_perm. simpl in Hl.
    rewrite Hl, length_app in Hlen. simpl in Hlen. lia.
Qed.

(** A tick with a bound: what it leaves queued, and the marks of the changes found
    since, which it leaves as they are - even of a queued suite that the listing
    says has one. *)
Lemma tick_queues c rows now q :
  NoDup (due_keys (map fst rows)) → 0 < ck_maxSuites c →
  ∃ due, NoDup (due_keys due) ∧ (∀ d, d ∈ due ↔ d ∈ map fst rows ∧ suiteDue c d.1 d.2 now = true) ∧
    let admitted := boundDue due q (ck_maxSuites c) (Unix now) in
    sq_pending (tick c rows now q) = sq_pending q ∧
    size (sq_queued (tick c rows now q)) = (length admitted + size (sq_queued q))%nat ∧
    ∀ k, k ∈ sq_queued (tick c rows now q) ↔ k ∈ due_keys admitted ∨ k ∈ sq_queued q.
Proof.
  intros Hnd Hmax. unfold tick. apply Z.ltb_lt in Hmax as ->. set (q1 := refreshSigned q _).
  set (due := sort_by _ _). assert (NoDup (due_keys due)) as Hdue.
  { unfold due, due_keys. rewrite (Permutation_map _ (sort_by_perm _ _)). by apply due_keys_filter. }
  exists due. split; [exact Hdue|]. split.
  { intros d. unfold due. rewrite elem_of_sort_by, list_elem_of_In, filter_In, <-list_elem_of_In. done. }
  apply (enqueue_all c (boundDue due q1 (ck_maxSuites c) (Unix now)) q1).
  - by apply boundDue_length.
  - intros d Hd. by apply boundDue_fresh in Hd as [_ ?].
Qed.

Lemma tick_marks_nothing c rows now q :
  NoDup (due_keys (map fst rows)) → 0 < ck_maxSuites c → sq_pending (tick c rows now q) = sq_pending q.
Proof. intros Hnd Hmax. by destruct (tick_queues c rows now q Hnd Hmax) as (due & _ & _ & ? & _). Qed.

(** C35. A tick with a bound on the queue, over a listing of suites of different
    keys.  It takes the queue past neither freshness.max_suites nor, when it is
    past that already, what it was; it drops nothing from the queue and adds only
    suites of the listing that are due; and a due suite is left out only when the
    queue is full, and then the suites added were checked no later than it - where
    a suite never checked, or checked in the future, counts as checked first. *)
Theorem tick_bounded c rows now q :
  NoDup (due_keys (map fst rows)) → 0 < ck_maxSuites c →
  let q' := tick c rows now q in
  Z.of_nat (size (sq_queued q')) <= Z.max (ck_maxSuites c) (Z.of_nat (size (sq_queued q))) ∧
  sq_queued q ⊆ sq_queued q' ∧
  (∀ k, k ∈ sq_queued q' → k ∉ sq_queued q → ∃ d, d ∈ map fst rows ∧ suiteKey d.1 = k ∧ suiteDue c d.1 d.2 now = true) ∧
  (∀ d, d ∈ map fst rows → suiteDue c d.1 d.2 now = true → suiteKey d.1 ∉ sq_queued q' →
     ck_maxSuites c <= Z.of_nat (size (sq_queued q')) ∧
     ∀ e, e ∈ map fst rows → suiteKey e.1 ∈ sq_queued q' → suiteKey e.1 ∉ sq_queued q →
       lastCheck (Unix now) e <= lastCheck (Unix now) d).
Proof.
  intros Hnd Hmax q'. destruct (tick_queues c rows now q Hnd Hmax) as (due & Hdue & Hin & _ & Hsize & Hk).
  fold q' in Hsize, Hk. set (adm := boundDue due q (ck_maxSuites c) (Unix now)) in *.
  assert (∀ d, d ∈ adm → d ∈ due) as Hsub by (intros d Hd; by apply boundDue_fresh in Hd as [? _]).
  split_and!.
  - destruct (boundDue_length due q (ck_maxSuites c) (Unix now) Hdue) as [_ Hl]. fold adm in Hl. lia.
  - intros k Hq. apply Hk. by right.
  - intros k [Ha|?]%Hk Hq; [|done]. apply elem_of_map_fun in Ha as (d & -> & Hd). exists d.
    by destruct (proj1 (Hin d) (Hsub d Hd)).
  - intros d Hd Hdd Hno. assert (suiteKey d.1 ∉ sq_queued q) as Hq by (intros ?; apply Hno, Hk; by right).
    destruct (boundDue_least due q (ck_maxSuites c) (Unix now) d Hdue) as [Hfull Hlate].
    { by apply Hin. } { done. } { intros ?. apply Hno, Hk. by left. }
    fold adm in Hfull, Hlate. split; [lia|]. intros e He [Hea|?]%Hk Heq; [|done].
    apply elem_of_map_fun in Hea as (e' & Hkey & He'). assert (e = e') as ->; [|by apply Hlate].
    apply (due_keys_inj (map fst rows)); [done|done| |done]. by apply Hin, Hsub.
Qed.

(** ** A concrete run *)

Definition run_suite (host path : string) : SuiteKey := ("http", host, path).

Definition run_row : SuiteFreshness :=
  seed_row {| sd_key := run_suite "a" "dists/s"; sd_requested := 5; sd_last_check := Some 3; sd_last_success := Some 3;
              sd_etag := None; sd_lastmod := None; sd_signed_seen := 0; sd_cached := [] |} 1 1.

Definition run_queue : schedQueues :=
  foldl (λ q k, (enqueue q k run_row false).1) newSchedQueues
    [run_suite "a" "dists/s"; run_suite "a" "dists/t"; run_suite "b" "dists/s"; run_suite "b" "dists/t"].

(** Two suites each on two hosts: [a] is served, then [b], and the check of
    [a] ends for want of a slot. *)
Definition run_state : option (schedQueues * list schedItem) :=
  '(x, q) ← pop (λ _ _, true) run_queue;
  '(y, q) ← pop (λ _ _, true) q;
  Some (finish q (withGen x 0) {| rep_result := "changed_queued"; rep_signedCurrent := true |} 0, [withGen y 0]).

Lemma run_scheduled : match run_state with Some st => scheduled st | None => False end.
Proof.
  assert (scheduled (run_queue, [])) as Hq.
  { unfold scheduled. do 4 (eapply rtc_r; [|apply step_enqueue]). apply rtc_refl. }
  unfold run_state.
  destruct (pop (λ _ _, true) run_queue) as [[x q]|] eqn:Hx; [|by vm_compute in Hx].
  cbn [mbind option_bind]. destruct (pop (λ _ _, true) q) as [[y q']|] eqn:Hy;
    [|vm_compute in Hx; simplify_eq; by vm_compute in Hy].
  cbn [mbind option_bind]. unfold scheduled in *.
  eapply rtc_r; [eapply rtc_r; [eapply rtc_r; [exact Hq|eapply (step_pop _ _ _ 0), Hx]|eapply (step_pop _ _ _ 0), Hy]|].
  apply (step_finish q' [withGen y 0] (withGen x 0) []).
Qed.


Lemma turns_fair_witness :
  ∃ q fl, run_state = Some (q, fl) ∧ scheduled (q, fl) ∧ ready (λ _ _, true) q "a" = true ∧
    pop (λ _ _, true) q ≠ None.
Proof.
  pose proof run_scheduled as Hr. destruct run_state as [[q fl]|] eqn:Hs; [|destruct Hr].
  assert (ready (λ _ _, true) q "a" = true) as Ha by (vm_compute in Hs; injection Hs as <- <-; reflexivity).
  exists q, fl. split; [reflexivity|]. split; [exact Hr|]. split; [exact Ha|].
  intros Hn. pose proof (proj1 (proj1 (turns_fair q fl Hr) (λ _ _, true)) Hn "a") as Hf. congruence.
Defined.

(** Eleven due suites, two of them queued, and room for six more. *)
Definition run_rows : list (SuiteKey * SuiteFreshness * string) :=
  map (λ n, (run_suite n "dists/s", run_row, FormInline)) ["a"; "b"; "c"; "d"; "e"; "f"; "g"; "h"; "i"; "j"; "k"].

Definition run_checker : Checker :=
  {| ck_adopts := false; ck_refresh := 1; ck_maxSuites := 10; ck_absentAnswered := ∅ |}.

Lemma tick_bounded_witness :
  let q' := tick run_checker run_rows (1000 * Second) run_queue in
  NoDup (due_keys (map fst run_rows)) ∧ size (sq_queued run_queue) = 4%nat ∧ size (sq_queued q') = 10%nat ∧
  Z.of_nat (size (sq_queued q')) <= 10 ∧ sq_queued run_queue ⊆ sq_queued q'.
Proof.
  assert (NoDup (due_keys (map fst run_rows))) as Hnd by (apply (bool_decide_unpack _); vm_compute; exact I).
  assert (0 < ck_maxSuites run_checker) as Hmax by (vm_compute; reflexivity).
  destruct (tick_bounded run_checker run_rows (1000 * Second) run_queue Hnd Hmax) as (Hsize & Hsub & _).
  assert (Z.max (ck_maxSuites run_checker) (Z.of_nat (size (sq_queued run_queue))) = 10) as Hm by (vm_compute; reflexivity).
  rewrite Hm in Hsize.
  split; [exact Hnd|]. split; [vm_compute; reflexivity|]. split; [vm_compute; reflexivity|]. split; [exact Hsize|exact Hsub].
Defined.
