(* ===== verification/Adoption.v ===== *)
(** * The adoption of a Release (internal/freshness/adoption.go runShared,
    unsigned.go, hot_set.go, hot_prefetch.go)

    One run of the adopter, from the bytes of a changed Release to the commit
    that makes its snapshot current: verification, the checks on its Date, the
    candidate row, its members one by one, the guards that defer it, the
    package hashes, the hot packages, the flip.  Every step acts on the world of
    [MemberFetch] and may fail; what a failed run may have changed is a theorem. *)
From S2P Require Import Prelude GoStrings AptPath GoText ReleaseParse PackagesParse SourcesParse Tables Invariant Snapshots Suites GC Rows PackageIndex MemberFetch ReleaseDate.
Local Open Scope Z_scope.

(** ** The parts *)

(** The signature verifier: [None] is a failed verification, [Some text] the
    signed text. *)
Class Verifier := {
  VerifyInline : SuiteKey → string → option string;
  VerifyDetached : SuiteKey → string → string → option string;
}.

(** The decompressors the indexes are read with. *)
Class Decompress := {
  gunzip : Z → string → option string;
  unxz : Z → string → option string;
}.

(** The text of an error ([AdoptionMemberError.Detail]). *)
Class Details := { detail : adoption_error → string }.

(** What the flip barrier does with a run: it may have been closed, or abort
    the run while it waits ([FlipGate] is its model). *)
Class Barrier := {
  gate_closed : nat → bool;
  gate_aborts : nat → bool;
}.

(** The payload of a run, one form at a time. *)
Inductive payload :=
| PayloadInline (inRelease : string)
| PayloadDetached (release sig sigLastmod : string)
| PayloadUnsigned (release : string).

(** The fields of [Adopter] the run reads. *)
Record Adopter := {
  adoptUnsigned : bool;
  hotPackagesWindow : Z;                       (** in seconds *)
  maxVersionsPerPackage : Z;
  architectureAllowlist : option (gset string);
  tolerateOptionalMembers : bool;
  memberRetryCount : nat;
  requiredArchitectures : gset string;
  flipGateEnabled : bool;
}.

Definition maxReleaseDateSkew : Z := 10.
Definition unsignedMemberCap : Z := 1000.

Section run.
Context `{Env} `{HTTPTime} `{Verifier} `{Decompress} `{Barrier} `{Details}.

(** ** Effects *)

(** An operation whose failure is logged and otherwise ignored. *)
Definition ignore {A} (m : io adoption_error A) : io adoption_error unit := λ w, (Ok tt, (m w).2).

(** The error of a step as a value. *)
Definition attempt {A} (m : io adoption_error A) : io adoption_error (result adoption_error A) :=
  λ w, (Ok (m w).1, (m w).2).

Fixpoint iofor {E A S} (f : A → S → io E S) (l : list A) (s : S) : io E S :=
  match l with
  | [] => mret s
  | x :: l => s ← f x s; iofor f l s
  end.

(** The tracker is the list of the hashes noted so far. *)
Definition heartbeat (id : Z) (tracker : list string) : io adoption_error unit :=
  _ ← ignore (sql (HeartbeatSnapshot id));
  if (length tracker =? 0)%nat then mret tt else ignore (sql (HeartbeatBlobs tracker)).

Definition check_stop (e : adoption_error) : io adoption_error unit :=
  n ← event; ioassert (negb (cancelled n)) e.

(** [writeBlobBytes]: content already pooled is rehashed, and replaced when it
    is not what its name says. *)
Definition writeBlobBytes (content : string) : io adoption_error string :=
  let h := sha256 content in
  _ ← faulty (DBFailed None);
  p ← get_pool;
  let write : io adoption_error string :=
    _ ← faulty (DBFailed None);
    final ← maperr (λ _, DBFailed None) (Finalize content (len content));
    _ ← ioassert (final =? h)%string (DBFailed None);
    _ ← sql (PutBlob h (len content));
    mret h in
  match p !! h with
  | None => write
  | Some pooled =>
      _ ← faulty (DBFailed None);
      if (sha256 pooled =? h)%string then _ ← sql (PutBlob h (len content)); mret h
      else _ ← faulty (DBFailed None); _ ← set_pool (delete h p); write
  end.

(** ** The run, step by step *)

Definition priorSnapshot (k : SuiteKey) : io adoption_error (option (Z * SuiteSnapshot)) :=
  _ ← faulty (DBFailed None);
  d ← get_db;
  mret (id ← suite_current d k; s ← snap_t d !! id; Some (id, s)).

Definition unsignedEligible (a : Adopter) (k : SuiteKey) : io adoption_error unit :=
  if negb (adoptUnsigned a) then iofail UnsignedDisabled
  else maperr (λ e, match e with DBFailed (Some ErrUnsignedDowngradeRefused) => UnsignedDowngradeRefused
                               | e => e end)
         (sql (λ _, refuseUnsignedDowngrade (key_host k) (key_path k))).

Definition unsignedCap (n : Z) : bool := n <=? unsignedMemberCap.

(** The text to adopt: what the signature covers, or an unsigned body a suite
    without signed history may have. *)
Definition verify (a : Adopter) (k : SuiteKey) (p : payload) : io adoption_error string :=
  let signed (t : option string) := match t with Some t => mret t | None => iofail GPGFailed end in
  match p with
  | PayloadInline b => signed (VerifyInline k b)
  | PayloadDetached r s _ => signed (VerifyDetached k r s)
  | PayloadUnsigned r => _ ← unsignedEligible a k; mret r
  end.

(** The anchors' blobs: the anchor itself, and the detached signature. *)
Definition persist (p : payload) : io adoption_error (string * string) :=
  match p with
  | PayloadInline b => h ← writeBlobBytes b; mret (h, "")
  | PayloadDetached r s _ => rh ← writeBlobBytes r; gh ← writeBlobBytes s; mret (rh, gh)
  | PayloadUnsigned r => h ← writeBlobBytes r; mret (h, "")
  end.

Definition is_unsigned (p : payload) : bool := match p with PayloadUnsigned _ => true | _ => false end.

Definition anchor_name (p : payload) : string :=
  match p with PayloadInline _ => "InRelease" | _ => "Release" end.

Definition record_anchors (k : SuiteKey) (p : payload) (anchors : string * string) (lastmod : string)
  : io adoption_error unit :=
  _ ← sql (PutRepresentation (member_key k (anchor_name p)) anchors.1 lastmod);
  match p with
  | PayloadDetached _ _ sigLastmod =>
      sql (PutRepresentation (member_key k "Release.gpg") anchors.2 sigLastmod)
  | _ => mret tt
  end.

(** apt's own refusals: a Date ahead of the clock, or behind the current
    snapshot's. *)
Definition check_date (prior : option (Z * SuiteSnapshot)) (relDate : Z) : io adoption_error unit :=
  n ← event;
  _ ← ioassert (negb (clock n + maxReleaseDateSkew <? relDate)) DateInFuture;
  match prior with
  | Some (_, s) =>
      match ss_date s with
      | Some date => ioassert (negb (relDate <? date)) UpstreamOlder
      | None => mret tt
      end
  | None => mret tt
  end.

Definition nonempty (s : string) : option string := if (s =? "")%string then None else Some s.

Definition candidate_of (k : SuiteKey) (p : payload) (anchors : string * string) (relDate : Z)
    (etag lastmod : string) : SnapshotCandidate :=
  {| sc_suite := k;
     sc_inrelease := match p with PayloadDetached _ _ _ => None | _ => Some anchors.1 end;
     sc_etag := nonempty etag; sc_lastmod := nonempty lastmod;
     sc_release := match p with PayloadDetached _ _ _ => Some anchors.1 | _ => None end;
     sc_release_gpg := match p with PayloadDetached _ _ _ => Some anchors.2 | _ => None end;
     sc_coverage := false;
     sc_form := match p with PayloadInline _ => FormInline | PayloadDetached _ _ _ => FormDetached
                           | PayloadUnsigned _ => FormUnsigned end;
     sc_date := Some relDate |}.

(** A natural key already adopted is a rollback, unless it is the current one. *)
Definition insert_candidate (prior : option (Z * SuiteSnapshot)) (sc : SnapshotCandidate)
  : io adoption_error Z :=
  r ← maperr (λ e, match e with
                   | DBFailed (Some (NaturalKeyAdopted id)) =>
                       match prior with
                       | Some (pid, _) => if id =? pid then e else RollbackRefused
                       | None => RollbackRefused
                       end
                   | e => e
                   end) (sql (InsertCandidateSnapshot sc));
  mret r.1.

(** *** Members *)

Record loop_st := {
  lp_rows : list SnapshotMember;
  lp_fetched : list ReleaseMember;
  lp_aliases : list SnapshotMember;
  lp_skipped : list SkippedMember;
  lp_declared : gset string;       (** the required groups declared *)
  lp_got : gset string;            (** those a variant of which was fetched *)
  lp_tracker : list string;
}.

Definition member_row (id : Z) (path blob : string) : SnapshotMember :=
  {| sm_id := id; sm_path := path; sm_blob := blob; sm_declared := blob |}.

Definition aliasRows (id : Z) (m : ReleaseMember) (blob : string) : list SnapshotMember :=
  map (λ p, member_row id p blob) (byHashAliases m).

Definition verifiedMember (m : ReleaseMember) (blob : string) : ReleaseMember :=
  {| Path := Path m; SHA256 := blob; SHA512 := SHA512 m; Size := Size m |}.

Definition required_group (a : Adopter) (k : SuiteKey) (m : ReleaseMember) : option string :=
  '(g, arch) ← indexTargetGroup (key_path k) (Path m);
  if bool_decide (arch ∈ requiredArchitectures a) then Some g else None.

Definition filtered_out (a : Adopter) (k : SuiteKey) (m : ReleaseMember) : bool :=
  match architectureAllowlist a with
  | None => false
  | Some allowed =>
      match archFromFilteredPath (key_path k) (Path m) with
      | Some arch => negb (bool_decide (arch ∈ allowed))
      | None => false
      end
  end.

Definition SkipReasonOptionalMemberIntegrity : string := "optional_member_integrity".

Definition note_declared (g : option string) (st : loop_st) : loop_st :=
  {| lp_rows := lp_rows st; lp_fetched := lp_fetched st; lp_aliases := lp_aliases st;
     lp_skipped := lp_skipped st;
     lp_declared := match g with Some g => {[g]} ∪ lp_declared st | None => lp_declared st end;
     lp_got := lp_got st; lp_tracker := lp_tracker st |}.

Definition note_fetched (id : Z) (g : option string) (m : ReleaseMember) (blob : string) (st : loop_st)
  : loop_st :=
  {| lp_rows := lp_rows st ++ [member_row id (Path m) blob];
     lp_fetched := lp_fetched st ++ [verifiedMember m blob];
     lp_aliases := lp_aliases st ++ aliasRows id m blob;
     lp_skipped := lp_skipped st; lp_declared := lp_declared st;
     lp_got := match g with Some g => {[g]} ∪ lp_got st | None => lp_got st end;
     lp_tracker := lp_tracker st ++ [blob] |}.

Definition note_skipped (m : ReleaseMember) (why : string) (st : loop_st) : loop_st :=
  {| lp_rows := lp_rows st; lp_fetched := lp_fetched st; lp_aliases := lp_aliases st;
     lp_skipped := if (SHA256 m =? "")%string then lp_skipped st
                   else lp_skipped st ++ [{| skm_path := Path m; skm_declared := SHA256 m;
                                            skm_size := Size m;
                                            skm_reason := SkipReasonOptionalMemberIntegrity;
                                            skm_detail := why |}];
     lp_declared := lp_declared st; lp_got := lp_got st; lp_tracker := lp_tracker st |}.

Definition adopt_one (a : Adopter) (k : SuiteKey) (id : Z) (acquireByHash : bool) (m : ReleaseMember)
    (st : loop_st) : io adoption_error loop_st :=
  _ ← check_stop (MemberFetchFailed "");
  if filtered_out a k m then mret st
  else
    let g := required_group a k m in
    let st := note_declared g st in
    r ← attempt (adoptMemberWithRetry (memberRetryCount a) k m acquireByHash);
    match r with
    | Ok h =>
        let st := note_fetched id g m h st in
        _ ← heartbeat id (lp_tracker st);
        mret st
    | Err MemberSkipped => mret st
    | Err e =>
        n ← event;
        if tolerateOptionalMembers a && negb (cancelled n) && negb (isIndexTarget (key_path k) (Path m))
           && retryable e
        then mret (note_skipped m (detail e) st)
        else iofail e
    end.

(** What defers the adoption: a required index without a variant, no member at
    all, a requestable index missing. *)
Definition guards (a : Adopter) (k : SuiteKey) (members : list ReleaseMember) (st : loop_st)
  : io adoption_error unit :=
  match sort_by String.leb (elements (lp_declared st ∖ lp_got st)) with
  | g :: _ => iofail (GuardFailed g)
  | [] =>
      _ ← ioassert (negb ((length (lp_fetched st) =? 0)%nat && negb (length members =? 0)%nat))
            (GuardFailed "");
      match missingRequestableIndexGroups (key_path k) members (lp_fetched st) (architectureAllowlist a) with
      | g :: _ => iofail (GuardFailed g)
      | [] => mret tt
      end
  end.

Definition anchor_rows (id : Z) (p : payload) (anchors : string * string) : list SnapshotMember :=
  member_row id (anchor_name p) anchors.1 ::
  match p with PayloadDetached _ _ _ => [member_row id "Release.gpg" anchors.2] | _ => [] end.

(** The first alias of a path stays. *)
Definition first_aliases (l : list SnapshotMember) : list SnapshotMember :=
  foldl (λ acc r, if existsb (λ q, (sm_path q =? sm_path r)%string) acc then acc else acc ++ [r]) [] l.

(** *** Package hashes and hot packages *)

Definition rejected {A E} (r : result E A) : io adoption_error A :=
  match r with Ok x => mret x | Err _ => iofail IndexRejected end.

Definition packageHashes (k : SuiteKey) (id : Z) (form : string) (members fetched : list ReleaseMember)
  : io adoption_error (list PackageHash * bool) :=
  p ← get_pool;
  let pool h := p !! h in
  r ← rejected (buildPackageHashes pool gunzip unxz k id form members fetched);
  if (form =? FormUnsigned)%string then mret r
  else
    pd ← rejected (buildPdiffHashes pool gunzip unxz k id fetched);
    mret (r.1 ++ (buildSourceHashes pool gunzip unxz k id fetched).1 ++ pd.1, r.2).

Definition computeHotSet (a : Adopter) (k : SuiteKey) (id : Z) (hashes : list PackageHash)
  : io adoption_error (list HotSetEntry) :=
  if hotPackagesWindow a =? 0 then mret []
  else
    n ← event;
    d ← get_db;
    match (if disk_fault n then None else suite_current d k) with
    | None => mret []
    | Some prior =>
        n ← event;
        if disk_fault n then mret []
        else match ComputeHotSet d (key_scheme k) (key_host k) prior id hashes (hotPackagesWindow a)
                     (clock n) (maxVersionsPerPackage a) with
             | Ok l => mret l
             | Err _ => mret []
             end
    end.

Definition prefetch_of (k : SuiteKey) (e : HotSetEntry) (h : string) : PrefetchedURLPath :=
  {| pf_key := (key_scheme k, key_host k, hs_path e); pf_blob := h;
     pf_upstream := BuildUpstreamURL (key_scheme k) (key_host k) (hs_path e) |}.

(** One hot package.  [Shutdown] stands for the outcome hotFetchCancelled,
    any other error for an outcome that only leaves the package out. *)
Definition fetchHotDeb (k : SuiteKey) (e : HotSetEntry) : io adoption_error string :=
  let failed := MemberFetchFailed (hs_path e) in
  _ ← check_stop Shutdown;
  _ ← faulty failed;
  r ← fetch (BuildUpstreamURL (key_scheme k) (key_host k) (hs_path e));
  match r with
  | Served body contentLength lastmod =>
      h ← maperr (λ _, failed) (FinalizeExpectingHash body (hs_declared e) contentLength);
      _ ← maperr (λ _, failed) (sql (PutBlob h (len body)));
      _ ← maperr (λ _, failed) (sql (PutRepresentation (key_scheme k, key_host k, hs_path e) h lastmod));
      mret h
  | _ => _ ← check_stop Shutdown; iofail failed
  end.

Fixpoint hot_loop (k : SuiteKey) (id : Z) (l : list HotSetEntry) (tracker : list string)
    (out : list PrefetchedURLPath) : io adoption_error (list PrefetchedURLPath * list string) :=
  match l with
  | [] => mret (out, tracker)
  | e :: l =>
      n ← event;
      if cancelled n then mret (out, tracker)
      else
        r ← attempt (fetchHotDeb k e);
        let tracker := match r with Ok h => tracker ++ [h] | Err _ => tracker end in
        _ ← heartbeat id tracker;
        match r with
        | Ok h => hot_loop k id l tracker (out ++ [prefetch_of k e h])
        | Err Shutdown => mret (out, tracker)
        | Err _ => hot_loop k id l tracker out
        end
  end.

(** What was prefetched, and the tracker it leaves. *)
Definition runHotPrefetch (a : Adopter) (k : SuiteKey) (id : Z) (hashes : list PackageHash)
    (tracker : list string) : io adoption_error (list PrefetchedURLPath * list string) :=
  hot ← computeHotSet a k id hashes;
  hot_loop k id hot tracker [].

(** *** The signed anchors an unsigned commit looks for once more *)

(** The sniff of a pooled anchor, by the head of the file. *)
Definition sniffCachedAnchor (path content : string) : bool :=
  let sniff f := Sniff f path (take_bytes (Z.to_nat (HeadBytes f)) content) in
  if has_suffix "/InRelease" path then sniff FileInRelease
  else if has_suffix "/Release.gpg" path then sniff FileReleaseGPG
  else false.

Definition remarkSchemes : list string := ["http"; "https"].

Definition remark_keys (host base : string) : list URLKey :=
  concat (map (λ scheme, concat (map (λ dir,
    map (λ name, (scheme, host, dir +:+ "/" +:+ name)) ["InRelease"; "Release.gpg"])
    [base; base +:+ "/."])) remarkSchemes).

Definition remark_one (base : string) (key : URLKey) (marks : list (SuiteKey * Z))
  : io adoption_error (list (SuiteKey * Z)) :=
  _ ← faulty (DBFailed None);
  d ← get_db;
  match url_t d !! key with
  | None => mret marks
  | Some row =>
      match up_blob row with
      | None => mret marks
      | Some h =>
          p ← get_pool;
          match p !! h with
          | None => mret marks
          | Some content =>
              _ ← faulty (DBFailed None);
              if negb (sniffCachedAnchor key.2 content) then mret marks
              else
                n ← event;
                mret (marks ++ [((key_scheme key, key_host key, base),
                                 if LastUse row <=? 0 then clock n else LastUse row)])
          end
      end
  end.

(** At most eight marks: one transaction. *)
Definition remarkSignedAnchors (k : SuiteKey) : io adoption_error unit :=
  let base := MarkerBase (key_path k) in
  marks ← iofor (remark_one base) (remark_keys (key_host k) base) [];
  if (length marks =? 0)%nat then mret tt else sql (λ _, mark_chunk marks).

(** An anchor that cannot be looked at refuses the commit. *)
Definition remark (k : SuiteKey) : io adoption_error unit :=
  orelse (remarkSignedAnchors k) (λ _, _ ← check_stop Shutdown; iofail UnsignedDowngradeRefused).

(** *** The flip *)

Definition servedAnchorUnchanged (k : SuiteKey) (p : payload) (anchors : string * string)
  : io adoption_error bool :=
  n ← event;
  d ← get_db;
  mret (negb (disk_fault n) &&
        match url_t d !! member_key k (anchor_name p) with
        | Some row => bool_decide (up_blob row = Some anchors.1)
        | None => false
        end).

Definition commit_error (e : adoption_error) : adoption_error :=
  match e with DBFailed (Some ErrUnsignedDowngradeRefused) => UnsignedDowngradeRefused | e => e end.

(** The barrier, then the transaction: a suite without a snapshot whose served
    anchor is already the new one needs no barrier. *)
Definition flip (a : Adopter) (k : SuiteKey) (p : payload) (anchors : string * string) (first : bool)
    (commit : io adoption_error unit) : io adoption_error unit :=
  let commit := maperr commit_error commit in
  if negb (flipGateEnabled a) then commit
  else
    unchanged ← (if first then servedAnchorUnchanged k p anchors else mret false);
    n ← event;
    _ ← ioassert (negb (if unchanged : bool then gate_closed n else gate_aborts n)) Shutdown;
    commit.

Definition commit_adoption (id : Z) (rows : list SnapshotMember) (skipped : list SkippedMember)
    (packages : list PackageHash) (prefetched : list PrefetchedURLPath) (coverage : bool)
  : io adoption_error unit :=
  n ← event;
  sql (CommitAdoption id rows skipped packages prefetched coverage (clock n)).

(** *** The whole run *)

Definition loop_start (anchors : string * string) : loop_st :=
  {| lp_rows := []; lp_fetched := []; lp_aliases := []; lp_skipped := [];
     lp_declared := ∅; lp_got := ∅;
     lp_tracker := List.filter (λ h, negb (h =? "")%string) [anchors.1; anchors.2] |}.

Definition snapshot_rows (id : Z) (p : payload) (anchors : string * string) (st : loop_st)
  : list SnapshotMember :=
  lp_rows st ++ anchor_rows id p anchors ++ first_aliases (lp_aliases st).

(** The text of the Release, verified and persisted, and what it declares. *)
Definition read_release (a : Adopter) (k : SuiteKey) (p : payload)
  : io adoption_error (string * (string * string) * list ReleaseMember) :=
  text ← verify a k p;
  anchors ← persist p;
  members ← match ParseRelease text with Ok l => mret l | Err e => iofail (ReleaseRejected e) end;
  _ ← ioassert (negb (is_unsigned p) || unsignedCap (Z.of_nat (length members))) UnsignedTooLarge;
  mret (text, anchors, members).

(** From the candidate to what its commit carries. *)
Definition fill_candidate (a : Adopter) (k : SuiteKey) (p : payload) (text : string)
    (anchors : string * string) (members : list ReleaseMember) (id : Z)
  : io adoption_error (loop_st * (list PackageHash * bool) * list PrefetchedURLPath) :=
  st ← iofor (adopt_one a k id (parseAcquireByHash text)) members (loop_start anchors);
  _ ← guards a k members st;
  hashes ← packageHashes k id (sc_form (candidate_of k p anchors 0 "" "")) members (lp_fetched st);
  _ ← heartbeat id (lp_tracker st);
  pre ← runHotPrefetch a k id hashes.1 (lp_tracker st);
  _ ← heartbeat id pre.2;
  _ ← check_stop Shutdown;
  _ ← (if is_unsigned p then remark k else mret tt);
  mret (st, hashes, pre.1).

Definition runShared (a : Adopter) (k : SuiteKey) (p : payload) (etag lastmod : string)
  : io adoption_error Z :=
  prior ← priorSnapshot k;
  '(text, anchors, members) ← read_release a k p;
  _ ← record_anchors k p anchors lastmod;
  _ ← check_date prior (releaseDate text);
  id ← insert_candidate prior (candidate_of k p anchors (releaseDate text) etag lastmod);
  '(st, hashes, prefetched) ← fill_candidate a k p text anchors members id;
  _ ← flip a k p anchors (negb (bool_decide (is_Some prior)))
        (commit_adoption id (snapshot_rows id p anchors st) (lp_skipped st) hashes.1 prefetched hashes.2);
  mret id.
End run.
