(* ===== verification/AdoptionSafety.v ===== *)
(** * What an adoption may change

    Properties of the world that every step of [Adoption.runShared] keeps,
    whether it answers or fails ([ambient]), and what a database serves
    ([serves]).  What follows for a run is in [AdoptionSound]. *)
From S2P Require Import Prelude GoStrings AptPath GoText ReleaseParse Tables Invariant Snapshots Suites GC Rows PackageIndex MemberFetch ReleaseDate Adoption.
Local Open Scope Z_scope.

(** ** Properties that every step keeps *)

Section ambient.
Context `{Env} `{HTTPTime} `{Verifier} `{Decompress} `{Barrier} `{Details}.
Context (P : DB → Prop) (Q : gmap string string → Prop).

(** The statements a run makes outside the candidate and the flip, and what
    it does to the pool. *)
Record ambient : Prop := {
  am_blob h size now : triple P (PutBlob h size now) (λ _, P);
  am_rep k h l now : triple P (PutRepresentation k h l now) (λ _, P);
  am_beat id now : triple P (HeartbeatSnapshot id now) (λ _, P);
  am_beats l now : triple P (HeartbeatBlobs l now) (λ _, P);
  am_marks marks : triple P (mark_chunk marks) (λ _, P);
  am_forget p h c : Q p → p !! h = Some c → sha256 c ≠ h → Q (delete h p);
  am_add p body : Q p → p !! sha256 body = None → Q (<[sha256 body := body]> p) }.

Hypothesis Hamb : ambient.

Definition I (w : World) : Prop := P (w_db w) ∧ Q (w_pool w).

Lemma amb_event {E} : stays I (event : io E nat).
Proof. by intros w. Qed.
Lemma amb_faulty {E} (e : E) : stays I (faulty e).
Proof. apply stays_bind; [apply amb_event|intros]. apply stays_assert. Qed.
Lemma amb_fetch url : stays I (fetch url).
Proof. apply stays_bind; [apply amb_event|intros]. apply stays_ret. Qed.

Lemma amb_sql {A} (m : Z → T A) : (∀ now, triple P (m now) (λ _, P)) → stays I (sql m).
Proof.
  intros Hm. apply stays_bind; [apply amb_event|intros n]. destruct (disk_fault n); [apply stays_fail|].
  intros w [HP HQ]. destruct (atomically (m (clock n)) (w_db w)) as [[a|e] d] eqn:Hat; split; try done; cbn.
  - apply atomically_ok in Hat. by eapply Hm.
  - by apply atomically_err in Hat as ->.
Qed.

Lemma amb_putblob h size : stays I (sql (PutBlob h size)).
Proof. apply amb_sql, Hamb. Qed.
Lemma amb_putrep k h l : stays I (sql (PutRepresentation k h l)).
Proof. apply amb_sql. intros. apply Hamb. Qed.
Lemma amb_refuse host path : stays I (sql (λ _, refuseUnsignedDowngrade host path)).
Proof.
  apply amb_sql. intros _ d u d' HP Hrun. unfold refuseUnsignedDowngrade in Hrun. minv.
  destruct (has_marker _ _ _); [done|]. destruct (has_signed_snapshot _ _ _); [done|]. by minv.
Qed.
Lemma amb_mark marks : stays I (sql (λ _, mark_chunk marks)).
Proof. apply amb_sql. intros. apply Hamb. Qed.

Lemma amb_ignore {A} (m : io adoption_error A) : stays I m → stays I (ignore m).
Proof. intros Hm w Hw. exact (Hm w Hw). Qed.
Lemma amb_attempt {A} (m : io adoption_error A) : stays I m → stays I (attempt m).
Proof. intros Hm w Hw. exact (Hm w Hw). Qed.

Lemma amb_iofor {E A S} (f : A → S → io E S) l s :
  (∀ x s, stays I (f x s)) → stays I (iofor f l s).
Proof.
  intros Hf. revert s. induction l as [|x l IH]; intros s; [apply stays_ret|].
  by apply stays_bind.
Qed.

Lemma amb_into_pool body : stays I (into_pool body).
Proof.
  intros w [HP HQ]. unfold into_pool, get_pool, set_pool, mbind, io_bind, mret, io_ret. cbn.
  split; [done|]. cbn. destruct (w_pool w !! sha256 body) eqn:Hb; [done|by apply Hamb].
Qed.

(** Looking at a pooled file, which goes when it is not what its name says. *)
Lemma amb_inspect {E A} h (e1 e2 : E) (sound : io E A) (evicted : io E A) (p : gmap string string) c w :
  I w → w_pool w = p → p !! h = Some c → stays I sound → stays I evicted →
  I ((_ ← faulty e1;
      if (sha256 c =? h)%string then sound
      else _ ← faulty e2; _ ← set_pool (delete h p); evicted) w).2.
Proof.
  intros Hw Hp Hc Hs He. unfold mbind at 1, io_bind.
  pose proof (amb_faulty e1 w Hw) as HI1. destruct (faulty e1 w) as [[u|x] w1] eqn:Hf1; [|done].
  apply faulty_pool in Hf1 as [Hp1 _].
  destruct (sha256 c =? h)%string eqn:Hh; [by apply Hs|]. apply String.eqb_neq in Hh.
  unfold mbind at 1, io_bind. pose proof (amb_faulty e2 w1 HI1) as HI2.
  destruct (faulty e2 w1) as [[u2|x] w2] eqn:Hf2; [|done]. apply faulty_pool in Hf2 as [Hp2 _].
  unfold mbind, io_bind. cbn. apply He. destruct HI2 as [HP HQ]. split; [done|]. cbn.
  cbn in HQ. replace (w_pool w2) with p in HQ by congruence. exact (am_forget Hamb p h c HQ Hc Hh).
Qed.

#[local] Hint Resolve amb_event amb_faulty amb_fetch amb_putblob amb_putrep amb_refuse amb_mark
  amb_into_pool : stays.

(** *** One member *)

Lemma amb_rehash derived : stays I (rehashPooledBlob derived).
Proof.
  intros w Hw. unfold rehashPooledBlob, get_pool. unfold mbind at 1, io_bind. cbn.
  destruct (w_pool w !! derived) as [c|] eqn:Hc; [|done].
  pose proof (amb_inspect derived VDB VDB (mret tt) (mret tt) (w_pool w) c w Hw eq_refl Hc
    (stays_ret I tt) (stays_ret I tt)) as Hi.
  revert Hi. unfold mbind, io_bind. destruct (faulty VDB w) as [[u|x] w1]; [|done].
  destruct (sha256 c =? derived)%string; [done|]. by destruct (faulty VDB w1) as [[u2|x] w2].
Qed.
#[local] Hint Resolve amb_rehash : stays.

Lemma amb_Finalize body size : stays I (Finalize body size).
Proof. unfold Finalize. iokeep. Qed.
Lemma amb_FinalizeExpectingHash body expected size : stays I (FinalizeExpectingHash body expected size).
Proof. unfold FinalizeExpectingHash. iokeep. Qed.
#[local] Hint Resolve amb_Finalize amb_FinalizeExpectingHash : stays.

Lemma amb_verifyMember body m size : stays I (verifyMember body m size).
Proof. unfold verifyMember. iokeep. Qed.
#[local] Hint Resolve amb_verifyMember : stays.

Lemma amb_tryByHash k m rel : stays I (tryByHashFetch k m rel).
Proof. unfold tryByHashFetch. iokeep. Qed.
Lemma amb_fetchMemberURL k m rel : stays I (fetchMemberURL k m rel).
Proof. unfold fetchMemberURL. iokeep. Qed.

Lemma amb_reusePooled m : stays I (reusePooled m).
Proof.
  unfold reusePooled. destruct (SHA256 m =? "")%string; [apply stays_ret|].
  apply stays_bind; [apply amb_faulty|intros _]. intros w Hw. unfold get_pool.
  unfold mbind at 1, io_bind. cbn. destruct (w_pool w !! SHA256 m) as [c|] eqn:Hc; [|done].
  eapply amb_inspect; [done|done|done|iokeep|apply stays_ret].
Qed.
#[local] Hint Resolve amb_tryByHash amb_fetchMemberURL amb_reusePooled : stays.

Lemma amb_adoptMember k m abh : stays I (adoptMember k m abh).
Proof. unfold adoptMember. iokeep. Qed.
#[local] Hint Resolve amb_adoptMember : stays.

Lemma amb_attempts r k m abh e : stays I (member_attempts r k m abh e).
Proof. revert e. induction r as [|r IH]; intros e; cbn [member_attempts]; iokeep. Qed.
#[local] Hint Resolve amb_attempts : stays.

Lemma amb_withRetry r k m abh : stays I (adoptMemberWithRetry r k m abh).
Proof. unfold adoptMemberWithRetry. iokeep. Qed.
#[local] Hint Resolve amb_withRetry amb_ignore amb_attempt : stays.

(** *** The run's own steps *)

Lemma amb_writeBlobBytes content : stays I (writeBlobBytes content).
Proof.
  unfold writeBlobBytes. apply stays_bind; [apply amb_faulty|intros _].
  match goal with |- context [match _ !! _ with None => ?write | _ => _ end] =>
    assert (stays I write) as Hwrite by iokeep end.
  intros w Hw. unfold get_pool. unfold mbind at 1, io_bind. cbn.
  destruct (w_pool w !! sha256 content) as [c|] eqn:Hc; [|by apply Hwrite].
  eapply amb_inspect; [done|done|done|iokeep|exact Hwrite].
Qed.
#[local] Hint Resolve amb_writeBlobBytes : stays.

Lemma amb_heartbeat id tracker : stays I (heartbeat id tracker).
Proof.
  unfold heartbeat. iokeep; apply amb_ignore, amb_sql; intros; apply Hamb.
Qed.
Lemma amb_check_stop e : stays I (check_stop e).
Proof. unfold check_stop. iokeep. Qed.
#[local] Hint Resolve amb_heartbeat amb_check_stop : stays.

Lemma amb_adopt_one a k id abh m st : stays I (adopt_one a k id abh m st).
Proof. unfold adopt_one. iokeep. Qed.
Lemma amb_guards a k members st : stays I (guards a k members st).
Proof. unfold guards. iokeep. Qed.
Lemma amb_packageHashes k id form members fetched : stays I (packageHashes k id form members fetched).
Proof. unfold packageHashes, rejected. iokeep. Qed.
Lemma amb_computeHotSet a k id hashes : stays I (computeHotSet a k id hashes).
Proof. unfold computeHotSet. iokeep. Qed.
Lemma amb_fetchHotDeb k e : stays I (fetchHotDeb k e).
Proof. unfold fetchHotDeb. iokeep. Qed.
#[local] Hint Resolve amb_adopt_one amb_guards amb_packageHashes amb_computeHotSet amb_fetchHotDeb : stays.

Lemma amb_hot_loop k id l tracker out : stays I (hot_loop k id l tracker out).
Proof. revert tracker out. induction l as [|e l IH]; intros; cbn [hot_loop]; iokeep. Qed.
#[local] Hint Resolve amb_hot_loop : stays.

Lemma amb_remark_one base key marks : stays I (remark_one base key marks).
Proof. unfold remark_one. iokeep. Qed.
#[local] Hint Resolve amb_remark_one amb_iofor : stays.

Lemma amb_remarkSigned k : stays I (remarkSignedAnchors k).
Proof. unfold remarkSignedAnchors. iokeep. Qed.
#[local] Hint Resolve amb_remarkSigned : stays.

Lemma amb_remark k : stays I (remark k).
Proof. unfold remark. iokeep. Qed.
Lemma amb_priorSnapshot k : stays I (priorSnapshot k).
Proof. unfold priorSnapshot. iokeep. Qed.
Lemma amb_verify a k p : stays I (verify a k p).
Proof. unfold verify, unsignedEligible. iokeep. Qed.
Lemma amb_persist p : stays I (persist p).
Proof. unfold persist. iokeep. Qed.
#[local] Hint Resolve amb_remark amb_verify amb_persist : stays.

Lemma amb_read_release a k p : stays I (read_release a k p).
Proof. unfold read_release. iokeep. Qed.
Lemma amb_record_anchors k p anchors lastmod : stays I (record_anchors k p anchors lastmod).
Proof. unfold record_anchors. iokeep. Qed.
Lemma amb_check_date prior relDate : stays I (check_date prior relDate).
Proof. unfold check_date. iokeep. Qed.
Lemma amb_servedAnchorUnchanged k p anchors : stays I (servedAnchorUnchanged k p anchors).
Proof. unfold servedAnchorUnchanged. iokeep. Qed.

Lemma amb_fill_candidate a k p text anchors members id :
  stays I (fill_candidate a k p text anchors members id).
Proof. unfold fill_candidate, runHotPrefetch. iokeep. Qed.
End ambient.

(** ** What a suite serves *)

(** A snapshot but for its heartbeat. *)
Definition unbeaten (s : SuiteSnapshot) :=
  (snap_view s, ss_etag s, ss_lastmod s, ss_created s, ss_coverage s, ss_date s).

(** [d] serves everything [d0] does. *)
Record serves (d0 d : DB) : Prop := {
  sv_suites : suite_t d = suite_t d0;
  sv_urls : url_t d = url_t d0;
  sv_members : member_t d = member_t d0;
  sv_skips : skip_t d = skip_t d0;
  sv_pkgs : pkg_t d = pkg_t d0;
  sv_snaps : ∀ id s, snap_t d0 !! id = Some s → is_Some (ss_adopted s) →
    ∃ s', snap_t d !! id = Some s' ∧ unbeaten s' = unbeaten s;
  sv_blobs : ∀ h b, blob_t d0 !! h = Some b →
    ∃ b', blob_t d !! h = Some b' ∧ b_size b' = b_size b ∧ b_refcount b' = b_refcount b;
  sv_marks : ∀ k t, seen_t d0 !! k = Some t → ∃ t', seen_t d !! k = Some t' ∧ t <= t' }.

Lemma serves_refl d : serves d d.
Proof. split; eauto using Z.le_refl. Qed.

Lemma serves_blob d0 d f :
  (∀ h b, blob_t d !! h = Some b → ∃ b', f (blob_t d) !! h = Some b' ∧
     b_size b' = b_size b ∧ b_refcount b' = b_refcount b) →
  serves d0 d → serves d0 (upd_blob f d).
Proof.
  intros Hf [? ? ? ? ? ? Hb ?]. split; try done. cbn. intros h b Hh.
  destruct (Hb h b Hh) as (b1 & Hb1 & ? & ?). destruct (Hf h b1 Hb1) as (b2 & ? & ? & ?).
  exists b2. split_and!; [done|congruence..].
Qed.

Lemma serves_snap d0 d f :
  (∀ id s, snap_t d !! id = Some s → is_Some (ss_adopted s) →
     ∃ s', f (snap_t d) !! id = Some s' ∧ unbeaten s' = unbeaten s) →
  serves d0 d → serves d0 (upd_snap f d).
Proof.
  intros Hf [? ? ? ? ? Hs ? ?]. split; try done. cbn. intros id s Hid Had.
  destruct (Hs id s Hid Had) as (s1 & Hs1 & Hv).
  assert (ss_adopted s1 = ss_adopted s) as E by (unfold unbeaten, snap_view in Hv; congruence).
  destruct (Hf id s1 Hs1) as (s2 & ? & ?); [by rewrite E|]. exists s2. split; [done|congruence].
Qed.

Lemma serves_PutBlob d0 h size now : triple (serves d0) (PutBlob h size now) (λ _, serves d0).
Proof.
  intros d u d' Hd Hrun. unfold PutBlob in Hrun. minv. apply serves_blob; [|done].
  intros h' b Hb. destruct (decide (h' = h)) as [->|Hne].
  - rewrite lookup_insert_eq, Hb. eexists. split; [done|]. by destruct (b_refcount b <=? 0).
  - rewrite lookup_insert_ne by done. eauto.
Qed.

Lemma serves_beats d0 l now : triple (serves d0) (HeartbeatBlobs l now) (λ _, serves d0).
Proof.
  intros d u d' Hd Hrun. unfold HeartbeatBlobs in Hrun.
  destruct (length l =? 0)%nat; [by minv|]. destruct (length _ =? 0)%nat; minv; [done|].
  apply serves_blob; [|done]. intros h b Hb.
  match goal with |- context [update_where ?p ?g _] => exists (if p h b then g b else b) end.
  split; [apply lookup_update_where_Some; eauto|]. by destruct (_ && _).
Qed.

Lemma serves_beat d0 id now : triple (serves d0) (HeartbeatSnapshot id now) (λ _, serves d0).
Proof.
  intros d u d' Hd Hrun. unfold HeartbeatSnapshot in Hrun. minv. apply serves_snap; [|done].
  intros i s Hs _.
  match goal with |- context [update_where ?p ?g _] => exists (if p i s then g s else s) end.
  split; [apply lookup_update_where_Some; eauto|]. by destruct (i =? id).
Qed.

Lemma serves_rep `{HTTPTime} d0 k h l now :
  triple (serves d0) (PutRepresentation k h l now) (λ _, serves d0).
Proof.
  intros d u d' [] Hrun. unfold PutRepresentation, putRepresentation in Hrun. minv. by split.
Qed.

Lemma serves_marks d0 marks : triple (serves d0) (mark_chunk marks) (λ _, serves d0).
Proof.
  apply triple_for_inv. intros m d u d' [? ? ? ? ? ? ? Hm] Hrun. unfold markSignedSeen in Hrun. minv.
  split; try done. cbn. intros k t Hk. destruct (Hm k t Hk) as (t1 & Ht1 & ?).
  destruct (decide (k = m.1)) as [->|Hne].
  - rewrite lookup_insert_eq, Ht1. eexists. split; [done|lia].
  - rewrite lookup_insert_ne by done. eauto.
Qed.

(** The candidate row is none of the adopted ones. *)
Lemma serves_candidate d0 sc now :
  triple (λ d, wf d ∧ serves d0 d) (InsertCandidateSnapshot sc now) (λ _ d, wf d ∧ serves d0 d).
Proof.
  intros d r d' [Hwf Hd] Hrun. split; [by eapply wf_InsertCandidateSnapshot|].
  unfold InsertCandidateSnapshot in Hrun. destruct (candidateForm sc) as [form|e]; [|done]. minv.
  destruct (natural_lookup d _ _ form) as [[id1 s1]|] eqn:Hl.
  - destruct (ss_adopted s1) eqn:Ha; [done|]. minv. apply serves_snap; [|done].
    apply natural_lookup_spec in Hl as [Hs1 _]. intros i s Hs Had.
    destruct (decide (i = id1)) as [->|Hne].
    + rewrite Hs1 in Hs. injection Hs as <-. rewrite Ha in Had. by destruct Had.
    + rewrite lookup_insert_ne by done. eauto.
  - minv. apply (serves_snap d0 (upd_seq (λ _, snap_seq d + 1) d)).
    + cbn. intros i s Hs _. apply wf_snaps in Hwf as [_ Hsn]. specialize (Hsn i s Hs).
      rewrite lookup_insert_ne by lia. eauto.
    + destruct Hd. by split.
Qed.

Lemma triple_and {S E A} (P1 P2 : S → Prop) (m : M S E A) :
  triple P1 m (λ _, P1) → triple P2 m (λ _, P2) → triple (λ s, P1 s ∧ P2 s) m (λ _ s, P1 s ∧ P2 s).
Proof. intros T1 T2 s a s' [Hs1 Hs2] Hrun. eauto. Qed.

(** ** A run that fails *)

Section failure.
Context `{Env} `{HTTPTime} `{Verifier} `{Decompress} `{Barrier} `{Details}.

(** The sound files of the pool [p0] are in [p]. *)
Definition sound_files (p0 p : gmap string string) : Prop :=
  ∀ h c, p0 !! h = Some c → sha256 c = h → p !! h = Some c.

Lemma sound_forget p0 p h c : sound_files p0 p → p !! h = Some c → sha256 c ≠ h → sound_files p0 (delete h p).
Proof.
  intros Hp Hc Hne h' c' Hh Hs. specialize (Hp h' c' Hh Hs). rewrite lookup_delete_ne; [done|]. congruence.
Qed.

Lemma sound_add p0 p body :
  sound_files p0 p → p !! sha256 body = None → sound_files p0 (<[sha256 body := body]> p).
Proof.
  intros Hp Hn h c Hh Hs. specialize (Hp h c Hh Hs). rewrite lookup_insert_ne; [done|]. congruence.
Qed.

Definition serving (d0 d : DB) : Prop := wf d ∧ serves d0 d.

Lemma serving_ambient d0 p0 : ambient (serving d0) (sound_files p0).
Proof.
  split; intros; try (apply triple_and).
  - apply wf_PutBlob.
  - apply serves_PutBlob.
  - apply wf_PutRepresentation.
  - apply serves_rep.
  - apply wf_HeartbeatSnapshot.
  - apply serves_beat.
  - apply wf_HeartbeatBlobs.
  - apply serves_beats.
  - apply wf_mark_chunk.
  - apply serves_marks.
  - by eapply sound_forget.
  - by apply sound_add.
Qed.

Lemma serving_candidate d0 Q prior sc : stays (I (serving d0) Q) (insert_candidate prior sc).
Proof.
  unfold insert_candidate. apply stays_bind; [|intros; apply stays_ret]. apply stays_maperr, amb_sql.
  intros now. apply serves_candidate.
Qed.

End failure.
