(* ===== verification/AdoptionSound.v ===== *)
(** * What an adoption leaves

    How a run of [Adoption.runShared] ends.  Until its flip it changes nothing
    that is served; a flip that commits leaves the suite with exactly the
    content its Release vouches for ([adopted]), and that is so too when the
    answer of the commit does not reach the run, which then fails. *)
From S2P Require Import Prelude GoStrings AptPath GoText ReleaseParse Tables Invariant Snapshots Suites GC Rows PackageIndex MemberFetch ReleaseDate Adoption AdoptionSafety.
Local Open Scope Z_scope.

Section sound.
Context `{Env} `{HTTPTime} `{Verifier} `{Decompress} `{Barrier} `{Details}.

(** ** What an adopted suite is *)

(** The pool has a file named [h], and it is what its name says. *)
Definition pooled (h : string) (p : gmap string string) : Prop := ∃ c, p !! h = Some c ∧ sha256 c = h.

(** The blob [h] is what the member declares. *)
Definition matches (m : ReleaseMember) (h : string) : Prop :=
  (SHA256 m ≠ "" ∨ SHA512 m ≠ "") ∧ (SHA256 m ≠ "" → h = SHA256 m) ∧
  (SHA512 m ≠ "" → ∃ body, sha256 body = h ∧ sha512 body = SHA512 m).

(** What vouches for the text: a signature, or for an unsigned one the switch
    and the absence of signed history. *)
Definition authentic (a : Adopter) (k : SuiteKey) (p : payload) (text : string) (d : DB) : Prop :=
  match p with
  | PayloadInline b => VerifyInline k b = Some text
  | PayloadDetached r s _ => VerifyDetached k r s = Some text
  | PayloadUnsigned r =>
      text = r ∧ adoptUnsigned a = true ∧
      has_marker d (key_host k) (MarkerBase (key_path k)) = false ∧
      has_signed_snapshot d (key_host k) (MarkerBase (key_path k)) = false
  end.

(** The anchor's bytes, and those of a detached signature. *)
Definition anchor_bytes (p : payload) : string :=
  match p with PayloadInline b => b | PayloadDetached r _ _ => r | PayloadUnsigned r => r end.
Definition signature_bytes (p : payload) : option string :=
  match p with PayloadDetached _ s _ => Some s | _ => None end.

(** The anchors' names and contents. *)
Definition anchor_files (p : payload) : list (string * string) :=
  (anchor_name p, anchor_bytes p) ::
  match signature_bytes p with Some s => [("Release.gpg", s)] | None => [] end.

(** The columns of the snapshot's row that come from the payload and its text. *)
Record described (k : SuiteKey) (p : payload) (text : string) (s : SuiteSnapshot) : Prop := {
  ds_suite : ss_suite s = k;
  ds_form : ss_form s = match p with PayloadInline _ => FormInline | PayloadDetached _ _ _ => FormDetached
                                   | PayloadUnsigned _ => FormUnsigned end;
  ds_date : ss_date s = Some (releaseDate text);
  ds_inrelease : ss_inrelease s = match p with PayloadDetached _ _ _ => None
                                             | _ => Some (sha256 (anchor_bytes p)) end;
  ds_release : ss_release s = match p with PayloadDetached r _ _ => Some (sha256 r) | _ => None end;
  ds_signature : ss_release_gpg s = sha256 <$> signature_bytes p }.

(** The paths a member's bytes are served under. *)
Definition names (m : ReleaseMember) (path : string) : Prop := path = Path m ∨ path ∈ byHashAliases m.

(** The upstream answered that it does not have the member. *)
Definition not_served (k : SuiteKey) (m : ReleaseMember) : Prop :=
  ∃ n code, serve n (buildMemberURL k (Path m)) = StatusError code ∧ (code = 404 ∨ code = 410).

Definition optional (a : Adopter) (k : SuiteKey) (m : ReleaseMember) : Prop :=
  tolerateOptionalMembers a = true ∧ isIndexTarget (key_path k) (Path m) = false.

(** The member is served through the suite's current snapshot [id], with its
    declared content, and its by-hash names are. *)
Definition adopted_member (k : SuiteKey) (id : Z) (m : ReleaseMember) (w : World) : Prop :=
  (∃ h, LookupSnapshotMember (w_db w) k (Path m) = Some (id, h) ∧ matches m h ∧ pooled h (w_pool w)) ∧
  ∀ path, path ∈ byHashAliases m → is_Some (LookupSnapshotMember (w_db w) k path).

(** [w'] is what an adoption of the payload [p], of signed text [text] that
    declares [members], makes of [w]: the suite's current snapshot is [id]. *)
Record adopted (a : Adopter) (k : SuiteKey) (p : payload) (w : World) (text : string)
    (members : list ReleaseMember) (id : Z) (w' : World) : Prop := {
  ad_authentic : authentic a k p text (w_db w);
  ad_parsed : ParseRelease text = Ok members;
  ad_small : is_unsigned p = true → Z.of_nat (length members) <= unsignedMemberCap;
  ad_not_ahead : ∃ n, releaseDate text <= clock n + maxReleaseDateSkew;
  ad_not_behind : ∀ pid s date, suite_current (w_db w) k = Some pid → snap_t (w_db w) !! pid = Some s →
    ss_date s = Some date → date <= releaseDate text;
  (* the database and the pool *)
  ad_wf : wf (w_db w');
  ad_others : ∀ k', k' ≠ k → suite_t (w_db w') !! k' = suite_t (w_db w) !! k' ∧
    ∀ path, LookupSnapshotMember (w_db w') k' path = LookupSnapshotMember (w_db w) k' path;
  ad_files : sound_files (w_pool w) (w_pool w');
  (* the snapshot *)
  ad_current : suite_current (w_db w') k = Some id;
  ad_snapshot : ∃ s, snap_t (w_db w') !! id = Some s ∧ described k p text s ∧ is_Some (ss_adopted s);
  ad_anchors : ∀ name bytes, (name, bytes) ∈ anchor_files p →
    LookupSnapshotMember (w_db w') k name = Some (id, sha256 bytes) ∧ pooled (sha256 bytes) (w_pool w');
  (* every row it added: a verified member, under its path or its by-hash
     names, or an anchor *)
  ad_rows : ∀ path r, member_t (w_db w') !! (id, path) = Some r → member_t (w_db w) !! (id, path) = None →
    m_declared r = m_blob r ∧ pooled (m_blob r) (w_pool w') ∧
    ((∃ m, m ∈ members ∧ names m path ∧ matches m (m_blob r)) ∨
     ∃ bytes, (path, bytes) ∈ anchor_files p ∧ m_blob r = sha256 bytes);
  ad_skips : ∀ path r, skip_t (w_db w') !! (id, path) = Some r → skip_t (w_db w) !! (id, path) = None →
    ∃ m, m ∈ members ∧ Path m = path ∧ sk_declared r = SHA256 m ∧ optional a k m;
  (* every declared member *)
  ad_members : ∀ m, m ∈ members →
    filtered_out a k m = true ∨ adopted_member k id m w' ∨ not_served k m ∨
    optional a k m ∧ (SHA256 m ≠ "" → is_Some (skip_t (w_db w') !! (id, Path m)));
  (* the required indexes *)
  ad_required : ∀ m g, m ∈ members → filtered_out a k m = false → required_group a k m = Some g →
    ∃ m', m' ∈ members ∧ required_group a k m' = Some g ∧ adopted_member k id m' w';
  ad_requestable : ∀ m g arch, m ∈ members → indexTargetGroup (key_path k) (Path m) = Some (g, arch) →
    (arch = "all" ∨ ∃ allowed, architectureAllowlist a = Some allowed ∧ arch ∈ allowed) →
    ∃ m' arch', m' ∈ members ∧ indexTargetGroup (key_path k) (Path m') = Some (g, arch') ∧
      adopted_member k id m' w' }.

(** ** A member the upstream does not have *)

(** The program fails with [MemberSkipped] only when [R]. *)
Definition skips {A} (R : Prop) (m : io adoption_error A) : Prop :=
  ∀ w w', m w = (Err MemberSkipped, w') → R.

Lemma skips_bind {A B} R (m : io adoption_error A) (f : A → io adoption_error B) :
  skips R m → (∀ a, skips R (f a)) → skips R (m ≫= f).
Proof.
  intros Hm Hf w w'. unfold mbind, io_bind. destruct (m w) as [[a|e] w1] eqn:Hr; [apply Hf|].
  intros [= -> ->]. by eapply Hm.
Qed.
Lemma skips_ret {A} R (a : A) : skips R (mret a).
Proof. by intros w w' [=]. Qed.
Lemma skips_event R : skips R event.
Proof. by intros w w' [=]. Qed.
Lemma skips_fail {A} R e : e ≠ MemberSkipped → skips R (iofail e : io adoption_error A).
Proof. intros Hne w w' [= ? _]. congruence. Qed.
Lemma skips_assert R b e : e ≠ MemberSkipped → skips R (ioassert b e).
Proof. destruct b; [intros; apply skips_ret|apply skips_fail]. Qed.
Lemma skips_faulty R e : e ≠ MemberSkipped → skips R (faulty e).
Proof. intros Hne. apply skips_bind; [apply skips_event|intros]. by apply skips_assert. Qed.
Lemma skips_maperr {E A} R (f : E → adoption_error) (m : io E A) :
  (∀ e, f e ≠ MemberSkipped) → skips R (maperr f m).
Proof. intros Hf w w'. unfold maperr. destruct (m w) as [[?|e] ?]; [done|]. intros [= ? _]. by destruct (Hf e). Qed.
Lemma skips_sql {A} R (m : Z → T A) : skips R (sql m).
Proof.
  apply skips_bind; [apply skips_event|intros n]. destruct (disk_fault n); [by apply skips_fail|].
  intros w w'. destruct (atomically (m (clock n)) (w_db w)) as [[?|?] ?]; [|done]. by destruct (lost n).
Qed.

Create HintDb skips.
#[local] Hint Resolve skips_ret skips_event skips_fail skips_assert skips_faulty skips_maperr skips_sql : skips.

(** Through a program that does not look at the servers' answers. *)
Ltac noskip :=
  repeat first
    [ solve [eauto 2 with skips]
    | lazymatch goal with
      | |- skips _ (_ ≫= _) => apply skips_bind; [|intros ?]
      | |- skips _ (match ?x with _ => _ end) => destruct x
      | |- skips _ (iofail _) => apply skips_fail; congruence
      | |- skips _ (ioassert _ _) => apply skips_assert; congruence
      | |- skips _ (faulty _) => apply skips_faulty; congruence
      | |- skips _ (maperr _ _) => apply skips_maperr; intros []; cbn; congruence
      end
    | progress cbn beta zeta ].

Lemma skips_fetch {A} R url (f : response → io adoption_error A) :
  (∀ n, skips R (f (serve n url))) → skips R (fetch url ≫= f).
Proof. intros Hf w w'. exact (Hf _ _ w'). Qed.

Lemma skips_fetchMemberURL k m : skips (not_served k m) (fetchMemberURL k m (Path m)).
Proof.
  unfold fetchMemberURL. apply skips_bind; [noskip|intros _]. apply skips_fetch. intros n.
  destruct (serve n (buildMemberURL k (Path m))) as [body cl lastmod|code|] eqn:Hs; [noskip| |noskip].
  destruct ((code =? 404) || (code =? 410)) eqn:Hc; [|noskip]. intros _ _ _. exists n, code. split; [done|].
  apply orb_true_iff in Hc as [?%Z.eqb_eq|?%Z.eqb_eq]; auto.
Qed.

Lemma skips_tryByHash R k m rel : skips R (tryByHashFetch k m rel).
Proof. unfold tryByHashFetch, fetch. noskip. Qed.
Lemma skips_reusePooled R m : skips R (reusePooled m).
Proof.
  unfold reusePooled. destruct (SHA256 m =? "")%string; [apply skips_ret|].
  apply skips_bind; [noskip|intros _]. apply skips_bind; [by intros w w' [=]|intros p].
  destruct (p !! SHA256 m) as [c|]; [|apply skips_ret]. apply skips_bind; [noskip|intros _].
  destruct (sha256 c =? SHA256 m)%string; [noskip|].
  apply skips_bind; [noskip|intros _]. apply skips_bind; [by intros w w' [=]|intros _; apply skips_ret].
Qed.

Lemma skips_adoptMember k m abh : skips (not_served k m) (adoptMember k m abh).
Proof.
  unfold adoptMember. apply skips_bind; [apply skips_reusePooled|intros [h|]]; [apply skips_ret|].
  apply skips_bind; [noskip|intros n]. apply skips_bind; [noskip|intros _].
  destruct (abh && _); [|apply skips_fetchMemberURL].
  intros w w'. unfold orelse. destruct (tryByHashFetch k m _ w) as [[h|e] w1]; [done|].
  destruct e; cbn; try apply skips_fetchMemberURL. done.
Qed.

Lemma skips_attempts r k m abh e :
  (e = MemberSkipped → not_served k m) → skips (not_served k m) (member_attempts r k m abh e).
Proof.
  revert e. induction r as [|r IH]; intros e He; cbn [member_attempts].
  { intros w w' [= -> _]. by apply He. }
  apply skips_bind; [noskip|intros n]. destruct (cancelled n || _).
  { intros w w' [= -> _]. by apply He. }
  apply skips_bind; [noskip|intros n']. destruct (cancelled n').
  { intros w w' [= -> _]. by apply He. }
  intros w w'. unfold orelse. destruct (adoptMember k m abh w) as [[h|e1] w1] eqn:Hr; [done|].
  apply IH. intros ->. by eapply skips_adoptMember.
Qed.

Lemma skips_withRetry r k m abh : skips (not_served k m) (adoptMemberWithRetry r k m abh).
Proof.
  unfold adoptMemberWithRetry. intros w w'. unfold orelse.
  destruct (adoptMember k m abh w) as [[h|e] w1] eqn:Hr; [done|].
  assert (e = MemberSkipped → not_served k m) as He by (intros ->; by eapply skips_adoptMember).
  destruct (r =? 0)%nat; [|by apply skips_attempts]. intros [= -> _]. by apply He.
Qed.

(** ** The member loop *)

Lemma pooled_ambient h : ambient (λ _, True) (pooled h).
Proof.
  split; try done.
  - intros p h' c' (c & Hc & Hh) Hc' Hne. exists c. split; [|done]. rewrite lookup_delete_ne; [done|]. congruence.
  - intros p body (c & Hc & Hh) Hn. exists c. split; [|done]. rewrite lookup_insert_ne; [done|]. congruence.
Qed.

(** A step that keeps what is pooled. *)
Definition pools {E A} (m : io E A) : Prop :=
  ∀ h w r w', m w = (r, w') → pooled h (w_pool w) → pooled h (w_pool w').

Lemma ambient_pools {E A} (m : io E A) :
  (∀ P Q, ambient P Q → stays (I P Q) m) → pools m.
Proof.
  intros Hm h w r w' Hrun Hp. specialize (Hm _ _ (pooled_ambient h) w (conj Logic.I Hp)).
  rewrite Hrun in Hm. apply Hm.
Qed.

(** What the loop has gathered of the members [l] it went through: [got] are
    the members it has, with their blobs. *)
Record gathered (a : Adopter) (k : SuiteKey) (id : Z) (l : list ReleaseMember)
    (got : list (ReleaseMember * string)) (st : loop_st) (p : gmap string string) : Prop := {
  ga_rows : lp_rows st = map (λ x, member_row id (Path x.1) x.2) got;
  ga_fetched : lp_fetched st = map (λ x, verifiedMember x.1 x.2) got;
  ga_aliases : lp_aliases st = concat (map (λ x, aliasRows id x.1 x.2) got);
  ga_verified : ∀ x, x ∈ got → x.1 ∈ l ∧ matches x.1 x.2 ∧ pooled x.2 p;
  ga_skipped : ∀ s, s ∈ lp_skipped st →
    ∃ m, m ∈ l ∧ Path m = skm_path s ∧ skm_declared s = SHA256 m ∧ optional a k m;
  ga_all : ∀ m, m ∈ l → filtered_out a k m = true ∨ m ∈ got.*1 ∨ not_served k m ∨
    optional a k m ∧ (SHA256 m ≠ "" → ∃ s, s ∈ lp_skipped st ∧ skm_path s = Path m);
  ga_groups : ∀ g, g ∈ lp_got st → ∃ m, m ∈ got.*1 ∧ required_group a k m = Some g;
  ga_declared : ∀ m g, m ∈ l → filtered_out a k m = false → required_group a k m = Some g →
    g ∈ lp_declared st }.

Lemma gathered_pools {E A} (m : io E A) a k id l got st w r w' :
  pools m → m w = (r, w') → gathered a k id l got st (w_pool w) → gathered a k id l got st (w_pool w').
Proof.
  intros Hm Hrun [? ? ? Hv ? ? ? ?]. split; try done.
  intros x Hx. destruct (Hv x Hx) as (? & ? & ?). split_and!; eauto.
Qed.

Lemma gathered_start a k id anchors p : gathered a k id [] [] (loop_start anchors) p.
Proof. split; cbn; try done; intros; exfalso; by eapply not_elem_of_nil. Qed.

Lemma gathered_nothing a k id l got st p m :
  gathered a k id l got st p →
  filtered_out a k m = true → gathered a k id (l ++ [m]) got st p.
Proof.
  intros [Hr Hf Ha Hv Hs Hall Hg Hd] Hout. split; try done.
  - intros x Hx. destruct (Hv x Hx) as (? & ? & ?). split_and!; try done. apply elem_of_app. by left.
  - intros s Hin. destruct (Hs s Hin) as (y & ? & ?). exists y. split; [apply elem_of_app; by left|done].
  - intros y [Hy| ->%list_elem_of_singleton]%elem_of_app; [by apply Hall|by left].
  - intros y g [Hy| ->%list_elem_of_singleton]%elem_of_app Hn Hgr; [by eapply Hd|congruence].
Qed.

(** A member that was not fetched, for a reason. *)
Lemma gathered_missing a k id l got st p m new :
  gathered a k id l got st p →
  (∀ s, s ∈ new → Path m = skm_path s ∧ skm_declared s = SHA256 m ∧ optional a k m) →
  (not_served k m ∨ optional a k m ∧ (SHA256 m ≠ "" → ∃ s, s ∈ new ∧ skm_path s = Path m)) →
  gathered a k id (l ++ [m]) got
    {| lp_rows := lp_rows st; lp_fetched := lp_fetched st; lp_aliases := lp_aliases st;
       lp_skipped := lp_skipped st ++ new;
       lp_declared := lp_declared (note_declared (required_group a k m) st);
       lp_got := lp_got st; lp_tracker := lp_tracker st |} p.
Proof.
  intros [Hr Hf Ha Hv Hs Hall Hg Hd] Hnew Hwhy. split; cbn; try done.
  - intros x Hx. destruct (Hv x Hx) as (? & ? & ?). split_and!; try done. apply elem_of_app. by left.
  - intros s [Hin|Hin]%elem_of_app.
    + destruct (Hs s Hin) as (y & ? & ?). exists y. split; [apply elem_of_app; by left|done].
    + exists m. split; [apply elem_of_app; right; by left|by apply Hnew].
  - intros y [Hy| ->%list_elem_of_singleton]%elem_of_app.
    + destruct (Hall y Hy) as [?|[?|[?|[? Hsk]]]]; auto. right; right; right. split; [done|].
      intros Hne. destruct (Hsk Hne) as (s & ? & ?). exists s. split; [apply elem_of_app; by left|done].
    + right; right. destruct Hwhy as [?|[? Hsk]]; [by left|right]. split; [done|].
      intros Hne. destruct (Hsk Hne) as (s & ? & ?). exists s. split; [apply elem_of_app; by right|done].
  - intros y g [Hy| ->%list_elem_of_singleton]%elem_of_app Hn Hgr.
    + specialize (Hd y g Hy Hn Hgr). destruct (required_group a k m); set_solver.
    + rewrite Hgr. set_solver.
Qed.

Lemma gathered_fetched a k id l got st p m h :
  gathered a k id l got st p → matches m h → pooled h p →
  gathered a k id (l ++ [m]) (got ++ [(m, h)])
    (note_fetched id (required_group a k m) m h (note_declared (required_group a k m) st)) p.
Proof.
  intros [Hr Hf Ha Hv Hs Hall Hg Hd] Hm Hp. split; cbn.
  - by rewrite map_app, Hr.
  - by rewrite map_app, Hf.
  - rewrite map_app, concat_app, Ha. cbn. by rewrite app_nil_r.
  - intros x [Hx| ->%list_elem_of_singleton]%elem_of_app.
    + destruct (Hv x Hx) as (? & ? & ?). split_and!; try done. apply elem_of_app. by left.
    + split_and!; [apply elem_of_app; right; by left|done..].
  - intros s Hin. destruct (Hs s Hin) as (y & ? & ?). exists y. split; [apply elem_of_app; by left|done].
  - intros y [Hy| ->%list_elem_of_singleton]%elem_of_app.
    + destruct (Hall y Hy) as [?|[?|?]]; auto. right; left. rewrite fmap_app. apply elem_of_app. by left.
    + right; left. rewrite fmap_app. apply elem_of_app. right. by left.
  - intros g Hin. setoid_rewrite fmap_app.
    destruct (required_group a k m) as [g'|] eqn:Hgr.
    + apply elem_of_union in Hin as [->%elem_of_singleton|Hin].
      * exists m. split; [|done]. apply elem_of_app. right. by left.
      * destruct (Hg g Hin) as (y & ? & ?). exists y. split; [apply elem_of_app; by left|done].
    + destruct (Hg g Hin) as (y & ? & ?). exists y. split; [apply elem_of_app; by left|done].
  - intros y g [Hy| ->%list_elem_of_singleton]%elem_of_app Hn Hgr.
    + specialize (Hd y g Hy Hn Hgr). destruct (required_group a k m); set_solver.
    + rewrite Hgr. set_solver.
Qed.

Lemma attempt_ok {A} (m : io adoption_error A) w r w' :
  attempt m w = (Ok r, w') → m w = (r, w').
Proof. unfold attempt. intros [= <- <-]. by destruct (m w). Qed.

Lemma matches_verified m h w : verified m h w → matches m h.
Proof. intros [_ ? ? ?]. done. Qed.

Lemma adopt_one_gathered a k id abh l got m st w st' w' :
  SHA256 m ≠ "" ∨ SHA512 m ≠ "" →
  adopt_one a k id abh m st w = (Ok st', w') →
  gathered a k id l got st (w_pool w) →
  ∃ got', gathered a k id (l ++ [m]) got' st' (w_pool w').
Proof.
  intros Hdecl Hrun Hg. unfold adopt_one in Hrun.
  apply io_bind_ok in Hrun as (u1 & w1 & Hstop & Hrun).
  eapply gathered_pools in Hg; [|apply ambient_pools; intros; by apply amb_check_stop|exact Hstop].
  destruct (filtered_out a k m) eqn:Hout; [ioinv; exists got; by apply gathered_nothing|].
  apply io_bind_ok in Hrun as (r & w2 & Hr & Hrun). apply attempt_ok in Hr.
  eapply gathered_pools in Hg; [|apply ambient_pools; intros; by apply amb_withRetry|exact Hr].
  destruct r as [h|e].
  - apply io_bind_ok in Hrun as (u2 & w3 & Hbeat & Hrun). ioinv.
    apply adoptMemberWithRetry_ok in Hr as [Hver _]; [|done]. eexists.
    eapply gathered_pools; [apply ambient_pools; intros; by apply amb_heartbeat|exact Hbeat|].
    apply gathered_fetched; [exact Hg|by eapply matches_verified|apply Hver].
  - exists got. assert (e = MemberSkipped ∨ e ≠ MemberSkipped) as [->|Hne] by (destruct e; auto).
    { ioinv. pose proof (gathered_missing a k id l got st _ m [] Hg) as Hgm.
      rewrite app_nil_r in Hgm. apply Hgm; [intros s Hs; by apply elem_of_nil in Hs|].
      left. by eapply skips_withRetry. }
    assert ((n ← event; if tolerateOptionalMembers a && negb (cancelled n)
              && negb (isIndexTarget (key_path k) (Path m)) && retryable e
            then mret (note_skipped m (detail e) (note_declared (required_group a k m) st))
            else iofail e) w2 = (Ok st', w')) as Hrun2.
    { destruct e; try exact Hrun. done. }
    clear Hrun. ioinv.
    match goal with Hc : (if ?b then _ else _) _ = _ |- _ => destruct b eqn:Hb end; ioinv. bclean.
    match goal with |- context [note_skipped ?x ?why _] =>
      set (new := if (SHA256 m =? "")%string then [] else [{| skm_path := Path m; skm_declared := SHA256 m;
        skm_size := Size m; skm_reason := SkipReasonOptionalMemberIntegrity; skm_detail := why |}]) end.
    pose proof (gathered_missing a k id l got st _ m new Hg) as Hgm.
    replace (note_skipped _ _ _) with
      {| lp_rows := lp_rows st; lp_fetched := lp_fetched st; lp_aliases := lp_aliases st;
         lp_skipped := lp_skipped st ++ new;
         lp_declared := lp_declared (note_declared (required_group a k m) st);
         lp_got := lp_got st; lp_tracker := lp_tracker st |}.
    2:{ unfold note_skipped, new. cbn. destruct (SHA256 m =? "")%string; [by rewrite app_nil_r|done]. }
    apply Hgm.
    + unfold new. destruct (SHA256 m =? "")%string; [intros s Hs; by apply elem_of_nil in Hs|].
      intros s ->%list_elem_of_singleton. done.
    + right. split; [done|]. intros Hne'%String.eqb_neq. unfold new. rewrite Hne'. eexists. split; [by left|done].
Qed.

Lemma members_gathered a k id abh l done_ got st w st' w' :
  (∀ m, m ∈ l → SHA256 m ≠ "" ∨ SHA512 m ≠ "") →
  iofor (adopt_one a k id abh) l st w = (Ok st', w') →
  gathered a k id done_ got st (w_pool w) →
  ∃ got', gathered a k id (done_ ++ l) got' st' (w_pool w').
Proof.
  revert done_ got st w. induction l as [|m l IH]; intros done_ got st w Hl Hrun Hg; cbn [iofor] in Hrun.
  { ioinv. rewrite app_nil_r. eauto. }
  apply io_bind_ok in Hrun as (st1 & w1 & Hone & Hrun).
  eapply adopt_one_gathered in Hone as [got1 Hone]; [|apply Hl; by left|exact Hg].
  eapply IH in Hrun as [got' Hrun]; [|intros m' Hm'; apply Hl; by right|exact Hone].
  rewrite <-app_assoc in Hrun. by exists got'.
Qed.

Lemma guards_ok a k members st w u w' :
  guards a k members st w = (Ok u, w') →
  lp_declared st ∖ lp_got st = ∅ ∧
  missingRequestableIndexGroups (key_path k) members (lp_fetched st) (architectureAllowlist a) = [].
Proof.
  unfold guards. intros Hrun. destruct (sort_by _ _) as [|g l] eqn:Hs; [|done].
  apply io_bind_ok in Hrun as (u1 & w1 & _ & Hrun).
  destruct (missingRequestableIndexGroups _ _ _ _) as [|g l]; [|done]. split; [|done].
  apply leibniz_equiv, elements_empty_inv, Permutation_nil_r. rewrite <-Hs. symmetry. apply sort_by_perm.
Qed.

(** Whatever runs between the loop and the commit keeps what is gathered. *)
Lemma fill_candidate_ok a k p text anchors members id w st hashes pre w' :
  Forall member_ok members →
  fill_candidate a k p text anchors members id w = (Ok (st, hashes, pre), w') →
  (∃ got, gathered a k id members got st (w_pool w')) ∧
  lp_declared st ∖ lp_got st = ∅ ∧
  missingRequestableIndexGroups (key_path k) members (lp_fetched st) (architectureAllowlist a) = [].
Proof.
  intros Hok Hrun. unfold fill_candidate in Hrun.
  apply io_bind_ok in Hrun as (st1 & w1 & Hloop & Hrun).
  apply io_bind_ok in Hrun as (u & w2 & Hg & Hrun).
  pose proof (guards_ok _ _ _ _ _ _ _ Hg) as Hguards.
  eapply (members_gathered a k id _ members []) in Hloop as [got Hloop];
    [|intros m Hm; rewrite Forall_forall in Hok; by apply (mo_declared _ (Hok m Hm))|apply gathered_start].
  eapply gathered_pools in Hloop; [|apply ambient_pools; intros; by apply amb_guards|exact Hg].
  match type of Hrun with ?m w2 = _ =>
    assert (pools m) as Hpools; [apply ambient_pools; intros P Q Hamb|] end.
  { apply stays_bind; [by apply amb_packageHashes|intros].
    apply stays_bind; [by apply amb_heartbeat|intros].
    apply stays_bind; [apply stays_bind; [by apply amb_computeHotSet|intros; by apply amb_hot_loop]|intros].
    apply stays_bind; [by apply amb_heartbeat|intros].
    apply stays_bind; [by apply amb_check_stop|intros].
    apply stays_bind; [|intros; apply stays_ret]. destruct (is_unsigned p); [by apply amb_remark|apply stays_ret]. }
  pose proof (gathered_pools _ _ _ _ _ _ st1 _ _ _ Hpools Hrun Hloop) as Hfin. clear Hpools.
  repeat (apply io_bind_ok in Hrun as (? & ? & _ & Hrun)). ioinv. eauto.
Qed.

(** ** The ends of the run *)

Lemma verify_ok a k p w text w' : verify a k p w = (Ok text, w') → authentic a k p text (w_db w).
Proof.
  unfold verify, authentic. destruct p as [b|r s l|r].
  - destruct (VerifyInline k b); intros Hr; by ioinv.
  - destruct (VerifyDetached k r s); intros Hr; by ioinv.
  - intros Hr. apply io_bind_ok in Hr as (u & w1 & Hel & Hr). ioinv. unfold unsignedEligible in Hel.
    destruct (adoptUnsigned a); cbn [negb] in Hel; [|done]. apply maperr_ok, sql_pool in Hel as (_ & now & Hdb).
    unfold refuseUnsignedDowngrade in Hdb. minv.
    destruct (has_marker _ _ _); [done|]. destruct (has_signed_snapshot _ _ _); done.
Qed.

(** Bytes written are pooled under their digest. *)
Lemma writeBlobBytes_ok content w h w' :
  writeBlobBytes content w = (Ok h, w') → h = sha256 content ∧ pooled h (w_pool w').
Proof.
  intros Hrun. unfold writeBlobBytes in Hrun.
  match type of Hrun with context [match _ !! _ with None => ?wr | _ => _ end] => set (write := wr) in Hrun end.
  assert (∀ w1, good (sha256 content) w1 → write w1 = (Ok h, w') →
            h = sha256 content ∧ pooled h (w_pool w')) as Hwrite.
  { intros w1 Hgood Hw. unfold write in Hw. apply io_bind_ok in Hw as (u & w2 & Hf & Hw).
    apply faulty_pool in Hf as [Hp2 _]. apply io_bind_ok in Hw as (final & w3 & Hfin & Hw). ioinv.
    unfold Finalize in Hfin. ioinv.
    match goal with Hf : faulty _ _ = _ |- _ => apply faulty_pool in Hf as [Hp4 _] end.
    apply into_pool_ok in Hfin as [-> Hfile]; [|intros c Hc; apply Hgood; congruence].
    match goal with Hq : sql _ _ = _ |- _ => apply sql_pool in Hq as (Hp5 & _) end.
    split; [done|]. unfold pooled. by rewrite Hp5. }
  ioinv. match goal with Hf : faulty _ _ = _ |- _ => apply faulty_pool in Hf as [Hp0 _] end.
  destruct (w_pool w1 !! sha256 content) as [c|] eqn:Hc.
  - ioinv. match goal with Hf : faulty _ _ = _ |- _ => apply faulty_pool in Hf as [Hp1 _] end.
    destruct (sha256 c =? sha256 content)%string eqn:Hh; ioinv.
    + apply String.eqb_eq in Hh.
      match goal with Hq : sql _ _ = _ |- _ => apply sql_pool in Hq as (Hp5 & _) end.
      split; [done|]. exists c. split; [congruence|done].
    + eapply Hwrite; [|exact Hrun]. intros c' Hc'. cbn in Hc'. by rewrite lookup_delete_eq in Hc'.
  - eapply Hwrite; [|exact Hrun]. intros c' Hc'. congruence.
Qed.

Lemma writeBlobBytes_pools content : pools (writeBlobBytes content).
Proof. apply ambient_pools. intros. by apply amb_writeBlobBytes. Qed.

(** The blobs of the anchors are their bytes. *)
Definition anchors_ok (p : payload) (anchors : string * string) : Prop :=
  anchors.1 = sha256 (anchor_bytes p) ∧ ∀ s, signature_bytes p = Some s → anchors.2 = sha256 s.

Definition anchors_pooled (p : payload) (q : gmap string string) : Prop :=
  ∀ name bytes, (name, bytes) ∈ anchor_files p → pooled (sha256 bytes) q.

Lemma persist_ok p w anchors w' :
  persist p w = (Ok anchors, w') → anchors_ok p anchors ∧ anchors_pooled p (w_pool w').
Proof.
  unfold persist, anchors_ok, anchors_pooled, anchor_files. intros Hrun. destruct p as [b|r s l|r]; cbn.
  - ioinv. apply writeBlobBytes_ok in Hrun0 as [-> Hp]. split; [done|].
    intros name bytes [= -> ->]%list_elem_of_singleton. done.
  - apply io_bind_ok in Hrun as (rh & w1 & Hr & Hrun). ioinv.
    apply writeBlobBytes_ok in Hr as [-> Hpr].
    match goal with Hq : writeBlobBytes s _ = _ |- _ =>
      eapply (writeBlobBytes_pools s) in Hpr; [|exact Hq]; apply writeBlobBytes_ok in Hq as [-> Hps] end.
    split; [split; [done|by intros ? [= <-]]|].
    intros name bytes [[= -> ->]|[= -> ->]%list_elem_of_singleton]%elem_of_cons; done.
  - ioinv. apply writeBlobBytes_ok in Hrun0 as [-> Hp]. split; [done|].
    intros name bytes [= -> ->]%list_elem_of_singleton. done.
Qed.

Lemma read_release_ok a k p w text anchors members w' :
  read_release a k p w = (Ok (text, anchors, members), w') →
  authentic a k p text (w_db w) ∧ ParseRelease text = Ok members ∧
  (is_unsigned p = true → Z.of_nat (length members) <= unsignedMemberCap) ∧
  anchors_ok p anchors ∧ anchors_pooled p (w_pool w').
Proof.
  unfold read_release. intros Hrun.
  apply io_bind_ok in Hrun as (text1 & w1 & Hv & Hrun). apply verify_ok in Hv.
  apply io_bind_ok in Hrun as (anchors1 & w2 & Hper & Hrun). apply persist_ok in Hper as [Hanch Hpool].
  apply io_bind_ok in Hrun as (members1 & w3 & Hp & Hrun).
  apply io_bind_ok in Hrun as (u & w4 & [Hcap ->]%ioassert_ok & Hrun).
  unfold mret, io_ret in Hrun. simplify_eq.
  destruct (ParseRelease text) as [l|e] eqn:Hl; ioinv. split_and!; try done.
  intros Hu. rewrite Hu in Hcap. by apply Z.leb_le in Hcap.
Qed.

Lemma priorSnapshot_ok k w prior w' :
  priorSnapshot k w = (Ok prior, w') →
  w_db w' = w_db w ∧ prior = (id ← suite_current (w_db w) k; s ← snap_t (w_db w) !! id; Some (id, s)).
Proof.
  unfold priorSnapshot. intros Hrun. ioinv.
  match goal with Hf : faulty _ _ = _ |- _ => apply faulty_pool in Hf as [_ Hd] end. by rewrite Hd.
Qed.

Lemma check_date_ok prior relDate w u w' :
  check_date prior relDate w = (Ok u, w') →
  (∃ n, relDate <= clock n + maxReleaseDateSkew) ∧
  ∀ id s date, prior = Some (id, s) → ss_date s = Some date → date <= relDate.
Proof.
  unfold check_date. intros Hrun. ioinv. bclean. split; [eauto|].
  intros id s date -> Hd. rewrite Hd in Hrun. ioinv. by bclean.
Qed.

(** *** The candidate *)

Lemma candidateForm_of k p anchors relDate etag lastmod :
  candidateForm (candidate_of k p anchors relDate etag lastmod)
  = Ok (sc_form (candidate_of k p anchors relDate etag lastmod)).
Proof. by destruct p. Qed.

(** A candidate, new or taken up again, has the columns of the payload. *)
Lemma InsertCandidate_described k p anchors text etag lastmod now d r d' :
  wf d → anchors_ok p anchors →
  InsertCandidateSnapshot (candidate_of k p anchors (releaseDate text) etag lastmod) now d = Ok (r, d') →
  ∃ s, snap_t d' !! r.1 = Some s ∧ described k p text s.
Proof.
  intros Hwf [Ha Hs] Hrun. unfold InsertCandidateSnapshot in Hrun. rewrite candidateForm_of in Hrun. minv.
  destruct (natural_lookup d _ _ _) as [[id1 s1]|] eqn:Hl.
  - destruct (ss_adopted s1); [done|]. minv. cbn. rewrite lookup_insert_eq. eexists. split; [done|].
    apply natural_lookup_spec in Hl as (Hs1 & Hk & Hf & _ & _ & Hn).
    apply (wf_snaps _ Hwf) in Hs1 as [_ Hsh].
    destruct p as [b|rel sig l|rel]; cbn in *;
      destruct Hsh as [([Hf'|Hf'] & [i Hi] & Hr & Hg)|(Hf' & Hi & [rr Hr] & Hg)];
      try (rewrite Hf in Hf'; discriminate Hf'); rewrite Hi, ?Hr in Hn; cbn in Hn.
    + split; cbn; try done. by rewrite Hi, Hn, Ha.
    + split; cbn; try done; [by rewrite Hr, Hn, Ha|by rewrite (Hs sig)].
    + split; cbn; try done. by rewrite Hi, Hn, Ha.
  - minv. cbn. rewrite lookup_insert_eq. eexists. split; [done|].
    destruct p as [b|rel sig l|rel]; cbn in *; split; cbn; try done; try (by rewrite Ha).
    by rewrite (Hs sig).
Qed.

Definition candidate (id : Z) (k : SuiteKey) (p : payload) (text : string) (d : DB) : Prop :=
  ∃ s, snap_t d !! id = Some s ∧ described k p text s.

Lemma insert_candidate_ok prior k p anchors text etag lastmod w id w' :
  wf (w_db w) → anchors_ok p anchors →
  insert_candidate prior (candidate_of k p anchors (releaseDate text) etag lastmod) w = (Ok id, w') →
  candidate id k p text (w_db w').
Proof.
  intros Hwf Ha Hrun. unfold insert_candidate in Hrun. ioinv. apply sql_pool in Hrun0 as (_ & now & Hdb).
  by eapply InsertCandidate_described.
Qed.

Lemma candidate_ambient id k p text : ambient (candidate id k p text) (λ _, True).
Proof.
  split; try done.
  - intros h size now d u d' Hc Hrun. unfold PutBlob in Hrun. minv. exact Hc.
  - intros k' h l now d u d' Hc Hrun. unfold PutRepresentation, putRepresentation in Hrun. minv. exact Hc.
  - intros i now d u d' (s & Hs & Hk) Hrun. unfold HeartbeatSnapshot in Hrun. minv. unfold candidate. cbn.
    rewrite lookup_update_where, Hs. cbn. eexists. split; [done|].
    destruct (id =? i); [|done]. destruct Hk. by split.
  - intros l now d u d' Hc Hrun. unfold HeartbeatBlobs in Hrun.
    destruct (length l =? 0)%nat; [by minv|]. destruct (length _ =? 0)%nat; minv; exact Hc.
  - intros marks. apply triple_for_inv. intros m d u d' Hc Hrun. unfold markSignedSeen in Hrun. minv. exact Hc.
Qed.

Lemma ambient_run {E A} (P : DB → Prop) Q (m : io E A) w r w' :
  (ambient P Q → stays (I P Q) m) → ambient P Q → m w = (r, w') → I P Q w → I P Q w'.
Proof. intros Hm Hamb Hrun Hw. specialize (Hm Hamb w Hw). by rewrite Hrun in Hm. Qed.

(** *** The flip *)

Lemma io_bind_cases {E A B} (m : io E A) (f : A → io E B) w r w' :
  (m ≫= f) w = (r, w') →
  (∃ e, m w = (Err e, w') ∧ r = Err e) ∨ ∃ a w1, m w = (Ok a, w1) ∧ f a w1 = (r, w').
Proof.
  unfold mbind, io_bind. destruct (m w) as [[a|e] w1]; [right; eauto|]. intros [= <- <-]. left. eauto.
Qed.

(** The answer of a statement that was done, or is lost. *)
Definition heard {A} (a : A) (r : result adoption_error A) : Prop :=
  r = Ok a ∨ r = Err (DBFailed None) ∧ ∃ n, lost n = true.

Lemma sql_cases {A} (m : Z → T A) w r w' :
  sql m w = (r, w') →
  w_pool w' = w_pool w ∧
  ((∃ e, r = Err e) ∧ w_db w' = w_db w ∨ ∃ a now, m now (w_db w) = Ok (a, w_db w') ∧ heard a r).
Proof.
  unfold sql. intros [(e & Hn & _)|(n & w1 & Hn & Hrun)]%io_bind_cases; [done|]. ioinv.
  destruct (disk_fault (w_tick w)); [injection Hrun as <- <-; eauto|]. cbn in Hrun.
  destruct (atomically (m (clock (w_tick w))) (w_db w)) as [[x|e] d] eqn:Hat; injection Hrun as <- <-; cbn.
  - split; [done|]. right. exists x, (clock (w_tick w)). split; [by apply atomically_ok|].
    unfold heard. destruct (lost (w_tick w)) eqn:Hl; eauto.
  - apply atomically_err in Hat as ->. eauto.
Qed.

Lemma servedAnchorUnchanged_world k p anchors w r w' :
  servedAnchorUnchanged k p anchors w = (r, w') → w_db w' = w_db w ∧ w_pool w' = w_pool w.
Proof. unfold servedAnchorUnchanged, event, get_db, mbind, io_bind, mret, io_ret. by intros [= _ <-]. Qed.

Lemma commit_cases id rows skipped packages prefetched coverage w r w' :
  maperr commit_error (commit_adoption id rows skipped packages prefetched coverage) w = (r, w') →
  w_pool w' = w_pool w ∧
  ((∃ e, r = Err e) ∧ w_db w' = w_db w ∨
   heard tt r ∧ ∃ now skipNow,
     CommitAdoption id rows skipped packages prefetched coverage skipNow now (w_db w) = Ok (tt, w_db w')).
Proof.
  unfold maperr. destruct (commit_adoption _ _ _ _ _ _ w) as [r1 w1] eqn:Hc. intros Hrun.
  assert (w1 = w') as -> by (destruct r1; by injection Hrun).
  unfold commit_adoption in Hc. apply io_bind_cases in Hc as [(e & Hn & _)|(n & w2 & Hn & Hc)]; [done|].
  ioinv. apply sql_cases in Hc as [Hp Hc]. cbn in *. split; [done|].
  destruct Hc as [[[e ->] Hd]|([] & now & Hd & Hh)].
  - left. injection Hrun as <-. eauto.
  - right. split; [|eauto]. destruct Hh as [->|[-> Hl]]; injection Hrun as <-; [by left|right; by split].
Qed.

Lemma flip_cases a k p anchors first id rows skipped packages prefetched coverage w r w' :
  flip a k p anchors first (commit_adoption id rows skipped packages prefetched coverage) w = (r, w') →
  w_pool w' = w_pool w ∧
  ((∃ e, r = Err e) ∧ w_db w' = w_db w ∨
   heard tt r ∧ ∃ now skipNow,
     CommitAdoption id rows skipped packages prefetched coverage skipNow now (w_db w) = Ok (tt, w_db w')).
Proof.
  unfold flip. destruct (negb (flipGateEnabled a)); [apply commit_cases|]. intros Hrun.
  assert (∀ (u : bool) w1, w_db w1 = w_db w ∧ w_pool w1 = w_pool w →
    (n ← event; _ ← ioassert (negb (if u then gate_closed n else gate_aborts n)) Shutdown;
     maperr commit_error (commit_adoption id rows skipped packages prefetched coverage)) w1 = (r, w') →
    w_pool w' = w_pool w ∧
    ((∃ e, r = Err e) ∧ w_db w' = w_db w ∨
     heard tt r ∧ ∃ now skipNow,
       CommitAdoption id rows skipped packages prefetched coverage skipNow now (w_db w) = Ok (tt, w_db w')))
    as Hgate.
  { intros u w1 [<- <-] [(e & Hn & _)|(n & w2 & Hn & Hr)]%io_bind_cases; [done|]. ioinv.
    apply io_bind_cases in Hr as [(e & Ha & ->)|([] & w3 & [_ ->]%ioassert_ok & Hr)].
    - destruct (ioassert _ _ _) as [x y] eqn:Hx in Ha. unfold ioassert in Hx.
      destruct (negb _); injection Hx as <- <-; injection Ha as ? <-; [done|]. eauto.
    - by apply commit_cases in Hr. }
  apply io_bind_cases in Hrun as [(e & Hb & ->)|(u & w1 & Hb & Hrun)].
  - destruct first; [|done]. apply servedAnchorUnchanged_world in Hb as [-> ->]. eauto.
  - eapply Hgate; [|exact Hrun]. destruct first; [by eapply servedAnchorUnchanged_world|by ioinv].
Qed.

(** *** The commit *)

Lemma first_aliases_step acc l :
  let out := foldl (λ acc r, if existsb (λ q, (sm_path q =? sm_path r)%string) acc then acc else acc ++ [r]) acc l in
  (∀ r, r ∈ out → r ∈ acc ∨ r ∈ l) ∧ (∀ r, r ∈ acc ∨ r ∈ l → ∃ q, q ∈ out ∧ sm_path q = sm_path r).
Proof.
  revert acc. induction l as [|x l IH]; intros acc; cbn.
  { split; [by left|]. intros r [Hr|Hr]; [by exists r|by apply elem_of_nil in Hr]. }
  destruct (existsb _ acc) eqn:He.
  - destruct (IH acc) as [Hi Ho]. split.
    + intros r Hr. destruct (Hi r Hr); [by left|right; by right].
    + intros r [Hr|[->|Hr]%elem_of_cons]; [apply Ho; by left| |apply Ho; by right].
      apply existsb_exists in He as (q & Hq%list_elem_of_In & Hp%String.eqb_eq).
      rewrite <-Hp. apply Ho. by left.
  - destruct (IH (acc ++ [x])) as [Hi Ho]. split.
    + intros r Hr. destruct (Hi r Hr) as [[?| ->%list_elem_of_singleton]%elem_of_app|?];
        [by left|right; by left|right; by right].
    + intros r [Hr|[->|Hr]%elem_of_cons]; apply Ho;
        [left; apply elem_of_app; by left|left; apply elem_of_app; right; by left|by right].
Qed.

Lemma first_aliases_in l r : r ∈ first_aliases l → r ∈ l.
Proof. intros Hr. destruct (proj1 (first_aliases_step [] l) r Hr) as [Hn|?]; [by apply elem_of_nil in Hn|done]. Qed.
Lemma first_aliases_path l r : r ∈ l → ∃ q, q ∈ first_aliases l ∧ sm_path q = sm_path r.
Proof. intros Hr. apply (proj2 (first_aliases_step [] l)). by right. Qed.

(** A run that has reached its flip. *)
Record prepared (a : Adopter) (k : SuiteKey) (p : payload) (w : World) (text : string)
    (members : list ReleaseMember) (id : Z) (anchors : string * string)
    (got : list (ReleaseMember * string)) (st : loop_st) (w5 : World) : Prop := {
  pr_authentic : authentic a k p text (w_db w);
  pr_parsed : ParseRelease text = Ok members;
  pr_small : is_unsigned p = true → Z.of_nat (length members) <= unsignedMemberCap;
  pr_not_ahead : ∃ n, releaseDate text <= clock n + maxReleaseDateSkew;
  pr_not_behind : ∀ pid s date, suite_current (w_db w) k = Some pid → snap_t (w_db w) !! pid = Some s →
    ss_date s = Some date → date <= releaseDate text;
  pr_gathered : gathered a k id members got st (w_pool w5);
  pr_required : lp_declared st ∖ lp_got st = ∅;
  pr_requestable :
    missingRequestableIndexGroups (key_path k) members (lp_fetched st) (architectureAllowlist a) = [];
  pr_serving : I (serving (w_db w)) (sound_files (w_pool w)) w5;
  pr_candidate : candidate id k p text (w_db w5);
  pr_anchors : anchors_ok p anchors ∧ anchors_pooled p (w_pool w5) }.

Section commit.
Context a k p w text members id anchors got st w5 w' packages prefetched coverage skipNow now
  (P : prepared a k p w text members id anchors got st w5)
  (Hpool : w_pool w' = w_pool w5)
  (Hcommit : CommitAdoption id (snapshot_rows id p anchors st) (lp_skipped st) packages prefetched coverage
    skipNow now (w_db w5) = Ok (tt, w_db w')).

Lemma cm_wf : wf (w_db w5).
Proof. apply (pr_serving _ _ _ _ _ _ _ _ _ _ _ P). Qed.

Lemma cm_serves : serves (w_db w) (w_db w5).
Proof. apply (pr_serving _ _ _ _ _ _ _ _ _ _ _ P). Qed.

(** The rows it commits are the suite's. *)
Lemma cm_lookup r : r ∈ snapshot_rows id p anchors st →
  LookupSnapshotMember (w_db w') k (sm_path r) = Some (id, sm_blob r).
Proof.
  intros Hr. destruct (CommitAdoption_ok _ _ _ _ _ _ _ _ _ _ _ cm_wf Hcommit) as (_ & s & Hs & _ & _ & _ & Hrows).
  destruct (pr_candidate _ _ _ _ _ _ _ _ _ _ _ P) as (s' & Hs' & Hd). simplify_eq.
  rewrite <-(ds_suite _ _ _ _ Hd). by apply Hrows.
Qed.

Lemma cm_member x : x ∈ got → adopted_member k id x.1 w'.
Proof.
  intros Hx. destruct (pr_gathered _ _ _ _ _ _ _ _ _ _ _ P) as [Hr _ Ha Hv _ _ _ _].
  destruct (Hv x Hx) as (_ & Hm & Hp). split.
  - exists x.2. rewrite Hpool. split_and!; try done.
    apply (cm_lookup (member_row id (Path x.1) x.2)). apply elem_of_app. left. rewrite Hr.
    apply list_elem_of_fmap. by exists x.
  - intros path Hpath.
    destruct (first_aliases_path (lp_aliases st) (member_row id path x.2)) as (q & Hq & Hqp).
    { rewrite Ha. apply list_elem_of_In, in_concat. exists (aliasRows id x.1 x.2).
      split; apply list_elem_of_In, list_elem_of_fmap; eauto. }
    cbn in Hqp. rewrite <-Hqp. eexists. apply (cm_lookup q). apply elem_of_app. right. apply elem_of_app. by right.
Qed.

Lemma cm_member_of m : m ∈ got.*1 → m ∈ members ∧ adopted_member k id m w'.
Proof.
  intros (x & -> & Hx)%list_elem_of_fmap. split; [|by apply cm_member].
  by apply (ga_verified _ _ _ _ _ _ _ (pr_gathered _ _ _ _ _ _ _ _ _ _ _ P)).
Qed.

Lemma cm_anchor_row name bytes : (name, bytes) ∈ anchor_files p →
  member_row id name (sha256 bytes) ∈ anchor_rows id p anchors.
Proof.
  destruct (pr_anchors _ _ _ _ _ _ _ _ _ _ _ P) as [[Hb1 Hb2] _]. unfold anchor_files, anchor_rows.
  intros [[= -> ->]|Hs]%elem_of_cons; [rewrite Hb1; by left|]. right.
  destruct p as [b|r s l|r]; cbn in *; try by apply elem_of_nil in Hs.
  apply list_elem_of_singleton in Hs as [= -> ->]. rewrite (Hb2 s eq_refl). by left.
Qed.

Lemma cm_anchor_rows r : r ∈ anchor_rows id p anchors →
  ∃ bytes, (sm_path r, bytes) ∈ anchor_files p ∧ r = member_row id (sm_path r) (sha256 bytes).
Proof.
  destruct (pr_anchors _ _ _ _ _ _ _ _ _ _ _ P) as [[Hb1 Hb2] _]. unfold anchor_files, anchor_rows.
  intros [->|Hs]%elem_of_cons.
  - exists (anchor_bytes p). rewrite Hb1. split; [by left|done].
  - destruct p as [b|rel s l|rel]; cbn in *; try by apply elem_of_nil in Hs.
    apply list_elem_of_singleton in Hs as ->. exists s. rewrite (Hb2 s eq_refl). split; [right; by left|done].
Qed.

(** Each row it commits. *)
Lemma cm_row r : r ∈ snapshot_rows id p anchors st →
  r = member_row id (sm_path r) (sm_blob r) ∧ pooled (sm_blob r) (w_pool w') ∧
  ((∃ m, m ∈ members ∧ names m (sm_path r) ∧ matches m (sm_blob r)) ∨
   ∃ bytes, (sm_path r, bytes) ∈ anchor_files p ∧ sm_blob r = sha256 bytes).
Proof.
  destruct (pr_gathered _ _ _ _ _ _ _ _ _ _ _ P) as [Hr _ Ha Hv _ _ _ _]. rewrite Hpool.
  intros [Hrow|[Hrow|Hrow%first_aliases_in]%elem_of_app]%elem_of_app.
  - rewrite Hr in Hrow. apply list_elem_of_fmap in Hrow as (x & -> & Hx).
    destruct (Hv x Hx) as (? & ? & ?). split_and!; [done..|]. left. exists x.1. split_and!; try done. by left.
  - apply cm_anchor_rows in Hrow as (bytes & Hin & Hrow). rewrite Hrow. split_and!; try done.
    + by eapply (pr_anchors _ _ _ _ _ _ _ _ _ _ _ P).
    + right. by exists bytes.
  - rewrite Ha in Hrow. apply list_elem_of_In, in_concat in Hrow as (l & Hl & Hrow).
    apply list_elem_of_In, list_elem_of_fmap in Hl as (x & -> & Hx).
    apply list_elem_of_In, list_elem_of_fmap in Hrow as (path & -> & Hpath).
    destruct (Hv x Hx) as (? & ? & ?). split_and!; [done..|]. left. exists x.1. split_and!; try done. by right.
Qed.

Lemma cm_required m g :
  m ∈ members → filtered_out a k m = false → required_group a k m = Some g →
  ∃ m', m' ∈ members ∧ required_group a k m' = Some g ∧ adopted_member k id m' w'.
Proof.
  intros Hm Hn Hg. destruct (pr_gathered _ _ _ _ _ _ _ _ _ _ _ P) as [_ _ _ _ _ _ Hgr Hd].
  specialize (Hd m g Hm Hn Hg). pose proof (pr_required _ _ _ _ _ _ _ _ _ _ _ P) as He.
  destruct (Hgr g) as (m' & Hm' & Hg').
  { destruct (decide (g ∈ lp_got st)); [done|]. exfalso.
    assert (g ∈ (∅ : gset string)) as Hx by (rewrite <-He; by apply elem_of_difference).
    by apply not_elem_of_empty in Hx. }
  apply cm_member_of in Hm' as [? ?]. by exists m'.
Qed.

Lemma cm_requestable m g arch :
  m ∈ members → indexTargetGroup (key_path k) (Path m) = Some (g, arch) →
  (arch = "all" ∨ ∃ allowed, architectureAllowlist a = Some allowed ∧ arch ∈ allowed) →
  ∃ m' arch', m' ∈ members ∧ indexTargetGroup (key_path k) (Path m') = Some (g, arch') ∧ adopted_member k id m' w'.
Proof.
  intros Hm Hg Harch. pose proof (pr_requestable _ _ _ _ _ _ _ _ _ _ _ P) as Hmiss.
  unfold missingRequestableIndexGroups in Hmiss.
  assert (groups_of (key_path k) members (requestable (architectureAllowlist a))
          ⊆ groups_of (key_path k) (lp_fetched st) (λ _, true)) as Hsub.
  { match type of Hmiss with sort_by _ (elements ?X) = _ => assert (X = ∅) as He end.
    { apply leibniz_equiv, elements_empty_inv, Permutation_nil_r. rewrite <-Hmiss. symmetry. apply sort_by_perm. }
    intros x Hx. apply dec_stable. intros Hn. apply (not_elem_of_empty (C := gset string) x).
    rewrite <-He. by apply elem_of_difference. }
  assert (g ∈ groups_of (key_path k) members (requestable (architectureAllowlist a))) as Hin.
  { unfold groups_of. apply elem_of_list_to_set, list_elem_of_omap. exists m. split; [done|].
    rewrite Hg. cbn. assert (requestable (architectureAllowlist a) arch = true) as ->; [|done].
    unfold requestable. destruct Harch as [->|(al & -> & Hal)]; [done|].
    apply orb_true_iff. right. by apply bool_decide_eq_true. }
  apply Hsub in Hin. unfold groups_of in Hin. apply elem_of_list_to_set, list_elem_of_omap in Hin as (f & Hf & Hfg).
  rewrite (ga_fetched _ _ _ _ _ _ _ (pr_gathered _ _ _ _ _ _ _ _ _ _ _ P)) in Hf.
  apply list_elem_of_fmap in Hf as (x & -> & Hx). cbn in Hfg.
  destruct (indexTargetGroup (key_path k) (Path x.1)) as [[g' arch']|] eqn:Hg'; [|done]. cbn in Hfg. simplify_eq.
  destruct (cm_member_of x.1) as [? ?]; [apply list_elem_of_fmap; eauto|]. by exists x.1, arch'.
Qed.

Lemma cm_others k' : k' ≠ k → suite_t (w_db w') !! k' = suite_t (w_db w) !! k' ∧
  ∀ path, LookupSnapshotMember (w_db w') k' path = LookupSnapshotMember (w_db w) k' path.
Proof.
  intros Hne. destruct (CommitAdoption_ok _ _ _ _ _ _ _ _ _ _ _ cm_wf Hcommit) as (_ & s & Hs & _ & _ & Hoth & _).
  destruct (pr_candidate _ _ _ _ _ _ _ _ _ _ _ P) as (s' & Hs' & Hd). simplify_eq.
  rewrite (ds_suite _ _ _ _ Hd) in Hoth. specialize (Hoth k' Hne).
  rewrite (sv_suites _ _ cm_serves) in Hoth. split; [done|]. intros path.
  destruct (CommitAdoption_only _ _ _ _ _ _ _ _ _ _ _ cm_wf Hcommit) as (_ & _ & _ & _ & Hrest).
  unfold LookupSnapshotMember, suite_current. rewrite Hoth.
  destruct (suite_t (w_db w) !! k') as [f|] eqn:Hf; [|done]. cbn.
  destruct (sf_current f) as [i|] eqn:Hi; [|done]. cbn. rewrite Hrest; [by rewrite (sv_members _ _ cm_serves)|].
  intros ->. rewrite <-(sv_suites _ _ cm_serves) in Hf.
  destruct (wf_current _ cm_wf _ _ _ Hf Hi) as (s2 & Hs2 & Hk2 & _). simplify_eq. by rewrite (ds_suite _ _ _ _ Hd) in Hne.
Qed.

Lemma cm_snapshot : ∃ s, snap_t (w_db w') !! id = Some s ∧ described k p text s ∧ is_Some (ss_adopted s).
Proof.
  destruct (CommitAdoption_only _ _ _ _ _ _ _ _ _ _ _ cm_wf Hcommit) as ((s & stamp & Hs & Hs') & _).
  destruct (pr_candidate _ _ _ _ _ _ _ _ _ _ _ P) as (s0 & Hs0 & Hd). simplify_eq.
  eexists. split; [exact Hs'|]. split; [by destruct Hd; split|by eexists].
Qed.

Lemma commit_adopted : adopted a k p w text members id w'.
Proof.
  destruct (CommitAdoption_only _ _ _ _ _ _ _ _ _ _ _ cm_wf Hcommit) as (_ & Hrows & Hskips & Hskipped & _).
  destruct (CommitAdoption_ok _ _ _ _ _ _ _ _ _ _ _ cm_wf Hcommit) as (Hwf' & s & Hs & _ & Hcur & _).
  pose proof (pr_gathered _ _ _ _ _ _ _ _ _ _ _ P) as Hg.
  split; try apply P; try done.
  - apply cm_others.
  - rewrite Hpool. apply (pr_serving _ _ _ _ _ _ _ _ _ _ _ P).
  - destruct (pr_candidate _ _ _ _ _ _ _ _ _ _ _ P) as (s0 & Hs0 & Hd). simplify_eq.
    by rewrite <-(ds_suite _ _ _ _ Hd).
  - apply cm_snapshot.
  - intros name bytes Hin. rewrite Hpool. split; [|by eapply (pr_anchors _ _ _ _ _ _ _ _ _ _ _ P)].
    apply (cm_lookup (member_row id name (sha256 bytes))). apply elem_of_app. right. apply elem_of_app. left.
    by apply cm_anchor_row.
  - intros path r Hr Hnew. destruct (Hrows path r Hr) as [Ho|(m & Hm & <- & ->)].
    { rewrite (sv_members _ _ cm_serves) in Ho. congruence. }
    destruct (cm_row m Hm) as (Heq & Hp & Hv). cbn. split_and!; [by rewrite Heq|done|done].
  - intros path r Hr Hnew. destruct (Hskips path r Hr) as [Ho|(x & Hx & <- & Hd)].
    { rewrite (sv_skips _ _ cm_serves) in Ho. congruence. }
    destruct (ga_skipped _ _ _ _ _ _ _ Hg x Hx) as (m & Hm & Hp & Hd' & Hopt). exists m. split_and!; try done. congruence.
  - intros m Hm. destruct (ga_all _ _ _ _ _ _ _ Hg m Hm) as [?|[Hgot|[?|[? Hsk]]]]; auto.
    + right; left. by apply cm_member_of.
    + right; right; right. split; [done|]. intros Hne. destruct (Hsk Hne) as (x & Hx & <-). by apply Hskipped.
  - apply cm_required.
  - apply cm_requestable.
Qed.
End commit.

(** *** How a run ends *)

Lemma anchors_ambient d0 p0 p :
  ambient (serving d0) (λ q, sound_files p0 q ∧ anchors_pooled p q).
Proof.
  destruct (serving_ambient d0 p0) as [? ? ? ? ? Hf Ha]. split; try done.
  - intros q h c [Hq Hp] Hc Hne. split; [by eapply Hf|]. intros name bytes Hin.
    by eapply (am_forget _ _ (pooled_ambient (sha256 bytes))); [eapply Hp| |].
  - intros q body [Hq Hp] Hn. split; [by apply Ha|]. intros name bytes Hin.
    by eapply (am_add _ _ (pooled_ambient (sha256 bytes))); [eapply Hp|].
Qed.

(** From the flip on. *)
Lemma flip_ends a k p w text members id anchors got st w5 first hashes prefetched r w' :
  prepared a k p w text members id anchors got st w5 →
  (_ ← flip a k p anchors first (commit_adoption id (snapshot_rows id p anchors st) (lp_skipped st)
          hashes.1 prefetched hashes.2); mret id) w5 = (r, w') →
  (∃ e, r = Err e) ∧ I (serving (w_db w)) (sound_files (w_pool w)) w' ∨
  adopted a k p w text members id w' ∧ heard id r.
Proof.
  intros P Hrun. pose proof (pr_serving _ _ _ _ _ _ _ _ _ _ _ P) as [HP HQ].
  apply io_bind_cases in Hrun as [(e & Hflip & ->)|([] & w6 & Hflip & Hrun)].
  - apply flip_cases in Hflip as [Hpool [[_ Hd]|[Hh (now & skipNow & Hc)]]].
    + left. split; [eauto|]. by split; rewrite ?Hd, ?Hpool.
    + right. split; [by eapply commit_adopted|]. destruct Hh as [|[[= ->] ?]]; [done|]. by right.
  - unfold mret, io_ret in Hrun. injection Hrun as <- <-. apply flip_cases in Hflip as [Hpool [[[e ?] _]|[_ (now & skipNow & Hc)]]]; [done|].
    right. split; [by eapply commit_adopted|by left].
Qed.

Lemma runShared_ends a k p etag lastmod w r w' :
  wf (w_db w) → runShared a k p etag lastmod w = (r, w') →
  (∃ e, r = Err e) ∧ I (serving (w_db w)) (sound_files (w_pool w)) w' ∨
  ∃ id text members, adopted a k p w text members id w' ∧ heard id r.
Proof.
  intros Hwf Hrun. unfold runShared in Hrun.
  set (Q := sound_files (w_pool w)). pose proof (serving_ambient (w_db w) (w_pool w)) as Hamb.
  assert (I (serving (w_db w)) Q w) as Hw.
  { split; [split; [done|apply serves_refl]|]. by intros h c Hh _. }
  apply io_bind_cases in Hrun as [(e & Hm & ->)|(prior & w1 & Hprior & Hrun)].
  { left. split; [eauto|]. eapply ambient_run; [intros; by apply amb_priorSnapshot|exact Hamb|exact Hm|exact Hw]. }
  apply priorSnapshot_ok in Hprior as Hp. destruct Hp as [Hd1 Hp].
  eapply ambient_run in Hw; [|intros; by apply amb_priorSnapshot|exact Hamb|exact Hprior].
  apply io_bind_cases in Hrun as [(e & Hm & ->)|([[text anchors] members] & w2 & Hread & Hrun)].
  { left. split; [eauto|]. eapply ambient_run; [intros; by apply amb_read_release|exact Hamb|exact Hm|exact Hw]. }
  destruct (read_release_ok _ _ _ _ _ _ _ _ Hread) as (Hauth & Hparse & Hcap & Hanch & Hpooled). rewrite Hd1 in Hauth.
  eapply ambient_run in Hw; [|intros; by apply amb_read_release|exact Hamb|exact Hread]. clear Hamb.
  set (Q2 := λ q, Q q ∧ anchors_pooled p q). assert (I (serving (w_db w)) Q2 w2) as Hw2 by (by destruct Hw).
  pose proof (anchors_ambient (w_db w) (w_pool w) p : ambient (serving (w_db w)) Q2) as Hamb. clear Hw.
  assert (∀ v, I (serving (w_db w)) Q2 v → I (serving (w_db w)) Q v) as Hweak by (by intros v [? []]).
  apply io_bind_cases in Hrun as [(e & Hm & ->)|(u1 & w3 & Hrec & Hrun)].
  { left. split; [eauto|]. apply Hweak. eapply ambient_run; [intros; by apply amb_record_anchors|exact Hamb|exact Hm|exact Hw2]. }
  eapply ambient_run in Hw2; [|intros; by apply amb_record_anchors|exact Hamb|exact Hrec].
  apply io_bind_cases in Hrun as [(e & Hm & ->)|(u2 & w4 & Hdate & Hrun)].
  { left. split; [eauto|]. apply Hweak. eapply ambient_run; [intros; by apply amb_check_date|exact Hamb|exact Hm|exact Hw2]. }
  eapply ambient_run in Hw2; [|intros; by apply amb_check_date|exact Hamb|exact Hdate].
  apply check_date_ok in Hdate as [Hnow Hold].
  match type of Hrun with (insert_candidate _ ?sc ≫= _) _ = _ =>
    pose proof (serving_candidate (w_db w) Q2 prior sc w4 Hw2) as Hw5 end.
  apply io_bind_cases in Hrun as [(e & Hm & ->)|(cid & w5 & Hins & Hrun)].
  { left. split; [eauto|]. apply Hweak. by rewrite Hm in Hw5. }
  rewrite Hins in Hw5. cbn in Hw5.
  apply insert_candidate_ok in Hins as Hcand; [|apply Hw2|done].
  apply io_bind_cases in Hrun as [(e & Hm & ->)|([[st hashes] prefetched] & w6 & Hfill & Hrun)].
  { left. split; [eauto|]. apply Hweak. eapply ambient_run; [intros; by apply amb_fill_candidate|exact Hamb|exact Hm|exact Hw5]. }
  destruct (fill_candidate_ok _ _ _ _ _ _ _ _ _ _ _ _ (ParseRelease_members _ _ Hparse) Hfill) as ([got Hg] & Hreq & Hmiss).
  eapply ambient_run in Hw5; [|intros; by apply amb_fill_candidate|exact Hamb|exact Hfill].
  assert (I (candidate cid k p text) (λ _, True) w6) as [Hcand6 _].
  { eapply ambient_run; [intros; by apply amb_fill_candidate|apply candidate_ambient|exact Hfill|done]. }
  eapply (flip_ends a k p w text members cid anchors got st w6) in Hrun as [?|[? ?]]; [by left|right; eauto|].
  split; try done; [|by apply Hweak|split; [done|by destruct Hw5 as [_ []]]].
  intros pid s0 date Hc Hs0. apply (Hold pid). rewrite Hp, Hc. cbn. by rewrite Hs0.
Qed.

(** C12. A failed adoption keeps the prior snapshot served: whatever step a run
    fails at, and whatever the servers, the verifier, the disk and the
    barrier did, no suite row, cached path, snapshot member, skip record or
    package row has changed, every adopted snapshot is as it was but for its
    heartbeat, every blob keeps its row and its reference count, no
    signed-seen marker moved back, and every file of the pool that was what
    its name says is still there; so every lookup of a member through a suite's
    current snapshot answers as before.  There is one other way to fail: the
    database commits the flip and its answer does not reach the run, whose
    context has ended; then the run fails with a database error, and its suite
    is the one an adoption that answers leaves. *)
Theorem failed_adoption_serves a k p etag lastmod w e w' :
  wf (w_db w) →
  runShared a k p etag lastmod w = (Err e, w') →
  (wf (w_db w') ∧ serves (w_db w) (w_db w') ∧ sound_files (w_pool w) (w_pool w') ∧
   ∀ k' member, LookupSnapshotMember (w_db w') k' member = LookupSnapshotMember (w_db w) k' member) ∨
  (e = DBFailed None ∧ (∃ n, lost n = true) ∧ ∃ id text members, adopted a k p w text members id w').
Proof.
  intros Hwf Hrun.
  destruct (runShared_ends _ _ _ _ _ _ _ _ Hwf Hrun) as [[_ [[Hwf' Hs] Hp]]|(id & text & members & Had & Hh)].
  - left. split_and!; [done..|]. intros k' member. unfold LookupSnapshotMember, suite_current.
    by rewrite (sv_suites _ _ Hs), (sv_members _ _ Hs).
  - right. destruct Hh as [|[[= ->] Hl]]; [done|]. eauto 10.
Qed.

(** C14. A run that answers has adopted exactly the content its Release vouches
    for.  The text it read is vouched for by a signature (or is an unsigned one
    that the switch allows, of a suite without signed history, within the
    cap), and its Date is neither ahead of the clock nor behind the snapshot
    that was current.  The suite's current snapshot is now the one answered:
    its row has the payload's form, the text's Date and the digests of the
    anchors' bytes, which are served as its anchors; every member row it added
    is a pooled file that matches the hashes a declared member of that path
    (or of that by-hash name) has, or an anchor; every declared member is
    served so, or outside the allowlist, or answered 404 or 410 by the
    upstream, or an optional one whose failure is tolerated and recorded; every
    required and every requestable index has a variant served; other suites'
    rows and lookups are untouched, no sound file of the pool is lost and the
    database invariant holds. *)
Theorem adopted_run_sound a k p etag lastmod w id w' :
  wf (w_db w) →
  runShared a k p etag lastmod w = (Ok id, w') →
  ∃ text members, adopted a k p w text members id w'.
Proof.
  intros Hwf Hrun.
  destruct (runShared_ends _ _ _ _ _ _ _ _ Hwf Hrun) as [[[e ?] _]|(id' & text & members & Had & Hh)]; [done|].
  destruct Hh as [[= ->]|[? _]]; [eauto|done].
Qed.
End sound.
