(* ===== verification/Handler.v ===== *)
(** * Serving a request (internal/handler handler.go, suite_rows.go,
    validators.go)

    One client request from its first byte to the response and the work it
    leaves to goroutines: the snapshot of the suite, the cached path, the
    declared hashes of a package, strict mode, by-hash provenance, the fetch
    and its verification, the suite's row, the errors.

    The request runs in the world of [MemberFetch]: before each of its reads,
    statements and file operations the other goroutines of the program - other
    requests, adoptions, the collectors - may have changed the world in any way
    ([others]).  A call of the coalescing group that joins another request's run
    gets the result of that run, which began in a state of its own before the
    call.  The handler's own state is the rejection map and what the request
    knows about its suite. *)
From stdpp Require Import pretty.
From S2P Require Import Prelude GoStrings AptPath GoText Tables Invariant Snapshots Suites GC Rows Declared Proxy Fetch MemberFetch Adoption SeedRejections HTTPContent.
Local Open Scope Z_scope.

(** ** The request, the response, the configuration *)

Record HTTPRequest := {
  hr_method : string; hr_uri : string; hr_conditions : Conditions }.

Inductive Body :=
| Text (msg : string)
| File (hash content : string) (slices : list (Z * Z)).

(** Of the headers, those the handler sets itself. *)
Record Response := { rs_status : Z; rs_headers : gmap string string; rs_body : Body }.

Record Config := {
  cf_parser : Parser;
  cf_connect : bool;              (** a CONNECT handler is wired *)
  cf_freshness : bool;            (** a freshness checker is wired *)
  cf_adoptions : bool;            (** an adoption waiter is wired *)
  serveStaleWhenUpstreamDown : bool;
  refuseUnvouchedDebs : bool;
  adoptionEnabled : bool;
  gateEnabled : bool;             (** the flip gate *)
  keepDisplaced : Z;
  maxSuites : Z }.

(** What a download answers with. *)
Record Download := { dl_body : string; dl_result : FetchResult }.

(** A request whose run others join, what it knew, and the state that run began
    in. *)
Record Leader := {
  ld_req : Request; ld_tracked : bool; ld_world : World; ld_rejections : seedRejections }.

(** What is outside the request.  Events are numbered as in [Env]. *)
Class Traffic := {
  others : nat → World → World;
  others_rejected : nat → seedRejections → seedRejections;
  read_fault : nat → bool;
  client_gone : nat → bool;
  HostAllowed : string → bool;
  upstream : nat → Target → result Fetch.fetch_error Download;
  adoptions_in_flight : nat → string → bool;
  adoption_ended : nat → bool;          (** [WaitHostAdoptions] *)
  joins : nat → option Leader;          (** the run a call of [Do] joins *)
  holds : nat → SuiteKey → bool;        (** the guard's hold on an eviction candidate *)
  flat_flag : nat → bool;               (** [Cache.flatRows] *)
  touch_due : nat → SuiteKey → bool;    (** the touch throttle lets a touch through *)
}.

(** ** The monad of a request *)

(** [suiteReq] *)
Record suiteReq := { sr_key : SuiteKey; sr_file : SuiteFile; sr_tracked : bool; sr_tok : bool }.

(** The goroutines a request starts. *)
Inductive Job :=
| TouchAsync (touchURL : option URLKey) (suites : list SuiteKey)
| RecordByHash (req : Request) (hash : string)
| FreshnessCheck (k : SuiteKey).

Record HState := {
  hs_world : World; hs_rejections : seedRejections; hs_sr : suiteReq; hs_jobs : list Job }.

Definition hio (A : Type) : Type := HState → A * HState.

#[export] Instance hio_ret : MRet hio := λ A a s, (a, s).
#[export] Instance hio_bind : MBind hio := λ A B f m s, let '(a, s) := m s in f a s.

Section handler.
Context `{TableScan} `{Env} `{HTTPTime} `{Traffic}.
Context (h : Config).

Definition set_world (w : World) (s : HState) : HState :=
  {| hs_world := w; hs_rejections := hs_rejections s; hs_sr := hs_sr s; hs_jobs := hs_jobs s |}.

(** The next event: what the others did, then its number. *)
Definition tick : hio nat := λ s,
  let n := w_tick (hs_world s) in
  let w := others n (hs_world s) in
  (n, {| hs_world := {| w_db := w_db w; w_pool := w_pool w; w_tick := S n |};
         hs_rejections := others_rejected n (hs_rejections s); hs_sr := hs_sr s; hs_jobs := hs_jobs s |}).

(** A program of [MemberFetch] as one step. *)
Definition lift {E A} (m : io E A) : hio (result E A) := λ s,
  let '(r, w) := m (hs_world s) in (r, set_world w s).
Definition after_others {E A} (m : io E A) : hio (result E A) := _ ← tick; lift m.

Definition world : hio World := λ s, (hs_world s, s).
Definition get_sr : hio suiteReq := λ s, (hs_sr s, s).
Definition set_sr (f : suiteReq → suiteReq) : hio unit := λ s,
  (tt, {| hs_world := hs_world s; hs_rejections := hs_rejections s; hs_sr := f (hs_sr s); hs_jobs := hs_jobs s |}).
Definition set_tracked (b : bool) : hio unit :=
  set_sr (λ r, {| sr_key := sr_key r; sr_file := sr_file r; sr_tracked := b; sr_tok := sr_tok r |}).
Definition set_tok (b : bool) : hio unit :=
  set_sr (λ r, {| sr_key := sr_key r; sr_file := sr_file r; sr_tracked := sr_tracked r; sr_tok := b |}).
Definition spawn (j : Job) : hio unit := λ s,
  (tt, {| hs_world := hs_world s; hs_rejections := hs_rejections s; hs_sr := hs_sr s; hs_jobs := hs_jobs s ++ [j] |}).
Definition rejections {A} (f : seedRejections → A * seedRejections) : hio A := λ s,
  let '(a, r) := f (hs_rejections s) in
  (a, {| hs_world := hs_world s; hs_rejections := r; hs_sr := hs_sr s; hs_jobs := hs_jobs s |}).

(** A read of the database: [None] when it failed. *)
Definition read {A} (f : nat → DB → A) : hio (option A) :=
  n ← tick; w ← world; mret (if read_fault n then None else Some (f n (w_db w))).

(** A file of the pool, opened. *)
Definition open_blob (hash : string) : hio (option string) :=
  n ← tick; w ← world; mret (if read_fault n then None else w_pool w !! hash).

Definition now : hio Z := n ← tick; mret (clock n).
Definition clientLeft : hio bool := n ← tick; mret (client_gone n).

(** ** Keys and classes *)

Definition url_key (req : Request) : URLKey := (rq_scheme req, rq_host req, rq_path req).
Definition suiteKeyOf (req : Request) : SuiteKey := (rq_scheme req, rq_host req, rq_suite req).

Definition newSuiteReq (req : Request) : suiteReq :=
  if rq_metadata req && negb (rq_suite req =? "")%string
  then {| sr_key := suiteKeyOf req; sr_file := ClassifySuiteFile (rq_suite req) (rq_path req);
          sr_tracked := false; sr_tok := false |}
  else {| sr_key := zero_key; sr_file := NotSuiteFile; sr_tracked := false; sr_tok := false |}.

Definition isDebPath (p : string) : bool := has_suffix ".deb" p.

Definition suiteRelativePath (suitePath fullPath : string) : string :=
  match cut_prefix fullPath (suitePath +:+ "/") with Some r => r | None => fullPath end.

Definition retryAfterForRequest (req : Request) : string := if rq_metadata req then "30" else "60".

(** ** Declared hashes *)

Fixpoint distinct_from (seen : list string) (rows : list DeclaredHash) : list string :=
  match rows with
  | [] => []
  | r :: rows =>
      if bool_decide (dh_sha256 r ∈ seen) then distinct_from seen rows
      else dh_sha256 r :: distinct_from (dh_sha256 r :: seen) rows
  end.
Definition distinctDeclared (rows : list DeclaredHash) : list string := distinct_from [] rows.

Definition firstPackageName (rows : list DeclaredHash) (hash : string) : string :=
  match List.find (λ r, String.eqb (dh_sha256 r) hash) rows with Some r => dh_package r | None => "" end.

Fixpoint vouching_from (out : list string) (rows : list DeclaredHash) (hash : string) : list string :=
  match rows with
  | [] => out
  | r :: rows =>
      vouching_from (if String.eqb (dh_sha256 r) hash && negb (bool_decide (dh_suite r ∈ out))
                     then out ++ [dh_suite r] else out) rows hash
  end.
Definition vouchingSuites (rows : list DeclaredHash) (hash : string) : list string := vouching_from [] rows hash.

Record packageValidation := { pv_validated : bool; pv_package : string; pv_suites : list string }.
Definition not_validated : packageValidation := {| pv_validated := false; pv_package := ""; pv_suites := [] |}.

Definition validated_by (rows : list DeclaredHash) (hash : string) : packageValidation :=
  {| pv_validated := true; pv_package := firstPackageName rows hash; pv_suites := vouchingSuites rows hash |}.

Definition vouchedSuites (req : Request) (v : packageValidation) (status : Z) : list SuiteKey :=
  if negb (pv_validated v) || (400 <=? status) then []
  else map (λ s, (rq_scheme req, rq_host req, s)) (pv_suites v).

Definition servedSuite (sr : suiteReq) (status : Z) : list SuiteKey :=
  if negb (Touches (sr_file sr)) || negb (sr_tracked sr) || (400 <=? status) then [] else [sr_key sr].

Definition declared (req : Request) : hio (option (list DeclaredHash)) :=
  read (λ n d, DeclaredHashesForPath d (flat_flag n) (rq_scheme req) (rq_host req) (rq_path req)).

(** ** Strict mode *)

Inductive strictModeOutcome := strictInactive | strictRefuse | strictPassthrough | strictCanceled.

(** The outcome for the coverage of the host's current snapshots. *)
Definition strict_outcome (rows : list (Z * bool)) : strictModeOutcome :=
  if (length rows =? 0)%nat then strictInactive
  else if existsb (λ r, negb r.2) rows then strictPassthrough
  else strictRefuse.

(** [gone] is whether the context the caller passes may be the client's. *)
Definition classifyStrictMode (client : bool) (req : Request) : hio strictModeOutcome :=
  if negb (refuseUnvouchedDebs h) || negb (adoptionEnabled h) then mret strictInactive
  else
    rows ← read (λ _ d, HostCurrentSnapshotsCoverage d (rq_scheme req) (rq_host req));
    match rows with
    | None =>
        n ← tick;
        mret (if client && client_gone n || negb client && cancelled n then strictCanceled else strictInactive)
    | Some rows => mret (strict_outcome rows)
    end.

(** ** Responses *)

Definition http_error (status : Z) (headers : list (string * string)) (msg : string) : Response :=
  {| rs_status := status; rs_headers := list_to_map headers; rs_body := Text msg |}.

Definition client_left : Response := http_error 503 [("Retry-After", "5")] "service unavailable".
Definition fail_closed (reason : string) : Response := http_error 502 [("Retry-After", "30")] reason.
Definition unvouched_refused : Response :=
  http_error 502 [("Retry-After", "60")] "unvouched .deb refused (strict mode)".
Definition hash_conflict : Response := http_error 502 [("Retry-After", "60")] "package hash conflict".

(** The entity tag of a blob, with its quotes. *)
Definition blob_etag (hash : string) : string := String quote ("sha256-" +:+ hash +:+ String quote "").

(** [serveContent], with what was set before it: the date is the row's, or the
    one recorded for the representation. *)
Definition serveContent (r : HTTPRequest) (req : Request) (hash content : string)
    (lastmod : option string) (headers : list (string * string)) : hio Response :=
  date ← match lastmod with
         | Some v => t ← now; mret (HTTPDate t v)
         | None => d ← read (λ n d, RepresentationLastModified d (url_key req) hash (clock n));
                   mret (default "" d)
         end;
  let c := ServeContent (hr_method r =? "HEAD")%string (hr_conditions r) (blob_etag hash) (len content) in
  mret {| rs_status := ct_status c;
          rs_headers := list_to_map
            ((if ct_date c && negb (date =? "")%string then [("Last-Modified", date)] else []) ++
             (if ct_etag c then [("ETag", blob_etag hash)] else []) ++
             (if (ct_range c =? "")%string then [] else [("Content-Range", ct_range c)]) ++ headers);
          rs_body := File hash content (ct_slices c) |}.

Definition age_header (lastFetched : option Z) : hio (list (string * string)) :=
  match lastFetched with
  | None => mret []
  | Some t => n ← now; mret [("X-Cache-Age", pretty (Z.max 0 (n - t)))]
  end.

(** [snapshotMeta]: a snapshot id of zero is none. *)
Definition serveBlobWithHeaders (r : HTTPRequest) (req : Request) (hash : string) (snapshotID : Z)
    (lastFetched : option Z) (lastmod : option string) : hio (option Response) :=
  exists_ ← open_blob hash;   (* BlobExists *)
  if negb (validBlobHash hash) || negb (is_set exists_) then mret None
  else
    f ← open_blob hash;
    match f with
    | None => mret None
    | Some content =>
        age ← age_header lastFetched;
        rs ← serveContent r req hash content lastmod
               ([("X-Cache", "HIT")]
                ++ (if 0 <? snapshotID then [("X-Cache-Snapshot", pretty snapshotID)] else []) ++ age);
        mret (Some rs)
    end.

Definition urlLastModified (row : URLPath) : option string :=
  match up_lastmod row with Some v => Some v | None => Some "" end.

Definition maybeFireFreshness (req : Request) : hio unit :=
  if negb (cf_freshness h) || negb (rq_metadata req) || (rq_suite req =? "")%string then mret tt
  else spawn (FreshnessCheck (suiteKeyOf req)).

(** ** The flip gate *)

Definition barrierAnchor (req : Request) : bool :=
  gateEnabled h && rq_metadata req && negb (rq_suite req =? "")%string
  && ((rq_path req =? rq_suite req +:+ "/InRelease")%string || (rq_path req =? rq_suite req +:+ "/Release")%string).

(** Registers with the gate, waiting for a flip that holds the suite's anchors:
    whether there is a token. *)
Definition anchorStart (req : Request) : hio bool :=
  if negb (barrierAnchor req) then mret false
  else
    ex ← read (λ _ d, HasSuiteRow d (suiteKeyOf req));
    match ex with
    | Some false => mret false
    | Some true => _ ← tick; mret true
    | None => gone ← clientLeft; if (gone : bool) then mret true else _ ← tick; mret true
    end.

Definition registerLate (req : Request) : hio bool :=
  sr ← get_sr;
  if sr_tok sr || negb (sr_tracked sr) then mret false
  else t ← anchorStart req; _ ← set_tok t; mret t.
(** ** By-hash paths *)

(** [byHashSuffixRegex]: /by-hash/SHA256/ and 64 hexadecimal digits at the end. *)
Definition byHashSuffix (p : string) : option string :=
  match rev (split_byte slash p) with
  | x :: algo :: dir :: _ :: _ =>
      if (dir =? "by-hash")%string && (algo =? "SHA256")%string && hex64RE x then Some x else None
  | _ => None
  end.

(** [byHashMemberRE]: the SHA256 digest, empty for a SHA512 name. *)
Definition byHashMember (p : string) : option string :=
  match rev (split_byte slash p) with
  | x :: algo :: dir :: _ =>
      if negb (dir =? "by-hash")%string then None
      else if (algo =? "SHA256")%string && hex64RE x then Some x
      else if (algo =? "SHA512")%string && hex128RE x then Some ""
      else None
  | _ => None
  end.

Fixpoint serve_displaced (r : HTTPRequest) (req : Request) (want : string) (rows : list (Z * Member))
    : hio (option Response) :=
  match rows with
  | [] => mret None
  | (id, m) :: rows =>
      if negb (want =? "")%string && negb (m_blob m =? want)%string then serve_displaced r req want rows
      else
        rs ← serveBlobWithHeaders r req (m_blob m) id None None;
        match rs with
        | Some rs => mret (Some rs)
        | None => serve_displaced r req want rows
        end
  end.

Definition tryDisplacedByHash (r : HTTPRequest) (req : Request) (currentID : Z) (memberPath : string)
    : hio (option Response) :=
  if keepDisplaced h <=? 0 then mret None
  else match byHashMember memberPath with
  | None => mret None
  | Some want =>
      rows ← read (λ _ d, DisplacedSnapshotMembers d (suiteKeyOf req) memberPath currentID (keepDisplaced h + 1));
      match rows with
      | None => mret None
      | Some rows => serve_displaced r req want rows
      end
  end.

(** ** Results of a coalesced run *)

Inductive herror :=
| EFetch (e : Fetch.fetch_error)
| EMetadataChanged
| EHashMismatch
| EHashConflict
| ESnapshotMemberMismatch
| EUnvouchedRefused
| EUnvouchedRetryable
| EOther.

Definition is_fetch (e : herror) (s : sentinel) : bool :=
  match e with EFetch f => errors_is f s | _ => false end.

(** Of a request's own context, ended. *)
Definition ECanceled : herror := EFetch (Transport Canceled).

Record sfResult := {
  res_blobHash : string; res_status : Z; res_err : option herror; res_validation : packageValidation;
  res_suiteTracked : bool; res_created : bool; res_unproven : bool; res_lastModified : string }.

Definition failed (e : herror) (status : Z) : sfResult :=
  {| res_blobHash := ""; res_status := status; res_err := Some e; res_validation := not_validated;
     res_suiteTracked := false; res_created := false; res_unproven := false; res_lastModified := "" |}.

(** The error branch of a step ends the run with its result. *)
Definition attempt {A} (m : hio (result sfResult A)) (k : A → hio sfResult) : hio sfResult :=
  r ← m; match r with Ok a => k a | Err res => mret res end.

(** The state a run that is under way began in.  Its events have numbers of their
    own, from the one that state's world counts. *)
Definition leading (l : Leader) : HState :=
  {| hs_world := ld_world l; hs_rejections := ld_rejections l; hs_sr := newSuiteReq (ld_req l); hs_jobs := [] |}.

(** A run that is under way gives a caller its result.  It began where its own
    request was, before this call; what it wrote, and will have written when it
    ends, is among what the others do. *)
Definition join {A} (l : Leader) (run : hio A) : hio A := λ s, ((run (leading l)).1, s).

(** A call of the group: joined, when the run it finds is of the same key. *)
Definition Do {A} (same : Leader → bool) (run : option Leader → hio A) : hio (A * bool) :=
  n ← tick;
  match joins n with
  | Some l => if same l then a ← join l (run (Some l)); mret (a, true) else a ← run None; mret (a, false)
  | None => a ← run None; mret (a, false)
  end.

(** The key of a fetch is the scheme, host and path, of which the class and the
    suite of a request are functions. *)
Definition same_fetch (req : Request) (l : Leader) : bool :=
  bool_decide (url_key (ld_req l) = url_key req) && Bool.eqb (rq_metadata (ld_req l)) (rq_metadata req)
  && (rq_suite (ld_req l) =? rq_suite req)%string.

Definition same_suite (req : Request) (l : Leader) : bool :=
  bool_decide (suiteKeyOf (ld_req l) = suiteKeyOf req) && rq_metadata (ld_req l).

(** The host's slot: refused only when the handler shuts down. *)
Definition acquire : hio (result sfResult unit) :=
  n ← tick; mret (if cancelled n then Err (failed ECanceled 0) else Ok tt).

Definition NewTempBlob : hio (result sfResult unit) :=
  n ← tick; mret (if disk_fault n then Err (failed EOther 0) else Ok tt).

Definition download (req : Request) : hio (result sfResult Download) :=
  n ← tick;
  mret match upstream n {| Fetch.CanonicalHost := rq_host req; t_URL := rq_upstream req |} with
       | Ok d => Ok d
       | Err e => Err (failed (EFetch e) (default 0 (as_status e)))
       end.

(** A statement whose failure ends the run. *)
Definition stored {A} (m : Z → T A) (status : Z) : hio (result sfResult A) :=
  r ← after_others (sql m);
  mret match r with
       | Ok a => Ok a
       | Err (DBFailed (Some ErrMetadataChanged)) => Err (failed EMetadataChanged status)
       | Err _ => Err (failed EOther status)
       end.

(** ** The recovery of a snapshot member *)

Definition runSnapshotMemberFetch (req : Request) (m : Member) : hio sfResult :=
  attempt acquire (λ _,
  attempt NewTempBlob (λ _,
  attempt (download req) (λ d,
  let f := dl_result d in
  r ← after_others (FinalizeExpectingHash (dl_body d) (m_declared m) (fr_ContentLength f));
  match r with
  | Err (VMismatch _ _ _) => mret (failed ESnapshotMemberMismatch (fr_Status f))
  | Err _ => mret (failed EOther (fr_Status f))
  | Ok hash =>
      attempt (stored (PutBlob hash (fr_ContentLength f)) (fr_Status f)) (λ _,
      attempt (stored (PutRepresentation (url_key req) hash (fr_LastModified f)) 0) (λ _,
      mret {| res_blobHash := hash; res_status := fr_Status f; res_err := None;
              res_validation := not_validated; res_suiteTracked := false; res_created := false;
              res_unproven := false; res_lastModified := fr_LastModified f |}))
  end))).

Definition upstream_header (status : Z) : list (string * string) :=
  if 0 <? status then [("X-Upstream-Status", pretty status)] else [].

Definition recovery_error (res : sfResult) : Response :=
  http_error 502 (("Retry-After", "30") :: upstream_header (res_status res)) "snapshot member recovery failed".

Definition serveSnapshotMemberMiss (r : HTTPRequest) (req : Request) (m : Member) (snapshotID : Z)
    : hio Response :=
  c ← Do (same_fetch req) (λ l, runSnapshotMemberFetch (match l with Some l => ld_req l | None => req end) m);
  let res := c.1 in
  match res_err res with
  | Some _ => mret (recovery_error res)
  | None =>
      f ← open_blob (res_blobHash res);
      match f with
      | None => mret (http_error 502 [("Retry-After", "30")] "post-fetch blob missing")
      | Some content =>
          serveContent r req (res_blobHash res) content (Some (res_lastModified res))
            ([("X-Cache", "MISS"); ("X-Cache-Snapshot", pretty snapshotID); ("X-Cache-Age", "0")]
             ++ upstream_header (res_status res))
      end
  end.

(** ** The hit path of a suite's metadata *)

Definition touch_and_fire (req : Request) (suites : list SuiteKey) : hio unit :=
  _ ← spawn (TouchAsync (Some (url_key req)) suites); maybeFireFreshness req.

(** The answer of the current snapshot [id]. *)
Definition from_current (r : HTTPRequest) (req : Request) (sr : suiteReq) (id : Z) : hio (option Response) :=
  let memberPath := suiteRelativePath (rq_suite req) (rq_path req) in
  mem ← read (λ _ d, GetSnapshotMember d id memberPath);
  match mem with
  | None => mret (Some (fail_closed "snapshot lookup failed"))
  | Some (Err _) =>
      rs ← tryDisplacedByHash r req id memberPath;
      match rs with
      | Some rs => _ ← touch_and_fire req []; mret (Some rs)
      | None => mret (Some (http_error 404 [] "not in snapshot"))
      end
  | Some (Ok m) =>
      rs ← serveBlobWithHeaders r req (m_blob m) id None None;
      match rs with
      | Some rs => _ ← touch_and_fire req (servedSuite sr (rs_status rs)); mret (Some rs)
      | None =>
          rs ← serveSnapshotMemberMiss r req m id;
          let suites := servedSuite sr (rs_status rs) in
          _ ← (if (length suites =? 0)%nat then mret tt else spawn (TouchAsync None suites));
          mret (Some rs)
      end
  end.

Definition trySnapshotHit (r : HTTPRequest) (req : Request) : hio (option Response) :=
  suite ← read (λ _ d, GetSuiteFreshness d (suiteKeyOf req));
  match suite with
  | None => mret (Some (fail_closed "suite lookup failed"))
  | Some (Err _) => _ ← set_tracked false; mret None
  | Some (Ok f) =>
      _ ← set_tracked true;
      sr ← get_sr;
      if negb (sr_tok sr) && barrierAnchor req then mret None
      else match sf_current f with
           | None => mret None
           | Some id => from_current r req sr id
           end
  end.

(** ** The declared hash of a cached package *)

(** What the check of a cached row's blob says: respond, treat the row as a
    miss, or serve it. *)
Inductive verdict :=
| Respond (rs : Response)
| FallThrough
| Pass (v : packageValidation).

Definition checkDeclared (req : Request) (blobHash : string) (rows : list DeclaredHash) : hio verdict :=
  match distinctDeclared rows with
  | [d] =>
      if (d =? blobHash)%string then mret (Pass (validated_by rows d))
      else _ ← after_others (sql (EvictURLPath (url_key req))); mret FallThrough
  | _ => mret (Respond hash_conflict)
  end.

(** The second look of a refusal when no adoption is under way. *)
Definition recheckRefusal (req : Request) (blobHash : string) : hio verdict :=
  rows ← declared req;
  match rows with
  | None =>
      gone ← clientLeft;
      mret (Respond (if (gone : bool) then client_left else unvouched_refused))
  | Some [] => mret (Respond unvouched_refused)
  | Some rows => checkDeclared req blobHash rows
  end.

(** [mayWait] with the number of waits left: one at most. *)
Fixpoint checkPackageHashWait (waits : nat) (req : Request) (blobHash : string) : hio verdict :=
  rows ← declared req;
  match rows with
  | None =>
      gone ← clientLeft;
      mret (if (gone : bool) then Respond client_left else Pass not_validated)
  | Some rows =>
      if (length (distinctDeclared rows) =? 0)%nat then
        if negb (isDebPath (rq_path req)) then mret (Pass not_validated)
        else
          sm ← classifyStrictMode true req;
          match sm with
          | strictCanceled => mret (Respond client_left)
          | strictRefuse =>
              match waits with
              | O => mret (Respond unvouched_refused)
              | S waits =>
                  if negb (cf_adoptions h) then mret (Respond unvouched_refused)
                  else
                    n ← tick;
                    if negb (adoptions_in_flight n (rq_host req)) then recheckRefusal req blobHash
                    else
                      n ← tick;
                      gone ← clientLeft;
                      if (gone : bool) then mret (Respond client_left)
                      else if adoption_ended n then checkPackageHashWait waits req blobHash
                      else mret (Respond unvouched_refused)
              end
          | strictInactive | strictPassthrough => mret (Pass not_validated)
          end
      else checkDeclared req blobHash rows
  end.

Definition checkPackageHash : Request → string → hio verdict := checkPackageHashWait 1.

(** ** The suite's row *)

Definition suiteCaps : SuiteCaps := {| cap_global := maxSuites h; cap_per_host := maxSuites h / 10 |}.

Definition nonempty (s : string) : option string := if (s =? "")%string then None else Some s.

Definition is_release (f : SuiteFile) : bool :=
  match f with FileInRelease | FileRelease => true | _ => false end.

Definition suiteSeed (k : SuiteKey) (file : SuiteFile) (miss : bool) (etag lastmod : string) (t : Z) : SuiteSeed :=
  let check := miss && negb (adoptionEnabled h) && is_release file in
  {| sd_key := k; sd_requested := t; sd_signed_seen := 0; sd_cached := [];
     sd_last_check := if check then Some t else None; sd_last_success := if check then Some t else None;
     sd_etag := if check then nonempty etag else None;
     sd_lastmod := if check then nonempty lastmod else None |}.

Definition with_marks (s : SuiteSeed) (seen : Z) (cached : list CachedAnchor) : SuiteSeed :=
  {| sd_key := sd_key s; sd_requested := sd_requested s; sd_signed_seen := seen; sd_cached := cached;
     sd_last_check := sd_last_check s; sd_last_success := sd_last_success s; sd_etag := sd_etag s;
     sd_lastmod := sd_lastmod s |}.

Definition noteCreate (k : SuiteKey) (res : CreateResult) : hio unit :=
  if negb (Rejected (cr_outcome res)) then mret tt
  else t ← now;
       rejections (λ r, (tt, add k (if cr_busy res then seedRejectBusyTTL else seedRejectTTL) t r)).

Definition readHead (hash : string) (n : Z) : hio (option string) :=
  c ← open_blob hash; mret (take_bytes (Z.to_nat n) <$> c).

Definition signedAnchorNames : list string := ["/InRelease"; "/Release.gpg"].

(** The cached row of an anchor and whether its blob passes the sniff; [None]
    when a read failed. *)
Definition readCachedAnchor (k : SuiteKey) (p : string) : hio (option (option URLPath * bool)) :=
  row ← read (λ _ d, LookupURL d (key_scheme k, key_host k, p));
  match row with
  | None => mret None
  | Some (Err _) => mret (Some (None, false))
  | Some (Ok u) =>
      match up_blob u with
      | None => mret (Some (Some u, false))
      | Some b =>
          let file := ClassifySuiteFile (key_path k) p in
          head ← readHead b (HeadBytes file);
          match head with
          | None => mret None
          | Some head => mret (Some (Some u, Sniff file p head))
          end
      end
  end.

Definition cached_anchor (p : string) (o : option (option URLPath * bool)) : CachedAnchor :=
  match o with
  | Some (Some u, signed) =>
      match up_blob u with
      | Some b => {| ca_path := p; ca_blob := b; ca_signed := signed; ca_seen := LastUse u |}
      | None => {| ca_path := p; ca_blob := ""; ca_signed := false; ca_seen := 0 |}
      end
  | _ => {| ca_path := p; ca_blob := ""; ca_signed := false; ca_seen := 0 |}
  end.

Fixpoint cached_from (names : list string) (k : SuiteKey) (except : string) : hio (list CachedAnchor) :=
  match names with
  | [] => mret []
  | name :: names =>
      let p := key_path k +:+ name in
      if (p =? except)%string then cached_from names k except
      else
        o ← readCachedAnchor k p;
        rest ← cached_from names k except;
        mret (cached_anchor p o :: rest)
  end.
Definition cachedAnchors : SuiteKey → string → hio (list CachedAnchor) := cached_from signedAnchorNames.

Fixpoint anchor_marks (names : list string) (k : SuiteKey) (except : string) : hio (list (SuiteKey * Z)) :=
  match names with
  | [] => mret []
  | name :: names =>
      let p := key_path k +:+ name in
      if (p =? except)%string then anchor_marks names k except
      else
        o ← readCachedAnchor k p;
        t ← now;
        rest ← anchor_marks names k except;
        mret match o with
             | Some (Some u, true) => (base_key k, if LastUse u <=? 0 then t else LastUse u) :: rest
             | _ => rest
             end
  end.

Definition markCachedSignedAnchors (k : SuiteKey) (except : string) : hio unit :=
  marks ← anchor_marks signedAnchorNames k except;
  if (length marks =? 0)%nat then mret tt
  else _ ← after_others (sql (λ _, mark_chunk marks)); mret tt.

(** One attempt at a transaction that may create a row: the candidate held for
    eviction, the transaction with it. *)
Definition creationAttempt {A} (create : bool) (tx : option SuiteKey → Z → T A) (status : Z)
    : hio (result sfResult (A * bool)) :=
  held ← (if create then
            o ← read (λ n d, holdEvictionCandidate d suiteCaps (holds n) (clock n));
            mret match o with None => Err (failed EOther status) | Some hb => Ok hb end
          else mret (Ok (None, false)));
  match held with
  | Err e => mret (Err e)
  | Ok (held, busy) =>
      r ← stored (tx held) status;
      mret match r with Ok a => Ok (a, busy) | Err e => Err e end
  end.

(** A refusal for want of a candidate, while there were some. *)
Definition note_busy (busy : bool) (c : CreateResult) : CreateResult :=
  match cr_outcome c with
  | SuiteRejectedGlobal =>
      {| cr_outcome := cr_outcome c; cr_evicted := cr_evicted c; cr_unproven := cr_unproven c;
         cr_busy := cr_busy c || busy; cr_held_gone := cr_held_gone c; cr_held_kept := cr_held_kept c |}
  | _ => c
  end.

(** Once more when the held candidate had vanished or was kept. *)
Definition with_retry {A} (again : A → bool) (attempt : hio (result sfResult A)) : hio (result sfResult A) :=
  r ← attempt;
  match r with
  | Ok a => if again a then attempt else mret (Ok a)
  | Err e => mret (Err e)
  end.

Definition CreateSuite (seed : SuiteSeed) : hio (result sfResult CreateResult) :=
  with_retry Suites.retry
    (r ← creationAttempt true (λ held, createSuiteTx seed suiteCaps held) 0;
     mret match r with Ok (c, busy) => Ok (note_busy busy c) | Err e => Err e end).

Definition StoreFetched (m : FetchedRow) (status : Z) : hio (result sfResult FetchedResult) :=
  let named (o : option SuiteSeed) :=
    match o with Some s => bool_decide (sd_key s = fetched_suite m) | None => true end in
  if negb (named (fr_create m) && named (fr_restamp m)) then mret (Err (failed EOther status))
  else
    with_retry (λ x, Suites.retry (fx_create x))
      (r ← creationAttempt (is_set (fr_create m)) (storeFetchedTx m suiteCaps) status;
       mret match r with
            | Ok (x, busy) => Ok {| fx_create := note_busy busy (fx_create x); fx_tracked := fx_tracked x;
                                    fx_marked := fx_marked x |}
            | Err e => Err e
            end).

(** *** Onboarding: a cached anchor is served for a suite without a row *)

Record onboarded := { ob_tracked : bool; ob_unproven : bool }.

Definition runOnboard (req : Request) : hio onboarded :=
  let sr := newSuiteReq req in
  t ← now;
  let seed := suiteSeed (sr_key sr) (sr_file sr) false "" "" t in
  cached ← cachedAnchors (sr_key sr) (rq_path req);
  r ← CreateSuite (with_marks seed (if Marks (sr_file sr) then t else 0) cached);
  match r with
  | Err _ => mret {| ob_tracked := false; ob_unproven := false |}
  | Ok c =>
      _ ← noteCreate (sr_key sr) c;
      mret {| ob_tracked := match cr_outcome c with SuiteCreated | SuiteExists => true | _ => false end;
              ob_unproven := match cr_outcome c with SuiteCreated => cr_unproven c | _ => false end |}
  end.

Definition onboard (req : Request) (blobHash : string) : hio bool :=
  sr ← get_sr;
  if sr_tracked sr || negb (CreatesRow (sr_file sr) (adoptionEnabled h)) then mret false
  else
    t ← now;
    refused ← rejections (rejected (sr_key sr) t);
    if (refused : bool) then mret false
    else
      head ← readHead blobHash (HeadBytes (sr_file sr));
      match head with
      | None => mret false
      | Some head =>
          if negb (Sniff (sr_file sr) (rq_path req) head) then mret false
          else
            c ← Do (same_suite req) (λ l, runOnboard (match l with Some l => ld_req l | None => req end));
            if negb (ob_tracked c.1) then mret false
            else
              _ ← set_tracked true;
              t ← registerLate req;
              _ ← (if ob_unproven c.1 && negb c.2 then markCachedSignedAnchors (sr_key sr) (rq_path req) else mret tt);
              mret t
      end.

(** ** The hit path of a cached row *)

Definition serve_row (r : HTTPRequest) (req : Request) (row : URLPath) (hash : string) (v : packageValidation)
    : hio (option Response) :=
  rs ← serveBlobWithHeaders r req hash 0 (up_last_fetched row) (urlLastModified row);
  match rs with
  | None => mret None
  | Some rs =>
      sr ← get_sr;
      _ ← spawn (TouchAsync (Some (url_key req)) (servedSuite sr (rs_status rs) ++ vouchedSuites req v (rs_status rs)));
      _ ← (if sr_tracked sr then maybeFireFreshness req else mret tt);
      mret (Some rs)
  end.

Definition tryURLPathHit (r : HTTPRequest) (req : Request) : hio (option Response) :=
  row ← read (λ _ d, LookupURL d (url_key req));
  match row with
  | Some (Ok row) =>
      match up_blob row with
      | None => mret None
      | Some hash =>
          if (hash =? "")%string then mret None
          else if negb (rq_metadata req) then
            v ← checkPackageHash req hash;
            match v with
            | Respond rs => mret (Some rs)
            | FallThrough => mret None
            | Pass v => serve_row r req row hash v
            end
          else
            t ← onboard req hash;
            if negb t then serve_row r req row hash not_validated
            else
              gone ← clientLeft;
              if (gone : bool) then mret (Some client_left)
              else
                rs ← trySnapshotHit r req;
                match rs with
                | Some rs => mret (Some rs)
                | None => serve_row r req row hash not_validated
                end
      end
  | _ => mret None
  end.

Definition tryByHashContentAddressed (r : HTTPRequest) (req : Request) : hio (option Response) :=
  sr ← get_sr;
  if (rq_suite req =? "")%string || negb (sr_tracked sr) || negb (HostAllowed (rq_host req)) then mret None
  else match byHashSuffix (rq_path req) with
  | None => mret None
  | Some hash =>
      ex ← open_blob hash;   (* BlobExists *)
      if negb (is_set ex) then mret None
      else
        has ← read (λ _ d, HostHasBlob d (rq_scheme req) (rq_host req) hash);
        match has with
        | Some (Ok true) =>
            rs ← serveBlobWithHeaders r req hash 0 None None;
            match rs with
            | None => mret None
            | Some rs =>
                _ ← spawn (RecordByHash req hash);
                _ ← maybeFireFreshness req;
                mret (Some rs)
            end
        | _ => mret None
        end
  end.

(** The suite's snapshot, a second time once the anchor is registered. *)
Definition snapshot_hit (r : HTTPRequest) (req : Request) : hio (option Response) :=
  rs ← trySnapshotHit r req;
  match rs with
  | Some rs => mret (Some rs)
  | None =>
      t ← registerLate req;
      if negb t then mret None
      else
        gone ← clientLeft;
        if (gone : bool) then mret (Some client_left) else trySnapshotHit r req
  end.

Definition or_else (m k : hio (option Response)) : hio (option Response) :=
  rs ← m; match rs with Some rs => mret (Some rs) | None => k end.

Definition tryCacheHit (r : HTTPRequest) (req : Request) : hio (option Response) :=
  or_else (if rq_metadata req && negb (rq_suite req =? "")%string then snapshot_hit r req else mret None)
  (or_else (tryURLPathHit r req)
    (if rq_metadata req then tryByHashContentAddressed r req else mret None)).
(** ** The fetch of a miss *)

(** Before the download, for a package: an error ends the run; otherwise,
    whether the declarations could not be read. *)
Definition prefetchRecheck (req : Request) : hio (option herror) :=
  rows ← declared req;
  match rows with
  | None => mret (Some EUnvouchedRefused)
  | Some rows =>
      mret (if (2 <=? length (distinctDeclared rows))%nat then Some EHashConflict
            else if (0 <? length rows)%nat then None else Some EUnvouchedRefused)
  end.

Definition prefetchCheck (req : Request) : hio (result herror bool) :=
  rows ← declared req;
  match rows with
  | None => mret (Ok true)
  | Some rows =>
      let distinct := distinctDeclared rows in
      if (2 <=? length distinct)%nat then mret (Err EHashConflict)
      else if negb (length distinct =? 0)%nat || negb (isDebPath (rq_path req)) then mret (Ok false)
      else
        sm ← classifyStrictMode false req;
        match sm with
        | strictRefuse =>
            if negb (cf_adoptions h) then mret (Err EUnvouchedRefused)
            else
              n ← tick;
              if adoptions_in_flight n (rq_host req) then mret (Err EUnvouchedRetryable)
              else
                o ← prefetchRecheck req;
                mret (match o with Some e => Err e | None => Ok false end)
        | _ => mret (Ok false)
        end
  end.

Definition strictAfterDownload (req : Request) : hio (option herror) :=
  sm ← classifyStrictMode false req;
  match sm with
  | strictRefuse =>
      n ← tick;
      mret (Some (if cf_adoptions h && adoptions_in_flight n (rq_host req)
                  then EUnvouchedRetryable else EUnvouchedRefused))
  | _ => mret None
  end.

(** The blob of the download: verified, for a package with declarations. *)
Definition finalized (m : io verify_error string) (v : packageValidation) (status : Z)
    : hio (result sfResult (string * packageValidation)) :=
  r ← after_others m;
  mret match r with Ok hash => Ok (hash, v) | Err _ => Err (failed EOther status) end.

Definition finalize_fetched (req : Request) (unread : bool) (d : Download)
    : hio (result sfResult (string * packageValidation)) :=
  let f := dl_result d in
  let status := fr_Status f in
  let trusted := finalized (Finalize (dl_body d) (fr_ContentLength f)) not_validated status in
  if rq_metadata req then trusted
  else
    rows ← declared req;
    match rows with
    | None => trusted
    | Some rows =>
        match distinctDeclared rows with
        | [] =>
            o ← (if unread && isDebPath (rq_path req) then strictAfterDownload req else mret None);
            match o with
            | Some e => mret (Err (failed e status))
            | None => trusted
            end
        | [x] =>
            if negb (x =? sha256 (dl_body d))%string then mret (Err (failed EHashMismatch status))
            else finalized (FinalizeExpectingHash (dl_body d) x (fr_ContentLength f)) (validated_by rows x) status
        | _ => mret (Err (failed EHashConflict status))
        end
    end.

Definition fetched_url_row (req : Request) (hash : string) (f : FetchResult) (t : Z) : URLPath :=
  {| up_blob := Some hash; up_upstream := rq_upstream req; up_is_metadata := rq_metadata req;
     up_last_requested := Some t; up_request_count := 1; up_last_fetched := Some t;
     up_etag := nonempty (fr_ETag f); up_lastmod := nonempty (fr_LastModified f); up_dropped := None |}.

(** What the transaction of a miss is asked to do beside storing the row. *)
Definition plan_row (req : Request) (file : SuiteFile) (tracked : bool) (hash : string) (f : FetchResult)
    (generation : option (Z * Z)) (t : Z) : hio (result sfResult FetchedRow) :=
  let k := suiteKeyOf req in
  let plain create mark restamp :=
    {| fr_key := url_key req; fr_row := fetched_url_row req hash f t; fr_generation := generation;
       fr_suite := Some k; fr_create := create; fr_mark_seen := mark; fr_restamp := restamp |} in
  if bool_decide (file = NotSuiteFile) then mret (Ok (plain None 0 None))
  else
    head ← readHead hash (HeadBytes file);
    match head with
    | None => mret (if Marks file then Err (failed (EFetch CacheWriteFailed) (fr_Status f)) else Ok (plain None 0 None))
    | Some head =>
        if negb (Sniff file (rq_path req) head) then mret (Ok (plain None 0 None))
        else
          let seed := suiteSeed k file true (fr_ETag f) (fr_LastModified f) t in
          let mark := if Marks file then t else 0 in
          let restamp := if is_release file && negb (adoptionEnabled h) then Some seed else None in
          if tracked || negb (CreatesRow file (adoptionEnabled h)) then mret (Ok (plain None mark restamp))
          else
            t' ← now;
            refused ← rejections (rejected k t');
            if (refused : bool) then mret (Ok (plain None mark restamp))
            else
              cached ← cachedAnchors k (rq_path req);
              mret (Ok (plain (Some (with_marks seed 0 cached)) mark restamp))
    end.

Definition wants_generation (req : Request) : bool :=
  negb (adoptionEnabled h) && rq_metadata req && negb (rq_suite req =? "")%string
  && negb (contains_sub "/by-hash/" (rq_path req)).

Definition generation_of (req : Request) : hio (result sfResult (option (Z * Z))) :=
  if negb (wants_generation req) then mret (Ok None)
  else g ← read (λ _ d, MetadataGeneration d (suiteKeyOf req));
       mret match g with Some g => Ok (Some g) | None => Err (failed EOther 0) end.

Definition prefetched (req : Request) : hio (result sfResult bool) :=
  if rq_metadata req then mret (Ok false)
  else o ← prefetchCheck req;
       mret match o with Ok unread => Ok unread | Err e => Err (failed e 0) end.

Definition runFetch (req : Request) (file : SuiteFile) (trackedAtStart : bool) : hio sfResult :=
  attempt (generation_of req) (λ generation,
  attempt acquire (λ _,
  attempt (prefetched req) (λ unread,
  attempt NewTempBlob (λ _,
  attempt (download req) (λ d,
  let f := dl_result d in
  attempt (finalize_fetched req unread d) (λ hv,
  attempt (stored (PutBlob hv.1 (fr_ContentLength f)) (fr_Status f)) (λ _,
  t ← now;
  attempt (plan_row req file trackedAtStart hv.1 f generation t) (λ m,
  attempt (StoreFetched m (fr_Status f)) (λ x,
  _ ← (if is_set (fr_create m) then noteCreate (suiteKeyOf req) (fx_create x) else mret tt);
  let created := match cr_outcome (fx_create x) with SuiteCreated => true | _ => false end in
  mret {| res_blobHash := hv.1; res_status := fr_Status f; res_err := None; res_validation := hv.2;
          res_suiteTracked := fx_tracked x; res_created := created;
          res_unproven := created && cr_unproven (fx_create x);
          res_lastModified := fr_LastModified f |}))))))))).

(** ** Errors *)

Definition tryServeStale (r : HTTPRequest) (req : Request) : hio (option Response) :=
  if negb (rq_metadata req) || negb (serveStaleWhenUpstreamDown h) then mret None
  else
    row ← read (λ _ d, LookupURL d (url_key req));
    match row with
    | Some (Ok row) =>
        match up_blob row with
        | None => mret None
        | Some hash =>
            ex ← open_blob hash;
            if (hash =? "")%string || negb (validBlobHash hash) || negb (is_set ex) then mret None
            else
              f ← open_blob hash;
              match f with
              | None => mret None
              | Some content =>
                  age ← age_header (up_last_fetched row);
                  rs ← serveContent r req hash content (urlLastModified row) (("X-Cache", "HIT-STALE") :: age);
                  let stale := {| sr_key := suiteKeyOf req; sr_file := ClassifySuiteFile (rq_suite req) (rq_path req);
                                  sr_tracked := true; sr_tok := false |} in
                  let suites := servedSuite stale (rs_status rs) in
                  _ ← (if (length suites =? 0)%nat then mret tt else spawn (TouchAsync None suites));
                  mret (Some rs)
              end
        end
    | _ => mret None
    end.

Definition bad_gateway (req : Request) (status : Z) : Response :=
  http_error 502 (("Retry-After", retryAfterForRequest req) :: upstream_header status) "bad gateway".

Definition respondUpstreamUnreachable (r : HTTPRequest) (req : Request) (status : Z) : hio Response :=
  rs ← tryServeStale r req;
  match rs with
  | Some rs => mret {| rs_status := rs_status rs; rs_headers := rs_headers rs ∪ list_to_map (upstream_header status);
                       rs_body := rs_body rs |}
  | None => mret (bad_gateway req status)
  end.

Definition respondError (r : HTTPRequest) (req : Request) (e : herror) (status : Z) : hio Response :=
  let up := upstream_header status in
  let isE := is_fetch e in
  match e with
  | EMetadataChanged =>
      mret (http_error 503 [("Retry-After", "1")] "repository changed during download; retry")
  | _ =>
      if isE ErrHostNotAllowed then mret (http_error 403 up "forbidden")
      else if isE ErrTargetDenied then mret (http_error 403 up "forbidden")
      else if isE ErrUpstreamStatus then mret (http_error status up ("upstream status " +:+ pretty status))
      else if isE ErrUpstreamUnavailable || isE ErrUpstreamServerError || isE ContextDeadlineExceeded then
        respondUpstreamUnreachable r req status
      else if isE ErrCacheWriteFailed then mret (bad_gateway req status)
      else match e with
      | EHashMismatch => mret (http_error 502 (("Retry-After", "60") :: up) "package hash mismatch")
      | EHashConflict => mret (http_error 502 (("Retry-After", "60") :: up) "package hash conflict")
      | ESnapshotMemberMismatch =>
          mret (http_error 502 (("Retry-After", "30") :: up) "snapshot member hash mismatch")
      | EUnvouchedRefused =>
          mret (http_error 502 (("Retry-After", "60") :: up) "unvouched .deb refused (strict mode)")
      | _ =>
          if isE ErrInvalidURL || isE ErrRedirectBlocked then mret (bad_gateway req status)
          else if isE ContextCanceled then
            mret (http_error 503 (("Retry-After", "5") :: up) "service unavailable")
          else mret (bad_gateway req status)
      end
  end.

(** ** The miss path *)

(** The call of the group, and once more after an adoption when a package was
    only refused for now: the result, its error, and whether it was joined. *)
Definition fetch_once (req : Request) (sr : suiteReq) : hio (sfResult * bool) :=
  Do (same_fetch req)
    (λ l, match l with
          | Some l => runFetch (ld_req l) (sr_file (newSuiteReq (ld_req l))) (ld_tracked l)
          | None => runFetch req (sr_file sr) (sr_tracked sr)
          end).

Definition retryable (e : option herror) : bool :=
  match e with Some EUnvouchedRetryable => true | _ => false end.

Definition with_err (res : sfResult) (e : herror) : sfResult :=
  {| res_blobHash := res_blobHash res; res_status := res_status res; res_err := Some e;
     res_validation := res_validation res; res_suiteTracked := res_suiteTracked res;
     res_created := res_created res; res_unproven := res_unproven res;
     res_lastModified := res_lastModified res |}.

Definition settle_unvouched (res : sfResult) : sfResult :=
  if retryable (res_err res) then with_err res EUnvouchedRefused else res.

Definition coalesced_fetch (req : Request) (sr : suiteReq) : hio (sfResult * bool) :=
  c ← fetch_once req sr;
  if negb (retryable (res_err c.1)) then mret c
  else
    waited ← (if cf_adoptions h then n ← tick; mret (adoption_ended n) else mret false);
    gone ← clientLeft;
    if (gone : bool) then mret (with_err c.1 ECanceled, c.2)
    else if (waited : bool) then c ← fetch_once req sr; mret (settle_unvouched c.1, c.2)
    else mret (settle_unvouched c.1, c.2).

(** The body of a fetched blob. *)
Definition serve_fetched (r : HTTPRequest) (req : Request) (res : sfResult) (shared : bool) : hio Response :=
  f ← open_blob (res_blobHash res);
  match f with
  | None => mret (http_error 500 [] "cache read failed")
  | Some content =>
      rs ← serveContent r req (res_blobHash res) content (Some (res_lastModified res))
             ([("X-Cache", if shared then "HIT-COALESCED" else "MISS"); ("X-Cache-Age", "0")]
              ++ upstream_header (res_status res));
      sr ← get_sr;
      let suites := servedSuite sr (rs_status rs) ++ vouchedSuites req (res_validation res) (rs_status rs) in
      _ ← (if (length suites =? 0)%nat then mret tt else spawn (TouchAsync None suites));
      mret rs
  end.

Definition serve_miss (r : HTTPRequest) (req : Request) (res : sfResult) (shared : bool) : hio Response :=
  _ ← (if res_suiteTracked res then set_tracked true else mret tt);
  t ← registerLate req;
  sr ← get_sr;
  _ ← (if res_unproven res && negb shared then markCachedSignedAnchors (sr_key sr) (rq_path req) else mret tt);
  if negb t then serve_fetched r req res shared
  else
    gone ← clientLeft;
    if (gone : bool) then mret client_left
    else
      rs ← trySnapshotHit r req;
      match rs with
      | Some rs => mret rs
      | None => serve_fetched r req res shared
      end.

Definition serveCacheMiss (r : HTTPRequest) (req : Request) : hio Response :=
  sr ← get_sr;
  c ← coalesced_fetch req sr;
  let res := c.1 in
  match res_err res with
  | Some e => respondError r req e (res_status res)
  | None =>
      rs ← serve_miss r req res c.2;
      _ ← (if res_created res && negb c.2 && adoptionEnabled h then maybeFireFreshness req else mret tt);
      mret rs
  end.

(** ** ServeHTTP *)

Definition allowHeader : string := if cf_connect h then "GET, HEAD, CONNECT" else "GET, HEAD".
Definition method_not_allowed : Response := http_error 405 [("Allow", allowHeader)] "method not allowed".

Definition serve_request (r : HTTPRequest) (req : Request) : hio Response :=
  t ← anchorStart req;
  _ ← set_tok t;
  gone ← (if (t : bool) then clientLeft else mret false);
  if (gone : bool) then mret client_left
  else
    rs ← tryCacheHit r req;
    match rs with
    | Some rs => mret rs
    | None =>
        if negb (HostAllowed (rq_host req)) then mret (http_error 403 [] "forbidden")
        else serveCacheMiss r req
    end.

(** [None]: the request was handed to the CONNECT handler. *)
Definition ServeHTTP (IP_literal : string → option string) (r : HTTPRequest) : hio (option Response) :=
  if (hr_method r =? "CONNECT")%string then
    mret (if cf_connect h then None else Some method_not_allowed)
  else if negb (hr_method r =? "GET")%string && negb (hr_method r =? "HEAD")%string then
    mret (Some method_not_allowed)
  else match Parse IP_literal (cf_parser h) (hr_uri r) with
  | Err _ => mret (Some (http_error 400 [] "bad request"))
  | Ok req =>
      _ ← set_sr (λ _, newSuiteReq req);
      rs ← serve_request r req;
      mret (Some rs)
  end.

(** ** The goroutines a request leaves behind *)

Fixpoint touch_suites (suites : list SuiteKey) : hio unit :=
  match suites with
  | [] => mret tt
  | k :: suites =>
      n ← tick;
      _ ← (if touch_due n k then _ ← after_others (sql (touch_suite k)); mret tt else mret tt);
      touch_suites suites
  end.

Definition by_hash_row (req : Request) (hash : string) (t : Z) : URLPath :=
  {| up_blob := Some hash; up_upstream := rq_upstream req; up_is_metadata := rq_metadata req;
     up_last_requested := Some t; up_request_count := 1; up_last_fetched := Some t; up_etag := None;
     up_lastmod := None; up_dropped := None |}.

Definition run_job (j : Job) : hio unit :=
  match j with
  | TouchAsync touchURL suites =>
      _ ← match touchURL with
          | Some k => _ ← after_others (sql (TouchURLPath k)); mret tt
          | None => mret tt
          end;
      touch_suites suites
  | RecordByHash req hash =>
      t ← now;
      _ ← after_others (sql (λ _, PutURLPath (url_key req) (by_hash_row req hash t)));
      mret tt
  | FreshnessCheck _ => mret tt
  end.

Fixpoint run_jobs (l : list Job) : hio unit :=
  match l with [] => mret tt | j :: l => _ ← run_job j; run_jobs l end.
End handler.
