(* ===== verification/HandlerLaws.v ===== *)
(** * What a request keeps, and what it answers with

    A request runs among others that may write to the database and the pool
    between any two of its steps.  A property of the database and one of the
    pool that the others' writes and the request's own statements keep
    ([settled]) hold at every step of it; what a step answers follows from what
    holds where it reads ([answers]). *)
From S2P Require Import Prelude GoStrings AptPath GoText Tables Invariant Snapshots Suites GC Rows Declared Serving Proxy Fetch MemberFetch Adoption AdoptionSafety SeedRejections HTTPContent Handler.
Local Open Scope Z_scope.

Section laws.
Context `{TableScan} `{Env} `{HTTPTime} `{Traffic}.
Context (h : Config).
Context (P : DB → Prop) (Q : gmap string string → Prop).

(** The writes of requests, and those of everything else. *)
Record settled : Prop := {
  st_ambient : ambient P Q;
  st_touch k now : triple P (TouchURLPath k now) (λ _, P);
  st_touch_suite k now : triple P (touch_suite k now) (λ _, P);
  st_evict k now : triple P (EvictURLPath k now) (λ _, P);
  st_put k u : triple P (PutURLPath k u) (λ _, P);
  st_store m caps held now : triple P (storeFetchedTx m caps held now) (λ _, P);
  st_create seed caps held now : triple P (createSuiteTx seed caps held now) (λ _, P);
  st_others n w : P (w_db w) → Q (w_pool w) → P (w_db (others n w)) ∧ Q (w_pool (others n w)) }.

Hypothesis Hset : settled.

Notation Inv := (AdoptionSafety.I P Q).

Definition answers {A} (R : A → Prop) (m : hio A) : Prop :=
  ∀ s, Inv (hs_world s) → Inv (hs_world (m s).2) ∧ R (m s).1.

Lemma ans_bind {A B} (R1 : A → Prop) (R2 : B → Prop) (m : hio A) (f : A → hio B) :
  answers R1 m → (∀ a, R1 a → answers R2 (f a)) → answers R2 (m ≫= f).
Proof.
  intros Hm Hf s Hs. unfold mbind, hio_bind. specialize (Hm s Hs). destruct (m s) as [a s1].
  destruct Hm as [HI HR]. by apply (Hf a HR s1).
Qed.

Lemma ans_ret {A} (R : A → Prop) (a : A) : R a → answers R (mret a).
Proof. by intros HR s Hs. Qed.

Lemma ans_weaken {A} (R1 R2 : A → Prop) (m : hio A) :
  answers R1 m → (∀ a, R1 a → R2 a) → answers R2 m.
Proof. intros Hm HR s Hs. destruct (Hm s Hs). eauto. Qed.

Definition any {A} (a : A) : Prop := True.

Lemma ans_any {A} (R : A → Prop) (m : hio A) : answers R m → answers any m.
Proof. intros Hm. by eapply ans_weaken. Qed.

(** *** The elementary steps *)

Lemma ans_tick : answers any tick.
Proof.
  intros s [HP HQ]. unfold tick. cbn. split; [|done]. by apply (st_others Hset).
Qed.

Lemma ans_world {B} (R : B → Prop) (f : World → hio B) :
  (∀ w, Inv w → answers R (f w)) → answers R (world ≫= f).
Proof. intros Hf s Hs. by apply (Hf (hs_world s) Hs s). Qed.

Lemma ans_read {A} (f : nat → DB → A) :
  answers (λ o, ∀ a, o = Some a → ∃ n d, P d ∧ a = f n d) (read f).
Proof.
  unfold read. eapply ans_bind; [apply ans_tick|]. intros n _. apply ans_world. intros w [HP HQ].
  apply ans_ret. intros a. destruct (read_fault n); [done|]. intros [= <-]. eauto.
Qed.

(** A read that cannot fail. *)
Lemma ans_read_sure {A} (f : nat → DB → A) :
  (∀ n, read_fault n = false) → answers (λ o, ∃ n d, P d ∧ o = Some (f n d)) (read f).
Proof.
  intros Hok. unfold read. eapply ans_bind; [apply ans_tick|]. intros n _. apply ans_world. intros w [HP HQ].
  apply ans_ret. rewrite Hok. eauto.
Qed.

Lemma ans_open hash :
  answers (λ o, ∀ c, o = Some c → ∃ p, Q p ∧ p !! hash = Some c) (open_blob hash).
Proof.
  unfold open_blob. eapply ans_bind; [apply ans_tick|]. intros n _. apply ans_world. intros w [HP HQ].
  apply ans_ret. intros c. destruct (read_fault n); [done|]. eauto.
Qed.

Lemma ans_after {E A} (R : A → Prop) (m : io E A) :
  stays Inv m → (∀ w a w', m w = (Ok a, w') → R a) →
  answers (λ r, ∀ a, r = Ok a → R a) (after_others m).
Proof.
  intros Hm HR. unfold after_others. eapply ans_bind; [apply ans_tick|]. intros _ _ s Hs.
  unfold lift. specialize (Hm _ Hs). destruct (m (hs_world s)) as [r w] eqn:Hr. cbn. split; [exact Hm|].
  intros a ->. by eapply HR.
Qed.

Lemma ans_sql {A} (m : Z → T A) :
  (∀ now, triple P (m now) (λ _, P)) → answers any (after_others (sql m)).
Proof. intros Hm. eapply ans_any, ans_after with (R := any); [by apply amb_sql|done]. Qed.

Lemma ans_local {A B} (R : B → Prop) (a : HState → A) (g : HState → HState) (f : A → hio B) :
  (∀ s, hs_world (g s) = hs_world s) → (∀ a, answers R (f a)) →
  answers R ((λ s, (a s, g s)) ≫= f).
Proof.
  intros Hg Hf s Hs. unfold mbind, hio_bind. apply (Hf (a s) (g s)). by rewrite Hg.
Qed.

Lemma ans_get_sr : answers any get_sr.
Proof. by intros s Hs. Qed.
Lemma ans_set_sr f : answers any (set_sr f).
Proof. by intros s Hs. Qed.
Lemma ans_spawn j : answers any (spawn j).
Proof. by intros s Hs. Qed.
Lemma ans_rejections {A} (f : seedRejections → A * seedRejections) : answers any (rejections f).
Proof. intros s Hs. unfold rejections. destruct (f (hs_rejections s)). done. Qed.
Lemma ans_now : answers any now.
Proof. unfold now. eapply ans_bind; [apply ans_tick|]. intros n _. by apply ans_ret. Qed.
Lemma ans_clientLeft : answers any clientLeft.
Proof. unfold clientLeft. eapply ans_bind; [apply ans_tick|]. intros n _. by apply ans_ret. Qed.
Lemma ans_read_any {A} (f : nat → DB → A) : answers any (read f).
Proof. eapply ans_any, ans_read. Qed.
Lemma ans_open_any hash : answers any (open_blob hash).
Proof. eapply ans_any, ans_open. Qed.
Lemma ans_ret_any {A} (a : A) : answers any (mret a).
Proof. by apply ans_ret. Qed.
End laws.

(** What holds of every state: the answers of a run whatever it began in. *)
Definition anything {A} (x : A) : Prop := True.

Lemma settled_anything `{TableScan} `{Env} `{HTTPTime} `{Traffic} : settled anything anything.
Proof. split; [split|..]; done. Qed.

Lemma always_answers `{TableScan} `{Env} `{HTTPTime} `{Traffic} {A} (R : A → Prop) (m : hio A) s :
  answers anything anything R m → R (m s).1.
Proof. intros Hm. by apply (Hm s). Qed.

Create HintDb answers.
#[export] Hint Resolve ans_tick ans_get_sr ans_set_sr ans_spawn ans_rejections ans_now ans_clientLeft
  ans_read_any ans_open_any ans_ret_any : answers.

(** Through a program whose answer does not matter, statement by statement. *)
Ltac hkeep :=
  repeat first
    [ solve [eauto 3 with answers]
    | lazymatch goal with
      | |- answers ?P ?Q any (_ ≫= _) => apply (ans_bind P Q any any); [|intros ? _]
      | |- answers _ _ any (match ?x with _ => _ end) => destruct x
      | |- answers _ _ any (set_tracked _) => apply ans_set_sr
      | |- answers _ _ any (set_tok _) => apply ans_set_sr
      end
    | progress cbn beta zeta ].

(** ** The steps whose answer does not matter *)

Section keeping.
Context `{TableScan} `{Env} `{HTTPTime} `{Traffic}.
Context (h : Config).
Context (P : DB → Prop) (Q : gmap string string → Prop).
Hypothesis Hset : settled P Q.

#[local] Hint Extern 1 (settled _ _) => exact Hset : answers.

Lemma ans_anchorStart req : answers P Q any (anchorStart h req).
Proof. unfold anchorStart. hkeep. Qed.
#[local] Hint Resolve ans_anchorStart : answers.

Lemma ans_registerLate req : answers P Q any (registerLate h req).
Proof. unfold registerLate. hkeep. Qed.

Lemma ans_maybeFire req : answers P Q any (maybeFireFreshness h req).
Proof. unfold maybeFireFreshness. hkeep. Qed.
#[local] Hint Resolve ans_maybeFire : answers.

Lemma ans_touch_and_fire req suites : answers P Q any (touch_and_fire h req suites).
Proof. unfold touch_and_fire. hkeep. Qed.

Lemma ans_age o : answers P Q any (age_header o).
Proof. unfold age_header. hkeep. Qed.

Lemma ans_readHead hash n : answers P Q any (readHead hash n).
Proof. unfold readHead. hkeep. Qed.
#[local] Hint Resolve ans_readHead : answers.

Lemma ans_readCachedAnchor k p : answers P Q any (readCachedAnchor k p).
Proof. unfold readCachedAnchor. hkeep. Qed.
#[local] Hint Resolve ans_readCachedAnchor : answers.

Lemma ans_cachedAnchors k except : answers P Q any (cachedAnchors k except).
Proof.
  unfold cachedAnchors. induction signedAnchorNames as [|name names IH]; cbn [cached_from]; hkeep.
Qed.

Lemma ans_anchor_marks names k except : answers P Q any (anchor_marks names k except).
Proof. induction names as [|name names IH]; cbn [anchor_marks]; hkeep. Qed.
#[local] Hint Resolve ans_cachedAnchors ans_anchor_marks : answers.

Lemma ans_markCached k except : answers P Q any (markCachedSignedAnchors k except).
Proof.
  unfold markCachedSignedAnchors. hkeep. apply ans_sql; [exact Hset|]. intros _. apply Hset.
Qed.

Lemma ans_noteCreate k c : answers P Q any (noteCreate k c).
Proof. unfold noteCreate. hkeep. Qed.
#[local] Hint Resolve ans_noteCreate : answers.

Lemma ans_stored {A} (m : Z → T A) status :
  (∀ now, triple P (m now) (λ _, P)) → answers P Q any (stored m status).
Proof. intros Hm. unfold stored. eapply ans_bind; [by apply ans_sql|]. intros r _. by apply ans_ret. Qed.

Lemma ans_creationAttempt {A} create (tx : option SuiteKey → Z → T A) status :
  (∀ held now, triple P (tx held now) (λ _, P)) → answers P Q any (creationAttempt h create tx status).
Proof.
  intros Htx. unfold creationAttempt. eapply ans_bind with (R1 := any); [hkeep|]. intros held _.
  destruct held as [[held busy]|e]; [|by apply ans_ret].
  eapply ans_bind; [by apply ans_stored|]. intros r _. by apply ans_ret.
Qed.

Lemma ans_with_retry {A} (again : A → bool) m : answers P Q any m → answers P Q any (with_retry again m).
Proof. intros Hm. unfold with_retry. hkeep. Qed.

Lemma ans_CreateSuite seed : answers P Q any (CreateSuite h seed).
Proof.
  unfold CreateSuite. apply ans_with_retry. eapply ans_bind; [|intros r _; by apply ans_ret].
  apply ans_creationAttempt. intros held now. apply Hset.
Qed.

Lemma ans_StoreFetched m status : answers P Q any (StoreFetched h m status).
Proof.
  unfold StoreFetched. destruct (negb _); [by apply ans_ret|]. apply ans_with_retry.
  eapply ans_bind; [|intros r _; by apply ans_ret]. apply ans_creationAttempt. intros held now. apply Hset.
Qed.
#[local] Hint Resolve ans_CreateSuite ans_StoreFetched : answers.

Lemma ans_runOnboard req : answers P Q any (runOnboard h req).
Proof. unfold runOnboard. hkeep. Qed.

(** A run that was joined answers from the state it began in. *)
Lemma ans_Do {A} (R : A → Prop) same (run : option Leader → hio A) :
  (∀ n x, joins n = Some x → same x = true → R (run (Some x) (leading x)).1) → answers P Q R (run None) →
  answers P Q (λ c, R c.1) (Do same run).
Proof.
  intros Hjoin Halone. unfold Do. eapply ans_bind; [by apply ans_tick|]. intros n _.
  destruct (joins n) as [x|] eqn:Hn; [destruct (same x) eqn:Hx|].
  - intros s Hs. split; [done|]. cbn. by apply (Hjoin n x).
  - eapply ans_bind; [eassumption|]; intros a Ha; by apply ans_ret.
  - eapply ans_bind; [eassumption|]; intros a Ha; by apply ans_ret.
Qed.
#[local] Hint Resolve ans_registerLate ans_markCached ans_runOnboard : answers.

Lemma ans_onboard req hash : answers P Q any (onboard h req hash).
Proof.
  unfold onboard. hkeep. eapply ans_any, ans_Do with (R := any); intros; [done|apply ans_runOnboard].
Qed.

Lemma ans_touch_suites l : answers P Q any (touch_suites l).
Proof.
  induction l as [|k l IH]; cbn [touch_suites]; hkeep. apply ans_sql; [exact Hset|]. intros. apply Hset.
Qed.

Lemma ans_run_job j : answers P Q any (run_job j).
Proof.
  destruct j; cbn [run_job]; hkeep; try apply ans_touch_suites; apply ans_sql; try exact Hset; intros; apply Hset.
Qed.

Lemma ans_run_jobs l : answers P Q any (run_jobs l).
Proof. induction l as [|j l IH]; cbn [run_jobs]; hkeep. apply ans_run_job. Qed.
End keeping.

#[export] Hint Resolve ans_anchorStart ans_registerLate ans_maybeFire ans_touch_and_fire ans_age ans_readHead
  ans_cachedAnchors ans_markCached ans_noteCreate ans_StoreFetched ans_onboard : answers.

(** ** Runs of the group *)

Section runs.
Context `{TableScan} `{Env} `{HTTPTime} `{Traffic}.
Context (P : DB → Prop) (Q : gmap string string → Prop).
Hypothesis Hset : settled P Q.
Context (J : string → Prop).

#[local] Hint Extern 1 (settled _ _) => exact Hset : answers.

(** The status of an upstream's refusal is the upstream's. *)
Definition coherent (e : herror) (status : Z) : Prop := is_fetch e ErrUpstreamStatus = true → 400 <= status < 500.

(** A step of a run: it goes on with [R], or ends the run with an error. *)
Definition fails_or {A} (R : A → Prop) (r : result sfResult A) : Prop :=
  match r with Ok a => R a | Err res => ∃ e, res_err res = Some e ∧ coherent e (res_status res) end.

(** A run without an error has an allowed digest. *)
Definition good_run (res : sfResult) : Prop :=
  match res_err res with None => J (res_blobHash res) | Some e => coherent e (res_status res) end.

Lemma upstream_status_as e : errors_is e ErrUpstreamStatus = true → ∃ c, as_status e = Some c ∧ 400 <= c < 500.
Proof.
  induction e; cbn; try done.
  - unfold status_is. intros. bclean. exists code. split; [done|lia].
  - destruct code as [c|]; cbn; [|done]. unfold status_is. intros. bclean. exists c. split; [done|lia].
  - by destruct e.
Qed.

Lemma fails_failed {A} (R : A → Prop) e status : coherent e status → fails_or R (Err (failed e status)).
Proof. intros Hc. by exists e. Qed.

Lemma ans_attempt {A} (R : A → Prop) (m : hio (result sfResult A)) k :
  answers P Q (fails_or R) m → (∀ a, R a → answers P Q good_run (k a)) →
  answers P Q good_run (attempt m k).
Proof.
  intros Hm Hk. unfold attempt. eapply ans_bind; [exact Hm|]. intros [a|res] Hr; [by apply Hk|].
  apply ans_ret. destruct Hr as (e & He & Hc). unfold good_run. by rewrite He.
Qed.

Lemma good_failed e status : coherent e status → good_run (failed e status).
Proof. done. Qed.

Lemma fails_acquire : answers P Q (fails_or any) acquire.
Proof.
  unfold acquire. eapply ans_bind with (R1 := any); [hkeep|]. intros n _. apply ans_ret.
  destruct (cancelled n); [by apply fails_failed|done].
Qed.
Lemma fails_NewTempBlob : answers P Q (fails_or any) NewTempBlob.
Proof.
  unfold NewTempBlob. eapply ans_bind with (R1 := any); [hkeep|]. intros n _. apply ans_ret.
  destruct (disk_fault n); [by apply fails_failed|done].
Qed.
Lemma fails_download req : answers P Q (fails_or any) (download req).
Proof.
  unfold download. eapply ans_bind with (R1 := any); [hkeep|]. intros n _. apply ans_ret.
  destruct (upstream _ _) as [d|e]; [done|]. apply fails_failed.
  intros (c & -> & Hc)%upstream_status_as. exact Hc.
Qed.
Lemma fails_stored {A} (m : Z → T A) status :
  (∀ now, triple P (m now) (λ _, P)) → answers P Q (fails_or any) (stored m status).
Proof.
  intros Hm. unfold stored. eapply ans_bind; [by apply ans_sql|]. intros r _. apply ans_ret.
  repeat case_match; first [done|by apply fails_failed].
Qed.

Lemma Finalize_digest body size w hash w' : Finalize body size w = (Ok hash, w') → hash = sha256 body.
Proof. unfold Finalize, into_pool. intros Hrun. by ioinv. Qed.
Lemma FinalizeExpectingHash_digest body expected size w hash w' :
  FinalizeExpectingHash body expected size w = (Ok hash, w') → hash = expected.
Proof.
  unfold FinalizeExpectingHash, into_pool. intros Hrun. ioinv.
  destruct (String.eqb_spec (sha256 body) expected) as [He|]; cbn in Hrun; ioinv. exact He.
Qed.

Lemma good_runSnapshotMemberFetch req m :
  J (m_declared m) → answers P Q good_run (runSnapshotMemberFetch req m).
Proof.
  intros HJ. unfold runSnapshotMemberFetch.
  eapply ans_attempt; [apply fails_acquire|intros _ _].
  eapply ans_attempt; [apply fails_NewTempBlob|intros _ _].
  eapply ans_attempt; [apply fails_download|intros d _].
  eapply ans_bind.
  { apply ans_after with (R := λ hash, hash = m_declared m); [done| |].
    - apply amb_FinalizeExpectingHash, Hset.
    - intros w a w'. apply FinalizeExpectingHash_digest. }
  intros [hash|e] Hh; [|by destruct e; apply ans_ret].
  eapply ans_attempt; [apply fails_stored; intros; apply Hset|intros _ _].
  eapply ans_attempt; [apply fails_stored; intros; apply Hset|intros _ _].
  apply ans_ret. unfold good_run. cbn. by rewrite (Hh hash eq_refl).
Qed.

End runs.

(** ** Responses *)

(** Files of the pool are what their names say. *)
Definition sound_pool `{Env} (p : gmap string string) : Prop := ∀ hash c, p !! hash = Some c → sha256 c = hash.

Section responses.
Context `{TableScan} `{Env} `{HTTPTime} `{Traffic}.
Context (h : Config) (P : DB → Prop).
Hypothesis Hset : settled P sound_pool.
(** The digests a response may carry. *)
Context (J : string → Prop).

#[local] Hint Extern 1 (settled _ _) => exact Hset : answers.

(** A response with a file: one of the allowed digest, of that very content,
    slices of which are sent under its entity tag; any other is an error. *)
Definition good (rs : Response) : Prop :=
  match rs_body rs with
  | Text _ => 400 <= rs_status rs < 600
  | File hash content slices =>
      J hash ∧ sha256 content = hash ∧ slices_ok (len content) slices ∧
      (rs_status rs = 416 ∨ rs_headers rs !! "ETag" = Some (blob_etag hash)) ∧
      (rs_status rs ∈ [200; 206; 304; 412; 416])
  end.

Definition good_if (o : option Response) : Prop := match o with Some rs => good rs | None => True end.

Lemma good_serveContent r req hash content lastmod headers :
  J hash → sha256 content = hash →
  answers P sound_pool good (serveContent r req hash content lastmod headers).
Proof.
  intros HJ Hsha. unfold serveContent. eapply ans_bind with (R1 := any); [hkeep|]. intros date _. apply ans_ret.
  destruct (ServeContent_ok (hr_method r =? "HEAD")%string (hr_conditions r) (blob_etag hash) (len content)
    (len_nonneg content)) as (Hok & Hetag & Hst).
  set (c := ServeContent _ _ _ _) in *. unfold good. cbn. split_and!; [done..| |done].
  destruct Hetag as [Hc|Hc]; [by left|right]. rewrite Hc, list_to_map_app.
  apply lookup_union_Some_raw. right. split; [by destruct (_ && _)|]. cbn. by rewrite lookup_insert_eq.
Qed.

Lemma good_open hash : answers P sound_pool (λ o, ∀ c, o = Some c → sha256 c = hash) (open_blob hash).
Proof.
  eapply ans_weaken; [by apply ans_open|]. intros o Ho c Hc. destruct (Ho c Hc) as (p & Hp & Hl). by apply Hp.
Qed.

Lemma good_serveBlob r req hash id lastFetched lastmod :
  J hash → answers P sound_pool good_if (serveBlobWithHeaders r req hash id lastFetched lastmod).
Proof.
  intros HJ. unfold serveBlobWithHeaders. eapply ans_bind with (R1 := any); [hkeep|]. intros ex _.
  destruct (_ || _); [by apply ans_ret|]. eapply ans_bind; [apply good_open|]. intros [content|] Hc; [|by apply ans_ret].
  eapply ans_bind with (R1 := any); [hkeep|]. intros age _.
  eapply ans_bind; [apply good_serveContent; [done|by apply Hc]|]. intros rs Hrs. by apply ans_ret.
Qed.

Lemma good_error status headers msg : 400 <= status < 600 → good (http_error status headers msg).
Proof. done. Qed.

Lemma good_snapshot_miss r req m id :
  J (m_declared m) → answers P sound_pool good (serveSnapshotMemberMiss r req m id).
Proof.
  intros HJ. unfold serveSnapshotMemberMiss. eapply ans_bind.
  { apply ans_Do with (R := good_run J); [done| |by apply good_runSnapshotMemberFetch].
    intros n x _ _. by apply always_answers, (good_runSnapshotMemberFetch _ _ settled_anything). }
  intros [res shared] Hres. cbv zeta. cbn [fst] in Hres |- *. unfold good_run in Hres.
  destruct (res_err res); [by apply ans_ret|]. eapply ans_bind; [apply good_open|].
  intros [content|] Hc; [|by apply ans_ret]. apply good_serveContent; auto.
Qed.
(** *** The snapshot's answers *)

Lemma good_serve_displaced r req want rows :
  (∀ id m, (id, m) ∈ rows → (want ≠ "" → m_blob m = want) → J (m_blob m)) →
  answers P sound_pool good_if (serve_displaced r req want rows).
Proof.
  induction rows as [|[id m] rows IH]; intros HJ; cbn [serve_displaced]; [by apply ans_ret|].
  destruct (negb (want =? "")%string && negb (m_blob m =? want)%string) eqn:Hskip;
    [apply IH; intros; eapply HJ; [by right|done]|].
  eapply ans_bind.
  { apply good_serveBlob. apply (HJ id m); [by left|]. intros Hne.
    apply andb_false_iff in Hskip as [Hs|Hs]; apply negb_false_iff, String.eqb_eq in Hs; done. }
  intros [rs|] Hrs; [by apply ans_ret|]. apply IH. intros; eapply HJ; [by right|done].
Qed.

Lemma good_touch (f : hio unit) rs : answers P sound_pool any f → good rs →
  answers P sound_pool good_if (_ ← f; mret (Some rs)).
Proof. intros Hf Hrs. eapply ans_bind; [exact Hf|]. intros _ _. by apply ans_ret. Qed.

(** A digest that the snapshot [id] of the request's suite allows, or one of
    its displaced predecessors under a by-hash name. *)
Definition member_allowed (req : Request) (id : Z) : Prop :=
  let p := suiteRelativePath (rq_suite req) (rq_path req) in
  ∀ d, P d →
    (∀ m, member_t d !! (id, p) = Some m → J (m_blob m) ∧ J (m_declared m)) ∧
    (∀ d1 want i m, P d1 → member_t d1 !! (id, p) = None → 0 < keepDisplaced h → byHashMember p = Some want →
       (i, m) ∈ DisplacedSnapshotMembers d (suiteKeyOf req) p id (keepDisplaced h + 1) →
       (want ≠ "" → m_blob m = want) → J (m_blob m)).

Definition answered (o : option Response) : Prop := ∃ rs, o = Some rs ∧ good rs.

Lemma answered_touch (f : hio unit) rs : answers P sound_pool any f → good rs →
  answers P sound_pool answered (_ ← f; mret (Some rs)).
Proof. intros Hf Hrs. eapply ans_bind; [exact Hf|]. intros _ _. apply ans_ret. by exists rs. Qed.

Lemma good_from_current r req sr id :
  member_allowed req id → answers P sound_pool answered (from_current h r req sr id).
Proof.
  intros HJ. unfold from_current. cbv zeta. set (p := suiteRelativePath _ _).
  eapply ans_bind; [by apply ans_read|]. intros [[m|e]|] Ho.
  - destruct (Ho _ eq_refl) as (n & d & HP & Hm). unfold GetSnapshotMember in Hm.
    destruct (member_t d !! (id, p)) as [m'|] eqn:Hl; [|done]. injection Hm as <-.
    destruct (proj1 (HJ d HP) _ Hl) as [Hb Hd].
    eapply ans_bind; [by apply good_serveBlob|]. intros [rs|] Hrs; [apply answered_touch; [hkeep|done]|].
    eapply ans_bind; [by apply good_snapshot_miss|]. intros rs Hrs'. apply answered_touch; [hkeep|done].
  - destruct (Ho _ eq_refl) as (n & d1 & HP1 & Hm). unfold GetSnapshotMember in Hm.
    destruct (member_t d1 !! (id, p)) as [m'|] eqn:Hl; [done|].
    eapply ans_bind with (R1 := good_if).
    { unfold tryDisplacedByHash. destruct (Z.leb_spec (keepDisplaced h) 0) as [|Hkeep]; [by apply ans_ret|].
      destruct (byHashMember p) as [want|] eqn:Hw; [|by apply ans_ret].
      eapply ans_bind; [by apply ans_read|]. intros [rows|] Hr; [|by apply ans_ret].
      destruct (Hr _ eq_refl) as (n' & d & HP & ->). apply good_serve_displaced.
      intros i m Hin Hwant. exact (proj2 (HJ d HP) d1 want i m HP1 Hl Hkeep Hw Hin Hwant). }
    intros [rs|] Hrs; [apply answered_touch; [hkeep|done]|]. apply ans_ret. by eexists.
  - apply ans_ret. by eexists.
Qed.

(** Not answered: the anchor waits for the gate, or there is no snapshot. *)
Lemma trySnapshotHit_ok r req :
  (∀ d f id, P d → suite_t d !! suiteKeyOf req = Some f → sf_current f = Some id → member_allowed req id) →
  ∀ s, AdoptionSafety.I P sound_pool (hs_world s) →
    let '(o, s') := trySnapshotHit h r req s in
    AdoptionSafety.I P sound_pool (hs_world s') ∧ good_if o ∧
    (o = None → sr_tok (hs_sr s') = sr_tok (hs_sr s) ∧
       ((∃ d, P d ∧ suite_current d (suiteKeyOf req) = None) ∨
        sr_tok (hs_sr s) = false ∧ barrierAnchor h req = true ∧ sr_tracked (hs_sr s') = true)).
Proof.
  intros HJ s Hs. unfold trySnapshotHit. unfold mbind at 1, hio_bind.
  pose proof (ans_read P sound_pool Hset (λ _ d, GetSuiteFreshness d (suiteKeyOf req)) s Hs) as [Hs1 Ho].
  assert (hs_sr (read (λ _ d, GetSuiteFreshness d (suiteKeyOf req)) s).2 = hs_sr s) as Hsr by done.
  destruct (read _ s) as [o s1]. cbn [fst snd] in *.
  destruct o as [[f|e]|]; [| |by split_and!].
  - destruct (Ho _ eq_refl) as (n & d & HP & Hf). unfold GetSuiteFreshness in Hf.
    destruct (suite_t d !! suiteKeyOf req) as [f'|] eqn:Hl; [|done]. injection Hf as <-.
    unfold mbind at 1, hio_bind. cbn [set_tracked set_sr]. unfold mbind at 1, hio_bind. cbn [get_sr].
    set (s2 := {| hs_world := hs_world s1 |}). assert (sr_tok (hs_sr s2) = sr_tok (hs_sr s)) as Htok by (by cbn; rewrite Hsr).
    rewrite Htok. destruct (negb (sr_tok (hs_sr s)) && barrierAnchor h req) eqn:Hb.
    { apply andb_true_iff in Hb as [Hb1 Hb2]. apply negb_true_iff in Hb1. split_and!; [done|done|]. intros _.
      split; [done|]. right. done. }
    destruct (sf_current f) as [id|] eqn:Hc.
    + pose proof (good_from_current r req (hs_sr s2) id (HJ d f id HP Hl Hc) s2 Hs1) as [Hs3 (rs & Hrs & Hgood)].
      change (hs_sr s2) with {| sr_key := sr_key (hs_sr s1); sr_file := sr_file (hs_sr s1); sr_tracked := true;
        sr_tok := sr_tok (hs_sr s1) |} in *.
      destruct (from_current h r req _ id s2) as [o s3]. cbn in Hrs |- *.
      subst o. split_and!; [done|done|done].
    + split_and!; [done|done|]. intros _. split; [done|]. left. exists d. split; [done|].
      unfold suite_current. by rewrite Hl.
  - destruct (Ho _ eq_refl) as (n & d & HP & Hf). unfold GetSuiteFreshness in Hf.
    destruct (suite_t d !! suiteKeyOf req) as [f'|] eqn:Hl; [done|].
    unfold mbind, hio_bind. cbn. split_and!; [done|done|]. intros _. split; [by rewrite Hsr|]. left. exists d. split; [done|]. unfold suite_current. by rewrite Hl.
Qed.
End responses.

(** A check's verdict: a response, or the cached blob when its digest is allowed. *)
Definition verdict_ok (J : string → Prop) `{Env} (hash : string) (v : verdict) : Prop :=
  match v with Respond rs => good J rs | FallThrough => True | Pass _ => J hash end.

(** ** Packages and their declarations *)

Lemma distinct_from_spec seen rows :
  NoDup (distinct_from seen rows) ∧
  ∀ x, x ∈ distinct_from seen rows ↔ x ∉ seen ∧ ∃ r, r ∈ rows ∧ dh_sha256 r = x.
Proof.
  revert seen. induction rows as [|r rows IH]; intros seen; cbn [distinct_from].
  - split; [constructor|]. intros x. split; [by intros ?%elem_of_nil|]. by intros (_ & r & ?%elem_of_nil & _).
  - destruct (bool_decide (dh_sha256 r ∈ seen)) eqn:Hb; bclean.
    + destruct (IH seen) as [Hn Hx]. split; [done|]. intros x. rewrite Hx.
      setoid_rewrite elem_of_cons. split; [naive_solver|]. intros (Hs & y & [->|Hy] & <-); [done|eauto].
    + destruct (IH (dh_sha256 r :: seen)) as [Hn Hx]. split.
      * constructor; [|done]. rewrite Hx. set_solver.
      * intros x. rewrite elem_of_cons, Hx, not_elem_of_cons. setoid_rewrite elem_of_cons. split.
        -- intros [->|((Hne & Hs) & y & Hy & <-)]; [eauto|eauto].
        -- intros (Hs & y & [->|Hy] & <-); [by left|].
           destruct (decide (dh_sha256 y = dh_sha256 r)) as [->|]; [by left|right]. eauto.
Qed.

Lemma distinct_spec rows x : x ∈ distinctDeclared rows ↔ ∃ r, r ∈ rows ∧ dh_sha256 r = x.
Proof. unfold distinctDeclared. rewrite (proj2 (distinct_from_spec [] rows)). set_solver. Qed.

Lemma distinct_NoDup rows : NoDup (distinctDeclared rows).
Proof. apply distinct_from_spec. Qed.

Lemma distinct_nil rows : distinctDeclared rows = [] ↔ rows = [].
Proof.
  split; [|by intros ->]. destruct rows as [|r rows]; [done|]. intros Hn. exfalso.
  apply (not_elem_of_nil (dh_sha256 r)). rewrite <-Hn. apply distinct_spec. exists r. split; [by left|done].
Qed.

Section packages.
Context `{TableScan} `{Env} `{HTTPTime} `{Traffic}.
Context (h : Config) (P : DB → Prop) (Q : gmap string string → Prop).
Hypothesis Hset : settled P Q.
Context (J : string → Prop) (key : URLKey).
(** That no row declares the path. *)
Context (E : Prop).

#[local] Hint Extern 1 (settled _ _) => exact Hset : answers.
Notation holds_ R := (answers P Q R).

Definition all_allowed : Prop := ∀ hash, J hash.

(** What a read of the declarations tells about the digests allowed. *)
Definition rows_tell (o : option (list DeclaredHash)) : Prop :=
  match o with
  | None => all_allowed
  | Some rows => (distinctDeclared rows = [] → E) ∧ (distinctDeclared rows ≠ [] → E → all_allowed) ∧
                 (∀ x, distinctDeclared rows = [x] → J x)
  end.

Hypothesis Hrows : ∀ req, url_key req = key → holds_ rows_tell (declared req).
Hypothesis Hstrict : ∀ req client, url_key req = key → E →
  holds_ (λ sm, sm ≠ strictRefuse → all_allowed) (classifyStrictMode h client req).
Hypothesis Hplain : E → isDebPath (key_path key) = false → all_allowed.

Lemma good_checkDeclared req hash rows :
  rows_tell (Some rows) → holds_ (verdict_ok J hash) (checkDeclared req hash rows).
Proof.
  intros (_ & _ & Hone). unfold checkDeclared.
  destruct (distinctDeclared rows) as [|x [|y l]]; [by apply ans_ret| |by apply ans_ret].
  destruct (String.eqb_spec x hash) as [->|]; [by apply ans_ret, Hone|].
  eapply ans_bind; [apply ans_sql; [exact Hset|intros; apply Hset]|]. intros _ _. by apply ans_ret.
Qed.

Lemma good_recheck req hash : url_key req = key → holds_ (verdict_ok J hash) (recheckRefusal req hash).
Proof.
  intros Hk. unfold recheckRefusal. eapply ans_bind; [by apply Hrows|]. intros [[|x rows]|] Ho.
  - by apply ans_ret.
  - by apply good_checkDeclared.
  - eapply ans_bind with (R1 := any); [hkeep|]. intros gone _. apply ans_ret. by destruct gone.
Qed.

Lemma good_checkPackageHashWait waits req hash :
  url_key req = key → holds_ (verdict_ok J hash) (checkPackageHashWait h waits req hash).
Proof.
  intros Hk. assert (rq_path req = key_path key) as Hpath by (by rewrite <-Hk).
  induction waits as [|waits IH]; cbn [checkPackageHashWait];
    (eapply ans_bind; [by apply Hrows|]; intros [rows|] Ho;
     [|eapply ans_bind with (R1 := any); [hkeep|]; intros gone _; apply ans_ret; destruct gone; [done|apply Ho]]);
    (destruct (length (distinctDeclared rows) =? 0)%nat eqn:Hl; [|by apply good_checkDeclared]);
    apply Nat.eqb_eq, length_zero_iff_nil in Hl; destruct Ho as (HE & _); specialize (HE Hl);
    (destruct (isDebPath (rq_path req)) eqn:Hdeb; cbn [negb];
     [|apply ans_ret, Hplain; [done|by rewrite <-Hpath]]);
    (eapply ans_bind; [by apply Hstrict|]; intros sm Hsm).
  - destruct sm; apply ans_ret; try done; by apply Hsm.
  - destruct sm; try (apply ans_ret; by first [done|apply Hsm]).
    destruct (negb (cf_adoptions h)); [by apply ans_ret|].
    eapply ans_bind with (R1 := any); [hkeep|]. intros n _.
    destruct (negb _); [by apply good_recheck|].
    eapply ans_bind with (R1 := any); [hkeep|]. intros n2 _.
    eapply ans_bind with (R1 := any); [hkeep|]. intros gone _. destruct gone; [by apply ans_ret|].
    destruct (adoption_ended n2); [exact IH|by apply ans_ret].
Qed.

(** *** The fetch *)

Notation run_ok R := (holds_ (fails_or R)).

Lemma fails_prefetched req :
  url_key req = key → run_ok (λ _, rq_metadata req = false → E → all_allowed) (prefetched h req).
Proof.
  intros Hk. assert (rq_path req = key_path key) as Hpath by (by rewrite <-Hk).
  unfold prefetched. destruct (rq_metadata req); [by apply ans_ret|].
  eapply ans_bind with (R1 := λ o, match o with Ok _ => E → all_allowed | Err e => is_fetch e ErrUpstreamStatus = false end).
  2:{ intros [u|e] Ho; apply ans_ret; [by intros _|]. apply fails_failed. intros Hu. congruence. }
  unfold prefetchCheck. eapply ans_bind; [by apply Hrows|]. intros [rows|] Ho; [|apply ans_ret; by intros _].
  destruct Ho as (H1E & H2E & _). cbv zeta. destruct (2 <=? _)%nat; [by apply ans_ret|].
  destruct (length (distinctDeclared rows) =? 0)%nat eqn:Hl; cbn [negb orb].
  2:{ apply Nat.eqb_neq in Hl. apply ans_ret, H2E. intros Hn. by rewrite Hn in Hl. }
  apply Nat.eqb_eq, length_zero_iff_nil in Hl. specialize (H1E Hl).
  destruct (isDebPath (rq_path req)) eqn:Hdeb; cbn [negb].
  2:{ apply ans_ret. intros HE. apply Hplain; [done|by rewrite <-Hpath]. }
  eapply ans_bind; [by apply Hstrict|]. intros sm Hsm.
  destruct sm; try (apply ans_ret; intros _; by apply Hsm).
  destruct (negb _); [by apply ans_ret|]. eapply ans_bind with (R1 := any); [hkeep|]. intros n _.
  destruct (adoptions_in_flight _ _); [by apply ans_ret|].
  eapply ans_bind with (R1 := λ o, match o with None => E → all_allowed | Some e => is_fetch e ErrUpstreamStatus = false end).
  2:{ intros [e|] He; by apply ans_ret. }
  unfold prefetchRecheck. eapply ans_bind; [by apply Hrows|]. intros [rows2|] Ho; [|by apply ans_ret].
  apply ans_ret. destruct (2 <=? _)%nat; [done|]. destruct (Nat.ltb_spec 0 (length rows2)); [|done].
  apply Ho. rewrite distinct_nil. intros ->. cbn in *. lia.
Qed.

Lemma fails_finalized m v status (R : string → Prop) :
  stays (AdoptionSafety.I P Q) m → (∀ w a w', m w = (Ok a, w') → R a) →
  run_ok (λ hv, R hv.1) (finalized m v status).
Proof.
  intros Hm HR. unfold finalized. eapply ans_bind; [by apply ans_after with (R := R)|].
  intros [hash|e] Hr; apply ans_ret; [by apply Hr|by apply fails_failed].
Qed.

Lemma fails_trusted body size v status :
  all_allowed → run_ok (λ hv, J hv.1) (finalized (Finalize body size) v status).
Proof. intros Hall. apply fails_finalized; [apply amb_Finalize, Hset|]. intros. apply Hall. Qed.

Lemma fails_strictAfter req :
  url_key req = key → E → holds_ (λ o, match o with None => all_allowed | Some e => is_fetch e ErrUpstreamStatus = false end)
    (strictAfterDownload h req).
Proof.
  intros Hk HE. unfold strictAfterDownload. eapply ans_bind; [by apply Hstrict|]. intros sm Hsm.
  destruct sm; try (apply ans_ret; by apply Hsm).
  eapply ans_bind with (R1 := any); [hkeep|]. intros n _. apply ans_ret. by destruct (_ && _).
Qed.

Lemma fails_finalize_fetched req unread d :
  url_key req = key → (rq_metadata req = true → all_allowed) → (rq_metadata req = false → E → all_allowed) →
  run_ok (λ hv, J hv.1) (finalize_fetched h req unread d).
Proof.
  intros Hk Hm Hpre. unfold finalize_fetched. cbv zeta.
  destruct (rq_metadata req); [apply fails_trusted; auto|].
  eapply ans_bind; [by apply Hrows|]. intros [rows|] Ho; [|apply fails_trusted, Ho].
  destruct Ho as (H1E & _ & Hone). destruct (distinctDeclared rows) as [|x [|y l]].
  - eapply ans_bind with (R1 := λ o, match o with None => all_allowed | Some e => is_fetch e ErrUpstreamStatus = false end).
    { destruct (_ && _); [apply fails_strictAfter; auto|apply ans_ret; auto]. }
    intros [e|] He; [|by apply fails_trusted]. apply ans_ret, fails_failed. intros Hu. congruence.
  - destruct (negb _); [by apply ans_ret, fails_failed|].
    apply fails_finalized; [apply amb_FinalizeExpectingHash, Hset|].
    intros w a w' ->%FinalizeExpectingHash_digest. by apply Hone.
  - by apply ans_ret, fails_failed.
Qed.

(** A step whose answer does not matter fails coherently. *)
Lemma fails_generation req : run_ok any (generation_of h req).
Proof.
  unfold generation_of. destruct (negb _); [by apply ans_ret|]. eapply ans_bind with (R1 := any); [hkeep|].
  intros [g|] _; apply ans_ret; [done|by apply fails_failed].
Qed.

Lemma fails_creationAttempt {A} create (tx : option SuiteKey → Z → T A) status :
  (∀ held now, triple P (tx held now) (λ _, P)) → run_ok any (creationAttempt h create tx status).
Proof.
  intros Htx. unfold creationAttempt.
  eapply ans_bind with (R1 := fails_or any).
  { destruct create; [|by apply ans_ret]. eapply ans_bind with (R1 := any); [hkeep|].
    intros [hb|] _; apply ans_ret; [done|by apply fails_failed]. }
  intros [[held busy]|e] Hr; [|by apply ans_ret].
  eapply ans_bind; [by apply fails_stored|]. intros [a|e] Hr2; by apply ans_ret.
Qed.

Lemma fails_StoreFetched m status : run_ok any (StoreFetched h m status).
Proof.
  unfold StoreFetched. destruct (negb _); [by apply ans_ret, fails_failed|]. cbv zeta.
  match goal with |- context [with_retry _ ?b] => assert (run_ok any b) as Hb end.
  { eapply ans_bind; [apply fails_creationAttempt; intros; apply Hset|].
    intros [[x busy]|e] Hr; by apply ans_ret. }
  unfold with_retry. eapply ans_bind; [exact Hb|]. intros [x|e] Hr; [|by apply ans_ret].
  destruct (Suites.retry _); [exact Hb|by apply ans_ret].
Qed.

Lemma fails_plan_row req file tracked hash f gen t : run_ok any (plan_row h req file tracked hash f gen t).
Proof.
  unfold plan_row. cbv zeta. destruct (bool_decide _); [by apply ans_ret|].
  eapply ans_bind with (R1 := any); [hkeep|]. intros [head|] _.
  2:{ apply ans_ret. destruct (Marks file); [by apply fails_failed|done]. }
  destruct (negb _); [by apply ans_ret|]. destruct (_ || _); [by apply ans_ret|].
  eapply ans_bind with (R1 := any); [hkeep|]. intros t' _.
  eapply ans_bind with (R1 := any); [hkeep|]. intros refused _. destruct refused; [by apply ans_ret|].
  eapply ans_bind with (R1 := any); [hkeep|]. intros cached _. by apply ans_ret.
Qed.

Lemma good_runFetch req file tracked :
  url_key req = key → (rq_metadata req = true → all_allowed) →
  holds_ (good_run J) (runFetch h req file tracked).
Proof.
  intros Hk Hm. unfold runFetch.
  eapply ans_attempt; [apply fails_generation|intros gen _].
  eapply ans_attempt; [by apply fails_acquire|intros _ _].
  eapply ans_attempt; [by apply fails_prefetched|intros unread Hpre].
  eapply ans_attempt; [by apply fails_NewTempBlob|intros _ _].
  eapply ans_attempt; [by apply fails_download|intros d _].
  eapply ans_attempt; [by apply fails_finalize_fetched|intros hv Hhv].
  eapply ans_attempt; [apply fails_stored; [exact Hset|intros; apply Hset]|intros _ _].
  eapply ans_bind with (R1 := any); [hkeep|]. intros t _.
  eapply ans_attempt; [apply fails_plan_row|intros m _].
  eapply ans_attempt; [apply fails_StoreFetched|intros x _].
  eapply ans_bind with (R1 := any); [hkeep|]. intros _ _. cbv zeta. by apply ans_ret.
Qed.
End packages.

(** ** A whole request *)

Section request.
Context `{TableScan} `{Env} `{HTTPTime} `{Traffic}.
Context (h : Config) (P : DB → Prop).
Hypothesis Hset : settled P sound_pool.
Context (J : string → Prop) (r : HTTPRequest) (req : Request).

#[local] Hint Extern 1 (settled _ _) => exact Hset : answers.

Notation holds_ R := (answers P sound_pool R).

Hypothesis Hcheck : rq_metadata req = false → ∀ hash, holds_ (verdict_ok J hash) (checkPackageHash h req hash).
Hypothesis Hrun : ∀ req' file tracked,
  url_key req' = url_key req → rq_metadata req' = rq_metadata req → rq_suite req' = rq_suite req →
  holds_ (good_run J) (runFetch h req' file tracked).
Hypothesis Hjoined : ∀ n x, joins n = Some x → same_fetch req x = true →
  good_run J (runFetch h (ld_req x) (sr_file (newSuiteReq (ld_req x))) (ld_tracked x) (leading x)).1.
Hypothesis Hmeta : rq_metadata req = true → ∀ hash, J hash.

Lemma good_client_left : good J client_left.
Proof. done. Qed.

Lemma good_trySnapshotHit : rq_metadata req = true → holds_ (good_if J) (trySnapshotHit h r req).
Proof.
  intros Hm. pose proof (Hmeta Hm) as Hall. intros s Hs.
  assert (∀ id, member_allowed h P J req id) as Hmem by (intros id d _; split; auto).
  pose proof (trySnapshotHit_ok h P Hset J r req (λ d f id _ _ _, Hmem id) s Hs) as Hok.
  destruct (trySnapshotHit h r req s) as [o s']. by destruct Hok as (? & ? & _).
Qed.

Lemma good_serve_row row hash v : J hash → holds_ (good_if J) (serve_row h r req row hash v).
Proof.
  intros HJ. unfold serve_row. eapply ans_bind; [by apply good_serveBlob|].
  intros [rs|] Hrs; [|by apply ans_ret]. eapply ans_bind with (R1 := any); [hkeep|]. intros sr _.
  eapply ans_bind with (R1 := any); [hkeep|]. intros _ _. apply good_touch; [hkeep|done].
Qed.

Lemma good_tryURLPathHit : holds_ (good_if J) (tryURLPathHit h r req).
Proof.
  unfold tryURLPathHit. eapply ans_bind with (R1 := any); [hkeep|]. intros [[row|e]|] _; [|by apply ans_ret..].
  destruct (up_blob row) as [hash|]; [|by apply ans_ret]. destruct (hash =? "")%string; [by apply ans_ret|].
  destruct (sumbool_of_bool (rq_metadata req)) as [Hm|Hm]; rewrite ?Hm; cbn [negb].
  - eapply ans_bind with (R1 := any); [hkeep|]. intros t _.
    destruct t; cbn [negb]; [|by apply good_serve_row, Hmeta].
    eapply ans_bind with (R1 := any); [hkeep|]. intros gone _. destruct gone; [by apply ans_ret|].
    eapply ans_bind; [by apply good_trySnapshotHit|]. intros [rs|] Hrs; [by apply ans_ret|].
    by apply good_serve_row, Hmeta.
  - eapply ans_bind; [by apply Hcheck|]. intros [rs| |v] Hv; [by apply ans_ret..|by apply good_serve_row].
Qed.

Lemma good_byHash : rq_metadata req = true → holds_ (good_if J) (tryByHashContentAddressed h r req).
Proof.
  intros Hm. unfold tryByHashContentAddressed. eapply ans_bind with (R1 := any); [hkeep|]. intros sr _.
  destruct (_ || _); [by apply ans_ret|]. destruct (byHashSuffix _) as [hash|]; [|by apply ans_ret].
  eapply ans_bind with (R1 := any); [hkeep|]. intros ex _. destruct (negb _); [by apply ans_ret|].
  eapply ans_bind with (R1 := any); [hkeep|]. intros [[[]|e]|] _; try by apply ans_ret.
  eapply ans_bind; [by apply good_serveBlob, Hmeta|]. intros [rs|] Hrs; [|by apply ans_ret].
  eapply ans_bind with (R1 := any); [hkeep|]. intros _ _. apply good_touch; [hkeep|done].
Qed.

Lemma good_or_else m k : holds_ (good_if J) m → holds_ (good_if J) k → holds_ (good_if J) (or_else m k).
Proof. intros Hm Hk. unfold or_else. eapply ans_bind; [exact Hm|]. intros [rs|] Hrs; [by apply ans_ret|done]. Qed.

Lemma good_snapshot_hit : rq_metadata req = true → holds_ (good_if J) (snapshot_hit h r req).
Proof.
  intros Hm. unfold snapshot_hit. eapply ans_bind; [by apply good_trySnapshotHit|]. intros [rs|] Hrs; [by apply ans_ret|].
  eapply ans_bind with (R1 := any); [hkeep|]. intros t _. destruct (negb t); [by apply ans_ret|].
  eapply ans_bind with (R1 := any); [hkeep|]. intros gone _. destruct gone; [by apply ans_ret|].
  by apply good_trySnapshotHit.
Qed.

Lemma good_tryCacheHit : holds_ (good_if J) (tryCacheHit h r req).
Proof.
  unfold tryCacheHit. apply good_or_else.
  - destruct (sumbool_of_bool (rq_metadata req)) as [Hm|Hm]; rewrite ?Hm; cbn [andb]; [|by apply ans_ret].
    destruct (negb _); [by apply good_snapshot_hit|by apply ans_ret].
  - apply good_or_else; [apply good_tryURLPathHit|].
    destruct (sumbool_of_bool (rq_metadata req)) as [Hm|Hm]; rewrite ?Hm; [by apply good_byHash|by apply ans_ret].
Qed.

(** *** Errors *)

Lemma good_tryServeStale : holds_ (good_if J) (tryServeStale h r req).
Proof.
  unfold tryServeStale. destruct (sumbool_of_bool (rq_metadata req)) as [Hm|Hm]; rewrite ?Hm; cbn [negb orb]; [|by apply ans_ret].
  destruct (negb _); [by apply ans_ret|].
  eapply ans_bind with (R1 := any); [hkeep|]. intros [[row|e]|] _; [|by apply ans_ret..].
  destruct (up_blob row) as [hash|]; [|by apply ans_ret].
  eapply ans_bind with (R1 := any); [hkeep|]. intros ex _. destruct (_ || _); [by apply ans_ret|].
  eapply ans_bind; [by apply good_open|]. intros [content|] Hc; [|by apply ans_ret].
  eapply ans_bind with (R1 := any); [hkeep|]. intros age _.
  eapply ans_bind; [apply good_serveContent; [done|by apply Hmeta|by apply Hc]|]. intros rs Hrs.
  apply good_touch; [hkeep|done].
Qed.

Lemma good_bad_gateway status : good J (bad_gateway req status).
Proof. done. Qed.

Lemma good_union rs m : good J rs →
  good J {| rs_status := rs_status rs; rs_headers := rs_headers rs ∪ m; rs_body := rs_body rs |}.
Proof.
  unfold good. cbn. destruct (rs_body rs); [done|]. intros (? & ? & ? & Hh & ?). split_and!; try done.
  destruct Hh as [?|Hh]; [by left|right]. by apply lookup_union_Some_l.
Qed.

Lemma good_unreachable status : holds_ (good J) (respondUpstreamUnreachable h r req status).
Proof.
  unfold respondUpstreamUnreachable. eapply ans_bind; [apply good_tryServeStale|].
  intros [rs|] Hrs; apply ans_ret; [by apply good_union|apply good_bad_gateway].
Qed.

Lemma good_respondError e status : coherent e status → holds_ (good J) (respondError h r req e status).
Proof.
  intros Hc. unfold respondError.
  destruct e; try (apply ans_ret; done); cbv zeta.
  destruct (is_fetch _ ErrHostNotAllowed); [by apply ans_ret|].
  destruct (is_fetch _ ErrTargetDenied); [by apply ans_ret|].
  destruct (is_fetch _ ErrUpstreamStatus) eqn:Hu; [apply ans_ret, good_error; specialize (Hc Hu); lia|].
  destruct (_ || _ || _); [apply good_unreachable|].
  repeat match goal with |- context [if ?b then _ else _] => destruct b end; by apply ans_ret.
Qed.

(** *** Misses *)

Lemma good_coalesced sr : holds_ (λ c, good_run J c.1) (coalesced_fetch h req sr).
Proof.
  assert (holds_ (λ c, good_run J c.1) (fetch_once h req sr)) as Honce.
  { unfold fetch_once. apply ans_Do; [done| |by apply Hrun]. intros n x. apply Hjoined. }
  assert (∀ res, good_run J res → good_run J (settle_unvouched res)) as Hsettle.
  { intros res Hres. unfold settle_unvouched. by destruct (retryable _). }
  unfold coalesced_fetch. eapply ans_bind; [exact Honce|]. intros c Hc.
  destruct (negb _); [by apply ans_ret|]. eapply ans_bind with (R1 := any); [hkeep|]. intros waited _.
  eapply ans_bind with (R1 := any); [hkeep|]. intros gone _. destruct gone; [by apply ans_ret|].
  destruct waited; [|apply ans_ret; cbn; by apply Hsettle].
  eapply ans_bind; [exact Honce|]. intros c2 Hc2. apply ans_ret. cbn. by apply Hsettle.
Qed.

Lemma good_serve_fetched res shared : J (res_blobHash res) → holds_ (good J) (serve_fetched r req res shared).
Proof.
  intros HJ. unfold serve_fetched. eapply ans_bind; [by apply good_open|]. intros [content|] Hc; [|by apply ans_ret].
  eapply ans_bind; [apply good_serveContent; [done|done|by apply Hc]|]. intros rs Hrs.
  eapply ans_bind with (R1 := any); [hkeep|]. intros sr _. cbv zeta.
  eapply ans_bind with (R1 := any); [hkeep|]. intros _ _. by apply ans_ret.
Qed.

(** A package is no anchor: nothing registers it with the gate. *)
Lemma package_unregistered : rq_metadata req = false → holds_ (λ t, t = false) (registerLate h req).
Proof.
  intros Hm. unfold registerLate. eapply ans_bind with (R1 := any); [hkeep|]. intros sr _.
  destruct (_ || _); [by apply ans_ret|]. unfold anchorStart, barrierAnchor. rewrite Hm, andb_false_r. cbn.
  eapply ans_bind with (R1 := λ t, t = false); [by apply ans_ret|]. intros t ->.
  eapply ans_bind with (R1 := any); [apply ans_set_sr|]. intros _ _. by apply ans_ret.
Qed.

Lemma good_serve_miss res shared : J (res_blobHash res) → holds_ (good J) (serve_miss h r req res shared).
Proof.
  intros HJ. unfold serve_miss. eapply ans_bind with (R1 := any); [hkeep|]. intros _ _.
  eapply ans_bind with (R1 := λ t, t = true → rq_metadata req = true).
  { destruct (sumbool_of_bool (rq_metadata req)) as [Hm|Hm]; rewrite ?Hm.
    - eapply ans_weaken; [apply (ans_registerLate h P sound_pool Hset req)|]. done.
    - eapply ans_weaken; [by apply package_unregistered|]. by intros t ->. }
  intros t Ht. eapply ans_bind with (R1 := any); [hkeep|]. intros sr _.
  eapply ans_bind with (R1 := any); [hkeep|]. intros _ _.
  destruct t; cbn [negb]; [|by apply good_serve_fetched].
  eapply ans_bind with (R1 := any); [hkeep|]. intros gone _. destruct gone; [by apply ans_ret|].
  eapply ans_bind; [by apply good_trySnapshotHit, Ht|]. intros [rs|] Hrs; [by apply ans_ret|by apply good_serve_fetched].
Qed.

Lemma good_serveCacheMiss : holds_ (good J) (serveCacheMiss h r req).
Proof.
  unfold serveCacheMiss. eapply ans_bind with (R1 := any); [hkeep|]. intros sr _.
  eapply ans_bind; [apply good_coalesced|]. intros [res shared] Hres. cbv zeta. cbn [fst snd] in *.
  unfold good_run in Hres. destruct (res_err res) as [e|]; [by apply good_respondError|].
  eapply ans_bind; [by apply good_serve_miss|]. intros rs Hrs.
  eapply ans_bind with (R1 := any); [hkeep|]. intros _ _. by apply ans_ret.
Qed.

Lemma good_serve_request : holds_ (good J) (serve_request h r req).
Proof.
  unfold serve_request. eapply ans_bind with (R1 := any); [hkeep|]. intros t _.
  eapply ans_bind with (R1 := any); [apply ans_set_sr|]. intros _ _.
  eapply ans_bind with (R1 := any); [hkeep|]. intros gone _. destruct gone; [by apply ans_ret|].
  eapply ans_bind; [apply good_tryCacheHit|]. intros [rs|] Hrs; [by apply ans_ret|].
  destruct (negb _); [by apply ans_ret|apply good_serveCacheMiss].
Qed.
End request.
