(* ===== verification/HandlerSafety.v ===== *)
(** * What a request is answered with

    The handler's contract towards a client: whatever the other goroutines do
    between its steps, a body is a sound file of the pool under its own entity
    tag; the packages that the current snapshots declare are served with the
    declared digest or not at all; a suite with a current snapshot answers for
    its metadata from that snapshot alone; and every failure has its status. *)
From S2P Require Import Prelude GoStrings AptPath GoText Tables Invariant Snapshots Suites GC Rows Declared Serving Store Proxy Fetch MemberFetch Adoption AdoptionSafety SeedRejections HTTPContent Handler HandlerLaws.
Local Open Scope Z_scope.

Section safety.
Context `{TableScan} `{Env} `{HTTPTime} `{Traffic}.
Context (h : Config).

(** The other goroutines keep a property of the database and one of the pool. *)
Definition others_keep (P : DB → Prop) (Q : gmap string string → Prop) : Prop :=
  ∀ n w, P (w_db w) → Q (w_pool w) → P (w_db (others n w)) ∧ Q (w_pool (others n w)).

Lemma sound_pool_delete p k : sound_pool p → sound_pool (delete k p).
Proof. intros Hp hash c [_ Hc]%lookup_delete_Some. by apply Hp. Qed.

Lemma sound_pool_add p body : sound_pool p → sound_pool (<[sha256 body := body]> p).
Proof. intros Hp hash c [[<- <-]|[_ Hc]]%lookup_insert_Some; [done|by apply Hp]. Qed.

Lemma settled_wf : others_keep wf sound_pool → settled wf sound_pool.
Proof.
  intros Hothers. split; intros; [|eauto 2 with wf..].
  split; intros; eauto 2 with wf; [by apply sound_pool_delete|by apply sound_pool_add].
Qed.

Lemma settled_view d0 : others_keep (view d0) sound_pool → settled (view d0) sound_pool.
Proof.
  intros Hothers. split; intros.
  - split; intros; [apply view_PutBlob|apply view_PutRepresentation|apply view_HeartbeatSnapshot
      |apply view_HeartbeatBlobs|apply view_mark_chunk|by apply sound_pool_delete|by apply sound_pool_add].
  - apply view_TouchURLPath.
  - apply view_touch_suite.
  - apply view_EvictURLPath.
  - apply view_PutURLPath.
  - apply view_storeFetchedTx.
  - apply view_createSuiteTx.
  - by apply Hothers.
Qed.

(** ** The frame of a request *)

(** A request to serve, or an answer before anything was looked at. *)
Lemma ans_ServeHTTP (P : DB → Prop) (J : Request → string → Prop) IP_literal r :
  settled P sound_pool →
  (∀ req, Parse IP_literal (cf_parser h) (hr_uri r) = Ok req →
     answers P sound_pool (good (J req)) (serve_request h r req)) →
  answers P sound_pool
    (λ o, ∀ rs, o = Some rs →
       match Parse IP_literal (cf_parser h) (hr_uri r) with
       | Ok req => good (J req) rs
       | Err _ => good (λ _, False) rs
       end) (ServeHTTP h IP_literal r).
Proof.
  intros Hset Hserve. unfold ServeHTTP.
  assert (∀ K, good K (method_not_allowed h)) as Hm by done.
  destruct (hr_method r =? "CONNECT")%string.
  { apply ans_ret. destruct (cf_connect h); [done|]. intros rs [= <-]. by destruct (Parse _ _ _). }
  destruct (_ && _); [apply ans_ret; intros rs [= <-]; by destruct (Parse _ _ _)|].
  destruct (Parse IP_literal (cf_parser h) (hr_uri r)) as [req|e] eqn:Hp.
  - eapply ans_bind with (R1 := any); [apply ans_set_sr|]. intros _ _.
    eapply ans_bind; [by apply Hserve|]. intros rs Hrs. apply ans_ret. by intros rs' [= <-].
  - apply ans_ret. by intros rs [= <-].
Qed.

Lemma ans_classifyStrictMode (P : DB → Prop) Q client req :
  settled P Q → answers P Q any (classifyStrictMode h client req).
Proof. intros Hset. unfold classifyStrictMode. hkeep. Qed.

Lemma permissive_request (P : DB → Prop) r req :
  settled P sound_pool → answers P sound_pool (good (λ _, True)) (serve_request h r req).
Proof.
  intros Hset.
  assert (∀ P Q, settled P Q → ∀ req', answers P Q (rows_tell (λ _, True) True) (declared req')) as Hrows.
  { intros P' Q' Hset' req'. eapply ans_weaken; [by apply ans_read_any|]. by intros [rows|] _. }
  assert (∀ P Q, settled P Q → ∀ req' client, answers P Q (λ sm, sm ≠ strictRefuse → all_allowed (λ _, True))
    (classifyStrictMode h client req')) as Hstrict.
  { intros P' Q' Hset' req' client. eapply ans_weaken; [by apply ans_classifyStrictMode|]. done. }
  apply good_serve_request; [done| | | |done].
  - intros Hm hash. by apply good_checkPackageHashWait with (key := url_key req) (E := True); eauto.
  - intros req' file tracked Hk _ _. by apply good_runFetch with (key := url_key req) (E := True); eauto.
  - intros n x _ _. apply always_answers.
    pose proof settled_anything. by apply good_runFetch with (key := url_key (ld_req x)) (E := True); eauto.
Qed.

(** C8. A request among all the others.  Whatever the other goroutines write
    between its steps, as long as it keeps the database well formed and the
    pool's files named after their contents, a request and the goroutines it
    leaves behind keep both; and a response is an error, with a status of 400
    to 599, or carries a file of the pool: bytes of the very digest its entity
    tag names, cut to slices that lie inside it. *)
Theorem ServeHTTP_sound IP_literal r s :
  others_keep wf sound_pool →
  wf (w_db (hs_world s)) → sound_pool (w_pool (hs_world s)) →
  let '(o, s1) := ServeHTTP h IP_literal r s in
  let s2 := (run_jobs (hs_jobs s1) s1).2 in
  wf (w_db (hs_world s2)) ∧ sound_pool (w_pool (hs_world s2)) ∧
  ∀ rs, o = Some rs →
    match rs_body rs with
    | Text _ => 400 <= rs_status rs < 600
    | File hash content slices =>
        sha256 content = hash ∧ slices_ok (len content) slices ∧
        (rs_status rs = 416 ∨ rs_headers rs !! "ETag" = Some (blob_etag hash)) ∧
        rs_status rs ∈ [200; 206; 304; 412; 416]
    end.
Proof.
  intros Hothers Hwf Hpool. pose proof (settled_wf Hothers) as Hset.
  destruct (ans_ServeHTTP wf (λ _ _, True) IP_literal r Hset (λ req _, permissive_request wf r req Hset) s
    (conj Hwf Hpool)) as [Hs1 Hrs].
  destruct (ServeHTTP h IP_literal r s) as [o s1]. cbn [fst snd] in *.
  destruct (ans_run_jobs wf sound_pool Hset (hs_jobs s1) s1 Hs1) as [[Hwf2 Hpool2] _].
  split_and!; [done|done|]. intros rs Ho. specialize (Hrs rs Ho). unfold good in Hrs.
  destruct (Parse _ _ _), (rs_body rs); try done; by destruct Hrs as (? & ? & ? & ? & ?).
Qed.

(** ** Packages *)

Lemma strict_outcome_ext l l' : (∀ e, e ∈ l ↔ e ∈ l') → strict_outcome l = strict_outcome l'.
Proof.
  intros He. unfold strict_outcome.
  assert (existsb (λ r : Z * bool, negb r.2) l = existsb (λ r : Z * bool, negb r.2) l') as ->.
  { apply eq_true_iff_eq. rewrite !existsb_exists. setoid_rewrite <-list_elem_of_In. by setoid_rewrite He. }
  destruct l as [|e l], l' as [|e' l']; try done; exfalso.
  - apply (not_elem_of_nil e'), He. by left.
  - apply (not_elem_of_nil e), He. by left.
Qed.

(** Strict mode is on, and every current signed snapshot of the host covers
    its packages. *)
Definition strict_refuses (d : DB) (req : Request) : Prop :=
  refuseUnvouchedDebs h = true ∧ adoptionEnabled h = true ∧
  strict_outcome (HostCurrentSnapshotsCoverage d (rq_scheme req) (rq_host req)) = strictRefuse.

(** The digests under which a package may be served. *)
Definition package_allowed (d : DB) (req : Request) (hash : string) : Prop :=
  match distinctDeclared (DeclaredHashesForPath d true (rq_scheme req) (rq_host req) (rq_path req)) with
  | [] => ¬ (isDebPath (rq_path req) = true ∧ strict_refuses d req)
  | [x] => hash = x
  | _ => False
  end.

Section one_package.
Context (d0 : DB) (req : Request).
Hypothesis Hothers : others_keep (view d0) sound_pool.
Hypothesis Hread : ∀ n, read_fault n = false.
Hypothesis Hflag : flatRowsExist d0 = true → ∀ n, flat_flag n = true.

(** The runs it may join began while the declarations were as they are. *)
Hypothesis Hleaders : ∀ n x, joins n = Some x → same_fetch req x = true →
  view d0 (w_db (ld_world x)) ∧ sound_pool (w_pool (ld_world x)).

Notation D0 := (distinctDeclared (DeclaredHashesForPath d0 true (rq_scheme req) (rq_host req) (rq_path req))).

Lemma stable_declared d n :
  view d0 d → distinctDeclared (DeclaredHashesForPath d (flat_flag n) (rq_scheme req) (rq_host req) (rq_path req)) ≡ₚ D0.
Proof.
  intros Hv. apply NoDup_Permutation; [apply distinct_NoDup..|]. intros x. rewrite !distinct_spec.
  setoid_rewrite (view_declared d0 d Hv); [done|]. unfold flatRowsExist. rewrite (vw_pkg _ _ Hv).
  intros Hf. by apply Hflag.
Qed.

Lemma package_rows_tell req' : url_key req' = url_key req →
  answers (view d0) sound_pool (rows_tell (package_allowed d0 req) (D0 = [])) (declared req').
Proof.
  intros Hk. unfold declared. pose proof (settled_view d0 Hothers) as Hset.
  injection Hk as Hs Hh Hp. rewrite Hs, Hh, Hp.
  eapply ans_weaken; [by apply ans_read_sure|]. intros o (n & d & Hv & ->).
  pose proof (stable_declared d n Hv) as Hperm. unfold rows_tell, all_allowed, package_allowed. split_and!.
  - intros Hn. rewrite Hn in Hperm. by apply Permutation_nil_l in Hperm.
  - intros Hn He. rewrite He in Hperm. by apply Permutation_nil_r in Hperm.
  - intros x Hx. rewrite Hx in Hperm. apply Permutation_length_1_inv in Hperm. by rewrite Hperm.
Qed.

Lemma package_strict req' client : url_key req' = url_key req → D0 = [] →
  answers (view d0) sound_pool (λ sm, sm ≠ strictRefuse → all_allowed (package_allowed d0 req))
    (classifyStrictMode h client req').
Proof.
  intros Hk HE. pose proof (settled_view d0 Hothers) as Hset. injection Hk as Hs Hh Hp.
  assert (∀ sm, (strict_refuses d0 req → sm = strictRefuse) → sm ≠ strictRefuse →
    all_allowed (package_allowed d0 req)) as Hall.
  { intros sm Hsm Hne hash. unfold package_allowed. rewrite HE. intros [_ Hr]. auto. }
  unfold classifyStrictMode.
  destruct (refuseUnvouchedDebs h) eqn:Hr; [destruct (adoptionEnabled h) eqn:Ha|]; cbn [negb orb].
  2,3: apply ans_ret, Hall; unfold strict_refuses; rewrite ?Hr, ?Ha; by intros (? & ? & _).
  eapply ans_bind; [by apply ans_read_sure|]. intros o (n & d & Hv & ->). apply ans_ret, Hall.
  intros (_ & _ & <-). rewrite Hs, Hh. apply strict_outcome_ext. intros e. by apply view_coverage.
Qed.

Lemma package_plain : D0 = [] → isDebPath (key_path (url_key req)) = false → all_allowed (package_allowed d0 req).
Proof.
  change (key_path (url_key req)) with (rq_path req). intros HE Hdeb hash. unfold package_allowed. rewrite HE.
  intros [Hd _]. congruence.
Qed.

Lemma package_request r : rq_metadata req = false →
  answers (view d0) sound_pool (good (package_allowed d0 req)) (serve_request h r req).
Proof.
  intros Hm. pose proof (settled_view d0 Hothers) as Hset.
  assert (∀ req' file tracked, url_key req' = url_key req → rq_metadata req' = rq_metadata req →
            answers (view d0) sound_pool (good_run (package_allowed d0 req)) (runFetch h req' file tracked)) as Hrun.
  { intros. apply good_runFetch with (key := url_key req) (E := D0 = []);
      eauto using package_rows_tell, package_strict, package_plain; intros; congruence. }
  apply good_serve_request; [done| | | |congruence].
  - intros. apply good_checkPackageHashWait with (key := url_key req) (E := D0 = []);
      eauto using package_rows_tell, package_strict, package_plain.
  - auto.
  - intros n x Hn Hx. destruct (Hleaders n x Hn Hx) as [Hv Hp].
    unfold same_fetch in Hx. bclean. eapply Hrun; [done| |by split].
    by destruct (rq_metadata (ld_req x)), (rq_metadata req).
Qed.
End one_package.

(** C3. What a package is served as.  While the declarations and the current
    snapshots stay as they are and the database can be read, a request for a
    file that is no metadata changes neither, and its response is an error
    or: the one digest that the signed current snapshots declare for the path,
    with that content; never a file they disagree about; and an undeclared
    file only if it is no .deb, or strict mode is off, or some current
    snapshot of the host does not cover its packages, or there is none.  No
    row left by an earlier fetch serves anything else, and neither does a fetch
    that was under way when the request came and that it joins, if that fetch
    began under the same declarations.  (A read that fails lets a package
    through, and so does a fetch that had passed its check before an adoption
    declared another digest: both are outside the hypotheses.) *)
Theorem package_served IP_literal r s req :
  let d0 := w_db (hs_world s) in
  others_keep (view d0) sound_pool →
  (∀ n, read_fault n = false) → (flatRowsExist d0 = true → ∀ n, flat_flag n = true) →
  (∀ n x, joins n = Some x → same_fetch req x = true →
     view d0 (w_db (ld_world x)) ∧ sound_pool (w_pool (ld_world x))) →
  sound_pool (w_pool (hs_world s)) →
  Parse IP_literal (cf_parser h) (hr_uri r) = Ok req → rq_metadata req = false →
  let '(o, s1) := ServeHTTP h IP_literal r s in
  view d0 (w_db (hs_world s1)) ∧
  ∀ rs, o = Some rs →
    match rs_body rs with
    | Text _ => 400 <= rs_status rs < 600
    | File hash content _ => package_allowed d0 req hash ∧ sha256 content = hash
    end.
Proof.
  intros d0 Hothers Hread Hflag Hleaders Hpool Hparse Hm. pose proof (settled_view d0 Hothers) as Hset.
  destruct (ans_ServeHTTP (view d0) (package_allowed d0) IP_literal r Hset) with (s := s) as [[Hv _] Hrs].
  - intros req' Hp. rewrite Hparse in Hp. injection Hp as <-. by apply package_request.
  - split; [apply view_refl|done].
  - destruct (ServeHTTP h IP_literal r s) as [o s1]. cbn [fst snd] in *. split; [done|].
    intros rs Ho. specialize (Hrs rs Ho). rewrite Hparse in Hrs. unfold good in Hrs.
    destruct (rs_body rs); [done|]. by destruct Hrs as (? & ? & _).
Qed.
(** ** Metadata of an adopted suite *)

(** The digests under which the snapshot [id], or under a by-hash name a
    snapshot the suite adopted before it, has the requested member. *)
Definition from_suite (d : DB) (req : Request) (id : Z) (hash : string) : Prop :=
  let p := suiteRelativePath (rq_suite req) (rq_path req) in
  (∃ m, member_t d !! (id, p) = Some m ∧ (hash = m_blob m ∨ hash = m_declared m)) ∨
  (member_t d !! (id, p) = None ∧ 0 < keepDisplaced h ∧
   ∃ want i m s, byHashMember p = Some want ∧ (want ≠ "" → hash = want) ∧ i ≠ id ∧
     member_t d !! (i, p) = Some m ∧ hash = m_blob m ∧
     snap_t d !! i = Some s ∧ ss_suite s = suiteKeyOf req ∧ is_Some (ss_adopted s)).

Lemma hio_bind_run {A B} (m : hio A) (f : A → hio B) s : (m ≫= f) s = f (m s).1 (m s).2.
Proof. unfold mbind, hio_bind. by destruct (m s). Qed.

Section one_suite.
Context (d0 : DB) (req : Request) (id : Z).
Hypothesis Hothers : others_keep (view d0) sound_pool.
Hypothesis Hmeta : rq_metadata req = true.
Hypothesis Hsuite : rq_suite req ≠ "".
Hypothesis Hcurrent : suite_current d0 (suiteKeyOf req) = Some id.

Let Hset : settled (view d0) sound_pool := settled_view d0 Hothers.

Lemma suite_member_allowed : member_allowed h (view d0) (from_suite d0 req id) req id.
Proof.
  intros d Hv. rewrite (vw_member _ _ Hv). split.
  - intros m Hm. split; left; exists m; auto.
  - intros d1 want i m Hv1. rewrite (vw_member _ _ Hv1). intros Hnone Hkeep Hw Hin Hwant. right.
    apply DisplacedSnapshotMembers_sound in Hin as (Hl & Hne & s & Hs & Hk & Had & _).
    rewrite (vw_member _ _ Hv) in Hl. split; [done|]. split; [done|].
    pose proof (vw_snap _ _ Hv i) as Hface. rewrite Hs in Hface.
    destruct (snap_t d0 !! i) as [s0|] eqn:Hs0; [|done]. cbn in Hface. unfold snap_face in Hface.
    injection Hface as F1 F2 F3 F4. exists want, i, m, s0. split_and!; try done; congruence.
Qed.

Lemma suite_row_exists d : view d0 d → HasSuiteRow d (suiteKeyOf req) = true.
Proof.
  intros Hv. unfold HasSuiteRow. apply bool_decide_eq_true_2. rewrite <-(vw_current _ _ Hv) in Hcurrent.
  unfold suite_current in Hcurrent. destruct (suite_t d !! suiteKeyOf req); [eauto|done].
Qed.

(** The anchor of a tracked suite is registered with the gate. *)
Lemma suite_registers s :
  AdoptionSafety.I (view d0) sound_pool (hs_world s) →
  sr_tok (hs_sr s) = false → sr_tracked (hs_sr s) = true → barrierAnchor h req = true →
  let '(t, s') := registerLate h req s in
  t = true ∧ sr_tok (hs_sr s') = true ∧ AdoptionSafety.I (view d0) sound_pool (hs_world s').
Proof.
  intros Hs Htok Htr Hb.
  assert (answers (view d0) sound_pool (λ t, t = true) (anchorStart h req)) as Hstart.
  { unfold anchorStart. rewrite Hb. cbn [negb]. eapply ans_bind; [by apply ans_read|].
    intros [[|]|] Ho; [| |].
    - eapply ans_bind with (R1 := any); [by apply ans_tick|]. intros _ _. by apply ans_ret.
    - destruct (Ho _ eq_refl) as (n & d & Hv & Hrow). by rewrite (suite_row_exists d Hv) in Hrow.
    - eapply ans_bind with (R1 := any); [by apply ans_clientLeft|]. intros [|] _; [by apply ans_ret|].
      eapply ans_bind with (R1 := any); [by apply ans_tick|]. intros _ _. by apply ans_ret. }
  unfold registerLate, get_sr. unfold mbind at 1, hio_bind. rewrite Htok, Htr. cbn [orb negb].
  specialize (Hstart s Hs). unfold mbind, hio_bind. destruct (anchorStart h req s) as [t s1].
  destruct Hstart as [Hs1 Ht]. cbn in Ht, Hs1 |- *. by rewrite Ht.
Qed.

Lemma snapshot_hit_answers r :
  answers (view d0) sound_pool (answered (from_suite d0 req id)) (snapshot_hit h r req).
Proof.
  assert (∀ d f i, view d0 d → suite_t d !! suiteKeyOf req = Some f → sf_current f = Some i →
    member_allowed h (view d0) (from_suite d0 req id) req i) as Hmem.
  { intros d f i Hv Hf Hc. pose proof (vw_current _ _ Hv (suiteKeyOf req)) as Hcur. rewrite Hcurrent in Hcur.
    unfold suite_current in Hcur. rewrite Hf in Hcur. cbn in Hcur. replace i with id by congruence.
    apply suite_member_allowed. }
  assert (∀ d, view d0 d → suite_current d (suiteKeyOf req) ≠ None) as Hsome.
  { intros d Hv. rewrite (vw_current _ _ Hv), Hcurrent. done. }
  intros s Hs. unfold snapshot_hit. rewrite hio_bind_run.
  pose proof (trySnapshotHit_ok h (view d0) Hset (from_suite d0 req id) r req Hmem s Hs) as Hfirst.
  destruct (trySnapshotHit h r req s) as [[rs|] s1]; cbn [fst snd].
  { destruct Hfirst as (Hs1 & Hgood & _). split; [done|]. by exists rs. }
  destruct Hfirst as (Hs1 & _ & Hnone). destruct (Hnone eq_refl) as [Htok [(d & Hv & Hc)|(Htok0 & Hb & Htr)]];
    [by apply Hsome in Hc|].
  rewrite Htok0 in Htok. pose proof (suite_registers s1 Hs1 Htok Htr Hb) as Hreg.
  rewrite hio_bind_run. destruct (registerLate h req s1) as [t s2]. destruct Hreg as (-> & Htok2 & Hs2).
  cbn [fst snd negb]. rewrite hio_bind_run. pose proof (ans_clientLeft _ _ Hset s2 Hs2) as [Hs3 _].
  assert (hs_sr (clientLeft s2).2 = hs_sr s2) as Hsr by done.
  destruct (clientLeft s2) as [gone s3]. cbn [fst snd] in *.
  destruct gone; [split; [done|by exists client_left]|].
  pose proof (trySnapshotHit_ok h (view d0) Hset (from_suite d0 req id) r req Hmem s3 Hs3) as Hsecond.
  destruct (trySnapshotHit h r req s3) as [[rs|] s4]; destruct Hsecond as (Hs4 & Hgood & Hnone4).
  - split; [done|]. by exists rs.
  - exfalso. destruct (Hnone4 eq_refl) as [_ [(d & Hv & Hc)|(Htok4 & _)]]; [by apply Hsome in Hc|].
    rewrite Hsr, Htok2 in Htok4. done.
Qed.

Lemma suite_request r : answers (view d0) sound_pool (good (from_suite d0 req id)) (serve_request h r req).
Proof.
  pose proof Hset as Hset'. unfold serve_request. eapply ans_bind with (R1 := any); [hkeep|]. intros t _.
  eapply ans_bind with (R1 := any); [apply ans_set_sr|]. intros _ _.
  eapply ans_bind with (R1 := any); [hkeep|]. intros gone _. destruct gone; [by apply ans_ret|].
  eapply ans_bind with (R1 := answered (from_suite d0 req id)).
  - unfold tryCacheHit, or_else at 1. rewrite Hmeta. apply String.eqb_neq in Hsuite. rewrite Hsuite. cbn [negb andb].
    eapply ans_bind; [apply snapshot_hit_answers|]. intros [rs|] Hrs; [by apply ans_ret|]. by destruct Hrs as (? & [=] & _).
  - intros o (rs & -> & Hgood). by apply ans_ret.
Qed.
End one_suite.

(** C6. What an adopted suite's metadata is served from.  While the suites'
    current snapshots stay as they are, and whatever reads fail, a request
    for a metadata file of a suite that has a current snapshot is answered
    with the digest that snapshot has for the member - its blob, or a fetched
    body of its declared digest when the blob is gone - or, when the snapshot
    has no such member and the name is a by-hash one, with the blob that a
    snapshot the suite adopted earlier has under that name and digest; or with an
    error.  No cached path and no answer of the upstream ever stands in for the
    snapshot, so that a client reads one consistent set of indexes. *)
Theorem metadata_from_snapshot IP_literal r s req id :
  let d0 := w_db (hs_world s) in
  others_keep (view d0) sound_pool → sound_pool (w_pool (hs_world s)) →
  Parse IP_literal (cf_parser h) (hr_uri r) = Ok req → rq_metadata req = true → rq_suite req ≠ "" →
  suite_current d0 (suiteKeyOf req) = Some id →
  let '(o, s1) := ServeHTTP h IP_literal r s in
  view d0 (w_db (hs_world s1)) ∧
  ∀ rs, o = Some rs →
    match rs_body rs with
    | Text _ => 400 <= rs_status rs < 600
    | File hash content _ => from_suite d0 req id hash ∧ sha256 content = hash
    end.
Proof.
  intros d0 Hothers Hpool Hparse Hm Hsuite Hcur. pose proof (settled_view d0 Hothers) as Hset.
  destruct (ans_ServeHTTP (view d0) (λ q, from_suite d0 q id) IP_literal r Hset) with (s := s) as [[Hv _] Hrs].
  - intros req' Hp. rewrite Hparse in Hp. injection Hp as <-. by apply suite_request.
  - split; [apply view_refl|done].
  - destruct (ServeHTTP h IP_literal r s) as [o s1]. cbn [fst snd] in *. split; [done|].
    intros rs Ho. specialize (Hrs rs Ho). rewrite Hparse in Hrs. unfold good in Hrs.
    destruct (rs_body rs); [done|]. by destruct Hrs as (? & ? & _).
Qed.
(** ** Errors *)

(** The upstream cannot be reached, or fails. *)
Definition unreachable (e : herror) : bool :=
  is_fetch e ErrUpstreamUnavailable || is_fetch e ErrUpstreamServerError || is_fetch e ContextDeadlineExceeded.

Notation always R := (answers anything anything R).

(** A file, under the given header. *)
Definition file_as (cache : string) (rs : Response) : Prop :=
  rs_headers rs !! "X-Cache" = Some cache ∧ match rs_body rs with File _ _ _ => True | Text _ => False end.

Lemma serveContent_as r req hash content lastmod cache headers :
  always (file_as cache) (serveContent r req hash content lastmod (("X-Cache", cache) :: headers)).
Proof.
  pose proof settled_anything as Hset. unfold serveContent.
  eapply ans_bind with (R1 := any); [hkeep|]. intros date _. apply ans_ret. split; [|done]. cbn [rs_headers].
  set (c := ServeContent _ _ _ _). rewrite !list_to_map_app.
  rewrite lookup_union_r by (by destruct (_ && _)). rewrite lookup_union_r by (by destruct (ct_etag c)).
  rewrite lookup_union_r by (clearbody c; destruct (ct_range c =? "")%string; reflexivity). cbn. by rewrite lookup_insert_eq.
Qed.

Lemma tryServeStale_as r req :
  always (λ o, ∀ rs, o = Some rs →
    file_as "HIT-STALE" rs ∧ rq_metadata req = true ∧ serveStaleWhenUpstreamDown h = true) (tryServeStale h r req).
Proof.
  pose proof settled_anything as Hset. unfold tryServeStale.
  destruct (rq_metadata req), (serveStaleWhenUpstreamDown h); cbn [negb orb]; try by apply ans_ret.
  eapply ans_bind with (R1 := any); [hkeep|]. intros [[row|e]|] _; [|by apply ans_ret..].
  destruct (up_blob row) as [hash|]; [|by apply ans_ret].
  eapply ans_bind with (R1 := any); [hkeep|]. intros ex _. destruct (_ || _); [by apply ans_ret|].
  eapply ans_bind with (R1 := any); [hkeep|]. intros [content|] _; [|by apply ans_ret].
  eapply ans_bind with (R1 := any); [hkeep|]. intros age _.
  eapply ans_bind; [apply serveContent_as|]. intros rs Hrs. cbv zeta.
  eapply ans_bind with (R1 := any); [hkeep|]. intros _ _. apply ans_ret. by intros rs' [= <-].
Qed.

(** When a client is asked to come back, by the error. *)
Definition come_back (req : Request) (e : herror) : string :=
  match e with
  | EHashMismatch | EHashConflict | EUnvouchedRefused => "60"
  | ESnapshotMemberMismatch => "30"
  | _ => retryAfterForRequest req
  end.

Definition error_answer (req : Request) (e : herror) (status : Z) (rs : Response) : Prop :=
  let later := rs_headers rs !! "Retry-After" in
  match rs_body rs with
  | File _ _ _ =>
      rq_metadata req = true ∧ serveStaleWhenUpstreamDown h = true ∧ unreachable e = true ∧
      rs_headers rs !! "X-Cache" = Some "HIT-STALE"
  | Text _ =>
      (e = EMetadataChanged ∧ rs_status rs = 503 ∧ later = Some "1") ∨
      ((is_fetch e ErrHostNotAllowed || is_fetch e ErrTargetDenied) = true ∧ rs_status rs = 403 ∧ later = None) ∨
      (is_fetch e ErrUpstreamStatus = true ∧ rs_status rs = status ∧ later = None) ∨
      (is_fetch e ContextCanceled = true ∧ rs_status rs = 503 ∧ later = Some "5") ∨
      (e ≠ EMetadataChanged ∧ rs_status rs = 502 ∧ later = Some (come_back req e))
  end.

Lemma no_retry_header status : list_to_map (M := gmap string string) (upstream_header status) !! "Retry-After" = None.
Proof. unfold upstream_header. by destruct (0 <? status). Qed.

(** How a miss that failed is answered.  An old copy is served only for
    metadata, when the configuration allows it, and only because the upstream
    is unreachable or failing - never in place of a refusal, a mismatch or
    a disk error - and is marked stale; a forbidden host or target is a 403 and
    the upstream's own refusal keeps its status, neither with a time to
    return; a client that left or a repository that changed under the
    download is a 503; everything else is a 502 with the time its class has. *)
Theorem respondError_classified r req e status s :
  error_answer req e status (respondError h r req e status s).1.
Proof.
  pose proof settled_anything as Hset.
  assert (always (error_answer req e status) (respondError h r req e status)) as Ha;
    [|by apply Ha].
  unfold respondError, bad_gateway, http_error.
  destruct e as [f| | | | | | |]; cbv zeta; cbn [is_fetch orb];
    [|apply ans_ret; unfold error_answer; cbn [rs_body rs_headers rs_status list_to_map foldr fst snd uncurry];
      first [left; by rewrite lookup_insert_eq | right; right; right; right; by rewrite lookup_insert_eq]..].
  change (errors_is f) with (is_fetch (EFetch f)). set (e' := EFetch f).
  assert (∀ rs, rs = bad_gateway req status → error_answer req e' status rs) as Hbad.
  { intros rs ->. right; right; right; right. cbn. by rewrite lookup_insert_eq. }
  clearbody e'.
  destruct (is_fetch e' ErrHostNotAllowed) eqn:E1;
    [apply ans_ret; right; left; rewrite E1; split_and!; [done..|apply no_retry_header]|].
  destruct (is_fetch e' ErrTargetDenied) eqn:E2;
    [apply ans_ret; right; left; rewrite E2, orb_true_r; split_and!; [done..|apply no_retry_header]|].
  destruct (is_fetch e' ErrUpstreamStatus) eqn:E3;
    [apply ans_ret; right; right; left; split_and!; [done..|apply no_retry_header]|].
  destruct (_ || _ || _) eqn:E4.
  - unfold respondUpstreamUnreachable. eapply ans_bind; [apply tryServeStale_as|].
    intros [rs|] Hrs; apply ans_ret; [|by apply Hbad].
    destruct (Hrs rs eq_refl) as ((Hx & Hfile) & Hm & Hst). unfold error_answer. cbn.
    destruct (rs_body rs); [done|]. split_and!; try done. by apply lookup_union_Some_l.
  - destruct (is_fetch e' ErrCacheWriteFailed); [by apply ans_ret, Hbad|].
    destruct (is_fetch e' ErrInvalidURL || is_fetch e' ErrRedirectBlocked); [by apply ans_ret, Hbad|].
    destruct (is_fetch e' ContextCanceled) eqn:E5; [|by apply ans_ret, Hbad].
    apply ans_ret. right; right; right; left. cbn. by rewrite lookup_insert_eq.
Qed.
End safety.
