(* ===== verification/HandlerRuns.v ===== *)
(** * Three requests

    A suite with a current snapshot of one member, which declares one package:
    a package that is fetched from the upstream, one asked for by a client whose
    host is not allowed, and the suite's index.  The theorems of [HandlerSafety]
    are applied to them. *)
From S2P Require Import Prelude GoStrings AptPath GoText Tables Invariant Snapshots Suites GC Rows Declared Serving ReleaseParse Proxy Fetch MemberFetch AdoptionSafety SeedRejections HTTPContent Handler HandlerLaws HandlerSafety.
Local Open Scope Z_scope.

#[local] Existing Instance key_order_scan.
#[local] Existing Instance quiet_env.
#[local] Existing Instance dateless.

Definition quiet_traffic : Traffic :=
  {| others := λ _ w, w; others_rejected := λ _ r, r; read_fault := λ _, false; client_gone := λ _, false; HostAllowed := λ _, true;
     upstream := λ _ _, Ok {| dl_body := "hello"; dl_result := {| fr_Status := 200; fr_ContentType := "";
       fr_ContentLength := 5; fr_ETag := ""; fr_LastModified := "" |} |};
     adoptions_in_flight := λ _ _, false; adoption_ended := λ _, false; joins := λ _, None;
     holds := λ _ _, true; flat_flag := λ _, true; touch_due := λ _ _, true |}.
#[local] Existing Instance quiet_traffic.

Definition strict_config : Config :=
  {| cf_parser := debian_parser; cf_connect := false; cf_freshness := true; cf_adoptions := true;
     serveStaleWhenUpstreamDown := true; refuseUnvouchedDebs := true; adoptionEnabled := true;
     gateEnabled := true; keepDisplaced := 1; maxSuites := 100 |}.

Definition adopted_row : SuiteFreshness :=
  {| sf_last_check := None; sf_last_success := None; sf_etag := None; sf_lastmod := None; sf_change_seen := None;
     sf_current := Some 1; sf_last_requested := None; sf_check_fail := 0; sf_fail_hash := None;
     sf_fail_reason := None; sf_fail_count := 0; sf_fail_first := None; sf_fail_last := None;
     sf_next_retry := None; sf_fail_etag := None; sf_fail_lastmod := None; sf_rowid := 1; sf_generation := 1 |}.

Definition adopted_snapshot : SuiteSnapshot :=
  {| ss_suite := demo_key; ss_inrelease := None; ss_etag := None; ss_lastmod := None; ss_release := None;
     ss_release_gpg := None; ss_created := 0; ss_adopted := Some 1; ss_coverage := true; ss_heartbeat := None;
     ss_form := FormInline; ss_date := None; ss_retired := None |}.

Definition adopted_db : DB :=
  upd_suite (λ _, {[ demo_key := adopted_row ]})
  (upd_snap (λ _, {[ 1 := adopted_snapshot ]})
  (upd_member (λ _, {[ (1, "main/Packages") := {| m_blob := demo_sha256; m_declared := demo_sha256 |} ]})
  (upd_pkg (λ _, {[ (("https", "deb.example.org", "/debian/pool/hello.deb"), 1) :=
     {| ph_declared := demo_sha256; ph_name := "hello"; ph_arch := "all"; ph_version := "1"; ph_flat := "" |} ]})
  (upd_blob (λ _, {[ demo_sha256 := {| b_size := 5; b_created_at := 0; b_refcount := 1; b_zeroed_at := None |} ]})
   empty_db)))).

Definition get (uri : string) : HTTPRequest :=
  {| hr_method := "GET"; hr_uri := uri;
     hr_conditions := {| If_Match := ""; If_None_Match := ""; If_Range := ""; Range := "" |} |}.

Definition arriving (d : DB) (p : gmap string string) : HState :=
  {| hs_world := {| w_db := d; w_pool := p; w_tick := 0 |}; hs_rejections := no_rejections;
     hs_sr := {| sr_key := zero_key; sr_file := NotSuiteFile; sr_tracked := false; sr_tok := false |}; hs_jobs := [] |}.

Definition answer_to (r : HTTPRequest) (s : HState) : option Response :=
  (ServeHTTP strict_config no_literal r s).1.

Definition package_request : HTTPRequest := get "http://HTTPS///deb.example.org/debian/pool/hello.deb".
Definition index_request : HTTPRequest := get "http://HTTPS///deb.example.org/debian/dists/stable/main/Packages".

Definition parsed (r : HTTPRequest) : Request :=
  match Parse no_literal debian_parser (hr_uri r) with
  | Ok req => req
  | Err _ => {| rq_mode := ModeProxy; rq_scheme := ""; rq_host := ""; rq_path := ""; rq_upstream := "";
                rq_metadata := false; rq_suite := "" |}
  end.

Example package_answer :
  match answer_to package_request (arriving adopted_db ∅) with
  | Some rs => rs_status rs = 200 ∧ rs_body rs = File demo_sha256 "hello" [(0, 5)]
  | None => False
  end.
Proof. vm_compute. by split. Qed.

Example index_answer :
  match answer_to index_request (arriving adopted_db {[ demo_sha256 := "hello" ]}) with
  | Some rs => rs_status rs = 200 ∧ rs_body rs = File demo_sha256 "hello" [(0, 5)]
  | None => False
  end.
Proof. vm_compute. by split. Qed.

(** ** The theorems at these requests *)

Lemma alone P Q : others_keep P Q.
Proof. by intros n w HP HQ. Qed.

Lemma empty_sound : sound_pool ∅.
Proof. by intros k c Hk%lookup_empty_Some. Qed.

Lemma hello_sound : sound_pool {[ demo_sha256 := "hello" ]}.
Proof. intros k c Hk. apply lookup_singleton_Some in Hk as [<- <-]. vm_compute. reflexivity. Qed.

Definition has_body (p : option Response * HState) (hash content : string) : Prop :=
  match p.1 with Some rs => rs_body rs = File hash content [(0, len content)] | None => False end.

Definition sound_run : option Response * HState := ServeHTTP strict_config no_literal package_request (arriving empty_db ∅).

Lemma ServeHTTP_sound_witness :
  has_body sound_run demo_sha256 "hello" ∧ wf (w_db (hs_world (run_jobs (hs_jobs sound_run.2) sound_run.2).2)).
Proof.
  split; [vm_compute; reflexivity|]. unfold sound_run.
  pose proof (ServeHTTP_sound strict_config no_literal package_request (arriving empty_db ∅) (alone _ _)
    wf_empty empty_sound) as Ht.
  destruct (ServeHTTP _ _ _ _) as [o s1]. exact (proj1 Ht).
Defined.

(** Another request for the package is under way: its run, which began in the same
    database, is joined. *)
Definition running : Leader :=
  {| ld_req := parsed package_request; ld_tracked := false;
     ld_world := {| w_db := adopted_db; w_pool := ∅; w_tick := 500 |}; ld_rejections := no_rejections |}.

Definition pooling (n : nat) (w : World) : World :=
  {| w_db := w_db w; w_pool := {[ demo_sha256 := "hello" ]}; w_tick := w_tick w |}.

Definition shared_traffic : Traffic :=
  {| others := pooling; others_rejected := λ _ r, r; read_fault := λ _, false; client_gone := λ _, false;
     HostAllowed := λ _, true; upstream := @upstream quiet_traffic;
     adoptions_in_flight := λ _ _, false; adoption_ended := λ _, false; joins := λ _, Some running;
     holds := λ _ _, true; flat_flag := λ _, true; touch_due := λ _ _, true |}.

Definition package_run : option Response * HState :=
  @ServeHTTP _ _ _ shared_traffic strict_config no_literal package_request (arriving adopted_db ∅).

Lemma pooling_keeps P : @others_keep shared_traffic P sound_pool.
Proof. intros n w HP _. split; [exact HP|exact hello_sound]. Qed.

Lemma running_began (n : nat) (x : Leader) : @joins shared_traffic n = Some x →
  same_fetch (parsed package_request) x = true →
  view adopted_db (w_db (ld_world x)) ∧ sound_pool (w_pool (ld_world x)).
Proof. intros [= <-] _. split; [apply view_refl|exact empty_sound]. Qed.

Example package_joined :
  match package_run.1 with
  | Some rs => rs_headers rs !! "X-Cache" = Some "HIT-COALESCED"
  | None => False
  end.
Proof. vm_compute. reflexivity. Qed.

Lemma package_served_witness :
  has_body package_run demo_sha256 "hello" ∧
  package_allowed strict_config adopted_db (parsed package_request) demo_sha256.
Proof.
  assert (has_body package_run demo_sha256 "hello") as Hbody by (vm_compute; reflexivity).
  split; [exact Hbody|].
  assert (Parse no_literal (cf_parser strict_config) (hr_uri package_request) = Ok (parsed package_request)) as Hparse
    by (vm_compute; reflexivity).
  assert (rq_metadata (parsed package_request) = false) as Hm by (vm_compute; reflexivity).
  pose proof (@package_served _ _ _ shared_traffic strict_config no_literal package_request (arriving adopted_db ∅)
    (parsed package_request) (pooling_keeps _) (λ _, eq_refl) (λ _ _, eq_refl) running_began empty_sound Hparse Hm) as Ht.
  unfold package_run in Hbody. destruct (@ServeHTTP _ _ _ shared_traffic _ _ _ _) as [[rs|] s1]; [|destruct Hbody].
  pose proof (proj2 Ht rs eq_refl) as Hrs. unfold has_body in Hbody. cbn [fst] in Hbody. rewrite Hbody in Hrs.
  exact (proj1 Hrs).
Defined.

Definition index_run : option Response * HState :=
  ServeHTTP strict_config no_literal index_request (arriving adopted_db {[ demo_sha256 := "hello" ]}).

Lemma metadata_from_snapshot_witness :
  has_body index_run demo_sha256 "hello" ∧
  from_suite strict_config adopted_db (parsed index_request) 1 demo_sha256.
Proof.
  assert (has_body index_run demo_sha256 "hello") as Hbody by (vm_compute; reflexivity).
  split; [exact Hbody|].
  assert (Parse no_literal (cf_parser strict_config) (hr_uri index_request) = Ok (parsed index_request)) as Hparse
    by (vm_compute; reflexivity).
  assert (rq_metadata (parsed index_request) = true) as Hm by (vm_compute; reflexivity).
  assert (rq_suite (parsed index_request) ≠ "") as Hsuite by (vm_compute; intros Hn; discriminate Hn).
  assert (suite_current adopted_db (suiteKeyOf (parsed index_request)) = Some 1) as Hcur by (vm_compute; reflexivity).
  pose proof (metadata_from_snapshot strict_config no_literal index_request
    (arriving adopted_db {[ demo_sha256 := "hello" ]}) (parsed index_request) 1 (alone _ _) hello_sound
    Hparse Hm Hsuite Hcur) as Ht.
  unfold index_run in Hbody. destruct (ServeHTTP _ _ _ _) as [[rs|] s1]; [|destruct Hbody].
  pose proof (proj2 Ht rs eq_refl) as Hrs. unfold has_body in Hbody. cbn [fst] in Hbody. rewrite Hbody in Hrs.
  exact (proj1 Hrs).
Defined.
