(* ===== verification/RetryGate.v ===== *)
(** * The failure record of a suite and its gate (internal/freshness retry.go,
    adoption_failure.go, freshness.go retryGate, current_form.go lateralHold,
    first_adoption.go)

    An adoption that failed, or was refused, leaves a record in its suite's row:
    the content it was of, the reason, the length of the streak and the time
    of the next attempt.  A check reads it as a gate. *)
From S2P Require Import Prelude GoStrings GoURL AptPath Tables Invariant Snapshots Suites GC MemberFetch Scheduler.
Local Open Scope Z_scope.

(** ** Content keys *)

(** [adoptionForm] *)
Inductive adoptionForm := FInline | FDetached | FUnsigned.
#[export] Instance adoptionForm_dec : EqDecision adoptionForm.
Proof. solve_decision. Defined.

Definition formName (f : adoptionForm) : string :=
  match f with FInline => FormInline | FDetached => FormDetached | FUnsigned => FormUnsigned end.

Definition formOfSnapshot (s : SuiteSnapshot) : option adoptionForm :=
  if (ss_form s =? FormInline)%string then Some FInline
  else if (ss_form s =? FormDetached)%string then Some FDetached
  else if (ss_form s =? FormUnsigned)%string then Some FUnsigned
  else None.

(** The bytes of a digest, from its hexadecimal text. *)
Fixpoint raw_digest (s : string) : string :=
  match s with
  | String h (String l s) => String (chr (Z.lor (Z.shiftl (unhex h) 4) (unhex l))) (raw_digest s)
  | _ => ""
  end.

Definition newline : string := String (chr 10) "".

Definition contentKey `{Env} (form : adoptionForm) (inline release sig : string) : string :=
  match form with
  | FDetached => sha256 (raw_digest (sha256 release) +:+ raw_digest (sha256 sig))
  | FUnsigned => sha256 ("unsigned" +:+ newline +:+ release)
  | FInline => sha256 inline
  end.

Definition anchorAbsentKey `{Env} : string := sha256 "anchor_absent".

(** ** Delays *)

(** The product of two [float64]s that are integers times powers of two,
    without its exponent: the nearest integer of 53 significant bits, the even
    one of two. *)
Definition round53 (m : Z) : Z :=
  let e := Z.log2 m - 52 in
  if e <=? 0 then m
  else
    let q := Z.shiftr m e in
    let r := m - Z.shiftl q e in
    let half := Z.shiftl 1 (e - 1) in
    Z.shiftl (if (half <? r) || ((r =? half) && Z.odd q) then q + 1 else q) e.

(** [jitterDelay d u] for u = k / 2^53, the numbers [rand.Float64] draws:
    [(u*2-1)*0.25*d], computed in [float64] and cut to an integer.  The factors
    are exact, and so is d below 2^53 nanoseconds (104 days). *)
Definition jitterDelay (d k : Z) : Z :=
  let k := Z.min (Z.max k 0) (2 ^ 53) in
  let m := (2 * k - 2 ^ 53) * d in
  d + Z.sgn m * (round53 (Z.abs m) / 2 ^ 55).

Definition isPersistentMilestone (n : Z) : bool :=
  if (n <? 3) || negb (n mod 3 =? 0) then false
  else let q := n / 3 in Z.land q (q - 1) =? 0.

(** ** The record *)

Definition ReasonUnsignedUnconfirmed : string := "unsigned_unconfirmed".
Definition ReasonUnsignedDowngradeRefused : string := "unsigned_downgrade_refused".
Definition ReasonUnsignedTooLarge : string := "unsigned_too_large".
Definition ReasonAnchorAbsent : string := "anchor_absent".
Definition ReasonUnsignedDisabled : string := "unsigned_disabled".

Definition is_value (o : option string) (s : string) : bool := bool_decide (o = Some s).

(** The state is new: no record, or one with another reason. *)
Definition new_state (cur : SuiteFreshness) (reason : string) : bool :=
  (sf_fail_count cur =? 0) || negb (is_value (sf_fail_reason cur) reason).

Definition restartsStreak (cur : SuiteFreshness) (key reason : string) : bool :=
  if negb (reason =? ReasonUnsignedUnconfirmed)%string && negb (reason =? ReasonAnchorAbsent)%string then false
  else new_state cur reason || negb (is_value (sf_fail_hash cur) key).

(** The record [recordAdoptionFailure] writes: [now] in nanoseconds, [u] drawn
    for the jitter, the validators of the failed content. *)
Definition next_failure (cur : SuiteFreshness) (key reason : string) (etag lastmod : option string)
    (now u : Z) : AdoptionFailure :=
  let count := sf_fail_count cur + 1 in
  let first :=
    match sf_fail_first cur with
    | Some t => if (0 <? sf_fail_count cur) && (t <=? Unix now) then t else Unix now
    | None => Unix now
    end in
  let restarts := restartsStreak cur key reason in
  let count := if restarts && new_state cur reason then 1 else count in
  let delay := jitterDelay (backoffDelay count) u in
  {| af_hash := key; af_reason := reason; af_count := count;
     af_first := if restarts then Unix now else first; af_last := Unix now;
     af_next := Unix (now + delay); af_etag := etag; af_lastmod := lastmod |}.

(** ** The gate *)

Record retryGate := {
  active : bool; gate_due : bool; gate_hash : string; gate_etag : string; gate_lastmod : string;
  gate_reason : string;
  clampTo : option Z;       (** the clamped retry time, when the stored one is too far ahead *)
}.

Definition no_gate : retryGate :=
  {| active := false; gate_due := false; gate_hash := ""; gate_etag := ""; gate_lastmod := "";
     gate_reason := ""; clampTo := None |}.

(** The stored retry time, clamped. *)
Definition clamped (now : Z) (next : option Z) : option Z :=
  match next with
  | Some t => if now + retryHorizon <? t * Second then Some (Unix (now + retryMaxDelay)) else None
  | None => None
  end.

(** Whether the retry time has come; the clamped one is an hour ahead. *)
Definition retry_due (now : Z) (next : option Z) : bool :=
  match next with
  | Some t => if now + retryHorizon <? t * Second then false else t * Second <=? now
  | None => true
  end.

Definition retryGateFor (adopts : bool) (cur : SuiteFreshness) (now : Z) : retryGate :=
  match sf_fail_hash cur with
  | Some hash =>
      if negb adopts || (sf_fail_count cur <? 1) then no_gate
      else {| active := true; gate_due := retry_due now (sf_next_retry cur); gate_hash := hash;
              gate_etag := default "" (sf_fail_etag cur); gate_lastmod := default "" (sf_fail_lastmod cur);
              gate_reason := default "" (sf_fail_reason cur); clampTo := clamped now (sf_next_retry cur) |}
  | None => no_gate
  end.

Definition waiting (g : retryGate) : bool := active g && negb (gate_due g).

Definition recordValidators (g : retryGate) : bool :=
  waiting g && (negb (gate_etag g =? "")%string || negb (gate_lastmod g =? "")%string).

Definition holds (g : retryGate) (key : string) : bool := waiting g && (key =? gate_hash g)%string.

Definition validators (g : retryGate) (cur : SuiteFreshness) : string * string :=
  if active g && gate_due g then ("", "")
  else if recordValidators g then (gate_etag g, gate_lastmod g)
  else (default "" (sf_etag cur), default "" (sf_lastmod cur)).

(** ** Pacing *)

Definition pacedByRefusal (g : retryGate) : bool := waiting g && recordPacesAdopted (gate_reason g).

Definition pacedAbsentAnswer (answered : gset string) (key : string) (g : retryGate) : bool :=
  waiting g && bool_decide (key ∈ answered).

Definition pacedFirst (refresh : Z) (cur : SuiteFreshness) (g : retryGate) (now : Z) : bool :=
  waiting g &&
  match sf_last_check cur with
  | Some t => negb (now + clockStepTolerance <? t * Second) && (now - t * Second <? refresh)
  | None => false
  end.

Definition minConfirmGap : Z := 300 * Second.
Definition deniedConfirmGap : Z := 3600 * Second.
Definition confirmGap (cooldown : Z) : Z := Z.max cooldown minConfirmGap.

(** The stamp is at least [gap] old; a stamp ahead of the clock never is. *)
Definition confirmed (first : option Z) (gap now : Z) : bool :=
  match first with Some t => gap <=? now - t * Second | None => false end.

Definition refusedBeforeConfirmation (reason : string) : bool :=
  (reason =? ReasonUnsignedUnconfirmed)%string || (reason =? ReasonUnsignedDowngradeRefused)%string
  || (reason =? ReasonUnsignedDisabled)%string.

(** The last failed lateral attempt of a suite. *)
Record lateralHold := { lh_key : string; lh_retryAt : Z }.

(** Whether it holds [key] back, and the hold with its time clamped. *)
Definition lateralHeld (h : option lateralHold) (key : string) (nowUnix : Z) : bool * option lateralHold :=
  match h with
  | None => (false, None)
  | Some l =>
      if negb (lh_key l =? key)%string || (lh_retryAt l <=? nowUnix) then (false, h)
      else if nowUnix + retryHorizon / Second <? lh_retryAt l
      then (true, Some {| lh_key := lh_key l; lh_retryAt := nowUnix + retryMaxDelay / Second |})
      else (true, h)
  end.

(** ** The columns a check writes *)

Definition set_checked (check success : option Z) (etag lastmod : option string) (change : option Z)
    (fails : Z) (f : SuiteFreshness) : SuiteFreshness :=
  {| sf_last_check := check; sf_last_success := success; sf_etag := etag; sf_lastmod := lastmod;
     sf_change_seen := change; sf_current := sf_current f; sf_last_requested := sf_last_requested f;
     sf_check_fail := fails; sf_fail_hash := sf_fail_hash f; sf_fail_reason := sf_fail_reason f;
     sf_fail_count := sf_fail_count f; sf_fail_first := sf_fail_first f; sf_fail_last := sf_fail_last f;
     sf_next_retry := sf_next_retry f; sf_fail_etag := sf_fail_etag f; sf_fail_lastmod := sf_fail_lastmod f;
     sf_rowid := sf_rowid f; sf_generation := sf_generation f |}.

Definition check_failed (now : Z) (f : SuiteFreshness) : SuiteFreshness :=
  set_checked (Some now) (sf_last_success f) (sf_etag f) (sf_lastmod f) (sf_change_seen f) (sf_check_fail f + 1) f.
Definition check_answered (now : Z) (success : option Z) (f : SuiteFreshness) : SuiteFreshness :=
  set_checked (Some now) success (sf_etag f) (sf_lastmod f) (sf_change_seen f) 0 f.
Definition set_success (success : option Z) (f : SuiteFreshness) : SuiteFreshness :=
  set_checked (sf_last_check f) success (sf_etag f) (sf_lastmod f) (sf_change_seen f) (sf_check_fail f) f.
Definition set_fails (n : Z) (f : SuiteFreshness) : SuiteFreshness :=
  set_checked (sf_last_check f) (sf_last_success f) (sf_etag f) (sf_lastmod f) (sf_change_seen f) n f.
Definition set_change (o : option Z) (f : SuiteFreshness) : SuiteFreshness :=
  set_checked (sf_last_check f) (sf_last_success f) (sf_etag f) (sf_lastmod f) o (sf_check_fail f) f.
Definition setChangeSeen (now : Z) (f : SuiteFreshness) : SuiteFreshness :=
  match sf_change_seen f with None => set_change (Some now) f | Some _ => f end.
Definition set_validators (etag lastmod : string) (f : SuiteFreshness) : SuiteFreshness :=
  let take new old := if (new =? "")%string then old else Some new in
  set_checked (sf_last_check f) (sf_last_success f) (take etag (sf_etag f)) (take lastmod (sf_lastmod f))
    (sf_change_seen f) (sf_check_fail f) f.

(** ** Laws *)

Lemma round53_le m : 0 < m → round53 m * 2 ^ 53 <= m * (2 ^ 53 + 1).
Proof.
  intros Hm. unfold round53. destruct (Z.leb_spec (Z.log2 m - 52) 0) as [|He]; [lia|].
  pose proof (Z.log2_spec m Hm) as [Hlog _]. set (e := Z.log2 m - 52) in *.
  replace (Z.log2 m) with (e - 1 + 53) in Hlog by lia. rewrite Z.pow_add_r in Hlog by lia.
  rewrite Z.shiftr_div_pow2, !Z.shiftl_mul_pow2, Z.mul_1_l by lia.
  assert (2 ^ e = 2 * 2 ^ (e - 1)) as Hpow by (rewrite <-Z.pow_succ_r by lia; f_equal; lia).
  pose proof (Z.pow_pos_nonneg 2 (e - 1)). set (h := 2 ^ (e - 1)) in *.
  pose proof (Z.div_mod m (2 ^ e)) as Hdiv. pose proof (Z.mod_pos_bound m (2 ^ e)) as Hmod.
  set (q := m / 2 ^ e) in *. set (r := m mod 2 ^ e) in *. rewrite Hpow in *.
  replace (m - q * (2 * h)) with r by lia.
  destruct ((h <? r) || ((r =? h) && Z.odd q)) eqn:Hup; [|lia].
  assert (h <= r) as Hr by (apply orb_true_iff in Hup as [Hup|Hup]; [|apply andb_true_iff in Hup as [Hup _]]; lia).
  lia.
Qed.

(** A quarter of the delay, either way. *)
Lemma jitterDelay_bounds d u : 0 <= d < 2 ^ 53 → d - d / 4 <= jitterDelay d u <= d + d / 4.
Proof.
  intros Hd. unfold jitterDelay. set (k := Z.min _ _). set (m := _ * d).
  assert (Z.abs m <= 2 ^ 53 * d) as Hm by (unfold m, k; nia).
  assert (0 <= round53 (Z.abs m) / 2 ^ 55 <= d / 4) as Hq.
  { destruct (Z.eq_dec m 0) as [->|Hne]; [split; [done|apply Z.div_pos; lia]|].
    pose proof (round53_le (Z.abs m)) as Hr. split.
    - apply Z.div_pos; [|lia]. unfold round53. destruct (_ <=? _); [lia|]. apply Z.shiftl_nonneg.
      destruct (_ || _); [|]; pose proof (Z.shiftr_nonneg (Z.abs m) (Z.log2 (Z.abs m) - 52)); lia.
    - apply Z.div_le_lower_bound; [lia|]. pose proof (Z.mul_div_le (round53 (Z.abs m)) (2 ^ 55)) as Hdiv.
      set (x := round53 (Z.abs m) / 2 ^ 55) in *. set (y := round53 (Z.abs m)) in *. lia. }
  destruct (Z.sgn_spec m) as [[_ ->]|[[_ ->]|[_ ->]]]; lia.
Qed.

Lemma next_failure_count cur key reason etag lastmod now u :
  0 <= sf_fail_count cur → 1 <= af_count (next_failure cur key reason etag lastmod now u) <= sf_fail_count cur + 1.
Proof. intros Hc. unfold next_failure. cbn. destruct (_ && _); lia. Qed.

(** The time of the next attempt, in whole seconds. *)
Lemma next_failure_next cur key reason etag lastmod now u :
  let a := next_failure cur key reason etag lastmod now u in
  let d := backoffDelay (af_count a) in
  0 <= sf_fail_count cur →
  now + d - d / 4 - Second < af_next a * Second <= now + d + d / 4.
Proof.
  intros a d Hc. pose proof (next_failure_count cur key reason etag lastmod now u Hc) as Hcount.
  fold a in Hcount. pose proof (backoffDelay_bounds (af_count a)) as Hd. fold d in Hd.
  pose proof (jitterDelay_bounds d u) as Hj. unfold retryBaseDelay, retryMaxDelay, Second in *.
  assert (af_next a = Unix (now + jitterDelay d u)) as -> by done. unfold Unix, Second.
  pose proof (Z.div_mod (now + jitterDelay d u) (10 ^ 9)). pose proof (Z.mod_pos_bound (now + jitterDelay d u) (10 ^ 9)).
  lia.
Qed.

(** ** Properties *)

(** When a failed adoption is tried again.  The record of a failure counts
    from one, restarts only for a new state, and holds exactly the content it was
    of: from the failure until at least three quarters of its delay have passed
    (a second less, for whole seconds), and never longer than five quarters of it;
    the delay is that of the count, between two minutes and an hour, and the gate
    never finds the stored time too far ahead. *)
Theorem retry_window cur key reason etag lastmod now u t key' :
  0 <= sf_fail_count cur → now <= t →
  let a := next_failure cur key reason etag lastmod now u in
  let g := retryGateFor true (record_failure a cur) t in
  let d := backoffDelay (af_count a) in
  1 <= af_count a <= sf_fail_count cur + 1 ∧ retryBaseDelay <= d <= retryMaxDelay ∧ clampTo g = None ∧
  (holds g key' = true → key' = key) ∧
  (t <= now + d - d / 4 - Second → holds g key = true) ∧
  (now + d + d / 4 <= t → waiting g = false).
Proof.
  intros Hc Ht a g d. pose proof (next_failure_count cur key reason etag lastmod now u Hc) as Hcount.
  pose proof (next_failure_next cur key reason etag lastmod now u Hc) as Hnext. cbv zeta in Hnext.
  fold a in Hcount, Hnext. fold d in Hnext.
  assert (retryBaseDelay <= d <= retryMaxDelay) as Hd by (apply backoffDelay_bounds; lia).
  assert ((t + retryHorizon <? af_next a * Second) = false) as Hclamp.
  { apply Z.ltb_ge. pose proof (Z.div_le_mono d retryMaxDelay 4 ltac:(lia) (proj2 Hd)). unfold retryHorizon. lia. }
  assert (g = {| active := true; gate_due := af_next a * Second <=? t; gate_hash := key;
                 gate_etag := default "" (af_etag a); gate_lastmod := default "" (af_lastmod a);
                 gate_reason := reason; clampTo := None |}) as ->.
  { unfold g, retryGateFor, retry_due, clamped, record_failure. cbn [sf_fail_hash sf_fail_count sf_next_retry].
    rewrite Hclamp. destruct (Z.ltb_spec (af_count a) 1); [lia|]. done. }
  refine (conj Hcount (conj Hd (conj eq_refl (conj _ (conj _ _))))); unfold holds, waiting; cbn -[af_next].
  - intros [_ Hk]%andb_true_iff. by apply String.eqb_eq.
  - intros Hlt. rewrite String.eqb_refl, andb_true_r. apply negb_true_iff, Z.leb_gt. lia.
  - intros Hle. apply negb_false_iff, Z.leb_le. lia.
Qed.

Definition idle_row : SuiteFreshness :=
  {| sf_last_check := None; sf_last_success := None; sf_etag := None; sf_lastmod := None;
     sf_change_seen := None; sf_current := None; sf_last_requested := None; sf_check_fail := 0;
     sf_fail_hash := None; sf_fail_reason := None; sf_fail_count := 0; sf_fail_first := None;
     sf_fail_last := None; sf_next_retry := None; sf_fail_etag := None; sf_fail_lastmod := None;
     sf_rowid := 1; sf_generation := 1 |}.

Lemma retry_window_witness :
  let a := next_failure idle_row "k" "gpg_failed" None None (1000 * Second) 0 in
  holds (retryGateFor true (record_failure a idle_row) (1089 * Second)) "k" = true ∧
  waiting (retryGateFor true (record_failure a idle_row) (1150 * Second)) = false.
Proof.
  split.
  - apply (retry_window idle_row "k" "gpg_failed" None None (1000 * Second) 0 (1089 * Second) "k"); by vm_compute.
  - apply (retry_window idle_row "k" "gpg_failed" None None (1000 * Second) 0 (1150 * Second) "k"); by vm_compute.
Defined.
