(* ===== verification/Check.v ===== *)
(** * One freshness check of a suite (internal/freshness check.go,
    current_form.go, first_adoption.go, anchorless.go, probe.go, unsigned.go,
    freshness.go)

    A check asks the upstream for the anchor of a suite - InRelease, Release or
    the index files of a repository without either - and says what there is to
    do: nothing, an adoption, a repair, an anchorless refresh.  It runs with the
    suite's mutex held; the other goroutines go on, and may change the database,
    the pool and the admission slots before each of its events ([meanwhile],
    [slots]).  The upstream answers each request as it likes, through
    [Fetch.Conditional]. *)
From S2P Require Import Prelude GoStrings AptPath ReleaseParse PackageIndex Tables Invariant Snapshots Suites GC Rows Declared Fetch MemberFetch Adoption Scheduler RetryGate.
Local Open Scope Z_scope.

(** ** Data *)

Record adoptionRequest := {
  ar_suite : SuiteKey; ar_form : adoptionForm;
  ar_inline : string;                                     (** [bytes] *)
  ar_release : string; ar_sig : string; ar_sigLastmod : string;
  ar_etag : string; ar_lastmod : string; ar_key : string;
  ar_crossForm : bool; ar_lateral : bool;
}.

Record repairRequest := { rr_suite : SuiteKey; rr_snapshot : Z; rr_signed : bool }.

(** What [checkLocked] leaves in [checkOutcome], the report apart. *)
Record checkOutcome := {
  oc_req : option adoptionRequest; oc_repair : option repairRequest;
  oc_needRepair : bool; oc_needReconcile : bool; oc_declared : list ReleaseMember;
  oc_vanished : bool }.

Definition nothing : checkOutcome :=
  {| oc_req := None; oc_repair := None; oc_needRepair := false; oc_needReconcile := false;
     oc_declared := []; oc_vanished := false |}.

(** The settings of the checker a check reads. *)
Record Settings := {
  st_adopter : option Adopter;
  st_repair : bool;                       (** [repairSkippedMembers] *)
  st_cooldown : Z; st_refresh : Z;        (** nanoseconds *)
  st_maxBody : Z;
  st_client : Client;
}.

(** What [lockSuite] answers ([SuiteLocks] is its model). *)
Inductive lockStatus := lockOK | lockBusy | lockStale.

Class Surroundings := {
  meanwhile : nat → World → World;
  slots : nat → admission → admission;
  read_fails : nat → bool;
  nanos : nat → Z;                        (** [time.Now] *)
  shutdown : nat → bool;                  (** the caller's context has ended *)
  lifetime_over : nat → bool;
  host_slot : nat → option net_error;     (** [hostSem.Acquire]: [None] grants *)
  body_slot : nat → option net_error;
  upstream_net : nat → string → option string → option string → reply;
  parse_url : string → option hop;
  draw : nat → Z;                         (** the numerator of [rand.Float64] over 2^53 *)
  clearsign_decode : string → option string;
  peek : nat → bool;                      (** the suite's mutex is held *)
  lock_suite : nat → lockStatus;
  GPGReason : string;                     (** [gpgReasonClassifier] of a failed verification *)
}.

(** A request of a check: its URL and validators. *)
Definition asked : Type := string * string * string.

Record CState := {
  cs_world : World;
  cs_cur : SuiteFreshness;                (** [cur], the row as the check has it *)
  cs_report : checkReport;
  cs_lease : option lease;
  cs_admission : admission;
  cs_absent : gset string;                (** [absentAnswered] *)
  cs_holds : gmap string lateralHold;     (** [lateralHolds] *)
  cs_reconciled : gset Z;                 (** [reconciledSnapshots] *)
  cs_asked : list asked;
}.

Definition chk (A : Type) : Type := CState → A * CState.

#[export] Instance chk_ret : MRet chk := λ A a s, (a, s).
#[export] Instance chk_bind : MBind chk := λ A B f m s, let '(a, s) := m s in f a s.

(** The signed text of a stored InRelease, under the decoder of the OpenPGP
    library. *)
Definition inReleasePlaintext (decode : string → option string) (blob : string) : option string :=
  if negb (contains blob clearsignBegin) then None
  else text ← decode (DecodableClearsign blob);
       if (text =? "")%string then None else Some text.

Section check.
Context `{Env} `{HTTPTime} `{Surroundings}.
Context (c : Settings) (k : SuiteKey).

Definition adopts : bool := bool_decide (is_Some (st_adopter c)).
Definition host : string := key_host k.
Definition anchor_key (name : string) : URLKey := (key_scheme k, key_host k, key_path k +:+ "/" +:+ name).

(** ** The steps of a check *)

Definition with_world (w : World) (s : CState) : CState :=
  {| cs_world := w; cs_cur := cs_cur s; cs_report := cs_report s; cs_lease := cs_lease s;
     cs_admission := cs_admission s; cs_absent := cs_absent s; cs_holds := cs_holds s;
     cs_reconciled := cs_reconciled s; cs_asked := cs_asked s |}.

(** The next event: what the others did, then its number. *)
Definition tick : chk nat := λ s,
  let n := w_tick (cs_world s) in
  let w := meanwhile n (cs_world s) in
  (n, {| cs_world := {| w_db := w_db w; w_pool := w_pool w; w_tick := S n |}; cs_cur := cs_cur s;
         cs_report := cs_report s; cs_lease := cs_lease s; cs_admission := slots n (cs_admission s);
         cs_absent := cs_absent s; cs_holds := cs_holds s; cs_reconciled := cs_reconciled s;
         cs_asked := cs_asked s |}).

Definition world : chk World := λ s, (cs_world s, s).
Definition lift {E A} (m : io E A) : chk (result E A) :=
  _ ← tick; (λ s, let '(r, w) := m (cs_world s) in (r, with_world w s)) : chk (result E A).

(** A write whose failure is logged only. *)
Definition write {A} (m : Z → T A) : chk unit := _ ← lift (sql m); mret tt.

(** A read of the database: [None] when it failed. *)
Definition read {A} (f : DB → A) : chk (option A) :=
  n ← tick; w ← world; mret (if read_fails n then None else Some (f (w_db w))).
Definition lookup (name : string) : chk (option (option URLPath)) := read (λ d, url_t d !! anchor_key name).
Definition snapshot (id : Z) : chk (option SuiteSnapshot) :=
  s ← read (λ d, snap_t d !! id); mret (mjoin s).
Definition pool_file (hash : string) : chk (option string) :=
  n ← tick; w ← world; mret (if read_fails n then None else w_pool w !! hash).

Definition get_cur : chk SuiteFreshness := λ s, (cs_cur s, s).
Definition upd_cur (f : SuiteFreshness → SuiteFreshness) : chk unit := λ s,
  (tt, {| cs_world := cs_world s; cs_cur := f (cs_cur s); cs_report := cs_report s; cs_lease := cs_lease s;
          cs_admission := cs_admission s; cs_absent := cs_absent s; cs_holds := cs_holds s;
          cs_reconciled := cs_reconciled s; cs_asked := cs_asked s |}).
Definition report (r : checkReport) : chk unit := λ s,
  (tt, {| cs_world := cs_world s; cs_cur := cs_cur s; cs_report := r; cs_lease := cs_lease s;
          cs_admission := cs_admission s; cs_absent := cs_absent s; cs_holds := cs_holds s;
          cs_reconciled := cs_reconciled s; cs_asked := cs_asked s |}).
Definition answered_absent (f : gset string → gset string) : chk unit := λ s,
  (tt, {| cs_world := cs_world s; cs_cur := cs_cur s; cs_report := cs_report s; cs_lease := cs_lease s;
          cs_admission := cs_admission s; cs_absent := f (cs_absent s); cs_holds := cs_holds s;
          cs_reconciled := cs_reconciled s; cs_asked := cs_asked s |}).
Definition set_hold (o : option lateralHold) : chk unit := λ s,
  (tt, {| cs_world := cs_world s; cs_cur := cs_cur s; cs_report := cs_report s; cs_lease := cs_lease s;
          cs_admission := cs_admission s; cs_absent := cs_absent s;
          cs_holds := partial_alter (λ _, o) (suiteKey k) (cs_holds s);
          cs_reconciled := cs_reconciled s; cs_asked := cs_asked s |}).
Definition reconciled (id : Z) : chk unit := λ s,
  (tt, {| cs_world := cs_world s; cs_cur := cs_cur s; cs_report := cs_report s; cs_lease := cs_lease s;
          cs_admission := cs_admission s; cs_absent := cs_absent s; cs_holds := cs_holds s;
          cs_reconciled := {[id]} ∪ cs_reconciled s; cs_asked := cs_asked s |}).
Definition get_state : chk CState := λ s, (s, s).

(** [admission.tryAcquire] *)
Definition take_slot (signed : bool) : chk bool :=
  _ ← tick;
  (λ s, match tryAcquire (cs_admission s) host signed with
       | None => (false, s)
       | Some (l, a) =>
           (true, {| cs_world := cs_world s; cs_cur := cs_cur s; cs_report := cs_report s; cs_lease := Some l;
                     cs_admission := a; cs_absent := cs_absent s; cs_holds := cs_holds s;
                     cs_reconciled := cs_reconciled s; cs_asked := cs_asked s |})
        end) : chk bool.

(** [fetcher.Conditional] *)
Definition ask (url etag lastmod : string) (maxBody : Z) : chk (result fetch_error ConditionalResult) :=
  n ← tick;
  (λ s, (Conditional (st_client c) (upstream_net n url) parse_url
          {| CanonicalHost := host; t_URL := url |} etag lastmod maxBody,
        {| cs_world := cs_world s; cs_cur := cs_cur s; cs_report := cs_report s; cs_lease := cs_lease s;
           cs_admission := cs_admission s; cs_absent := cs_absent s; cs_holds := cs_holds s;
           cs_reconciled := cs_reconciled s; cs_asked := cs_asked s ++ [(url, etag, lastmod)] |})) : chk (result fetch_error ConditionalResult).

Definition endedByShutdown : chk bool := n ← tick; mret (shutdown n).

(** ** The failure record *)

Definition recordAdoptionFailure (r : adoptionRequest) (reason : string) : chk unit :=
  n ← tick;
  if lifetime_over n then mret tt
  else
    cur ← read (λ d, suite_t d !! k);
    match mjoin cur with
    | None => mret tt
    | Some cur =>
        n ← tick;
        u ← tick;
        let valid v := if ar_crossForm r then None else nonempty v in
        let f := next_failure cur (ar_key r) reason (valid (ar_etag r)) (valid (ar_lastmod r)) (nanos n) (draw u) in
        w ← lift (sql (λ _, RecordAdoptionFailure k f));
        match w with
        | Err _ => mret tt
        | Ok _ =>
            if ar_lateral r then set_hold (Some {| lh_key := ar_key r; lh_retryAt := af_next f |}) else mret tt
        end
    end.

(** A request that stands only for a content key. *)
Definition key_request (key : string) : adoptionRequest :=
  {| ar_suite := k; ar_form := FInline; ar_inline := ""; ar_release := ""; ar_sig := ""; ar_sigLastmod := "";
     ar_etag := ""; ar_lastmod := ""; ar_key := key; ar_crossForm := false; ar_lateral := false |}.

Definition record_absent : chk unit := recordAdoptionFailure (key_request anchorAbsentKey) ReasonAnchorAbsent.

Definition applyClamp (g : retryGate) : chk unit :=
  match clampTo g with
  | None => mret tt
  | Some t => _ ← write (λ _, SetAdoptionNextRetry k t); upd_cur (set_next_retry t)
  end.

(** ** The ends of a check *)

Definition failCheck (nowUnix : Z) : chk unit :=
  _ ← answered_absent (λ a, a ∖ {[suiteKey k]});
  _ ← upd_cur (check_failed nowUnix);
  cur ← get_cur;
  _ ← write (λ _, updateSuiteFreshness k (sf_last_check cur) (sf_last_success cur) (sf_etag cur)
                    (sf_lastmod cur) (sf_change_seen cur) (sf_check_fail cur));
  s ← get_state;
  report {| rep_result := "failed"; rep_signedCurrent := rep_signedCurrent (cs_report s) |}.

Definition repairIfUnchanged (result : string) (signed : bool) (cur : SuiteFreshness) : option repairRequest :=
  if negb (result =? "not_modified")%string && negb (result =? "unchanged")%string then None
  else id ← sf_current cur; Some {| rr_suite := k; rr_snapshot := id; rr_signed := signed |}.

Definition finishCheck (result : string) (clearRecord signed : bool) : chk (option repairRequest) :=
  cur ← get_cur;
  _ ← write (λ _, updateSuiteFreshness k (sf_last_check cur) (sf_last_success cur) (sf_etag cur)
                    (sf_lastmod cur) (sf_change_seen cur) (sf_check_fail cur));
  _ ← (if clearRecord then write (λ _, ClearAdoptionFailure k) else mret tt);
  _ ← report {| rep_result := result; rep_signedCurrent := signed |};
  _ ← answered_absent (λ a, if (result =? "anchor_absent")%string then {[suiteKey k]} ∪ a else a ∖ {[suiteKey k]});
  mret (repairIfUnchanged result signed cur).

(** A local step failed: nothing is written when the caller left. *)
Definition fail_unless_shutdown (nowUnix : Z) : chk unit :=
  over ← endedByShutdown; if (over : bool) then mret tt else failCheck nowUnix.

Definition canceled (e : fetch_error) : bool := errors_is e ContextCanceled.

(** A request that ended in an error. *)
Definition request_failed (nowUnix : Z) (e : fetch_error) : chk unit :=
  if canceled e then mret tt else failCheck nowUnix.

(** What runs under the host's slot. *)
Definition with_host_slot {A} (nowUnix : Z) (quit : A) (m : chk A) : chk A :=
  n ← tick;
  match host_slot n with
  | None => m
  | Some Canceled => mret quit
  | Some _ => _ ← failCheck nowUnix; mret quit
  end.

(** [admit]: the request with the result to report. *)
Definition admit_request (r : adoptionRequest) (signed : bool) (prevSuccess : option Z) (result queued : string)
  : chk (option adoptionRequest * string) :=
  if negb adopts then mret (Some r, result)
  else
    ok ← take_slot signed;
    if (ok : bool) then mret (Some r, result)
    else _ ← upd_cur (set_success prevSuccess); mret (None, queued).

(** ** Probes (probe.go) *)

Inductive probeClass := classUnknown | classPresent | classAbsent.
#[export] Instance probeClass_dec : EqDecision probeClass.
Proof. solve_decision. Defined.

Record probeOutcome := {
  po_class : probeClass; po_res : option ConditionalResult; po_status : Z; po_err : option fetch_error }.

Definition po_cancelled (o : probeOutcome) : bool :=
  match po_err o with Some e => canceled e | None => false end.
Definition authDenied (o : probeOutcome) : bool := (po_status o =? 401) || (po_status o =? 403).
Definition is_class (cl : probeClass) (o : probeOutcome) : bool := bool_decide (po_class o = cl).

Definition absent_status (code : Z) : bool :=
  (code =? 401) || (code =? 403) || (code =? 404) || (code =? 410).

Definition classify (res : result fetch_error ConditionalResult) (sniff : string → bool) (conditional : bool)
  : probeOutcome :=
  match res with
  | Err e =>
      match as_status e with
      | None => {| po_class := classUnknown; po_res := None; po_status := 0; po_err := Some e |}
      | Some code =>
          {| po_class := if absent_status code then classAbsent else classUnknown; po_res := None;
             po_status := code; po_err := Some e |}
      end
  | Ok r =>
      let outcome cl res := {| po_class := cl; po_res := res; po_status := cr_Status r; po_err := None |} in
      if cr_Status r =? 200 then outcome (if sniff (cr_Body r) then classPresent else classAbsent) (Some r)
      else if (cr_Status r =? 304) && conditional then outcome classPresent (Some r)
      else outcome classUnknown None
  end.

(** The URLs of a suite's anchors: beside a cached row's, or rebuilt. *)
Record anchorURLs := { au_model : string; au_name : string }.

Definition url_of (u : anchorURLs) (name : string) : string :=
  let rebuilt := BuildUpstreamURL (key_scheme k) (key_host k) (key_path k +:+ "/" +:+ name) in
  if (au_model u =? "")%string then rebuilt
  else let tail := "/" +:+ au_name u in
       if has_suffix tail (au_model u) then trim_suffix (au_model u) tail +:+ "/" +:+ name else rebuilt.

(** The rows in the order InRelease, Release, Release.gpg. *)
Definition anchorURLsFor (rows : list (string * string)) : anchorURLs :=
  match List.find (λ r, negb (r.2 =? "")%string) rows with
  | Some (name, url) => {| au_model := url; au_name := name |}
  | None => {| au_model := ""; au_name := "" |}
  end.

Definition defaultMaxReleaseGPGBytes : Z := 65536.

Definition probe (urls : anchorURLs) (name : string) : chk probeOutcome :=
  let gpg := (name =? "Release.gpg")%string in
  let sniff := if gpg then SniffReleaseGPG else if (name =? "Release")%string then SniffRelease else SniffInRelease in
  res ← ask (url_of urls name) "" "" (if gpg then defaultMaxReleaseGPGBytes else st_maxBody c);
  mret (classify res sniff false).

(** ** The probe tree (first_adoption.go) *)

(** What was asked: the outcome of each probe that was sent. *)
Record probeTree := {
  pt_form : option adoptionForm;          (** [found], and the form *)
  pt_inRelease : option probeOutcome; pt_release : option probeOutcome; pt_sig : option probeOutcome;
  pt_end : option probeOutcome }.

Definition tree (form : option adoptionForm) (i r s fin : option probeOutcome) : probeTree :=
  {| pt_form := form; pt_inRelease := i; pt_release := r; pt_sig := s; pt_end := fin |}.

Definition runProbeTree (urls : anchorURLs) : chk probeTree :=
  i ← probe urls "InRelease";
  match po_class i with
  | classPresent => mret (tree (Some FInline) (Some i) None None None)
  | classUnknown => mret (tree None (Some i) None None (Some i))
  | classAbsent =>
      r ← probe urls "Release";
      match po_class r with
      | classAbsent => mret (tree None (Some i) (Some r) None None)
      | classUnknown => mret (tree None (Some i) (Some r) None (Some r))
      | classPresent =>
          s ← probe urls "Release.gpg";
          mret match po_class s with
               | classPresent => tree (Some FDetached) (Some i) (Some r) (Some s) None
               | classAbsent => tree (Some FUnsigned) (Some i) (Some r) (Some s) None
               | classUnknown => tree None (Some i) (Some r) (Some s) (Some s)
               end
      end
  end.

Definition empty_result : ConditionalResult :=
  {| cr_Status := 0; cr_ETag := ""; cr_LastModified := ""; cr_Body := "" |}.
Definition res_of (o : option probeOutcome) : ConditionalResult := default empty_result (o ≫= po_res).

Definition inline_request (b : ConditionalResult) (cross lateral : bool) : adoptionRequest :=
  {| ar_suite := k; ar_form := FInline; ar_inline := cr_Body b; ar_release := ""; ar_sig := ""; ar_sigLastmod := "";
     ar_etag := cr_ETag b; ar_lastmod := cr_LastModified b; ar_key := contentKey FInline (cr_Body b) "" "";
     ar_crossForm := cross; ar_lateral := lateral |}.

Definition detached_request (r s : ConditionalResult) (cross : bool) : adoptionRequest :=
  {| ar_suite := k; ar_form := FDetached; ar_inline := ""; ar_release := cr_Body r; ar_sig := cr_Body s;
     ar_sigLastmod := cr_LastModified s; ar_etag := cr_ETag r; ar_lastmod := cr_LastModified r;
     ar_key := contentKey FDetached "" (cr_Body r) (cr_Body s); ar_crossForm := cross; ar_lateral := false |}.

Definition unsigned_request (r : ConditionalResult) (cross : bool) : adoptionRequest :=
  {| ar_suite := k; ar_form := FUnsigned; ar_inline := ""; ar_release := cr_Body r; ar_sig := ""; ar_sigLastmod := "";
     ar_etag := cr_ETag r; ar_lastmod := cr_LastModified r; ar_key := contentKey FUnsigned "" (cr_Body r) "";
     ar_crossForm := cross; ar_lateral := false |}.

(** [probeTree.request] *)
Definition tree_request (t : probeTree) (form : adoptionForm) (cross : bool) : adoptionRequest :=
  match form with
  | FDetached => detached_request (res_of (pt_release t)) (res_of (pt_sig t)) cross
  | FUnsigned => unsigned_request (res_of (pt_release t)) cross
  | FInline => inline_request (res_of (pt_inRelease t)) cross false
  end.

Definition of_probe (P : probeOutcome → bool) (o : option probeOutcome) : bool :=
  match o with Some o => P o | None => false end.
Definition signatureDenied (t : probeTree) : bool :=
  of_probe authDenied (pt_inRelease t) || of_probe authDenied (pt_sig t).
Definition signatureSeen (t : probeTree) : bool :=
  of_probe (is_class classPresent) (pt_inRelease t) || of_probe (is_class classPresent) (pt_sig t).

(** [probeTree.body] *)
Definition tree_body (t : probeTree) (name : string) : string :=
  cr_Body (res_of (if (name =? "Release")%string then pt_release t
                   else if (name =? "Release.gpg")%string then pt_sig t else pt_inRelease t)).

Definition sameAs (t : probeTree) (s : SuiteSnapshot) : bool :=
  match formOfSnapshot s, pt_form t with
  | Some f, Some f' =>
      bool_decide (f = f') &&
      forallb (λ name, is_value (AnchorHash s name) (sha256 (tree_body t name))) (AnchorPaths (formName f'))
  | _, _ => false
  end.

(** ** Signed evidence (unsigned.go) *)

Definition markSignatureSeen (seenAt : Z) : chk bool :=
  w ← lift (sql (λ _, mark_chunk [((key_scheme k, key_host k, MarkerBase (key_path k)), seenAt)]));
  mret (match w with Ok _ => true | Err _ => false end).

(** A Release that does not parse is not refused here. *)
Definition unsignedTooLarge (release : string) : bool :=
  match ParseRelease release with
  | Ok members => negb (unsignedCap (Z.of_nat (length members)))
  | Err _ => false
  end.

(** [Ok ""] goes on, [Ok reason] was refused, [Err] is a failed read. *)
Definition unsignedRefusal (a : Adopter) (r : adoptionRequest) : chk (result unit string) :=
  w ← lift (unsignedEligible a k);
  match w with
  | Err UnsignedDisabled =>
      _ ← recordAdoptionFailure r ReasonUnsignedDisabled; mret (Ok ReasonUnsignedDisabled)
  | Err UnsignedDowngradeRefused =>
      _ ← recordAdoptionFailure r ReasonUnsignedDowngradeRefused; mret (Ok ReasonUnsignedDowngradeRefused)
  | Err _ => mret (Err tt)
  | Ok _ =>
      if unsignedTooLarge (ar_release r) then
        _ ← recordAdoptionFailure r ReasonUnsignedTooLarge; mret (Ok ReasonUnsignedTooLarge)
      else mret (Ok "")
  end.

(** ** A suite with a current snapshot (check.go, current_form.go) *)

Definition bodyHash (r : ConditionalResult) : string := if cr_Status r =? 200 then sha256 (cr_Body r) else "".

(** A success status the check cannot use. *)
Definition unusableStatus (r : ConditionalResult) (conditional : bool) : bool :=
  negb (cr_Status r =? 200) && negb (cr_Status r =? 304)
  || ((cr_Status r =? 304) && negb conditional && adopts).

(** Upstream still serves what the suite has: the result, whether the record is
    cleared, and the row. *)
Definition steadyResult (cur : SuiteFreshness) (r : ConditionalResult) (newHash cachedHash : string)
    (g : retryGate) (nowUnix : Z) : option (string * bool * SuiteFreshness) :=
  if (cr_Status r =? 304) && recordValidators g then Some ("changed_deferred", false, setChangeSeen nowUnix cur)
  else if cr_Status r =? 304 then Some ("not_modified", false, set_change None cur)
  else if (cr_Status r =? 200) && (newHash =? cachedHash)%string then
    Some ("unchanged", active g, set_change None (set_validators (cr_ETag r) (cr_LastModified r) cur))
  else None.

Definition snapshotAnchorHash (id : Z) (name : string) : chk (option string) :=
  s ← snapshot id; mret (s ≫= λ s, AnchorHash s name).

(** A collected anchor of an adopted suite, written again. *)
Definition reconstructAnchor (name : string) (hash : option string) (nowUnix : Z) : chk URLPath :=
  let row := {| up_blob := hash; up_upstream := BuildUpstreamURL (key_scheme k) (key_host k) (key_path k +:+ "/" +:+ name);
                up_is_metadata := true; up_last_requested := Some nowUnix; up_request_count := 0;
                up_last_fetched := Some nowUnix; up_etag := None; up_lastmod := None; up_dropped := None |} in
  _ ← write (λ _, PutURLPath (anchor_key name) row);
  mret row.

(** What the anchor is compared with, and whether the snapshot is signed. *)
Definition baseline (cur : SuiteFreshness) (row : URLPath) (name : string) : chk (string * bool) :=
  found ← (match sf_current cur with
           | None => mret ("", false)
           | Some id =>
               s ← snapshot id;
               mret match s with
                    | None => ("", false)
                    | Some s => (default "" (AnchorHash s name), signedForm (ss_form s))
                    end
           end);
  mret (if (found.1 =? "")%string then default "" (up_blob row) else found.1, found.2).

(** The cached anchors, and whether a client fetched one. *)
Fixpoint anchors_from (names : list string) : chk (option (list (string * URLPath))) :=
  match names with
  | [] => mret (Some [])
  | name :: names =>
      row ← lookup name;
      match row with
      | None => mret None
      | Some row =>
          rest ← anchors_from names;
          mret (rows ← rest; Some (match row with Some u => (name, u) :: rows | None => rows end))
      end
  end.

Definition cachedAnchors : chk (option (list (string * URLPath))) := anchors_from ["InRelease"; "Release"; "Release.gpg"].
Definition anchorURLMap (rows : list (string * URLPath)) : list (string * string) := map (λ r, (r.1, up_upstream r.2)) rows.
Definition client_created (rows : list (string * URLPath)) : bool :=
  existsb (λ r, negb (r.1 =? "Release.gpg")%string && (0 <? up_request_count r.2)) rows.

(** What a tree, run because the anchor was absent, found again. *)
Definition anchorFoundAgain (a : Adopter) (nowUnix : Z) (form : adoptionForm) (t : probeTree) (found : adoptionForm)
    (signedCurrent : bool) : chk (option adoptionRequest) :=
  marked ← (if negb signedCurrent && signatureSeen t then markSignatureSeen nowUnix else mret true);
  if negb (marked : bool) then _ ← fail_unless_shutdown nowUnix; mret None
  else
    cur ← get_cur;
    s ← snapshot (default 0 (sf_current cur));
    match s with
    | None => _ ← fail_unless_shutdown nowUnix; mret None
    | Some s =>
        let same := sameAs t s in
        let req := tree_request t found (negb (bool_decide (found = form))) in
        refusal ← (if negb same && bool_decide (found = FUnsigned) then unsignedRefusal a req else mret (Ok ""));
        match refusal with
        | Err _ => _ ← fail_unless_shutdown nowUnix; mret None
        | Ok refusal =>
            let prev := sf_last_success cur in
            _ ← upd_cur (check_answered nowUnix (Some nowUnix));
            if same then
              _ ← upd_cur (set_change None);
              _ ← finishCheck "unchanged" true signedCurrent; mret None
            else
              _ ← upd_cur (setChangeSeen nowUnix);
              if negb (refusal =? "")%string then
                _ ← finishCheck "changed_deferred" false signedCurrent; mret None
              else
                out ← admit_request req signedCurrent prev
                        (if bool_decide (found = form) then "changed" else "form_changed") "changed_queued";
                _ ← finishCheck out.2 false signedCurrent;
                mret out.1
        end
    end.

(** Whether the tree runs for an absent anchor; the first observation, and one
    too early, are recorded. *)
Definition absent_tree (cur : SuiteFreshness) (g : retryGate) (now : Z) : chk bool :=
  if negb (active g) then _ ← record_absent; mret false
  else if negb (gate_due g) then mret false
  else if negb (gate_reason g =? ReasonAnchorAbsent)%string then mret true
  else if confirmed (sf_fail_first cur) (confirmGap (st_cooldown c)) now then mret true
  else _ ← record_absent; mret false.

Definition absent_answer (nowUnix : Z) (signedCurrent : bool) : chk (option adoptionRequest) :=
  _ ← upd_cur (λ cur, check_answered nowUnix (sf_last_success cur) cur);
  _ ← finishCheck "anchor_absent" false signedCurrent;
  mret None.

Definition anchorAbsent (a : Adopter) (now nowUnix : Z) (form : adoptionForm) (g : retryGate) (signedCurrent : bool)
  : chk (option adoptionRequest) :=
  cur ← get_cur;
  run ← absent_tree cur g now;
  if negb (run : bool) then absent_answer nowUnix signedCurrent
  else
    rows ← cachedAnchors;
    _ ← (match rows with None => _ ← endedByShutdown; mret tt | Some _ => mret tt end);
    t ← runProbeTree (anchorURLsFor (anchorURLMap (default [] rows)));
    match pt_end t, pt_form t with
    | Some o, _ => _ ← (if po_cancelled o then mret tt else failCheck nowUnix); mret None
    | None, Some found =>
        if negb (bool_decide (found = FUnsigned)) || bool_decide (form = FUnsigned) then
          anchorFoundAgain a nowUnix form t found signedCurrent
        else _ ← record_absent; absent_answer nowUnix signedCurrent
    | None, None => _ ← record_absent; absent_answer nowUnix signedCurrent
    end.

(** The InRelease of a detached suite: the request, whether the check is over,
    and whether the record belongs to this InRelease. *)
Definition lateralInline (urls : anchorURLs) (g : retryGate) (signedCurrent : bool) (nowUnix : Z)
  : chk (option adoptionRequest * bool * bool) :=
  o ← probe urls "InRelease";
  if negb (is_class classPresent o) then mret (None, false, false)
  else
    let req := inline_request (res_of (Some o)) true true in
    let byRecord := holds g (ar_key req) in
    s ← get_state;
    let held := lateralHeld (cs_holds s !! suiteKey k) (ar_key req) nowUnix in
    held ← (if byRecord then mret true else _ ← set_hold held.2; mret held.1);
    if (held : bool) then mret (None, false, byRecord)
    else
      cur ← get_cur;
      _ ← upd_cur (λ f, setChangeSeen nowUnix (check_answered nowUnix (Some nowUnix) f));
      out ← admit_request req signedCurrent (sf_last_success cur) "form_changed" "changed_queued";
      _ ← finishCheck out.2 false signedCurrent;
      mret (out.1, true, false).

(** An unsigned suite's signature, if there is one now. *)
Definition upgrade_found (t : probeTree) (form : adoptionForm) (g : retryGate) (nowUnix : Z)
  : chk (option adoptionRequest) :=
  let req := tree_request t form true in
  cur ← get_cur;
  _ ← upd_cur (λ f, setChangeSeen nowUnix (check_answered nowUnix (Some nowUnix) f));
  if holds g (ar_key req) then _ ← finishCheck "changed_deferred" false false; mret None
  else
    out ← admit_request req false (sf_last_success cur) "form_changed" "changed_queued";
    _ ← finishCheck out.2 false false;
    mret out.1.

Definition probe_failed (nowUnix : Z) (o : probeOutcome) : chk unit :=
  if po_cancelled o then mret tt else failCheck nowUnix.

(** [None]: no signature, the unsigned check goes on. *)
Definition upgradeProbe (a : Adopter) (urls : anchorURLs) (g : retryGate) (now nowUnix : Z)
  : chk (option (option adoptionRequest)) :=
  let quit : chk unit → chk (option (option adoptionRequest)) := λ m, _ ← m; mret (Some None) in
  i ← probe urls "InRelease";
  match po_class i with
  | classUnknown => quit (probe_failed nowUnix i)
  | classPresent =>
      marked ← markSignatureSeen nowUnix;
      if negb (marked : bool) then quit (fail_unless_shutdown nowUnix)
      else r ← upgrade_found (tree (Some FInline) (Some i) None None None) FInline g nowUnix; mret (Some r)
  | classAbsent =>
      sig ← probe urls "Release.gpg";
      match po_class sig with
      | classAbsent => mret None
      | classUnknown => quit (probe_failed nowUnix sig)
      | classPresent =>
          marked ← markSignatureSeen nowUnix;
          if negb (marked : bool) then quit (fail_unless_shutdown nowUnix)
          else
            rel ← probe urls "Release";
            match po_class rel with
            | classAbsent => r ← anchorAbsent a now nowUnix FUnsigned g false; mret (Some r)
            | classUnknown => quit (probe_failed nowUnix rel)
            | classPresent =>
                r ← upgrade_found (tree (Some FDetached) (Some i) (Some rel) (Some sig) None) FDetached g nowUnix;
                mret (Some r)
            end
      end
  end.

(** What a check hands on: an adoption or a repair. *)
Definition outcome : Type := option adoptionRequest * option repairRequest.
Definition no_outcome : outcome := (None, None).

Definition sent (etag lastmod : string) : bool := negb (etag =? "")%string || negb (lastmod =? "")%string.

(** The anchor's row, rebuilt from the snapshot when it was collected: [None]
    when it cannot be read, or there is no snapshot either. *)
Definition anchor_row (cur : SuiteFreshness) (name : string) (nowUnix : Z) : chk (option URLPath) :=
  row ← lookup name;
  match row, sf_current cur with
  | None, _ | Some None, None => mret None
  | Some (Some u), _ => mret (Some u)
  | Some None, Some id =>
      h ← snapshotAnchorHash id name;
      u ← reconstructAnchor name h nowUnix;
      mret (Some u)
  end.

(** *** The unsigned form *)

Definition unsigned_answer (res : ConditionalResult) (cachedHash : string) (g : retryGate) (nowUnix : Z)
  : chk outcome :=
  let newHash := bodyHash res in
  let req := unsigned_request res false in
  let steady := (cr_Status res =? 304) || (newHash =? cachedHash)%string in
  let deferred := negb steady && holds g (ar_key req) in
  refusal ← (match st_adopter c with
             | Some a => if negb steady && negb deferred then unsignedRefusal a req else mret (Ok "")
             | None => mret (Ok "")
             end);
  match refusal with
  | Err _ => _ ← fail_unless_shutdown nowUnix; mret no_outcome
  | Ok refusal =>
      cur ← get_cur;
      _ ← upd_cur (check_answered nowUnix (Some nowUnix));
      cur' ← get_cur;
      match steadyResult cur' res newHash cachedHash g nowUnix with
      | Some (result, clearRecord, cur'') =>
          _ ← upd_cur (λ _, cur'');
          rp ← finishCheck result clearRecord false; mret (None, rp)
      | None =>
          _ ← upd_cur (setChangeSeen nowUnix);
          if deferred || negb (refusal =? "")%string then
            rp ← finishCheck "changed_deferred" false false; mret (None, rp)
          else
            out ← admit_request req false (sf_last_success cur) "changed" "changed_queued";
            rp ← finishCheck out.2 false false;
            mret (out.1, rp)
      end
  end.

(** The current anchor answered that it is not there. *)
Definition is_absent (res : result fetch_error ConditionalResult) (sniff : string → bool) (conditional : bool) : bool :=
  is_class classAbsent (classify res sniff conditional).

(** An answer the check can use. *)
Definition usable (res : result fetch_error ConditionalResult) (conditional : bool) (nowUnix : Z)
  : chk (option ConditionalResult) :=
  match res with
  | Err e => _ ← request_failed nowUnix e; mret None
  | Ok r => if unusableStatus r conditional then _ ← failCheck nowUnix; mret None else mret (Some r)
  end.

Definition checkUnsigned (now nowUnix : Z) : chk outcome :=
  cur ← get_cur;
  row ← anchor_row cur "Release" nowUnix;
  match row with
  | None => mret no_outcome
  | Some row =>
      base ← baseline cur row "Release";
      if (base.1 =? "")%string then mret no_outcome
      else
        let g := retryGateFor adopts cur now in
        _ ← applyClamp g;
        with_host_slot nowUnix no_outcome (
          up ← (match st_adopter c with
                | Some a => upgradeProbe a (anchorURLsFor [("Release", up_upstream row)]) g now nowUnix
                | None => mret None
                end);
          match up with
          | Some req => mret (req, None)
          | None =>
              cur ← get_cur;
              let '(etag, lastmod) := validators g cur in
              res ← ask (up_upstream row) etag lastmod (st_maxBody c);
              match st_adopter c, is_absent res SniffRelease (sent etag lastmod) with
              | Some a, true => req ← anchorAbsent a now nowUnix FUnsigned g false; mret (req, None)
              | _, _ =>
                  r ← usable res (sent etag lastmod) nowUnix;
                  match r with
                  | None => mret no_outcome
                  | Some r => unsigned_answer r base.1 g nowUnix
                  end
              end
          end)
  end.

(** *** Without an adopter: the cached metadata is invalidated *)

Definition refreshLegacyValidators (cur : SuiteFreshness) (key : URLKey) (res : ConditionalResult) (hash : string)
  : chk bool :=
  if adopts || bool_decide (is_Some (sf_current cur)) || negb (cr_Status res =? 200)
     || negb (bodyHash res =? hash)%string then mret true
  else
    w ← lift (sql (RefreshURLPathBlob key hash hash (nonempty (cr_ETag res)) (nonempty (cr_LastModified res))));
    mret (match w with Ok ok => ok | Err _ => false end).

(** The validators of a request: a row's own when nothing is adopted. *)
Definition request_validators (g : retryGate) (cur : SuiteFreshness) (row : URLPath) : string * string :=
  if negb adopts && negb (bool_decide (is_Some (sf_current cur)))
  then (default "" (up_etag row), default "" (up_lastmod row))
  else validators g cur.

(** A changed anchor with nothing to adopt it. *)
Definition legacy_changed (name cachedHash : string) (prev : option Z) (prevFails : Z) (signed : bool) (nowUnix : Z)
  : chk outcome :=
  w ← lift (sql (InvalidateLegacyMetadata k (key_path k +:+ "/" +:+ name) cachedHash));
  match w with
  | Ok _ => rp ← finishCheck "changed" false signed; mret (None, rp)
  | Err _ =>
      _ ← upd_cur (λ f, set_fails prevFails (set_success prev f));
      _ ← fail_unless_shutdown nowUnix;
      mret no_outcome
  end.

(** *** The inline form *)

Definition inline_answer (res : ConditionalResult) (cachedHash : string) (g : retryGate) (signed : bool) (nowUnix : Z)
  : chk outcome :=
  cur ← get_cur;
  let prev := sf_last_success cur in
  _ ← upd_cur (check_answered nowUnix (Some nowUnix));
  cur' ← get_cur;
  let newHash := bodyHash res in
  match steadyResult cur' res newHash cachedHash g nowUnix with
  | Some (result, clearRecord, cur'') =>
      _ ← upd_cur (λ _, cur'');
      rp ← finishCheck result clearRecord signed; mret (None, rp)
  | None =>
      _ ← upd_cur (setChangeSeen nowUnix);
      if holds g newHash then rp ← finishCheck "changed_deferred" false signed; mret (None, rp)
      else if negb adopts then legacy_changed "InRelease" cachedHash prev (sf_check_fail cur) signed nowUnix
      else
        out ← admit_request (inline_request res false false) signed prev "changed" "changed_queued";
        rp ← finishCheck out.2 false signed;
        mret (out.1, rp)
  end.

(** A Release that can stand for the InRelease: with its signature, for an
    adopter. *)
Definition hasReleaseURLRow : chk bool :=
  r ← lookup "Release";
  match mjoin r with
  | None => mret false
  | Some _ =>
      if negb adopts then mret true
      else s ← lookup "Release.gpg"; mret (bool_decide (is_Some (mjoin s)))
  end.

Definition isStatusNotFound (e : fetch_error) : bool := bool_decide (as_status e = Some 404).

(** [None] falls back to the detached form. *)
Definition inline_asked (now nowUnix : Z) (row : URLPath) (base : string * bool) : chk (option outcome) :=
  cur ← get_cur;
  let g := retryGateFor adopts cur now in
  _ ← applyClamp g;
  cur ← get_cur;
  let '(etag, lastmod) := request_validators g cur row in
  with_host_slot nowUnix (Some no_outcome) (
    res ← ask (up_upstream row) etag lastmod (st_maxBody c);
    match st_adopter c, bool_decide (is_Some (sf_current cur)) && is_absent res SniffInRelease (sent etag lastmod) with
    | Some a, true => req ← anchorAbsent a now nowUnix FInline g base.2; mret (Some (req, None))
    | _, _ =>
        back ← (match res with
                | Err e =>
                    if negb (canceled e) && bool_decide (sf_current cur = None) && isStatusNotFound e
                    then hasReleaseURLRow else mret false
                | Ok _ => mret false
                end);
        if (back : bool) then mret None
        else
          r ← usable res (sent etag lastmod) nowUnix;
          match r with
          | None => mret (Some no_outcome)
          | Some r =>
              fresh ← refreshLegacyValidators cur (anchor_key "InRelease") r base.1;
              if negb (fresh : bool) then _ ← failCheck nowUnix; mret (Some no_outcome)
              else out ← inline_answer r base.1 g base.2 nowUnix; mret (Some out)
          end
    end).

Definition checkInline (now nowUnix : Z) : chk (option outcome) :=
  cur ← get_cur;
  found ← lookup "InRelease";
  row ← (match found, sf_current cur with
         | Some None, None => back ← hasReleaseURLRow; mret (if (back : bool) then inr true else inr false)
         | Some None, Some id =>
             h ← snapshotAnchorHash id "InRelease";
             u ← reconstructAnchor "InRelease" h nowUnix; mret (inl u)
         | Some (Some u), _ => mret (inl u)
         | None, _ => mret (inr false)
         end);
  match row with
  | inr back => mret (if (back : bool) then None else Some no_outcome)
  | inl row =>
      base ← baseline cur row "InRelease";
      if (base.1 =? "")%string then mret (Some no_outcome) else inline_asked now nowUnix row base
  end.

(** *** The detached form *)

(** A changed Release: its signature decides. *)
Definition detached_changed (res : ConditionalResult) (gpgURL cachedHash : string) (g : retryGate) (signed lateralHeld : bool)
    (prev : option Z) (nowUnix : Z) : chk outcome :=
  gpg ← ask gpgURL "" "" defaultMaxReleaseGPGBytes;
  cur ← get_cur;
  if bool_decide (is_Some (sf_current cur)) && is_absent gpg SniffReleaseGPG false then
    _ ← (if lateralHeld then mret tt else record_absent);
    _ ← upd_cur (set_success prev);
    rp ← finishCheck "anchor_absent" false signed; mret (None, rp)
  else
    match gpg with
    | Ok sig =>
        if negb (cr_Status sig =? 200) then rp ← finishCheck "changed" false signed; mret (None, rp)
        else
          let req := detached_request res sig false in
          if holds g (ar_key req) then rp ← finishCheck "changed_deferred" false signed; mret (None, rp)
          else
            out ← admit_request req signed prev "changed" "changed_queued";
            rp ← finishCheck out.2 false signed;
            mret (out.1, rp)
    | Err _ => rp ← finishCheck "changed" false signed; mret (None, rp)
    end.

Definition detached_answer (res : ConditionalResult) (gpgURL cachedHash : string) (g : retryGate)
    (signed lateralHeld : bool) (nowUnix : Z) : chk outcome :=
  cur ← get_cur;
  let prev := sf_last_success cur in
  _ ← upd_cur (check_answered nowUnix (Some nowUnix));
  cur' ← get_cur;
  match steadyResult cur' res (bodyHash res) cachedHash g nowUnix with
  | Some (result, clearRecord, cur'') =>
      _ ← upd_cur (λ _, cur'');
      rp ← finishCheck result (clearRecord && negb lateralHeld) signed; mret (None, rp)
  | None =>
      _ ← upd_cur (setChangeSeen nowUnix);
      if negb adopts then legacy_changed "Release" cachedHash prev (sf_check_fail cur) signed nowUnix
      else detached_changed res gpgURL cachedHash g signed lateralHeld prev nowUnix
  end.

(** Release.gpg's URL: needed unless nothing adopts and nothing was adopted. *)
Definition gpg_url (cur : SuiteFreshness) (nowUnix : Z) : chk (option string) :=
  if negb adopts && negb (bool_decide (is_Some (sf_current cur))) then mret (Some "")
  else u ← anchor_row cur "Release.gpg" nowUnix; mret (up_upstream <$> u).

Definition detached_asked (now nowUnix : Z) (row : URLPath) (gpgURL : string) (base : string * bool) : chk outcome :=
  cur ← get_cur;
  let g := retryGateFor adopts cur now in
  _ ← applyClamp g;
  cur ← get_cur;
  let '(etag, lastmod) := request_validators g cur row in
  with_host_slot nowUnix no_outcome (
    let adopted := adopts && bool_decide (is_Some (sf_current cur)) in
    lateral ← (if adopted then lateralInline (anchorURLsFor [("Release", up_upstream row)]) g base.2 nowUnix
               else mret (None, false, false));
    let '(req, done, held) := lateral in
    if (done : bool) then mret (req, None)
    else
      res ← ask (up_upstream row) etag lastmod (st_maxBody c);
      match st_adopter c, bool_decide (is_Some (sf_current cur)) && is_absent res SniffRelease (sent etag lastmod) with
      | Some a, true => req ← anchorAbsent a now nowUnix FDetached g base.2; mret (req, None)
      | _, _ =>
          r ← usable res (sent etag lastmod) nowUnix;
          match r with
          | None => mret no_outcome
          | Some r =>
              fresh ← refreshLegacyValidators cur (anchor_key "Release") r base.1;
              if negb (fresh : bool) then _ ← failCheck nowUnix; mret no_outcome
              else detached_answer r gpgURL base.1 g base.2 held nowUnix
          end
      end).

Definition checkDetached (now nowUnix : Z) : chk outcome :=
  cur ← get_cur;
  row ← anchor_row cur "Release" nowUnix;
  match row with
  | None => mret no_outcome
  | Some row =>
      gpg ← gpg_url cur nowUnix;
      match gpg with
      | None => mret no_outcome
      | Some gpg =>
          base ← baseline cur row "Release";
          if (base.1 =? "")%string then mret no_outcome else detached_asked now nowUnix row gpg base
      end
  end.

(** ** A repository without anchors (anchorless.go) *)

Inductive anchorlessAnswer :=
| anchorlessUnknown | anchorlessKept | anchorlessReplaced | anchorlessDeleted | anchorlessDropped.
#[export] Instance anchorlessAnswer_dec : EqDecision anchorlessAnswer.
Proof. solve_decision. Defined.

Definition answered (a : anchorlessAnswer) : bool :=
  match a with anchorlessKept | anchorlessReplaced | anchorlessDeleted => true | _ => false end.

Definition maxAnchorlessIndexBytes : Z := Z.shiftl 64 20.

Definition anchorlessRank (name : string) : Z :=
  if has_prefix "Packages" name then 0 else if has_prefix "Sources" name then 1 else 2.

(** [Some (Ok false)]: signed evidence stands against it; [Err]: it could not be
    read. *)
Definition anchorlessEligible : chk (result unit bool) :=
  m ← lift (remarkSignedAnchors k);
  match m with
  | Err _ => mret (Err tt)
  | Ok _ =>
      w ← lift (sql (λ _, refuseUnsignedDowngrade (key_host k) (key_path k)));
      mret match w with
           | Ok _ => Ok true
           | Err (DBFailed (Some ErrUnsignedDowngradeRefused)) => Ok false
           | Err _ => Err tt
           end
  end.

Definition anchorlessDisabled (nowUnix : Z) : chk unit :=
  _ ← recordAdoptionFailure (key_request anchorAbsentKey) ReasonUnsignedDisabled;
  _ ← upd_cur (λ f, set_change None (check_answered nowUnix (Some nowUnix) f));
  _ ← finishCheck "changed_deferred" false false;
  mret tt.

(** [ListSuiteMetadataRows], in path order. *)
Definition ListSuiteMetadataRows (d : DB) : list (URLKey * URLPath) :=
  let dir := key_path k +:+ "/" in
  let named p := existsb (λ n, (p =? dir +:+ n)%string) (["InRelease"; "Release"; "Release.gpg"] ++ FlatIndexNames) in
  let mine (e : URLKey * URLPath) :=
    (key_scheme e.1 =? key_scheme k)%string && (key_host e.1 =? key_host k)%string
    && (named (key_path e.1) || in_prefix (dir +:+ "Contents-") (dir +:+ "Contents.") (key_path e.1))
    && (SuitePath (key_path e.1) =? key_path k)%string in
  if negb (IsCanonicalSuitePath (key_path k)) then []
  else sort_by (λ a b, str_leb (key_path a.1) (key_path b.1)) (List.filter mine (map_to_list (url_t d))).

Definition member_name (key : URLKey) : string :=
  let dir := key_path k +:+ "/" in
  match cut_prefix (key_path key) dir with Some n => n | None => key_path key end.

Definition flatIndexClientCreated (rows : list (URLKey * URLPath)) : option (URLKey * URLPath) :=
  List.find (λ e, (0 <? up_request_count e.2)
                  && bool_decide (ClassifySuiteFile (key_path k) (key_path e.1) = FileFlatIndex)) rows.

(** An answer, and whether its error is the caller's leaving: a write that fails
    while the caller is gone is taken to have failed of it. *)
Definition row_answer : Type := anchorlessAnswer * bool.

(** A changed body goes to the pool before its row names it. *)
Definition replace_row (key : URLKey) (old : string) (res : ConditionalResult) : chk row_answer :=
  w ← lift (writeBlobBytes (cr_Body res));
  match w with
  | Err _ => mret (anchorlessUnknown, true)
  | Ok h =>
      u ← lift (sql (RefreshURLPathBlob key old h (nonempty (cr_ETag res)) (nonempty (cr_LastModified res))));
      mret match u with
           | Err _ => (anchorlessUnknown, true)
           | Ok true => (anchorlessReplaced, false)
           | Ok false => (anchorlessKept, false)
           end
  end.

Definition body_answer (key : URLKey) (row : URLPath) (old : string) (res : ConditionalResult) : chk row_answer :=
  let h := sha256 (cr_Body res) in
  let '(pass, sniffable) := SniffAnchorlessIndex (member_name key) (cr_Body res) in
  if negb sniffable && negb (h =? old)%string then mret (anchorlessDropped, false)
  else if sniffable && negb pass then mret (anchorlessUnknown, false)
  else if (h =? old)%string then
    if (default "" (up_etag row) =? cr_ETag res)%string && (default "" (up_lastmod row) =? cr_LastModified res)%string
    then mret (anchorlessKept, false)
    else
      u ← lift (sql (RefreshURLPathBlob key old old (nonempty (cr_ETag res)) (nonempty (cr_LastModified res))));
      mret (match u with Ok _ => (anchorlessKept, false) | Err _ => (anchorlessUnknown, true) end)
  else replace_row key old res.

Definition refreshAnchorlessRow (key : URLKey) (row : URLPath) (old : string) : chk row_answer :=
  n ← tick;
  match body_slot n with
  | Some e => mret (anchorlessUnknown, match e with Canceled => true | _ => false end)
  | None =>
      let etag := default "" (up_etag row) in
      let lastmod := default "" (up_lastmod row) in
      res ← ask (up_upstream row) etag lastmod maxAnchorlessIndexBytes;
      match res with
      | Err e =>
          mret (if bool_decide (as_status e = Some 404) || bool_decide (as_status e = Some 410) then anchorlessDeleted
                else if errors_is e ErrConditionalBodyTooLarge then anchorlessDropped else anchorlessUnknown,
                canceled e)
      | Ok r =>
          if (cr_Status r =? 304) && sent etag lastmod then mret (anchorlessKept, false)
          else if negb (cr_Status r =? 200) then mret (anchorlessUnknown, false)
          else body_answer key row old r
      end
  end.

(** The rows to delete, and how many were answered, replaced, answered by a
    deletion. *)
Record refreshed_rows := {
  rf_deletes : list (URLKey * option string); rf_answered : Z; rf_replaced : Z; rf_gone : Z }.

Definition count_answer (key : URLKey) (row : URLPath) (a : anchorlessAnswer) (st : refreshed_rows) : refreshed_rows :=
  let one (b : bool) := if b then 1 else 0 in
  {| rf_deletes := rf_deletes st ++
       (if bool_decide (a ∈ [anchorlessDeleted; anchorlessDropped]) then [(key, up_blob row)] else []);
     rf_answered := rf_answered st + one (answered a);
     rf_replaced := rf_replaced st + one (bool_decide (a = anchorlessReplaced));
     rf_gone := rf_gone st + one (bool_decide (a = anchorlessDeleted)) |}.

(** [None]: the caller left. *)
Fixpoint refresh_rows (rows : list (URLKey * URLPath)) (st : refreshed_rows) : chk (option refreshed_rows) :=
  match rows with
  | [] => mret (Some st)
  | (key, row) :: rows =>
      match up_blob row with
      | None => refresh_rows rows st
      | Some old =>
          a ← refreshAnchorlessRow key row old;
          over ← (if a.2 : bool then endedByShutdown else mret false);
          if (over : bool) then mret None else refresh_rows rows (count_answer key row a.1 st)
      end
  end.

Definition index_rows (rows : list (URLKey * URLPath)) : list (URLKey * URLPath) :=
  sort_by (λ a b : URLKey * URLPath, anchorlessRank (member_name a.1) <=? anchorlessRank (member_name b.1))
    (List.filter (λ e : URLKey * URLPath, IsAnchorlessIndex (member_name e.1) && is_set (up_blob e.2)) rows).

(** The cached anchors whose probe said they are gone. *)
Definition gone_anchors (t : probeTree) (anchors : list (string * URLPath)) (answered : Z)
  : list (URLKey * option string) :=
  let gone o := (po_status o =? 404) || (po_status o =? 410) || (authDenied o && (0 <? answered)) in
  omap (λ p, o ← p.2; u ← snd <$> List.find (λ r, (r.1 =? p.1)%string) anchors;
             if (gone o : bool) then Some (anchor_key p.1, up_blob u) else None)
       [("InRelease", pt_inRelease t); ("Release", pt_release t)].

Definition anchorless_end (requests : bool) (st : refreshed_rows) (deleted : option Z) (nowUnix : Z) : chk unit :=
  let counted := match deleted with Some _ => rf_answered st | None => rf_answered st - rf_gone st end in
  if (requests || negb (is_set deleted)) && (counted =? 0) then failCheck nowUnix
  else
    _ ← upd_cur (λ f, set_change None (check_answered nowUnix (Some nowUnix) f));
    _ ← finishCheck (if 0 <? rf_replaced st + default 0 deleted then "anchorless_refreshed" else "anchorless_unchanged")
          true false;
    mret tt.

Definition anchorlessRefresh (nowUnix : Z) (t : probeTree) (anchors : list (string * URLPath))
    (rows : list (URLKey * URLPath)) : chk unit :=
  let indexes := index_rows rows in
  st ← refresh_rows indexes {| rf_deletes := []; rf_answered := 0; rf_replaced := 0; rf_gone := 0 |};
  match st with
  | None => mret tt
  | Some st =>
      let deletes := rf_deletes st ++ gone_anchors t anchors (rf_answered st) in
      let requests := negb (length indexes =? 0)%nat in
      if (length deletes =? 0)%nat then anchorless_end requests st (Some 0) nowUnix
      else
        w ← lift (sql (DeleteURLPathRows deletes));
        match w with
        | Ok n => anchorless_end requests st (Some n) nowUnix
        | Err _ =>
            over ← endedByShutdown;
            if (over : bool) then mret tt else anchorless_end requests st None nowUnix
        end
  end.

(** ** A suite that was never adopted (first_adoption.go) *)

(** [None] when it may go on, or the reason it was refused for. *)
Definition unsignedFirst (a : Adopter) (cur : SuiteFreshness) (req : adoptionRequest) (t : probeTree) (g : retryGate)
    (now : Z) : chk (result unit (option string)) :=
  w ← unsignedRefusal a req;
  match w with
  | Err e => mret (Err e)
  | Ok refusal =>
      if negb (refusal =? "")%string then mret (Ok (Some refusal))
      else
        let same := active g && (gate_hash g =? ar_key req)%string in
        let gap := if signatureDenied t then deniedConfirmGap else confirmGap (st_cooldown c) in
        if same && negb (refusedBeforeConfirmation (gate_reason g)) then mret (Ok None)
        else if same && (gate_reason g =? ReasonUnsignedUnconfirmed)%string && confirmed (sf_fail_first cur) gap now
        then mret (Ok None)
        else
          _ ← recordAdoptionFailure req ReasonUnsignedUnconfirmed;
          mret (Ok (Some ReasonUnsignedUnconfirmed))
  end.

(** A tree that found a form. *)
Definition first_found (a : Adopter) (t : probeTree) (form : adoptionForm) (g : retryGate) (now nowUnix : Z)
  : chk (option adoptionRequest) :=
  marked ← (if signatureSeen t then markSignatureSeen nowUnix else mret true);
  if negb (marked : bool) then _ ← fail_unless_shutdown nowUnix; mret None
  else
    let req := tree_request t form false in
    cur ← get_cur;
    refusal ← (if holds g (ar_key req) then mret (Ok (Some (gate_reason g)))
               else if bool_decide (form = FUnsigned) then unsignedFirst a cur req t g now
               else mret (Ok None));
    match refusal with
    | Err _ => _ ← fail_unless_shutdown nowUnix; mret None
    | Ok refusal =>
        _ ← upd_cur (λ f, setChangeSeen nowUnix (check_answered nowUnix (Some nowUnix) f));
        match refusal with
        | Some _ => _ ← finishCheck "changed_deferred" false false; mret None
        | None =>
            out ← admit_request req false (sf_last_success cur) "first_adoption" "first_adoption_queued";
            _ ← finishCheck out.2 false false;
            mret out.1
        end
    end.

(** A tree that found no anchor. *)
Definition first_absent (a : Adopter) (t : probeTree) (anchors : list (string * URLPath)) (meta : list (URLKey * URLPath))
    (nowUnix : Z) : chk unit :=
  let no_anchor := _ ← record_absent; failCheck nowUnix in
  if negb (IsFlatSuitePath (key_path k)) then no_anchor
  else
    w ← anchorlessEligible;
    match w with
    | Err _ => fail_unless_shutdown nowUnix
    | Ok false => no_anchor
    | Ok true =>
        if negb (adoptUnsigned a) then anchorlessDisabled nowUnix
        else anchorlessRefresh nowUnix t anchors meta
    end.

(** The rows a suite is active through: its anchors, its metadata rows, and the
    index a client fetched; [None] when they cannot be read. *)
Definition first_rows : chk (option (list (string * URLPath) * list (URLKey * URLPath) * option (URLKey * URLPath))) :=
  anchors ← cachedAnchors;
  match anchors with
  | None => mret None
  | Some anchors =>
      if IsFlatSuitePath (key_path k) then
        meta ← read ListSuiteMetadataRows;
        mret (meta ← meta;
              Some (anchors, meta, if client_created anchors then None else flatIndexClientCreated meta))
      else mret (Some (anchors, [], None))
  end.

(** The model of the URLs: a cached anchor, else the index. *)
Definition first_urls (anchors : list (string * URLPath)) (index : option (URLKey * URLPath)) : anchorURLs :=
  let u := anchorURLsFor (anchorURLMap anchors) in
  match index with
  | Some (key, row) =>
      if (au_model u =? "")%string then {| au_model := up_upstream row; au_name := member_name key |} else u
  | None => u
  end.

Definition checkFirst (a : Adopter) (now nowUnix : Z) (offered : bool) : chk (option adoptionRequest) :=
  cur ← get_cur;
  if negb (interested (sf_last_requested cur) now).1 then mret None
  else
    rows ← first_rows;
    match rows with
    | None => _ ← endedByShutdown; mret None
    | Some (anchors, meta, index) =>
        if negb (client_created anchors) && negb (is_set index) then mret None
        else
          let g := retryGateFor adopts cur now in
          _ ← applyClamp g;
          if negb offered && pacedFirst (st_refresh c) cur g now then mret None
          else with_host_slot nowUnix None (
            t ← runProbeTree (first_urls anchors index);
            match pt_end t, pt_form t with
            | Some o, _ => _ ← probe_failed nowUnix o; mret None
            | None, None => _ ← first_absent a t anchors meta nowUnix; mret None
            | None, Some form => first_found a t form g now nowUnix
            end)
    end.

(** ** Repairs (freshness.go planRepair, repair.go, reconcile.go) *)

Definition ListRepairableSkippedMembers (id : Z) (d : DB) : list (string * Skipped) :=
  sort_by (λ a b, str_leb a.1 b.1)
    (map (λ e : (Z * string) * Skipped, (e.1.2, e.2))
      (List.filter (λ e : (Z * string) * Skipped,
          (e.1.1 =? id) && (sk_reason e.2 =? SkipReasonOptionalMemberIntegrity)%string) (map_to_list (skip_t d)))).

Definition repairPending (id : Z) : chk bool :=
  rows ← read (ListRepairableSkippedMembers id);
  mret (match rows with Some (_ :: _) => true | _ => false end).

(** The members the snapshot's own Release declares. *)
Fixpoint reparse_from (names : list string) (id : Z) : chk (option (list ReleaseMember)) :=
  match names with
  | [] => mret None
  | name :: names =>
      m ← read (λ d, member_t d !! (id, name));
      match m with
      | None => mret None
      | Some None => reparse_from names id
      | Some (Some m) =>
          content ← pool_file (m_blob m);
          mret (content ← content;
                if negb (sha256 content =? m_blob m)%string then None
                else text ← (if (name =? "InRelease")%string then inReleasePlaintext clearsign_decode content else Some content);
                match ParseRelease text with Ok l => Some l | Err _ => None end)
      end
  end.

Definition reparseSnapshotRelease : Z → chk (option (list ReleaseMember)) := reparse_from ["InRelease"; "Release"].

Definition named_member (path : string) : ReleaseMember := {| Path := path; Size := 0; SHA256 := ""; SHA512 := "" |}.

Definition missingRequestableMembers (declared : list ReleaseMember) (present : list string) (a : Adopter)
  : list ReleaseMember :=
  let missing := missingRequestableIndexGroups (key_path k) declared (map named_member present) (architectureAllowlist a) in
  List.filter (λ m, match indexTargetGroup (key_path k) (Path m) with
                    | Some (g, _) => existsb (String.eqb g) missing
                    | None => false
                    end) declared.

(** [Some declared] when there is something to fetch. *)
Definition reconcilePending (a : Adopter) (id : Z) : chk (option (list ReleaseMember)) :=
  s ← get_state;
  if bool_decide (id ∈ cs_reconciled s) then mret None
  else
    declared ← reparseSnapshotRelease id;
    match declared with
    | None => mret None
    | Some declared =>
        present ← read (λ d, map (λ e : (Z * string) * Member, e.1.2)
                              (List.filter (λ e : (Z * string) * Member, e.1.1 =? id) (map_to_list (member_t d))));
        match present with
        | None => mret None
        | Some present =>
            if (length (missingRequestableMembers declared present a) =? 0)%nat then _ ← reconciled id; mret None
            else mret (Some declared)
        end
    end.

Definition planRepair (rp : repairRequest) : chk checkOutcome :=
  match st_adopter c with
  | Some a =>
      if negb (st_repair c) then mret nothing
      else
        repair ← repairPending (rr_snapshot rp);
        declared ← reconcilePending a (rr_snapshot rp);
        if negb (repair : bool) && negb (is_set declared) then mret nothing
        else
          ok ← take_slot (rr_signed rp);
          mret (if (ok : bool)
                then {| oc_req := None; oc_repair := Some rp; oc_needRepair := repair;
                        oc_needReconcile := is_set declared; oc_declared := default [] declared; oc_vanished := false |}
                else nothing)
  | None => mret nothing
  end.

(** ** The whole check *)

Definition requested (r : option adoptionRequest) : checkOutcome :=
  {| oc_req := r; oc_repair := None; oc_needRepair := false; oc_needReconcile := false; oc_declared := [];
     oc_vanished := false |}.

Definition vanished : checkOutcome :=
  {| oc_req := None; oc_repair := None; oc_needRepair := false; oc_needReconcile := false; oc_declared := [];
     oc_vanished := true |}.

(** The cooldown since the last check; a stamp ahead of the clock is old. *)
Definition cooling (cur : SuiteFreshness) (now : Z) (bypass : bool) : bool :=
  match sf_last_check cur with
  | Some t => (0 <? st_cooldown c) && negb (now + clockStepTolerance <? t * Second) && negb bypass
              && (now - t * Second <? st_cooldown c)
  | None => false
  end.

Definition detectForm (cur : SuiteFreshness) : chk (option adoptionForm) :=
  match sf_current cur with
  | None => mret (Some FInline)
  | Some id => s ← snapshot id; mret (s ← s; Some (default FInline (formOfSnapshot s)))
  end.

Definition check_form (form : adoptionForm) (now nowUnix : Z) : chk outcome :=
  match form with
  | FUnsigned => checkUnsigned now nowUnix
  | FDetached => checkDetached now nowUnix
  | FInline =>
      o ← checkInline now nowUnix;
      match o with Some o => mret o | None => checkDetached now nowUnix end
  end.

Definition plan (o : outcome) : chk checkOutcome :=
  match o with
  | (Some r, _) => mret (requested (Some r))
  | (None, Some rp) => planRepair rp
  | (None, None) => mret nothing
  end.

Definition check_adopted (cur : SuiteFreshness) (now nowUnix : Z) : chk checkOutcome :=
  let g := retryGateFor adopts cur now in
  s ← get_state;
  if adopts && (pacedByRefusal g || pacedAbsentAnswer (cs_absent s) (suiteKey k) g) then
    _ ← applyClamp g; mret nothing
  else
    form ← detectForm cur;
    match form with
    | None => _ ← endedByShutdown; mret nothing
    | Some form => o ← check_form form now nowUnix; plan o
    end.

Definition checkLocked (bypassCooldown : bool) : chk checkOutcome :=
  n ← tick;
  let now := nanos n in
  let nowUnix := Unix now in
  cur ← read (λ d, suite_t d !! k);
  match cur with
  | None => mret nothing
  | Some None => mret vanished
  | Some (Some cur) =>
      _ ← upd_cur (λ _, cur);
      if cooling cur now bypassCooldown then mret nothing
      else match st_adopter c, sf_current cur with
      | Some a, None => r ← checkFirst a now nowUnix bypassCooldown; mret (requested r)
      | _, _ => check_adopted cur now nowUnix
      end
  end.

(** What an attempt gives the adopter. *)
Definition payload_of (r : adoptionRequest) : payload :=
  match ar_form r with
  | FInline => PayloadInline (ar_inline r)
  | FDetached => PayloadDetached (ar_release r) (ar_sig r) (ar_sigLastmod r)
  | FUnsigned => PayloadUnsigned (ar_release r)
  end.
End check.

(** ** The attempt a check starts (freshness.go check, spawnAdoption; metrics.go) *)

Section attempt.
Context `{Env} `{HTTPTime} `{Surroundings}.
Context `{Verifier} `{Decompress} `{Barrier} `{Details}.
Context (c : Settings) (k : SuiteKey).

(** The deadlines of an attempt are not told apart: they are failures of the
    steps they end. *)
Definition classifyAdoptionOutcome (e : adoption_error) : string :=
  match e with
  | UpstreamOlder | RollbackRefused | UnsignedDowngradeRefused | UnsignedTooLarge => "refused"
  | DateInFuture => "release_date_in_future"
  | GPGFailed => "gpg_failed"
  | ReleaseRejected _ | IndexRejected => "parse_failed"
  | MemberMismatch _ => "member_mismatch"
  | MemberFetchFailed _ => "member_fetch_failed"
  | DBFailed _ => "db_failed"
  | _ => "run_failed"
  end.

Definition classifyAdoptionReason (e : adoption_error) : string :=
  match e with
  | UpstreamOlder => "upstream_older"
  | RollbackRefused => "rollback_refused"
  | UnsignedDowngradeRefused => ReasonUnsignedDowngradeRefused
  | UnsignedTooLarge => ReasonUnsignedTooLarge
  | GPGFailed => if (GPGReason =? "")%string then "gpg_failed" else GPGReason
  | e => classifyAdoptionOutcome e
  end.

Definition drop_lease : chk unit := λ s,
  (tt, match cs_lease s with
       | None => s
       | Some l =>
           {| cs_world := cs_world s; cs_cur := cs_cur s; cs_report := cs_report s; cs_lease := None;
              cs_admission := (release l (cs_admission s)).2; cs_absent := cs_absent s; cs_holds := cs_holds s;
              cs_reconciled := cs_reconciled s; cs_asked := cs_asked s |}
       end).

(** The goroutine: the run, the record of its failure, the end of the lease.  At
    shutdown a failure is none. *)
Definition spawnAdoption (a : Adopter) (r : adoptionRequest) : chk unit :=
  w ← lift (runShared a k (payload_of r) (ar_etag r) (ar_lastmod r));
  _ ← (match w with
       | Ok _ => mret tt
       | Err Shutdown => mret tt
       | Err e =>
           n ← tick;
           if lifetime_over n then mret tt else recordAdoptionFailure k r (classifyAdoptionReason e)
       end);
  drop_lease.

Definition skipped : checkReport := {| rep_result := "skipped"; rep_signedCurrent := false |}.
Definition busy : checkReport := {| rep_result := resultBusy; rep_signedCurrent := false |}.

Definition suiteRowExists : chk bool :=
  r ← read (λ d, HasSuiteRow d k); mret (default false r).

(** [check], without the panics: what it reports and what it hands on.  A lease
    without either is released. *)
Definition check (bypassCooldown : bool) : chk checkOutcome :=
  n ← tick;
  if peek n then _ ← report busy; mret nothing
  else
    exists_ ← suiteRowExists;
    if negb (exists_ : bool) then mret nothing
    else
      n ← tick;
      match lock_suite n with
      | lockBusy => _ ← report busy; mret nothing
      | lockStale => mret nothing
      | lockOK =>
          o ← checkLocked c k bypassCooldown;
          _ ← (if is_set (oc_req o) || is_set (oc_repair o) then mret tt else drop_lease);
          mret o
      end.

(** A check and the adoption it starts. *)
Definition check_and_adopt (bypassCooldown : bool) : chk checkOutcome :=
  o ← check bypassCooldown;
  _ ← (match st_adopter c, oc_req o with Some a, Some r => spawnAdoption a r | _, _ => mret tt end);
  mret o.
End attempt.
