(* ===== verification/CheckLaws.v ===== *)
(** * How a check ends

    A Hoare logic for the steps of [Check], and the ends a check may have: what
    it hands on, the admission slot it holds, what it reports and what it leaves
    in the suite's row.  [D0] is what is known of the database until the check
    writes the row, [D1] what is known after; [U] is what has to hold for
    unsigned metadata to be taken. *)
From S2P Require Import Prelude GoStrings AptPath ReleaseParse PackageIndex Tables Invariant Snapshots Suites GC Rows Declared Fetch MemberFetch Adoption AdoptionSafety Scheduler RetryGate Check.
Local Open Scope Z_scope.

Definition hoare {A} (P : CState → Prop) (m : chk A) (Q : A → CState → Prop) : Prop :=
  ∀ s, P s → Q (m s).1 (m s).2.

Create HintDb chk discriminated.

Section hoare.

Lemma h_ret {A} (P : CState → Prop) (a : A) (Q : A → CState → Prop) : (∀ s, P s → Q a s) → hoare P (mret a) Q.
Proof. intros H s Hs. by apply H. Qed.

Lemma h_bind {A B} (P : CState → Prop) (R : A → CState → Prop) (Q : B → CState → Prop) (m : chk A) (f : A → chk B) :
  hoare P m R → (∀ a, hoare (R a) (f a) Q) → hoare P (m ≫= f) Q.
Proof.
  intros Hm Hf s Hs. specialize (Hm s Hs). unfold mbind, chk_bind. destruct (m s) as [a s1]. by apply Hf.
Qed.

Lemma h_conseq {A} (P P' : CState → Prop) (m : chk A) (Q Q' : A → CState → Prop) :
  hoare P' m Q' → (∀ s, P s → P' s) → (∀ a s, Q' a s → Q a s) → hoare P m Q.
Proof. intros Hm HP HQ s Hs. apply HQ, Hm, HP, Hs. Qed.

Lemma h_pure {A} (F : Prop) (P : CState → Prop) (m : chk A) (Q : A → CState → Prop) :
  (F → hoare P m Q) → hoare (λ s, F ∧ P s) m Q.
Proof. intros Hm s [HF Hs]. by apply Hm. Qed.
Lemma h_learn {A} (F : Prop) (P : CState → Prop) (m : chk A) (Q : A → CState → Prop) :
  (F → hoare P m Q) → hoare (λ s, P s ∧ F) m Q.
Proof. intros Hm s [Hs HF]. by apply Hm. Qed.
Lemma h_then {A B} (P R : CState → Prop) (Q : B → CState → Prop) (m : chk A) (f : A → chk B) :
  hoare P m (λ _, R) → (∀ a, hoare R (f a) Q) → hoare P (m ≫= f) Q.
Proof. apply h_bind. Qed.
End hoare.

(** One step of a program; its result is looked at by cases. *)
Ltac chk_case :=
  match goal with
  | |- hoare _ (match ?x with _ => _ end) _ => destruct x eqn:?
  end.
Ltac chk_bind := eapply h_bind; [solve [eauto with chk]|intros ?].
Ltac chk_steps := repeat first [chk_case | chk_bind].

(** ** Steps that keep the row, the lease, the report and what is known *)

Section keeps.
Context `{Env} `{HTTPTime} `{Surroundings}.
Context (c : Settings) (k : SuiteKey).

Notation db s := (w_db (cs_world s)).

(** The row as the check has it, its lease, its report, and what is known of the
    database. *)
Definition held (D : DB → Prop) (l : option lease) (result : string) (f : SuiteFreshness) (s : CState) : Prop :=
  cs_cur s = f ∧ cs_lease s = l ∧ rep_result (cs_report s) = result ∧ D (db s).

Definition keeps {A} (D : DB → Prop) (m : chk A) : Prop :=
  ∀ l result f, hoare (held D l result f) m (λ _, held D l result f).

Context (D : DB → Prop) (others : ∀ n w, D (w_db w) → D (w_db (meanwhile n w))).

Lemma keeps_hoare {A} (m : chk A) l result f : keeps D m → hoare (held D l result f) m (λ _, held D l result f).
Proof. auto. Qed.

Lemma keeps_bind {A B} (m : chk A) (f : A → chk B) : keeps D m → (∀ a, keeps D (f a)) → keeps D (m ≫= f).
Proof. intros Hm Hf l res x. eapply h_bind; [apply Hm|]. intros a. apply Hf. Qed.
Lemma keeps_ret {A} (a : A) : keeps D (mret a).
Proof. intros l res f. by apply h_ret. Qed.

Lemma keeps_tick : keeps D tick.
Proof. intros l res f s (Hc & Hl & Hr & Hd). split_and!; try done. by apply others. Qed.

Lemma keeps_io {E A} (m : io E A) : stays (AdoptionSafety.I D (λ _, True)) m → keeps D (lift m).
Proof.
  intros Hm. apply keeps_bind; [apply keeps_tick|]. intros _ l res f s (Hc & Hl & Hr & Hd).
  specialize (Hm (cs_world s) (conj Hd Logic.I)). destruct (m (cs_world s)) as [r w]. destruct Hm as [Hm _].
  by split_and!.
Qed.

Lemma keeps_sql {A} (m : Z → T A) : (∀ now, triple D (m now) (λ _, D)) → keeps D (lift (sql m)).
Proof. intros Hm. by apply keeps_io, (amb_sql D (λ _, True)). Qed.

Lemma keeps_write {A} (m : Z → T A) : (∀ now, triple D (m now) (λ _, D)) → keeps D (write m).
Proof. intros Hm. apply keeps_bind; [by apply keeps_sql|]. intros. apply keeps_ret. Qed.

Lemma keeps_world : keeps D world.
Proof. by intros l res f s Hs. Qed.
Lemma keeps_get_state : keeps D get_state.
Proof. by intros l res f s Hs. Qed.
Lemma keeps_read {A} (f : DB → A) : keeps D (read f).
Proof. repeat (apply keeps_bind; [first [apply keeps_tick|apply keeps_world]|intros]). apply keeps_ret. Qed.
Lemma keeps_pool_file h : keeps D (pool_file h).
Proof. repeat (apply keeps_bind; [first [apply keeps_tick|apply keeps_world]|intros]). apply keeps_ret. Qed.
Lemma keeps_absent f : keeps D (answered_absent f).
Proof. by intros l res x s Hs. Qed.
Lemma keeps_hold o : keeps D (set_hold k o).
Proof. by intros l res x s Hs. Qed.
Lemma keeps_reconciled id : keeps D (reconciled id).
Proof. by intros l res x s Hs. Qed.
Lemma keeps_ask url e l m : keeps D (ask c k url e l m).
Proof. apply keeps_bind; [apply keeps_tick|]. by intros n l' res x s Hs. Qed.
Lemma keeps_shutdown : keeps D endedByShutdown.
Proof. apply keeps_bind; [apply keeps_tick|]. intros. apply keeps_ret. Qed.
Lemma keeps_lookup name : keeps D (lookup k name).
Proof. apply keeps_read. Qed.
Lemma keeps_snapshot id : keeps D (snapshot id).
Proof. apply keeps_bind; [apply keeps_read|]. intros. apply keeps_ret. Qed.
End keeps.

#[export] Hint Resolve keeps_hoare keeps_tick keeps_world keeps_get_state keeps_read keeps_pool_file keeps_absent
  keeps_hold keeps_reconciled keeps_ask keeps_shutdown keeps_lookup keeps_snapshot keeps_ret : chk.

Ltac kept := repeat first
  [ match goal with
    | |- keeps _ (mret _) => apply keeps_ret
    | |- keeps _ (match ?x with _ => _ end) => destruct x
    | |- keeps _ (lift (sql _)) => apply keeps_sql; [auto with chk|solve [auto with chk]]
    | |- keeps _ (write _) => apply keeps_write; [auto with chk|solve [auto with chk]]
    | |- keeps _ (_ ≫= _) => apply keeps_bind; [|intros ?]
    end
  | solve [auto with chk] ].

(** *** Programs that only ask and read *)

Section reads.
Context `{Env} `{HTTPTime} `{Surroundings}.
Context (c : Settings) (k : SuiteKey).
Context (D : DB → Prop) (others : ∀ n w, D (w_db w) → D (w_db (meanwhile n w))).

Lemma keeps_probe urls name : keeps D (probe c k urls name).
Proof. unfold probe. kept. Qed.
#[local] Hint Resolve keeps_probe : chk.
Lemma keeps_tree urls : keeps D (runProbeTree c k urls).
Proof. unfold runProbeTree. kept. Qed.
#[local] Hint Resolve keeps_tree : chk.
Lemma keeps_snapshotAnchorHash id name : keeps D (snapshotAnchorHash id name).
Proof. unfold snapshotAnchorHash. kept. Qed.
#[local] Hint Resolve keeps_snapshotAnchorHash : chk.
Lemma keeps_baseline cur row name : keeps D (baseline cur row name).
Proof. unfold baseline. kept. Qed.
Lemma keeps_anchors_from names : keeps D (anchors_from k names).
Proof. induction names as [|n names IH]; cbn [anchors_from]; kept. Qed.
#[local] Hint Resolve keeps_anchors_from : chk.
Lemma keeps_cachedAnchors : keeps D (cachedAnchors k).
Proof. apply keeps_anchors_from. Qed.
#[local] Hint Resolve keeps_cachedAnchors : chk.
Lemma keeps_hasReleaseURLRow : keeps D (hasReleaseURLRow c k).
Proof. unfold hasReleaseURLRow. kept. Qed.
Lemma keeps_first_rows : keeps D (first_rows k).
Proof. unfold first_rows. kept. Qed.
Lemma keeps_repairPending id : keeps D (repairPending id).
Proof. unfold repairPending. kept. Qed.
Lemma keeps_reparse_from names id : keeps D (reparse_from names id).
Proof. induction names as [|n names IH]; cbn [reparse_from]; kept. Qed.
#[local] Hint Resolve keeps_reparse_from : chk.
Lemma keeps_reconcilePending a id : keeps D (reconcilePending k a id).
Proof. unfold reconcilePending, reparseSnapshotRelease. kept. Qed.

End reads.

#[export] Hint Resolve keeps_probe keeps_tree keeps_snapshotAnchorHash keeps_baseline keeps_cachedAnchors
  keeps_hasReleaseURLRow keeps_first_rows keeps_repairPending keeps_reconcilePending : chk.

(** ** What is known of the database before the write of the row, and after *)

Section laws.
Context `{Env} `{HTTPTime} `{Surroundings}.
Context (c : Settings) (k : SuiteKey).
Context (D0 : DB → Prop) (D1 : SuiteFreshness → DB → Prop) (U : Prop).

Definition update_row (f : SuiteFreshness) : T unit :=
  updateSuiteFreshness k (sf_last_check f) (sf_last_success f) (sf_etag f) (sf_lastmod f) (sf_change_seen f)
    (sf_check_fail f).

(** The anchors of a suite. *)
Definition anchor_names : list string := ["InRelease"; "Release"; "Release.gpg"].

(** What the statements of a check keep known.  It writes the cached row of an
    anchor whenever that was collected; any other cached row it refreshes or
    deletes only where unsigned metadata may be taken, or where nothing adopts. *)
Record settled : Prop := {
  ct_ambient : ambient D0 (λ _, True);
  ct_others n w : D0 (w_db w) → D0 (w_db (meanwhile n w));
  ct_retry t : triple D0 (SetAdoptionNextRetry k t) (λ _, D0);
  ct_record a : triple D0 (RecordAdoptionFailure k a) (λ _, D0);
  ct_put name u : name ∈ anchor_names → triple D0 (PutURLPath (anchor_key k name) u) (λ _, D0);
  ct_refresh key old new e l now :
    U ∨ adopts c = false → triple D0 (RefreshURLPathBlob key old new e l now) (λ _, D0);
  ct_delete rows now : U → triple D0 (DeleteURLPathRows rows now) (λ _, D0);
  ct_invalidate p h now : adopts c = false → triple D0 (InvalidateLegacyMetadata k p h now) (λ _, D0);
  ct_update f : triple D0 (update_row f) (λ _, D1 f);
  ct_written f d n : disk_fault n = true → D0 d → D1 f d;
  ct_others1 f n w : D1 f (w_db w) → D1 f (w_db (meanwhile n w));
  ct_clear f : triple (D1 f) (ClearAdoptionFailure k) (λ _, D1 f);
  ct_unsigned d s : D0 d → refuseUnsignedDowngrade (key_host k) (key_path k) d = Ok s → U }.

Hypothesis Hset : settled.

Notation db s := (w_db (cs_world s)).
Notation open := (held D0 None "skipped").

(** After the row was written with [f] and [result] reported. *)
Definition wrote (l : option lease) (result : string) (f : SuiteFreshness) : CState → Prop := held (D1 f) l result f.

Lemma others0 n w : D0 (w_db w) → D0 (w_db (meanwhile n w)).
Proof. apply (ct_others Hset). Qed.
Lemma others1 f n w : D1 f (w_db w) → D1 f (w_db (meanwhile n w)).
Proof. apply (ct_others1 Hset). Qed.
#[local] Hint Resolve others0 others1 : chk.
#[local] Hint Extern 1 (triple _ _ _) =>
  first [ apply (am_marks _ _ (ct_ambient Hset)) | apply (ct_record Hset)
        | apply (ct_put Hset); assumption | apply (ct_refresh Hset); assumption
        | apply (ct_delete Hset); assumption | apply (ct_invalidate Hset); assumption
        | apply (ct_retry Hset) | apply (ct_clear Hset) ] : chk.

(** *** The steps that leave the row alone *)

Lemma keeps_record r reason : keeps D0 (recordAdoptionFailure k r reason).
Proof. unfold recordAdoptionFailure. kept. Qed.
Lemma keeps_put name u : name ∈ anchor_names → keeps D0 (write (λ _, PutURLPath (anchor_key k name) u)).
Proof. intros Hn. kept. Qed.
Lemma keeps_marks seenAt : keeps D0 (markSignatureSeen k seenAt).
Proof. unfold markSignatureSeen. kept. Qed.
Lemma keeps_refreshLegacy cur key res h : keeps D0 (refreshLegacyValidators c cur key res h).
Proof.
  unfold refreshLegacyValidators. destruct (adopts c) eqn:Ha; [apply keeps_ret|].
  assert (U ∨ adopts c = false) by by right. kept.
Qed.
Lemma keeps_delete rows : U → keeps D0 (lift (sql (DeleteURLPathRows rows))).
Proof. intros HU. kept. Qed.
Lemma keeps_pool_write body : keeps D0 (lift (writeBlobBytes body)).
Proof. apply keeps_io; [auto with chk|]. apply (amb_writeBlobBytes _ _ (ct_ambient Hset)). Qed.
#[local] Hint Resolve keeps_record keeps_put keeps_marks keeps_refreshLegacy keeps_delete keeps_pool_write : chk.

Lemma keeps_record_absent : keeps D0 (record_absent k).
Proof. apply keeps_record. Qed.
Lemma inrelease_listed : "InRelease" ∈ anchor_names.
Proof. repeat constructor. Qed.
Lemma release_listed : "Release" ∈ anchor_names.
Proof. repeat constructor. Qed.
Lemma signature_listed : "Release.gpg" ∈ anchor_names.
Proof. repeat constructor. Qed.
#[local] Hint Resolve inrelease_listed release_listed signature_listed : chk.
Lemma keeps_reconstructAnchor name h n : name ∈ anchor_names → keeps D0 (reconstructAnchor k name h n).
Proof. intros Hn. unfold reconstructAnchor. kept. Qed.
Lemma keeps_replace_row key old res : U → keeps D0 (replace_row key old res).
Proof. intros HU. assert (U ∨ adopts c = false) by by left. unfold replace_row. kept. Qed.
#[local] Hint Resolve keeps_record_absent keeps_reconstructAnchor keeps_replace_row : chk.

Lemma keeps_anchor_row cur name n : name ∈ anchor_names → keeps D0 (anchor_row k cur name n).
Proof. intros Hn. unfold anchor_row. kept. Qed.
Lemma keeps_body_answer key row old res : U → keeps D0 (body_answer k key row old res).
Proof. intros HU. assert (U ∨ adopts c = false) by by left. unfold body_answer. kept. Qed.
#[local] Hint Resolve keeps_anchor_row keeps_body_answer : chk.

Lemma keeps_gpg_url cur n : keeps D0 (gpg_url c k cur n).
Proof. unfold gpg_url. kept. Qed.
Lemma keeps_refreshAnchorlessRow key row old : U → keeps D0 (refreshAnchorlessRow c k key row old).
Proof. intros HU. unfold refreshAnchorlessRow. kept. Qed.
#[local] Hint Resolve keeps_gpg_url keeps_refreshAnchorlessRow : chk.

Lemma keeps_refresh_rows rows st : U → keeps D0 (refresh_rows c k rows st).
Proof. intros HU. revert st. induction rows as [|[key row] rows IH]; intros st; cbn [refresh_rows]; kept. Qed.
#[local] Hint Resolve keeps_refresh_rows : chk.

(** ** The ends of a check *)

(** The row as it was read, the gate read from it, the time of the check. *)
Context (f0 : SuiteFreshness) (g : retryGate) (nowUnix : Z).

Definition stamps (f : SuiteFreshness) : option Z * option Z * Z :=
  (sf_last_check f, sf_last_success f, sf_check_fail f).

Definition like (f : SuiteFreshness) : Prop :=
  sf_last_success f = sf_last_success f0 ∧ sf_check_fail f = sf_check_fail f0 ∧ sf_current f = sf_current f0.

Inductive ending : string → option adoptionRequest → option lease → SuiteFreshness → Prop :=
| E_failed f :
    stamps f = (Some nowUnix, sf_last_success f0, sf_check_fail f0 + 1) → ending "failed" None None f
| E_attempt result r l f :
    result ∈ ["changed"; "form_changed"; "first_adoption"] → stamps f = (Some nowUnix, Some nowUnix, 0) →
    ls_host l = key_host k → holds g (ar_key r) = false → (ar_form r = FUnsigned → U) →
    ending result (Some r) (Some l) f
| E_queued result f :
    result ∈ ["changed_queued"; "first_adoption_queued"] →
    stamps f = (Some nowUnix, sf_last_success f0, 0) → ending result None None f
| E_absent f :
    stamps f = (Some nowUnix, sf_last_success f0, 0) → ending "anchor_absent" None None f
| E_answered result f :
    result ∈ ["not_modified"; "unchanged"; "changed_deferred"; "changed";
              "anchorless_unchanged"; "anchorless_refreshed"] →
    (result ∈ ["anchorless_unchanged"; "anchorless_refreshed"] → U) →
    stamps f = (Some nowUnix, Some nowUnix, 0) → ending result None None f
| E_observed r f :
    adopts c = false → stamps f = (Some nowUnix, Some nowUnix, 0) → ending "changed" (Some r) None f.

Definition repair_ok (req : option adoptionRequest) (result : string) (rp : option repairRequest) : Prop :=
  ∀ r, rp = Some r → req = None ∧ result ∈ ["not_modified"; "unchanged"] ∧ rr_suite r = k ∧
                     sf_current f0 = Some (rr_snapshot r).

(** A check that wrote nothing, or ended. *)
Definition outcome_ok (o : outcome) (s : CState) : Prop :=
  (o = no_outcome ∧ ∃ f, open f s) ∨
  ∃ result f l, ending result o.1 l f ∧ wrote l result f s ∧ repair_ok o.1 result o.2.

Definition req_ok (r : option adoptionRequest) : CState → Prop := outcome_ok (r, None).

Lemma skipped_ok f s : open f s → outcome_ok no_outcome s.
Proof. left. eauto. Qed.

Lemma ended_ok req rp s : outcome_ok (req, rp) s → req_ok req s.
Proof.
  intros [[Heq Hf]|(res & f & l & He & Hw & Hr)]; [injection Heq as -> ->; by left|].
  right. exists res, f, l. by split_and!.
Qed.

Lemma h_get_cur {A} D l res f (m : SuiteFreshness → chk A) (Q : A → CState → Prop) :
  hoare (held D l res f) (m f) Q → hoare (held D l res f) (cur ← get_cur; m cur) Q.
Proof. intros Hm s Hs. specialize (Hm s Hs). pose proof (proj1 Hs) as <-. exact Hm. Qed.
Lemma h_upd_cur {A} D l res f h (m : unit → chk A) (Q : A → CState → Prop) :
  hoare (held D l res (h f)) (m tt) Q → hoare (held D l res f) (x ← upd_cur h; m x) Q.
Proof. intros Hm s (<- & Hl & Hr & Hd). apply Hm. by split_and!. Qed.
Lemma h_keeps {A B} D l res f (m : chk A) (rest : A → chk B) (Q : B → CState → Prop) :
  keeps D m → (∀ a, hoare (held D l res f) (rest a) Q) → hoare (held D l res f) (m ≫= rest) Q.
Proof. intros Hm. apply h_bind, Hm. Qed.

Definition clamp (f : SuiteFreshness) : SuiteFreshness :=
  match clampTo g with Some t => set_next_retry t f | None => f end.

Lemma like_clamp f : like f → like (clamp f).
Proof. intros Hf. unfold clamp. by destruct (clampTo g). Qed.

Lemma h_clamp {A} l res f (m : unit → chk A) (Q : A → CState → Prop) :
  hoare (held D0 l res (clamp f)) (m tt) Q → hoare (held D0 l res f) (x ← applyClamp k g; m x) Q.
Proof.
  intros Hm. unfold applyClamp, clamp in *. eapply h_then; [|intros []; exact Hm].
  destruct (clampTo g) as [t|]; [|by apply h_ret].
  apply h_keeps; [kept|]. intros _ s (<- & Hl & Hr & Hd). by split_and!.
Qed.

(** The write of the row. *)
Lemma write_row l res f : hoare (held D0 l res f) (write (λ _, update_row f)) (λ _, held (D1 f) l res f).
Proof.
  unfold write. eapply h_then; [|intros ?; by apply h_ret]. unfold lift. apply h_keeps; [auto with chk|].
  intros _ s (Hc & Hl & Hr & Hd). unfold sql, mbind, io_bind, event. cbn.
  set (n := w_tick _). destruct (disk_fault n) eqn:Hf; cbn.
  - split_and!; [done..|]. by eapply (ct_written Hset).
  - split_and!; [done..|]. exact (ct_update Hset f (db s) tt _ Hd eq_refl).
Qed.

Lemma h_finish l f result clear signed :
  hoare (held D0 l "skipped" f) (finishCheck k result clear signed)
    (λ rp s, wrote l result f s ∧ rp = repairIfUnchanged k result signed f).
Proof.
  unfold finishCheck. apply h_get_cur. eapply h_then; [apply write_row|]. intros _.
  apply h_keeps; [kept|]. intros _. eapply h_then.
  { instantiate (1 := wrote l result f). intros s (Hc & Hl & Hr & Hd). by split_and!. }
  intros _. apply h_keeps; [auto with chk|]. intros _. by apply h_ret.
Qed.

Lemma finish_ends l f result clear signed req :
  ending result req l f → sf_current f = sf_current f0 →
  hoare (held D0 l "skipped" f) (finishCheck k result clear signed) (λ rp, outcome_ok (req, rp)).
Proof.
  intros He Hcur. eapply h_conseq; [apply h_finish|done|]. intros rp s [Hw ->]. right.
  exists result, f, l. split_and!; [done|done|]. intros r. cbn [fst snd]. unfold repairIfUnchanged.
  destruct (negb _ && negb _) eqn:Hres; [done|]. destruct (sf_current f) as [id|] eqn:Hid; [|done]. intros [= <-].
  assert (result ∈ ["not_modified"; "unchanged"]) as Hin.
  { apply andb_false_iff in Hres as [Hr|Hr]; apply negb_false_iff, String.eqb_eq in Hr as ->; set_solver. }
  split_and!; [|done|done|by rewrite <-Hcur].
  inversion He; subst; try done; exfalso; set_solver.
Qed.

Lemma finish_req_ok {A} l f result clear signed req (a : A) (Q : A → CState → Prop) :
  ending result req l f → sf_current f = sf_current f0 → (∀ s, req_ok req s → Q a s) →
  hoare (held D0 l "skipped" f) (_ ← finishCheck k result clear signed; mret a) Q.
Proof.
  intros He Hf HQ. eapply h_bind; [by apply finish_ends|]. intros rp. apply h_ret. intros s Hs.
  eapply HQ, ended_ok, Hs.
Qed.

Lemma h_fail f :
  hoare (open f) (failCheck k nowUnix) (λ _, wrote None "failed" (check_failed nowUnix f)).
Proof.
  unfold failCheck. apply h_keeps; [auto with chk|]. intros _. apply h_upd_cur, h_get_cur.
  eapply h_then; [apply write_row|]. intros _. intros s (Hc & Hl & Hr & Hd). by split_and!.
Qed.

Lemma fail_ok f : like f → hoare (open f) (failCheck k nowUnix) (λ _, outcome_ok no_outcome).
Proof.
  intros (Hs & Hn & Hcur). eapply h_conseq; [apply h_fail|done|]. intros ? s Hw. right.
  exists "failed", (check_failed nowUnix f), None. split_and!; [|done|done].
  apply E_failed. unfold stamps. cbn. congruence.
Qed.

Lemma h_quiet f : hoare (open f) (mret tt) (λ _, outcome_ok no_outcome).
Proof. apply h_ret. intros s. apply skipped_ok. Qed.

Lemma shutdown_ok f : like f → hoare (open f) (fail_unless_shutdown k nowUnix) (λ _, outcome_ok no_outcome).
Proof.
  intros Hf. unfold fail_unless_shutdown. apply h_keeps; [auto with chk|]. intros [|]; [apply h_quiet|].
  by apply fail_ok.
Qed.
Lemma request_failed_ok f e : like f → hoare (open f) (request_failed k nowUnix e) (λ _, outcome_ok no_outcome).
Proof. intros Hf. unfold request_failed. destruct (canceled e); [apply h_quiet|by apply fail_ok]. Qed.
Lemma probe_failed_ok f o : like f → hoare (open f) (probe_failed k nowUnix o) (λ _, outcome_ok no_outcome).
Proof. intros Hf. unfold probe_failed. destruct (po_cancelled o); [apply h_quiet|by apply fail_ok]. Qed.

(** A check given up. *)
Lemma quit_ok {A} f (m : chk unit) (a : A) (Q : A → CState → Prop) :
  hoare (open f) m (λ _, outcome_ok no_outcome) → (∀ s, outcome_ok no_outcome s → Q a s) →
  hoare (open f) (_ ← m; mret a) Q.
Proof. intros Hm HQ. eapply h_then; [apply Hm|]. intros _. by apply h_ret. Qed.

Lemma host_slot_ok {A} f (quit : A) (m : chk A) (Q : A → CState → Prop) :
  like f → (∀ s, outcome_ok no_outcome s → Q quit s) → hoare (open f) m Q →
  hoare (open f) (with_host_slot k nowUnix quit m) Q.
Proof.
  intros Hf Hq Hm. unfold with_host_slot. apply h_keeps; [auto with chk|]. intros n.
  destruct (host_slot n) as [[]|]; [| | | | |exact Hm].
  1: apply h_ret; intros s Hs; apply Hq; by eapply skipped_ok.
  all: apply quit_ok; [by apply fail_ok|done].
Qed.

(** A slot taken, or not. *)
Lemma h_take_slot D res f signed :
  (∀ n w, D (w_db w) → D (w_db (meanwhile n w))) →
  hoare (held D None res f) (take_slot k signed)
    (λ b s, if b then ∃ l, ls_host l = key_host k ∧ held D (Some l) res f s else held D None res f s).
Proof.
  intros HD. unfold take_slot. apply h_keeps; [auto with chk|]. intros _ s (Hc & Hl & Hr & Hd).
  destruct (tryAcquire _ _ _) as [[l a]|] eqn:Ht; cbn; [|by split_and!].
  exists l. split; [|by split_and!]. unfold tryAcquire in Ht.
  repeat match type of Ht with context [if ?b then _ else _] => destruct b end; try done.
  all: by injection Ht as <- _.
Qed.

Definition attempt_result (result : string) : Prop := result ∈ ["changed"; "form_changed"; "first_adoption"].
Definition queued_result (result : string) : Prop := result ∈ ["changed_queued"; "first_adoption_queued"].

(** A check whose end is decided, and its row not yet written. *)
Definition decided (req : option adoptionRequest) (result : string) (s : CState) : Prop :=
  ∃ l f, ending result req l f ∧ sf_current f = sf_current f0 ∧ held D0 l "skipped" f s.

Lemma decided_ok req result clear signed :
  hoare (decided req result) (finishCheck k result clear signed) (λ rp, outcome_ok (req, rp)).
Proof. intros s (l & f & He & Hf & Hs). by apply (finish_ends l f). Qed.

(** The row of a check whose upstream changed. *)
Definition change_row (f : SuiteFreshness) : SuiteFreshness :=
  setChangeSeen nowUnix (check_answered nowUnix (Some nowUnix) f).

Lemma change_row_ok f : like f →
  stamps (change_row f) = (Some nowUnix, Some nowUnix, 0) ∧ sf_current (change_row f) = sf_current f0.
Proof. intros (_ & _ & Hc). unfold change_row, setChangeSeen. cbn. destruct (sf_change_seen f); by split. Qed.

(** Membership in a list of results. *)
Ltac listed := unfold attempt_result, queued_result; solve [repeat constructor].

(** A request that goes in, or waits for a slot. *)
Lemma admit_ok f req signed result queued :
  (adopts c = false → result = "changed") → like f → attempt_result result → queued_result queued →
  holds g (ar_key req) = false → (adopts c = true → ar_form req = FUnsigned → U) →
  hoare (open (change_row f)) (admit_request c k req signed (sf_last_success f) result queued)
    (λ out, decided out.1 out.2).
Proof.
  intros Hadopts Hf Hres Hq Hholds Hun. destruct (change_row_ok f Hf) as [Hs1 Hc1].
  unfold admit_request. destruct (adopts c) eqn:Ha; cbn [negb].
  2: { apply h_ret. intros s Hh. cbn [fst snd]. rewrite (Hadopts eq_refl). exists None, (change_row f).
       split_and!; [by apply E_observed|done|done]. }
  eapply h_bind; [apply h_take_slot, others0|].
  intros [|]; cbn [fst snd].
  - apply h_ret. intros s (l & Hl & Hh). exists (Some l), (change_row f). split_and!; [|done|done].
    apply E_attempt; auto.
  - apply h_upd_cur, h_ret. intros s Hh. exists None, (set_success (sf_last_success f) (change_row f)).
    split_and!; [|exact Hc1|exact Hh]. apply E_queued; [done|].
    destruct Hf as [Hf _]. unfold stamps in *. cbn in *. congruence.
Qed.

(** The request and the end of its check. *)
Lemma attempt_ends f req signed signed' clear result queued :
  (adopts c = false → result = "changed") → like f → attempt_result result → queued_result queued →
  holds g (ar_key req) = false → (adopts c = true → ar_form req = FUnsigned → U) →
  hoare (open (change_row f))
    (out ← admit_request c k req signed (sf_last_success f) result queued;
     rp ← finishCheck k out.2 clear signed'; mret (out.1, rp)) outcome_ok.
Proof.
  intros. eapply h_bind; [by apply admit_ok|]. intros [r res]. cbn [fst snd].
  eapply h_bind; [apply decided_ok|]. intros rp. by apply h_ret.
Qed.
Lemma attempt_req_ok f req signed signed' clear result queued :
  (adopts c = false → result = "changed") → like f → attempt_result result → queued_result queued →
  holds g (ar_key req) = false → (adopts c = true → ar_form req = FUnsigned → U) →
  hoare (open (change_row f))
    (out ← admit_request c k req signed (sf_last_success f) result queued;
     _ ← finishCheck k out.2 clear signed'; mret out.1) req_ok.
Proof.
  intros. eapply h_bind; [by apply admit_ok|]. intros [r res]. cbn [fst snd].
  eapply h_bind; [apply decided_ok|]. intros rp. apply h_ret. intros s. apply ended_ok.
Qed.
(** ** Unsigned metadata *)

(** The database a statement that answered ran on. *)
Lemma h_sql {A} (m : Z → T A) l res f :
  (∀ now, triple D0 (m now) (λ _, D0)) →
  hoare (held D0 l res f) (lift (sql m))
    (λ r s, held D0 l res f s ∧ ∀ a, r = Ok a → ∃ now d d', D0 d ∧ m now d = Ok (a, d')).
Proof.
  intros Hm s Hs. split; [by apply (keeps_sql _ others0 m Hm)|]. intros a. unfold lift, mbind, chk_bind. cbn -[sql].
  destruct (sql m _) as [r w] eqn:Hr. cbn. intros ->. apply sql_pool in Hr as (_ & now & Hr). cbn in Hr.
  exists now, (w_db (meanwhile (w_tick (cs_world s)) (cs_world s))), (w_db w). split; [|done].
  apply others0, Hs.
Qed.

Lemma keeps_refuse now : triple D0 ((λ _, refuseUnsignedDowngrade (key_host k) (key_path k)) (now : Z)) (λ _, D0).
Proof.
  intros d u d' HP Hrun. unfold refuseUnsignedDowngrade in Hrun. minv.
  destruct (has_marker _ _ _); [done|]. destruct (has_signed_snapshot _ _ _); [done|]. by minv.
Qed.

Lemma unsigned_taken now d d' : D0 d →
  (λ _ : Z, refuseUnsignedDowngrade (key_host k) (key_path k)) now d = Ok (tt, d') → U.
Proof. intros Hd Hr. by eapply (ct_unsigned Hset). Qed.

Lemma h_eligible a l res f :
  hoare (held D0 l res f) (lift (unsignedEligible a k)) (λ r s, held D0 l res f s ∧ (r = Ok tt → U)).
Proof.
  intros s Hs. unfold unsignedEligible. destruct (adoptUnsigned a); cbn [negb].
  - pose proof (h_sql _ l res f keeps_refuse s Hs) as [Hh Hu]. revert Hh Hu.
    unfold lift, mbind, chk_bind, maperr. cbn -[sql]. destruct (sql _ _) as [[[]|e] w]; cbn; intros Hh Hu; split; try done.
    intros _. destruct (Hu tt eq_refl) as (now & d & d' & Hd & Hr). by eapply unsigned_taken.
  - split; [|by intros]. destruct Hs as (Hc & Hl & Hr & Hd). split_and!; try done. by apply others0.
Qed.

Lemma h_refusal a req l res f :
  hoare (held D0 l res f) (unsignedRefusal k a req) (λ r s, held D0 l res f s ∧ (r = Ok "" → U)).
Proof.
  unfold unsignedRefusal. eapply h_bind; [apply h_eligible|]. intros r s [Hs Hu].
  assert (∀ reason, reason ≠ "" → hoare (held D0 l res f)
            (_ ← recordAdoptionFailure k req reason; mret (Ok reason : result unit string))
            (λ r s, held D0 l res f s ∧ (r = Ok "" → U))) as Hrec.
  { intros reason Hne. apply h_keeps; [auto with chk|]. intros _. apply h_ret. intros s1 Hs1. split; [done|].
    by intros [= ->]. }
  destruct r as [[]|e].
  - specialize (Hu eq_refl). destruct (unsignedTooLarge _); [by apply Hrec|]. by split.
  - destruct e; try (by apply Hrec); by split.
Qed.

Lemma h_anchorless_eligible l res f :
  hoare (held D0 l res f) (anchorlessEligible k) (λ r s, held D0 l res f s ∧ (r = Ok true → U)).
Proof.
  unfold anchorlessEligible. apply h_keeps.
  { apply keeps_io; [auto with chk|]. apply (amb_remarkSigned _ _ (ct_ambient Hset)). }
  intros [m|e]; [|apply h_ret; intros s Hs; by split].
  eapply h_bind; [apply h_sql, keeps_refuse|]. intros r. apply h_ret. intros s [Hs Hu]. split; [done|].
  destruct r as [[]|e]; [|by repeat case_match]. intros _.
  destruct (Hu tt eq_refl) as (now & d & d' & Hd & Hr). by eapply unsigned_taken.
Qed.

(** ** The anchor of an adopted suite is gone *)

Lemma tree_request_unsigned t form cross : ar_form (tree_request k t form cross) = FUnsigned → form = FUnsigned.
Proof. by destruct form. Qed.

Lemma not_held key : waiting g = false → holds g key = false.
Proof. unfold holds. by intros ->. Qed.

Lemma absent_answer_ok f signed : like f → hoare (open f) (absent_answer k nowUnix signed) req_ok.
Proof.
  intros (Hs & Hn & Hc). unfold absent_answer. apply h_upd_cur.
  eapply finish_req_ok; [apply E_absent|exact Hc|done]. unfold stamps. cbn. by rewrite Hs.
Qed.

Lemma absent_tree_ok f now :
  hoare (open f) (absent_tree c k f g now) (λ b s, open f s ∧ (b = true → waiting g = false)).
Proof.
  assert (∀ b : bool, (b = true → waiting g = false) →
            hoare (open f) (mret b) (λ b s, open f s ∧ (b = true → waiting g = false))) as Hret.
  { intros b Hb. by apply h_ret. }
  assert (hoare (open f) (_ ← record_absent k; mret false) (λ b s, open f s ∧ (b = true → waiting g = false))) as Hrec.
  { apply h_keeps; [auto with chk|]. intros _. by apply Hret. }
  unfold absent_tree. destruct (active g) eqn:Ha; cbn [negb]; [|exact Hrec].
  destruct (gate_due g) eqn:Hd; cbn [negb]; [|by apply Hret].
  assert (waiting g = false) as Hw by (unfold waiting; by rewrite Ha, Hd).
  destruct (negb _); [by apply Hret|]. destruct (confirmed _ _ _); [by apply Hret|exact Hrec].
Qed.
Lemma quit_none f (m : chk unit) : hoare (open f) m (λ _, outcome_ok no_outcome) → hoare (open f) (_ ← m; mret (None : option adoptionRequest)) req_ok.
Proof. intros Hm. by apply quit_ok. Qed.

Lemma like_changed f : like f → sf_current (change_row f) = sf_current f0.
Proof. intros Hf. apply change_row_ok, Hf. Qed.

(** An answer that changes nothing the client sees. *)
Lemma answered_req_ok f result clear signed :
  result ∈ ["not_modified"; "unchanged"; "changed_deferred"; "changed"] →
  stamps f = (Some nowUnix, Some nowUnix, 0) → sf_current f = sf_current f0 →
  hoare (open f) (_ ← finishCheck k result clear signed; mret (None : option adoptionRequest)) req_ok.
Proof.
  intros Hin Hs Hc. eapply finish_req_ok; [|exact Hc|done]. apply E_answered; [set_solver| |done].
  intros Hr. exfalso. set_solver.
Qed.

Lemma anchorFoundAgain_ok a form t found signed f :
  adopts c = true → waiting g = false → like f →
  hoare (open f) (anchorFoundAgain c k a nowUnix form t found signed) req_ok.
Proof.
  intros Ha Hw Hf. unfold anchorFoundAgain. apply h_keeps; [kept|]. intros marked.
  destruct marked; cbn [negb]; [|by apply quit_none, shutdown_ok]. apply h_get_cur.
  apply h_keeps; [auto with chk|]. intros [s|]; [|by apply quit_none, shutdown_ok].
  set (req := tree_request k t found _).
  eapply h_bind with (R := λ r s', open f s' ∧ (sameAs t s = false → ar_form req = FUnsigned → r = Ok "" → U)).
  { destruct (negb (sameAs t s) && bool_decide (found = FUnsigned)) eqn:Hn.
    - eapply h_conseq; [apply h_refusal|done|]. intros r s' [Hs Hu]. auto.
    - apply h_ret. intros s' Hs. split; [done|]. intros Hsame Hreq%tree_request_unsigned _. subst found.
      by rewrite Hsame in Hn. }
  intros r. apply h_learn. intros Hu. destruct r as [r|]; [|by apply quit_none, shutdown_ok].
  apply h_upd_cur. destruct (sameAs t s).
  - apply h_upd_cur. apply answered_req_ok; [listed|done|apply Hf].
  - apply h_upd_cur. destruct (change_row_ok f Hf) as [Hst Hcur].
    destruct (String.eqb_spec r ""); cbn [negb]; subst.
    + apply attempt_req_ok; try done; [by rewrite Ha|by destruct (bool_decide _); listed|listed|by apply not_held|by eauto].
    + by apply answered_req_ok; [listed|..].
Qed.
Lemma anchorAbsent_ok a now form signed f :
  adopts c = true → like f → hoare (open f) (anchorAbsent c k a now nowUnix form g signed) req_ok.
Proof.
  intros Ha Hf. unfold anchorAbsent. apply h_get_cur. eapply h_bind; [apply absent_tree_ok|]. intros b. apply h_learn. intros Hw.
  destruct b; cbn [negb]; [specialize (Hw eq_refl)|by apply absent_answer_ok].
  apply h_keeps; [auto with chk|]. intros rows. apply h_keeps; [kept|]. intros _.
  apply h_keeps; [auto with chk|]. intros t.
  assert (hoare (open f) (_ ← record_absent k; absent_answer k nowUnix signed) req_ok) as Hrec.
  { apply h_keeps; [auto with chk|]. intros _. by apply absent_answer_ok. }
  destruct (pt_end t) as [o|]; [|destruct (pt_form t) as [found|]; [|exact Hrec]].
  - apply quit_none. by apply (probe_failed_ok f o).
  - destruct (negb _ || _); [by apply anchorFoundAgain_ok|exact Hrec].
Qed.

(** ** The InRelease of a detached suite *)

Definition lateral_post (f : SuiteFreshness) (r : option adoptionRequest * bool * bool) (s : CState) : Prop :=
  if r.1.2 then req_ok r.1.1 s else open f s.

Lemma lateralInline_ok urls signed f :
  adopts c = true → like f → hoare (open f) (lateralInline c k urls g signed nowUnix) (lateral_post f).
Proof.
  intros Ha Hf. unfold lateralInline. apply h_keeps; [auto with chk|]. intros o.
  destruct (negb _); [by apply h_ret|]. set (req := inline_request k _ true true). cbv zeta.
  apply h_keeps; [auto with chk|]. intros s. destruct (holds g (ar_key req)) eqn:Hh.
  - eapply h_bind with (R := λ h s, h = true ∧ open f s); [by apply h_ret|]. intros h. apply h_pure. intros ->.
    by apply h_ret.
  - apply h_keeps; [kept|]. intros [|]; [by apply h_ret|]. apply h_get_cur, h_upd_cur. unfold lateral_post.
    eapply h_bind; [apply admit_ok; [by rewrite Ha|done|listed|listed|done|done]|]. intros [r res]. cbn [fst snd].
    eapply h_bind; [apply decided_ok|]. intros rp. apply h_ret. intros s1. apply ended_ok.
Qed.

(** ** A signature for an unsigned suite *)

Lemma upgrade_found_ok t form f :
  adopts c = true → form ≠ FUnsigned → like f → hoare (open f) (upgrade_found c k t form g nowUnix) req_ok.
Proof.
  intros Ha Hform Hf. unfold upgrade_found. apply h_get_cur, h_upd_cur. destruct (change_row_ok f Hf) as [Hst Hcur].
  destruct (holds g _) eqn:Hh; [by apply answered_req_ok; [listed|..]|].
  apply attempt_req_ok; try done; [by rewrite Ha|listed|listed|]. by intros _ ->%tree_request_unsigned.
Qed.

Definition upgrade_post (f : SuiteFreshness) (r : option (option adoptionRequest)) : CState → Prop :=
  match r with Some req => req_ok req | None => open f end.

Lemma upgradeProbe_ok a urls now f :
  adopts c = true → like f → hoare (open f) (upgradeProbe c k a urls g now nowUnix) (upgrade_post f).
Proof.
  intros Ha Hf. unfold upgradeProbe. cbv zeta.
  assert (∀ o, hoare (open f) (_ ← probe_failed k nowUnix o; mret (Some None)) (upgrade_post f)) as Hfail.
  { intros o. apply quit_ok; [by apply probe_failed_ok|done]. }
  assert (hoare (open f) (_ ← fail_unless_shutdown k nowUnix; mret (Some None)) (upgrade_post f)) as Hquit.
  { apply quit_ok; [by apply shutdown_ok|done]. }
  assert (∀ m, hoare (open f) m req_ok → hoare (open f) (r ← m; mret (Some r)) (upgrade_post f)) as Hsome.
  { intros m Hm. eapply h_bind; [apply Hm|]. intros r. by apply h_ret. }
  apply h_keeps; [auto with chk|]. intros i. destruct (po_class i); [apply Hfail| |].
  - apply h_keeps; [auto with chk|]. intros [|]; cbn [negb]; [|exact Hquit]. by apply Hsome, upgrade_found_ok.
  - apply h_keeps; [auto with chk|]. intros sig. destruct (po_class sig); [apply Hfail| |by apply h_ret].
    apply h_keeps; [auto with chk|]. intros [|]; cbn [negb]; [|exact Hquit].
    apply h_keeps; [auto with chk|]. intros rel.
    destruct (po_class rel); [apply Hfail|by apply Hsome, upgrade_found_ok|by apply Hsome, anchorAbsent_ok].
Qed.
(** ** The answer of the current anchor *)

(** The row of a check that was answered. *)
Definition answered_row (f : SuiteFreshness) : Prop :=
  stamps f = (Some nowUnix, Some nowUnix, 0) ∧ sf_current f = sf_current f0.

Lemma change_row_answered f : like f → answered_row (change_row f).
Proof. apply change_row_ok. Qed.

Lemma answered_ok f result clear signed :
  result ∈ ["not_modified"; "unchanged"; "changed_deferred"; "changed"] → answered_row f →
  hoare (open f) (rp ← finishCheck k result clear signed; mret (None, rp)) outcome_ok.
Proof.
  intros Hin [Hs Hc]. eapply h_bind; [apply finish_ends; [|exact Hc]|intros rp; by apply h_ret].
  apply E_answered; [set_solver| |done]. intros Hr. exfalso. set_solver.
Qed.

Lemma steady_ok f res newHash cachedHash result clear f1 signed :
  answered_row f → steadyResult f res newHash cachedHash g nowUnix = Some (result, clear, f1) →
  ∀ clear', hoare (open f) (_ ← upd_cur (λ _, f1); rp ← finishCheck k result clear' signed; mret (None, rp)) outcome_ok.
Proof.
  intros [Hs Hc] Hst clear'. apply h_upd_cur. unfold steadyResult in Hst.
  assert (answered_row (setChangeSeen nowUnix f)) as Hch by (unfold setChangeSeen; by destruct (sf_change_seen f)).
  repeat (case_match; [by injection Hst as <- <- <-; apply answered_ok; [listed|]|]). done.
Qed.

Definition usable_post (f : SuiteFreshness) (r : option ConditionalResult) : CState → Prop :=
  match r with Some r => λ s, open f s ∧ (cr_Status r = 200 ∨ cr_Status r = 304) | None => outcome_ok no_outcome end.

Lemma usable_ok f res conditional : like f → hoare (open f) (usable c k res conditional nowUnix) (usable_post f).
Proof.
  intros Hf. unfold usable. destruct res as [r|e]; [|by apply quit_ok; [apply request_failed_ok|]].
  destruct (unusableStatus c r conditional) eqn:Hu; [by apply quit_ok; [apply fail_ok|]|].
  apply h_ret. intros s Hs. split; [done|]. unfold unusableStatus in Hu. apply orb_false_iff in Hu as [Hu _].
  destruct (Z.eqb_spec (cr_Status r) 200), (Z.eqb_spec (cr_Status r) 304); [by left|by left|by right|done].
Qed.

Lemma quit_outcome f (m : chk unit) :
  hoare (open f) m (λ _, outcome_ok no_outcome) → hoare (open f) (_ ← m; mret no_outcome) outcome_ok.
Proof. intros Hm. by apply quit_ok. Qed.

(** *** The unsigned form *)

Lemma unsigned_answer_ok res cachedHash f :
  cr_Status res = 200 ∨ cr_Status res = 304 → like f →
  hoare (open f) (unsigned_answer c k res cachedHash g nowUnix) outcome_ok.
Proof.
  intros Hcode Hf. unfold unsigned_answer. set (req := unsigned_request k res false).
  set (steady := _ || _). set (deferred := negb steady && holds g (ar_key req)).
  eapply h_bind with (R := λ r s, open f s ∧ (steady = false → deferred = false → adopts c = true → r = Ok "" → U)).
  { unfold adopts. destruct (st_adopter c) as [a|]; [|by apply h_ret].
    destruct (negb steady && negb deferred) eqn:Hn; [eapply h_conseq; [apply h_refusal|done|intros r s []; by split; auto]|].
    apply h_ret. intros s Hs. split; [done|]. intros Hst Hd. by rewrite Hst, Hd in Hn. }
  intros r. apply h_learn. intros Hu. destruct r as [r|]; [|by apply quit_outcome, shutdown_ok].
  apply h_get_cur, h_upd_cur, h_get_cur.
  destruct (steadyResult _ res _ _ g nowUnix) as [[[result cl] f1]|] eqn:Hst.
  { eapply steady_ok; [|done]. split; [done|apply Hf]. }
  apply h_upd_cur. pose proof (change_row_answered f Hf) as Hch.
  destruct (deferred || _) eqn:Hd; [by apply answered_ok; [listed|]|].
  apply orb_false_iff in Hd as [Hd Hr%negb_false_iff%String.eqb_eq].
  assert (steady = false) as Hs.
  { unfold steadyResult in Hst. unfold steady. destruct (Z.eqb_spec (cr_Status res) 304) as [He|Hne]; cbn in *.
    - by destruct (recordValidators g).
    - destruct Hcode as [He|]; [|done]. rewrite He in Hst. cbn in Hst. by destruct (String.eqb _ cachedHash). }
  apply attempt_ends; try done; [listed|listed| |].
  - unfold deferred in Hd. by rewrite Hs in Hd.
  - intros Ha _. apply Hu; congruence.
Qed.

Lemma baseline_keeps f row name : keeps D0 (baseline f row name).
Proof. auto with chk. Qed.

Lemma checkUnsigned_ok now :
  retryGateFor (adopts c) f0 now = g → like f0 → hoare (open f0) (checkUnsigned c k now nowUnix) outcome_ok.
Proof.
  intros Hg Hf. unfold checkUnsigned. apply h_get_cur. apply h_keeps; [auto with chk|].
  intros [row|]; [|apply h_ret; intros s; apply skipped_ok]. apply h_keeps; [auto with chk|]. intros base.
  destruct (base.1 =? "")%string; [apply h_ret; intros s; apply skipped_ok|]. cbv zeta. rewrite Hg.
  apply h_clamp, host_slot_ok; [by apply like_clamp|done|]. pose proof (like_clamp f0 Hf) as Hc. revert Hc.
  generalize (clamp f0) as f. intros f Hc.
  set (answer := cur ← get_cur; _).
  assert (hoare (open f) answer outcome_ok) as Hans.
  { unfold answer. apply h_get_cur. destruct (validators g f) as [etag lastmod].
    apply h_keeps; [auto with chk|]. intros res. 
    assert (hoare (open f) (r ← usable c k res (sent etag lastmod) nowUnix;
              match r with None => mret no_outcome | Some r => unsigned_answer c k r base.1 g nowUnix end) outcome_ok) as Hrest.
    { eapply h_bind; [by apply usable_ok|]. intros [r|]; cbn [usable_post]; [|by apply h_ret].
      apply h_learn. intros Hcode. by apply unsigned_answer_ok. }
    unfold adopts in *. destruct (st_adopter c) as [a|] eqn:Ha; [|exact Hrest]. destruct (is_absent _ _ _); [|exact Hrest].
    eapply h_bind; [apply anchorAbsent_ok; [by unfold adopts; rewrite Ha|done]|]. intros req. by apply h_ret. }
  eapply h_bind with (R := upgrade_post f).
  { unfold adopts in *. destruct (st_adopter c) as [a|] eqn:Ha; [|by apply h_ret].
    apply upgradeProbe_ok; [by unfold adopts; rewrite Ha|done]. }
  intros [req|]; [by apply h_ret|exact Hans].
Qed.
(** ** Without an adopter *)

Lemma legacy_ok f name cachedHash signed :
  adopts c = false → like f →
  hoare (open (change_row f))
    (legacy_changed k name cachedHash (sf_last_success f) (sf_check_fail f) signed nowUnix) outcome_ok.
Proof.
  intros Ha Hf. unfold legacy_changed. apply h_keeps; [kept|].
  intros [?|?]; [by apply answered_ok; [listed|apply change_row_answered]|].
  apply h_upd_cur, quit_outcome, shutdown_ok. destruct Hf as (Hs & Hn & Hc).
  split; [done|]. split; [done|]. by apply like_changed.
Qed.

(** *** The inline form *)

Lemma not_steady f res newHash cachedHash :
  cr_Status res = 200 ∨ cr_Status res = 304 → steadyResult f res newHash cachedHash g nowUnix = None →
  cr_Status res = 200.
Proof.
  intros [Hs|Hs]; [done|]. unfold steadyResult. rewrite Hs. cbn. by destruct (recordValidators g).
Qed.

Lemma inline_answer_ok res cachedHash signed f :
  cr_Status res = 200 ∨ cr_Status res = 304 → like f →
  hoare (open f) (inline_answer c k res cachedHash g signed nowUnix) outcome_ok.
Proof.
  intros Hcode Hf. unfold inline_answer. apply h_get_cur, h_upd_cur, h_get_cur.
  destruct (steadyResult _ res _ _ g nowUnix) as [[[result cl] f1]|] eqn:Hst.
  { eapply steady_ok; [|done]. split; [done|apply Hf]. }
  apply not_steady in Hst; [|done]. apply h_upd_cur. pose proof (change_row_answered f Hf) as Hch.
  destruct (holds g _) eqn:Hh; [by apply answered_ok; [listed|]|].
  destruct (adopts c) eqn:Ha; cbn [negb]; [|by apply legacy_ok].
  apply attempt_ends; try done; [listed|listed|]. unfold bodyHash in Hh. by rewrite Hst in Hh.
Qed.

(** An answer the check goes on with, for an adopted suite and for one without an
    adopter. *)
Lemma usable_then {A} f res conditional (quit : A) (m : ConditionalResult → chk A) (Q : A → CState → Prop) :
  like f → (∀ s, outcome_ok no_outcome s → Q quit s) →
  (∀ r, cr_Status r = 200 ∨ cr_Status r = 304 → hoare (open f) (m r) Q) →
  hoare (open f) (r ← usable c k res conditional nowUnix; match r with None => mret quit | Some r => m r end) Q.
Proof.
  intros Hf Hq Hm. eapply h_bind; [by apply usable_ok|]. intros [r|]; cbn [usable_post]; [|by apply h_ret].
  apply h_learn. apply Hm.
Qed.

Lemma keeps_hasReleaseURLRow0 : keeps D0 (hasReleaseURLRow c k).
Proof. auto with chk. Qed.

Definition fallback_post (f : SuiteFreshness) (o : option outcome) : CState → Prop :=
  match o with Some o => outcome_ok o | None => λ s, sf_current f = None ∧ open f s end.

Lemma inline_asked_ok now row base f :
  retryGateFor (adopts c) f now = g → like f →
  hoare (open f) (inline_asked c k now nowUnix row base) (fallback_post (clamp f)).
Proof.
  intros Hg Hf. unfold inline_asked. apply h_get_cur. cbv zeta. rewrite Hg. apply h_clamp, h_get_cur.
  pose proof (like_clamp f Hf) as Hc. revert Hc. generalize (clamp f) as f1. clear f Hg Hf. intros f Hf.
  destruct (request_validators c g f row) as [etag lastmod]. apply host_slot_ok; [done|done|].
  apply h_keeps; [auto with chk|]. intros res.
  set (rest := back ← _; _).
  assert (hoare (open f) rest (fallback_post f)) as Hrest.
  { unfold rest. eapply h_bind with (R := λ b s, open f s ∧ (b = true → sf_current f = None)).
    { destruct res as [r|e]; [by apply h_ret|]. destruct (negb (canceled e) && _ && _) eqn:Hb; [|by apply h_ret].
      eapply h_conseq; [apply keeps_hasReleaseURLRow0|done|]. intros b s Hs. split; [exact Hs|]. intros _.
      apply andb_true_iff in Hb as [Hb _]. apply andb_true_iff in Hb as [_ Hb]. by apply bool_decide_eq_true in Hb. }
    intros back. apply h_learn. intros Hb. destruct back; [apply h_ret; intros s Hs; split; auto|].
    apply usable_then; [done|done|]. intros r Hcode. apply h_keeps; [auto with chk|].
    intros [|]; cbn [negb]; [|by apply quit_ok; [apply fail_ok|]].
    eapply h_bind; [by apply inline_answer_ok|]. intros o. by apply h_ret. }
  destruct (st_adopter c) as [a|] eqn:Ha; [|exact Hrest]. destruct (bool_decide _ && is_absent _ _ _); [|exact Hrest].
  eapply h_bind; [apply anchorAbsent_ok; [by unfold adopts; rewrite Ha|done]|]. intros req. by apply h_ret.
Qed.
(** ** A suite that was never adopted *)

Lemma anchorless_end_ok requests st deleted f :
  U → like f → hoare (open f) (anchorless_end k requests st deleted nowUnix) (λ _, outcome_ok no_outcome).
Proof.
  intros HU Hf. unfold anchorless_end. cbv zeta. destruct (_ && _); [by apply fail_ok|]. apply h_upd_cur.
  eapply finish_req_ok; [apply E_answered; [|done|done]|apply Hf|done]. destruct (0 <? _); listed.
Qed.

Lemma anchorlessRefresh_ok t anchors rows f :
  U → like f → hoare (open f) (anchorlessRefresh c k nowUnix t anchors rows) (λ _, outcome_ok no_outcome).
Proof.
  intros HU Hf. unfold anchorlessRefresh. apply h_keeps; [by apply keeps_refresh_rows|]. intros [st|]; [|apply h_quiet].
  cbv zeta. destruct (_ =? 0)%nat; [by apply anchorless_end_ok|]. apply h_keeps; [auto with chk|].
  intros [n|e]; [by apply anchorless_end_ok|]. apply h_keeps; [auto with chk|].
  intros [|]; [apply h_quiet|by apply anchorless_end_ok].
Qed.

Lemma anchorlessDisabled_ok f :
  like f → hoare (open f) (anchorlessDisabled k nowUnix) (λ _, outcome_ok no_outcome).
Proof.
  intros Hf. unfold anchorlessDisabled. apply h_keeps; [apply keeps_record|]. intros _. apply h_upd_cur.
  eapply h_bind; [apply finish_ends; [apply E_answered; [listed| |done]|apply Hf]|].
  - intros Hr. exfalso. set_solver.
  - intros rp. apply h_ret. intros s. apply ended_ok.
Qed.

Lemma first_absent_ok a t anchors meta f :
  like f → hoare (open f) (first_absent c k a t anchors meta nowUnix) (λ _, outcome_ok no_outcome).
Proof.
  intros Hf. unfold first_absent.
  assert (hoare (open f) (_ ← record_absent k; failCheck k nowUnix) (λ _, outcome_ok no_outcome)) as Hno.
  { apply h_keeps; [auto with chk|]. intros _. by apply fail_ok. }
  cbv zeta. destruct (negb _); [exact Hno|]. eapply h_bind; [apply h_anchorless_eligible|].
  intros r. apply h_learn. intros Hu. destruct r as [[|]|]; [|exact Hno|by apply shutdown_ok].
  destruct (negb _); [by apply anchorlessDisabled_ok|apply anchorlessRefresh_ok; auto].
Qed.

Lemma unsignedFirst_ok a cur req t now l res f :
  hoare (held D0 l res f) (unsignedFirst c k a cur req t g now) (λ r s, held D0 l res f s ∧ (r = Ok None → U)).
Proof.
  unfold unsignedFirst. eapply h_bind; [apply h_refusal|]. intros r. apply h_learn. intros Hu.
  destruct r as [reason|]; [|by apply h_ret]. cbv zeta.
  destruct (String.eqb_spec reason ""); cbn [negb]; [subst|by apply h_ret].
  specialize (Hu eq_refl). repeat (destruct (_ && _); [by apply h_ret|]).
  apply h_keeps; [auto with chk|]. intros _. by apply h_ret.
Qed.

Lemma first_found_ok a t form now f :
  adopts c = true → like f → hoare (open f) (first_found c k a t form g now nowUnix) req_ok.
Proof.
  intros Ha Hf. unfold first_found. apply h_keeps; [kept|].
  intros [|]; cbn [negb]; [|by apply quit_none, shutdown_ok]. cbv zeta. apply h_get_cur.
  set (req := tree_request k t form false). pose proof (change_row_answered f Hf) as Hch.
  eapply h_bind with (R := λ r s, open f s ∧ (r = Ok None → holds g (ar_key req) = false ∧ (ar_form req = FUnsigned → U))).
  { destruct (holds g (ar_key req)); [by apply h_ret|]. destruct (bool_decide _) eqn:Hform.
    - eapply h_conseq; [apply unsignedFirst_ok|done|]. intros r s [Hs Hu]. auto.
    - apply h_ret. intros s Hs. split; [done|]. intros _. split; [done|].
      intros ->%tree_request_unsigned. by apply bool_decide_eq_false in Hform. }
  intros r. apply h_learn. intros Hu. destruct r as [refusal|]; [|by apply quit_none, shutdown_ok].
  apply h_upd_cur. destruct refusal as [reason|]; [destruct Hch; by apply answered_req_ok; [listed|..]|].
  destruct (Hu eq_refl) as [Hh Huns]. apply attempt_req_ok; try done; [by rewrite Ha|listed|listed].
Qed.

Lemma checkFirst_ok a now offered :
  adopts c = true → retryGateFor (adopts c) f0 now = g → like f0 →
  hoare (open f0) (checkFirst c k a now nowUnix offered) req_ok.
Proof.
  intros Ha Hg Hf. unfold checkFirst. apply h_get_cur.
  assert (∀ f, hoare (open f) (mret None) req_ok) as Hnone by (intros f; apply h_ret; intros s Hs; exact (skipped_ok f s Hs)).
  destruct (negb _); [apply Hnone|]. apply h_keeps; [auto with chk|].
  intros [[[anchors meta] index]|]; [|apply h_keeps; [auto with chk|]; intros _; apply Hnone].
  destruct (_ && _); [apply Hnone|]. cbv zeta. rewrite Hg. apply h_clamp.
  pose proof (like_clamp f0 Hf) as Hc. revert Hc. generalize (clamp f0) as f. intros f Hc.
  destruct (_ && _); [apply Hnone|]. apply host_slot_ok; [done|done|]. apply h_keeps; [auto with chk|]. intros t.
  destruct (pt_end t) as [o|]; [by apply quit_none, probe_failed_ok|].
  destruct (pt_form t) as [form|]; [by apply first_found_ok|by apply quit_none, first_absent_ok].
Qed.

(** An adopter checks a suite that has a snapshot. *)
Hypothesis Hadopted : adopts c = true → is_Some (sf_current f0).

Lemma checkInline_ok now :
  retryGateFor (adopts c) f0 now = g → like f0 →
  hoare (open f0) (checkInline c k now nowUnix)
    (λ o, match o with Some o => outcome_ok o | None => open f0 end).
Proof.
  intros Hg Hf. unfold checkInline. apply h_get_cur. apply h_keeps; [auto with chk|]. intros found.
  apply h_keeps; [kept|]. intros [row|back].
  - apply h_keeps; [auto with chk|]. intros base.
    destruct (base.1 =? "")%string; [apply h_ret; intros s; apply skipped_ok|].
    eapply h_conseq; [by apply inline_asked_ok|done|]. intros [o|] s; [done|]. cbn. intros [Hcur Hs].
    assert (clamp f0 = f0) as <-; [|done]. unfold clamp. destruct (adopts c) eqn:Ha.
    + destruct (Hadopted eq_refl) as [id Hid]. unfold clamp in Hcur. by destruct (clampTo g); cbn in Hcur; congruence.
    + unfold retryGateFor in Hg. rewrite <-Hg. by destruct (sf_fail_hash f0).
  - destruct back; apply h_ret; [done|]. intros s. apply skipped_ok.
Qed.

(** *** The detached form *)

Lemma detached_changed_ok res gpgURL cachedHash signed held f :
  adopts c = true → like f →
  hoare (open (change_row f))
    (detached_changed c k res gpgURL cachedHash g signed held (sf_last_success f) nowUnix) outcome_ok.
Proof.
  intros Ha Hf. unfold detached_changed. apply h_keeps; [auto with chk|]. intros gpg. apply h_get_cur.
  pose proof (change_row_answered f Hf) as Hch.
  destruct (bool_decide _ && is_absent gpg _ _).
  - apply h_keeps; [kept|]. intros _. apply h_upd_cur.
    eapply h_bind; [apply finish_ends; [apply E_absent|by apply like_changed]|intros rp; by apply h_ret].
    destruct Hf as (Hs & _). destruct Hch as [Hst _]. unfold stamps in *. cbn in *. congruence.
  - destruct gpg as [sig|e]; [|by apply answered_ok; [listed|]].
    destruct (negb _); [by apply answered_ok; [listed|]|].
    destruct (holds g _) eqn:Hh; [by apply answered_ok; [listed|]|].
    apply attempt_ends; try done; listed.
Qed.

Lemma detached_answer_ok res gpgURL cachedHash signed held f :
  like f → hoare (open f) (detached_answer c k res gpgURL cachedHash g signed held nowUnix) outcome_ok.
Proof.
  intros Hf. unfold detached_answer. apply h_get_cur, h_upd_cur, h_get_cur.
  destruct (steadyResult _ res _ _ g nowUnix) as [[[result cl] f1]|] eqn:Hst.
  { eapply steady_ok; [|done]. split; [done|apply Hf]. }
  apply h_upd_cur. destruct (adopts c) eqn:Ha; cbn [negb]; [by apply detached_changed_ok|by apply legacy_ok].
Qed.

Lemma detached_asked_ok now row gpgURL base f :
  retryGateFor (adopts c) f now = g → like f →
  hoare (open f) (detached_asked c k now nowUnix row gpgURL base) outcome_ok.
Proof.
  intros Hg Hf. unfold detached_asked. apply h_get_cur. cbv zeta. rewrite Hg. apply h_clamp, h_get_cur.
  pose proof (like_clamp f Hf) as Hc. revert Hc. generalize (clamp f) as f1. clear f Hg Hf. intros f Hf.
  destruct (request_validators c g f row) as [etag lastmod]. apply host_slot_ok; [done|done|].
  eapply h_bind with (R := lateral_post f).
  { destruct (adopts c) eqn:Ha; [|by apply h_ret]. destruct (bool_decide _); [|by apply h_ret].
    by apply lateralInline_ok. }
  intros [[req done_] held]. unfold lateral_post. cbn [fst snd]. destruct done_; [by apply h_ret|].
  apply h_keeps; [auto with chk|]. intros res.
  set (rest := r ← usable c k res _ nowUnix; _).
  assert (hoare (open f) rest outcome_ok) as Hrest.
  { apply usable_then; [done|done|]. intros r _. apply h_keeps; [auto with chk|].
    intros [|]; cbn [negb]; [by apply detached_answer_ok|by apply quit_outcome, fail_ok]. }
  destruct (st_adopter c) as [a|] eqn:Ha; [|exact Hrest]. destruct (bool_decide _ && is_absent _ _ _); [|exact Hrest].
  eapply h_bind; [apply anchorAbsent_ok; [by unfold adopts; rewrite Ha|done]|]. intros req'. by apply h_ret.
Qed.

Lemma checkDetached_ok now :
  retryGateFor (adopts c) f0 now = g → like f0 → hoare (open f0) (checkDetached c k now nowUnix) outcome_ok.
Proof.
  intros Hg Hf. unfold checkDetached. apply h_get_cur. apply h_keeps; [auto with chk|].
  intros [row|]; [|apply h_ret; intros s; apply skipped_ok]. apply h_keeps; [auto with chk|].
  intros [gpg|]; [|apply h_ret; intros s; apply skipped_ok]. apply h_keeps; [auto with chk|]. intros base.
  destruct (base.1 =? "")%string; [apply h_ret; intros s; apply skipped_ok|by apply detached_asked_ok].
Qed.

Lemma check_form_ok form now :
  retryGateFor (adopts c) f0 now = g → like f0 → hoare (open f0) (check_form c k form now nowUnix) outcome_ok.
Proof.
  intros Hg Hf. destruct form; cbn [check_form]; [|by apply checkDetached_ok|by apply checkUnsigned_ok].
  eapply h_bind; [by apply checkInline_ok|]. intros [o|]; [by apply h_ret|by apply checkDetached_ok].
Qed.
(** ** What a check hands on *)

(** A check that wrote nothing, or one that ended: an attempt has the admission
    slot, and so has a repair, of the snapshot the suite has. *)
Definition checked (o : checkOutcome) (s : CState) : Prop :=
  (oc_req o = None ∧ oc_repair o = None ∧ ∃ f, open f s) ∨
  ∃ result f l l', ending result (oc_req o) l f ∧ wrote l' result f s ∧
    match oc_repair o with
    | None => l' = l
    | Some r => oc_req o = None ∧ result ∈ ["not_modified"; "unchanged"] ∧ rr_suite r = k ∧
                sf_current f0 = Some (rr_snapshot r) ∧ is_Some (st_adopter c) ∧ st_repair c = true ∧
                ∃ l0, l' = Some l0 ∧ ls_host l0 = key_host k
    end.

Lemma requested_ok r s : req_ok r s → checked (requested r) s.
Proof.
  intros [[[= ->] Hf]|(result & f & l & He & Hw & _)]; [by left|]. right. by exists result, f, l, l.
Qed.
Lemma nothing_ok s : outcome_ok no_outcome s → checked nothing s.
Proof. apply requested_ok. Qed.

Lemma ending_lease result l f : ending result None l f → l = None.
Proof. by inversion 1. Qed.

Lemma planRepair_ok rp : hoare (outcome_ok (None, Some rp)) (planRepair c k rp) checked.
Proof.
  intros s [[Heq _]|(result & f & l & He & Hw & Hrp)]; [done|]. cbn [fst snd] in He, Hrp.
  pose proof (ending_lease _ _ _ He) as ->. destruct (Hrp rp eq_refl) as (_ & Hres & Hk & Hid).
  assert (∀ s, wrote None result f s → checked nothing s) as Hnothing.
  { intros s1 Hs1. right. by exists result, f, None, None. }
  revert s Hw. change (hoare (held (D1 f) None result f) (planRepair c k rp) checked).
  unfold planRepair. destruct (st_adopter c) as [a|] eqn:Ha; [|by apply h_ret].
  destruct (st_repair c) eqn:Hrep; cbn [negb]; [|by apply h_ret].
  apply h_keeps; [auto with chk|]. intros repair. apply h_keeps; [auto with chk|]. intros declared.
  destruct (_ && _); [by apply h_ret|]. eapply h_bind; [apply (h_take_slot (D1 f)); intros n w; apply others1|].
  intros [|]; apply h_ret; [|exact Hnothing]. intros s (l0 & Hl0 & Hh). right. cbn [oc_req oc_repair].
  exists result, f, None, (Some l0). split_and!; try done. by exists l0.
Qed.

Lemma plan_ok o : hoare (outcome_ok o) (plan c k o) checked.
Proof.
  destruct o as [[r|] [rp|]]; cbn [plan]; [| |apply planRepair_ok|].
  - apply h_ret. intros s Hs. by eapply requested_ok, ended_ok.
  - apply h_ret. apply requested_ok.
  - apply h_ret. apply nothing_ok.
Qed.

Lemma check_adopted_ok now :
  retryGateFor (adopts c) f0 now = g → like f0 → hoare (open f0) (check_adopted c k f0 now nowUnix) checked.
Proof.
  intros Hg Hf. unfold check_adopted. cbv zeta. rewrite Hg. apply h_keeps; [auto with chk|]. intros s.
  assert (∀ f, hoare (open f) (mret nothing) checked) as Hnone.
  { intros f. apply h_ret. intros s' Hs'. by eapply nothing_ok, skipped_ok. }
  destruct (_ && _); [apply h_clamp, Hnone|].
  apply h_keeps; [unfold detectForm; kept|]. intros [form|]; [|apply h_keeps; [auto with chk|]; intros _; apply Hnone].
  eapply h_bind; [by apply check_form_ok|]. intros o. apply plan_ok.
Qed.
End laws.

(** ** The check *)

Section locked.
Context `{Env} `{HTTPTime} `{Surroundings}.
Context (c : Settings) (k : SuiteKey).
Context (D0 : DB → Prop) (D1 : SuiteFreshness → DB → Prop) (U : Prop).
Hypothesis Hset : settled c k D0 D1 U.

(** The state a check starts in. *)
Definition starting (s : CState) : Prop :=
  cs_lease s = None ∧ rep_result (cs_report s) = "skipped" ∧ D0 (w_db (cs_world s)).

(** The ends of a check of the row it read: [checked], for that row, the gate of
    its record and the time of the check. *)
Definition accounted (o : checkOutcome) (s : CState) : Prop :=
  (oc_req o = None ∧ oc_repair o = None ∧ ∃ f, held D0 None "skipped" f s) ∨
  ∃ f0 d now, D0 d ∧ suite_t d !! k = Some f0 ∧
    checked c k D0 D1 U f0 (retryGateFor (adopts c) f0 now) (Unix now) o s.

Lemma accounted_quiet o f s :
  oc_req o = None → oc_repair o = None → held D0 None "skipped" f s → accounted o s.
Proof. left. eauto. Qed.

(** A read answers what some database of the kind had. *)
Lemma h_read {A} (q : DB → A) l res f :
  hoare (held D0 l res f) (read q) (λ r s, held D0 l res f s ∧ ∀ a, r = Some a → ∃ d, D0 d ∧ q d = a).
Proof.
  intros s Hs. split; [apply (keeps_read D0 (others0 c k D0 D1 U Hset) q), Hs|]. intros a.
  unfold read, mbind, chk_bind, mret, chk_ret. cbn. destruct (read_fails _); [done|]. intros [= <-].
  eexists. split; [|done]. cbn. by apply (others0 c k D0 D1 U Hset), Hs.
Qed.

Lemma checkLocked_held bypass f : hoare (held D0 None "skipped" f) (checkLocked c k bypass) accounted.
Proof.
  pose proof (others0 c k D0 D1 U Hset) as Ho.
  assert (∀ o f, oc_req o = None → oc_repair o = None →
            hoare (held D0 None "skipped" f) (mret o) accounted) as Hquiet.
  { intros o f' Hreq Hrep. apply h_ret. intros s. by apply accounted_quiet. }
  unfold checkLocked. apply h_keeps; [by apply keeps_tick|]. intros n. cbv zeta.
  eapply h_bind; [apply h_read|]. intros r. apply h_learn. intros Hr.
  destruct r as [[cur|]|]; [|by apply Hquiet..]. destruct (Hr _ eq_refl) as (d & Hd & Hcur).
  apply h_upd_cur. destruct (cooling _ _ _ _); [by apply Hquiet|].
  assert (∀ (m : chk checkOutcome) , hoare (held D0 None "skipped" cur) m
            (checked c k D0 D1 U cur (retryGateFor (adopts c) cur (nanos n)) (Unix (nanos n))) →
            hoare (held D0 None "skipped" cur) m accounted) as Hchk.
  { intros m Hm. eapply h_conseq; [apply Hm|done|]. intros o s Hs. right. by exists cur, d, (nanos n). }
  assert ((adopts c = true → is_Some (sf_current cur)) →
          hoare (held D0 None "skipped" cur) (check_adopted c k cur (nanos n) (Unix (nanos n))) accounted) as Hadopted.
  { intros Ha. apply Hchk. by apply check_adopted_ok. }
  destruct (st_adopter c) as [a|] eqn:Ha; [|apply Hadopted; unfold adopts; by rewrite Ha].
  destruct (sf_current cur) as [id|] eqn:Hid; [by apply Hadopted|]. apply Hchk.
  eapply h_bind; [apply checkFirst_ok; [done|by unfold adopts; rewrite Ha|done|done]|].
  intros r. apply h_ret. apply requested_ok.
Qed.

Lemma checkLocked_ok bypass : hoare starting (checkLocked c k bypass) accounted.
Proof. intros s (Hl & Hr & Hd). by apply (checkLocked_held bypass (cs_cur s)). Qed.
End locked.
