(* ===== verification/CheckSafety.v ===== *)
(** * What a check may change, and what it may take

    The statements of a check leave alone the columns of the suite's row that say
    when it was checked and what it serves, keep every marker of a signature and
    every adopted snapshot ([calm]); so what holds of these is known through a
    whole check ([CheckLaws.settled]). *)
From S2P Require Import Prelude GoStrings AptPath Maps Tables Invariant Snapshots Suites GC Rows Declared Fetch MemberFetch Adoption AdoptionSafety Scheduler RetryGate Check CheckLaws.
Local Open Scope Z_scope.

(** ** Statements that are calm *)

Definition row_core (f : SuiteFreshness) : (option Z * option Z * Z) * option Z := (stamps f, sf_current f).

Record calm (k : SuiteKey) (d d' : DB) : Prop := {
  cm_row : row_core <$> suite_t d' !! k = row_core <$> suite_t d !! k;
  cm_seen m : is_Some (seen_t d !! m) → is_Some (seen_t d' !! m);
  cm_snap i : snap_view <$> snap_t d' !! i = snap_view <$> snap_t d !! i }.

Notation calming k m := (∀ d0, triple (calm k d0) (m : T _) (λ _, calm k d0)).

Section calm.
Context (k : SuiteKey).

Lemma calm_refl d : calm k d d.
Proof. by split. Qed.

Lemma calm_trans d1 d2 d3 : calm k d1 d2 → calm k d2 d3 → calm k d1 d3.
Proof.
  intros [R1 S1 V1] [R2 S2 V2]. split; [by rewrite R2, R1|auto|]. intros i. by rewrite V2, V1.
Qed.

Lemma calm_modify (f : DB → DB) : (∀ d, calm k d (f d)) → calming k (mmodify f).
Proof. intros Hf d0 d u d' Hd [= <- <-]. by eapply calm_trans. Qed.

Lemma calm_url f : calming k (mmodify (upd_url f)).
Proof. by apply calm_modify. Qed.
Lemma calm_blob f : calming k (mmodify (upd_blob f)).
Proof. by apply calm_modify. Qed.
Lemma calm_rep f : calming k (mmodify (upd_rep f)).
Proof. by apply calm_modify. Qed.
Lemma calm_clock f : calming k (mmodify (upd_clock f)).
Proof. by apply calm_modify. Qed.

Lemma calm_suite P f : (∀ x, row_core (f x) = row_core x) → ∀ d, calm k d (upd_suite (update_where P f) d).
Proof.
  intros Hf d. split; [|done|done]. cbn. rewrite lookup_update_where. destruct (suite_t d !! k) as [x|]; [|done].
  cbn. by destruct (P k x); [rewrite Hf|].
Qed.

Lemma calm_snap P f : (∀ x, snap_view (f x) = snap_view x) → ∀ d, calm k d (upd_snap (update_where P f) d).
Proof.
  intros Hf d. split; [done|done|]. intros i. cbn. rewrite lookup_update_where.
  destruct (snap_t d !! i) as [x|]; [|done]. cbn. by destruct (P i x); [rewrite Hf|].
Qed.

Lemma calm_mark m t : calming k (markSignedSeen m t).
Proof.
  apply calm_modify. intros d. split; [done| |done]. intros m'. cbn. rewrite lookup_insert_is_Some'. auto.
Qed.
End calm.
#[export] Hint Resolve calm_url calm_blob calm_rep calm_clock calm_mark : wf.

Section statements.
Context `{HTTPTime} (k : SuiteKey).

Lemma calm_PutBlob h size now : calming k (PutBlob h size now).
Proof. intros d0. unfold PutBlob. mkeep. Qed.
Lemma calm_putRepresentation key h date now : calming k (putRepresentation key h date now).
Proof. intros d0. unfold putRepresentation. mkeep. Qed.
#[local] Hint Resolve calm_putRepresentation : wf.
Lemma calm_PutRepresentation key h l now : calming k (PutRepresentation key h l now).
Proof. intros d0. unfold PutRepresentation. mkeep. Qed.
Lemma calm_HeartbeatSnapshot id now : calming k (HeartbeatSnapshot id now).
Proof. by apply calm_modify, calm_snap. Qed.
Lemma calm_HeartbeatBlobs l now : calming k (HeartbeatBlobs l now).
Proof. intros d0. unfold HeartbeatBlobs. mkeep. Qed.
Lemma calm_marks marks : calming k (mark_chunk marks).
Proof. intros d0. unfold mark_chunk. mkeep. Qed.
Lemma calm_retry k' t : calming k (SetAdoptionNextRetry k' t).
Proof. by apply calm_modify, calm_suite. Qed.
Lemma calm_clear k' : calming k (ClearAdoptionFailure k').
Proof. by apply calm_modify, calm_suite. Qed.
Lemma calm_record k' a : calming k (RecordAdoptionFailure k' a).
Proof.
  intros d0. unfold RecordAdoptionFailure. mkeep. by apply calm_modify, calm_suite.
Qed.
Lemma calm_PutURLPath key u : calming k (PutURLPath key u).
Proof. intros d0. unfold PutURLPath, url_upsert. mkeep. Qed.
Lemma calm_refresh key old new e l now : calming k (RefreshURLPathBlob key old new e l now).
Proof. intros d0. unfold RefreshURLPathBlob. mkeep. Qed.
Lemma calm_deleteURLPathRowTx key b now : calming k (deleteURLPathRowTx key b now).
Proof. intros d0. unfold deleteURLPathRowTx. mkeep. Qed.
#[local] Hint Resolve calm_deleteURLPathRowTx : wf.
Lemma calm_deleteCachedRowTx key now : calming k (deleteCachedRowTx key now).
Proof. intros d0. unfold deleteCachedRowTx. mkeep. Qed.
#[local] Hint Resolve calm_deleteCachedRowTx : wf.
Lemma calm_delete rows now : calming k (DeleteURLPathRows rows now).
Proof. intros d0. unfold DeleteURLPathRows, delete_read_row. mkeep. Qed.
Lemma calm_invalidate_loop fuel k' after now : calming k (invalidate_loop fuel k' after now).
Proof.
  revert after. induction fuel as [|fuel IH]; intros after d0; cbn [invalidate_loop]; mkeep.
Qed.
Lemma calm_bump k' : calming k (bump_generation k').
Proof.
  intros d0. unfold bump_generation. mkeep. apply calm_modify. intros d. by apply calm_suite.
Qed.
#[local] Hint Resolve calm_invalidate_loop calm_bump : wf.
Lemma calm_invalidate k' p h now : calming k (InvalidateLegacyMetadata k' p h now).
Proof. intros d0. unfold InvalidateLegacyMetadata. mkeep. Qed.

(** ** What is known through a check *)

(** A property of the database that calm statements keep. *)
Definition settles (P : DB → Prop) : Prop := ∀ d d', calm k d d' → P d → P d'.

Lemma settles_triple {A} (P : DB → Prop) (m : T A) : settles P → calming k m → triple P m (λ _, P).
Proof. intros HP Hm d a d' Hd Hrun. eapply HP; [|exact Hd]. eapply Hm; [apply calm_refl|exact Hrun]. Qed.

Lemma settles_ambient `{Env} P : settles P → ambient P (λ _, True).
Proof.
  intros HP. split; try done; intros; apply settles_triple; try done.
  - apply calm_PutBlob.
  - apply calm_PutRepresentation.
  - apply calm_HeartbeatSnapshot.
  - apply calm_HeartbeatBlobs.
  - apply calm_marks.
Qed.

Lemma settles_settled `{Env} `{Surroundings} c P P1 (U : Prop) :
  settles P → (∀ f, settles (P1 f)) →
  (∀ n w, P (w_db w) → P (w_db (meanwhile n w))) → (∀ f n w, P1 f (w_db w) → P1 f (w_db (meanwhile n w))) →
  (∀ f, triple P (update_row k f) (λ _, P1 f)) →
  (∀ f d n, disk_fault n = true → P d → P1 f d) →
  (∀ d s, P d → refuseUnsignedDowngrade (key_host k) (key_path k) d = Ok s → U) →
  settled c k P P1 U.
Proof.
  intros HP HP1 Ho Ho1 Hu Hw HU. split; try done; intros; try apply settles_triple; try done.
  - by apply settles_ambient.
  - apply calm_retry.
  - apply calm_record.
  - apply calm_PutURLPath.
  - apply calm_refresh.
  - apply calm_delete.
  - apply calm_invalidate.
  - apply calm_clear.
Qed.
End statements.

(** ** The whole check *)

Section check.
Context `{Env} `{HTTPTime} `{Surroundings}.
Context (c : Settings) (k : SuiteKey).
Context (D0 : DB → Prop) (D1 : SuiteFreshness → DB → Prop) (U : Prop).
Hypothesis Hset : settled c k D0 D1 U.

(** [accounted], or the suite was busy. *)
Definition ended (o : checkOutcome) (s : CState) : Prop :=
  accounted c k D0 D1 U o s ∨ o = nothing ∧ ∃ f, held D0 None resultBusy f s.

Lemma busy_ok f : hoare (held D0 None "skipped" f) (_ ← report busy; mret nothing) ended.
Proof. intros s (Hc & Hl & Hr & Hd). right. split; [done|]. by exists f. Qed.

Lemma accounted_lease o s :
  accounted c k D0 D1 U o s → is_set (oc_req o) || is_set (oc_repair o) = false → cs_lease s = None.
Proof.
  intros [(_ & _ & f & _ & Hl & _)|(f0 & d & now & _ & _ & [(_ & _ & f & _ & Hl & _)|(result & f & l & l' & He & Hw & Hl)])] Hn;
    [done|done|].
  destruct (oc_req o); [done|]. destruct (oc_repair o); [done|]. subst l'. destruct Hw as (_ & -> & _).
  by eapply ending_lease.
Qed.

Lemma check_ok bypass : hoare (starting D0) (check c k bypass) ended.
Proof.
  intros s (Hl & Hr & Hd). pose proof (others0 c k D0 D1 U Hset) as Ho.
  assert (held D0 None "skipped" (cs_cur s) s) as Hs by by split_and!. clear Hl Hr Hd.
  revert s Hs. enough (∀ f, hoare (held D0 None "skipped" f) (check c k bypass) ended) as Hall.
  { intros s. apply Hall. }
  intros f. assert (hoare (held D0 None "skipped" f) (mret nothing) ended) as Hnothing.
  { apply h_ret. intros s Hs. left. left. eauto. }
  unfold check. apply h_keeps; [by apply keeps_tick|]. intros n. destruct (peek n); [apply busy_ok|].
  apply h_keeps; [by unfold suiteRowExists; kept|]. intros [|]; cbn [negb]; [|exact Hnothing].
  apply h_keeps; [by apply keeps_tick|]. intros n'. destruct (lock_suite n'); [|apply busy_ok|exact Hnothing].
  eapply h_bind; [eapply h_conseq; [by apply checkLocked_ok|intros s (_ & Hs); exact Hs|done]|]. intros o.
  intros s Hs. unfold mbind, chk_bind.
  destruct (is_set (oc_req o) || is_set (oc_repair o)) eqn:Hn; [by left|].
  unfold drop_lease. rewrite (accounted_lease o s Hs Hn). by left.
Qed.
End check.

(** ** Properties *)

Section properties.
Context `{Env} `{HTTPTime} `{Surroundings}.
Context (c : Settings) (k : SuiteKey).

(** The columns of the suite's row that a check stamps, and its snapshot. *)
Definition row_at (w : World) : option ((option Z * option Z * Z) * option Z) := row_core <$> suite_t (w_db w) !! k.

Section accounts.
(** Nobody else writes these columns while the check has the suite's mutex. *)
Hypothesis Hothers : ∀ n w, row_at (meanwhile n w) = row_at w.

Definition has_row (X : option ((option Z * option Z * Z) * option Z)) (d : DB) : Prop :=
  row_core <$> suite_t d !! k = X.
Definition stamped (X : option ((option Z * option Z * Z) * option Z)) (f : SuiteFreshness) : DB → Prop :=
  has_row ((λ x, (stamps f, x.2)) <$> X).

Lemma has_row_settles X : settles k (has_row X).
Proof. intros d d' [Hr _ _]. unfold has_row. by rewrite Hr. Qed.

(** The row after a check that ends with [f]: stamped so, unless the disk refused
    the write, which leaves it as it was. *)
Definition stamped_or_refused (X : option ((option Z * option Z * Z) * option Z)) (f : SuiteFreshness) (d : DB) : Prop :=
  stamped X f d ∨ (∃ n, disk_fault n = true) ∧ has_row X d.

Lemma stamped_settles X f : settles k (stamped_or_refused X f).
Proof.
  intros d d' Hc [Hs|[Hn Hr]]; [left|right].
  - by eapply has_row_settles.
  - split; [done|]. by eapply has_row_settles.
Qed.

Lemma others_has_row X n w : has_row X (w_db w) → has_row X (w_db (meanwhile n w)).
Proof. unfold has_row. specialize (Hothers n w). unfold row_at in Hothers. by rewrite Hothers. Qed.

Lemma accounts_settled X : settled c k (has_row X) (stamped_or_refused X) True.
Proof.
  apply settles_settled; try done.
  - apply has_row_settles.
  - intros f. apply stamped_settles.
  - intros n w. apply others_has_row.
  - intros f n w [Hs|[Hn Hr]]; [left|right; split; [done|]]; by apply others_has_row.
  - intros f d u d' Hd [= <- <-]. left. unfold stamped, has_row in *. cbn. rewrite lookup_update_where.
    rewrite bool_decide_eq_true_2 by done. rewrite <-Hd. by destruct (suite_t d !! k).
  - intros f d n Hn Hd. right. split; [by eexists|done].
Qed.

(** C4. A check accounts for itself.  However the upstream answers, whatever
    fails, and whatever the other goroutines do besides this suite's stamps: a
    check reports "skipped" or "busy", and then leaves the row as it was and holds
    no slot; or it ends in one of the ways of [ending]: a failure counts, an answer
    clears the count and stamps a success, a request that found no slot, and an
    absent anchor, stamp no success.  The row of the database is then stamped that
    way and its snapshot kept, except where the disk refused the check's writes: a
    refused write leaves the row as it was.  Every attempt the check hands on has an
    admission slot of the suite's host, is of content the record does not hold
    back, and comes with no repair; a repair comes with a slot too, after an
    unchanged anchor, for the snapshot the suite has; and nothing else keeps a
    slot, the writes refused or not. *)
Theorem check_accounts s bypass o s' :
  cs_lease s = None → rep_result (cs_report s) = "skipped" → check c k bypass s = (o, s') →
  (oc_req o = None ∧ oc_repair o = None ∧ cs_lease s' = None ∧ row_at (cs_world s') = row_at (cs_world s) ∧
   rep_result (cs_report s') ∈ ["skipped"; resultBusy]) ∨
  ∃ f0 now result f l,
    row_at (cs_world s) = Some (row_core f0) ∧
    ending c k True f0 (retryGateFor (adopts c) f0 now) (Unix now) result (oc_req o) l f ∧
    rep_result (cs_report s') = result ∧
    (row_at (cs_world s') = Some (stamps f, sf_current f0) ∨
     (∃ n, disk_fault n = true) ∧ row_at (cs_world s') = row_at (cs_world s)) ∧
    match oc_repair o with
    | None => cs_lease s' = l
    | Some r => oc_req o = None ∧ result ∈ ["not_modified"; "unchanged"] ∧ rr_suite r = k ∧
                sf_current f0 = Some (rr_snapshot r) ∧ ∃ l', cs_lease s' = Some l' ∧ ls_host l' = key_host k
    end.
Proof.
  intros Hl Hr Hrun. set (X := row_at (cs_world s)).
  pose proof (check_ok c k _ _ True (accounts_settled X) bypass s) as Hend. rewrite Hrun in Hend.
  specialize (Hend (conj Hl (conj Hr eq_refl))). cbn [fst snd] in Hend.
  assert (∀ f res s, held (has_row X) None res f s → rep_result (cs_report s) = res ∧ cs_lease s = None ∧
            row_at (cs_world s) = X) as Hheld by (intros f res s1 (_ & ? & ? & ?); done).
  destruct Hend as [[(Hq & Hp & f & Hh)|(f0 & d & now & Hd & Hf & Hc)]|[-> [f Hh]]].
  - left. destruct (Hheld _ _ _ Hh) as (-> & -> & ->). by split_and!; [..|constructor].
  - assert (X = Some (row_core f0)) as HX by (unfold has_row in Hd; by rewrite Hf in Hd).
    destruct Hc as [(Hq & Hp & f & Hh)|(result & f & l & l' & He & (_ & Hlease & Hres & Hrow) & Hrep)].
    + left. destruct (Hheld _ _ _ Hh) as (-> & -> & ->). by split_and!; [..|constructor].
    + right. exists f0, now, result, f, l.
      split_and!; try done.
      { destruct Hrow as [Hrow|[Hn Hrow]]; [left|by right]. unfold stamped, has_row in Hrow. by rewrite HX in Hrow. }
      destruct (oc_repair o) as [r|]; [|by rewrite Hlease].
      destruct Hrep as (? & ? & ? & ? & _ & _ & l0 & -> & Hhost). split_and!; try done. by exists l0.
  - left. destruct (Hheld _ _ _ Hh) as (-> & -> & ->). split_and!; try done. by constructor 2; constructor.
Qed.
End accounts.

Section signed.
(** The signed history of the suite: a marker, or an adopted signed snapshot. *)
Definition signed_db (d : DB) : Prop :=
  has_marker d (key_host k) (MarkerBase (key_path k)) = true ∨
  has_signed_snapshot d (key_host k) (MarkerBase (key_path k)) = true.

Hypothesis Hothers : ∀ n w, signed_db (w_db w) → signed_db (w_db (meanwhile n w)).

Lemma signed_settles : settles k signed_db.
Proof.
  intros d d' [_ Hs Hv] [Hm|Hm]; [left|right].
  - unfold has_marker in *. apply exists_where_true in Hm as (m & t & Hm & Hp). apply exists_where_true.
    destruct (Hs m) as [t' Ht']; [by eexists|]. by exists m, t'.
  - unfold has_signed_snapshot in *. apply exists_where_true in Hm as (i & x & Hi & Hp). apply exists_where_true.
    specialize (Hv i). rewrite Hi in Hv. destruct (snap_t d' !! i) as [x'|] eqn:Hx; [|done]. exists i, x'. split; [done|].
    cbn in Hv. unfold snap_view in Hv. injection Hv as E1 E2 E3 E4 E5 E6 E7. unfold signed_history in *.
    by rewrite E1, E5, E6, E7.
Qed.

Lemma signed_refused d s : signed_db d → refuseUnsignedDowngrade (key_host k) (key_path k) d = Ok s → False.
Proof.
  intros Hd. unfold refuseUnsignedDowngrade, mget, mbind, M_bind. cbn. destruct Hd as [Hd|Hd]; rewrite Hd; [done|].
  by destruct (has_marker _ _ _).
Qed.

Lemma signed_settled : settled c k signed_db (λ _, signed_db) False.
Proof.
  apply settles_settled; try done.
  - apply signed_settles.
  - intros _. apply signed_settles.
  - by intros f d u d' Hd [= <- <-].
  - intros d s. apply signed_refused.
Qed.

(** A cached path that is none of the suite's anchors, and what it holds. *)
Section path.
Context (key : URLKey) (Hkey : ∀ name, name ∈ anchor_names → key ≠ anchor_key k name).
Hypothesis Hkeep : ∀ n w, url_t (w_db (meanwhile n w)) !! key = url_t (w_db w) !! key.
Context (X : option URLPath).

Definition path_kept (d : DB) : Prop := url_t d !! key = X.
Definition signed_kept (d : DB) : Prop := signed_db d ∧ path_kept d.

(** A statement that is calm, and leaves the cached paths alone. *)
Lemma kept_triple {A} (m : T A) :
  calming k m → (∀ d a d', m d = Ok (a, d') → url_t d' = url_t d) → triple signed_kept m (λ _, signed_kept).
Proof.
  intros Hc Hu d a d' [Hs Hp] Hrun. split.
  - eapply signed_settles; [|exact Hs]. eapply Hc; [apply calm_refl|exact Hrun].
  - unfold path_kept. by rewrite (Hu _ _ _ Hrun).
Qed.

Lemma kept_ambient : ambient signed_kept (λ _, True).
Proof.
  split; try done; intros; apply kept_triple.
  - apply calm_PutBlob.
  - intros d u d' Hrun. unfold PutBlob in Hrun. by minv.
  - apply calm_PutRepresentation.
  - intros d u d' Hrun. unfold PutRepresentation, putRepresentation in Hrun. by minv.
  - apply calm_HeartbeatSnapshot.
  - intros d u d' Hrun. unfold HeartbeatSnapshot in Hrun. by minv.
  - apply calm_HeartbeatBlobs.
  - intros d u d' Hrun. unfold HeartbeatBlobs in Hrun.
    destruct (length l =? 0)%nat; [by minv|]. destruct (length _ =? 0)%nat; by minv.
  - apply calm_marks.
  - intros d u d' Hrun.
    eapply (triple_for_inv (λ x, url_t x = url_t d)); [|done|exact Hrun].
    intros m d1 u1 d2 Hd Hm. unfold markSignedSeen in Hm. minv. exact Hd.
Qed.

Lemma kept_put name u : name ∈ anchor_names →
  triple signed_kept (PutURLPath (anchor_key k name) u) (λ _, signed_kept).
Proof.
  intros Hn d a d' [Hs Hp] Hrun. split.
  - eapply signed_settles; [|exact Hs]. eapply calm_PutURLPath; [apply calm_refl|exact Hrun].
  - unfold PutURLPath, url_upsert in Hrun. minv. unfold path_kept. cbn.
    rewrite lookup_insert_ne; [exact Hp|]. apply not_eq_sym. by apply Hkey.
Qed.

Lemma path_settled : adopts c = true → settled c k signed_kept (λ _, signed_kept) False.
Proof.
  intros Ha.
  assert (∀ n w, signed_kept (w_db w) → signed_kept (w_db (meanwhile n w))) as Ho.
  { intros n w [Hs Hp]. split; [by apply Hothers|]. unfold path_kept. by rewrite Hkeep. }
  split; try done.
  - apply kept_ambient.
  - intros t. apply kept_triple; [apply calm_retry|]. intros d u d' Hrun. unfold SetAdoptionNextRetry in Hrun. by minv.
  - intros a. apply kept_triple; [apply calm_record|]. intros d u d' Hrun. unfold RecordAdoptionFailure in Hrun. by minv.
  - by intros name u; apply kept_put.
  - intros ? ? ? ? ? ? [[]|]. congruence.
  - congruence.
  - by intros f d u d' Hd [= <- <-].
  - intros f. apply kept_triple; [apply calm_clear|]. intros d u d' Hrun. unfold ClearAdoptionFailure in Hrun. by minv.
  - intros d s [Hd _]. by apply signed_refused.
Qed.
End path.

Lemma ending_signed f0 g now result req l f :
  adopts c = true → ending c k False f0 g now result req l f →
  (∀ r, req = Some r → ar_form r ≠ FUnsigned) ∧ result ∉ ["anchorless_unchanged"; "anchorless_refreshed"].
Proof.
  intros Ha He. destruct He as [|result r l f Hin _ _ _ Hu|result f Hin|f|result f Hin Hu|]; try by split; [done|set_solver].
  - split; [intros r' [= <-]; auto|set_solver].
  - congruence.
Qed.

(** C1. No check takes a suite back to unsigned metadata.  Where the database has
    seen a signature of the suite, and the others do not make it forget, a check
    with an adopter hands on no unsigned adoption, reports no refresh of bare index
    files, and makes none: every cached path but the suite's own anchors, and so
    every bare index, keeps its row, content and validators, wherever the others
    leave that row alone; whatever the upstream answers, and whatever fails. *)
Theorem signed_never_unsigned s bypass o s' :
  is_Some (st_adopter c) → cs_lease s = None → rep_result (cs_report s) = "skipped" → signed_db (w_db (cs_world s)) →
  check c k bypass s = (o, s') →
  (∀ r, oc_req o = Some r → ar_form r ≠ FUnsigned) ∧
  rep_result (cs_report s') ∉ ["anchorless_unchanged"; "anchorless_refreshed"] ∧
  ∀ key, (∀ name, name ∈ anchor_names → key ≠ anchor_key k name) →
    (∀ n w, url_t (w_db (meanwhile n w)) !! key = url_t (w_db w) !! key) →
    url_t (w_db (cs_world s')) !! key = url_t (w_db (cs_world s)) !! key.
Proof.
  intros Ha Hl Hr Hd Hrun. assert (adopts c = true) as Hadopts by by apply bool_decide_eq_true_2.
  assert (∀ D, ended c k D (λ _, D) False o s' → D (w_db (cs_world s')) ∧
            (∀ r, oc_req o = Some r → ar_form r ≠ FUnsigned) ∧
            rep_result (cs_report s') ∉ ["anchorless_unchanged"; "anchorless_refreshed"]) as Hend.
  { intros D [[(Hq & _ & f & _ & _ & Hres & HD)|(f0 & d & now & _ & _ & Hc)]|[-> [f (_ & _ & Hres & HD)]]].
    - rewrite Hq, Hres. split_and!; [done|done|set_solver].
    - destruct Hc as [(Hq & _ & f & _ & _ & Hres & HD)|(result & f & l & l' & He & (_ & _ & Hres & HD) & _)].
      + rewrite Hq, Hres. split_and!; [done|done|set_solver].
      + rewrite Hres. split; [done|]. by eapply ending_signed.
    - rewrite Hres. split_and!; [done|done|set_solver]. }
  pose proof (check_ok c k _ _ False signed_settled bypass s) as Hsigned. rewrite Hrun in Hsigned.
  destruct (Hend _ (Hsigned (conj Hl (conj Hr Hd)))) as (_ & Hreq & Hrep). split_and!; [done..|].
  intros key Hkey Hkeep.
  pose proof (check_ok c k _ _ False (path_settled key Hkey Hkeep (url_t (w_db (cs_world s)) !! key) Hadopts) bypass s) as Hpath.
  rewrite Hrun in Hpath. by destruct (Hend _ (Hpath (conj Hl (conj Hr (conj Hd eq_refl))))) as ([_ Hp] & _).
Qed.
End signed.
End properties.
