(* ===== verification/CheckRuns.v ===== *)
(** * Two checks

    An adopted suite whose InRelease changed, and a suite that was signed once and
    whose upstream now serves a Release without a signature.  The theorems of
    [CheckSafety] are applied to them. *)
From S2P Require Import Prelude GoStrings AptPath ReleaseParse PackageIndex Tables Invariant Snapshots Suites GC Rows Declared Fetch MemberFetch Adoption Scheduler RetryGate Check CheckLaws CheckSafety.
Local Open Scope Z_scope.

#[local] Existing Instance quiet_env.
#[local] Existing Instance dateless.

Definition page (status : Z) (body : string) : reply :=
  Answered {| StatusLine := status; ContentType := ""; ContentLength := len body; ETag := ""; LastModified := "";
              ContentRange := ""; Body := body; BodyError := None |}.

Definition inline_text : string := clearsignBegin +:+ newline +:+ "text" +:+ newline.
Definition release_text : string := "Suite: stable" +:+ newline +:+ "SHA256:" +:+ newline.

(** A signed archive, and one that lost its signatures. *)
Definition signed_archive (n : nat) (url : string) (etag lastmod : option string) : reply := page 200 inline_text.
Definition unsigned_archive (n : nat) (url : string) (etag lastmod : option string) : reply :=
  if has_suffix "/Release" url then page 200 release_text else page 404 "".

Definition calm_surroundings (archive : nat → string → option string → option string → reply) : Surroundings :=
  {| meanwhile := λ _ w, w; slots := λ _ a, a; read_fails := λ _, false; nanos := λ n, (1000 + Z.of_nat n) * Second;
     shutdown := λ _, false; lifetime_over := λ _, false; host_slot := λ _, None; body_slot := λ _, None;
     upstream_net := archive; parse_url := demo_parse; draw := λ _, 0; clearsign_decode := λ _, None;
     peek := λ _, false; lock_suite := λ _, lockOK; GPGReason := "" |}.

Definition signed_adopter : Adopter :=
  {| adoptUnsigned := true; hotPackagesWindow := 0; maxVersionsPerPackage := 3;
     architectureAllowlist := None; tolerateOptionalMembers := false; memberRetryCount := 1;
     requiredArchitectures := ∅; flipGateEnabled := true |}.

Definition checker_settings : Settings :=
  {| st_adopter := Some signed_adopter; st_repair := true; st_cooldown := 300 * Second; st_refresh := 3600 * Second;
     st_maxBody := 100000; st_client := demo_client |}.

Definition suite_row (current requested : option Z) : SuiteFreshness :=
  {| sf_last_check := None; sf_last_success := None; sf_etag := None; sf_lastmod := None; sf_change_seen := None;
     sf_current := current; sf_last_requested := requested; sf_check_fail := 2; sf_fail_hash := None;
     sf_fail_reason := None; sf_fail_count := 0; sf_fail_first := None; sf_fail_last := None;
     sf_next_retry := None; sf_fail_etag := None; sf_fail_lastmod := None; sf_rowid := 1; sf_generation := 1 |}.

Definition inline_snapshot : SuiteSnapshot :=
  {| ss_suite := demo_key; ss_inrelease := Some demo_sha256; ss_etag := None; ss_lastmod := None; ss_release := None;
     ss_release_gpg := None; ss_created := 0; ss_adopted := Some 1; ss_coverage := true; ss_heartbeat := None;
     ss_form := FormInline; ss_date := None; ss_retired := None |}.

Definition inrelease_row : URLPath :=
  {| up_blob := Some demo_sha256; up_upstream := "https://deb.example.org/debian/dists/stable/InRelease";
     up_is_metadata := true; up_last_requested := Some 900; up_request_count := 3; up_last_fetched := Some 900;
     up_etag := None; up_lastmod := None; up_dropped := None |}.

Definition archive_db (row : SuiteFreshness) : DB :=
  upd_suite (λ _, {[ demo_key := row ]})
  (upd_url (λ _, {[ ("https", "deb.example.org", "/debian/dists/stable/InRelease") := inrelease_row ]})
  (upd_blob (λ _, {[ demo_sha256 := {| b_size := 5; b_created_at := 0; b_refcount := 1; b_zeroed_at := None |} ]})
   empty_db)).

Definition adopted_db : DB := upd_snap (λ _, {[ 1 := inline_snapshot ]}) (archive_db (suite_row (Some 1) None)).
Definition marked_db : DB := upd_seen (λ _, {[ demo_key := 500 ]}) (archive_db (suite_row None (Some 900))).

Definition checking (d : DB) : CState :=
  {| cs_world := {| w_db := d; w_pool := ∅; w_tick := 0 |}; cs_cur := suite_row None None;
     cs_report := skipped; cs_lease := None; cs_admission := newAdmission 2; cs_absent := ∅; cs_holds := ∅;
     cs_reconciled := ∅; cs_asked := [] |}.

Definition changed_run : checkOutcome * CState :=
  @check _ _ (calm_surroundings signed_archive) checker_settings demo_key false (checking adopted_db).
Definition refused_run : checkOutcome * CState :=
  @check _ _ (calm_surroundings unsigned_archive) checker_settings demo_key false (checking marked_db).

Example changed_report :
  rep_result (cs_report changed_run.2) = "changed" ∧
  cs_asked changed_run.2 = [("https://deb.example.org/debian/dists/stable/InRelease", "", "")] ∧
  is_Some (cs_lease changed_run.2).
Proof. vm_compute. split_and!; [done|done|by eexists]. Qed.

Example refused_report :
  rep_result (cs_report refused_run.2) = "changed_deferred" ∧ cs_lease refused_run.2 = None ∧
  sf_fail_reason <$> suite_t (w_db (cs_world refused_run.2)) !! demo_key = Some (Some ReasonUnsignedDowngradeRefused).
Proof. vm_compute. by split_and!. Qed.

Lemma run_pair {A B} (p : A * B) : p = (p.1, p.2).
Proof. by destruct p. Qed.

Lemma check_accounts_witness :
  is_set (oc_req changed_run.1) = true ∧
  ∃ f0, row_at demo_key (cs_world (checking adopted_db)) = Some (row_core f0) ∧
        ∃ x, row_at demo_key (cs_world changed_run.2) = Some (x, sf_current f0).
Proof.
  split; [vm_compute; reflexivity|].
  assert (is_set (oc_req changed_run.1) = true) as Hreq by (vm_compute; reflexivity).
  destruct (@check_accounts quiet_env dateless (calm_surroundings signed_archive) checker_settings demo_key (λ n w, eq_refl)
    (checking adopted_db) false changed_run.1 changed_run.2 eq_refl eq_refl (run_pair changed_run))
    as [(Hno & _)|(f0 & now & result & f & l & Hrow & He & _ & [Hend|[[n Hn] _]] & _)].
  - exfalso. rewrite Hno in Hreq. discriminate Hreq.
  - exists f0. split; [exact Hrow|]. exists (stamps f). exact Hend.
  - exfalso. discriminate Hn.
Defined.

(** An index of the archive that a client fetched. *)
Definition packages_key : URLKey := ("https", "deb.example.org", "/debian/dists/stable/Packages").

Lemma packages_no_anchor name : name ∈ anchor_names → packages_key ≠ anchor_key demo_key name.
Proof. intros Hn. unfold anchor_names in Hn. set_unfold in Hn. destruct Hn as [->|[->|[->|[]]]]; vm_compute; intros Heq; discriminate Heq. Qed.

Lemma signed_never_unsigned_witness :
  signed_db demo_key marked_db ∧ oc_req refused_run.1 = None ∧
  rep_result (cs_report refused_run.2) ∉ ["anchorless_unchanged"; "anchorless_refreshed"] ∧
  url_t (w_db (cs_world refused_run.2)) !! packages_key = url_t marked_db !! packages_key.
Proof.
  assert (signed_db demo_key marked_db) as Hsigned by (left; vm_compute; reflexivity).
  split; [exact Hsigned|]. split; [vm_compute; reflexivity|].
  destruct (@signed_never_unsigned quiet_env dateless (calm_surroundings unsigned_archive) checker_settings demo_key
    (λ n w Hw, Hw) (checking marked_db) false refused_run.1 refused_run.2 (ex_intro _ signed_adopter eq_refl)
    eq_refl eq_refl Hsigned (run_pair refused_run)) as (_ & Hrep & Hkeep).
  split; [exact Hrep|]. exact (Hkeep packages_key packages_no_anchor (λ n w, eq_refl)).
Defined.
