(* ===== verification/HostSem.v ===== *)
(** * Per-host semaphores ([internal/hostsem/sem.go])

    A counting semaphore per upstream host, in a map whose entries go away
    with their last user.  Goroutines reference a slot by pointer, so slots
    live in a store of their own and the map holds their addresses; a call of
    [Acquire] is a caller that goes through the phases below, and each step is
    one critical section or one channel operation of the code. *)
From S2P Require Import Prelude Maps.
Local Open Scope Z_scope.

(** ** State *)

Record hostSlot := { sl_ch : Z; sl_refs : Z }.

(** Where a caller of [Acquire] is: blocked on the channel, holding a token
    until its release, past [<-slot.ch] or past its cancelled context with
    [dropRef] still to run, or done. *)
Inductive phase :=
| Waiting (host : string) (slot : N)
| Holding (host : string) (slot : N)
| Dropping (host : string) (slot : N)
| Done.

Record Sem := {
  limit : Z;
  slots : gmap string N;
  heap : gmap N hostSlot;
  next : N;
  callers : gmap N phase }.

Definition New (n : Z) : Sem :=
  {| limit := if n <? 0 then 0 else n; slots := ∅; heap := ∅; next := 0; callers := ∅ |}.

(** ** Operations *)

Definition set_caller (t : N) (p : phase) (s : Sem) : Sem :=
  {| limit := limit s; slots := slots s; heap := heap s; next := next s;
     callers := <[t := p]> (callers s) |}.

Definition upd_slot (id : N) (f : hostSlot → hostSlot) (s : Sem) : Sem :=
  {| limit := limit s; slots := slots s; heap := alter f id (heap s); next := next s;
     callers := callers s |}.

Definition add_ref (n : Z) (sl : hostSlot) : hostSlot :=
  {| sl_ch := sl_ch sl; sl_refs := sl_refs sl + n |}.
Definition add_ch (n : Z) (sl : hostSlot) : hostSlot :=
  {| sl_ch := sl_ch sl + n; sl_refs := sl_refs sl |}.

(** [Acquire] up to its select: the slot of the host, made if there is none. *)
Definition Acquire (t : N) (host : string) (s : Sem) : Sem :=
  match slots s !! host with
  | Some id => set_caller t (Waiting host id) (upd_slot id (add_ref 1) s)
  | None =>
      {| limit := limit s; slots := <[host := next s]> (slots s);
         heap := <[next s := {| sl_ch := 0; sl_refs := 1 |}]> (heap s);
         next := N.succ (next s); callers := <[t := Waiting host (next s)]> (callers s) |}
  end.

Definition dropRef (host : string) (id : N) (s : Sem) : Sem :=
  let s := upd_slot id (add_ref (-1)) s in
  match heap s !! id with
  | Some sl =>
      if (sl_refs sl =? 0) && bool_decide (slots s !! host = Some id)
      then {| limit := limit s; slots := delete host (slots s); heap := heap s; next := next s;
              callers := callers s |}
      else s
  | None => s
  end.

(** [case slot.ch <- struct{}{}]: possible while the buffer has room. *)
Definition can_take (id : N) (s : Sem) : bool :=
  match heap s !! id with Some sl => sl_ch sl <? limit s | None => false end.

Definition take (t : N) (host : string) (id : N) (s : Sem) : Sem :=
  set_caller t (Holding host id) (upd_slot id (add_ch 1) s).

(** [<-slot.ch]: possible while the buffer holds a token. *)
Definition can_give (id : N) (s : Sem) : bool :=
  match heap s !! id with Some sl => 0 <? sl_ch sl | None => false end.

Definition give (t : N) (host : string) (id : N) (s : Sem) : Sem :=
  set_caller t (Dropping host id) (upd_slot id (add_ch (-1)) s).

Definition drop (t : N) (host : string) (id : N) (s : Sem) : Sem :=
  set_caller t Done (dropRef host id s).

(** A released closure runs nothing again: sync.Once. *)
Inductive sem_step (s : Sem) : Sem → Prop :=
| step_acquire t host : callers s !! t = None → sem_step s (Acquire t host s)
| step_take t host id : callers s !! t = Some (Waiting host id) → can_take id s = true →
    sem_step s (take t host id s)
| step_cancel t host id : callers s !! t = Some (Waiting host id) →
    sem_step s (set_caller t (Dropping host id) s)
| step_give t host id : callers s !! t = Some (Holding host id) → can_give id s = true →
    sem_step s (give t host id s)
| step_drop t host id : callers s !! t = Some (Dropping host id) →
    sem_step s (drop t host id s).

Definition sem_reachable (n : Z) : Sem → Prop := rtc sem_step (New n).

Definition HostCount (s : Sem) : Z := Z.of_nat (size (slots s)).

(** [Snapshot]: tokens held and capacity, per host of the map. *)
Definition Snapshot (s : Sem) : gmap string (Z * Z) :=
  omap (λ id, sl ← heap s !! id; Some (sl_ch sl, limit s)) (slots s).

(** ** Populations *)

Definition phase_slot (p : phase) : option (string * N) :=
  match p with
  | Waiting h id | Holding h id | Dropping h id => Some (h, id)
  | Done => None
  end.

Definition on_slot (id : N) (_ : N) (p : phase) : bool :=
  match p with
  | Waiting _ i | Holding _ i | Dropping _ i => (i =? id)%N
  | Done => false
  end.

Definition holds_slot (id : N) (_ : N) (p : phase) : bool :=
  match p with Holding _ i => (i =? id)%N | _ => false end.

Definition holds_host (h : string) (_ : N) (p : phase) : bool :=
  match p with Holding h' _ => String.eqb h' h | _ => false end.

Definition on_host (h : string) (_ : N) (p : phase) : bool :=
  match p with
  | Waiting h' _ | Holding h' _ | Dropping h' _ => String.eqb h' h
  | Done => false
  end.

(** ** Invariant *)

Record sem_inv (s : Sem) : Prop := {
  si_limit : 0 <= limit s;
  si_heap : ∀ id sl, heap s !! id = Some sl →
    (id < next s)%N ∧ sl_ch sl = count_where (holds_slot id) (callers s) ∧
    sl_refs sl = count_where (on_slot id) (callers s) ∧ sl_ch sl <= limit s;
  si_caller : ∀ t p h id, callers s !! t = Some p → phase_slot p = Some (h, id) →
    slots s !! h = Some id;
  si_slots : ∀ h id, slots s !! h = Some id →
    is_Some (heap s !! id) ∧ ∃ t p, callers s !! t = Some p ∧ phase_slot p = Some (h, id);
  si_inj : ∀ h h' id, slots s !! h = Some id → slots s !! h' = Some id → h = h' }.

Section sem_laws.

Lemma on_slot_spec id t p : on_slot id t p = true ↔ ∃ h, phase_slot p = Some (h, id).
Proof.
  destruct p as [h i|h i|h i|]; simpl; rewrite ?N.eqb_eq; split; try done; try by intros [? [=]].
  all: intros ->; eauto.
Qed.

Lemma holds_on id t p : holds_slot id t p = true → on_slot id t p = true.
Proof. by destruct p. Qed.

Lemma inv_New n : sem_inv (New n).
Proof.
  split; simpl; try (intros; simplify_map_eq; fail).
  destruct (n <? 0) eqn:E; [done|]. apply Z.ltb_ge in E. lia.
Qed.

(** A caller moves on along its slot. *)
Lemma callers_move s t p p' h id f sl :
  sem_inv s → callers s !! t = Some p → phase_slot p = Some (h, id) →
  phase_slot p' = Some (h, id) → heap s !! id = Some sl →
  sl_refs (f sl) = sl_refs sl →
  sl_ch (f sl) = sl_ch sl - Z.b2z (holds_slot id t p) + Z.b2z (holds_slot id t p') →
  sl_ch (f sl) <= limit s →
  sem_inv (set_caller t p' (upd_slot id f s)).
Proof.
  intros [Hl Hh Hc Hs Hi] Ht Hp Hp' Hsl Hr Hch Hle. split; simpl; [done| | | |done].
  - intros id' sl' Hsl'.
    assert (on_slot id' t p = on_slot id' t p') as Hon.
    { apply eq_true_iff_eq. rewrite !on_slot_spec, Hp, Hp'. done. }
    rewrite !(count_where_insert _ _ _ p p') by done. rewrite Hon.
    destruct (decide (id' = id)) as [->|Hne].
    + rewrite lookup_alter_eq, Hsl in Hsl'. simpl in Hsl'. injection Hsl' as <-.
      destruct (Hh id sl Hsl) as (? & ? & ? & ?). split_and!; [done|lia|lia|done].
    + rewrite lookup_alter_ne in Hsl' by done. destruct (Hh id' sl' Hsl') as (? & ? & ? & ?).
      assert (∀ q, phase_slot q = Some (h, id) → holds_slot id' t q = false) as Hno.
      { intros q Hq. destruct (holds_slot id' t q) eqn:E; [|done].
        apply holds_on, on_slot_spec in E as [h' Hh']. congruence. }
      rewrite !Hno by done. simpl. split_and!; [done|lia|lia|done].
  - intros t' q h' id' [[<- <-]|[_ Hq]]%lookup_insert_Some Hqs.
    + rewrite Hp' in Hqs. simplify_eq. by eapply Hc.
    + by eapply Hc.
  - intros h' id' Hs'. destruct (Hs h' id' Hs') as ([sl' ?] & t' & q & Hq & Hqs). split.
    + apply lookup_alter_is_Some. by eexists.
    + destruct (decide (t' = t)) as [->|Hne].
      * exists t, p'. split; [by rewrite lookup_insert_eq|]. congruence.
      * exists t', q. by rewrite lookup_insert_ne.
Qed.

Lemma caller_slot s t p h id :
  sem_inv s → callers s !! t = Some p → phase_slot p = Some (h, id) →
  ∃ sl, heap s !! id = Some sl ∧ slots s !! h = Some id.
Proof.
  intros Hinv Ht Hp. pose proof (si_caller s Hinv t p h id Ht Hp) as Hs.
  destruct (si_slots s Hinv h id Hs) as [[sl ?] _]. by exists sl.
Qed.

Lemma inv_Acquire t host s :
  sem_inv s → callers s !! t = None → sem_inv (Acquire t host s).
Proof.
  intros Hinv Ht. pose proof Hinv as [Hl Hh Hc Hs Hi]. unfold Acquire.
  destruct (slots s !! host) as [id|] eqn:Hid.
  - destruct (Hs host id Hid) as [[sl Hsl] _]. split; simpl; [done| | | |done].
    + intros id' sl' Hsl'. rewrite !count_where_insert_new by done. simpl.
      destruct (decide (id' = id)) as [->|Hne].
      * rewrite lookup_alter_eq, Hsl in Hsl'. simpl in Hsl'. injection Hsl' as <-.
        destruct (Hh id sl Hsl) as (? & ? & ? & ?). rewrite N.eqb_refl. simpl. split_and!; lia.
      * rewrite lookup_alter_ne in Hsl' by done. destruct (Hh id' sl' Hsl') as (? & ? & ? & ?).
        destruct (N.eqb_spec id id'); [congruence|]. simpl. split_and!; lia.
    + intros t' q h' id' [[<- <-]|[_ Hq]]%lookup_insert_Some Hqs; [simpl in Hqs; by simplify_eq|].
      by eapply Hc.
    + intros h' id' Hs'. destruct (Hs h' id' Hs') as (? & t' & q & Hq & Hqs). split.
      * by apply lookup_alter_is_Some.
      * exists t', q. rewrite lookup_insert_ne; [done|congruence].
  - assert (∀ id sl, heap s !! id = Some sl → id ≠ next s) as Hfresh.
    { intros id sl Hsl. destruct (Hh id sl Hsl) as [? _]. lia. }
    assert (∀ h id, slots s !! h = Some id → id ≠ next s) as Hfresh'.
    { intros h id Hsl. destruct (Hs h id Hsl) as [[sl ?] _]. by eapply Hfresh. }
    assert (∀ P, (∀ k v, P k v = true → on_slot (next s) k v = true) →
              count_where P (callers s) = 0) as Hzero.
    { intros P HP. rewrite (count_where_ext _ (λ _ _, false)); [apply count_where_none|].
      intros k v Hk. destruct (P k v) eqn:E; [|done]. apply HP, on_slot_spec in E as [h Hh'].
      by destruct (Hfresh' h (next s) (Hc k v h _ Hk Hh')). }
    split; simpl; [done| | | |].
    + intros id' sl' [[<- <-]|[Hne Hsl']]%lookup_insert_Some;
        rewrite !count_where_insert_new by done; simpl.
      * rewrite N.eqb_refl, (Hzero (holds_slot (next s))), (Hzero (on_slot (next s))); simpl;
          [split_and!; lia|done|by intros; apply holds_on].
      * destruct (Hh id' sl' Hsl') as (? & ? & ? & ?).
        destruct (N.eqb_spec (next s) id'); [congruence|]. simpl. split_and!; lia.
    + intros t' q h' id' [[<- <-]|[_ Hq]]%lookup_insert_Some Hqs.
      * simpl in Hqs. simplify_eq. by rewrite lookup_insert_eq.
      * pose proof (Hc t' q h' id' Hq Hqs). rewrite lookup_insert_ne; [done|congruence].
    + intros h' id' [[<- <-]|[Hne Hs']]%lookup_insert_Some.
      * split; [rewrite lookup_insert_eq; by eexists|].
        exists t, (Waiting host (next s)). by rewrite lookup_insert_eq.
      * destruct (Hs h' id' Hs') as (? & t' & q & Hq & Hqs). split.
        -- rewrite lookup_insert_ne; [done|]. by apply not_eq_sym, (Hfresh' h').
        -- exists t', q. rewrite lookup_insert_ne; [done|congruence].
    + intros h h' id [[<- <-]|[? H1]]%lookup_insert_Some [[<- E]|[? H2]]%lookup_insert_Some.
      * done.
      * by destruct (Hfresh' _ _ H2).
      * subst. by destruct (Hfresh' _ _ H1).
      * by eapply Hi.
Qed.

Lemma inv_drop t host id s :
  sem_inv s → callers s !! t = Some (Dropping host id) → sem_inv (drop t host id s).
Proof.
  intros Hinv Ht. pose proof Hinv as [Hl Hh Hc Hs Hi].
  destruct (caller_slot s t _ host id Hinv Ht eq_refl) as (sl & Hsl & Hhost).
  destruct (Hh id sl Hsl) as (Hid & Hch & Href & Hle).
  set (c' := <[t := Done]> (callers s)).
  set (hp := alter (add_ref (-1)) id (heap s)).
  assert (∀ id' sl', hp !! id' = Some sl' →
    (id' < next s)%N ∧ sl_ch sl' = count_where (holds_slot id') c' ∧
    sl_refs sl' = count_where (on_slot id') c' ∧ sl_ch sl' <= limit s) as Hheap.
  { intros id' sl' Hsl'. unfold c', hp in *. rewrite !(count_where_insert _ _ _ _ _ Ht). simpl.
    destruct (decide (id' = id)) as [->|Hne].
    - rewrite lookup_alter_eq, Hsl in Hsl'. simpl in Hsl'. injection Hsl' as <-.
      rewrite N.eqb_refl. simpl. split_and!; lia.
    - rewrite lookup_alter_ne in Hsl' by done. destruct (Hh id' sl' Hsl') as (? & ? & ? & ?).
      destruct (N.eqb_spec id id'); [congruence|]. simpl. split_and!; lia. }
  assert (hp !! id = Some (add_ref (-1) sl)) as Hnew.
  { unfold hp. by rewrite lookup_alter_eq, Hsl. }
  destruct (Hheap id _ Hnew) as (_ & _ & Href' & _).
  assert (∀ t' q h' id', c' !! t' = Some q → phase_slot q = Some (h', id') →
            callers s !! t' = Some q) as Hlive.
  { intros t' q h' id' [[<- <-]|[_ ?]]%lookup_insert_Some Hq; done. }
  unfold drop, dropRef. simpl. fold hp. rewrite Hnew. cbn.
  rewrite Hhost, (bool_decide_true (Some id = Some id)), andb_true_r by done.
  destruct (Z.eqb_spec (sl_refs sl + -1) 0) as [Hz|Hnz]; (split; [exact Hl|exact Hheap| | |]);
    cbn; fold c' hp.
  - intros t' q h' id' Hq Hqs. pose proof (Hc t' q h' id' (Hlive _ _ _ _ Hq Hqs) Hqs) as Hs'.
    rewrite lookup_delete_ne; [done|]. intros <-. assert (id' = id) as -> by congruence.
    assert (0 < count_where (on_slot id) c'); [|simpl in Href'; lia].
    apply count_where_pos, exists_where_true. exists t', q. split; [done|].
    apply on_slot_spec. eauto.
  - intros h' id' [Hne Hs']%lookup_delete_Some. destruct (Hs h' id' Hs') as (? & t' & q & Hq & Hqs).
    split; [by apply lookup_alter_is_Some|]. exists t', q. split; [|done].
    unfold c'. rewrite lookup_insert_ne; [done|]. intros <-. rewrite Ht in Hq. simplify_eq.
    simpl in Hqs. congruence.
  - intros h h' i [_ ?]%lookup_delete_Some [_ ?]%lookup_delete_Some. by eapply Hi.
  - intros t' q h' id' Hq Hqs. by eapply Hc; [eapply Hlive|].
  - intros h' id' Hs'. split; [apply lookup_alter_is_Some; by apply (Hs h')|].
    destruct (decide (id' = id)) as [->|Hne].
    + assert (h' = host) as -> by (by eapply Hi).
      assert (exists_where (on_slot id) c' = true) as (t' & q & Hq & [h Hqs]%on_slot_spec)%exists_where_true.
      { apply count_where_pos. simpl in Href'.
        assert (0 <= count_where (on_slot id) c') by apply count_where_nonneg. lia. }
      exists t', q. split; [done|]. pose proof (Hc t' q h id (Hlive _ _ _ _ Hq Hqs) Hqs).
      by rewrite (Hi h host id) in Hqs.
    + destruct (Hs h' id' Hs') as (_ & t' & q & Hq & Hqs). exists t', q. split; [|done].
      unfold c'. rewrite lookup_insert_ne; [done|]. intros <-. rewrite Ht in Hq. simplify_eq.
      simpl in Hqs. congruence.
  - exact Hi.
Qed.

Lemma sem_inv_step s s' : sem_step s s' → sem_inv s → sem_inv s'.
Proof.
  destruct 1 as [t host Ht|t host id Ht Hcan|t host id Ht|t host id Ht Hcan|t host id Ht];
    intros Hinv.
  - by apply inv_Acquire.
  - destruct (caller_slot s t _ host id Hinv Ht eq_refl) as (sl & Hsl & _).
    unfold can_take in Hcan. rewrite Hsl in Hcan. apply Z.ltb_lt in Hcan.
    eapply callers_move; try done; simpl; rewrite ?N.eqb_refl; simpl; lia.
  - destruct (caller_slot s t _ host id Hinv Ht eq_refl) as (sl & Hsl & _).
    pose proof (si_heap s Hinv id sl Hsl) as (_ & _ & _ & Hle).
    assert (set_caller t (Dropping host id) s
            = set_caller t (Dropping host id) (upd_slot id (λ sl, sl) s)) as ->.
    { unfold set_caller, upd_slot. simpl. by rewrite alter_id. }
    eapply callers_move; try done; simpl; lia.
  - destruct (caller_slot s t _ host id Hinv Ht eq_refl) as (sl & Hsl & _).
    pose proof (si_heap s Hinv id sl Hsl) as (_ & _ & _ & Hle).
    eapply callers_move; try done; simpl; rewrite ?N.eqb_refl; simpl; lia.
  - by apply inv_drop.
Qed.

Lemma reachable_inv n s : sem_reachable n s → sem_inv s.
Proof.
  intros Hr. cut (sem_inv (New n)); [|apply inv_New].
  induction Hr as [|s1 s2 s3 Hs _ IH]; [done|]. eauto using sem_inv_step.
Qed.

Lemma reachable_limit n s : sem_reachable n s → limit s = Z.max 0 n.
Proof.
  intros Hr. assert (limit (New n) = Z.max 0 n) as Hn.
  { simpl. destruct (Z.ltb_spec n 0); lia. }
  revert Hn. induction Hr as [|s1 s2 s3 Hs _ IH]; [done|]. intros Hn. apply IH. rewrite <-Hn.
  destruct Hs; try done.
  - unfold Acquire. by destruct (slots s1 !! host).
  - unfold drop, dropRef. simpl. by repeat case_match.
Qed.
End sem_laws.

Section sem_props.

Lemma host_slot s h id :
  sem_inv s → slots s !! h = Some id →
  count_where (holds_host h) (callers s) = count_where (holds_slot id) (callers s) ∧
  count_where (on_host h) (callers s) = count_where (on_slot id) (callers s).
Proof.
  intros [Hl Hh Hc Hs Hi] Hid.
  assert (∀ t p, callers s !! t = Some p → ∀ h' id', phase_slot p = Some (h', id') →
            String.eqb h' h = (id' =? id)%N) as Heq.
  { intros t p Ht h' id' Hp. pose proof (Hc t p h' id' Ht Hp) as Hs'. apply eq_true_iff_eq.
    rewrite String.eqb_eq, N.eqb_eq. split; [congruence|]. intros ->. by eapply Hi. }
  split; apply count_where_ext; intros t p Ht; specialize (Heq t p Ht); destruct p; simpl in *;
    try done; by apply Heq.
Qed.

Lemma host_none s h :
  sem_inv s → slots s !! h = None →
  count_where (holds_host h) (callers s) = 0 ∧ count_where (on_host h) (callers s) = 0.
Proof.
  intros [Hl Hh Hc Hs Hi] Hnone.
  assert (∀ t p, callers s !! t = Some p → ∀ h' id', phase_slot p = Some (h', id') →
            String.eqb h' h = false) as Heq.
  { intros t p Ht h' id' Hp. pose proof (Hc t p h' id' Ht Hp) as Hs'.
    apply String.eqb_neq. congruence. }
  split; rewrite (count_where_ext _ (λ _ _, false)); try apply count_where_none;
    intros t p Ht; specialize (Heq t p Ht); destruct p; simpl in *; try done; by eapply Heq.
Qed.

Lemma HostSem_empty n s :
  sem_reachable n s → (∀ t p, callers s !! t = Some p → p = Done) → HostCount s = 0.
Proof.
  intros Hr Hdone. pose proof (reachable_inv n s Hr) as Hinv.
  unfold HostCount. assert (slots s = ∅) as ->; [|done].
  apply map_empty. intros h'. destruct (slots s !! h') as [id|] eqn:Hid; [|done].
  destruct (si_slots s Hinv h' id Hid) as (_ & t & p & Ht & Hp).
  by rewrite (Hdone t p Ht) in Hp.
Qed.

(** The bound the semaphore is for.  However acquires, cancellations and
    releases interleave, never more than the limit of tokens is out for one
    host - also across the deletion and re-creation of its slot -, a negative
    limit counting as none; [Snapshot] shows exactly the hosts some caller
    still uses, each with the tokens really held; and the map has an entry for
    a host iff some caller has not finished with it, so that made-up host
    names leave nothing behind. *)
Theorem HostSem_bound n s h :
  sem_reachable n s →
  count_where (holds_host h) (callers s) <= Z.max 0 n ∧
  Snapshot s !! h =
    (if count_where (on_host h) (callers s) =? 0 then None
     else Some (count_where (holds_host h) (callers s), Z.max 0 n)) ∧
  (is_Some (slots s !! h) ↔ 0 < count_where (on_host h) (callers s)) ∧
  ((∀ t p, callers s !! t = Some p → p = Done) → HostCount s = 0).
Proof.
  intros Hr. pose proof (reachable_inv n s Hr) as Hinv.
  pose proof (reachable_limit n s Hr) as Hlim. unfold Snapshot. rewrite lookup_omap.
  split_and!.
  - destruct (slots s !! h) as [id|] eqn:Hid.
    + destruct (host_slot s h id Hinv Hid) as [-> _].
      destruct (si_slots s Hinv h id Hid) as [[sl Hsl] _].
      destruct (si_heap s Hinv id sl Hsl) as (_ & E & _ & Hle). lia.
    + destruct (host_none s h Hinv Hid) as [-> _]. lia.
  - destruct (slots s !! h) as [id|] eqn:Hid; simpl.
    + destruct (host_slot s h id Hinv Hid) as [-> ->].
      destruct (si_slots s Hinv h id Hid) as [[sl Hsl] (t & p & Ht & Hp)].
      destruct (si_heap s Hinv id sl Hsl) as (_ & <- & _ & _). rewrite Hsl. simpl.
      assert (0 < count_where (on_slot id) (callers s)) as Hpos.
      { apply count_where_pos, exists_where_true. exists t, p. split; [done|].
        apply on_slot_spec. eauto. }
      destruct (Z.eqb_spec (count_where (on_slot id) (callers s)) 0); [lia|]. by rewrite Hlim.
    + destruct (host_none s h Hinv Hid) as [-> ->]. done.
  - split.
    + intros [id Hid]. destruct (host_slot s h id Hinv Hid) as [_ ->].
      destruct (si_slots s Hinv h id Hid) as (_ & t & p & Ht & Hp).
      apply count_where_pos, exists_where_true. exists t, p. split; [done|].
      apply on_slot_spec. eauto.
    + intros Hpos. destruct (slots s !! h) as [id|] eqn:Hid; [by eexists|].
      destruct (host_none s h Hinv Hid) as [_ E]. lia.
  - by apply (HostSem_empty n).
Qed.

(** What a caller can do without arriving and without its context ending. *)
Inductive advance (s : Sem) : Sem → Prop :=
| adv_take t host id : callers s !! t = Some (Waiting host id) → can_take id s = true →
    advance s (take t host id s)
| adv_give t host id : callers s !! t = Some (Holding host id) → can_give id s = true →
    advance s (give t host id s)
| adv_drop t host id : callers s !! t = Some (Dropping host id) → advance s (drop t host id s).

Lemma advance_step s s' : advance s s' → sem_step s s'.
Proof. destruct 1; by econstructor. Qed.

Definition is_waiting (_ : N) (p : phase) : bool :=
  match p with Waiting _ _ => true | _ => false end.
Definition is_holding (_ : N) (p : phase) : bool :=
  match p with Holding _ _ => true | _ => false end.
Definition is_dropping (_ : N) (p : phase) : bool :=
  match p with Dropping _ _ => true | _ => false end.

Definition left_over (s : Sem) : Z :=
  3 * count_where is_waiting (callers s) + 2 * count_where is_holding (callers s)
  + count_where is_dropping (callers s).

Lemma advance_less s s' : advance s s' → left_over s' < left_over s.
Proof.
  destruct 1 as [t h id Ht _|t h id Ht _|t h id Ht]; unfold left_over, take, give, drop;
    [..|assert (callers (dropRef h id s) = callers s) as Hcs
        by (unfold dropRef; simpl; by repeat case_match)]; simpl; rewrite ?Hcs;
    rewrite !(count_where_insert _ _ _ _ _ Ht); simpl; lia.
Qed.

Lemma unfinished s :
  sem_inv s → 0 < limit s → (∀ t p, callers s !! t = Some p → p = Done) ∨ ∃ s', advance s s'.
Proof.
  intros Hinv Hlim.
  destruct (exists_where is_dropping (callers s)) eqn:Hd.
  { right. apply exists_where_true in Hd as (t & [] & Ht & Hp); try done.
    eexists. by apply (adv_drop s t). }
  destruct (exists_where is_holding (callers s)) eqn:Hh.
  { right. apply exists_where_true in Hh as (t & [|h id| |] & Ht & Hp); try done.
    destruct (caller_slot s t _ h id Hinv Ht eq_refl) as (sl & Hsl & _).
    eexists. apply (adv_give s t h id Ht). unfold can_give. rewrite Hsl. apply Z.ltb_lt.
    destruct (si_heap s Hinv id sl Hsl) as (_ & -> & _). apply count_where_pos, exists_where_true.
    exists t, (Holding h id). split; [done|]. simpl. apply N.eqb_refl. }
  destruct (exists_where is_waiting (callers s)) eqn:Hw.
  { right. apply exists_where_true in Hw as (t & [h id| | |] & Ht & Hp); try done.
    destruct (caller_slot s t _ h id Hinv Ht eq_refl) as (sl & Hsl & _).
    eexists. apply (adv_take s t h id Ht). unfold can_take. rewrite Hsl. apply Z.ltb_lt.
    destruct (si_heap s Hinv id sl Hsl) as (_ & -> & _).
    rewrite (count_where_ext _ (λ _ _, false)), count_where_none; [done|].
    intros t' p Hp'. destruct (holds_slot id t' p) eqn:E; [|done].
    rewrite exists_where_false in Hh. specialize (Hh t' p Hp'). by destruct p. }
  left. intros t p Ht. rewrite exists_where_false in Hd. rewrite exists_where_false in Hh.
  rewrite exists_where_false in Hw. specialize (Hd t p Ht). specialize (Hh t p Ht).
  specialize (Hw t p Ht). by destruct p.
Qed.

(** Nobody waits for ever.  With a positive limit, in every reachable
    state a release never blocks on its channel, and the callers there are can
    all get their token and finish without any of them giving up: some run of
    takes and releases ends with every caller done and the map empty - and
    every such run ends, each step bringing it nearer. *)
Theorem HostSem_progress n s :
  sem_reachable n s → 0 < n →
  (∀ t h id, callers s !! t = Some (Holding h id) → can_give id s = true) ∧
  (∀ s', advance s s' → left_over s' < left_over s) ∧
  ∃ s', rtc advance s s' ∧ (∀ t p, callers s' !! t = Some p → p = Done) ∧ HostCount s' = 0.
Proof.
  intros Hr Hn. pose proof (reachable_inv n s Hr) as Hinv. split_and!.
  - intros t h id Ht. destruct (caller_slot s t _ h id Hinv Ht eq_refl) as (sl & Hsl & _).
    unfold can_give. rewrite Hsl. apply Z.ltb_lt.
    destruct (si_heap s Hinv id sl Hsl) as (_ & -> & _). apply count_where_pos, exists_where_true.
    exists t, (Holding h id). split; [done|]. simpl. apply N.eqb_refl.
  - apply advance_less.
  - clear Hinv. remember (Z.to_nat (left_over s)) as m eqn:Em. revert s Hr Em.
    induction (lt_wf m) as [m _ IH]. intros s Hr ->.
    pose proof (reachable_inv n s Hr) as Hinv. pose proof (reachable_limit n s Hr) as Hlim.
    destruct (unfinished s Hinv) as [Hdone|[s1 Hs1]]; [lia| |].
    + exists s. split_and!; [done|done|]. by apply (HostSem_empty n).
    + pose proof (advance_less _ _ Hs1) as Hlt.
      assert (0 <= left_over s1) by (unfold left_over;
        pose proof (count_where_nonneg is_waiting (callers s1));
        pose proof (count_where_nonneg is_holding (callers s1));
        pose proof (count_where_nonneg is_dropping (callers s1)); lia).
      destruct (IH (Z.to_nat (left_over s1))) with (s := s1) as (s' & Hrun & ?); [lia| |done|].
      { eapply rtc_r; [exact Hr|]. by apply advance_step. }
      exists s'. split; [|done]. by eapply rtc_l.
Qed.
End sem_props.

(** ** Two callers of one host, one token *)

Definition two_callers : Sem :=
  take 1 "deb.debian.org" 0 (Acquire 2 "deb.debian.org" (Acquire 1 "deb.debian.org" (New 1))).

Example two_callers_stat : Snapshot two_callers !! "deb.debian.org" = Some (1, 1).
Proof. vm_compute. reflexivity. Qed.

Example second_waits : can_take 0 two_callers = false.
Proof. vm_compute. reflexivity. Qed.

Lemma two_callers_reachable : sem_reachable 1 two_callers.
Proof.
  eapply rtc_l; [by apply (step_acquire _ 1 "deb.debian.org")|].
  eapply rtc_l; [by apply (step_acquire _ 2 "deb.debian.org")|].
  eapply rtc_l; [by apply (step_take _ 1 "deb.debian.org" 0)|]. apply rtc_refl.
Qed.

Lemma HostSem_bound_witness :
  count_where (holds_host "deb.debian.org") (callers two_callers) <= 1.
Proof. exact (proj1 (HostSem_bound 1 two_callers "deb.debian.org" two_callers_reachable)). Defined.

Lemma HostSem_progress_witness :
  ∃ s', rtc advance two_callers s' ∧ HostCount s' = 0.
Proof.
  destruct (HostSem_progress 1 two_callers two_callers_reachable ltac:(lia))
    as (_ & _ & s' & Hrun & _ & H0).
  exists s'. exact (conj Hrun H0).
Defined.
