(* ===== verification/SuiteLocks.v ===== *)
(** * Suite locks and adoptions in flight (internal/freshness suite_lock.go,
    inflight.go)

    A suite's mutex lives in a map from the suite's key, and whoever deletes
    the suite drops the entry while it holds the mutex.  The map, the mutexes
    and the goroutines of [lockSuite], [HoldSuite] and [unlockDropped] are a
    transition system, one step per atomic operation, so that all of their
    interleavings are runs.  [hostAdoptions] counts the signed adoptions of a
    host and lets requests wait for their end; each step is one section under
    its mutex or one case of the select. *)
From S2P Require Import Prelude Maps.
Local Open Scope Z_scope.

(** ** The suite locks *)

(** Past LoadOrStore; past TryLock; found stale, the unlock to come; holding
    the suite (lockOK); past the map's CompareAndDelete, past the two deletes
    of the suite's state; returned, with whether the suite was held. *)
Inductive lock_phase :=
| Loaded (key : string) (mu : N)
| Locked (key : string) (mu : N)
| Stale (key : string) (mu : N)
| Held (key : string) (mu : N)
| Dropped (key : string) (mu : N)
| Cleared (key : string) (mu : N)
| Returned (held : bool).

Record Locks := {
  lk_map : gmap string N;
  lk_mutexes : gmap N (option N);
  lk_next : N;
  lk_absentAnswered : gset string;
  lk_lateralHolds : gset string;
  lk_procs : gmap N lock_phase;
}.

Definition newLocks : Locks :=
  {| lk_map := ∅; lk_mutexes := ∅; lk_next := 0; lk_absentAnswered := ∅; lk_lateralHolds := ∅; lk_procs := ∅ |}.

Definition go (t : N) (p : lock_phase) (s : Locks) : Locks :=
  {| lk_map := lk_map s; lk_mutexes := lk_mutexes s; lk_next := lk_next s;
     lk_absentAnswered := lk_absentAnswered s; lk_lateralHolds := lk_lateralHolds s;
     lk_procs := <[t := p]> (lk_procs s) |}.

Definition set_mutex (mu : N) (holder : option N) (s : Locks) : Locks :=
  {| lk_map := lk_map s; lk_mutexes := <[mu := holder]> (lk_mutexes s); lk_next := lk_next s;
     lk_absentAnswered := lk_absentAnswered s; lk_lateralHolds := lk_lateralHolds s; lk_procs := lk_procs s |}.

(** [c.locks.LoadOrStore(key, &sync.Mutex{})] *)
Definition LoadOrStore (t : N) (key : string) (s : Locks) : Locks :=
  match lk_map s !! key with
  | Some mu => go t (Loaded key mu) s
  | None =>
      {| lk_map := <[key := lk_next s]> (lk_map s); lk_mutexes := <[lk_next s := None]> (lk_mutexes s);
         lk_next := N.succ (lk_next s); lk_absentAnswered := lk_absentAnswered s; lk_lateralHolds := lk_lateralHolds s;
         lk_procs := <[t := Loaded key (lk_next s)]> (lk_procs s) |}
  end.

Definition TryLock (t : N) (key : string) (mu : N) (s : Locks) : Locks :=
  match lk_mutexes s !! mu with
  | Some None => go t (Locked key mu) (set_mutex mu (Some t) s)
  | _ => go t (Returned false) s
  end.

(** The map still has the mutex that was locked. *)
Definition revalidate (t : N) (key : string) (mu : N) (s : Locks) : Locks :=
  if bool_decide (lk_map s !! key = Some mu) then go t (Held key mu) s else go t (Stale key mu) s.

Definition Unlock (t : N) (mu : N) (held : bool) (s : Locks) : Locks := go t (Returned held) (set_mutex mu None s).

Definition CompareAndDelete (key : string) (mu : N) (m : gmap string N) : gmap string N :=
  if bool_decide (m !! key = Some mu) then delete key m else m.

(** The first step of [unlockDropped], and its two deletes. *)
Definition dropEntry (t : N) (key : string) (mu : N) (s : Locks) : Locks :=
  {| lk_map := CompareAndDelete key mu (lk_map s); lk_mutexes := lk_mutexes s; lk_next := lk_next s;
     lk_absentAnswered := lk_absentAnswered s; lk_lateralHolds := lk_lateralHolds s;
     lk_procs := <[t := Dropped key mu]> (lk_procs s) |}.

Definition clearState (t : N) (key : string) (mu : N) (s : Locks) : Locks :=
  {| lk_map := lk_map s; lk_mutexes := lk_mutexes s; lk_next := lk_next s;
     lk_absentAnswered := lk_absentAnswered s ∖ {[key]}; lk_lateralHolds := lk_lateralHolds s ∖ {[key]};
     lk_procs := <[t := Cleared key mu]> (lk_procs s) |}.

(** A holder's check writes its suite's state. *)
Definition noteState (absent lateral : gset string) (s : Locks) : Locks :=
  {| lk_map := lk_map s; lk_mutexes := lk_mutexes s; lk_next := lk_next s;
     lk_absentAnswered := absent; lk_lateralHolds := lateral; lk_procs := lk_procs s |}.

(** [LockCount] *)
Definition LockCount (s : Locks) : nat := size (lk_map s).

Inductive lock_step (s : Locks) : Locks → Prop :=
| ls_load t key : lk_procs s !! t = None → lock_step s (LoadOrStore t key s)
| ls_try t key mu : lk_procs s !! t = Some (Loaded key mu) → lock_step s (TryLock t key mu s)
| ls_validate t key mu : lk_procs s !! t = Some (Locked key mu) → lock_step s (revalidate t key mu s)
| ls_stale t key mu : lk_procs s !! t = Some (Stale key mu) → lock_step s (Unlock t mu false s)
| ls_release t key mu : lk_procs s !! t = Some (Held key mu) → lock_step s (Unlock t mu true s)
| ls_drop t key mu : lk_procs s !! t = Some (Held key mu) → lock_step s (dropEntry t key mu s)
| ls_clear t key mu : lk_procs s !! t = Some (Dropped key mu) → lock_step s (clearState t key mu s)
| ls_dropped t key mu : lk_procs s !! t = Some (Cleared key mu) → lock_step s (Unlock t mu true s)
| ls_note t key mu absent lateral : lk_procs s !! t = Some (Held key mu) → lock_step s (noteState absent lateral s).

Definition lock_reachable : Locks → Prop := rtc lock_step newLocks.

(** *** The invariant *)

Definition lock_of (p : lock_phase) : option (string * N) :=
  match p with
  | Loaded k m | Locked k m | Stale k m | Held k m | Dropped k m | Cleared k m => Some (k, m)
  | Returned _ => None
  end.

(** The phases between a TryLock that succeeded and the unlock. *)
Definition owns (mu : N) (p : lock_phase) : bool :=
  match p with
  | Locked _ m | Stale _ m | Held _ m | Dropped _ m | Cleared _ m => (m =? mu)%N
  | _ => false
  end.

(** [own] is the key each mutex was made for. *)
Record locks_inv (own : gmap N string) (s : Locks) : Prop := {
  li_own mu : is_Some (own !! mu) ↔ is_Some (lk_mutexes s !! mu);
  li_next mu : is_Some (own !! mu) → (mu < lk_next s)%N;
  li_map k mu : lk_map s !! k = Some mu → own !! mu = Some k;
  li_proc t p k mu : lk_procs s !! t = Some p → lock_of p = Some (k, mu) → own !! mu = Some k;
  li_holder mu t : lk_mutexes s !! mu = Some (Some t) ↔ ∃ p, lk_procs s !! t = Some p ∧ owns mu p = true;
  li_held t k mu : lk_procs s !! t = Some (Held k mu) → lk_map s !! k = Some mu }.

Lemma locks_inv_new : locks_inv ∅ newLocks.
Proof.
  split; simpl; intros *; rewrite ?lookup_empty; try done; try (by intros [? ?]).
  split; [done|]. by intros (p & ? & _).
Qed.

Lemma owner_unique own s mu t t' p p' :
  locks_inv own s → lk_procs s !! t = Some p → owns mu p = true →
  lk_procs s !! t' = Some p' → owns mu p' = true → t = t'.
Proof.
  intros Hinv Hp Ho Hp' Ho'. pose proof (proj2 (li_holder own s Hinv mu t) (ex_intro _ p (conj Hp Ho))) as H1.
  pose proof (proj2 (li_holder own s Hinv mu t') (ex_intro _ p' (conj Hp' Ho'))) as H2. congruence.
Qed.

(** A goroutine that moves on with the same mutex, or without one. *)
Lemma go_inv own s t p p' :
  locks_inv own s → lk_procs s !! t = Some p → (∀ mu, owns mu p' = owns mu p) →
  (∀ k mu, lock_of p' = Some (k, mu) → lock_of p = Some (k, mu)) →
  (∀ k mu, p' = Held k mu → lk_map s !! k = Some mu) → locks_inv own (go t p' s).
Proof.
  intros [H1 H2 H3 H4 H5 H6] Hp Ho Hl Hh. split; simpl; try done.
  - intros t' q k mu [[<- <-]|[Hne Hq]]%lookup_insert_Some Hk; [|by eapply H4]. eapply H4; [exact Hp|auto].
  - intros mu t'. rewrite H5. destruct (decide (t' = t)) as [->|Hne].
    + rewrite lookup_insert_eq, Hp. split; intros (q & [= <-] & Hq); eexists; (split; [done|]); [by rewrite Ho|by rewrite <-Ho].
    + by rewrite lookup_insert_ne by done.
  - intros t' k mu [[<- Heq]|[Hne Hq]]%lookup_insert_Some; [by apply Hh|by eapply H6].
Qed.

(** A goroutine that takes a free mutex, or frees the one it has. *)
Lemma set_mutex_inv own s t p p' k mu held :
  locks_inv own s → lk_procs s !! t = Some p → lock_of p = Some (k, mu) →
  (∀ m, m ≠ mu → owns m p = false ∧ owns m p' = false) → owns mu p' = held →
  (if held then lk_mutexes s !! mu = Some None else owns mu p = true) →
  (∀ k' m, lock_of p' = Some (k', m) → lock_of p = Some (k', m)) → (∀ k' m, p' ≠ Held k' m) →
  locks_inv own (go t p' (set_mutex mu (if held then Some t else None) s)).
Proof.
  intros Hinv Hp Hl Hother Hheld Hbefore Hl' Hnh. pose proof Hinv as [H1 H2 H3 H4 H5 H6].
  assert (own !! mu = Some k) as Hown by by eapply H4.
  split; simpl; try done.
  - intros m. rewrite H1. destruct (decide (m = mu)) as [->|]; [|by rewrite lookup_insert_ne].
    rewrite lookup_insert_eq. split; [by eexists|]. intros _. apply H1. by eexists.
  - intros t' q k' m [[<- <-]|[Hne Hq]]%lookup_insert_Some Hk; [|by eapply H4]. eapply H4; [exact Hp|auto].
  - intros m t'. destruct (decide (m = mu)) as [->|Hm].
    + rewrite lookup_insert_eq. destruct (decide (t' = t)) as [->|Hne].
      * rewrite lookup_insert_eq. destruct held; split; try done.
        -- intros _. by exists p'.
        -- intros (q & [= <-] & Hq). congruence.
      * rewrite lookup_insert_ne by done. split.
        -- destruct held; congruence.
        -- intros Hq. apply H5 in Hq. destruct held; [congruence|].
           assert (lk_mutexes s !! mu = Some (Some t)) as Ht by (apply H5; eauto). congruence.
    + rewrite lookup_insert_ne, H5 by done. destruct (decide (t' = t)) as [->|Hne].
      * rewrite lookup_insert_eq. destruct (Hother m Hm) as [E1 E2].
        split; intros (q & Hq & Ho); simplify_eq; congruence.
      * by rewrite lookup_insert_ne.
  - intros t' k' m [[<- Heq]|[Hne Hq]]%lookup_insert_Some; [by destruct (Hnh k' m)|by eapply H6].
Qed.

Lemma LoadOrStore_inv own s t key :
  locks_inv own s → lk_procs s !! t = None → ∃ own', locks_inv own' (LoadOrStore t key s).
Proof.
  intros Hinv Ht. pose proof Hinv as [H1 H2 H3 H4 H5 H6]. unfold LoadOrStore.
  assert (∀ mu, lk_mutexes s !! mu ≠ Some (Some t)) as Hno.
  { intros mu Hm. apply H5 in Hm as (p & Hp & _). congruence. }
  destruct (lk_map s !! key) as [mu|] eqn:Hmu.
  - exists own. split; simpl; try done.
    + intros t' q k m [[<- <-]|[Hne Hq]]%lookup_insert_Some Hk; [|by eapply H4]. simpl in Hk. simplify_eq. by apply H3.
    + intros m t'. rewrite H5. destruct (decide (t' = t)) as [->|Hne].
      * rewrite lookup_insert_eq, Ht. by split; intros (q & [= <-] & Hq).
      * by rewrite lookup_insert_ne.
    + intros t' k m [[<- Heq]|[Hne Hq]]%lookup_insert_Some; [done|by eapply H6].
  - set (n := lk_next s). assert (∀ mu, is_Some (own !! mu) → mu ≠ n) as Hfresh by (intros mu Hs%H2; unfold n; lia).
    exists (<[n := key]> own). split; simpl.
    + intros mu. destruct (decide (mu = n)) as [->|]; [rewrite !lookup_insert_eq|rewrite !lookup_insert_ne by done; apply H1].
      by split; eexists.
    + intros mu. destruct (decide (mu = n)) as [->|]; [unfold n; lia|]. rewrite lookup_insert_ne by done. intros Hs%H2. lia.
    + intros k mu [[<- <-]|[Hne Hk]]%lookup_insert_Some; [by rewrite lookup_insert_eq|].
      rewrite lookup_insert_ne; [by apply H3|]. apply not_eq_sym, Hfresh. rewrite (H3 k mu Hk). by eexists.
    + intros t' q k mu [[<- <-]|[Hne Hq]]%lookup_insert_Some Hk.
      * simpl in Hk. simplify_eq. by rewrite lookup_insert_eq.
      * rewrite lookup_insert_ne; [by eapply H4|]. apply not_eq_sym, Hfresh. rewrite (H4 t' q k mu Hq Hk). by eexists.
    + intros mu t'. destruct (decide (t' = t)) as [->|Hne].
      * rewrite lookup_insert_eq. split; [|by intros (q & [= <-] & Hq)]. intros Hm. exfalso.
        destruct (decide (mu = n)) as [->|]; [by rewrite lookup_insert_eq in Hm|].
        rewrite lookup_insert_ne in Hm by done. by destruct (Hno mu).
      * rewrite (lookup_insert_ne (lk_procs s)) by done. destruct (decide (mu = n)) as [->|]; [|by rewrite lookup_insert_ne, H5].
        rewrite lookup_insert_eq. split; [done|]. intros Hq%H5. destruct (Hfresh n); [|done]. apply H1. by eexists.
    + intros t' k mu [[<- Heq]|[Hne Hq]]%lookup_insert_Some; [done|]. rewrite lookup_insert_ne; [by eapply H6|].
      intros <-. apply H6 in Hq. congruence.
Qed.

(** A holder's drop takes away only its own entry. *)
Lemma dropEntry_inv own s t key mu :
  locks_inv own s → lk_procs s !! t = Some (Held key mu) → locks_inv own (dropEntry t key mu s).
Proof.
  intros Hinv Ht. pose proof Hinv as [H1 H2 H3 H4 H5 H6]. pose proof (H6 _ _ _ Ht) as Hmap.
  unfold dropEntry, CompareAndDelete. rewrite bool_decide_true by done. split; simpl; try done.
  - intros k m [_ Hk]%lookup_delete_Some. by apply H3.
  - intros t' q k m [[<- <-]|[Hne Hq]]%lookup_insert_Some Hk; [|by eapply H4]. simpl in Hk. simplify_eq. by apply H3.
  - intros m t'. rewrite H5. destruct (decide (t' = t)) as [->|Hne].
    + rewrite lookup_insert_eq, Ht. split; intros (q & [= <-] & Hq); eexists; by split.
    + by rewrite lookup_insert_ne.
  - intros t' k m [[<- Heq]|[Hne Hq]]%lookup_insert_Some; [done|]. apply lookup_delete_Some. split; [|by eapply H6].
    intros <-. apply H6 in Hq as Hm. assert (m = mu) as -> by congruence.
    apply Hne. symmetry. eapply owner_unique; [exact Hinv|exact Hq| |exact Ht|]; simpl; apply N.eqb_refl.
Qed.

Lemma lock_step_inv own s s' : lock_step s s' → locks_inv own s → ∃ own', locks_inv own' s'.
Proof.
  intros Hstep Hinv. destruct Hstep as [t key Ht|t key mu Ht|t key mu Ht|t key mu Ht|t key mu Ht|t key mu Ht|t key mu Ht
    |t key mu Ht|t key mu absent lateral Ht].
  - by eapply LoadOrStore_inv.
  - exists own. assert (locks_inv own (go t (Returned false) s)) as Hret by (by eapply go_inv).
    unfold TryLock. destruct (lk_mutexes s !! mu) as [[h|]|] eqn:Hm; [done| |done].
    apply (set_mutex_inv own s t (Loaded key mu) _ key mu true); try done; simpl.
    + intros m Hne. split; [done|]. by apply N.eqb_neq.
    + apply N.eqb_refl.
  - exists own. unfold revalidate. case_bool_decide as Hm; eapply go_inv; try done; simpl; try congruence; try done;
      intros k m [= <- <-]; done.
  - exists own. apply (set_mutex_inv own s t (Stale key mu) _ key mu false); try done; simpl; [|apply N.eqb_refl].
    intros m Hne. split; [|done]. by apply N.eqb_neq.
  - exists own. apply (set_mutex_inv own s t (Held key mu) _ key mu false); try done; simpl; [|apply N.eqb_refl].
    intros m Hne. split; [|done]. by apply N.eqb_neq.
  - exists own. by apply dropEntry_inv.
  - exists own. assert (locks_inv own (go t (Cleared key mu) s)) as Hgo by (by eapply go_inv).
    by destruct Hgo; split.
  - exists own. apply (set_mutex_inv own s t (Cleared key mu) _ key mu false); try done; simpl; [|apply N.eqb_refl].
    intros m Hne. split; [|done]. by apply N.eqb_neq.
  - exists own. by destruct Hinv; split.
Qed.

Lemma lock_reachable_inv s : lock_reachable s → ∃ own, locks_inv own s.
Proof.
  intros Hr. cut (∃ own, locks_inv own newLocks); [|exists ∅; apply locks_inv_new].
  induction Hr as [|s1 s2 s3 Hs _ IH]; [done|]. intros [own Hown]. apply IH. by eapply lock_step_inv.
Qed.

(** A call that runs while nothing holds the suite gets it. *)
Lemma uncontended own s t key :
  locks_inv own s → lk_procs s !! t = None →
  (∀ mu, lk_map s !! key = Some mu → lk_mutexes s !! mu = Some None) →
  ∃ mu s', rtc lock_step s s' ∧ lk_procs s' !! t = Some (Held key mu).
Proof.
  intros Hinv Ht Hfree. set (s1 := LoadOrStore t key s).
  assert (∃ mu, lk_procs s1 !! t = Some (Loaded key mu) ∧ lk_map s1 !! key = Some mu ∧ lk_mutexes s1 !! mu = Some None)
    as (mu & Hp & Hm & Hmu).
  { unfold s1, LoadOrStore. destruct (lk_map s !! key) as [mu|] eqn:Hk; eexists; simpl; rewrite ?lookup_insert_eq; eauto. }
  set (s2 := TryLock t key mu s1). set (s3 := revalidate t key mu s2).
  assert (s2 = go t (Locked key mu) (set_mutex mu (Some t) s1)) as Hs2 by (unfold s2, TryLock; by rewrite Hmu).
  assert (lk_procs s2 !! t = Some (Locked key mu)) as Hp2 by (rewrite Hs2; simpl; by rewrite lookup_insert_eq).
  exists mu, s3. split.
  - eapply rtc_l; [by apply (ls_load s t key)|]. eapply rtc_l; [by apply (ls_try s1 t key mu)|].
    eapply rtc_l; [by apply (ls_validate s2 t key mu)|]. apply rtc_refl.
  - unfold s3, revalidate. rewrite bool_decide_true by by rewrite Hs2. simpl. by rewrite lookup_insert_eq.
Qed.

(** A suite has one holder at a time, however acquisitions, releases and
    drops of deleted suites interleave: two goroutines that hold one suite are
    the same one, and the map has the mutex it holds.  When no goroutine is
    between its TryLock and its unlock on the suite's mutex, a call of
    lockSuite that nothing disturbs holds the suite: no drop leaves it locked. *)
Theorem suite_lock_exclusive s :
  lock_reachable s →
  (∀ key t t' mu mu', lk_procs s !! t = Some (Held key mu) → lk_procs s !! t' = Some (Held key mu') →
     t = t' ∧ mu = mu' ∧ lk_map s !! key = Some mu) ∧
  ∀ key t, lk_procs s !! t = None →
    (∀ mu t' p, lk_map s !! key = Some mu → lk_procs s !! t' = Some p → owns mu p = false) →
    ∃ mu s', rtc lock_step s s' ∧ lk_procs s' !! t = Some (Held key mu).
Proof.
  intros [own Hinv]%lock_reachable_inv. split.
  - intros key t t' mu mu' H1 H2. pose proof (li_held _ _ Hinv _ _ _ H1) as Hm. pose proof (li_held _ _ Hinv _ _ _ H2) as Hm'.
    assert (mu' = mu) as -> by congruence. split_and!; [|done|done].
    eapply owner_unique; [exact Hinv|exact H1| |exact H2|]; simpl; apply N.eqb_refl.
  - intros key t Ht Hfree. eapply uncontended; [exact Hinv|done|]. intros mu Hmu.
    assert (is_Some (lk_mutexes s !! mu)) as [[t'|] Ho].
    { apply (li_own _ _ Hinv). rewrite (li_map _ _ Hinv _ _ Hmu). by eexists. }
    + apply (li_holder _ _ Hinv) in Ho as Hp. destruct Hp as (p & Hp & Hop). by rewrite (Hfree mu t' p Hmu Hp) in Hop.
    + done.
Qed.

(** ** Adoptions in flight *)

Definition strictWait : Z := 15 * 10 ^ 9.
Definition strictWaitersPerHost : Z := 64.
Definition strictRequestBudget : Z := 25 * 10 ^ 9.
Definition strictMinWait : Z := 10 ^ 9.

(** A call of [wait]: in its select with the host's channel, past it with the
    deferred decrement to come, or returned. *)
Inductive wait_phase :=
| Blocked (host : string) (ch : N)
| Leaving (host : string) (answer : bool)
| Answered (answer : bool).

Record hostAdoptions := {
  ha_n : gmap string Z;
  ha_waiters : gmap string Z;
  ha_idle : gmap string N;
  ha_closed : gset N;
  ha_next : N;
  ha_running : gmap N string;       (** the adoptions between begin and end *)
  ha_calls : gmap N wait_phase;
}.

Definition newHostAdoptions : hostAdoptions :=
  {| ha_n := ∅; ha_waiters := ∅; ha_idle := ∅; ha_closed := ∅; ha_next := 0; ha_running := ∅; ha_calls := ∅ |}.

Definition count_of (m : gmap string Z) (host : string) : Z := default 0 (m !! host).

(** [m[host]--], and the entry goes with the last: by [end] and by [wait]. *)
Definition drop_waiter (host : string) (m : gmap string Z) : gmap string Z :=
  if count_of m host - 1 =? 0 then delete host m else <[host := count_of m host - 1]> m.

Definition drop_count (host : string) (m : gmap string Z) : gmap string Z :=
  if count_of m host - 1 <=? 0 then delete host m else <[host := count_of m host - 1]> m.

Definition begin (a : N) (host : string) (s : hostAdoptions) : hostAdoptions :=
  {| ha_n := <[host := count_of (ha_n s) host + 1]> (ha_n s); ha_waiters := ha_waiters s; ha_idle := ha_idle s;
     ha_closed := ha_closed s; ha_next := ha_next s; ha_running := <[a := host]> (ha_running s); ha_calls := ha_calls s |}.

(** [end] *)
Definition end_ (a : N) (host : string) (s : hostAdoptions) : hostAdoptions :=
  let last := count_of (ha_n s) host - 1 <=? 0 in
  {| ha_n := drop_count host (ha_n s); ha_waiters := ha_waiters s;
     ha_idle := if last then delete host (ha_idle s) else ha_idle s;
     ha_closed := if last then match ha_idle s !! host with Some ch => {[ch]} ∪ ha_closed s | None => ha_closed s end
                  else ha_closed s;
     ha_next := ha_next s; ha_running := delete a (ha_running s); ha_calls := ha_calls s |}.

Definition inFlight (host : string) (s : hostAdoptions) : bool := 0 <? count_of (ha_n s) host.

Definition call (w : N) (p : wait_phase) (s : hostAdoptions) : hostAdoptions :=
  {| ha_n := ha_n s; ha_waiters := ha_waiters s; ha_idle := ha_idle s; ha_closed := ha_closed s; ha_next := ha_next s;
     ha_running := ha_running s; ha_calls := <[w := p]> (ha_calls s) |}.

(** [wait] up to its select. *)
Definition wait (w : N) (host : string) (maxWait : Z) (s : hostAdoptions) : hostAdoptions :=
  if count_of (ha_n s) host =? 0 then call w (Answered true) s
  else if strictWaitersPerHost <=? count_of (ha_waiters s) host then call w (Answered false) s
  else if maxWait <? strictMinWait then call w (Answered false) s
  else
    let waiters := <[host := count_of (ha_waiters s) host + 1]> (ha_waiters s) in
    match ha_idle s !! host with
    | Some ch =>
        {| ha_n := ha_n s; ha_waiters := waiters; ha_idle := ha_idle s; ha_closed := ha_closed s; ha_next := ha_next s;
           ha_running := ha_running s; ha_calls := <[w := Blocked host ch]> (ha_calls s) |}
    | None =>
        {| ha_n := ha_n s; ha_waiters := waiters; ha_idle := <[host := ha_next s]> (ha_idle s); ha_closed := ha_closed s;
           ha_next := N.succ (ha_next s); ha_running := ha_running s;
           ha_calls := <[w := Blocked host (ha_next s)]> (ha_calls s) |}
    end.

(** The deferred function. *)
Definition leave (w : N) (host : string) (answer : bool) (s : hostAdoptions) : hostAdoptions :=
  {| ha_n := ha_n s; ha_waiters := drop_waiter host (ha_waiters s); ha_idle := ha_idle s; ha_closed := ha_closed s;
     ha_next := ha_next s; ha_running := ha_running s; ha_calls := <[w := Answered answer]> (ha_calls s) |}.

(** How long a request that began [elapsed] ago may wait. *)
Definition WaitHostAdoptions (elapsed : Z) : Z := Z.min strictWait (strictRequestBudget - elapsed).

Inductive wait_step (s : hostAdoptions) : hostAdoptions → Prop :=
| ws_begin a host : ha_running s !! a = None → wait_step s (begin a host s)
| ws_end a host : ha_running s !! a = Some host → wait_step s (end_ a host s)
| ws_wait w host elapsed : ha_calls s !! w = None → wait_step s (wait w host (WaitHostAdoptions elapsed) s)
| ws_idle w host ch : ha_calls s !! w = Some (Blocked host ch) → ch ∈ ha_closed s →
    wait_step s (call w (Leaving host true) s)
| ws_timer w host ch : ha_calls s !! w = Some (Blocked host ch) → wait_step s (call w (Leaving host true) s)
| ws_done w host ch : ha_calls s !! w = Some (Blocked host ch) → wait_step s (call w (Leaving host false) s)
| ws_leave w host b : ha_calls s !! w = Some (Leaving host b) → wait_step s (leave w host b s).

Definition wait_reachable : hostAdoptions → Prop := rtc wait_step newHostAdoptions.

(** *** The invariant *)

Definition runs_on (host : string) (_ : N) (h : string) : bool := String.eqb h host.

Definition waits_on (host : string) (_ : N) (p : wait_phase) : bool :=
  match p with Blocked h _ | Leaving h _ => String.eqb h host | Answered _ => false end.

(** [m] counts, and has no zero. *)
Definition counts (m : gmap string Z) (f : string → Z) : Prop :=
  ∀ host, count_of m host = f host ∧ m !! host ≠ Some 0.

Record waits_inv (s : hostAdoptions) : Prop := {
  wi_n : counts (ha_n s) (λ h, count_where (runs_on h) (ha_running s));
  wi_waiters : counts (ha_waiters s) (λ h, count_where (waits_on h) (ha_calls s));
  wi_cap h : count_of (ha_waiters s) h <= strictWaitersPerHost;
  wi_idle h ch : ha_idle s !! h = Some ch → ch ∉ ha_closed s ∧ (ch < ha_next s)%N ∧ 0 < count_of (ha_n s) h;
  wi_inj h h' ch : ha_idle s !! h = Some ch → ha_idle s !! h' = Some ch → h = h';
  wi_closed ch : ch ∈ ha_closed s → (ch < ha_next s)%N;
  wi_blocked w h ch : ha_calls s !! w = Some (Blocked h ch) → ha_idle s !! h = Some ch ∨ ch ∈ ha_closed s }.

Lemma counts_insert (m : gmap string Z) f g host d :
  counts m f → 0 < f host + d → (∀ h, g h = f h + (if String.eqb host h then d else 0)) →
  counts (<[host := count_of m host + d]> m) g.
Proof.
  intros Hm Hd Hg h. rewrite Hg. unfold count_of. destruct (String.eqb_spec host h) as [->|Hne].
  - rewrite !lookup_insert_eq. simpl. destruct (Hm h) as [Hc _]. unfold count_of in Hc. split; [lia|].
    intros [= Heq]. lia.
  - rewrite lookup_insert_ne by done. destruct (Hm h) as [Hc Hz]. unfold count_of in Hc. split; [lia|done].
Qed.

Lemma counts_drop (m : gmap string Z) f g host :
  counts m f → 0 < f host → (∀ h, g h = f h - (if String.eqb host h then 1 else 0)) → counts (drop_count host m) g.
Proof.
  intros Hm Hpos Hg. unfold drop_count. destruct (Hm host) as [Hc _].
  destruct (Z.leb_spec (count_of m host - 1) 0) as [Hle|Hgt].
  - intros h. rewrite Hg. destruct (String.eqb_spec host h) as [->|Hne].
    + unfold count_of at 1. rewrite lookup_delete_eq. simpl. split; [lia|done].
    + unfold count_of. rewrite lookup_delete_ne by done. destruct (Hm h) as [Hc' Hz]. unfold count_of in Hc'. split; [lia|done].
  - replace (count_of m host - 1) with (count_of m host + -1) by lia. apply (counts_insert m f); [done|lia|].
    intros h. rewrite Hg. destruct (String.eqb host h); lia.
Qed.

Lemma drop_waiter_count host m : 0 < count_of m host → drop_waiter host m = drop_count host m.
Proof.
  intros Hpos. unfold drop_waiter, drop_count.
  destruct (Z.eqb_spec (count_of m host - 1) 0), (Z.leb_spec (count_of m host - 1) 0); try done; lia.
Qed.

Lemma waits_inv_new : waits_inv newHostAdoptions.
Proof.
  assert (∀ f : string → Z, (∀ h, f h = 0) → counts ∅ f) as Hc by (intros f Hf h; by rewrite Hf).
  split; simpl; intros *; try done; try apply Hc; try (intros h; apply count_where_empty).
Qed.

(** A call that moves on from the select, or that returns without it. *)
Lemma call_inv s w p host :
  waits_inv s → (∀ h ch, p ≠ Blocked h ch) →
  (ha_calls s !! w = None ∧ (∃ b, p = Answered b) ∨
   (∃ ch, ha_calls s !! w = Some (Blocked host ch)) ∧ (∃ b, p = Leaving host b)) →
  waits_inv (call w p s).
Proof.
  intros [H1 H2 H3 H4 Hinj H5 H6] Hnb Hp. split; simpl; try done.
  - intros h. destruct (H2 h) as [Hc Hz]. split; [|done]. rewrite Hc.
    destruct Hp as [[Hw [b ->]]|[[ch Hw] [b ->]]].
    + rewrite count_where_insert_new by done. simpl. lia.
    + rewrite (count_where_insert _ _ _ _ _ Hw). simpl. destruct (String.eqb host h); simpl; lia.
  - intros w' h ch [[<- Heq]|[Hne Hq]]%lookup_insert_Some; [by destruct (Hnb h ch)|by eapply H6].
Qed.

Lemma wait_inv s w host maxWait : waits_inv s → ha_calls s !! w = None → waits_inv (wait w host maxWait s).
Proof.
  intros Hinv Hw. assert (∀ b, waits_inv (call w (Answered b) s)) as Hret.
  { intros b. apply (call_inv s w _ host); [done|done|]. left. eauto. }
  unfold wait. destruct (Z.eqb_spec (count_of (ha_n s) host) 0) as [|Hn]; [done|].
  destruct (Z.leb_spec strictWaitersPerHost (count_of (ha_waiters s) host)) as [|Hcap]; [done|].
  destruct (maxWait <? strictMinWait); [done|]. pose proof Hinv as [H1 H2 H3 H4 Hinj H5 H6].
  assert (∀ ch h, count_where (waits_on h) (<[w := Blocked host ch]> (ha_calls s))
            = count_where (waits_on h) (ha_calls s) + (if String.eqb host h then 1 else 0)) as Hcount.
  { intros ch h. rewrite count_where_insert_new by done. simpl. by destruct (String.eqb host h). }
  assert (0 <= count_where (waits_on host) (ha_calls s)) as Hpos by apply count_where_nonneg.
  assert (∀ ch, counts (<[host := count_of (ha_waiters s) host + 1]> (ha_waiters s))
            (λ h, count_where (waits_on h) (<[w := Blocked host ch]> (ha_calls s)))) as Hcounts.
  { intros ch. eapply counts_insert; [exact H2|cbn; lia|]. intros h. apply Hcount. }
  assert (∀ h, count_of (<[host := count_of (ha_waiters s) host + 1]> (ha_waiters s)) h <= strictWaitersPerHost) as Hbound.
  { intros h. unfold count_of at 1. destruct (decide (host = h)) as [->|Hne].
    - rewrite lookup_insert_eq. simpl. lia.
    - rewrite lookup_insert_ne by done. apply H3. }
  assert (0 < count_of (ha_n s) host) as Hrun.
  { destruct (H1 host) as [Hc _]. assert (0 <= count_where (runs_on host) (ha_running s)) by apply count_where_nonneg. lia. }
  destruct (ha_idle s !! host) as [ch|] eqn:Hi; split; simpl; try done.
  - intros w' h c [[<- [= <- <-]]|[Hne Hq]]%lookup_insert_Some; [by left|by eapply H6].
  - intros h c [[<- <-]|[Hne Hq]]%lookup_insert_Some.
    + split_and!; [intros Hc%H5; lia|lia|done].
    + destruct (H4 h c Hq) as (? & ? & ?). split_and!; [done|lia|done].
  - intros h h' c [[<- <-]|[Hne Hh]]%lookup_insert_Some [[<- Heq]|[Hne' Hh']]%lookup_insert_Some; try done.
    + destruct (H4 h' _ Hh') as (_ & ? & _). lia.
    + subst c. destruct (H4 h _ Hh) as (_ & ? & _). lia.
    + by eapply Hinj.
  - intros c Hc%H5. lia.
  - intros w' h c [[<- [= <- <-]]|[Hne Hq]]%lookup_insert_Some; [left; by rewrite lookup_insert_eq|].
    destruct (H6 w' h c Hq) as [Hq'|]; [left|by right]. rewrite lookup_insert_ne; [done|congruence].
Qed.

Lemma end_inv s a host : waits_inv s → ha_running s !! a = Some host → waits_inv (end_ a host s).
Proof.
  intros [H1 H2 H3 H4 Hinj H5 H6] Ha.
  assert (∀ h, count_where (runs_on h) (delete a (ha_running s))
            = count_where (runs_on h) (ha_running s) - (if String.eqb host h then 1 else 0)) as Hcount.
  { intros h. rewrite (count_where_delete (runs_on h) (ha_running s) a host Ha). change (runs_on h a host) with (String.eqb host h).
    destruct (String.eqb host h); simpl; lia. }
  assert (0 < count_where (runs_on host) (ha_running s)) as Hpos.
  { apply count_where_pos, exists_where_true. exists a, host. split; [done|]. apply String.eqb_refl. }
  destruct (H1 host) as [Hc _]. cbn in Hc.
  assert (counts (drop_count host (ha_n s)) (λ h, count_where (runs_on h) (delete a (ha_running s)))) as Hdrop.
  { eapply counts_drop; [exact H1|done|]. intros h. apply Hcount. }
  unfold end_. destruct (Z.leb_spec (count_of (ha_n s) host - 1) 0) as [Hle|Hgt]; split; simpl; try done.
  - intros h ch [Hne Hq]%lookup_delete_Some. destruct (H4 h ch Hq) as (Hcl & Hlt & Hn). split_and!; [|done|].
    + destruct (ha_idle s !! host) as [ch0|] eqn:Hi; [|done].
      intros [->%elem_of_singleton|?]%elem_of_union; [|done]. by apply Hne, (Hinj host h ch0).
    + destruct (Hdrop h) as [-> _]. rewrite Hcount. destruct (H1 h) as [Hch _]. cbn in Hch.
      destruct (String.eqb_spec host h); [done|lia].
  - intros h h' ch [_ Hh]%lookup_delete_Some [_ Hh']%lookup_delete_Some. by eapply Hinj.
  - intros ch. destruct (ha_idle s !! host) as [ch0|] eqn:Hi; [|apply H5].
    intros [->%elem_of_singleton|?]%elem_of_union; [by eapply H4|by apply H5].
  - intros w h ch Hw. destruct (H6 w h ch Hw) as [Hq|Hq].
    + destruct (decide (h = host)) as [->|Hne]; [right; rewrite Hq; set_solver|left]. by rewrite lookup_delete_ne.
    + right. destruct (ha_idle s !! host); set_solver.
  - intros h ch Hq. destruct (H4 h ch Hq) as (? & ? & ?). split_and!; [done|done|].
    destruct (Hdrop h) as [-> _]. rewrite Hcount. destruct (H1 h) as [Hch _]. cbn in Hch.
    destruct (String.eqb_spec host h) as [->|]; lia.
Qed.

Lemma leave_inv s w host b : waits_inv s → ha_calls s !! w = Some (Leaving host b) → waits_inv (leave w host b s).
Proof.
  intros [H1 H2 H3 H4 Hinj H5 H6] Hw.
  assert (∀ h, count_where (waits_on h) (<[w := Answered b]> (ha_calls s))
            = count_where (waits_on h) (ha_calls s) - (if String.eqb host h then 1 else 0)) as Hcount.
  { intros h. rewrite (count_where_insert _ _ _ _ _ Hw). simpl. destruct (String.eqb host h); simpl; lia. }
  assert (0 < count_where (waits_on host) (ha_calls s)) as Hpos.
  { apply count_where_pos, exists_where_true. exists w, (Leaving host b). split; [done|]. apply String.eqb_refl. }
  destruct (H2 host) as [Hc _]. cbn in Hc.
  assert (counts (drop_waiter host (ha_waiters s)) (λ h, count_where (waits_on h) (<[w := Answered b]> (ha_calls s)))) as Hdrop.
  { rewrite drop_waiter_count by lia. eapply counts_drop; [exact H2|done|]. intros h. apply Hcount. }
  split; simpl; try done.
  - intros h. destruct (Hdrop h) as [-> _]. rewrite Hcount. destruct (H2 h) as [Hch _]. cbn in Hch. specialize (H3 h).
    destruct (String.eqb host h); lia.
  - intros w' h ch [[<- Heq]|[Hne Hq]]%lookup_insert_Some; [done|by eapply H6].
Qed.

Lemma begin_inv s a host : waits_inv s → ha_running s !! a = None → waits_inv (begin a host s).
Proof.
  intros [H1 H2 H3 H4 Hinj H5 H6] Ha. assert (0 <= count_where (runs_on host) (ha_running s)) by apply count_where_nonneg.
  assert (counts (<[host := count_of (ha_n s) host + 1]> (ha_n s))
            (λ h, count_where (runs_on h) (<[a := host]> (ha_running s)))) as Hn.
  { eapply counts_insert; [exact H1|cbn; lia|]. intros h. cbn. rewrite count_where_insert_new by done. unfold runs_on at 2.
    by destruct (String.eqb host h). }
  split; simpl; try done. intros h ch Hq. destruct (H4 h ch Hq) as (? & ? & Hpos). split_and!; [done|done|].
  destruct (decide (host = h)) as [->|Hne].
  - unfold count_of at 1. rewrite lookup_insert_eq. simpl. lia.
  - unfold count_of. by rewrite lookup_insert_ne.
Qed.

Lemma wait_step_inv s s' : wait_step s s' → waits_inv s → waits_inv s'.
Proof.
  intros [a host Ha|a host Ha|w host e Hw|w host ch Hw Hc|w host ch Hw|w host ch Hw|w host b Hw] Hinv.
  - by apply begin_inv.
  - by apply end_inv.
  - by apply wait_inv.
  - apply (call_inv s w _ host); [done|done|]. right. eauto.
  - apply (call_inv s w _ host); [done|done|]. right. eauto.
  - apply (call_inv s w _ host); [done|done|]. right. eauto.
  - by apply leave_inv.
Qed.

Lemma wait_reachable_inv s : wait_reachable s → waits_inv s.
Proof.
  intros Hr. cut (waits_inv newHostAdoptions); [|apply waits_inv_new].
  induction Hr as [|s1 s2 s3 Hs _ IH]; [done|]. eauto using wait_step_inv.
Qed.

(** Whatever begins, ends, waits, times out and leaves: the count of a
    host is the number of its adoptions between begin and end, no host has
    more than [strictWaitersPerHost] waiters, the maps keep no entry for a
    host without adoptions or waiters, and no wake-up is lost: a waiter whose
    host has no adoption left finds its channel closed. *)
Theorem adoption_waits s :
  wait_reachable s →
  ∀ host,
    count_of (ha_n s) host = count_where (runs_on host) (ha_running s) ∧
    (inFlight host s = true ↔ ∃ a, ha_running s !! a = Some host) ∧
    count_of (ha_waiters s) host = count_where (waits_on host) (ha_calls s) ∧
    count_where (waits_on host) (ha_calls s) <= strictWaitersPerHost ∧
    ((∀ a, ha_running s !! a ≠ Some host) →
       ha_n s !! host = None ∧ ha_idle s !! host = None ∧
       ∀ w ch, ha_calls s !! w = Some (Blocked host ch) → ch ∈ ha_closed s).
Proof.
  intros [H1 H2 H3 H4 Hinj H5 H6]%wait_reachable_inv host.
  destruct (H1 host) as [Hn Hz]. destruct (H2 host) as [Hw _]. cbn in Hn, Hw.
  assert (0 < count_of (ha_n s) host ↔ ∃ a, ha_running s !! a = Some host) as Hrun.
  { rewrite Hn, count_where_pos, exists_where_true. split.
    - intros (a & h & Ha & ->%String.eqb_eq). eauto.
    - intros [a Ha]. exists a, host. split; [done|apply String.eqb_refl]. }
  split; [done|]. split; [unfold inFlight; by rewrite Z.ltb_lt|]. split; [done|]. split; [rewrite <-Hw; apply H3|].
  intros Hnone. assert (count_of (ha_n s) host = 0) as H0.
  { assert (0 <= count_where (runs_on host) (ha_running s)) by apply count_where_nonneg.
    assert (¬ 0 < count_of (ha_n s) host); [|lia]. rewrite Hrun. by intros [a Ha%Hnone]. }
  assert (ha_idle s !! host = None) as Hidle.
  { destruct (ha_idle s !! host) as [ch|] eqn:Hi; [|done]. destruct (H4 host ch Hi) as (_ & _ & ?). lia. }
  split_and!; [|done|].
  - unfold count_of in H0. destruct (ha_n s !! host) as [n|] eqn:E; [|done]. simpl in H0. subst. done.
  - intros w ch Hb. destruct (H6 w host ch Hb); [congruence|done].
Qed.

(** ** Concrete runs *)

(** One goroutine holds the suite, a second is turned away, the first drops
    its entry, and a third holds the suite of the new entry while the first
    has yet to unlock. *)
Definition recreated : Locks :=
  let s := LoadOrStore 1 "k" newLocks in
  let s := revalidate 1 "k" 0 (TryLock 1 "k" 0 s) in
  let s := TryLock 2 "k" 0 (LoadOrStore 2 "k" s) in
  let s := dropEntry 1 "k" 0 s in
  let s := LoadOrStore 3 "k" s in
  revalidate 3 "k" 1 (TryLock 3 "k" 1 s).

Lemma recreated_reachable : lock_reachable recreated.
Proof.
  unfold lock_reachable, recreated.
  eapply rtc_r; [|apply (ls_validate _ 3 "k" 1); vm_compute; reflexivity].
  eapply rtc_r; [|apply (ls_try _ 3 "k" 1); vm_compute; reflexivity].
  eapply rtc_r; [|apply (ls_load _ 3 "k"); vm_compute; reflexivity].
  eapply rtc_r; [|apply (ls_drop _ 1 "k" 0); vm_compute; reflexivity].
  eapply rtc_r; [|apply (ls_try _ 2 "k" 0); vm_compute; reflexivity].
  eapply rtc_r; [|apply (ls_load _ 2 "k"); vm_compute; reflexivity].
  eapply rtc_r; [|apply (ls_validate _ 1 "k" 0); vm_compute; reflexivity].
  eapply rtc_r; [|apply (ls_try _ 1 "k" 0); vm_compute; reflexivity].
  eapply rtc_r; [|apply (ls_load _ 1 "k"); vm_compute; reflexivity].
  apply rtc_refl.
Qed.

Lemma suite_lock_exclusive_witness :
  lk_procs recreated !! 3%N = Some (Held "k" 1) ∧ lk_procs recreated !! 1%N = Some (Dropped "k" 0) ∧
  lk_map recreated !! "k" = Some 1%N.
Proof.
  assert (lk_procs recreated !! 3%N = Some (Held "k" 1)) as H3 by (vm_compute; reflexivity).
  split; [exact H3|]. split; [vm_compute; reflexivity|].
  exact (proj2 (proj2 (proj1 (suite_lock_exclusive recreated recreated_reachable) "k" 3%N 3%N 1%N 1%N H3 H3))).
Defined.

(** A waiter of a host with one adoption, which then ends. *)
Definition waited : hostAdoptions := end_ 7 "h" (wait 1 "h" (WaitHostAdoptions 0) (begin 7 "h" newHostAdoptions)).

Lemma waited_reachable : wait_reachable waited.
Proof.
  unfold wait_reachable, waited.
  eapply rtc_r; [|apply ws_end; vm_compute; reflexivity].
  eapply rtc_r; [|apply ws_wait; vm_compute; reflexivity].
  eapply rtc_r; [|apply ws_begin; vm_compute; reflexivity].
  apply rtc_refl.
Qed.

Lemma adoption_waits_witness :
  ha_calls waited !! 1%N = Some (Blocked "h" 0) ∧ 0%N ∈ ha_closed waited.
Proof.
  assert (ha_calls waited !! 1%N = Some (Blocked "h" 0)) as Hw by (vm_compute; reflexivity).
  split; [exact Hw|].
  assert (∀ a, ha_running waited !! a ≠ Some "h") as Hnone.
  { assert (ha_running waited = ∅) as -> by (vm_compute; reflexivity). intros a. rewrite lookup_empty. discriminate. }
  destruct (adoption_waits waited waited_reachable "h") as (_ & _ & _ & _ & Hend).
  apply (proj2 (proj2 (Hend Hnone)) 1%N 0%N Hw).
Defined.
