(* ===== verification/SingleFlight.v ===== *)
(** * Coalesced fetches ([internal/handler/singleflight.go])

    Callers of [Do] with the same key share one run of the function.  A call
    is shared by pointer, so calls live in a store and the group's map holds
    their addresses; each step of a goroutine is one critical section, the
    function's end, or the return of [wg.Wait]. *)
From S2P Require Import Prelude Maps.
Local Open Scope Z_scope.

Inductive sf_error := errSFLeaderPanicked | fetch_error (msg : string).

Record sfResult := {
  sf_blobHash : string; sf_size : Z; sf_status : Z; sf_err : option sf_error;
  sf_validatedHash : bool; sf_packageName : string; sf_suiteTracked : bool;
  sf_unproven : bool; sf_vouchingSuites : list string; sf_created : bool;
  sf_snapshotCount : Z; sf_lastModified : string }.

(** [sfResult{err: errSFLeaderPanicked}] *)
Definition panicked_result : sfResult :=
  {| sf_blobHash := ""; sf_size := 0; sf_status := 0; sf_err := Some errSFLeaderPanicked;
     sf_validatedHash := false; sf_packageName := ""; sf_suiteTracked := false;
     sf_unproven := false; sf_vouchingSuites := []; sf_created := false;
     sf_snapshotCount := 0; sf_lastModified := "" |}.

(** A call: its result once [wg.Done] ran, and how many joined it. *)
Record sfCall := { c_res : option sfResult; c_waiters : Z }.

Inductive goroutine :=
| Leading (key : string) (c : N)                       (* running fn *)
| Finishing (key : string) (c : N) (panicking : bool)  (* done signalled, key not deleted *)
| WaitingOn (key : string) (c : N)                     (* in wg.Wait *)
| Returned (key : string) (c : N) (r : sfResult) (shared : bool) (waiters : Z)
| Panicked (key : string) (c : N).

Record sfGroup := {
  calls : gmap string N;
  heap : gmap N sfCall;
  next : N;
  gos : gmap N goroutine }.

Definition newSFGroup : sfGroup := {| calls := ∅; heap := ∅; next := 0; gos := ∅ |}.

Definition set_go (t : N) (g : goroutine) (s : sfGroup) : sfGroup :=
  {| calls := calls s; heap := heap s; next := next s; gos := <[t := g]> (gos s) |}.

Definition upd_call (c : N) (f : sfCall → sfCall) (s : sfGroup) : sfGroup :=
  {| calls := calls s; heap := alter f c (heap s); next := next s; gos := gos s |}.

Definition add_waiter (x : sfCall) : sfCall :=
  {| c_res := c_res x; c_waiters := c_waiters x + 1 |}.
Definition set_res (r : sfResult) (x : sfCall) : sfCall :=
  {| c_res := Some r; c_waiters := c_waiters x |}.

(** [Do], up to the run of fn or the wait. *)
Definition Do (t : N) (key : string) (s : sfGroup) : sfGroup :=
  match calls s !! key with
  | Some c => set_go t (WaitingOn key c) (upd_call c add_waiter s)
  | None =>
      {| calls := <[key := next s]> (calls s);
         heap := <[next s := {| c_res := None; c_waiters := 0 |}]> (heap s);
         next := N.succ (next s); gos := <[t := Leading key (next s)]> (gos s) |}
  end.

(** fn returned [r], or panicked and the deferred function completes the
    call: the result, then [wg.Done]. *)
Definition complete (t : N) (key : string) (c : N) (r : option sfResult) (s : sfGroup) : sfGroup :=
  set_go t (Finishing key c (bool_decide (r = None)))
    (upd_call c (set_res (default panicked_result r)) s).

(** The leader deletes the key and reads its joiners. *)
Definition finish (t : N) (key : string) (c : N) (panicking : bool) (s : sfGroup) : sfGroup :=
  {| calls := delete key (calls s); heap := heap s; next := next s;
     gos := <[t := if panicking then Panicked key c
                   else match heap s !! c with
                        | Some x => Returned key c (default panicked_result (c_res x)) false (c_waiters x)
                        | None => Panicked key c
                        end]> (gos s) |}.

Definition receive (t : N) (key : string) (c : N) (r : sfResult) (s : sfGroup) : sfGroup :=
  set_go t (Returned key c r true 0) s.

Definition answer_of (s : sfGroup) (c : N) : option sfResult := x ← heap s !! c; c_res x.

Inductive sf_step (s : sfGroup) : sfGroup → Prop :=
| sf_do t key : gos s !! t = None → sf_step s (Do t key s)
| sf_complete t key c r : gos s !! t = Some (Leading key c) → sf_step s (complete t key c r s)
| sf_finish t key c p : gos s !! t = Some (Finishing key c p) → sf_step s (finish t key c p s)
| sf_receive t key c r : gos s !! t = Some (WaitingOn key c) → answer_of s c = Some r →
    sf_step s (receive t key c r s).

Definition sf_reachable : sfGroup → Prop := rtc sf_step newSFGroup.

(** ** Roles *)

(** The goroutine owns the key's entry in the map. *)
Definition leads (g : goroutine) : option (string * N) :=
  match g with
  | Leading k c | Finishing k c _ => Some (k, c)
  | _ => None
  end.

(** Joined an existing call. *)
Definition joined (c : N) (_ : N) (g : goroutine) : bool :=
  match g with
  | WaitingOn _ i => (i =? c)%N
  | Returned _ i _ true _ => (i =? c)%N
  | _ => false
  end.

Definition go_call (g : goroutine) : N :=
  match g with
  | Leading _ c | Finishing _ c _ | WaitingOn _ c | Returned _ c _ _ _ | Panicked _ c => c
  end.

Definition go_key (g : goroutine) : string :=
  match g with
  | Leading k _ | Finishing k _ _ | WaitingOn k _ | Returned k _ _ _ _ | Panicked k _ => k
  end.

(** A leader that is through. *)
Definition ended (g : goroutine) : bool :=
  match g with Returned _ _ _ false _ | Panicked _ _ => true | _ => false end.

(** What a goroutine's phase says of its call's result. *)
Definition phase_ok (g : goroutine) (x : sfCall) : Prop :=
  match g with
  | Leading _ _ => c_res x = None
  | Finishing _ _ p => ∃ r, c_res x = Some r ∧ (p = true → r = panicked_result)
  | WaitingOn _ _ => True
  | Returned _ _ r shared w => c_res x = Some r ∧ (shared = false → w = c_waiters x)
  | Panicked _ _ => c_res x = Some panicked_result
  end.

Record sf_inv (s : sfGroup) : Prop := {
  sv_heap : ∀ c x, heap s !! c = Some x →
    (c < next s)%N ∧ c_waiters x = count_where (joined c) (gos s);
  sv_go : ∀ t g, gos s !! t = Some g → ∃ x, heap s !! go_call g = Some x ∧ phase_ok g x;
  sv_lead : ∀ t g k c, gos s !! t = Some g → leads g = Some (k, c) → calls s !! k = Some c;
  sv_calls : ∀ k c, calls s !! k = Some c → ∃ t g, gos s !! t = Some g ∧ leads g = Some (k, c);
  sv_one : ∀ t t' g g' c k k', gos s !! t = Some g → gos s !! t' = Some g' →
    leads g = Some (k, c) → leads g' = Some (k', c) → t = t';
  (** Only a call still in the map can be joined or lack a result. *)
  sv_open : ∀ c x, heap s !! c = Some x → c_res x = None →
    ∃ t k, gos s !! t = Some (Leading k c);
  sv_same : ∀ t t' g g', gos s !! t = Some g → gos s !! t' = Some g' →
    go_call g = go_call g' → go_key g = go_key g';
  sv_closed : ∀ t g k, gos s !! t = Some g → ended g = true → calls s !! k ≠ Some (go_call g) }.

Section sf_laws.

Lemma inv_new : sf_inv newSFGroup.
Proof. split; simpl; intros; simplify_map_eq. Qed.

Lemma leads_call g k c : leads g = Some (k, c) → go_call g = c ∧ go_key g = k ∧ ended g = false.
Proof. by destruct g; intros [= <- <-]. Qed.

Lemma call_bound s t g : sf_inv s → gos s !! t = Some g → (go_call g < next s)%N.
Proof.
  intros Hinv Ht. destruct (sv_go s Hinv t g Ht) as (x & Hx & _).
  by destruct (sv_heap s Hinv _ x Hx).
Qed.

Lemma inv_lead t key s :
  sf_inv s → gos s !! t = None → calls s !! key = None → sf_inv (Do t key s).
Proof.
  intros Hinv Ht Hk. pose proof Hinv as [H1 H2 H3 H4 H5 H6 H7 H8]. unfold Do. rewrite Hk.
  assert (∀ t' g, gos s !! t' = Some g → go_call g ≠ next s) as Hfresh.
  { intros t' g Hg. pose proof (call_bound s t' g Hinv Hg). lia. }
  assert (∀ k c, calls s !! k = Some c → c ≠ next s) as Hfresh'.
  { intros k c Hc. destruct (H4 k c Hc) as (t' & g & Hg & Hl).
    apply leads_call in Hl as [<- _]. by eapply Hfresh. }
  split; simpl.
  - intros c x [[<- <-]|[Hne Hx]]%lookup_insert_Some; rewrite count_where_insert_new by done; simpl.
    + split; [lia|]. rewrite (count_where_ext _ (λ _ _, false)); [by rewrite count_where_none|].
      intros t' g Hg. pose proof (Hfresh t' g Hg) as Hn. destruct g as [| | |? ? ? []|]; simpl in *;
        try done; by apply N.eqb_neq.
    + destruct (H1 c x Hx) as [? ->]. split; lia.
  - intros t' g [[<- <-]|[_ Hg]]%lookup_insert_Some; simpl.
    + eexists. by rewrite lookup_insert_eq.
    + destruct (H2 t' g Hg) as (x & Hx & Hok). exists x.
      rewrite lookup_insert_ne; [done|]. by apply not_eq_sym, (Hfresh t').
  - intros t' g k c [[<- <-]|[_ Hg]]%lookup_insert_Some Hl.
    + simpl in Hl. simplify_eq. by rewrite lookup_insert_eq.
    + pose proof (H3 t' g k c Hg Hl). rewrite lookup_insert_ne; [done|congruence].
  - intros k c [[<- <-]|[Hne Hc]]%lookup_insert_Some.
    + exists t, (Leading key (next s)). by rewrite lookup_insert_eq.
    + destruct (H4 k c Hc) as (t' & g & Hg & Hl). exists t', g.
      rewrite lookup_insert_ne; [done|congruence].
  - intros t1 t2 g1 g2 c k1 k2 [[<- <-]|[_ Hg1]]%lookup_insert_Some
      [[<- <-]|[_ Hg2]]%lookup_insert_Some Hl1 Hl2; try done.
    + simpl in Hl1. simplify_eq. apply leads_call in Hl2 as [E _]. by destruct (Hfresh _ _ Hg2).
    + simpl in Hl2. simplify_eq. apply leads_call in Hl1 as [E _]. by destruct (Hfresh _ _ Hg1).
    + by eapply (H5 t1 t2 g1 g2).
  - intros c x [[<- <-]|[Hne Hx]]%lookup_insert_Some Hnone.
    + exists t, key. by rewrite lookup_insert_eq.
    + destruct (H6 c x Hx Hnone) as (t' & k & Hg). exists t', k.
      rewrite lookup_insert_ne; [done|congruence].
  - intros t1 t2 g1 g2 [[<- <-]|[_ Hg1]]%lookup_insert_Some
      [[<- <-]|[_ Hg2]]%lookup_insert_Some E; try done; simpl in E.
    + by destruct (Hfresh _ _ Hg2).
    + by destruct (Hfresh _ _ Hg1).
    + by eapply H7.
  - intros t' g k [[<- <-]|[_ Hg]]%lookup_insert_Some He; [done|].
    intros [[<- E]|[_ Hc]]%lookup_insert_Some; [by destruct (Hfresh _ _ Hg)|].
    by eapply H8.
Qed.

(** Facts about the phases with one of them replaced. *)
Lemma join_inv t key c s :
  sf_inv s → gos s !! t = None → calls s !! key = Some c → sf_inv (Do t key s).
Proof.
  intros Hinv Ht Hk. pose proof Hinv as [H1 H2 H3 H4 H5 H6 H7 H8]. unfold Do. rewrite Hk.
  destruct (H4 key c Hk) as (tl & gl & Hgl & Hl).
  destruct (leads_call _ _ _ Hl) as (Hcl & Hkl & _).
  split; simpl.
  - intros c' x' Hx'. rewrite count_where_insert_new by done. simpl.
    destruct (decide (c' = c)) as [->|Hne].
    + rewrite lookup_alter_eq in Hx'. apply fmap_Some in Hx' as (x & Hx & ->).
      destruct (H1 c x Hx) as [? Hw]. rewrite N.eqb_refl. simpl. lia.
    + rewrite lookup_alter_ne in Hx' by done. destruct (H1 c' x' Hx') as [? Hw].
      destruct (N.eqb_spec c c'); [congruence|]. simpl. lia.
  - intros t' g [[<- <-]|[_ Hg]]%lookup_insert_Some; simpl.
    + destruct (H2 tl gl Hgl) as (x & Hx & _). rewrite Hcl in Hx.
      exists (add_waiter x). by rewrite lookup_alter_eq, Hx.
    + destruct (H2 t' g Hg) as (x & Hx & Hok). destruct (decide (go_call g = c)) as [E|Hne].
      * exists (add_waiter x). rewrite E in *. rewrite lookup_alter_eq, Hx. split; [done|].
        destruct g as [| | |? ? ? []|]; simpl in *; try done; [split; [apply Hok|done]|].
        exfalso. apply (H8 t' _ key Hg); [done|]. simpl. congruence.
      * exists x. by rewrite lookup_alter_ne.
  - intros t' g k c' [[<- <-]|[_ Hg]]%lookup_insert_Some Hl'; [done|]. by eapply H3.
  - intros k c' Hc. destruct (H4 k c' Hc) as (t' & g & Hg & Hl'). exists t', g.
    rewrite lookup_insert_ne; [done|congruence].
  - intros t1 t2 g1 g2 c' k1 k2 [[<- <-]|[_ Hg1]]%lookup_insert_Some
      [[<- <-]|[_ Hg2]]%lookup_insert_Some Hl1 Hl2; try done. by eapply (H5 t1 t2 g1 g2).
  - intros c' x' Hx' Hnone. assert (∃ x, heap s !! c' = Some x ∧ c_res x = None) as (x & Hx & Hn).
    { destruct (decide (c' = c)) as [->|Hne].
      - rewrite lookup_alter_eq in Hx'. apply fmap_Some in Hx' as (x & Hx & ->). by exists x.
      - rewrite lookup_alter_ne in Hx' by done. by exists x'. }
    destruct (H6 c' x Hx Hn) as (t' & k & Hg). exists t', k. rewrite lookup_insert_ne; [done|congruence].
  - intros t1 t2 g1 g2 [[<- <-]|[_ Hg1]]%lookup_insert_Some
      [[<- <-]|[_ Hg2]]%lookup_insert_Some E; try done; simpl in *.
    + rewrite <-Hkl. apply (H7 tl t2 gl g2); congruence.
    + rewrite <-Hkl. apply (H7 t1 tl g1 gl); congruence.
    + by eapply H7.
  - intros t' g k [[<- <-]|[_ Hg]]%lookup_insert_Some He; [done|]. by eapply H8.
Qed.

(** A goroutine that does not join or lead anew takes its next phase, and its
    call keeps its answer. *)
Lemma phase_inv t g g' s (cs : gmap string N) :
  sf_inv s → gos s !! t = Some g → go_call g' = go_call g → go_key g' = go_key g →
  (∀ c, joined c t g' = joined c t g) →
  (∀ x, heap s !! go_call g = Some x → phase_ok g' x) →
  (∀ k c, g ≠ Leading k c) →
  (leads g' = leads g ∧ cs = calls s ∧ ended g' = ended g ∨
   leads g = Some (go_key g, go_call g) ∧ leads g' = None ∧ cs = delete (go_key g) (calls s)) →
  sf_inv {| calls := cs; heap := heap s; next := next s; gos := <[t := g']> (gos s) |}.
Proof.
  intros Hinv Ht Hc Hk Hj Hok Hnl Hmap. pose proof Hinv as [H1 H2 H3 H4 H5 H6 H7 H8].
  assert (∀ k c, cs !! k = Some c → calls s !! k = Some c) as Hsub.
  { intros k c. destruct Hmap as [(_ & -> & _)|(_ & _ & ->)]; [done|]. by intros [_ ?]%lookup_delete_Some. }
  assert (∀ k c, leads g' = Some (k, c) → leads g = Some (k, c)) as Hlead.
  { intros k c. destruct Hmap as [(-> & _)|(_ & -> & _)]; done. }
  split; simpl.
  - intros c x Hx. rewrite (count_where_insert _ _ _ g g') by done. rewrite Hj.
    destruct (H1 c x Hx). split; [done|lia].
  - intros t' q [[<- <-]|[_ Hg]]%lookup_insert_Some; [|by apply (H2 t')].
    destruct (H2 t g Ht) as (x & Hx & _). exists x. rewrite Hc. split; [done|]. by apply Hok.
  - intros t' q k c Hq Hl.
    assert (∃ q0, gos s !! t' = Some q0 ∧ leads q0 = Some (k, c)) as (q0 & Hq0 & Hl0).
    { apply lookup_insert_Some in Hq as [[<- <-]|[_ Hq]]; eauto. }
    pose proof (H3 t' q0 k c Hq0 Hl0) as Hcall.
    destruct Hmap as [(_ & -> & _)|(Hlg & Hlg' & ->)]; [done|]. rewrite lookup_delete_ne; [done|].
    intros <-. pose proof (H3 t g _ _ Ht Hlg) as Hcg. assert (go_call g = c) as <- by congruence.
    assert (t = t') as <- by (by eapply H5). rewrite lookup_insert_eq in Hq. congruence.
  - intros k c Hkc. destruct (H4 k c (Hsub k c Hkc)) as (t' & q & Hq & Hl).
    destruct (decide (t = t')) as [<-|Hne].
    + exists t, g'. rewrite lookup_insert_eq. split; [done|]. simplify_eq.
      destruct Hmap as [(-> & _)|(Hlg & _ & ->)]; [done|]. rewrite Hl in Hlg.
      injection Hlg as E1 E2. rewrite <-E1, lookup_delete_eq in Hkc. done.
    + exists t', q. by rewrite lookup_insert_ne.
  - intros t1 t2 g1 g2 c k1 k2 Hg1 Hg2 Hl1 Hl2.
    apply lookup_insert_Some in Hg1 as [[<- <-]|[_ Hg1]];
      apply lookup_insert_Some in Hg2 as [[<- <-]|[_ Hg2]]; try done;
      try apply Hlead in Hl1; try apply Hlead in Hl2; by eapply H5.
  - intros c x Hx Hnone. destruct (H6 c x Hx Hnone) as (t' & k & Hg). exists t', k.
    rewrite lookup_insert_ne; [done|]. intros <-. rewrite Ht in Hg. injection Hg as ->. by eapply Hnl.
  - intros t1 t2 g1 g2 Hg1 Hg2 E.
    apply lookup_insert_Some in Hg1 as [[<- <-]|[_ Hg1]];
      apply lookup_insert_Some in Hg2 as [[<- <-]|[_ Hg2]]; try done; rewrite ?Hk, ?Hc in *;
      by eapply H7.
  - intros t' q k [[<- <-]|[_ Hg]]%lookup_insert_Some He Hcall; [|by eapply H8; eauto].
    rewrite Hc in Hcall.
    destruct Hmap as [(_ & -> & Hend)|(Hlg & Hlg' & ->)].
    + rewrite Hend in He. by eapply H8.
    + apply lookup_delete_Some in Hcall as [Hne Hcall].
      destruct (H4 k _ Hcall) as (t2 & g2 & Hg2 & Hl2).
      assert (t = t2) as <- by (by eapply H5). congruence.
Qed.

Lemma complete_inv t key c r s :
  sf_inv s → gos s !! t = Some (Leading key c) → sf_inv (complete t key c r s).
Proof.
  intros Hinv Ht. pose proof Hinv as [H1 H2 H3 H4 H5 H6 H7 H8].
  set (ans := default panicked_result r).
  assert (∀ c' x', alter (set_res ans) c (heap s) !! c' = Some x' →
    ∃ x, heap s !! c' = Some x ∧ c_waiters x' = c_waiters x ∧
         (c' = c ∧ c_res x' = Some ans ∨ c' ≠ c ∧ x' = x)) as Hheap.
  { intros c' x' Hx'. destruct (decide (c' = c)) as [->|Hne].
    - rewrite lookup_alter_eq in Hx'. apply fmap_Some in Hx' as (x & Hx & ->). exists x. by auto.
    - rewrite lookup_alter_ne in Hx' by done. exists x'. auto. }
  split; simpl.
  - intros c' x' Hx'. destruct (Hheap c' x' Hx') as (x & Hx & -> & _).
    rewrite (count_where_insert _ _ _ (Leading key c)) by done. destruct (H1 c' x Hx).
    simpl. split; [done|lia].
  - intros t' g [[<- <-]|[Hne Hg]]%lookup_insert_Some; simpl.
    + destruct (H2 t _ Ht) as (x & Hx & _). exists (set_res ans x). simpl in Hx.
      rewrite lookup_alter_eq, Hx. split; [done|]. exists ans. split; [done|].
      intros ->%bool_decide_eq_true. done.
    + destruct (H2 t' g Hg) as (x & Hx & Hok). destruct (decide (go_call g = c)) as [E|Hnc].
      * exists (set_res ans x). rewrite E in *. rewrite lookup_alter_eq, Hx. split; [done|].
        destruct (H2 t _ Ht) as (x0 & Hx0 & Hn). simpl in Hx0, Hn. assert (x0 = x) as -> by congruence.
        destruct g as [k' c'|k' c' p|k' c'|k' c' r' sh w|k' c']; simpl in *; subst; try done.
        -- destruct Hne. by eapply (H5 t t' (Leading key c) (Leading k' c)).
        -- destruct Hok as (? & ? & _). congruence.
        -- destruct Hok as (? & _). congruence.
        -- congruence.
      * exists x. by rewrite lookup_alter_ne.
  - intros t' g k c' [[<- <-]|[_ Hg]]%lookup_insert_Some Hl; [|by eapply H3].
    simpl in Hl. simplify_eq. by apply (H3 t (Leading k c')).
  - intros k c' Hc. destruct (H4 k c' Hc) as (t' & g & Hg & Hl).
    destruct (decide (t = t')) as [<-|Hne].
    + simplify_eq. simpl in Hl. simplify_eq. eexists t, _. by rewrite lookup_insert_eq.
    + exists t', g. by rewrite lookup_insert_ne.
  - intros t1 t2 g1 g2 c' k1 k2 [[<- <-]|[_ Hg1]]%lookup_insert_Some
      [[<- <-]|[_ Hg2]]%lookup_insert_Some Hl1 Hl2; simpl in *; try done; simplify_eq.
    + by eapply (H5 t t2 (Leading k1 c') g2).
    + by eapply (H5 t1 t g1 (Leading k2 c')).
    + by eapply H5.
  - intros c' x' Hx' Hnone. destruct (Hheap c' x' Hx') as (x & Hx & _ & [[-> E]|[Hne ->]]); [congruence|].
    destruct (H6 c' x Hx Hnone) as (t' & k & Hg). exists t', k. rewrite lookup_insert_ne; [done|].
    intros <-. congruence.
  - intros t1 t2 g1 g2 [[<- <-]|[_ Hg1]]%lookup_insert_Some
      [[<- <-]|[_ Hg2]]%lookup_insert_Some E; simpl in *; try done.
    + by apply (H7 t t2 (Leading key c) g2).
    + by apply (H7 t1 t g1 (Leading key c)).
    + by eapply H7.
  - intros t' g k [[<- <-]|[_ Hg]]%lookup_insert_Some He; [done|]. by eapply H8.
Qed.

Lemma inv_sf_step s s' : sf_step s s' → sf_inv s → sf_inv s'.
Proof.
  destruct 1 as [t key Ht|t key c r Ht|t key c p Ht|t key c r Ht Hr]; intros Hinv.
  - destruct (calls s !! key) as [c|] eqn:Hk; [by eapply join_inv|by apply inv_lead].
  - by apply complete_inv.
  - destruct (sv_go s Hinv t _ Ht) as (x & Hx & r & Hr & Hp). simpl in Hx.
    unfold finish. rewrite Hx, Hr.
    apply (phase_inv t (Finishing key c p)); try done.
    + by destruct p.
    + by destruct p.
    + by destruct p.
    + intros x' Hx'. simpl in Hx'. rewrite Hx in Hx'. injection Hx' as <-.
      destruct p; simpl; [by rewrite Hr, Hp|by rewrite Hr].
    + right. simpl. by destruct p.
  - unfold receive, set_go. apply (phase_inv t (WaitingOn key c)); try done.
    + intros x Hx. simpl in *. unfold answer_of in Hr. rewrite Hx in Hr. done.
    + by left.
Qed.

Lemma sf_reachable_inv s : sf_reachable s → sf_inv s.
Proof.
  intros Hr. cut (sf_inv newSFGroup); [|apply inv_new].
  induction Hr as [|s1 s2 s3 Hs _ IH]; [done|]. eauto using inv_sf_step.
Qed.
End sf_laws.

Section sf_props.

(** C38. Coalescing.  In every interleaving at most one goroutine runs the
    function for a key at a time; every goroutine of one call returns the same
    result, the waiters the very one the leader's run produced, and a leader
    that panicked leaves its waiters the panic error; and the count of joiners
    the leader reports is exact: nobody joins a call once its leader has
    returned. *)
Theorem SingleFlight_coalesces s :
  sf_reachable s →
  (∀ t t' k c c', gos s !! t = Some (Leading k c) → gos s !! t' = Some (Leading k c') → t = t') ∧
  (∀ t t' k k' c r r' sh sh' w w', gos s !! t = Some (Returned k c r sh w) →
     gos s !! t' = Some (Returned k' c r' sh' w') → r = r' ∧ k = k') ∧
  (∀ t t' k k' c r sh w, gos s !! t = Some (Panicked k c) →
     gos s !! t' = Some (Returned k' c r sh w) → r = panicked_result) ∧
  (∀ t k c r w, gos s !! t = Some (Returned k c r false w) → w = count_where (joined c) (gos s)).
Proof.
  intros Hr. pose proof (sf_reachable_inv s Hr) as [H1 H2 H3 H4 H5 H6 H7 H8]. split_and!.
  - intros t t' k c c' Ht Ht'. pose proof (H3 t _ k c Ht eq_refl). pose proof (H3 t' _ k c' Ht' eq_refl).
    assert (c = c') as <- by congruence. by eapply H5.
  - intros t t' k k' c r r' sh sh' w w' Ht Ht'.
    destruct (H2 t _ Ht) as (x & Hx & Hn & _), (H2 t' _ Ht') as (x' & Hx' & Hn' & _).
    simpl in *. split; [congruence|]. by apply (H7 t t' _ _ Ht Ht').
  - intros t t' k k' c r sh w Ht Ht'.
    destruct (H2 t _ Ht) as (x & Hx & Hn), (H2 t' _ Ht') as (x' & Hx' & Hn' & _).
    simpl in *. congruence.
  - intros t k c r w Ht. destruct (H2 t _ Ht) as (x & Hx & _ & Hw). simpl in *.
    rewrite (Hw eq_refl). by apply H1.
Qed.

(** What remains to happen once no function is running. *)
Inductive settle (s : sfGroup) : sfGroup → Prop :=
| settle_finish t key c p : gos s !! t = Some (Finishing key c p) → settle s (finish t key c p s)
| settle_receive t key c r : gos s !! t = Some (WaitingOn key c) → answer_of s c = Some r →
    settle s (receive t key c r s).

Definition pending (_ : N) (g : goroutine) : bool :=
  match g with Finishing _ _ _ | WaitingOn _ _ => true | _ => false end.
Definition running (_ : N) (g : goroutine) : bool :=
  match g with Leading _ _ => true | _ => false end.

Lemma settle_step s s' : settle s s' → sf_step s s'.
Proof. destruct 1; by econstructor. Qed.

Lemma settle_less s s' :
  settle s s' → sf_inv s → count_where pending (gos s') = count_where pending (gos s) - 1 ∧
  (count_where running (gos s) = 0 → count_where running (gos s') = 0).
Proof.
  destruct 1 as [t key c p Ht|t key c r Ht _]; intros Hinv; simpl;
    rewrite !(count_where_insert _ _ _ _ _ Ht); simpl; [|split; lia].
  destruct (sv_go s Hinv t _ Ht) as (x & Hx & _). simpl in Hx. rewrite Hx.
  destruct p; simpl; split; lia.
Qed.

Lemma answered s t key c :
  sf_inv s → gos s !! t = Some (WaitingOn key c) →
  (∃ r, answer_of s c = Some r) ∨ ∃ t', gos s !! t' = Some (Leading key c).
Proof.
  intros [H1 H2 H3 H4 H5 H6 H7 H8] Ht. destruct (H2 t _ Ht) as (x & Hx & _). simpl in Hx.
  unfold answer_of. rewrite Hx. simpl. destruct (c_res x) as [r|] eqn:Hr; [left; by exists r|].
  right. destruct (H6 c x Hx Hr) as (t' & k & Hg). exists t'.
  pose proof (H7 t t' _ _ Ht Hg eq_refl) as E. simpl in E. by subst k.
Qed.

(** No waiter is stranded, whether the leader's function returns or
    panics: a waiter's call has its result, or its leader is still running for
    the same key; and once no function runs, every goroutine gets its answer
    in finitely many steps, after which the group holds no key. *)
Theorem SingleFlight_progress s :
  sf_reachable s →
  (∀ t key c, gos s !! t = Some (WaitingOn key c) →
     (∃ r, answer_of s c = Some r) ∨ ∃ t', gos s !! t' = Some (Leading key c)) ∧
  ((∀ t key c, gos s !! t ≠ Some (Leading key c)) →
   ∃ s', rtc settle s s' ∧ calls s' = ∅ ∧
     ∀ t g, gos s' !! t = Some g → match g with Returned _ _ _ _ _ | Panicked _ _ => True
                                   | _ => False end).
Proof.
  intros Hr. split; [intros t key c; apply answered; by apply sf_reachable_inv|].
  intros Hno. assert (count_where running (gos s) = 0) as Hrun.
  { rewrite (count_where_ext _ (λ _ _, false)); [apply count_where_none|].
    intros t [] Hg; try done. by destruct (Hno _ _ _ Hg). }
  clear Hno. remember (Z.to_nat (count_where pending (gos s))) as n eqn:En.
  revert s Hr Hrun En. induction n as [|n IH]; intros s Hr Hrun En;
    pose proof (sf_reachable_inv s Hr) as Hinv.
  - exists s. split; [done|].
    assert (∀ t g, gos s !! t = Some g → pending t g = false ∧ running t g = false) as Hq.
    { intros t g Hg. split; apply not_true_iff_false; intros Hp.
      - assert (0 < count_where pending (gos s)); [|lia].
        apply count_where_pos, exists_where_true. eauto.
      - assert (0 < count_where running (gos s)); [|lia].
        apply count_where_pos, exists_where_true. eauto. }
    split.
    + apply map_empty. intros k. destruct (calls s !! k) as [c|] eqn:Hc; [|done].
      destruct (sv_calls s Hinv k c Hc) as (t & g & Hg & Hl). destruct (Hq t g Hg). by destruct g.
    + intros t g Hg. destruct (Hq t g Hg). by destruct g.
  - assert (∃ s1, settle s s1) as (s1 & Hs).
    { assert (exists_where pending (gos s) = true) as (t & g & Hg & Hp)%exists_where_true.
      { apply count_where_pos. lia. }
      destruct g as [|key c p|key c| |]; try done.
      - eexists. by apply (settle_finish s t).
      - destruct (answered s t key c Hinv Hg) as [[r Ha]|[t' Ht']].
        + eexists. by apply (settle_receive s t key c r).
        + assert (0 < count_where running (gos s)); [|lia].
          apply count_where_pos, exists_where_true. by exists t', (Leading key c). }
    destruct (settle_less s s1 Hs Hinv) as [Hp Hr1].
    destruct (IH s1) as (s' & Hs' & ?); [| |lia|].
    + eapply rtc_r; [exact Hr|]. by apply settle_step.
    + by apply Hr1.
    + exists s'. split; [|done]. by eapply rtc_l.
Qed.
End sf_props.

(** ** Two requests of one file *)

Definition fetched : sfResult :=
  {| sf_blobHash := "ab"; sf_size := 2; sf_status := 200; sf_err := None;
     sf_validatedHash := false; sf_packageName := ""; sf_suiteTracked := true;
     sf_unproven := false; sf_vouchingSuites := []; sf_created := false;
     sf_snapshotCount := 0; sf_lastModified := "" |}.

Definition shared_run : sfGroup :=
  receive 2 "k" 0 fetched (finish 1 "k" 0 false
    (complete 1 "k" 0 (Some fetched) (Do 2 "k" (Do 1 "k" newSFGroup)))).

Example shared_run_result :
  (gos shared_run !! 1%N, gos shared_run !! 2%N)
  = (Some (Returned "k" 0 fetched false 1), Some (Returned "k" 0 fetched true 0)).
Proof. vm_compute. reflexivity. Qed.

Lemma shared_run_reachable : sf_reachable shared_run.
Proof.
  eapply rtc_l; [by apply (sf_do _ 1 "k")|]. eapply rtc_l; [by apply (sf_do _ 2 "k")|].
  eapply rtc_l; [by apply (sf_complete _ 1 "k" 0 (Some fetched))|].
  eapply rtc_l; [by apply (sf_finish _ 1 "k" 0 false)|].
  eapply rtc_l; [by apply (sf_receive _ 2 "k" 0 fetched)|]. apply rtc_refl.
Qed.

Lemma SingleFlight_coalesces_witness :
  1 = count_where (joined 0) (gos shared_run).
Proof.
  destruct (SingleFlight_coalesces shared_run shared_run_reachable) as (_ & _ & _ & H).
  apply (H 1%N "k" 0%N fetched 1). vm_compute. reflexivity.
Defined.

(** A panicking leader, its waiter still to be woken. *)
Definition panicking : sfGroup := complete 1 "k" 0 None (Do 2 "k" (Do 1 "k" newSFGroup)).

Lemma SingleFlight_progress_witness :
  (∃ r, answer_of panicking 0 = Some r) ∧ ∃ s', rtc settle panicking s' ∧ calls s' = ∅.
Proof.
  assert (sf_reachable panicking) as Hr.
  { eapply rtc_l; [by apply (sf_do _ 1 "k")|]. eapply rtc_l; [by apply (sf_do _ 2 "k")|].
    eapply rtc_l; [by apply (sf_complete _ 1 "k" 0 None)|]. apply rtc_refl. }
  destruct (SingleFlight_progress panicking Hr) as [_ H]. split.
  - exists panicked_result. vm_compute. reflexivity.
  - destruct H as (s' & Hs & Hc & _).
    + intros t key c Hl.
      assert (count_where running (gos panicking) = 0) as E by (vm_compute; reflexivity).
      assert (0 < count_where running (gos panicking)) as E'; [|rewrite E in E'; discriminate E'].
      apply count_where_pos, exists_where_true. exists t, (Leading key c). exact (conj Hl eq_refl).
    + exists s'. exact (conj Hs Hc).
Defined.
