(* ===== verification/FlipGate.v ===== *)
(** * The flip barrier ([internal/flipgate/gate.go])

    A commit of a new snapshot waits until the clients that hold the old
    anchor had time to fetch its indexes: phase A waits for natural quiet, then
    the flip takes the process-wide hold token, and phase B holds new anchor
    requests until it commits.  Entries, holds, waiters and tokens are shared
    by pointer in the code, so they have addresses here; a step is one section
    under the gate's mutex, at a clock that never goes back - a round of phase A's
    loop and [acquire]'s first section are two steps, and so are a round of phase
    B's loop that finds the bound passed and [expireHold].  Times are in
    nanoseconds; [None] is Go's zero time. *)
From S2P Require Import Prelude Maps.
Local Open Scope Z_scope.

(** ** Constants *)

Definition Second : Z := 1000000000.
Definition MinQuiet : Z := Second.
Definition MaxQuiet : Z := 15 * Second.
Definition PhaseAMax : Z := 60 * Second.
Definition TokenWaitMax : Z := 60 * Second.
Definition HoldMax : Z := 20 * Second.
Definition CommitMargin : Z := 5 * Second.
Definition AnchorTimeout : Z := 30 * Second.
Definition MaxWaiters : Z := 256.

(** ** State *)

Record entry := {
  inflight : gmap N Z;          (* serves in flight, with their start *)
  lastDone : option Z;
  e_hold : option N;
  e_flips : Z;
  lastUse : Z }.

Record hold := {
  h_e : N; h_start : Z; h_end : option Z; h_waiting : Z; h_heldTotal : Z; h_expired : bool }.

Record tokenWaiter := { w_e : N; w_hold : option N }.

Inductive Outcome :=
| OutcomeDisabled | OutcomeHeld | OutcomeHoldExpired | OutcomeHoldSkipped | OutcomeAborted
| OutcomeQuietCutShort.

(** A call of [AnchorStart] and its serve. *)
Inductive anchor :=
| AWaiting (e h : N) (joined : Z)
| AServing (e : N) (start : Z)
| ADone.

(** A call of [Flip]: phase A, past its loop, waiting for the token, given up on it,
    phase B, found its bound passed, past phase B's loop, running the commit, past
    the hold's end, done. *)
Inductive flip :=
| FPhaseA (e : N) (start : Z)
| FPassed (e : N)
| FAsked (e : N) (asked : Z)
| FUnheld (e : N)
| FHolding (e h : N)
| FExpiring (e h : N)
| FReady (e h : N) (o : Outcome)
| FCommitting (e : N) (h : option N) (o : Outcome)
| FLeaving (e : N) (o : Outcome)
| FEnded (o : Outcome).

Record Gate := {
  quiet : Z;
  entries : gmap string N;
  e_heap : gmap N entry;
  holds : gmap N hold;
  waiters : gmap N tokenWaiter;
  holder : option N;
  queue : list N;
  lastEnd : option Z;
  lastEndBy : option N;
  prevEnd : option Z;
  lastSweep : option Z;
  closed : bool;
  anchors : gmap N anchor;
  flips : gmap N flip;
  fresh : N;
  clock : Z }.

(** [New] accepts a quiet period of zero or within its bounds. *)
Definition quiet_ok (q : Z) : bool := (q =? 0) || (MinQuiet <=? q) && (q <=? MaxQuiet).

Definition New (q now : Z) : option Gate :=
  if quiet_ok q then
    Some {| quiet := q; entries := ∅; e_heap := ∅; holds := ∅; waiters := ∅; holder := None;
            queue := []; lastEnd := None; lastEndBy := None; prevEnd := None; lastSweep := None;
            closed := false; anchors := ∅; flips := ∅; fresh := 0; clock := now |}
  else None.

Definition Enabled (g : Gate) : bool := 0 <? quiet g.

(** ** Record updates *)

Section updates.
Implicit Types g : Gate.

Definition set_entries m g :=
  {| quiet := quiet g; entries := m; e_heap := e_heap g; holds := holds g; waiters := waiters g;
     holder := holder g; queue := queue g; lastEnd := lastEnd g; lastEndBy := lastEndBy g;
     prevEnd := prevEnd g; lastSweep := lastSweep g; closed := closed g; anchors := anchors g;
     flips := flips g; fresh := fresh g; clock := clock g |}.
Definition upd_e (e : N) (f : entry → entry) g :=
  {| quiet := quiet g; entries := entries g; e_heap := alter f e (e_heap g); holds := holds g;
     waiters := waiters g; holder := holder g; queue := queue g; lastEnd := lastEnd g;
     lastEndBy := lastEndBy g; prevEnd := prevEnd g; lastSweep := lastSweep g;
     closed := closed g; anchors := anchors g; flips := flips g; fresh := fresh g;
     clock := clock g |}.
Definition new_e (key : string) (x : entry) g :=
  {| quiet := quiet g; entries := <[key := fresh g]> (entries g);
     e_heap := <[fresh g := x]> (e_heap g); holds := holds g; waiters := waiters g;
     holder := holder g; queue := queue g; lastEnd := lastEnd g; lastEndBy := lastEndBy g;
     prevEnd := prevEnd g; lastSweep := lastSweep g; closed := closed g; anchors := anchors g;
     flips := flips g; fresh := N.succ (fresh g); clock := clock g |}.
Definition upd_h (h : N) (f : hold → hold) g :=
  {| quiet := quiet g; entries := entries g; e_heap := e_heap g; holds := alter f h (holds g);
     waiters := waiters g; holder := holder g; queue := queue g; lastEnd := lastEnd g;
     lastEndBy := lastEndBy g; prevEnd := prevEnd g; lastSweep := lastSweep g;
     closed := closed g; anchors := anchors g; flips := flips g; fresh := fresh g;
     clock := clock g |}.
Definition new_h (x : hold) g :=
  {| quiet := quiet g; entries := entries g; e_heap := e_heap g;
     holds := <[fresh g := x]> (holds g); waiters := waiters g; holder := Some (fresh g);
     queue := queue g; lastEnd := lastEnd g; lastEndBy := lastEndBy g; prevEnd := prevEnd g;
     lastSweep := lastSweep g; closed := closed g; anchors := anchors g; flips := flips g;
     fresh := N.succ (fresh g); clock := clock g |}.
Definition set_waiters (m : gmap N tokenWaiter) (q : list N) g :=
  {| quiet := quiet g; entries := entries g; e_heap := e_heap g; holds := holds g;
     waiters := m; holder := holder g; queue := q; lastEnd := lastEnd g;
     lastEndBy := lastEndBy g; prevEnd := prevEnd g; lastSweep := lastSweep g;
     closed := closed g; anchors := anchors g; flips := flips g; fresh := fresh g;
     clock := clock g |}.
Definition set_holder (h : option N) g :=
  {| quiet := quiet g; entries := entries g; e_heap := e_heap g; holds := holds g;
     waiters := waiters g; holder := h; queue := queue g; lastEnd := lastEnd g;
     lastEndBy := lastEndBy g; prevEnd := prevEnd g; lastSweep := lastSweep g;
     closed := closed g; anchors := anchors g; flips := flips g; fresh := fresh g;
     clock := clock g |}.
Definition set_ends (l : option Z) (by_ : option N) (p : option Z) g :=
  {| quiet := quiet g; entries := entries g; e_heap := e_heap g; holds := holds g;
     waiters := waiters g; holder := holder g; queue := queue g; lastEnd := l;
     lastEndBy := by_; prevEnd := p; lastSweep := lastSweep g; closed := closed g;
     anchors := anchors g; flips := flips g; fresh := fresh g; clock := clock g |}.
Definition set_sweep (t : Z) g :=
  {| quiet := quiet g; entries := entries g; e_heap := e_heap g; holds := holds g;
     waiters := waiters g; holder := holder g; queue := queue g; lastEnd := lastEnd g;
     lastEndBy := lastEndBy g; prevEnd := prevEnd g; lastSweep := Some t; closed := closed g;
     anchors := anchors g; flips := flips g; fresh := fresh g; clock := clock g |}.
Definition set_closed g :=
  {| quiet := quiet g; entries := entries g; e_heap := e_heap g; holds := holds g;
     waiters := waiters g; holder := holder g; queue := queue g; lastEnd := lastEnd g;
     lastEndBy := lastEndBy g; prevEnd := prevEnd g; lastSweep := lastSweep g; closed := true;
     anchors := anchors g; flips := flips g; fresh := fresh g; clock := clock g |}.
Definition set_anchor (a : N) (x : anchor) g :=
  {| quiet := quiet g; entries := entries g; e_heap := e_heap g; holds := holds g;
     waiters := waiters g; holder := holder g; queue := queue g; lastEnd := lastEnd g;
     lastEndBy := lastEndBy g; prevEnd := prevEnd g; lastSweep := lastSweep g;
     closed := closed g; anchors := <[a := x]> (anchors g); flips := flips g; fresh := fresh g;
     clock := clock g |}.
Definition set_flip (f : N) (x : flip) g :=
  {| quiet := quiet g; entries := entries g; e_heap := e_heap g; holds := holds g;
     waiters := waiters g; holder := holder g; queue := queue g; lastEnd := lastEnd g;
     lastEndBy := lastEndBy g; prevEnd := prevEnd g; lastSweep := lastSweep g;
     closed := closed g; anchors := anchors g; flips := <[f := x]> (flips g); fresh := fresh g;
     clock := clock g |}.
Definition tick (now : Z) g :=
  {| quiet := quiet g; entries := entries g; e_heap := e_heap g; holds := holds g;
     waiters := waiters g; holder := holder g; queue := queue g; lastEnd := lastEnd g;
     lastEndBy := lastEndBy g; prevEnd := prevEnd g; lastSweep := lastSweep g;
     closed := closed g; anchors := anchors g; flips := flips g; fresh := fresh g;
     clock := now |}.
End updates.

(** ** Conditions *)

Definition liveLocked (x : entry) (now q : Z) : bool :=
  (0 <? e_flips x) || bool_decide (is_Some (e_hold x)) || negb (bool_decide (inflight x = ∅))
  || (now - lastUse x <? q).

(** Since the zero time every period has passed. *)
Definition within (now : Z) (t : option Z) (q : Z) : bool :=
  match t with Some t => now - t <? q | None => false end.

(** The youngest serve that is not yet given up. *)
Definition youngest (x : entry) (now : Z) : option Z :=
  map_fold (λ _ start acc,
      if now - start <? AnchorTimeout
      then match acc with Some y => Some (Z.max y start) | None => Some start end
      else acc) None (inflight x).

Definition localQuietLocked (x : entry) (now q : Z) : bool * option Z :=
  match youngest x now with
  | Some y => (false, Some (y + AnchorTimeout))
  | None => if within now (lastDone x) q then (false, (λ t, t + q) <$> lastDone x)
            else (true, None)
  end.

Definition holdsQuietLocked (g : Gate) (now : Z) : bool * option Z :=
  match holder g with
  | Some _ => (false, None)
  | None => if within now (lastEnd g) (quiet g) then (false, (λ t, t + quiet g) <$> lastEnd g)
            else (true, None)
  end.

(** The most recent end of a hold of another entry. *)
Definition other_end (g : Gate) (e : N) : option Z :=
  if bool_decide (lastEndBy g = Some e) then prevEnd g else lastEnd g.

Definition otherHoldsQuietLocked (g : Gate) (e : N) (now : Z) : bool * option Z :=
  if within now (other_end g e) (quiet g) then (false, (λ t, t + quiet g) <$> other_end g e)
  else (true, None).

Definition earliest (a b : option Z) : option Z :=
  match a, b with
  | None, _ => b
  | Some _, None => a
  | Some x, Some y => if x <? y then a else b
  end.

(** ** Sections under the mutex *)

Definition touch (now : Z) (x : entry) : entry :=
  {| inflight := inflight x; lastDone := lastDone x; e_hold := e_hold x; e_flips := e_flips x;
     lastUse := now |}.
Definition put_hold (h : option N) (x : entry) : entry :=
  {| inflight := inflight x; lastDone := lastDone x; e_hold := h; e_flips := e_flips x;
     lastUse := lastUse x |}.
Definition add_flips (n : Z) (x : entry) : entry :=
  {| inflight := inflight x; lastDone := lastDone x; e_hold := e_hold x;
     e_flips := e_flips x + n; lastUse := lastUse x |}.
Definition add_inflight (a : N) (now : Z) (x : entry) : entry :=
  {| inflight := <[a := now]> (inflight x); lastDone := lastDone x; e_hold := e_hold x;
     e_flips := e_flips x; lastUse := now |}.
Definition add_waiting (n held : Z) (x : hold) : hold :=
  {| h_e := h_e x; h_start := h_start x; h_end := h_end x; h_waiting := h_waiting x + n;
     h_heldTotal := h_heldTotal x + held; h_expired := h_expired x |}.

Definition sweepLocked (now : Z) (g : Gate) : Gate :=
  if within now (lastSweep g) (quiet g) then g
  else set_sweep now (set_entries (delete_where (λ _ e,
         match e_heap g !! e with
         | Some x => negb (liveLocked x now (quiet g)) && (2 * quiet g <=? now - lastUse x)
         | None => false
         end) (entries g)) g).

Definition entryLocked (key : string) (now : Z) (g : Gate) : N * Gate :=
  let g := sweepLocked now g in
  match entries g !! key with
  | Some e => (e, upd_e e (touch now) g)
  | None => (fresh g, new_e key {| inflight := ∅; lastDone := None; e_hold := None; e_flips := 0;
                                   lastUse := now |} g)
  end.

Definition startHoldLocked (e : N) (now : Z) (g : Gate) : Gate :=
  upd_e e (put_hold (Some (fresh g)))
    (new_h {| h_e := e; h_start := now; h_end := None; h_waiting := 0; h_heldTotal := 0;
              h_expired := false |} g).

(** The next waiting flip gets the token. *)
Definition grantLocked (now : Z) (g : Gate) : Gate :=
  match queue g with
  | w :: q =>
      match waiters g !! w with
      | Some x =>
          startHoldLocked (w_e x) now
            (set_waiters (<[w := {| w_e := w_e x; w_hold := Some (fresh g) |}]> (waiters g)) q g)
      | None => set_waiters (waiters g) q g
      end
  | [] => g
  end.

Definition end_hold (now : Z) (expired : bool) (x : hold) : hold :=
  {| h_e := h_e x; h_start := h_start x; h_end := Some now; h_waiting := h_waiting x;
     h_heldTotal := h_heldTotal x; h_expired := expired |}.

Definition drop_hold (h : N) (now : Z) (x : entry) : entry :=
  touch now (if bool_decide (e_hold x = Some h) then put_hold None x else x).

Definition endHoldLocked (h : N) (expired : bool) (now : Z) (g : Gate) : Gate :=
  match holds g !! h with
  | Some x =>
      if bool_decide (is_Some (h_end x)) then g
      else
        let g := upd_e (h_e x) (drop_hold h now) (upd_h h (end_hold now expired) g) in
        let g := if 0 <? h_heldTotal x
                 then set_ends (Some now) (Some (h_e x))
                        (if bool_decide (lastEndBy g = Some (h_e x)) then prevEnd g else lastEnd g) g
                 else g in
        if bool_decide (holder g = Some h)
        then let g := set_holder None g in if closed g then g else grantLocked now g
        else g
  | None => g
  end.

(** ** Anchor requests *)

Definition registerLocked (a e : N) (now : Z) (g : Gate) : Gate :=
  set_anchor a (AServing e now) (upd_e e (add_inflight a now) g).

Definition join (a : N) (key : string) (now : Z) (g : Gate) : Gate :=
  let '(e, g) := entryLocked key now g in
  match x ← e_heap g !! e; e_hold x with
  | Some h =>
      match holds g !! h with
      | Some x => if MaxWaiters <=? h_waiting x then registerLocked a e now g
                  else set_anchor a (AWaiting e h now) (upd_h h (add_waiting 1 1) g)
      | None => registerLocked a e now g
      end
  | None => registerLocked a e now g
  end.

(** The hold ended, or its bound since the request joined passed. *)
Definition may_resume (h : N) (joined now : Z) (g : Gate) : bool :=
  match holds g !! h with
  | Some x => bool_decide (is_Some (h_end x)) || (joined + HoldMax <=? now)
  | None => false
  end.

Definition resume (a e h : N) (now : Z) (g : Gate) : Gate :=
  registerLocked a e now (upd_h h (add_waiting (-1) 0) g).

Definition leave (a h : N) (g : Gate) : Gate :=
  set_anchor a ADone (upd_h h (add_waiting (-1) 0) g).

Definition served (a : N) (start now : Z) (x : entry) : entry :=
  let late := AnchorTimeout <=? now - start in
  {| inflight := delete a (inflight x);
     lastDone := if (negb late || negb (bool_decide (is_Some (e_hold x))))
                    && match lastDone x with Some t => t <? now | None => true end
                 then Some now else lastDone x;
     e_hold := e_hold x; e_flips := e_flips x; lastUse := now |}.

Definition TokenDone (a e : N) (start now : Z) (g : Gate) : Gate :=
  set_anchor a ADone (upd_e e (served a start now) g).

(** ** Purge and Close *)

Definition Purge (key : string) (now : Z) (g : Gate) : Gate :=
  match entries g !! key with
  | Some e =>
      match e_heap g !! e with
      | Some x => if liveLocked x now (quiet g) then g else set_entries (delete key (entries g)) g
      | None => g
      end
  | None => g
  end.

Definition Close (now : Z) (g : Gate) : Gate :=
  if closed g then g
  else let g := set_closed g in
       match holder g with Some h => endHoldLocked h false now g | None => g end.

(** ** A flip *)

(** What [Flip] does before the barrier: an ended context aborts, a disabled
    gate commits at once. *)
Definition flip_entry (ctx_ended : bool) (g : Gate) : option Outcome :=
  if ctx_ended then Some OutcomeAborted
  else if negb (Enabled g) then Some OutcomeDisabled
  else None.

Definition begin_flip (f : N) (key : string) (now : Z) (g : Gate) : Gate :=
  let '(e, g) := entryLocked key now g in
  set_flip f (FPhaseA e now) (upd_e e (add_flips 1) g).

Inductive a_decision := APass | AClosed | AWait (until : option Z).

(** One round of phase A's loop. *)
Definition phaseA_round (x : entry) (start now : Z) (g : Gate) : a_decision :=
  let '(okLocal, atLocal) := localQuietLocked x now (quiet g) in
  let '(okHolds, atHolds) := holdsQuietLocked g now in
  if closed g then AClosed
  else if (okLocal && okHolds) || (start + PhaseAMax <=? now) then APass
  else AWait (earliest (earliest atLocal atHolds) (Some (start + PhaseAMax))).

(** [acquire]: the token at once when it is free and nobody waits for it. *)
Definition acquire (f e : N) (now : Z) (g : Gate) : Gate :=
  if closed g then set_flip f (FLeaving e OutcomeAborted) g
  else if negb (bool_decide (is_Some (holder g))) && bool_decide (queue g = [])
  then set_flip f (FHolding e (fresh g)) (startHoldLocked e now g)
  else set_flip f (FAsked e now)
         (set_waiters (<[f := {| w_e := e; w_hold := None |}]> (waiters g)) (queue g ++ [f]) g).

(** [acquire] after its wait timed out: a token granted meanwhile is taken,
    else the waiter leaves the queue. *)
Definition ask_timeout (f e : N) (g : Gate) : Gate :=
  match w ← waiters g !! f; w_hold w with
  | Some h => set_flip f (FHolding e h) g
  | None => set_flip f (FUnheld e)
              (set_waiters (waiters g) (List.filter (λ w, negb (N.eqb w f)) (queue g)) g)
  end.

(** And when its context ended or the gate closed: the token passes on. *)
Definition cancel_ask (f e : N) (now : Z) (g : Gate) : Gate :=
  match w ← waiters g !! f; w_hold w with
  | Some h => set_flip f (FLeaving e OutcomeAborted) (endHoldLocked h false now g)
  | None => set_flip f (FLeaving e OutcomeAborted)
              (set_waiters (waiters g) (List.filter (λ w, negb (N.eqb w f)) (queue g)) g)
  end.

Inductive b_decision := BClosed | BExpire | BCommit (cutShort : bool) | BWait (until : option Z).

(** One round of phase B's loop. *)
Definition phaseB_round (e : N) (x : entry) (start now : Z) (g : Gate) : b_decision :=
  let expiry := start + HoldMax in
  let cut := expiry - CommitMargin in
  let '(okLocal, atLocal) := localQuietLocked x now (quiet g) in
  let '(okOthers, atOthers) := otherHoldsQuietLocked g e now in
  if closed g then BClosed
  else if expiry <=? now then BExpire
  else if okOthers && (okLocal || (cut <=? now)) then BCommit (negb okLocal)
  else BWait (earliest (earliest atLocal atOthers) (Some (if now <? cut then cut else expiry))).

(** The deferred end of [runHold]: a commit that outlasted its bound is
    reported as expired. *)
Definition end_outcome (g : Gate) (h : N) (o : Outcome) : Outcome :=
  match holds g !! h with
  | Some x =>
      if h_expired x then match o with
                          | OutcomeHeld | OutcomeQuietCutShort => OutcomeHoldExpired
                          | o => o
                          end
      else o
  | None => o
  end.

Definition end_run (f e h : N) (o : Outcome) (now : Z) (g : Gate) : Gate :=
  let g := endHoldLocked h false now g in
  set_flip f (FLeaving e (end_outcome g h o)) g.

Definition end_flip (f e : N) (o : Outcome) (now : Z) (g : Gate) : Gate :=
  set_flip f (FEnded o) (upd_e e (λ x, touch now (add_flips (-1) x)) g).

(** ** Steps

    The clock of a step is not before the last one's.  A context may end at
    any time; [err] says that it has. *)
Inductive gate_step (g : Gate) : Gate → Prop :=
| gs_tick now : clock g <= now → gate_step g (tick now g)
| gs_join a key : anchors g !! a = None → Enabled g = true → gate_step g (join a key (clock g) g)
| gs_resume a e h j : anchors g !! a = Some (AWaiting e h j) → may_resume h j (clock g) g = true →
    gate_step g (resume a e h (clock g) g)
| gs_leave a e h j : anchors g !! a = Some (AWaiting e h j) → gate_step g (leave a h g)
| gs_done a e s : anchors g !! a = Some (AServing e s) →
    gate_step g (TokenDone a e s (clock g) g)
| gs_purge key : gate_step g (Purge key (clock g) g)
| gs_close : Enabled g = true → gate_step g (Close (clock g) g)
| gs_begin f key : flips g !! f = None → flip_entry false g = None →
    gate_step g (begin_flip f key (clock g) g)
| gs_phaseA f e s x : flips g !! f = Some (FPhaseA e s) → e_heap g !! e = Some x →
    phaseA_round x s (clock g) g = APass → gate_step g (set_flip f (FPassed e) g)
| gs_acquire f e x : flips g !! f = Some (FPassed e) → e_heap g !! e = Some x →
    gate_step g (acquire f e (clock g) g)
| gs_abortA f e s (err : bool) : flips g !! f = Some (FPhaseA e s) → closed g || err = true →
    gate_step g (set_flip f (FLeaving e OutcomeAborted) g)
| gs_granted f e t h : flips g !! f = Some (FAsked e t) →
    (w ← waiters g !! f; w_hold w) = Some h → gate_step g (set_flip f (FHolding e h) g)
| gs_ask_timeout f e t : flips g !! f = Some (FAsked e t) → t + TokenWaitMax <= clock g →
    gate_step g (ask_timeout f e g)
| gs_cancel_ask f e t (err : bool) : flips g !! f = Some (FAsked e t) → closed g || err = true →
    gate_step g (cancel_ask f e (clock g) g)
| gs_unheld f e : flips g !! f = Some (FUnheld e) → closed g = false →
    gate_step g (set_flip f (FCommitting e None OutcomeHoldSkipped) g)
| gs_abort_unheld f e (err : bool) : flips g !! f = Some (FUnheld e) → closed g || err = true →
    gate_step g (set_flip f (FLeaving e OutcomeAborted) g)
| gs_ready f e h x y c : flips g !! f = Some (FHolding e h) → e_heap g !! e = Some x →
    holds g !! h = Some y → phaseB_round e x (h_start y) (clock g) g = BCommit c →
    gate_step g (set_flip f (FReady e h (if c then OutcomeQuietCutShort else OutcomeHeld)) g)
| gs_expire f e h x y : flips g !! f = Some (FHolding e h) → e_heap g !! e = Some x →
    holds g !! h = Some y → phaseB_round e x (h_start y) (clock g) g = BExpire →
    gate_step g (set_flip f (FExpiring e h) g)
| gs_expired f e h : flips g !! f = Some (FExpiring e h) →
    gate_step g (set_flip f (FReady e h OutcomeHoldExpired) (endHoldLocked h true (clock g) g))
| gs_abortB f e h (err : bool) : flips g !! f = Some (FHolding e h) → closed g || err = true →
    gate_step g (end_run f e h OutcomeAborted (clock g) g)
| gs_commit f e h o : flips g !! f = Some (FReady e h o) → closed g = false →
    gate_step g (set_flip f (FCommitting e (Some h) o) g)
| gs_abort_ready f e h o (err : bool) : flips g !! f = Some (FReady e h o) → closed g || err = true →
    gate_step g (end_run f e h OutcomeAborted (clock g) g)
| gs_timer f e h o y : flips g !! f = Some (FCommitting e (Some h) o) → holds g !! h = Some y →
    h_start y + HoldMax <= clock g → gate_step g (endHoldLocked h true (clock g) g)
| gs_end_unheld f e o : flips g !! f = Some (FCommitting e None o) →
    gate_step g (set_flip f (FLeaving e o) g)
| gs_end_hold f e h o : flips g !! f = Some (FCommitting e (Some h) o) →
    gate_step g (end_run f e h o (clock g) g)
| gs_end f e o : flips g !! f = Some (FLeaving e o) → gate_step g (end_flip f e o (clock g) g).

Definition gate_reachable (q now : Z) (g : Gate) : Prop :=
  ∃ g0, New q now = Some g0 ∧ rtc gate_step g0 g.

(** ** Invariant *)

(** An end of a hold that held requests. *)
Definition held_end (g : Gate) (e : N) (t : Z) : Prop :=
  ∃ h x, holds g !! h = Some x ∧ h_e x = e ∧ h_end x = Some t ∧ 0 < h_heldTotal x.

Record core (g : Gate) : Prop := {
  gc_entries : ∀ k e, entries g !! k = Some e → is_Some (e_heap g !! e);
  gc_fresh : (∀ e x, e_heap g !! e = Some x → (e < fresh g)%N) ∧
             (∀ h x, holds g !! h = Some x → (h < fresh g)%N);
  gc_waiters : ∀ w x, waiters g !! w = Some x → is_Some (e_heap g !! w_e x);
  (** The hold that has not ended is the holder's, and its entry's. *)
  gc_active : ∀ h x, holds g !! h = Some x → h_end x = None → holder g = Some h;
  gc_holder : ∀ h, holder g = Some h →
    ∃ x y, holds g !! h = Some x ∧ h_end x = None ∧ e_heap g !! h_e x = Some y ∧
           e_hold y = Some h;
  gc_hold : ∀ e y h, e_heap g !! e = Some y → e_hold y = Some h →
    holder g = Some h ∧ ∃ x, holds g !! h = Some x ∧ h_e x = e;
  (** Holds lie in the past and never overlap. *)
  gc_past : ∀ h x, holds g !! h = Some x → h_start x <= clock g ∧
    ∀ t, h_end x = Some t → h_start x <= t <= clock g;
  gc_apart : ∀ h h' x x', holds g !! h = Some x → holds g !! h' = Some x' → h ≠ h' →
    (∃ t, h_end x = Some t ∧ t <= h_start x') ∨ (∃ t, h_end x' = Some t ∧ t <= h_start x);
  gc_cap : ∀ h x, holds g !! h = Some x → h_waiting x <= MaxWaiters;
  (** The remembered ends. *)
  gc_last : ∀ e, lastEndBy g = Some e → ∃ t, lastEnd g = Some t ∧ held_end g e t;
  gc_none : lastEndBy g = None → lastEnd g = None ∧ prevEnd g = None;
  gc_prev : ∀ t, prevEnd g = Some t → ∃ e, held_end g e t ∧ lastEndBy g ≠ Some e;
  gc_newest : ∀ e t, held_end g e t →
    (∃ l, lastEnd g = Some l ∧ t <= l) ∧
    (lastEndBy g ≠ Some e → ∃ p, prevEnd g = Some p ∧ t <= p) }.

Section gate_laws.
Implicit Types g : Gate.

Lemma core_set_flip f x g : core g → core (set_flip f x g).
Proof. by intros []. Qed.
Lemma core_set_anchor a x g : core g → core (set_anchor a x g).
Proof. by intros []. Qed.
Lemma core_set_sweep t g : core g → core (set_sweep t g).
Proof. by intros []. Qed.
Lemma core_set_closed g : core g → core (set_closed g).
Proof. by intros []. Qed.

Lemma core_set_entries m g :
  core g → (∀ k e, m !! k = Some e → entries g !! k = Some e) → core (set_entries m g).
Proof. intros [] Hm. split; try done. simpl. eauto. Qed.

Lemma core_set_waiters m q g :
  core g → (∀ w x, m !! w = Some x → is_Some (e_heap g !! w_e x)) → core (set_waiters m q g).
Proof. by intros [] Hm. Qed.

Lemma core_tick now g : core g → clock g <= now → core (tick now g).
Proof.
  intros [] Hle. split; try done. simpl. intros h x Hx. destruct (gc_past0 h x Hx) as [? Hend].
  split; [lia|]. intros t Ht. specialize (Hend t Ht). lia.
Qed.

(** Entry updates that leave the entry's hold alone. *)
Lemma core_upd_e e f g :
  core g → (∀ x, e_hold (f x) = e_hold x) → core (upd_e e f g).
Proof.
  intros [] Hf.
  assert (∀ e', is_Some (e_heap g !! e') → is_Some (alter f e (e_heap g) !! e')) as Hs.
  { intros e'. by rewrite lookup_alter_is_Some. }
  assert (∀ e' y, alter f e (e_heap g) !! e' = Some y →
            ∃ y0, e_heap g !! e' = Some y0 ∧ e_hold y = e_hold y0) as Hinv.
  { intros e' y. destruct (decide (e' = e)) as [->|Hne].
    - rewrite lookup_alter_eq. intros (y0 & ? & ->)%fmap_Some. eauto.
    - rewrite lookup_alter_ne by done. eauto. }
  split; try done; simpl.
  - eauto.
  - destruct gc_fresh0 as [He Hh]. split; [|exact Hh]. intros e' x (x0 & Hx & _)%Hinv. by eapply He.
  - eauto.
  - intros h Hh. destruct (gc_holder0 h Hh) as (x & y & Hx & Hend & Hy & Hyh).
    destruct (Hs (h_e x)) as [y' Hy']; [by eexists|]. exists x, y'.
    destruct (Hinv _ _ Hy') as (y0 & Hy0 & E). split_and!; try done. congruence.
  - intros e' y h (y0 & Hy0 & E)%Hinv Hh. rewrite E in Hh. by eapply gc_hold0.
Qed.

Lemma core_new_e key x g :
  core g → e_hold x = None → core (new_e key x g).
Proof.
  intros [] Hx. destruct gc_fresh0 as [He Hh].
  assert (∀ e, is_Some (e_heap g !! e) → is_Some (<[fresh g := x]> (e_heap g) !! e)) as Hs.
  { intros e [y Hy]. destruct (decide (fresh g = e)) as [<-|Hne].
    - rewrite lookup_insert_eq. by eexists.
    - rewrite lookup_insert_ne by done. by eexists. }
  split; try done; simpl.
  - intros k e [[<- <-]|[_ Hk]]%lookup_insert_Some; [rewrite lookup_insert_eq; by eexists|eauto].
  - split.
    + intros e y [[<- _]|[_ Hy]]%lookup_insert_Some; [lia|]. specialize (He e y Hy). lia.
    + intros h y Hy. specialize (Hh h y Hy). lia.
  - eauto.
  - intros h Hh'. destruct (gc_holder0 h Hh') as (y & z & Hy & ? & Hz & ?). exists y, z.
    rewrite lookup_insert_ne; [done|]. specialize (He _ _ Hz). lia.
  - intros e y h [[<- <-]|[_ Hy]]%lookup_insert_Some Hh'; [congruence|]. by eapply gc_hold0.
Qed.

(** Updates of a hold's waiting requests; a hold that has ended holds no
    more. *)
Lemma core_upd_h h n held g x :
  core g → holds g !! h = Some x → h_waiting x + n <= MaxWaiters → 
  (held = 0 ∨ h_end x = None) → core (upd_h h (add_waiting n held) g).
Proof.
  intros [] Hx Hcap Hheld.
  assert (∀ h' y, alter (add_waiting n held) h (holds g) !! h' = Some y →
    ∃ y0, holds g !! h' = Some y0 ∧ h_e y = h_e y0 ∧ h_start y = h_start y0 ∧
          h_end y = h_end y0 ∧ h_waiting y <= MaxWaiters ∧
          (∀ t, h_end y0 = Some t → h_heldTotal y = h_heldTotal y0)) as Hinv.
  { intros h' y. destruct (decide (h' = h)) as [->|Hne].
    - rewrite lookup_alter_eq, Hx. intros [= <-]. exists x. split_and!; try done.
      intros t Ht. simpl. destruct Hheld as [->|?]; [lia|congruence].
    - rewrite lookup_alter_ne by done. intros Hy. exists y. split_and!; try done. by eapply gc_cap0. }
  assert (∀ h' y, holds g !! h' = Some y →
    ∃ y', alter (add_waiting n held) h (holds g) !! h' = Some y' ∧ h_e y' = h_e y ∧
          h_end y' = h_end y ∧ (∀ t, h_end y = Some t → h_heldTotal y' = h_heldTotal y)) as Hfwd.
  { intros h' y Hy. destruct (decide (h' = h)) as [->|Hne].
    - rewrite lookup_alter_eq, Hy. eexists. split; [done|]. split_and!; try done. simplify_eq.
      intros t Ht. simpl. destruct Hheld as [->|?]; [lia|congruence].
    - rewrite lookup_alter_ne by done. by exists y. }
  assert (∀ e t, held_end (upd_h h (add_waiting n held) g) e t ↔ held_end g e t) as Hends.
  { intros e t. split.
    - intros (h' & y & Hy & <- & Ht & Hpos). destruct (Hinv h' y Hy) as (y0 & Hy0 & E & _ & E' & _ & E'').
      rewrite E' in Ht. exists h', y0. rewrite <-(E'' t Ht). split_and!; done.
    - intros (h' & y & Hy & <- & Ht & Hpos). destruct (Hfwd h' y Hy) as (y' & Hy' & E & E' & E'').
      exists h', y'. rewrite (E'' t Ht), E'. split_and!; done. }
  split; try done; simpl.
  - destruct gc_fresh0 as [He Hh]. split; [exact He|]. intros h' y (y0 & Hy0 & _)%Hinv. by eapply Hh.
  - intros h' y (y0 & Hy0 & _ & _ & E & _)%Hinv Hend. rewrite E in Hend. by eapply gc_active0.
  - intros h' Hh'. destruct (gc_holder0 h' Hh') as (y & z & Hy & Hend & Hz & ?).
    destruct (Hfwd h' y Hy) as (y' & Hy' & E & E' & _). exists y', z. rewrite E, E'. done.
  - intros e y h' Hy Hh'. destruct (gc_hold0 e y h' Hy Hh') as (? & z & Hz & <-). split; [done|].
    destruct (Hfwd h' z Hz) as (z' & ? & ? & _). by exists z'.
  - intros h' y (y0 & Hy0 & _ & -> & -> & _)%Hinv. by eapply gc_past0.
  - intros h1 h2 y1 y2 (x1 & Hx1 & _ & -> & -> & _)%Hinv (x2 & Hx2 & _ & -> & -> & _)%Hinv Hne.
    by eapply gc_apart0.
  - intros h' y (y0 & _ & _ & _ & _ & ? & _)%Hinv. done.
  - intros e Hl. destruct (gc_last0 e Hl) as (t & ? & ?). exists t. by rewrite Hends.
  - intros t Hp. destruct (gc_prev0 t Hp) as (e & ? & ?). exists e. by rewrite Hends.
  - intros e t. rewrite Hends. apply gc_newest0.
Qed.

Lemma no_holder_ended g h x :
  core g → holder g = None → holds g !! h = Some x → ∃ t, h_end x = Some t ∧ t <= clock g.
Proof.
  intros Hc Hno Hx. destruct (h_end x) as [t|] eqn:Ht.
  - exists t. split; [done|]. destruct (gc_past g Hc h x Hx) as [_ Hp]. specialize (Hp t Ht). lia.
  - pose proof (gc_active g Hc h x Hx Ht). congruence.
Qed.

Lemma core_startHold e g :
  core g → holder g = None → is_Some (e_heap g !! e) → core (startHoldLocked e (clock g) g).
Proof.
  intros Hc Hno [y Hy]. pose proof Hc as []. destruct gc_fresh0 as [He Hh].
  assert (∀ h x, holds g !! h = Some x → h ≠ fresh g) as Hne.
  { intros h x Hx. specialize (Hh h x Hx). lia. }
  assert (∀ e' t, held_end (startHoldLocked e (clock g) g) e' t ↔ held_end g e' t) as Hends.
  { intros e' t. unfold held_end, startHoldLocked. simpl. split.
    - intros (h & x & [[<- <-]|[_ Hx]]%lookup_insert_Some & ? & Ht & ?); [done|].
      exists h, x. done.
    - intros (h & x & Hx & ?). exists h, x. rewrite lookup_insert_ne; [done|].
      by apply not_eq_sym, (Hne h x). }
  split; try done; simpl.
  - intros k e' Hk. rewrite lookup_alter_is_Some. eauto.
  - split.
    + intros e' z Hz. destruct (decide (e' = e)) as [->|Hn].
      * specialize (He e y Hy). lia.
      * rewrite lookup_alter_ne in Hz by done. specialize (He e' z Hz). lia.
    + intros h x [[<- <-]|[_ Hx]]%lookup_insert_Some; [lia|]. specialize (Hh h x Hx). lia.
  - intros w x Hw. rewrite lookup_alter_is_Some. eauto.
  - intros h x [[<- <-]|[_ Hx]]%lookup_insert_Some Hend; [done|].
    destruct (no_holder_ended g h x Hc Hno Hx) as (t & Ht & _). congruence.
  - intros h [= <-]. eexists _, (put_hold (Some (fresh g)) y). rewrite lookup_insert_eq.
    split; [done|]. simpl. by rewrite lookup_alter_eq, Hy.
  - intros e' z h Hz Hzh. destruct (decide (e' = e)) as [->|Hn].
    + rewrite lookup_alter_eq, Hy in Hz. simpl in Hz. simplify_eq. simpl in Hzh. simplify_eq.
      split; [done|]. eexists. by rewrite lookup_insert_eq.
    + rewrite lookup_alter_ne in Hz by done. destruct (gc_hold0 e' z h Hz Hzh). congruence.
  - intros h x [[<- <-]|[_ Hx]]%lookup_insert_Some; [simpl; split; [lia|done]|]. by eapply gc_past0.
  - intros h h' x x' [[<- <-]|[_ Hx]]%lookup_insert_Some [[<- <-]|[_ Hx']]%lookup_insert_Some Hn.
    + done.
    + right. simpl. by apply (no_holder_ended g h' x').
    + left. simpl. by apply (no_holder_ended g h x).
    + by eapply gc_apart0.
  - intros h x [[<- <-]|[_ Hx]]%lookup_insert_Some; [done|]. by eapply gc_cap0.
  - intros e' Hl. destruct (gc_last0 e' Hl) as (t & ? & ?). exists t. by rewrite Hends.
  - intros t Hp. destruct (gc_prev0 t Hp) as (e' & ? & ?). exists e'. by rewrite Hends.
  - intros e' t. rewrite Hends. apply gc_newest0.
Qed.

(** The holder's hold, ended: before the token passes on. *)
Definition ended (h : N) (x : hold) (expired : bool) (now : Z) (g : Gate) : Gate :=
  let g := upd_e (h_e x) (drop_hold h now) (upd_h h (end_hold now expired) g) in
  set_holder None
    (if 0 <? h_heldTotal x
     then set_ends (Some now) (Some (h_e x))
            (if bool_decide (lastEndBy g = Some (h_e x)) then prevEnd g else lastEnd g) g
     else g).

Lemma ended_tables h x expired now g :
  entries (ended h x expired now g) = entries g ∧
  e_heap (ended h x expired now g) = alter (drop_hold h now) (h_e x) (e_heap g) ∧
  holds (ended h x expired now g) = alter (end_hold now expired) h (holds g) ∧
  waiters (ended h x expired now g) = waiters g ∧ queue (ended h x expired now g) = queue g ∧
  holder (ended h x expired now g) = None ∧ fresh (ended h x expired now g) = fresh g ∧
  clock (ended h x expired now g) = clock g ∧ closed (ended h x expired now g) = closed g ∧
  quiet (ended h x expired now g) = quiet g ∧ anchors (ended h x expired now g) = anchors g ∧
  flips (ended h x expired now g) = flips g.
Proof. unfold ended. destruct (0 <? h_heldTotal x); done. Qed.

Lemma ended_ends h x expired now g :
  lastEnd (ended h x expired now g) = (if 0 <? h_heldTotal x then Some now else lastEnd g) ∧
  lastEndBy (ended h x expired now g) =
    (if 0 <? h_heldTotal x then Some (h_e x) else lastEndBy g) ∧
  prevEnd (ended h x expired now g) =
    (if 0 <? h_heldTotal x
     then if bool_decide (lastEndBy g = Some (h_e x)) then prevEnd g else lastEnd g
     else prevEnd g).
Proof. unfold ended. by destruct (0 <? h_heldTotal x). Qed.

Lemma held_end_ended h x expired g e t :
  core g → holds g !! h = Some x → h_end x = None →
  held_end (ended h x expired (clock g) g) e t ↔
  held_end g e t ∨ e = h_e x ∧ t = clock g ∧ 0 < h_heldTotal x.
Proof.
  intros Hc Hx Hact. unfold held_end.
  destruct (ended_tables h x expired (clock g) g) as (_ & _ & -> & _). split.
  - intros (h' & y & Hy & <- & Ht & Hpos). destruct (decide (h' = h)) as [->|Hne].
    + rewrite lookup_alter_eq, Hx in Hy. simpl in Hy. simplify_eq. simpl in *. simplify_eq. auto.
    + rewrite lookup_alter_ne in Hy by done. left. by exists h', y.
  - intros [(h' & y & Hy & <- & Ht & Hpos)|(-> & -> & Hpos)].
    + exists h', y. rewrite lookup_alter_ne; [done|]. congruence.
    + exists h, (end_hold (clock g) expired x). by rewrite lookup_alter_eq, Hx.
Qed.

Lemma core_ended_tables h x expired g :
  core g → holds g !! h = Some x → h_end x = None →
  let g' := ended h x expired (clock g) g in
  (∀ e, is_Some (e_heap g !! e) → is_Some (e_heap g' !! e)) ∧
  (∀ e y h', e_heap g' !! e = Some y → e_hold y ≠ Some h') ∧
  (∀ h' y, holds g' !! h' = Some y → ∃ y0, holds g !! h' = Some y0 ∧
     h_start y = h_start y0 ∧ h_e y = h_e y0 ∧ h_waiting y = h_waiting y0 ∧
     (h_end y = h_end y0 ∨ h' = h ∧ h_end y = Some (clock g)) ∧ is_Some (h_end y)).
Proof.
  intros Hc Hx Hact g'. pose proof (gc_active g Hc h x Hx Hact) as Hh.
  destruct (ended_tables h x expired (clock g) g) as (_ & E2 & E3 & _). unfold g'.
  rewrite E2, E3. split_and!.
  - intros e. by rewrite lookup_alter_is_Some.
  - intros e y h' Hy Hyh. destruct (decide (e = h_e x)) as [->|Hne].
    + rewrite lookup_alter_eq in Hy. apply fmap_Some in Hy as (y0 & Hy0 & ->).
      unfold drop_hold in Hyh. destruct (bool_decide (e_hold y0 = Some h)) eqn:E; [done|].
      apply bool_decide_eq_false in E. simpl in Hyh.
      destruct (gc_hold g Hc _ y0 h' Hy0 Hyh). congruence.
    + rewrite lookup_alter_ne in Hy by done.
      destruct (gc_hold g Hc e y h' Hy Hyh) as (? & z & Hz & ?). assert (h' = h) as -> by congruence.
      congruence.
  - intros h' y Hy. destruct (decide (h' = h)) as [->|Hne].
    + rewrite lookup_alter_eq, Hx in Hy. simpl in Hy. simplify_eq. exists x. simpl. split_and!; eauto.
    + rewrite lookup_alter_ne in Hy by done. exists y. split_and!; try done; [by left|].
      destruct (h_end y) as [t|] eqn:Ht; [by eexists|].
      pose proof (gc_active g Hc h' y Hy Ht). congruence.
Qed.

Lemma core_ended h x expired g :
  core g → holds g !! h = Some x → h_end x = None → core (ended h x expired (clock g) g).
Proof.
  intros Hc Hx Hact. pose proof (core_ended_tables h x expired g Hc Hx Hact) as (T1 & T2 & T3).
  pose proof (λ e t, held_end_ended h x expired g e t Hc Hx Hact) as Hends.
  destruct (ended_tables h x expired (clock g) g)
    as (E1 & E2 & E3 & E4 & E5 & E6 & E7 & E8 & _).
  destruct (ended_ends h x expired (clock g) g) as (L1 & L2 & L3).
  assert (∀ e t, held_end g e t → t <= clock g) as Hpast.
  { intros e t (h' & y & Hy & _ & Ht & _). destruct (gc_past g Hc h' y Hy) as [_ Hp].
    specialize (Hp t Ht). lia. }
  pose proof Hc as []. destruct gc_fresh0 as [He Hh].
  split; rewrite ?E1, ?E4, ?E6, ?E7, ?E8; try done.
  - eauto.
  - split.
    + intros e y Hy. rewrite E2 in Hy. destruct (decide (e = h_e x)) as [->|Hne].
      * rewrite lookup_alter_eq in Hy. apply fmap_Some in Hy as (y0 & Hy0 & _). eauto.
      * rewrite lookup_alter_ne in Hy by done. eauto.
    + intros h' y (y0 & Hy0 & _)%T3. eauto.
  - eauto.
  - intros h' y (y0 & _ & _ & _ & _ & _ & [t Ht])%T3 Hend. congruence.
  - intros e y h' Hy Hyh. by destruct (T2 e y h' Hy).
  - intros h' y (y0 & Hy0 & -> & _ & _ & Hend & _)%T3. destruct (gc_past0 h' y0 Hy0) as [Hs Hp].
    split; [done|]. intros t Ht. destruct Hend as [E|[-> E]].
    + rewrite E in Ht. by apply Hp.
    + rewrite E in Ht. simplify_eq. lia.
  - intros h1 h2 y1 y2 (z1 & Hz1 & S1 & _ & _ & N1 & _)%T3 (z2 & Hz2 & S2 & _ & _ & N2 & _)%T3 Hne.
    rewrite S1, S2. destruct (gc_apart0 h1 h2 z1 z2 Hz1 Hz2 Hne) as [(t & Ht & ?)|(t & Ht & ?)].
    + left. exists t. split; [|done]. destruct N1 as [->|[-> _]]; [done|]. congruence.
    + right. exists t. split; [|done]. destruct N2 as [->|[-> _]]; [done|]. congruence.
  - intros h' y (y0 & Hy0 & _ & _ & -> & _)%T3. eauto.
  - intros e. rewrite L1, L2. destruct (0 <? h_heldTotal x) eqn:Hpos.
    + intros [= <-]. exists (clock g). split; [done|]. apply Z.ltb_lt in Hpos.
      apply Hends. by right.
    + intros Hl. destruct (gc_last0 e Hl) as (t & ? & ?). exists t. split; [done|].
      apply Hends. by left.
  - rewrite L1, L2, L3. destruct (0 <? h_heldTotal x); [done|]. apply gc_none0.
  - intros t Hp. rewrite L2. rewrite L3 in Hp. destruct (0 <? h_heldTotal x) eqn:Hpos.
    + case_bool_decide as Hby.
      * destruct (gc_prev0 t Hp) as (e & ? & ?). exists e. split; [apply Hends; by left|]. congruence.
      * destruct (lastEndBy g) as [e|] eqn:Hl; [|destruct (gc_none0 eq_refl); congruence].
        destruct (gc_last0 e eq_refl) as (t' & Ht' & Hh'). exists e.
        split; [apply Hends; left; congruence|]. congruence.
    + destruct (gc_prev0 t Hp) as (e & ? & ?). exists e. split; [apply Hends; by left|done].
  - intros e t Ht. apply Hends in Ht. rewrite L1, L2, L3.
    destruct (0 <? h_heldTotal x) eqn:Hpos.
    + assert (t <= clock g) as Hle by (destruct Ht as [?|(_ & -> & _)]; [eauto|lia]).
      split; [eauto|]. intros Hne. destruct Ht as [Ht|(-> & _)]; [|done].
      destruct (gc_newest0 e t Ht) as [Hl Hp]. case_bool_decide as Hby.
      * apply Hp. congruence.
      * exact Hl.
    + destruct Ht as [Ht|(_ & _ & Hp)]; [by apply gc_newest0|].
      apply Z.ltb_ge in Hpos. lia.
Qed.

Record queue_ok g : Prop := {
  gq_nodup : NoDup (queue g);
  gq_waiter : ∀ w, w ∈ queue g → ∃ x, waiters g !! w = Some x ∧ w_hold x = None;
  gq_flip : ∀ w, w ∈ queue g → ∃ e t, flips g !! w = Some (FAsked e t) }.

Record gate_inv g : Prop := {
  gi_core : core g;
  gi_queue : queue_ok g;
  gi_closed : closed g = true → holder g = None;
  (** The token is never idle while a flip waits for it. *)
  gi_idle : closed g = false → holder g = None → queue g = [];
  gi_quiet : quiet_ok (quiet g) = true }.

Lemma core_start_granted w x q g :
  core g → holder g = None → waiters g !! w = Some x →
  core (startHoldLocked (w_e x) (clock g)
          (set_waiters (<[w := {| w_e := w_e x; w_hold := Some (fresh g) |}]> (waiters g)) q g)).
Proof.
  intros Hc Hno Hw. assert (is_Some (e_heap g !! w_e x)) as He by (by eapply gc_waiters).
  set (g1 := set_waiters _ q g). change (clock g) with (clock g1). apply core_startHold; try done.
  apply core_set_waiters; [done|].
  intros w' y [[<- <-]|[_ Hy]]%lookup_insert_Some; [done|]. by eapply gc_waiters.
Qed.

Lemma grant_inv g :
  core g → queue_ok g → holder g = None → closed g = false → quiet_ok (quiet g) = true →
  gate_inv (grantLocked (clock g) g).
Proof.
  intros Hc [Hnd Hw Hf] Hno Hcl Hq. unfold grantLocked. destruct (queue g) as [|w q] eqn:Hqu.
  - split; try done. split; rewrite Hqu; done.
  - destruct (Hw w) as (x & Hx & _); [left|]. rewrite Hx. apply NoDup_cons in Hnd as [Hnin Hnd].
    split; simpl; try done; [by apply core_start_granted| |by rewrite Hcl].
    split; simpl; [done| |].
    + intros w' Hw'. rewrite lookup_insert_ne by congruence. apply Hw. by right.
    + intros w' Hw'. apply Hf. by right.
Qed.

Lemma endHold_inv h expired g :
  core g → queue_ok g → quiet_ok (quiet g) = true →
  (closed g = false → holder g = None → queue g = []) →
  (closed g = true → ∀ h', holder g = Some h' → h' = h) →
  gate_inv (endHoldLocked h expired (clock g) g).
Proof.
  intros Hc Hqu Hq Hidle Hcl. unfold endHoldLocked.
  assert ((∀ x, holds g !! h = Some x → is_Some (h_end x)) → gate_inv g) as Hsame.
  { intros Hno. split; try done. intros Ht. destruct (holder g) as [h'|] eqn:Hh; [|done].
    rewrite (Hcl Ht h' eq_refl) in Hh. destruct (gc_holder g Hc h Hh) as (x & _ & Hx & Hend & _).
    destruct (Hno x Hx). congruence. }
  destruct (holds g !! h) as [x|] eqn:Hx; [|by apply Hsame].
  case_bool_decide as Hend; [apply Hsame; by intros ? [= <-]|].
  assert (h_end x = None) as Hact by (destruct (h_end x); [destruct Hend; by eexists|done]).
  pose proof (gc_active g Hc h x Hx Hact) as Hh.
  pose proof (core_ended h x expired g Hc Hx Hact) as He.
  destruct (ended_tables h x expired (clock g) g)
    as (E1 & E2 & E3 & E4 & E5 & E6 & E7 & E8 & E9 & E10 & E11 & E12).
  assert (queue_ok (ended h x expired (clock g) g)) as Hqe.
  { destruct Hqu. split; rewrite ?E4, ?E5, ?E12; done. }
  rewrite bool_decide_true by (by destruct (0 <? h_heldTotal x)).
  change (gate_inv (if closed (ended h x expired (clock g) g)
                    then ended h x expired (clock g) g
                    else grantLocked (clock g) (ended h x expired (clock g) g))).
  rewrite E9. destruct (closed g) eqn:Hclosed.
  - split; try done; rewrite ?E9, ?E10; congruence.
  - rewrite <-E8 at 1. apply grant_inv; rewrite ?E9, ?E10; done.
Qed.

(** The parts of the state the token's bookkeeping reads. *)
Definition same_token g g' : Prop :=
  queue g' = queue g ∧ waiters g' = waiters g ∧ flips g' = flips g ∧ closed g' = closed g ∧
  holder g' = holder g ∧ quiet g' = quiet g.

Lemma inv_frame g g' : gate_inv g → core g' → same_token g g' → gate_inv g'.
Proof.
  intros [Hc [Q1 Q2 Q3] Hcl Hi Hq] Hc' (E1 & E2 & E3 & E4 & E5 & E6).
  split; rewrite ?E1, ?E4, ?E5, ?E6; try done. split; rewrite ?E1, ?E2, ?E3; done.
Qed.

Lemma inv_set_flip f x g : gate_inv g → f ∉ queue g → gate_inv (set_flip f x g).
Proof.
  intros [Hc [Q1 Q2 Q3] Hcl Hi Hq] Hf. split; try done; [by apply core_set_flip|].
  split; try done. simpl. intros w Hw. rewrite lookup_insert_ne; [by apply Q3|congruence].
Qed.

Lemma not_queued f g p :
  gate_inv g → flips g !! f = Some p → (∀ e t, p ≠ FAsked e t) → f ∉ queue g.
Proof.
  intros Hinv Hp Hne Hin. destruct (gq_flip _ (gi_queue g Hinv) f Hin) as (e & t & E).
  rewrite Hp in E. injection E as ->. by eapply Hne.
Qed.

Lemma sweep_ok now g : core g → core (sweepLocked now g) ∧ same_token g (sweepLocked now g) ∧
  e_heap (sweepLocked now g) = e_heap g ∧ clock (sweepLocked now g) = clock g ∧
  holds (sweepLocked now g) = holds g ∧ anchors (sweepLocked now g) = anchors g.
Proof.
  intros Hc. unfold sweepLocked. destruct (within _ _ _); [done|]. split; [|done].
  apply core_set_sweep, core_set_entries; [done|]. intros k e [? _]%lookup_delete_where_Some. done.
Qed.

Lemma entryLocked_ok key now g e g' :
  core g → entryLocked key now g = (e, g') →
  core g' ∧ same_token g g' ∧ is_Some (e_heap g' !! e) ∧ clock g' = clock g ∧
  holds g' = holds g ∧ anchors g' = anchors g.
Proof.
  intros Hc. unfold entryLocked.
  destruct (sweep_ok now g Hc) as (Hc1 & Hs & E1 & E2 & E3 & E4). set (g1 := sweepLocked now g) in *.
  destruct (entries g1 !! key) as [e1|] eqn:Hk; intros [= <- <-].
  - split_and!; try done; [by apply core_upd_e|]. simpl. rewrite lookup_alter_is_Some.
    by eapply gc_entries.
  - split_and!; try done; [by apply core_new_e|]. simpl. rewrite lookup_insert_eq. by eexists.
Qed.

Lemma inv_join a key g : gate_inv g → gate_inv (join a key (clock g) g).
Proof.
  intros Hinv. unfold join. destruct (entryLocked key (clock g) g) as [e g1] eqn:He.
  destruct (entryLocked_ok _ _ _ _ _ (gi_core g Hinv) He) as (Hc1 & Hs1 & [y Hy] & Hck & _ & _).
  assert (gate_inv (registerLocked a e (clock g) g1)) as Hreg.
  { apply (inv_frame g); [done| |done]. apply core_set_anchor, core_upd_e; done. }
  rewrite Hy. simpl. destruct (e_hold y) as [h|] eqn:Hh; [|done].
  destruct (gc_hold g1 Hc1 e y h Hy Hh) as (Hhd & x & Hx & Hxe).
  destruct (gc_holder g1 Hc1 h Hhd) as (x' & _ & Hx' & Hend & _). rewrite Hx in *. simplify_eq.
  destruct (MaxWaiters <=? h_waiting x') eqn:Hcap; [done|]. apply Z.leb_gt in Hcap.
  apply (inv_frame g); [done| |done]. apply core_set_anchor.
  apply (core_upd_h _ _ _ _ x'); [done|done|lia|by right].
Qed.

Lemma inv_acquire f e x g :
  gate_inv g → flips g !! f = Some (FPassed e) → e_heap g !! e = Some x →
  gate_inv (acquire f e (clock g) g).
Proof.
  intros Hinv Hf Hx. pose proof (not_queued f g _ Hinv Hf ltac:(done)) as Hnq.
  unfold acquire. destruct (closed g) eqn:Hcl; [by apply inv_set_flip|].
  pose proof Hinv as [Hc Hq Hclo Hi Hqu]. pose proof Hq as [Q1 Q2 Q3].
  destruct (negb (bool_decide (is_Some (holder g))) && bool_decide (queue g = [])) eqn:Hfree.
  - bclean. apply inv_set_flip; [|simpl; by rewrite H0; apply not_elem_of_nil].
    assert (holder g = None) as Hno by (destruct (holder g); [destruct H; by eexists|done]).
    split; simpl; try done; [apply core_startHold; [done..|by eexists]|congruence].
  - split; simpl; try done.
    + apply core_set_flip, core_set_waiters; [done|].
      intros w y [[<- <-]|[_ Hy]]%lookup_insert_Some; [simpl; by eexists|]. by eapply gc_waiters.
    + split; simpl.
      * apply NoDup_app. split_and!; [done| |apply NoDup_singleton].
        intros w Hw ->%list_elem_of_singleton. done.
      * intros w [Hw| ->%list_elem_of_singleton]%elem_of_app.
        -- rewrite lookup_insert_ne by congruence. by apply Q2.
        -- rewrite lookup_insert_eq. by eexists.
      * intros w [Hw| ->%list_elem_of_singleton]%elem_of_app.
        -- rewrite lookup_insert_ne by congruence. by apply Q3.
        -- rewrite lookup_insert_eq. eauto.
    + intros _ Hno. rewrite Hno, (Hi Hcl Hno) in Hfree.
      rewrite bool_decide_false, bool_decide_true in Hfree by (done || by intros [? [=]]). done.
Qed.

Lemma filter_queue_inv f x g :
  gate_inv g →
  gate_inv (set_flip f x (set_waiters (waiters g)
              (List.filter (λ w, negb (N.eqb w f)) (queue g)) g)).
Proof.
  intros [Hc [Q1 Q2 Q3] Hcl Hi Hq].
  assert (∀ w, w ∈ List.filter (λ w, negb (N.eqb w f)) (queue g) → w ∈ queue g ∧ w ≠ f) as Hin.
  { intros w. rewrite !list_elem_of_In, filter_In, negb_true_iff, N.eqb_neq. done. }
  split; simpl; try done.
  - apply core_set_flip, core_set_waiters; [done|]. intros w y Hy. by eapply gc_waiters.
  - split; simpl.
    + apply NoDup_ListNoDup, List.NoDup_filter. by apply NoDup_ListNoDup.
    + intros w [Hw _]%Hin. by apply Q2.
    + intros w [Hw Hne]%Hin. rewrite lookup_insert_ne by congruence. by apply Q3.
  - intros Ht Hno. by rewrite (Hi Ht Hno).
Qed.

Lemma granted_not_queued f g h :
  gate_inv g → (w ← waiters g !! f; w_hold w) = Some h → f ∉ queue g.
Proof.
  intros Hinv Hw Hin. destruct (gq_waiter _ (gi_queue g Hinv) f Hin) as (x & Hx & Hn).
  rewrite Hx in Hw. simpl in Hw. congruence.
Qed.

Lemma inv_endHold h expired g : gate_inv g → gate_inv (endHoldLocked h expired (clock g) g).
Proof.
  intros [Hc Hq Hcl Hi Hqu]. apply endHold_inv; try done. intros Ht h' Hh. rewrite (Hcl Ht) in Hh. done.
Qed.

(** Nobody joins the queue but through [acquire]. *)
Lemma endHold_queue h expired now g w :
  w ∈ queue (endHoldLocked h expired now g) → w ∈ queue g.
Proof.
  unfold endHoldLocked. destruct (holds g !! h) as [x|]; [|done].
  case_bool_decide; [done|].
  assert (∀ g', w ∈ queue (grantLocked now g') → w ∈ queue g') as Hg.
  { intros g'. unfold grantLocked. destruct (queue g') as [|w' q] eqn:E; [by rewrite E|].
    destruct (waiters g' !! w'); simpl; intros ?; by right. }
  destruct (0 <? h_heldTotal x); simpl; case_bool_decide; try done; destruct (closed g); try done;
    by intros ?%Hg.
Qed.

Lemma inv_end_run f e h o p g :
  gate_inv g → flips g !! f = Some p → (∀ e t, p ≠ FAsked e t) →
  gate_inv (end_run f e h o (clock g) g).
Proof.
  intros Hinv Hf Hp. apply inv_set_flip; [by apply inv_endHold|].
  intros Hin%endHold_queue. by apply (not_queued f g p).
Qed.

Lemma gate_inv_step g g' : gate_step g g' → gate_inv g → gate_inv g'.
Proof.
  intros Hs Hinv. pose proof Hinv as [Hc Hqu Hcl Hi Hq].
  destruct Hs as [now Hle|a key Ha Hen|a e h j Ha Hr|a e h j Ha|a e s0 Ha|key|Hen|f key Hf Hen
    |f e s0 x Hf Hx Hd|f e x Hf Hx|f e s0 err Hf Hab|f e t h Hf Hw|f e t Hf Hlate|f e t err Hf Hab|f e Hf Hop
    |f e err Hf Hab|f e h x y c Hf Hx Hy Hd|f e h x y Hf Hx Hy Hd|f e h Hf|f e h err Hf Hab|f e h o Hf Hop
    |f e h o err Hf Hab|f e h o y Hf Hy Hlate|f e o Hf|f e h o Hf|f e o Hf];
    try (by apply inv_set_flip; [done|eapply not_queued]);
    try (by eapply inv_end_run).
  - apply (inv_frame g); [done|by apply core_tick|done].
  - by apply inv_join.
  - unfold resume. apply (inv_frame g); [done| |done]. unfold may_resume in Hr.
    destruct (holds g !! h) as [x|] eqn:Hx; [|done]. apply core_set_anchor, core_upd_e; [|done].
    apply (core_upd_h _ _ _ _ x); [done|done| |by left]. pose proof (gc_cap g Hc h x Hx). lia.
  - unfold leave. destruct (holds g !! h) as [x|] eqn:Hx.
    + apply (inv_frame g); [done| |done]. apply core_set_anchor.
      apply (core_upd_h _ _ _ _ x); [done|done| |by left]. pose proof (gc_cap g Hc h x Hx). lia.
    + apply (inv_frame g); [done| |done]. apply core_set_anchor. unfold upd_h.
      rewrite alter_id by (intros y Hy; congruence). by destruct g.
  - apply (inv_frame g); [done| |done]. by apply core_set_anchor, core_upd_e.
  - unfold Purge. destruct (entries g !! key); [|done]. destruct (e_heap g !! _); [|done].
    destruct (liveLocked _ _ _); [done|]. apply (inv_frame g); [done| |done].
    apply core_set_entries; [done|]. by intros k e' [_ ?]%lookup_delete_Some.
  - unfold Close. destruct (closed g) eqn:Ec; [done|]. simpl. destruct (holder g) as [h|] eqn:Hh.
    + change (clock g) with (clock (set_closed g)). apply endHold_inv; try done.
      * by apply core_set_closed.
      * by destruct Hqu.
      * simpl. intros _ h' Hh'. congruence.
    + split; simpl; try done; [by apply core_set_closed|by destruct Hqu].
  - unfold begin_flip. destruct (entryLocked key (clock g) g) as [e g1] eqn:He.
    destruct (entryLocked_ok _ _ _ _ _ Hc He) as (Hc1 & Hs1 & _).
    apply inv_set_flip.
    + apply (inv_frame g); [done|by apply core_upd_e|done].
    + simpl. destruct Hs1 as (-> & _). intros Hin.
      destruct (gq_flip _ Hqu f Hin) as (? & ? & ?). congruence.
  - by eapply inv_acquire.
  - apply inv_set_flip; [done|]. by eapply granted_not_queued.
  - unfold ask_timeout. destruct (w ← waiters g !! f; w_hold w) as [h|] eqn:Hw.
    + apply inv_set_flip; [done|]. by eapply granted_not_queued.
    + by apply filter_queue_inv.
  - unfold cancel_ask. destruct (w ← waiters g !! f; w_hold w) as [h|] eqn:Hw.
    + apply inv_set_flip; [by apply inv_endHold|]. intros Hin%endHold_queue.
      by eapply granted_not_queued.
    + by apply filter_queue_inv.
  - apply inv_set_flip; [by apply inv_endHold|]. intros Hin%endHold_queue.
    by eapply not_queued.
  - by apply inv_endHold.
  - unfold end_flip. apply inv_set_flip.
    + apply (inv_frame g); [done|by apply core_upd_e|done].
    + by apply (not_queued f g _ Hinv Hf).
Qed.
End gate_laws.

Section gate_props.
Implicit Types g : Gate.

Lemma reachable_gate q now g : gate_reachable q now g → gate_inv g.
Proof.
  intros (g0 & Hnew & Hrun). assert (gate_inv g0) as Hinv.
  { unfold New in Hnew. destruct (quiet_ok q) eqn:Hq; [|done]. injection Hnew as <-.
    split; try done; [|split; simpl; [constructor|set_solver..]].
    split; simpl; try (intros; simplify_map_eq; fail).
    - split; intros; simplify_map_eq.
    - intros _. done.
    - intros e t (h & x & Hx & _). simplify_map_eq. }
  clear Hnew. induction Hrun as [|g1 g2 g3 Hs _ IH]; [done|]. eauto using gate_inv_step.
Qed.

(** C39. The hold token.  However flips, anchor requests, timeouts,
    cancellations and the shutdown interleave: at most one hold is in
    progress, and it is the holder's and its suite's; any two holds are apart
    in time; at most MaxWaiters requests wait in a hold; the token is never
    idle while a flip waits in the queue; and once the gate is closed no hold
    is in progress any more. *)
Theorem FlipGate_token q now g :
  gate_reachable q now g →
  (∀ h x, holds g !! h = Some x → h_end x = None →
     holder g = Some h ∧ ∃ y, e_heap g !! h_e x = Some y ∧ e_hold y = Some h) ∧
  (∀ h h' x x', holds g !! h = Some x → holds g !! h' = Some x' → h ≠ h' →
     (∃ t, h_end x = Some t ∧ t <= h_start x') ∨ (∃ t, h_end x' = Some t ∧ t <= h_start x)) ∧
  (∀ h x, holds g !! h = Some x → h_waiting x <= MaxWaiters) ∧
  (queue g ≠ [] → is_Some (holder g) ∨ closed g = true) ∧
  (closed g = true → ∀ h x, holds g !! h = Some x → is_Some (h_end x)).
Proof.
  intros Hr. destruct (reachable_gate q now g Hr) as [Hc Hq Hcl Hi _]. split_and!.
  - intros h x Hx Hend. pose proof (gc_active g Hc h x Hx Hend) as Hh. split; [done|].
    destruct (gc_holder g Hc h Hh) as (x' & y & Hx' & _ & Hy & ?). simplify_eq. by exists y.
  - apply (gc_apart g Hc).
  - apply (gc_cap g Hc).
  - intros Hne. destruct (holder g) as [h|] eqn:Hh; [left; by eexists|right].
    destruct (closed g) eqn:E; [done|]. by specialize (Hi eq_refl eq_refl).
  - intros Ht h x Hx. destruct (h_end x) as [t|] eqn:Hend; [by eexists|].
    pose proof (gc_active g Hc h x Hx Hend) as Hh. rewrite (Hcl Ht) in Hh. done.
Qed.

Lemma other_end_spec g e t :
  core g → other_end g e = Some t → ∃ e', e' ≠ e ∧ held_end g e' t.
Proof.
  intros Hc. unfold other_end. case_bool_decide as Hby; intros Ht.
  - destruct (gc_prev g Hc t Ht) as (e' & ? & ?). exists e'. split; [congruence|done].
  - destruct (lastEndBy g) as [e'|] eqn:Hl.
    + destruct (gc_last g Hc e' Hl) as (t' & Ht' & ?). exists e'. split; [congruence|congruence].
    + destruct (gc_none g Hc Hl). congruence.
Qed.

Lemma other_end_newest g e e' t :
  core g → e' ≠ e → held_end g e' t → ∃ l, other_end g e = Some l ∧ t <= l.
Proof.
  intros Hc Hne Ht. destruct (gc_newest g Hc e' t Ht) as [Hl Hp]. unfold other_end.
  case_bool_decide as Hby; [|done]. apply Hp. congruence.
Qed.

Definition serve_quiet (x : entry) (now : Z) : Prop :=
  ∀ a s, inflight x !! a = Some s → AnchorTimeout <= now - s.

Lemma youngest_spec x now :
  match youngest x now with
  | None => serve_quiet x now
  | Some y => ∃ a, inflight x !! a = Some y ∧ now - y < AnchorTimeout
  end.
Proof.
  unfold youngest, serve_quiet. apply (map_fold_weak_ind (λ acc m, match acc with
    | None => ∀ a s, m !! a = Some s → AnchorTimeout <= now - s
    | Some y => ∃ a, m !! a = Some y ∧ now - y < AnchorTimeout end)).
  - intros a s Hs. simplify_map_eq.
  - intros i s m acc Hi IH. destruct (Z.ltb_spec (now - s) AnchorTimeout) as [Hlt|Hge].
    + destruct acc as [y|].
      * destruct IH as (a & Ha & Hy). destruct (Z.max_spec y s) as [[_ ->]|[_ ->]].
        -- exists i. by rewrite lookup_insert_eq.
        -- exists a. rewrite lookup_insert_ne; [done|congruence].
      * exists i. by rewrite lookup_insert_eq.
    + destruct acc as [y|].
      * destruct IH as (a & Ha & Hy). exists a. rewrite lookup_insert_ne; [done|congruence].
      * intros a t [[<- <-]|[_ Hm]]%lookup_insert_Some; [done|]. by eapply IH.
Qed.

Lemma within_false now t q : within now t q = false ↔ ∀ u, t = Some u → q <= now - u.
Proof.
  unfold within. destruct t as [u|]; [|done]. rewrite Z.ltb_ge. naive_solver.
Qed.

Definition local_quiet (x : entry) (now q : Z) : Prop :=
  serve_quiet x now ∧ ∀ t, lastDone x = Some t → q <= now - t.

Lemma localQuiet_spec x now q : (localQuietLocked x now q).1 = true ↔ local_quiet x now q.
Proof.
  unfold localQuietLocked, local_quiet. pose proof (youngest_spec x now) as Hy.
  destruct (youngest x now) as [y|].
  - split; [done|]. intros [Hs _]. destruct Hy as (a & Ha & Hlt). specialize (Hs a y Ha). lia.
  - rewrite <-within_false. destruct (within _ _ _); simpl; split; try done. by intros [].
Qed.

Definition others_quiet (g : Gate) (e : N) (now : Z) : Prop :=
  ∀ e' t, e' ≠ e → held_end g e' t → quiet g <= now - t.

Lemma othersQuiet_spec g e now :
  core g → (otherHoldsQuietLocked g e now).1 = true ↔ others_quiet g e now.
Proof.
  intros Hc. unfold otherHoldsQuietLocked, others_quiet.
  assert (within now (other_end g e) (quiet g) = false ↔
            ∀ e' t, e' ≠ e → held_end g e' t → quiet g <= now - t) as <-.
  { rewrite within_false. split.
    - intros H e' t Hne Ht. destruct (other_end_newest g e e' t Hc Hne Ht) as (l & Hl & ?).
      specialize (H l Hl). lia.
    - intros H u Hu. destruct (other_end_spec g e u Hc Hu) as (e' & Hne & Ht). by apply (H e'). }
  by destruct (within _ _ _).
Qed.

(** Every other suite's hold ended before this one began. *)
Lemma others_quiet_cut g h y :
  gate_inv g → holds g !! h = Some y → h_end y = None →
  h_start y + HoldMax - CommitMargin <= clock g → others_quiet g (h_e y) (clock g).
Proof.
  intros [Hc _ _ _ Hq] Hy Hend Hcut e' t Hne (h' & x & Hx & <- & Ht & _).
  assert (h' ≠ h) as Hh by congruence.
  destruct (gc_apart g Hc h' h x y Hx Hy Hh) as [(u & Hu & ?)|(u & Hu & _)]; [|congruence].
  simplify_eq. unfold quiet_ok in Hq.
  assert (quiet g <= MaxQuiet).
  { apply orb_true_iff in Hq as [Hz%Z.eqb_eq|Hb]; [rewrite Hz; done|]. by bclean. }
  unfold MaxQuiet, HoldMax, CommitMargin, Second in *. lia.
Qed.

Lemma earliest_bound a c : ∃ t, earliest a (Some c) = Some t ∧ t <= c.
Proof.
  destruct a as [x|]; simpl; [|by exists c].
  destruct (Z.ltb_spec x c); [exists x|exists c]; split; done || lia.
Qed.

(** Phase B commits when it should and always in time.  For the hold in
    progress of a gate that is not closed: it commits as quiet exactly when -
    before its expiry - every anchor response of the suite still being sent is
    past apt's timeout, the last one completed a quiet period ago, and so did
    every hold of another suite that held requests, the two remembered ends
    standing for the whole history; it waits at most until its cut, HoldMax
    less the commit's margin; and from the cut to the expiry it always
    commits, since the quiet period is at most fifteen seconds - so no hold
    expires before its commit started. *)
Theorem FlipGate_phaseB q now g h y x :
  gate_reachable q now g → holds g !! h = Some y → h_end y = None →
  e_heap g !! h_e y = Some x → closed g = false →
  let cut := h_start y + HoldMax - CommitMargin in
  let round := phaseB_round (h_e y) x (h_start y) (clock g) g in
  (round = BCommit false ↔ clock g < h_start y + HoldMax ∧
     local_quiet x (clock g) (quiet g) ∧ others_quiet g (h_e y) (clock g)) ∧
  (cut <= clock g < h_start y + HoldMax → ∃ c, round = BCommit c) ∧
  (∀ u, round = BWait u → clock g < cut ∧ ∃ t, u = Some t ∧ t <= cut) ∧
  (round = BExpire ↔ h_start y + HoldMax <= clock g).
Proof.
  intros Hr Hy Hend Hx Hcl cut round. pose proof (reachable_gate q now g Hr) as Hinv.
  pose proof (others_quiet_cut g h y Hinv Hy Hend) as Hcut.
  pose proof (localQuiet_spec x (clock g) (quiet g)) as Hloc.
  pose proof (othersQuiet_spec g (h_e y) (clock g) (gi_core g Hinv)) as Hoth.
  rewrite <-Hloc. rewrite <-Hoth in *. unfold round, phaseB_round.
  destruct (localQuietLocked x (clock g) (quiet g)) as [okL atL].
  destruct (otherHoldsQuietLocked g (h_e y) (clock g)) as [okO atO]. simpl in *. rewrite Hcl.
  fold cut. destruct (Z.leb_spec (h_start y + HoldMax) (clock g)) as [He|He].
  { split_and!; try done; [split; [done|lia]|lia]. }
  destruct (Z.leb_spec cut (clock g)) as [Hc|Hc].
  - rewrite (Hcut ltac:(unfold cut in Hc; lia)). rewrite orb_true_r. simpl. split_and!; try done.
    + destruct okL; simpl; split; try done. by intros (_ & ? & _).
    + by eexists.
    + split; [done|lia].
  - rewrite orb_false_r, (proj2 (Z.ltb_lt _ _) Hc).
    assert (∀ u, BWait (earliest (earliest atL atO) (Some cut)) = BWait u →
              clock g < cut ∧ ∃ t, u = Some t ∧ t <= cut) as Hw.
    { intros u [= <-]. split; [done|]. apply earliest_bound. }
    destruct okO, okL; simpl; split_and!; try done; try lia; try (split; [done|lia]);
      (split; [done|by intros (_ & ? & ?)]).
Qed.
End gate_props.

(** ** Dropping idle entries *)

Section gate_sweep.
Implicit Types g : Gate.

Definition entry_ok (c : Z) (x : entry) : Prop :=
  lastUse x <= c ∧ ∀ t, lastDone x = Some t → t <= lastUse x.

Definition heap_ok g : Prop := ∀ e x, e_heap g !! e = Some x → entry_ok (clock g) x.

Lemma heap_upd e f g :
  heap_ok g → (∀ x, entry_ok (clock g) x → entry_ok (clock g) (f x)) → heap_ok (upd_e e f g).
Proof.
  intros Hg Hf e' x Hx. simpl in *. destruct (decide (e' = e)) as [->|Hne].
  - rewrite lookup_alter_eq in Hx. apply fmap_Some in Hx as (x0 & Hx0 & ->). by eapply Hf, Hg.
  - rewrite lookup_alter_ne in Hx by done. by eapply Hg.
Qed.

Lemma touch_ok c x : entry_ok c x → entry_ok c (touch c x).
Proof. intros [H1 H2]. split; simpl; [done|]. intros t Ht. specialize (H2 t Ht). lia. Qed.

Lemma heap_entry key g e g' :
  heap_ok g → entryLocked key (clock g) g = (e, g') → heap_ok g' ∧ clock g' = clock g.
Proof.
  intros Hg. unfold entryLocked.
  assert (heap_ok (sweepLocked (clock g) g) ∧ clock (sweepLocked (clock g) g) = clock g) as [H1 Hck].
  { unfold sweepLocked. by destruct (within _ _ _). }
  destruct (entries _ !! key) as [e1|]; intros [= <- <-].
  - split; [|done]. apply heap_upd; [done|]. intros x. rewrite Hck. apply touch_ok.
  - split; [|done]. intros e' x Hx. simpl in Hx. revert Hx. intros [[<- <-]|[_ Hx]]%lookup_insert_Some; [|by apply (H1 e')].
    split; simpl; [lia|done].
Qed.

Lemma heap_start e g : heap_ok g → heap_ok (startHoldLocked e (clock g) g).
Proof. intros Hg. by apply heap_upd. Qed.

Lemma heap_endHold h b g : heap_ok g → heap_ok (endHoldLocked h b (clock g) g).
Proof.
  intros Hg. unfold endHoldLocked. destruct (holds g !! h) as [x|]; [|done].
  case_bool_decide; [done|].
  set (g1 := upd_e (h_e x) (drop_hold h (clock g)) (upd_h h (end_hold (clock g) b) g)).
  assert (heap_ok g1) as H1.
  { apply heap_upd; [done|]. intros y Hy. unfold drop_hold. apply touch_ok.
    by destruct (bool_decide _). }
  set (g2 := if 0 <? h_heldTotal x then _ else g1).
  assert (heap_ok g2 ∧ clock g2 = clock g) as [H2 Hc2].
  { unfold g2. by destruct (0 <? h_heldTotal x). }
  case_bool_decide; [|done]. destruct (closed (set_holder None g2)); [done|].
  rewrite <-Hc2. unfold grantLocked. destruct (queue (set_holder None g2)) as [|w q]; [done|].
  destruct (waiters (set_holder None g2) !! w) as [y|]; [|done].
  by apply (heap_start (w_e y) (set_waiters _ q (set_holder None g2))).
Qed.

Lemma heap_step g g' : gate_step g g' → heap_ok g → heap_ok g'.
Proof.
  intros Hs Hg.
  assert (∀ a e g1, heap_ok g1 → heap_ok (registerLocked a e (clock g1) g1)) as Hreg.
  { intros a e g1 H1. apply (heap_upd e (add_inflight a (clock g1)) g1 H1). intros x [? H].
    split; simpl; [done|]. intros t Ht. specialize (H t Ht). lia. }
  destruct Hs as [now Hle|a key Ha Hen|a e h j Ha Hr|a e h j Ha|a e s0 Ha|key|Hen|f key Hf Hen
    |f e s0 x Hf Hx Hd|f e x Hf Hx|f e s0 err Hf Hab|f e t h Hf Hw|f e t Hf Hlate|f e t err Hf Hab|f e Hf Hop
    |f e err Hf Hab|f e h x y c Hf Hx Hy Hd|f e h x y Hf Hx Hy Hd|f e h Hf|f e h err Hf Hab|f e h o Hf Hop
    |f e h o err Hf Hab|f e h o y Hf Hy Hlate|f e o Hf|f e h o Hf|f e o Hf];
    try exact Hg; try (by apply heap_endHold).
  - intros e x Hx. destruct (Hg e x Hx). split; [simpl; lia|done].
  - unfold join. destruct (entryLocked key (clock g) g) as [e g1] eqn:He.
    destruct (heap_entry key g e g1 Hg He) as [H1 Hck]. rewrite <-Hck.
    destruct (x ← e_heap g1 !! e; e_hold x) as [h|]; [|by apply Hreg].
    destruct (holds g1 !! h) as [y|]; [|by apply Hreg].
    destruct (MaxWaiters <=? h_waiting y); [by apply Hreg|done].
  - by apply (Hreg a e (upd_h h (add_waiting (-1) 0) g)).
  - apply (heap_upd e (served a s0 (clock g)) g Hg). intros x [? H]. split; simpl; [done|].
    intros t. destruct (_ && _); [by intros [= <-]|]. intros Ht. specialize (H t Ht). lia.
  - unfold Purge. destruct (entries g !! key); [|done]. destruct (e_heap g !! _); [|done].
    by destruct (liveLocked _ _ _).
  - unfold Close. destruct (closed g); [done|]. simpl. destruct (holder g); [|done].
    by apply (heap_endHold _ _ (set_closed g)).
  - unfold begin_flip. destruct (entryLocked key (clock g) g) as [e g1] eqn:He.
    destruct (heap_entry key g e g1 Hg He) as [H1 _]. by apply (heap_upd e (add_flips 1) g1 H1).
  - unfold acquire. destruct (closed g); [done|]. destruct (_ && _); [|done].
    by apply (heap_start e g).
  - unfold ask_timeout. by destruct (w ← waiters g !! f; w_hold w).
  - unfold cancel_ask. destruct (w ← waiters g !! f; w_hold w); [|done]. by apply heap_endHold.
  - apply (heap_upd e (λ x, touch (clock g) (add_flips (-1) x)) g Hg). intros x Hx.
    by apply touch_ok.
Qed.

Lemma reachable_heap q now g : gate_reachable q now g → heap_ok g.
Proof.
  intros (g0 & Hnew & Hrun). assert (heap_ok g0) as H0.
  { unfold New in Hnew. destruct (quiet_ok q); [|done]. injection Hnew as <-.
    intros e x Hx. simplify_map_eq. }
  clear Hnew. induction Hrun as [|g1 g2 g3 Hs _ IH]; [done|]. eauto using heap_step.
Qed.

Lemma not_live x now q :
  liveLocked x now q = false →
  e_flips x <= 0 ∧ e_hold x = None ∧ inflight x = ∅ ∧ q <= now - lastUse x.
Proof.
  unfold liveLocked. rewrite !orb_false_iff, negb_false_iff.
  intros [[[Hf%Z.ltb_ge Hh%bool_decide_eq_false] Hi%bool_decide_eq_true] Hu%Z.ltb_ge].
  split_and!; try done. destruct (e_hold x); [|done]. destruct Hh. by eexists.
Qed.

(** Forgetting an idle suite loses nothing.  Whatever entry the sweep or
    a purge drops has no flip and no hold in progress, and is quiet from then
    on at every later time: a flip that finds a fresh entry waits for exactly
    as long - not at all - as it would have with the dropped one. *)
Theorem FlipGate_forgets_nothing q now g key k e x :
  gate_reachable q now g → entries g !! k = Some e → e_heap g !! e = Some x →
  (entries (sweepLocked (clock g) g) !! k = None ∨ entries (Purge key (clock g) g) !! k = None) →
  e_flips x <= 0 ∧ e_hold x = None ∧
  ∀ later, clock g <= later → local_quiet x later (quiet g).
Proof.
  intros Hr Hk Hx Hgone.
  assert (liveLocked x (clock g) (quiet g) = false) as Hidle.
  { destruct Hgone as [Hgone|Hgone].
    - unfold sweepLocked in Hgone. destruct (within _ _ _); [congruence|]. simpl in Hgone.
      rewrite lookup_delete_where, Hk in Hgone. simpl in Hgone. rewrite Hx in Hgone.
      by destruct (liveLocked x (clock g) (quiet g)).
    - unfold Purge in Hgone. destruct (entries g !! key) as [e'|] eqn:Hkey; [|congruence].
      destruct (e_heap g !! e') as [x'|] eqn:Hx'; [|congruence].
      destruct (liveLocked x' (clock g) (quiet g)) eqn:El; [congruence|]. simpl in Hgone.
      destruct (decide (key = k)) as [->|Hne]; [congruence|].
      rewrite lookup_delete_ne in Hgone by done. congruence. }
  destruct (not_live _ _ _ Hidle) as (H1 & H2 & H3 & H4). split_and!; [done..|].
  intros later Hle. destruct (reachable_heap q now g Hr e x Hx) as [Huse Hdone]. split.
  - intros a s Hs. rewrite H3 in Hs. simplify_map_eq.
  - intros t Ht. specialize (Hdone t Ht). lia.
Qed.
End gate_sweep.

(** ** A barrier at work *)

Definition demo0 : Gate :=
  match New (10 * Second) (100 * Second) with Some g => g | None => tick 0 (tick 0
    {| quiet := 0; entries := ∅; e_heap := ∅; holds := ∅; waiters := ∅; holder := None; queue := [];
       lastEnd := None; lastEndBy := None; prevEnd := None; lastSweep := None; closed := false;
       anchors := ∅; flips := ∅; fresh := 0; clock := 0 |}) end.

(** A flip takes the token; an anchor request of its suite waits. *)
Definition demo_flip : Gate := begin_flip 7 "https|h|/s" (clock demo0) demo0.
Definition demo_passed : Gate := set_flip 7 (FPassed 0) demo_flip.
Definition demo_hold : Gate := acquire 7 0 (clock demo_passed) demo_passed.
Definition demo_held : Gate := join 1 "https|h|/s" (clock demo_hold) demo_hold.
Definition demo_later : Gate := tick (116 * Second) demo_held.

Lemma demo_reachable : gate_reachable (10 * Second) (100 * Second) demo_later.
Proof.
  exists demo0. split; [vm_compute; reflexivity|].
  apply rtc_l with demo_flip; [apply (gs_begin demo0 7 "https|h|/s"); vm_compute; reflexivity|].
  apply rtc_l with demo_passed; [eapply (gs_phaseA demo_flip 7 0); [vm_compute; reflexivity..]|].
  apply rtc_l with demo_hold; [eapply (gs_acquire demo_passed 7 0); [vm_compute; reflexivity..]|].
  apply rtc_l with demo_held; [apply (gs_join demo_hold 1 "https|h|/s"); vm_compute; reflexivity|].
  apply rtc_l with demo_later; [apply (gs_tick demo_held); vm_compute; discriminate|].
  apply rtc_refl.
Qed.

Example demo_waits : anchors demo_later !! 1%N = Some (AWaiting 0 1 (100 * Second)).
Proof. vm_compute. reflexivity. Qed.

Lemma FlipGate_token_witness : ∃ x, holds demo_later !! 1%N = Some x ∧ holder demo_later = Some 1%N.
Proof.
  destruct (holds demo_later !! 1%N) as [x|] eqn:Hx; [|exfalso; vm_compute in Hx; discriminate Hx].
  exists x. split; [reflexivity|].
  assert (h_end <$> holds demo_later !! 1%N = Some None) as E by (vm_compute; reflexivity).
  rewrite Hx in E. injection E as E.
  exact (proj1 (proj1 (FlipGate_token _ _ demo_later demo_reachable) 1%N x Hx E)).
Defined.

Lemma FlipGate_phaseB_witness :
  ∃ x y c, phaseB_round 0 x (h_start y) (clock demo_later) demo_later = BCommit c.
Proof.
  destruct (holds demo_later !! 1%N) as [y|] eqn:Hy; [|exfalso; vm_compute in Hy; discriminate Hy].
  destruct (e_heap demo_later !! 0%N) as [x|] eqn:Hx; [|exfalso; vm_compute in Hx; discriminate Hx].
  assert ((h_end <$> holds demo_later !! 1%N, h_e <$> holds demo_later !! 1%N,
           h_start <$> holds demo_later !! 1%N) = (Some None, Some 0%N, Some (100 * Second))) as E
    by (vm_compute; reflexivity).
  rewrite Hy in E. injection E as E1 E2 E3.
  destruct (FlipGate_phaseB _ _ demo_later 1%N y x demo_reachable Hy E1) as (_ & H & _).
  - rewrite E2. exact Hx.
  - vm_compute. reflexivity.
  - destruct H as (c & Hc).
    + rewrite E3. vm_compute. split; [discriminate|reflexivity].
    + exists x, y, c. rewrite E2 in Hc. exact Hc.
Defined.

(** A suite that served one anchor long ago. *)
Definition demo_serving : Gate := join 1 "https|h|/s" (clock demo0) demo0.
Definition demo_second : Gate := tick (101 * Second) demo_serving.
Definition demo_done : Gate := TokenDone 1 0 (100 * Second) (clock demo_second) demo_second.
Definition demo_idle : Gate := tick (200 * Second) demo_done.

Lemma demo_idle_reachable : gate_reachable (10 * Second) (100 * Second) demo_idle.
Proof.
  exists demo0. split; [vm_compute; reflexivity|].
  apply rtc_l with demo_serving; [apply (gs_join demo0 1 "https|h|/s"); vm_compute; reflexivity|].
  apply rtc_l with demo_second; [apply (gs_tick demo_serving); vm_compute; discriminate|].
  apply rtc_l with demo_done; [apply (gs_done demo_second 1 0); vm_compute; reflexivity|].
  apply rtc_l with demo_idle; [apply (gs_tick demo_done); vm_compute; discriminate|].
  apply rtc_refl.
Qed.

Lemma FlipGate_forgets_nothing_witness :
  ∃ x, e_heap demo_idle !! 0%N = Some x ∧ e_hold x = None.
Proof.
  destruct (e_heap demo_idle !! 0%N) as [x|] eqn:Hx; [|exfalso; vm_compute in Hx; discriminate Hx].
  exists x. split; [reflexivity|].
  refine (proj1 (proj2 (FlipGate_forgets_nothing _ _ demo_idle "https|h|/s" "https|h|/s" 0%N x
            demo_idle_reachable _ Hx _))).
  - vm_compute. reflexivity.
  - left. vm_compute. reflexivity.
Defined.
