(* ===== verification/Examples.v ===== *)
(** * A small archive's life

    A concrete database, built by running the operations from the empty one:
    a suite is created, two snapshots of it are adopted one after the other,
    and the suite is deleted.  The theorems of the cache are applied to these
    states, so that their hypotheses are seen to hold of states the program
    reaches. *)
From S2P Require Import Prelude GoStrings AptPath DebVersion Tables Invariant Snapshots Suites GC Retention Rows Store.
Local Open Scope Z_scope.

(** ** Running operations *)

Definition run {A} (m : T A) (d : DB) : DB := (atomically m d).2.

Lemma wf_run {A} (m : T A) d : triple wf m (λ _, wf) → wf d → wf (run m d).
Proof.
  intros Hm Hwf. unfold run. destruct (atomically m d) as [[r|e] d'] eqn:E; simpl.
  - apply atomically_ok in E. by eapply Hm.
  - apply atomically_err in E. by subst.
Qed.

Definition answer {A} (m : T A) (d : DB) : result cache_error A := (atomically m d).1.

Lemma run_ok {A} (m : T A) d a : answer m d = Ok a → m d = Ok (a, run m d).
Proof. unfold answer, run, atomically. destruct (m d) as [[x d']|e]; simpl; congruence. Qed.

Lemma run_atomically {A} (m : T A) d a :
  answer m d = Ok a → atomically m d = (Ok a, run m d).
Proof. intros H%run_ok. by apply atomically_ok. Qed.

Fixpoint repeat_char (n : nat) (s : string) : string :=
  match n with O => "" | S n => s +:+ repeat_char n s end.

Definition hashA : string := Eval vm_compute in repeat_char 64 "a".
Definition hashB : string := Eval vm_compute in repeat_char 64 "b".
Definition hashC : string := Eval vm_compute in repeat_char 64 "c".
Definition hashD : string := Eval vm_compute in repeat_char 64 "d".

Definition stable : SuiteKey := ("https", "deb.example.org", "/debian/dists/stable").

Definition stable_seed : SuiteSeed :=
  {| sd_key := stable; sd_last_check := Some 1000; sd_last_success := Some 1000;
     sd_etag := None; sd_lastmod := None; sd_requested := 1000; sd_signed_seen := 0;
     sd_cached := [] |}.

Definition caps : SuiteCaps := {| cap_global := 10; cap_per_host := 2 |}.

Definition inline (h : string) : SnapshotCandidate :=
  {| sc_suite := stable; sc_inrelease := Some h; sc_etag := None; sc_lastmod := None;
     sc_release := None; sc_release_gpg := None; sc_coverage := false;
     sc_form := FormInline; sc_date := Some 900 |}.

Definition member (id : Z) (h : string) : SnapshotMember :=
  {| sm_id := id; sm_path := "main/binary-amd64/Packages"; sm_blob := h; sm_declared := h |}.

(** ** The states *)

Definition blobs : DB :=
  run (PutBlob hashD 40 1000) (run (PutBlob hashC 30 1000)
    (run (PutBlob hashB 20 1000) (run (PutBlob hashA 10 1000) empty_db))).

Definition created : DB := run (createSuiteTx stable_seed caps None 1000) blobs.

Definition candidate : DB := run (InsertCandidateSnapshot (inline hashA) 1100) created.

Definition adopted : DB :=
  run (CommitAdoption 1 [member 1 hashB] [] [] [] true 1200 1200) candidate.

Definition candidate2 : DB := run (InsertCandidateSnapshot (inline hashC) 1300) adopted.

Definition displaced : DB :=
  run (CommitAdoption 2 [member 2 hashB] [] [] [] true 1200 1200) candidate2.

(** Nobody asked for the suite for a day: it is reaped, its snapshots
    retired. *)
Definition reaped : DB := run (ReapIdleSuite stable (Some 2) 2000 100000) displaced.

(** Before its first adoption the suite's anchor and an index of it are
    cached. *)
Definition anchor_path : string := "/debian/dists/stable/InRelease".
Definition index_path : string := "/debian/dists/stable/main/binary-amd64/Packages".
Definition deb_path : string := "/debian/pool/main/c/curl/curl_8.0_amd64.deb".
Definition other_path : string := "/debian/pool/main/c/curl/curl_8.0_arm64.deb".

Definition cached (meta : bool) (h : string) : URLPath :=
  {| up_blob := Some h; up_upstream := "https://deb.example.org"; up_is_metadata := meta;
     up_last_requested := Some 1000; up_request_count := 1; up_last_fetched := Some 1000;
     up_etag := None; up_lastmod := None; up_dropped := None |}.

Definition at_host (p : string) : URLKey := ("https", "deb.example.org", p).

Definition legacy : DB :=
  run (PutURLPath (at_host index_path) (cached true hashB))
    (run (PutURLPath (at_host anchor_path) (cached true hashA)) created).

(** A snapshot that declares packages, one of them cached. *)
Definition declares (id : Z) (p arch version : string) : PackageHash :=
  {| pkh_key := at_host p; pkh_declared := hashD; pkh_id := id; pkh_name := "curl";
     pkh_arch := arch; pkh_version := version; pkh_flat := "" |}.

Definition packaged : DB :=
  run (PutURLPath (at_host deb_path) (cached false hashD))
    (run (CommitAdoption 1 [member 1 hashB] []
            [declares 1 deb_path "amd64" "8.0-1"; declares 1 other_path "arm64" "8.0-1"]
            [] true 1200 1200) candidate).

Lemma wf_blobs_state : wf blobs.
Proof. unfold blobs. do 4 (apply wf_run; [apply wf_PutBlob|]). apply wf_empty. Qed.

Lemma wf_created : wf created.
Proof. apply wf_run; [apply wf_createSuiteTx|apply wf_blobs_state]. Qed.

Lemma wf_candidate : wf candidate.
Proof. apply wf_run; [apply wf_InsertCandidateSnapshot|apply wf_created]. Qed.

Lemma wf_adopted : wf adopted.
Proof. apply wf_run; [apply wf_CommitAdoption|apply wf_candidate]. Qed.

Lemma wf_candidate2 : wf candidate2.
Proof. apply wf_run; [apply wf_InsertCandidateSnapshot|apply wf_adopted]. Qed.

Lemma wf_displaced : wf displaced.
Proof. apply wf_run; [apply wf_CommitAdoption|apply wf_candidate2]. Qed.

Lemma wf_reaped : wf reaped.
Proof. apply wf_run; [apply wf_ReapIdleSuite|apply wf_displaced]. Qed.

Lemma wf_legacy : wf legacy.
Proof. do 2 (apply wf_run; [apply wf_PutURLPath|]). apply wf_created. Qed.

Lemma wf_packaged : wf packaged.
Proof.
  apply wf_run; [apply wf_PutURLPath|]. apply wf_run; [apply wf_CommitAdoption|].
  apply wf_candidate.
Qed.

Example displaced_current : suite_current displaced stable = Some 2.
Proof. vm_compute. reflexivity. Qed.

Example displaced_stamps :
  (ss_adopted <$> snap_t displaced !! 1, ss_adopted <$> snap_t displaced !! 2)
  = (Some (Some 1200), Some (Some 1201)).
Proof. vm_compute. reflexivity. Qed.

Example displaced_counts :
  (b_refcount <$> blob_t displaced !! hashB, b_zeroed_at <$> blob_t displaced !! hashB)
  = (Some 1, Some None).
Proof. vm_compute. reflexivity. Qed.

Example reaped_snapshots :
  (ss_retired <$> snap_t reaped !! 1, ss_retired <$> snap_t reaped !! 2,
   suite_current reaped stable, b_refcount <$> blob_t reaped !! hashB)
  = (Some (Some 100000), Some (Some 100000), None, Some 0).
Proof. vm_compute. reflexivity. Qed.

(** ** The theorems at these states *)

Lemma created_run :
  createSuiteTx stable_seed caps None 1000 blobs = Ok (create_result SuiteCreated, created).
Proof. unfold created. apply run_ok. vm_compute. reflexivity. Qed.

Lemma displaced_run :
  CommitAdoption 2 [member 2 hashB] [] [] [] true 1200 1200 candidate2 = Ok (tt, displaced).
Proof. unfold displaced. apply run_ok. vm_compute. reflexivity. Qed.

#[local] Opaque blobs created candidate adopted candidate2 displaced reaped legacy packaged.

Lemma CommitAdoption_flip_witness :
  wf candidate2 ∧ wf displaced ∧
  LookupSnapshotMember displaced stable "main/binary-amd64/Packages" = Some (2, hashB).
Proof.
  split; [exact wf_candidate2|].
  destruct (CommitAdoption_flip 2 [member 2 hashB] [] [] [] true 1200 1200 candidate2
              (Ok tt) displaced wf_candidate2 (proj2 (atomically_ok _ _ _ _) displaced_run))
    as (Hwf & s & Hs & _ & _ & _ & Hm).
  split; [exact Hwf|]. destruct (Hm (member 2 hashB)) as [Hl _]; [by left|].
  assert (ss_suite <$> snap_t candidate2 !! 2 = Some stable) as E by (vm_compute; reflexivity).
  rewrite Hs in E. injection E as E. rewrite E in Hl. exact Hl.
Defined.

Lemma CommitAdoption_stamp_witness :
  ∃ s stamp, snap_t displaced !! 2 = Some s ∧ ss_adopted s = Some stamp ∧ 1200 <= stamp.
Proof.
  destruct (CommitAdoption_stamp 2 [member 2 hashB] [] [] [] true 1200 1200 candidate2 tt
              displaced wf_candidate2 displaced_run) as (s & stamp & Hs & Ha & Hle & _).
  exists s, stamp. exact (conj Hs (conj Ha Hle)).
Defined.

Lemma CommitAdoption_hot_witness : hot_kept candidate2 displaced.
Proof.
  exact (CommitAdoption_hot 2 [member 2 hashB] [] [] [] true 1200 1200 candidate2 tt
           displaced wf_candidate2 displaced_run).
Defined.

Lemma createSuiteTx_caps_witness :
  1000 < ReapRegardless ∧ count_suites created <= 10 ∧ count_host created "deb.example.org" <= 2.
Proof.
  split; [reflexivity|].
  pose proof (createSuiteTx_caps stable_seed caps None 1000 blobs
                (create_result SuiteCreated) created ltac:(reflexivity) created_run) as [Hc _].
  destruct Hc as (_ & _ & H1 & H2). split; [apply H1|apply H2]; reflexivity.
Defined.

Lemma RunBlobGCBatch_correct_witness :
  ∃ out d', @RunBlobGCBatch key_order_scan 10 60 2000 displaced = Ok (out, d') ∧ wf d' ∧
    (∀ h, blob_t d' !! h = if bool_decide (h ∈ map fst out) then None
                           else blob_t displaced !! h).
Proof.
  destruct (@RunBlobGCBatch_correct key_order_scan 10 60 2000 displaced wf_displaced
              ltac:(lia)) as (out & d' & Hrun & Hwf & _ & _ & _ & Hl & _).
  exists out, d'. exact (conj Hrun (conj Hwf Hl)).
Defined.

(** The batch takes the one blob nothing refers to. *)
Example blob_batch_takes :
  answer (@RunBlobGCBatch key_order_scan 10 60 2000) displaced = Ok [(hashD, 40)].
Proof. vm_compute. reflexivity. Qed.

Definition gc_batch : T (list (string * Z)) := @RunBlobGCBatch key_order_scan 10 60 1050.

Lemma heartbeat_protects_witness :
  let d1 := run (PutBlob hashA 10 1000) empty_db in
  gc_batch d1 = Ok ([], run gc_batch d1) ∧
  blob_t (run gc_batch d1) !! hashA = blob_t d1 !! hashA.
Proof.
  intros d1. assert (gc_batch d1 = Ok ([], run gc_batch d1)) as E.
  { apply run_ok. vm_compute. reflexivity. }
  split; [exact E|].
  refine (proj2 (@heartbeat_protects key_order_scan hashA 10 [] 10 60 1000 1050 empty_db tt d1
            [] (run gc_batch d1) wf_empty _ _ _ E)); [lia|lia|left].
  apply run_ok. vm_compute. reflexivity.
Defined.

Lemma RunSnapshotGCBatch_correct_witness :
  ∃ o p ids, @RunSnapshotGCBatch key_order_scan 10 60 0 2000 displaced
    = Ok ((o, p), cascaded ids displaced) ∧ wf (cascaded ids displaced).
Proof.
  destruct (@RunSnapshotGCBatch_correct key_order_scan 10 60 0 2000 displaced wf_displaced
              ltac:(lia) ltac:(lia)) as (o & p & ids & Hrun & Hwf & _).
  exists o, p, ids. exact (conj Hrun Hwf).
Defined.

(** The displaced snapshot goes when nothing is kept, and stays when one is. *)
Example snapshot_batch_takes :
  answer (@RunSnapshotGCBatch key_order_scan 10 60 0 2000) displaced = Ok (0, 1) ∧
  answer (@RunSnapshotGCBatch key_order_scan 10 60 1 2000) displaced = Ok (0, 0).
Proof. vm_compute. split; reflexivity. Qed.

Lemma RunRetiredSnapshotGCChunk_correct_witness :
  ∃ r d', @RunRetiredSnapshotGCChunk key_order_scan 1 reaped = Ok (r, d') ∧
    child_rows d' + Z.of_nat (size (snap_t d')) <=
    child_rows reaped + Z.of_nat (size (snap_t reaped)).
Proof.
  destruct (@RunRetiredSnapshotGCChunk_correct key_order_scan 1 reaped wf_reaped)
    as [[Hrun _]|(id & s & ms & ss & ps & d' & _ & _ & _ & _ & _ & _ & _ & _ & Hlt & Hrun)].
  - exists (0, false), reaped. split; [exact Hrun|lia].
  - destruct Hrun as [[Hrun _]|[Hrun _]].
    + exists (0, true), d'. split; [exact Hrun|lia].
    + exists (1, true), d'. split; [exact Hrun|lia].
Defined.

(** The cached package goes once the TTL and the hold are over, unless it is
    among the newest versions of its package, as it is here. *)
Lemma RunURLPathGCBatch_correct_witness :
  let _ := key_order_scan in
  ∃ res d', RunURLPathGCBatch 10 100 50 1 ("", "", "") 900000 packaged = Ok (res, d') ∧
    wf d' ∧ held packaged d'.
Proof.
  intros sc.
  destruct (RunURLPathGCBatch_correct 10 100 50 1 ("", "", "") 900000 packaged wf_packaged
              ltac:(lia) ltac:(lia)) as (res & d' & Hrun & Hwf & Hh & _).
  exists res, d'. exact (conj Hrun (conj Hwf Hh)).
Defined.

Lemma keepNewestNVersionSet_spec_witness :
  let l := ["1.0"; "2.0-1"; "2.00-1"; "0.9~rc1"] in
  (∀ w, w ∈ l → Compare "2.00-1" w = 0 → w ∈ keepNewestNVersionSet l 1) ∧
  (∀ w, w ∈ keepNewestNVersionSet l 1 → w ∈ l).
Proof.
  intros l.
  assert (∀ x, x ∈ l → nul_free x = true) as Hn.
  { intros x Hx. apply list_elem_of_In in Hx. simpl in Hx.
    destruct Hx as [<-|[<-|[<-|[<-|[]]]]]; reflexivity. }
  destruct (keepNewestNVersionSet_spec l 1 Hn) as (Hin & Heq & _). split.
  - intros w Hw E. apply (Heq "2.00-1" w); [|exact Hw|exact E|].
    + apply list_elem_of_In. right. right. left. reflexivity.
    + vm_compute. right. left.
  - intros w Hw. apply (proj1 (Hin w) Hw).
Defined.

Example newest_two :
  keepNewestNVersionSet ["1.0"; "2.0-1"; "2.00-1"; "0.9~rc1"] 2 = ["2.0-1"; "2.00-1"; "1.0"].
Proof. vm_compute. reflexivity. Qed.

Lemma InvalidateLegacyMetadata_correct_witness :
  ∃ d', InvalidateLegacyMetadata stable anchor_path hashA 2000 legacy = Ok (tt, d') ∧ wf d' ∧
    url_t d' !! at_host index_path = None.
Proof.
  assert (sf_current <$> suite_t legacy !! stable = Some None) as Hc by (vm_compute; reflexivity).
  destruct (suite_t legacy !! stable) as [f|] eqn:Hs; [|discriminate Hc].
  injection Hc as Hc.
  assert (url_t legacy !! at_host anchor_path = Some (cached true hashA)) as Ha
    by (vm_compute; reflexivity).
  assert (url_t legacy !! at_host index_path = Some (cached true hashB)) as Hi
    by (vm_compute; reflexivity).
  destruct (InvalidateLegacyMetadata_correct stable anchor_path hashA 2000 legacy _ _ wf_legacy
              ltac:(vm_compute; reflexivity) (or_introl eq_refl) ltac:(vm_compute; reflexivity)
              Hs Hc Ha eq_refl) as (d' & Hrun & Hwf & Hrows & _).
  exists d'. split; [exact Hrun|]. split; [exact Hwf|].
  rewrite (Hrows (at_host index_path) (cached true hashB) Hi). vm_compute. reflexivity.
Defined.

(** The candidate's newer version of the hot package is prefetched, the other
    architecture's not. *)
Definition next_cand : list PackageHash :=
  [declares 2 "/debian/pool/main/c/curl/curl_8.1_amd64.deb" "amd64" "8.1-1";
   declares 2 deb_path "amd64" "8.0-1"; declares 2 other_path "arm64" "8.0-1"].

Example hot_set_newest :
  ComputeHotSet packaged "https" "deb.example.org" 1 2 next_cand 500 1400 1
  = Ok [{| hs_path := "/debian/pool/main/c/curl/curl_8.1_amd64.deb"; hs_declared := hashD |}].
Proof. vm_compute. reflexivity. Qed.

Lemma ComputeHotSet_spec_witness :
  ComputeHotSet packaged "https" "deb.example.org" 1 2 next_cand 500 1400 1
  = ComputeHotSet packaged "https" "deb.example.org" 1 2 (reverse next_cand) 500 1400 1.
Proof.
  destruct (ComputeHotSet_spec packaged "https" "deb.example.org" 1 2 next_cand 500 1400 1)
    as (_ & _ & H).
  destruct H as (out & E & _ & Hperm); [lia|lia| |].
  - intros x Hx. apply list_elem_of_In in Hx. simpl in Hx.
    destruct Hx as [<-|[<-|[<-|[]]]]; split_and!; reflexivity.
  - rewrite E. symmetry. apply Hperm; [symmetry; apply reverse_Permutation|].
    intros a b Ha Hb. apply list_elem_of_In in Ha, Hb. simpl in Ha, Hb.
    destruct Ha as [<-|[<-|[<-|[]]]], Hb as [<-|[<-|[<-|[]]]]; intros Hk; try reflexivity;
      discriminate Hk.
Defined.

(** ** Sequences of transactions *)

(** An enumeration order and a clock format for the examples. *)
#[local] Existing Instance key_order_scan.
Definition no_dates : HTTPTime := {| ParseTime := λ _, None; FormatTime := λ _, "" |}.
#[local] Existing Instance no_dates.

Lemma step_run {A} (m : T A) d : operation m → step d (run m d).
Proof. intros Hop. exists A, m. exact (conj Hop eq_refl). Qed.

Lemma reachable_run {A} (m : T A) d : operation m → reachable d → reachable (run m d).
Proof. intros Hop Hr. eapply rtc_r; [exact Hr|]. apply step_run, Hop. Qed.

Lemma reachable_candidate : reachable candidate.
Proof.
  #[local] Transparent blobs created candidate.
  unfold candidate, created, blobs. repeat (apply reachable_run; [constructor|]). apply rtc_refl.
Qed.
#[local] Opaque blobs created candidate.

Lemma reachable_displaced : reachable displaced.
Proof.
  #[local] Transparent adopted candidate2 displaced.
  unfold displaced, candidate2, adopted. repeat (apply reachable_run; [constructor|]).
  apply reachable_candidate.
Qed.
#[local] Opaque adopted candidate2 displaced.

Lemma reachable_safe_witness :
  reachable displaced ∧ ∀ h b, blob_t displaced !! h = Some b → b_refcount b <= live_refs displaced h.
Proof.
  split; [exact reachable_displaced|]. intros h b Hh.
  exact (proj1 (proj2 (proj2 (proj2 (reachable_safe displaced reachable_displaced)) h b Hh))).
Defined.

(** An unsigned snapshot of the suite's base, after the signed ones. *)
Definition unsigned : SnapshotCandidate :=
  {| sc_suite := ("http", "deb.example.org", "/debian/dists/stable"); sc_inrelease := Some hashD;
     sc_etag := None; sc_lastmod := None; sc_release := None; sc_release_gpg := None;
     sc_coverage := false; sc_form := FormUnsigned; sc_date := None |}.

Definition downgrade : DB := run (InsertCandidateSnapshot unsigned 1400) adopted.

Lemma adopted_run :
  CommitAdoption 1 [member 1 hashB] [] [] [] true 1200 1200 candidate = Ok (tt, adopted).
Proof. #[local] Transparent adopted. unfold adopted. apply run_ok. vm_compute. reflexivity. Qed.
#[local] Opaque adopted.

Lemma based_downgrade :
  based "deb.example.org" "/debian/dists/stable" adopted downgrade.
Proof.
  eapply rtc_l; [|apply rtc_refl]. split; [unfold downgrade; apply step_run; constructor|].
  vm_compute. reflexivity.
Qed.
#[local] Opaque downgrade.

Lemma signed_history_refuses_witness :
  ∃ e, CommitAdoption 2 [] [] [] [] true 1500 1500 downgrade = Err e ∧ e = ErrUnsignedDowngradeRefused.
Proof.
  destruct (snap_t candidate !! 1) as [s|] eqn:Hs; [|exfalso; vm_compute in Hs; discriminate Hs].
  destruct (snap_t downgrade !! 2) as [s'|] eqn:Hs'; [|exfalso; vm_compute in Hs'; discriminate Hs'].
  assert ((ss_form <$> snap_t candidate !! 1, ss_suite <$> snap_t candidate !! 1)
          = (Some FormInline, Some stable)) as E by (vm_compute; reflexivity).
  assert ((ss_form <$> snap_t downgrade !! 2, ss_suite <$> snap_t downgrade !! 2,
           ss_adopted <$> snap_t downgrade !! 2, ss_retired <$> snap_t downgrade !! 2)
          = (Some FormUnsigned, Some (sc_suite unsigned), Some None, Some None)) as E'
    by (vm_compute; reflexivity).
  rewrite Hs in E. rewrite Hs' in E'. injection E as E1 E2. injection E' as E3 E4 E5 E6.
  destruct (signed_history_refuses 1 [member 1 hashB] [] [] [] true 1200 1200 candidate tt adopted
              downgrade s 2 [] [] [] [] true 1500 1500 s' reachable_candidate adopted_run Hs)
    as (e & He & Hwhy); try exact Hs'.
  - rewrite E1. discriminate.
  - rewrite E2. reflexivity.
  - rewrite E2. exact based_downgrade.
  - exact E3.
  - rewrite E2, E4. reflexivity.
  - rewrite E2, E4. reflexivity.
  - exists e. split; [exact He|]. exact (Hwhy E5 E6).
Defined.

(** A download that began before the suite was reaped and created again. *)
Definition recreated : DB :=
  run (createSuiteTx stable_seed caps None 100100) reaped.

Definition late_download (g : Z * Z) : FetchedRow :=
  {| fr_key := at_host index_path; fr_row := cached true hashB; fr_generation := Some g;
     fr_suite := Some stable; fr_create := None; fr_mark_seen := 0; fr_restamp := None |}.

Lemma steps_reaped : rtc step displaced reaped ∧ rtc step reaped recreated.
Proof.
  #[local] Transparent reaped.
  split; (eapply rtc_l; [|apply rtc_refl]); unfold reaped, recreated; apply step_run; constructor.
Qed.
#[local] Opaque reaped recreated.

Lemma generation_fence_witness :
  let m := late_download (MetadataGeneration displaced stable) in
  atomically (storeFetchedTx m caps None 100200) recreated = (Err ErrMetadataChanged, recreated).
Proof.
  intros m. destruct (suite_t displaced !! stable) as [f|] eqn:Hf;
    [|exfalso; vm_compute in Hf; discriminate Hf].
  refine (generation_fence stable f displaced reaped recreated m caps None 100200
            reachable_displaced Hf _ (proj2 steps_reaped) eq_refl eq_refl).
  left. split; [exact (proj1 steps_reaped)|]. vm_compute. reflexivity.
Defined.
