(* ===== verification/AdoptionRuns.v ===== *)
(** * Two adoptions

    A suite of the concrete archive of [Examples] with a signed Release of one
    member: one run in which the servers answer it, and one in which they do
    not have it.  The theorems of [AdoptionSound] are applied to both. *)
From S2P Require Import Prelude GoStrings AptPath GoText ReleaseParse Tables Invariant Snapshots Suites GC Rows PackageIndex MemberFetch ReleaseDate Adoption AdoptionSafety AdoptionSound Examples.
Local Open Scope Z_scope.

Definition signed_text : string :=
  join (String lf "")
    ["Origin: Demo"; "Date: Thu, 01 Jan 1970 00:10:00 UTC"; "SHA256:";
     " " +:+ demo_sha256 +:+ " 5 main/Contents-amd64"; ""].

Definition demo_verifier : Verifier :=
  {| VerifyInline := λ _ b, if (b =? "signed")%string then Some signed_text else None;
     VerifyDetached := λ _ _ _, None |}.
Definition demo_decompress : Decompress := {| gunzip := no_stream; unxz := no_stream |}.
Definition open_barrier : Barrier := {| gate_closed := λ _, false; gate_aborts := λ _, false |}.
Definition mute : Details := {| detail := λ _, "" |}.

Definition demo_adopter : Adopter :=
  {| adoptUnsigned := false; hotPackagesWindow := 0; maxVersionsPerPackage := 3;
     architectureAllowlist := None; tolerateOptionalMembers := false; memberRetryCount := 1;
     requiredArchitectures := ∅; flipGateEnabled := true |}.

(** The member's file is already pooled, corrupted. *)
Definition start_world : World :=
  {| w_db := created; w_pool := {[ demo_sha256 := "jello" ]}; w_tick := 0 |}.

Definition gone_env : Env :=
  {| sha256 := @sha256 quiet_env; sha512 := @sha512 quiet_env; clock := @clock quiet_env;
     disk_fault := λ _, false; lost := λ _, false; cancelled := λ _, false;
     serve := λ _ _, StatusError 404 |}.

Definition run_in (env : Env) : result adoption_error Z * World :=
  @runShared env dateless demo_verifier demo_decompress open_barrier mute demo_adopter stable
    (PayloadInline "signed") "" "" start_world.

Definition good_run : result adoption_error Z * World := run_in quiet_env.
Definition bad_run : result adoption_error Z * World := run_in gone_env.

Lemma good_run_answer : good_run = (Ok 1, good_run.2).
Proof. apply answered_pair. vm_compute. reflexivity. Qed.

Lemma bad_run_answer : bad_run = (Err (GuardFailed ""), bad_run.2).
Proof. apply answered_pair. vm_compute. reflexivity. Qed.

(** The failed run leaves what is served; the other end, a lost answer, is not
    one of its world's. *)
Lemma failed_adoption_serves_witness :
  bad_run.1 = Err (GuardFailed "") ∧ serves created (w_db bad_run.2).
Proof.
  split; [rewrite bad_run_answer; reflexivity|].
  destruct (@failed_adoption_serves gone_env dateless demo_verifier demo_decompress open_barrier mute
    demo_adopter stable (PayloadInline "signed") "" "" start_world (GuardFailed "") bad_run.2 wf_created bad_run_answer)
    as [(_ & Hs & _)|(Hlost & _)]; [exact Hs|discriminate Hlost].
Defined.

Lemma adopted_run_sound_witness :
  good_run.1 = Ok 1 ∧ suite_current (w_db good_run.2) stable = Some 1.
Proof.
  split; [rewrite good_run_answer; reflexivity|].
  destruct (@adopted_run_sound quiet_env dateless demo_verifier demo_decompress open_barrier mute
    demo_adopter stable (PayloadInline "signed") "" "" start_world 1 good_run.2 wf_created good_run_answer)
    as (text & members & Had). exact (ad_current _ _ _ _ _ _ _ _ Had).
Defined.

(** The same run when the answer of its last statement, the commit, is lost:
    it fails, and its suite is the adopted one. *)
Definition deaf_env : Env :=
  {| sha256 := @sha256 quiet_env; sha512 := @sha512 quiet_env; clock := @clock quiet_env;
     disk_fault := λ _, false; lost := λ n, (S n =? w_tick good_run.2)%nat; cancelled := λ _, false;
     serve := @serve quiet_env |}.

Example deaf_run :
  let r := run_in deaf_env in
  r.1 = Err (DBFailed None) ∧ suite_current (w_db r.2) stable = Some 1.
Proof. vm_compute. split; reflexivity. Qed.
