(* ===== verification/Reaper.v ===== *)
(** * The suite reaper and POST /forget (internal/freshness reaper.go,
    forget.go, reconcile.go sweepReconcileMemo; internal/cache suite_reap.go,
    flat_reap.go)

    Every hour the reaper lists the suites, works out which of them nobody asks
    for, which have a path nothing can request, and which cache only error
    pages, and takes a bounded number of them away, each under its suite's mutex
    and by a compare-and-delete.  Once a day it sweeps the markers of signatures
    whose base has no suite any more.  A forward step of the wall clock defers
    all of that.  The other goroutines run between any two of its steps
    ([others]); a write may be refused, done, or done without the caller learning
    of it ([fate]). *)
From S2P Require Import Prelude GoStrings AptPath ReleaseDate Tables Invariant Snapshots Suites GC MemberFetch Scheduler.
Local Open Scope Z_scope.

(** ** Constants *)

Definition reapInterval : Z := 3600 * Second.
Definition reapUptimeFloor : Z := 3600 * Second.
Definition reapsPerRun : nat := 25.
Definition regardlessReapsPerRun : nat := 250.
Definition forwardStepSlack : Z := 3600 * Second.
Definition junkGrace : Z := 24 * 3600 * Second.
Definition markerTTL : Z := 365 * 24 * 3600 * Second.
Definition dailyEvery : Z := 24 * 3600 * Second.
Definition maxStepAhead : Z := 2 ^ 63 - 1.
Definition reapMetadataBatch : nat := 1000.

(** ** The guard against a forward step of the wall clock *)

(** The zero time of [lastMono] and [deferUntil] is [None]. *)
Record Guard := {
  g_lastWall : Z; g_lastMono : option Z; g_deferUntil : option Z; g_stepAhead : Z }.

(** How far the wall clock ran ahead of the monotonic clock, in the arithmetic
    of [time.Duration]: the wall clock counts in whole seconds. *)
Definition ran_ahead (g : Guard) (last now mono : Z) : Z :=
  wrap64 (wrap64 ((Unix now - Unix (g_lastWall g)) * Second) - (mono - last)).

(** The guard after it looked, whether the run is deferred, and whether a step
    was found. *)
Definition deferredByForwardStep (floor now mono : Z) (g : Guard) : bool * bool * Guard :=
  let stepped := match g_lastMono g with
                 | None => false
                 | Some last => forwardStepSlack <? ran_ahead g last now mono
                 end in
  let ahead := match g_lastMono g with None => 0 | Some last => ran_ahead g last now mono end in
  let until := if stepped then Some (mono + floor) else g_deferUntil g in
  (match until with None => false | Some t => mono <? t end, stepped,
   {| g_lastWall := now; g_lastMono := Some mono; g_deferUntil := until;
      g_stepAhead := if stepped then g_stepAhead g + Z.min ahead (maxStepAhead - g_stepAhead g)
                     else g_stepAhead g |}).

(** ** The candidates *)

Record reapCandidate := {
  rc_key : SuiteKey; rc_current : option Z; rc_requested : option Z;
  rc_reason : string; rc_cutoff : Z; rc_evidence : list string }.

Record futureStamp := { fs_key : SuiteKey; fs_stamp : Z }.
Definition no_stamp : futureStamp := {| fs_key := zero_key; fs_stamp := 0 |}.

#[export] Instance futureStamp_dec : EqDecision futureStamp.
Proof. solve_decision. Defined.

(** What is made of one listed row. *)
Inductive judged := Take (c : reapCandidate) | Ahead (t : Z) | Leave.

Definition listed_row : Type := SuiteKey * SuiteFreshness.

Definition candidate_of (row : listed_row) (reason : string) (cutoff : Z) : reapCandidate :=
  {| rc_key := row.1; rc_current := sf_current row.2; rc_requested := sf_last_requested row.2;
     rc_reason := reason; rc_cutoff := cutoff; rc_evidence := [] |}.

Definition judge (idleTTL now : Z) (row : listed_row) : judged :=
  let idleCutoff := Unix (now - idleTTL) in
  let futureAfter := Unix now + clockStepTolerance / Second in
  if negb (IsCanonicalSuitePath (key_path row.1)) then Take (candidate_of row "non_canonical" ReapRegardless)
  else
    match sf_last_requested row.2 with
    | None => Leave
    | Some t =>
        if futureAfter <? t then Ahead t
        else if t <? idleCutoff then Take (candidate_of row "idle" (idleCutoff - 1))
        else Leave
    end.

Definition regardless (c : reapCandidate) : bool := rc_cutoff c =? ReapRegardless.
Definition stamp_of (c : reapCandidate) : Z := default (- 2 ^ 63) (rc_requested c).

(** [sortCandidates]'s comparison: not after. *)
Definition candidate_leb (a b : reapCandidate) : bool :=
  if negb (Bool.eqb (regardless a) (regardless b)) then regardless a
  else if negb (stamp_of a =? stamp_of b) then stamp_of a <? stamp_of b
  else str_leb (suiteKey (rc_key a)) (suiteKey (rc_key b)).

Definition sortCandidates : list reapCandidate → list reapCandidate := sort_by candidate_leb.

Definition further (idleTTL now : Z) (best : futureStamp) (row : listed_row) : futureStamp :=
  match judge idleTTL now row with
  | Ahead t => if fs_stamp best <? t then {| fs_key := row.1; fs_stamp := t |} else best
  | _ => best
  end.

(** The candidates of a listing, and the furthest stamp in the future. *)
Definition candidates (idleTTL now : Z) (rows : list listed_row) : list reapCandidate * futureStamp :=
  (sortCandidates (omap (λ row, match judge idleTTL now row with Take c => Some c | _ => None end) rows),
   fold_left (further idleTTL now) rows no_stamp).

Fixpoint leading (cands : list reapCandidate) : nat :=
  match cands with
  | c :: cands => if regardless c then S (leading cands) else O
  | [] => O
  end.

Definition runBudgets (cands : list reapCandidate) : list reapCandidate :=
  let n := leading cands in
  take regardlessReapsPerRun (take n cands) ++ take reapsPerRun (drop n cands).

(** ** The reaper and what runs beside it *)

(** What a blob's head is to one kind of file; a flat index's name picks its
    sniff. *)
Definition sniffKey : Type := SuiteFile * string * string.

Definition file_number (f : SuiteFile) : nat :=
  match f with
  | NotSuiteFile => 0 | FileInRelease => 1 | FileRelease => 2 | FileReleaseGPG => 3 | FileFlatIndex => 4
  end.
Definition numbered_file (n : nat) : option SuiteFile :=
  [NotSuiteFile; FileInRelease; FileRelease; FileReleaseGPG; FileFlatIndex] !! n.
#[export] Instance SuiteFile_countable : Countable SuiteFile.
Proof. apply (inj_countable file_number numbered_file). by intros []. Defined.

(** What the log and the other parts of the process see of a run. *)
Inductive effect :=
| HoldTaken (k : SuiteKey)
| HoldReleased (k : SuiteKey) (deleted : bool)
| TouchForgotten (k : SuiteKey)
| ClockStep (stamp : string) (k : SuiteKey) (stored : Z)
| WallStep
| SuiteReaped (k : SuiteKey) (reason : string) (rows : Z) (settled : bool)
| SuiteForgotten (k : SuiteKey) (rows : Z) (counts : option (Z * Z))
| NotForgotten (k : SuiteKey) (reason : string)
| MarkersSwept (n : Z)
| Panicked (where_ : string) (k : SuiteKey)
| StepFailed (step : string)
| RunComplete (tried reaped swept : Z) (deferred : bool).

(** The end of a write: not done, done with an error for the caller (its
    context ended between the commit and the answer), done. *)
Inductive fate := Refused | Unanswered | Done.

Class Around := {
  others : nat → World → World;
  others_memo : nat → gset Z → gset Z;     (** [reconciledSnapshots] is the checker's too *)
  wall : nat → Z;                          (** [checker.now], nanoseconds *)
  monotonic : nat → Z;                     (** [time.Now] *)
  stamp_now : nat → Z;                     (** the cache's [nowUnix] *)
  context_ended : nat → bool;
  query_fails : nat → bool;
  submit_fate : nat → fate;
  file_fails : nat → bool;
  hold_granted : nat → bool;
  panics : nat → bool;                     (** a bug strikes while a suite is held *)
}.

Record RState := {
  rs_world : World;
  rs_guard : Guard;
  rs_reported : futureStamp;
  rs_sniffs : gmap sniffKey bool;
  rs_dailyAt : option Z;
  rs_reportedMarker : SuiteKey * Z;
  rs_reconciled : gset Z;
  rs_effects : list effect;
}.

Definition rp (A : Type) : Type := RState → A * RState.
#[export] Instance rp_ret : MRet rp := λ A a s, (a, s).
#[export] Instance rp_bind : MBind rp := λ A B f m s, let '(a, s) := m s in f a s.

Section reaper.
Context `{Around} `{TableScan}.
Context (idleTTL floor : Z) (adopter : bool).

(** ** The steps *)

Definition set_world (w : World) (s : RState) : RState :=
  {| rs_world := w; rs_guard := rs_guard s; rs_reported := rs_reported s; rs_sniffs := rs_sniffs s;
     rs_dailyAt := rs_dailyAt s; rs_reportedMarker := rs_reportedMarker s; rs_reconciled := rs_reconciled s;
     rs_effects := rs_effects s |}.

Definition moment : rp nat := λ s,
  let n := w_tick (rs_world s) in
  let w := others n (rs_world s) in
  (n, {| rs_world := {| w_db := w_db w; w_pool := w_pool w; w_tick := S n |}; rs_guard := rs_guard s;
         rs_reported := rs_reported s; rs_sniffs := rs_sniffs s; rs_dailyAt := rs_dailyAt s;
         rs_reportedMarker := rs_reportedMarker s; rs_reconciled := others_memo n (rs_reconciled s);
         rs_effects := rs_effects s |}).

Definition get_reaper : rp RState := λ s, (s, s).
Definition upd_guard (g : Guard) : rp unit := λ s,
  (tt, {| rs_world := rs_world s; rs_guard := g; rs_reported := rs_reported s; rs_sniffs := rs_sniffs s;
          rs_dailyAt := rs_dailyAt s; rs_reportedMarker := rs_reportedMarker s; rs_reconciled := rs_reconciled s;
          rs_effects := rs_effects s |}).
Definition upd_reported (f : futureStamp) : rp unit := λ s,
  (tt, {| rs_world := rs_world s; rs_guard := rs_guard s; rs_reported := f; rs_sniffs := rs_sniffs s;
          rs_dailyAt := rs_dailyAt s; rs_reportedMarker := rs_reportedMarker s; rs_reconciled := rs_reconciled s;
          rs_effects := rs_effects s |}).
Definition upd_sniffs (m : gmap sniffKey bool) : rp unit := λ s,
  (tt, {| rs_world := rs_world s; rs_guard := rs_guard s; rs_reported := rs_reported s; rs_sniffs := m;
          rs_dailyAt := rs_dailyAt s; rs_reportedMarker := rs_reportedMarker s; rs_reconciled := rs_reconciled s;
          rs_effects := rs_effects s |}).
Definition upd_daily (t : Z) : rp unit := λ s,
  (tt, {| rs_world := rs_world s; rs_guard := rs_guard s; rs_reported := rs_reported s; rs_sniffs := rs_sniffs s;
          rs_dailyAt := Some t; rs_reportedMarker := rs_reportedMarker s; rs_reconciled := rs_reconciled s;
          rs_effects := rs_effects s |}).
Definition upd_marker (m : SuiteKey * Z) : rp unit := λ s,
  (tt, {| rs_world := rs_world s; rs_guard := rs_guard s; rs_reported := rs_reported s; rs_sniffs := rs_sniffs s;
          rs_dailyAt := rs_dailyAt s; rs_reportedMarker := m; rs_reconciled := rs_reconciled s;
          rs_effects := rs_effects s |}).
Definition upd_memo (f : gset Z → gset Z) : rp unit := λ s,
  (tt, {| rs_world := rs_world s; rs_guard := rs_guard s; rs_reported := rs_reported s; rs_sniffs := rs_sniffs s;
          rs_dailyAt := rs_dailyAt s; rs_reportedMarker := rs_reportedMarker s; rs_reconciled := f (rs_reconciled s);
          rs_effects := rs_effects s |}).
Definition emit (e : effect) : rp unit := λ s,
  (tt, {| rs_world := rs_world s; rs_guard := rs_guard s; rs_reported := rs_reported s; rs_sniffs := rs_sniffs s;
          rs_dailyAt := rs_dailyAt s; rs_reportedMarker := rs_reportedMarker s; rs_reconciled := rs_reconciled s;
          rs_effects := rs_effects s ++ [e] |}).

(** A read on the pool of connections: [None] when it failed. *)
Definition query {A} (f : DB → A) : rp (option A) :=
  n ← moment; s ← get_reaper; mret (if query_fails n then None else Some (f (w_db (rs_world s)))).

(** [submitWrite]: [None] is an error. *)
Definition submit {A} (m : Z → T A) : rp (option A) :=
  n ← moment;
  match submit_fate n with
  | Refused => mret None
  | fate => (λ s,
      match atomically (m (stamp_now n)) (w_db (rs_world s)) with
      | (Ok a, d) =>
          (match fate with Done => Some a | _ => None end,
           set_world {| w_db := d; w_pool := w_pool (rs_world s); w_tick := w_tick (rs_world s) |} s)
      | (Err _, _) => (None, s)
      end) : rp (option A)
  end.

Definition panicked : rp bool := n ← moment; mret (panics n).
Definition ended : rp bool := n ← moment; mret (context_ended n).
Definition clock_read : rp (Z * Z) := n ← moment; mret (wall n, monotonic n).

(** ** Holding a suite *)

Definition HoldSuite (k : SuiteKey) : rp bool :=
  n ← moment; if hold_granted n then _ ← emit (HoldTaken k); mret true else mret false.
Definition release (k : SuiteKey) (deleted : bool) : rp unit := emit (HoldReleased k deleted).

(** [suiteRowGone] and the reaper's [settledGone]: a read error answers false. *)
Definition settledGone (k : SuiteKey) : rp bool :=
  r ← query (λ d, bool_decide (suite_t d !! k = None)); mret (default false r).

(** ** Deleting one suite *)

Fixpoint delete_batches (fuel : nat) (k : SuiteKey) (paths : list string) (total : Z) : rp (Z * bool) :=
  match paths, fuel with
  | [], _ | _, O => mret (total, true)
  | _, S fuel =>
      r ← submit (deleteURLPathRows k (take reapMetadataBatch paths));
      match r with
      | None => mret (total, false)
      | Some n => delete_batches fuel k (drop reapMetadataBatch paths) (total + n)
      end
  end.

(** Rows deleted, and whether every batch was done; each batch takes at least one
    path, so their number is enough fuel. *)
Definition DeleteSuiteMetadata (k : SuiteKey) : rp (Z * bool) :=
  if negb (IsCanonicalSuitePath (key_path k)) then mret (0, true)
  else
    p ← query (λ d, suiteMetadataPaths d k);
    match p with
    | None => mret (0, false)
    | Some (plain, anchors) =>
        r ← delete_batches (length plain) k plain 0;
        let '(n, ok) := r in
        if ok : bool then delete_batches (length anchors) k anchors n else mret (n, false)
    end.

(** [ReapIdleSuite] with the settling of a failed submit: deleted, gone, and
    whether there was no error. *)
Definition reap_settled (k : SuiteKey) (want : option Z) (cutoff : Z) : rp (bool * bool * bool) :=
  r ← submit (ReapIdleSuite k want cutoff);
  o ← match r with
      | Some (deleted, gone) => mret (deleted, gone, true)
      | None => gone ← settledGone k; mret (false, gone, false)
      end;
  _ ← (if o.1.2 : bool then emit (TouchForgotten k) else mret tt);
  mret o.

Definition forget_settled (k : SuiteKey) (want : option Z) : rp (ForgetResult * bool) :=
  r ← submit (ForgetSuite k want);
  o ← match r with
      | Some res => mret (res, true)
      | None =>
          gone ← settledGone k;
          mret ({| fg_deleted := false; fg_gone := gone; fg_markers := 0; fg_anchors := 0; fg_kept_by := [] |}, false)
      end;
  _ ← (if fg_gone o.1 then emit (TouchForgotten k) else mret tt);
  mret o.

Definition stepReadRow : string := "suite_reaper_read_suite_row_failed".
Definition stepDeleteMetadata : string := "suite_reaper_delete_metadata_failed".
Definition stepReap : string := "suite_reaper_reap_failed".

(** The failed step is empty when none failed. *)
Record heldReap := { hr_step : string; hr_rows : Z; hr_deleted : bool; hr_gone : bool }.
Definition held_reap (step : string) (rows : Z) (deleted gone : bool) : heldReap :=
  {| hr_step := step; hr_rows := rows; hr_deleted := deleted; hr_gone := gone |}.

(** A suite asked for, or adopted, since it was listed. *)
Definition changed (c : reapCandidate) (cur : SuiteFreshness) : bool :=
  negb (bool_decide (sf_current cur = rc_current c))
  || (negb (regardless c) && match sf_last_requested cur with None => true | Some t => rc_cutoff c <? t end).

(** [None]: a panic under the hold. *)
Definition reapHeld (c : reapCandidate) : rp (option heldReap) :=
  p ← panicked;
  if p : bool then mret None
  else
    cur ← query (λ d, suite_t d !! rc_key c);
    match cur with
    | None => mret (Some (held_reap stepReadRow 0 false false))
    | Some None => mret (Some (held_reap "" 0 false true))
    | Some (Some f) =>
        if changed c f then mret (Some (held_reap "" 0 false false))
        else
          m ← DeleteSuiteMetadata (rc_key c);
          let '(rows, ok) := m in
          if negb ok then mret (Some (held_reap stepDeleteMetadata rows false false))
          else
            o ← reap_settled (rc_key c) (rc_current c) (rc_cutoff c);
            let '(deleted, gone, ok) := o in
            p ← panicked;
            mret (if p : bool then None
                  else Some (held_reap (if ok : bool then "" else stepReap) rows deleted gone))
    end.

Definition reapSuite (c : reapCandidate) : rp bool :=
  ok ← HoldSuite (rc_key c);
  if negb ok then mret false
  else
    h ← reapHeld c;
    match h with
    | None =>
        gone ← settledGone (rc_key c);
        _ ← emit (Panicked "reaper" (rc_key c));
        _ ← release (rc_key c) gone;
        mret false
    | Some h =>
        let failed := negb (hr_step h =? "")%string in
        let settled := failed && hr_gone h in
        reaped ← (if failed && negb settled then _ ← emit (StepFailed (hr_step h)); mret false
                  else if negb (hr_deleted h) && negb settled then mret false
                  else _ ← emit (SuiteReaped (rc_key c) (rc_reason c) (hr_rows h) settled); mret true);
        _ ← release (rc_key c) (hr_gone h);
        mret reaped
    end.

(** ** Legacy junk *)

Record SuiteAnchorRow := {
  sa_suite : SuiteKey; sa_path : string; sa_blob : option string; sa_fetched : option Z }.

(** The cached rows of some names below each suite without a current snapshot,
    in suite and path order. *)
Definition unadopted_rows (names : list string) (keep : SuiteKey → bool) (d : DB) : list SuiteAnchorRow :=
  flat_map (λ k, omap (λ name,
      let path := key_path k +:+ "/" +:+ name in
      u ← url_t d !! (key_scheme k, key_host k, path);
      Some {| sa_suite := k; sa_path := path; sa_blob := up_blob u; sa_fetched := up_last_fetched u |}) names)
    (List.filter keep
       (sort_by key_leb
          (map fst (List.filter (λ e : SuiteKey * SuiteFreshness, bool_decide (sf_current e.2 = None))
                      (map_to_list (suite_t d)))))).

Definition ListUnadoptedSuiteAnchors : DB → list SuiteAnchorRow :=
  unadopted_rows ["InRelease"; "Release"; "Release.gpg"] (λ _, true).

Definition ListUnadoptedFlatIndexRows : DB → list SuiteAnchorRow :=
  unadopted_rows (sort_by str_leb FlatIndexNames)
    (λ k, negb (hasDistsSegment (key_path k)) && IsFlatSuitePath (key_path k)).

Definition rows_of (k : SuiteKey) (l : list SuiteAnchorRow) : list SuiteAnchorRow :=
  List.filter (λ a, bool_decide (sa_suite a = k)) l.

(** [anchorEvidence]: the head fails its sniff, and an InRelease the Release
    sniff too. *)
Definition anchorEvidence (file : SuiteFile) (path head : string) : bool :=
  if Sniff file path head then false
  else negb (bool_decide (file = FileInRelease)) || negb (Sniff FileRelease path head).

(** How much of a file is read. *)
Definition head_limit (file : SuiteFile) : Z :=
  if bool_decide (file = FileInRelease) then HeadBytes FileRelease else HeadBytes file.

Inductive head_read := Head (h : string) | Missing | Unreadable.

(** [readCapped]; a file that is longer gives its head. *)
Definition readHead (hash : string) (limit : Z) : rp head_read :=
  n ← moment; s ← get_reaper;
  mret (if file_fails n then Unreadable
        else match w_pool (rs_world s) !! hash with
             | None => Missing
             | Some f => Head (take_bytes (Z.to_nat limit) f)
             end).

(** The verdicts a scan reached, and the reads that failed. *)
Record scan_state := { sc_next : gmap sniffKey bool; sc_fails : Z; sc_first : option (SuiteKey * string) }.

Definition reached (k : sniffKey) (junk : bool) (sc : scan_state) : scan_state :=
  {| sc_next := <[k := junk]> (sc_next sc); sc_fails := sc_fails sc; sc_first := sc_first sc |}.
Definition read_failed (key : SuiteKey) (path : string) (sc : scan_state) : scan_state :=
  {| sc_next := sc_next sc; sc_fails := sc_fails sc + 1;
     sc_first := match sc_first sc with None => Some (key, path) | f => f end |}.

Definition sniff_key (file : SuiteFile) (hash path : string) : sniffKey :=
  (file, hash, if bool_decide (file = FileFlatIndex) then last_segment path else "").

(** The verdict on one blob: this scan's, the last scan's, or a fresh one. *)
Definition blob_verdict (key : SuiteKey) (file : SuiteFile) (hash path : string) (sc : scan_state)
  : rp (option bool * scan_state) :=
  s ← get_reaper;
  match sc_next sc !! sniff_key file hash path, rs_sniffs s !! sniff_key file hash path with
  | Some junk, _ | None, Some junk => mret (Some junk, sc)
  | None, None =>
      h ← readHead hash (head_limit file);
      mret match h with
           | Head head => (Some (anchorEvidence file path head), sc)
           | Missing => (None, sc)
           | Unreadable => (None, read_failed key path sc)
           end
  end.

Fixpoint allJunk (cutoff : Z) (key : SuiteKey) (l : list SuiteAnchorRow) (sc : scan_state) : rp (bool * scan_state) :=
  match l with
  | [] => mret (true, sc)
  | a :: l =>
      match sa_blob a, sa_fetched a with
      | Some hash, Some t =>
          let file := ClassifySuiteFile (key_path key) (sa_path a) in
          if cutoff <? t then mret (false, sc)
          else if bool_decide (file = NotSuiteFile) then mret (false, sc)
          else
            v ← blob_verdict key file hash (sa_path a) sc;
            match v with
            | (None, sc) => mret (false, sc)
            | (Some junk, sc) =>
                let sc := reached (sniff_key file hash (sa_path a)) junk sc in
                if junk : bool then allJunk cutoff key l sc else mret (false, sc)
            end
      | _, _ => mret (false, sc)
      end
  end.

Definition rowPaths (junk : bool) (l : list SuiteAnchorRow) : list string := if junk then map sa_path l else [].

(** [CheckUnsignedDowngrade]: whether there is signed evidence of the base. *)
Definition signedEvidence (k : SuiteKey) : rp (option bool) :=
  query (λ d, match refuseUnsignedDowngrade (key_host k) (key_path k) d with Err _ => true | Ok _ => false end).

(** [suiteJunk]: [None] is a failed read of the signed evidence. *)
Definition suiteJunk (cutoff : Z) (key : SuiteKey) (flat : bool) (anchors indexes : list SuiteAnchorRow) (sc : scan_state)
  : rp (option (bool * list string) * scan_state) :=
  r ← (if (length anchors =? 0)%nat then mret (false, sc) else allJunk cutoff key anchors sc);
  let '(anchorsJunk, sc) := r in
  if negb flat then mret (Some (anchorsJunk, rowPaths anchorsJunk anchors), sc)
  else
    r ← (if ((length anchors =? 0)%nat || anchorsJunk) && negb (length anchors + length indexes =? 0)%nat then
           if (length indexes =? 0)%nat then mret (true, sc) else allJunk cutoff key indexes sc
         else mret (false, sc));
    let '(combined, sc) := r in
    if Bool.eqb combined anchorsJunk then mret (Some (anchorsJunk, rowPaths anchorsJunk (anchors ++ indexes)), sc)
    else
      e ← signedEvidence key;
      mret (match e with
            | None => None
            | Some true => Some (anchorsJunk, rowPaths anchorsJunk anchors)
            | Some false => Some (combined, rowPaths combined (anchors ++ indexes))
            end, sc).

Definition unadoptedFlat (row : listed_row) : bool :=
  bool_decide (sf_current row.2 = None) && IsFlatSuitePath (key_path row.1).
Definition hasUnadoptedFlatSuite (rows : list listed_row) : bool := existsb unadoptedFlat rows.

Definition junk_candidate (row : listed_row) (evidence : list string) : reapCandidate :=
  {| rc_key := row.1; rc_current := None; rc_requested := sf_last_requested row.2; rc_reason := "junk";
     rc_cutoff := ReapRegardless; rc_evidence := evidence |}.

(** The scan's loop; [None] when the run's context ended. *)
Fixpoint scan_rows (cutoff : Z) (anchors : list SuiteAnchorRow) (indexes : option (list SuiteAnchorRow))
    (have : list SuiteKey) (rows : list listed_row) (sc : scan_state) (efails : Z) (out : list reapCandidate)
  : rp (option (scan_state * Z * list reapCandidate)) :=
  match rows with
  | [] => mret (Some (sc, efails, out))
  | row :: rows =>
      over ← ended;
      if over : bool then mret None
      else
        let flat := unadoptedFlat row in
        if bool_decide (row.1 ∈ have) || (flat && negb (is_set indexes)) then
          scan_rows cutoff anchors indexes have rows sc efails out
        else
          v ← suiteJunk cutoff row.1 flat (rows_of row.1 anchors) (rows_of row.1 (default [] indexes)) sc;
          match v with
          | (None, sc) => scan_rows cutoff anchors indexes have rows sc (efails + 1) out
          | (Some (junk, evidence), sc) =>
              scan_rows cutoff anchors indexes have rows sc efails
                (if junk : bool then out ++ [junk_candidate row evidence] else out)
          end
  end.

Definition junkCandidates (rows : list listed_row) (have : list reapCandidate) (now : Z) : rp (list reapCandidate) :=
  a ← query ListUnadoptedSuiteAnchors;
  match a with
  | None => _ ← emit (StepFailed "suite_reaper_list_unadopted_anchors_failed"); mret []
  | Some anchors =>
      i ← (if hasUnadoptedFlatSuite rows then
             i ← query ListUnadoptedFlatIndexRows;
             _ ← (if is_set i then mret tt else emit (StepFailed "suite_reaper_list_unadopted_flat_indexes_failed"));
             mret i
           else mret (Some []));
      r ← scan_rows (Unix (now - junkGrace)) anchors i (map rc_key have) rows
            {| sc_next := ∅; sc_fails := 0; sc_first := None |} 0 [];
      match r with
      | None => mret []
      | Some (sc, efails, out) =>
          _ ← upd_sniffs (sc_next sc);
          _ ← (if 0 <? sc_fails sc then emit (StepFailed "suite_reaper_junk_anchor_reads_failed") else mret tt);
          _ ← (if 0 <? efails then emit (StepFailed "suite_reaper_read_signed_evidence_failed") else mret tt);
          mret out
      end
  end.

(** ** The markers *)

(** The marker stamped furthest past [now], if any is past the slack. *)
Definition furthest_marker (now : Z) (d : DB) : option (SuiteKey * Z) :=
  head (sort_by (λ a b, if a.2 =? b.2 then key_leb a.1 b.1 else b.2 <? a.2)
          (List.filter (λ e : SuiteKey * Z, now + 2 <? e.2) (map_to_list (seen_t d)))).

(** The loop of [SweepOrphanMarkers]: the markers deleted, and whether no step
    failed. *)
Fixpoint sweep_batches (fuel : nat) (cutoff swept : Z) : rp (Z * bool) :=
  match fuel with
  | O => mret (swept, true)
  | S fuel =>
      keys ← query (λ d, orphanMarkers d cutoff);
      match keys with
      | None => mret (swept, false)
      | Some [] => mret (swept, true)
      | Some keys =>
          r ← submit (λ _, deleteOrphanMarkers keys cutoff);
          match r with
          | None => mret (swept, false)
          | Some n =>
              if (n =? 0) || (Z.of_nat (length keys) <? markerSweepBatch) then mret (swept + n, true)
              else sweep_batches fuel cutoff (swept + n)
          end
      end
  end.

Definition no_marker : SuiteKey * Z := (zero_key, 0).

(** A full batch deletes a marker, so the number of markers is enough fuel as long
    as nobody else makes orphans that old. *)
Definition SweepOrphanMarkers (now cutoff : Z) : rp (Z * bool * option (SuiteKey * Z)) :=
  f ← query (furthest_marker now);
  match f with
  | None => mret (0, false, None)
  | Some f =>
      s ← get_reaper;
      r ← sweep_batches (S (size (seen_t (w_db (rs_world s))))) cutoff 0;
      mret (r, f)
  end.

Definition sweepMarkers (now fresh : Z) : rp Z :=
  s ← get_reaper;
  r ← SweepOrphanMarkers (Unix fresh) (Unix (now - markerTTL - g_stepAhead (rs_guard s)));
  let '(swept, ok, furthest) := r in
  _ ← match furthest with
      | Some m =>
          if bool_decide (m = rs_reportedMarker s) then mret tt else emit (ClockStep "last_seen_at" m.1 m.2)
      | None => mret tt
      end;
  _ ← upd_marker (default no_marker furthest);
  _ ← (if 0 <? swept then emit (MarkersSwept swept) else mret tt);
  _ ← (if ok : bool then mret tt else emit (StepFailed "suite_reaper_marker_sweep_failed"));
  mret swept.

(** ** A run *)

Fixpoint reap_all (cands : list reapCandidate) (tried reaped : Z) : rp (option (Z * Z)) :=
  match cands with
  | [] => mret (Some (tried, reaped))
  | c :: cands =>
      over ← ended;
      if over : bool then mret None
      else
        ok ← reapSuite c;
        reap_all cands (tried + 1) (if ok : bool then reaped + 1 else reaped)
  end.

(** [candidates] and [junkCandidates], and the report of a stamp in the future. *)
Definition list_candidates (rows : list listed_row) (now : Z) : rp (list reapCandidate) :=
  let '(cands, furthest) := candidates idleTTL now rows in
  s ← get_reaper;
  _ ← (if negb (fs_stamp furthest =? 0) && negb (bool_decide (furthest = rs_reported s))
       then emit (ClockStep "last_requested_at" (fs_key furthest) (fs_stamp furthest)) else mret tt);
  _ ← upd_reported furthest;
  junk ← junkCandidates rows cands now;
  mret (sortCandidates (cands ++ junk)).

Definition guard_step (now mono : Z) : rp bool :=
  s ← get_reaper;
  let '(deferred, stepped, g) := deferredByForwardStep floor now mono (rs_guard s) in
  _ ← upd_guard g;
  _ ← (if stepped : bool then emit WallStep else mret tt);
  mret deferred.

Definition current_ids (rows : list listed_row) : gset Z := list_to_set (omap (λ row, sf_current row.2) rows).

(** [sweepReconcileMemo]: entries of snapshots no suite has as its current one. *)
Definition sweepReconcileMemo (rows : list listed_row) : rp unit :=
  if adopter then upd_memo (λ memo, memo ∩ current_ids rows) else mret tt.

Definition daily_due (at_ : option Z) (mono : Z) : bool :=
  match at_ with None => true | Some t => dailyEvery <=? mono - t end.

Definition runOnce : rp unit :=
  l ← query (λ d, scan (suite_t d));
  match l with
  | None => emit (StepFailed "suite_reaper_list_suites_failed")
  | Some rows =>
      t ← clock_read;
      let now := t.1 in
      deferred ← guard_step now t.2;
      r ← (if negb deferred && (0 <? idleTTL) then
             cands ← list_candidates rows now;
             reap_all (runBudgets cands) 0 0
           else mret (Some (0, 0)));
      match r with
      | None => mret tt
      | Some (tried, reaped) =>
          s ← get_reaper;
          u ← clock_read;
          swept ← (if negb deferred && daily_due (rs_dailyAt s) u.2 then
                     _ ← upd_daily u.2; f ← clock_read; sweepMarkers now f.1
                   else mret 0);
          _ ← sweepReconcileMemo rows;
          over ← ended;
          if over : bool then mret tt else emit (RunComplete tried reaped swept deferred)
      end
  end.

(** [Run]: the timer's firings, one run after another. *)
Fixpoint runs (n : nat) : rp unit :=
  match n with
  | O => mret tt
  | S n => _ ← runOnce; runs n
  end.

(** What [NewReaper] makes, with the times [Run] starts from. *)
Definition started (w : World) (wall0 mono0 : Z) (memo : gset Z) : RState :=
  {| rs_world := w; rs_guard := {| g_lastWall := wall0; g_lastMono := Some mono0; g_deferUntil := None; g_stepAhead := 0 |};
     rs_reported := no_stamp; rs_sniffs := ∅; rs_dailyAt := Some mono0; rs_reportedMarker := no_marker;
     rs_reconciled := memo; rs_effects := [] |}.

(** ** POST /forget *)

Definition notForgottenNoSuite : string := "no_suite".
Definition notForgottenBusy : string := "busy".
Definition notForgottenChanged : string := "changed".

Definition nothing_forgotten : ForgetResult :=
  {| fg_deleted := false; fg_gone := false; fg_markers := 0; fg_anchors := 0; fg_kept_by := [] |}.

(** A panic under the hold: the hold is released as the fresh read says, and the
    panic goes on. *)
Definition forget_panicked (k : SuiteKey) : rp (option ForgetResult) :=
  _ ← emit (Panicked "forget" k);
  gone ← settledGone k;
  _ ← release k gone;
  mret None.

Definition forget_done (k : SuiteKey) (rows : Z) (res : ForgetResult) (ok : bool) : rp (option ForgetResult) :=
  ans ← (if negb ok then
           _ ← (if fg_gone res then emit (SuiteForgotten k rows None) else mret tt); mret None
         else if negb (fg_deleted res) then
           _ ← emit (NotForgotten k (if fg_gone res then notForgottenNoSuite else notForgottenChanged));
           mret (Some res)
         else
           _ ← emit (SuiteForgotten k rows (Some (fg_markers res, fg_anchors res))); mret (Some res));
  _ ← release k (fg_gone res);
  mret ans.

Definition forget_held (k : SuiteKey) : rp (option ForgetResult) :=
  p ← panicked;
  if p : bool then forget_panicked k
  else
    cur ← query (λ d, suite_t d !! k);
    match cur with
    | None => _ ← release k false; mret None
    | Some None =>
        _ ← emit (NotForgotten k notForgottenNoSuite); _ ← release k true; mret (Some nothing_forgotten)
    | Some (Some f) =>
        m ← DeleteSuiteMetadata k;
        let '(rows, ok) := m in
        if negb ok then _ ← release k false; mret None
        else
          o ← forget_settled k (sf_current f);
          p ← panicked;
          if p : bool then forget_panicked k else forget_done k rows o.1 o.2
    end.

(** [None] is an error, or the panic. *)
Definition Forget (k : SuiteKey) : rp (option ForgetResult) :=
  cur ← query (λ d, suite_t d !! k);
  match cur with
  | None => mret None
  | Some None => _ ← emit (NotForgotten k notForgottenNoSuite); mret (Some nothing_forgotten)
  | Some (Some _) =>
      ok ← HoldSuite k;
      if negb ok then _ ← emit (NotForgotten k notForgottenBusy); mret (Some nothing_forgotten)
      else forget_held k
  end.
End reaper.
