(* ===== verification/ReaperLaws.v ===== *)
(** * When the reaper runs, and what it tries

    The guard against forward steps of the wall clock: what it defers, and how
    far a run's clock may have drifted unseen.  The order and the budgets of the
    candidates of one run. *)
From S2P Require Import Prelude GoStrings AptPath ReleaseDate Tables Invariant Snapshots Suites GC MemberFetch Scheduler Reaper.
Local Open Scope Z_scope.

(** ** The guard *)

Section guard.
Context (floor : Z).

(** The readings of the two clocks at the runs, one after another. *)
Definition guard_after (readings : list (Z * Z)) (g : Guard) : Guard :=
  fold_left (λ g r, (deferredByForwardStep floor r.1 r.2 g).2) readings g.

Definition guard0 (wall0 mono0 : Z) : Guard :=
  {| g_lastWall := wall0; g_lastMono := Some mono0; g_deferUntil := None; g_stepAhead := 0 |}.

(** A reading of a machine whose clock is between 1970 and 2116, and that has not
    been up for 146 years. *)
Definition sane (r : Z * Z) : Prop := 0 <= Unix r.1 * Second < 2 ^ 62 ∧ 0 <= r.2 < 2 ^ 62.

Lemma wrap64_id n : - 2 ^ 63 <= n < 2 ^ 63 → wrap64 n = n.
Proof. intros Hn. unfold wrap64. rewrite Z.mod_small; lia. Qed.

Lemma ran_ahead_exact g last now mono :
  sane (g_lastWall g, last) → sane (now, mono) →
  ran_ahead g last now mono = (Unix now - Unix (g_lastWall g)) * Second - (mono - last).
Proof.
  unfold sane; cbn [fst snd]. intros [H1 H2] [H3 H4]. unfold ran_ahead.
  rewrite (wrap64_id ((_ - _) * _)) by (rewrite Z.mul_sub_distr_r; lia).
  rewrite Z.mul_sub_distr_r. apply wrap64_id. lia.
Qed.

(** What is known after some runs: [w0], [m0] are the first readings. *)
Record discounted (w0 m0 : Z) (n : Z) (g : Guard) : Prop := {
  dc_ahead : 0 <= g_stepAhead g <= maxStepAhead;
  dc_last : ∃ m, g_lastMono g = Some m ∧ sane (g_lastWall g, m) ∧
    Unix (g_lastWall g) * Second - g_stepAhead g <= Unix w0 * Second + (m - m0) + n * forwardStepSlack }.

Lemma discounted_step w0 m0 n g now mono :
  sane (w0, m0) → sane (now, mono) → (∀ m, g_lastMono g = Some m → m0 <= m <= mono) → 0 <= n → discounted w0 m0 n g →
  discounted w0 m0 (n + 1) (deferredByForwardStep floor now mono g).2.
Proof.
  intros H0 Hnow Hm Hn [Ha (m & Hlast & Hs & Hle)]. destruct (Hm m Hlast) as [Hm0 Hm1].
  pose proof (ran_ahead_exact g m now mono Hs Hnow) as Hr.
  unfold deferredByForwardStep. rewrite Hlast. cbv iota beta zeta. rewrite Hr. cbn [fst snd].
  destruct H0 as [H0 _], Hnow as [Hw Hmono], Hs as [Hl Hlm]. cbn [fst snd] in *.
  assert (forwardStepSlack = 3600 * 10 ^ 9) as HF by reflexivity.
  assert (maxStepAhead = 2 ^ 63 - 1) as HM by reflexivity.
  set (U := Unix now * Second) in *. set (L := Unix (g_lastWall g) * Second) in *.
  replace ((Unix now - Unix (g_lastWall g)) * Second - (mono - m)) with (U - L - (mono - m))
    by (unfold U, L; lia).
  split; cbn [g_stepAhead g_lastMono g_lastWall].
  - destruct (Z.ltb_spec forwardStepSlack (U - L - (mono - m))); lia.
  - exists mono. split; [done|]. split; [done|]. fold U.
    destruct (Z.ltb_spec forwardStepSlack (U - L - (mono - m))); lia.
Qed.

Lemma discounted_runs w0 m0 readings n g :
  sane (w0, m0) → Forall sane readings → (∀ m, g_lastMono g = Some m → m0 <= m) →
  (∀ m, g_lastMono g = Some m → Sorted Z.le (m :: map snd readings)) → 0 <= n → discounted w0 m0 n g →
  discounted w0 m0 (n + Z.of_nat (length readings)) (guard_after readings g).
Proof.
  intros H0. revert n g. induction readings as [|[now mono] l IH]; intros n g Hs Hm Hsort Hn Hd.
  { cbn. by rewrite Z.add_0_r. }
  apply Forall_cons in Hs as [Hr Hl]. unfold guard_after. cbn [fold_left].
  replace (n + Z.of_nat (length ((now, mono) :: l))) with (n + 1 + Z.of_nat (length l)) by (cbn [length]; lia).
  destruct (dc_last _ _ _ _ Hd) as (m & Hlast & Hsm & _).
  pose proof (Hsort m Hlast) as Hst. cbn [map snd] in Hst.
  inversion Hst as [|? ? Hst' Hhd]; subst. inversion Hhd; subst.
  apply IH; [done| | |lia|].
  - intros m' [= <-]. specialize (Hm m Hlast). lia.
  - by intros m' [= <-].
  - apply discounted_step; [done|done| |done|done]. intros m' Hm'. assert (m' = m) as -> by congruence.
    specialize (Hm m Hlast). cbn. lia.
Qed.

(** Once a step was found, a deadline stays. *)
Lemma deferral_step t now mono g :
  (∃ u, g_deferUntil g = Some u ∧ t <= u) → t <= mono + floor →
  ∃ u, g_deferUntil (deferredByForwardStep floor now mono g).2 = Some u ∧ t <= u.
Proof.
  intros (u & Hu & Hle) Hm. unfold deferredByForwardStep. cbn [snd g_deferUntil].
  match goal with |- context [if ?b then _ else _] => destruct b end; by eauto.
Qed.

Lemma deferral_runs t readings g :
  (∃ u, g_deferUntil g = Some u ∧ t <= u) → Forall (λ r, t <= r.2 + floor) readings →
  ∃ u, g_deferUntil (guard_after readings g) = Some u ∧ t <= u.
Proof.
  revert g. induction readings as [|[now mono] l IH]; intros g Hg Hall; [done|].
  apply Forall_cons in Hall as [Hr Hl]. apply IH; [|done]. by apply deferral_step.
Qed.

Lemma deferred_before t now mono g :
  (∃ u, g_deferUntil g = Some u ∧ t <= u) → t <= mono + floor → mono < t →
  (deferredByForwardStep floor now mono g).1.1 = true.
Proof.
  intros (u & Hu & Hle) Hf Hm. unfold deferredByForwardStep. cbn [fst].
  match goal with |- context [if ?b then _ else _] => destruct b end; [|rewrite Hu]; apply Z.ltb_lt; lia.
Qed.

Lemma guard_after_sane readings w0 m0 last :
  Forall sane readings → sane (w0, m0) → g_lastMono (guard_after readings (guard0 w0 m0)) = Some last →
  sane (g_lastWall (guard_after readings (guard0 w0 m0)), last).
Proof.
  intros Hs H0. assert (∀ g, (∀ m, g_lastMono g = Some m → sane (g_lastWall g, m)) →
    ∀ m, g_lastMono (guard_after readings g) = Some m → sane (g_lastWall (guard_after readings g), m)) as Hgen.
  { induction Hs as [|[w m1] l Hr _ IH]; intros g Hg; [exact Hg|]. apply IH. by intros m [= <-]. }
  apply Hgen. by intros m [= <-].
Qed.

(** The guard at the runs of a reaper: how far the time it leaves may be ahead of
    the start; that it finds a step of more than the slack; and that it then defers. *)
Lemma guard_steps w0 m0 before now mono after_ now' mono' :
  sane (w0, m0) → Forall sane (before ++ (now, mono) :: after_) →
  Sorted Z.le (m0 :: map snd (before ++ (now, mono) :: after_)) →
  let g := guard_after before (guard0 w0 m0) in
  let '(deferred, stepped, g1) := deferredByForwardStep floor now mono g in
  (0 <= g_stepAhead g1 <= maxStepAhead ∧
   Unix now * Second - g_stepAhead g1
   <= Unix w0 * Second + (mono - m0) + (Z.of_nat (length before) + 1) * forwardStepSlack) ∧
  (∀ last, g_lastMono g = Some last →
     (Unix now - Unix (g_lastWall g)) * Second - (mono - last) > forwardStepSlack → stepped = true) ∧
  (stepped = true → 0 < floor →
     deferred = true ∧
     (mono <= mono' < mono + floor → (deferredByForwardStep floor now' mono' (guard_after after_ g1)).1.1 = true)).
Proof.
  intros H0 Hs Hsort g. destruct (deferredByForwardStep floor now mono g) as [[deferred stepped] g1] eqn:Hd.
  apply Forall_app in Hs as [Hb Hs]. apply Forall_cons in Hs as [Hnow Haf].
  assert (StronglySorted Z.le (m0 :: map snd (before ++ (now, mono) :: after_))) as HSS.
  { apply Sorted_StronglySorted; [|done]. intros ???. lia. }
  assert (Sorted Z.le (m0 :: map snd (before ++ [(now, mono)]))) as Hsort1.
  { apply StronglySorted_Sorted. rewrite map_app in *. cbn [map snd] in *.
    change (m0 :: map snd before ++ mono :: map snd after_) with ((m0 :: map snd before) ++ [mono] ++ map snd after_) in HSS.
    rewrite app_assoc in HSS. by apply StronglySorted_app_1_l in HSS. }
  assert (discounted w0 m0 (0 + Z.of_nat (length (before ++ [(now, mono)]))) g1) as Hdc.
  { assert (g1 = guard_after (before ++ [(now, mono)]) (guard0 w0 m0)) as ->.
    { unfold guard_after. rewrite fold_left_app. cbn [fold_left fst snd].
      change (fold_left _ before (guard0 w0 m0)) with g. by rewrite Hd. }
    apply discounted_runs; [done|apply Forall_app; split; [done|constructor; [exact Hnow|constructor]]|by intros m [= <-]|by intros m [= <-]|done|].
    split; cbn; [done|]. exists m0. split; [done|]. split; [done|lia]. }
  rewrite length_app in Hdc. cbn [length] in Hdc. rewrite Nat2Z.inj_add in Hdc.
  destruct Hdc as [Ha (m & Hlast & Hsm & Hle)].
  unfold deferredByForwardStep in Hd. injection Hd as Hdef Hst Hg1. subst g1. cbn [g_lastMono g_lastWall] in *.
  injection Hlast as <-. split; [split; [done|lia]|]. split.
  { intros last Hl Hgt. subst stepped. rewrite Hl. apply Z.ltb_lt.
    rewrite ran_ahead_exact; [lia|by apply guard_after_sane|done]. }
  intros Hyes Hfl. rewrite Hyes in Hst. rewrite Hst in Hdef. rewrite ?Hst, ?Hyes. cbn iota in *. subst deferred.
  split; [apply Z.ltb_lt; lia|]. intros [Hm1 Hm2]. apply (deferred_before (mono + floor)); [|lia|done].
  apply deferral_runs; [by eexists|].
  rewrite map_app in HSS. cbn [map snd] in HSS.
  change (StronglySorted Z.le ((m0 :: map snd before) ++ mono :: map snd after_)) in HSS.
  apply StronglySorted_app_1_r in HSS. apply StronglySorted_inv in HSS as [_ HF].
  rewrite Forall_forall in HF. apply Forall_forall. intros r Hr.
  specialize (HF r.2 (list_elem_of_fmap_2 snd after_ r Hr)). lia.
Qed.
End guard.

(** ** A step too large to be seen *)

(** The wall clock's advance is taken in a [time.Duration] of nanoseconds, which
    wraps round past 292 years: a step of 300 years reads as a step back. *)
Lemma forward_step_wraps :
  let year := 365 * 24 * 3600 * Second in
  let g := guard0 (50 * year) (3600 * Second) in
  let '(deferred, stepped, g1) := deferredByForwardStep reapUptimeFloor (350 * year) (7200 * Second) g in
  deferred = false ∧ stepped = false ∧ g_stepAhead g1 = 0.
Proof. by vm_compute. Qed.

(** ** The order and the budgets of a run *)

Section budgets.
Implicit Types (a b c : reapCandidate) (l : list reapCandidate).

Notation before_ := (λ a b, candidate_leb a b = true).

Lemma candidate_leb_spec a b :
  candidate_leb a b = true ↔
  (regardless a = true ∧ regardless b = false) ∨
  (regardless a = regardless b ∧
   (stamp_of a < stamp_of b ∨ stamp_of a = stamp_of b ∧ str_leb (suiteKey (rc_key a)) (suiteKey (rc_key b)) = true)).
Proof.
  unfold candidate_leb. destruct (regardless a), (regardless b); cbn;
    try (destruct (Z.eqb_spec (stamp_of a) (stamp_of b)); cbn; [|rewrite Z.ltb_lt]);
    intuition (try lia; try done).
Qed.

Lemma candidate_leb_total a b : candidate_leb a b = true ∨ candidate_leb b a = true.
Proof.
  rewrite !candidate_leb_spec. destruct (str_leb_total (suiteKey (rc_key a)) (suiteKey (rc_key b))) as [Hs|Hs];
    destruct (regardless a), (regardless b), (Z.lt_total (stamp_of a) (stamp_of b)) as [?|[?|?]]; intuition lia.
Qed.

#[local] Instance candidate_leb_trans : Transitive before_.
Proof.
  intros a b c. rewrite !candidate_leb_spec. intros [[H1 H2]|[H1 H2]] [[H3 H4]|[H3 H4]].
  - congruence.
  - left. split; congruence.
  - left. split; congruence.
  - right. split; [congruence|]. destruct H2 as [?|[? Hs]], H4 as [?|[? Hs']]; try (left; lia).
    right. split; [lia|]. by eapply str_leb_trans.
Qed.

Lemma sortCandidates_sorted l : StronglySorted before_ (sortCandidates l).
Proof. apply Sorted_StronglySorted; [apply _|]. apply sort_by_sorted, candidate_leb_total. Qed.

Lemma leading_split l :
  StronglySorted before_ l →
  Forall (λ c, regardless c = true) (take (leading l) l) ∧ Forall (λ c, regardless c = false) (drop (leading l) l).
Proof.
  induction 1 as [|c l Hs [IH1 IH2] Hall]; [by split; constructor|]. cbn [leading].
  destruct (regardless c) eqn:Hc; cbn [take drop]; [by split; [constructor|]|].
  split; [constructor|]. constructor; [done|]. eapply Forall_impl; [exact Hall|].
  intros x [[? _]|[? _]]%candidate_leb_spec; congruence.
Qed.

(** What a prefix of a sorted list leaves out comes after it. *)
Lemma prefix_first n l c :
  StronglySorted before_ l → c ∈ l → c ∉ take n l →
  length (take n l) = n ∧ ∀ c', c' ∈ take n l → candidate_leb c' c = true.
Proof.
  intros Hs Hc Hn. rewrite <-(take_drop n l) in Hc, Hs. apply elem_of_app in Hc as [Hc|Hc]; [done|].
  split.
  - apply length_take_le. assert (length (drop n l) ≠ 0)%nat as Hd by (by destruct (drop n l); [apply elem_of_nil in Hc|]).
    rewrite length_drop in Hd. lia.
  - intros c' Hc'. exact (StronglySorted_app_1_elem_of _ _ _ c' c Hs Hc' Hc).
Qed.

Lemma class_filter (r : bool) l : Forall (λ c, regardless c = r) l → List.filter (λ c, Bool.eqb (regardless c) r) l = l.
Proof. induction 1 as [|c l Hc _ IH]; [done|]. cbn. by rewrite Hc, Bool.eqb_reflx, IH. Qed.
Lemma other_filter (r : bool) l : Forall (λ c, regardless c = negb r) l → List.filter (λ c, Bool.eqb (regardless c) r) l = [].
Proof. induction 1 as [|c l Hc _ IH]; [done|]. cbn. by rewrite Hc, IH; destruct r. Qed.

Definition class_of (r : bool) l : list reapCandidate := List.filter (λ c, Bool.eqb (regardless c) r) l.

(** The two parts of a sorted list are its two classes. *)
Lemma leading_classes l :
  StronglySorted before_ l → take (leading l) l = class_of true l ∧ drop (leading l) l = class_of false l.
Proof.
  intros Hs. destruct (leading_split l Hs) as [Hr Hi]. unfold class_of.
  rewrite <-(take_drop (leading l) l) at 3 6. rewrite !List.filter_app.
  rewrite (class_filter true), (other_filter false) by done. rewrite (other_filter true), (class_filter false) by done.
  by rewrite app_nil_r.
Qed.

Definition budget (r : bool) : nat := if r then regardlessReapsPerRun else reapsPerRun.

(** The suites one run tries.  They are listed candidates, at most 250 reaped
    regardless of their interest and at most 25 idle ones, those reaped
    regardless first and each class from the longest unrequested on; and a
    candidate is left for a later run only when its class has used up its budget
    on candidates that go before it. *)
Theorem runBudgets_fair l :
  let out := runBudgets (sortCandidates l) in
  let class r := List.filter (λ c, Bool.eqb (regardless c) r) out in
  out ⊆+ l ∧ Sorted before_ out ∧ (∀ r, (length (class r) ≤ budget r)%nat) ∧
  ∀ c, c ∈ l → c ∉ out →
    length (class (regardless c)) = budget (regardless c) ∧
    ∀ c', c' ∈ class (regardless c) → candidate_leb c' c = true.
Proof.
  pose proof (sortCandidates_sorted l) as Hs. set (s := sortCandidates l) in *.
  destruct (leading_split s Hs) as [Hr Hi]. unfold runBudgets. fold s.
  set (n := leading s) in *. set (R := take n s) in *. set (I := drop n s) in *.
  assert (s = R ++ I) as Hsplit by (symmetry; apply take_drop).
  assert (StronglySorted before_ R ∧ StronglySorted before_ I) as [HsR HsI].
  { rewrite Hsplit in Hs. split; [by eapply StronglySorted_app_1_l|by eapply StronglySorted_app_1_r]. }
  pose proof (Forall_take _ regardlessReapsPerRun _ Hr) as Hr'.
  pose proof (Forall_take _ reapsPerRun _ Hi) as Hi'.
  assert (∀ r, List.filter (λ c, Bool.eqb (regardless c) r) (take regardlessReapsPerRun R ++ take reapsPerRun I)
             = if r then take regardlessReapsPerRun R else take reapsPerRun I) as Hclass.
  { intros []; rewrite List.filter_app.
    - rewrite (class_filter true) by done. rewrite (other_filter true) by done. apply app_nil_r.
    - rewrite (other_filter false) by done. by rewrite (class_filter false). }
  split_and!.
  - assert (l ≡ₚ R ++ I) as -> by (rewrite <-Hsplit; symmetry; apply sort_by_perm).
    apply submseteq_app; apply sublist_submseteq, sublist_take.
  - apply StronglySorted_Sorted. apply StronglySorted_app_2.
    + intros a b Ha Hb. rewrite Forall_forall in Hr', Hi'. apply candidate_leb_spec. left. auto.
    + rewrite <-(take_drop regardlessReapsPerRun R) in HsR. by eapply StronglySorted_app_1_l.
    + rewrite <-(take_drop reapsPerRun I) in HsI. by eapply StronglySorted_app_1_l.
  - intros r. rewrite Hclass. destruct r; apply firstn_le_length.
  - intros c Hc Hout. rewrite Hclass. rewrite elem_of_app in Hout.
    assert (c ∈ R ∨ c ∈ I) as [HcR|HcI].
    { apply elem_of_app. rewrite <-Hsplit. by apply elem_of_sort_by. }
    + rewrite Forall_forall in Hr. rewrite (Hr c HcR). apply prefix_first; [done|done|]. tauto.
    + rewrite Forall_forall in Hi. rewrite (Hi c HcI). apply prefix_first; [done|done|]. tauto.
Qed.
End budgets.
