(* ===== verification/ReaperSafety.v ===== *)
(** * What the reaper leaves alone

    A logic for the steps of [Reaper]: an invariant of the state with a
    postcondition on the answer ([ok]).  With it, whatever the other goroutines do
    that keeps a suite in use, no run of the reaper takes its row, its cached
    metadata or its markers, and the junk scan judges only blobs that are junk; a
    candidate that is wanted again is left alone; and the sweep of the markers does
    not count a forward step of the wall clock into their age. *)
From S2P Require Import Prelude GoStrings AptPath ReleaseDate Tables Invariant Snapshots Suites GC Rows MemberFetch Scheduler Reaper ReaperLaws.
Local Open Scope Z_scope.

Definition ok (I : RState → Prop) {A} (m : rp A) (Q : A → Prop) : Prop :=
  ∀ s, I s → I (m s).2 ∧ Q (m s).1.

Notation steady I m := (ok I m (λ _, True)).

Create HintDb reap discriminated.

Section logic.
Context (I : RState → Prop).

Lemma ok_ret {A} (a : A) (Q : A → Prop) : Q a → ok I (mret a) Q.
Proof. by intros Ha s Hs. Qed.

Lemma ok_bind {A B} (m : rp A) (f : A → rp B) (R : A → Prop) (Q : B → Prop) :
  ok I m R → (∀ a, R a → ok I (f a) Q) → ok I (m ≫= f) Q.
Proof.
  intros Hm Hf s Hs. destruct (Hm s Hs) as [Hs1 HR]. unfold mbind, rp_bind. destruct (m s) as [a s1].
  exact (Hf a HR s1 Hs1).
Qed.

Lemma ok_conseq {A} (m : rp A) (Q Q' : A → Prop) : ok I m Q' → (∀ a, Q' a → Q a) → ok I m Q.
Proof. intros Hm HQ s Hs. destruct (Hm s Hs). auto. Qed.

Lemma ok_steady {A} (m : rp A) (Q : A → Prop) : ok I m Q → steady I m.
Proof. intros Hm. by eapply ok_conseq. Qed.

Lemma ok_seq {A B} (m : rp A) (f : A → rp B) (Q : B → Prop) : steady I m → (∀ a, ok I (f a) Q) → ok I (m ≫= f) Q.
Proof. intros Hm Hf. by eapply ok_bind; [exact Hm|]. Qed.
End logic.

(** Steps through a program whose answer does not matter. *)
Ltac steadily :=
  repeat first
    [ solve [eauto 3 with reap]
    | apply ok_ret; exact Logic.I
    | lazymatch goal with
      | |- ok _ (_ ≫= _) _ => apply ok_seq; [|intros ?]
      | |- ok _ (match ?x with _ => _ end) _ => destruct x
      end
    | progress cbn beta zeta ].

(** ** Junk *)

Section junk.
Context (content : string → string).

(** The pool is content-addressed: a file's name says what it holds. *)
Definition pooled (p : gmap string string) : Prop := ∀ h f, p !! h = Some f → f = content h.

(** The verdict a key stands for. *)
Definition verdict (q : sniffKey) : bool :=
  anchorEvidence q.1.1 q.2 (take_bytes (Z.to_nat (head_limit q.1.1)) (content q.1.2)).

Definition memo_sound (m : gmap sniffKey bool) : Prop := ∀ q j, m !! q = Some j → j = verdict q.

(** A row that is evidence of junk. *)
Definition junk_row (cutoff : Z) (key : SuiteKey) (a : SuiteAnchorRow) : Prop :=
  ∃ h t, sa_blob a = Some h ∧ sa_fetched a = Some t ∧ t <= cutoff ∧
    ClassifySuiteFile (key_path key) (sa_path a) ≠ NotSuiteFile ∧
    verdict (sniff_key (ClassifySuiteFile (key_path key) (sa_path a)) h (sa_path a)) = true.

Lemma last_segment_idem p : last_segment (last_segment p) = last_segment p.
Proof.
  unfold last_segment. destruct (rcut_byte slash p) as [[a b]|] eqn:Hp; [|by rewrite Hp].
  apply rcut_byte_spec in Hp as [_ Hb]. by rewrite rcut_byte_none.
Qed.

Lemma anchorEvidence_key file path head :
  anchorEvidence file (sniff_key file "" path).2 head = anchorEvidence file path head.
Proof. unfold anchorEvidence, sniff_key. destruct file; try done.
  rewrite bool_decide_true by done. cbn [snd Sniff]. by rewrite last_segment_idem. Qed.

Lemma memo_sound_empty : memo_sound ∅.
Proof. intros q j. by rewrite lookup_empty. Qed.
Lemma memo_sound_insert m q : memo_sound m → memo_sound (<[q := verdict q]> m).
Proof. intros Hm q' j [[<- <-]|[_ Hq]]%lookup_insert_Some; [done|auto]. Qed.
End junk.

(** ** Steps that read and write the database *)

(** An invariant of the state that the steps keep as long as the writes keep
    [D], which it says of the database. *)
Class Tracks `{Around} (I : RState → Prop) (D : DB → Prop) : Prop := {
  tr_moment : steady I moment;
  tr_emit e : steady I (emit e);
  tr_db s : I s → D (w_db (rs_world s));
  tr_write s d : I s → D d →
    I (set_world {| w_db := d; w_pool := w_pool (rs_world s); w_tick := w_tick (rs_world s) |} s) }.

(** The three statements a reap of [k] makes. *)
Record harmless (D : DB → Prop) (k : SuiteKey) : Prop := {
  hl_rows paths now : (∀ p, p ∈ paths → SuitePath p = key_path k) → triple D (deleteURLPathRows k paths now) (λ _, D);
  hl_reap want cutoff now : triple D (ReapIdleSuite k want cutoff now) (λ _, D) }.

Section database.
Context `{Around} {I : RState → Prop} {D : DB → Prop} `{!Tracks I D}.

Lemma ok_moment : steady I moment.
Proof. apply tr_moment. Qed.
Lemma ok_emit e : steady I (emit e).
Proof. apply tr_emit. Qed.
Lemma ok_get_reaper (Q : RState → Prop) : (∀ s, I s → Q s) → ok I get_reaper Q.
Proof. intros HQ s Hs. split; [done|]. by apply HQ. Qed.
Lemma ok_get : steady I get_reaper.
Proof. by apply ok_get_reaper. Qed.

Lemma ok_query {A} (f : DB → A) (Q : option A → Prop) :
  Q None → (∀ d, D d → Q (Some (f d))) → ok I (query f) Q.
Proof.
  intros HN HS. apply ok_seq; [apply ok_moment|]. intros n. eapply ok_bind.
  - apply ok_get_reaper. intros s Hs. exact (tr_db s Hs).
  - intros s Hd. apply ok_ret. destruct (query_fails n); auto.
Qed.
Lemma ok_query_any {A} (f : DB → A) : steady I (query f).
Proof. by apply ok_query. Qed.

Lemma ok_submit {A} (m : Z → T A) : (∀ now, triple D (m now) (λ _, D)) → steady I (submit m).
Proof.
  intros Hm. apply ok_seq; [apply ok_moment|]. intros n.
  assert (∀ s, I s → ∀ a d, atomically (m (stamp_now n)) (w_db (rs_world s)) = (Ok a, d) →
    I (set_world {| w_db := d; w_pool := w_pool (rs_world s); w_tick := w_tick (rs_world s) |} s)) as Hw.
  { intros s Hs a d Hat%atomically_ok. apply tr_write; [done|]. eapply Hm; [by apply tr_db|exact Hat]. }
  destruct (submit_fate n); [by apply ok_ret| |]; intros s Hs; specialize (Hw s Hs);
    destruct (atomically _ _) as [[a|e] d]; (split; [|done]); by try apply (Hw a).
Qed.

Lemma ok_panicked : steady I panicked.
Proof. apply ok_seq; [apply ok_moment|]. intros. by apply ok_ret. Qed.
Lemma ok_ended : steady I ended.
Proof. apply ok_seq; [apply ok_moment|]. intros. by apply ok_ret. Qed.
Lemma ok_clock (Q : Z * Z → Prop) : (∀ n, Q (wall n, monotonic n)) → ok I clock_read Q.
Proof. intros HQ. apply ok_seq; [apply ok_moment|]. intros. by apply ok_ret. Qed.
Lemma ok_release k deleted : steady I (release k deleted).
Proof. apply ok_emit. Qed.

#[local] Hint Resolve ok_moment ok_get ok_query_any ok_emit ok_panicked ok_ended ok_release : reap.

Lemma ok_hold k : steady I (HoldSuite k).
Proof. unfold HoldSuite. steadily. Qed.
Lemma ok_settledGone k : steady I (settledGone k).
Proof. unfold settledGone. steadily. Qed.
#[local] Hint Resolve ok_hold ok_settledGone : reap.

(** *** Reaping one suite *)

Lemma metadata_paths d k p :
  p ∈ (suiteMetadataPaths d k).1 ++ (suiteMetadataPaths d k).2 → SuitePath p = key_path k.
Proof.
  unfold suiteMetadataPaths. destruct (negb _); [by intros ?%elem_of_nil|]. cbn [fst snd].
  intros [Hp|Hp]%elem_of_app; apply list_elem_of_In, filter_In in Hp as [Hp _]; apply filter_In in Hp as [_ Hp]; by bclean.
Qed.

Lemma ok_batches k fuel paths total :
  harmless D k → (∀ p, p ∈ paths → SuitePath p = key_path k) → steady I (delete_batches fuel k paths total).
Proof.
  intros Hk. revert paths total. induction fuel as [|fuel IH]; intros paths total Hp.
  { cbn. destruct paths; by apply ok_ret. }
  destruct paths as [|p paths]; [by apply ok_ret|]. cbn [delete_batches]. apply ok_seq.
  - apply ok_submit. intros now. apply (hl_rows D k Hk). intros q Hq. apply Hp.
    rewrite <-(take_drop reapMetadataBatch (p :: paths)). apply elem_of_app. by left.
  - intros [n|]; [|by apply ok_ret]. apply IH. intros q Hq. apply Hp.
    rewrite <-(take_drop reapMetadataBatch (p :: paths)). apply elem_of_app. by right.
Qed.

Lemma ok_metadata k : harmless D k → steady I (DeleteSuiteMetadata k).
Proof.
  intros Hk. unfold DeleteSuiteMetadata. destruct (negb _); [by apply ok_ret|].
  eapply ok_bind.
  - apply (ok_query (λ d, suiteMetadataPaths d k) (λ o, ∀ r, o = Some r → ∀ p, p ∈ r.1 ++ r.2 → SuitePath p = key_path k)).
    + done.
    + intros d _ r [= <-] p. apply metadata_paths.
  - intros [[plain anchors]|] Hp; [|by apply ok_ret]. specialize (Hp _ eq_refl). cbn [fst snd] in Hp.
    apply ok_seq.
    + apply ok_batches; [done|]. intros p Hin. apply Hp, elem_of_app. by left.
    + intros [n [|]]; [|by apply ok_ret]. apply ok_batches; [done|]. intros p Hin. apply Hp, elem_of_app. by right.
Qed.

Lemma ok_reap_settled k want cutoff : harmless D k → steady I (reap_settled k want cutoff).
Proof.
  intros Hk. unfold reap_settled. apply ok_seq; [apply ok_submit, (hl_reap D k Hk)|]. intros o. steadily.
Qed.

Lemma ok_reapSuite c : harmless D (rc_key c) → steady I (reapSuite c).
Proof.
  intros Hk. pose proof (ok_metadata _ Hk). pose proof (ok_reap_settled _ (rc_current c) (rc_cutoff c) Hk).
  unfold reapSuite, reapHeld. steadily.
Qed.


(** A suite that changed since it was listed: nothing is written. *)
Lemma ok_reap_changed c :
  (∀ d, D d → ∃ f, suite_t d !! rc_key c = Some f ∧ changed c f = true) → ok I (reapSuite c) (λ b, b = false).
Proof.
  intros Hch. unfold reapSuite. apply ok_seq; [apply ok_hold|]. intros [|]; cbn [negb]; [|by apply ok_ret].
  apply (ok_bind _ _ _ (λ h, ∀ x, h = Some x → hr_deleted x = false ∧ hr_gone x = false)).
  - unfold reapHeld. apply ok_seq; [apply ok_panicked|]. intros [|]; [by apply ok_ret|].
    eapply ok_bind.
    { apply (ok_query _ (λ o, ∀ r, o = Some r → ∃ f, r = Some f ∧ changed c f = true)); [done|].
      intros d Hd r [= <-]. by apply Hch. }
    intros [r|] Hr; [|apply ok_ret; by intros x [= <-]]. destruct (Hr r eq_refl) as (f & -> & Hf). rewrite Hf.
    apply ok_ret. by intros x [= <-].
  - intros [h|] Hh.
    + destruct (Hh h eq_refl) as [Hd Hg]. rewrite Hd, Hg, andb_false_r. cbn [negb andb].
      apply (ok_bind _ _ _ (λ b, b = false)).
      * destruct (negb (hr_step h =? "")%string); cbn; [apply ok_seq; [apply ok_emit|]; intros; by apply ok_ret|by apply ok_ret].
      * intros b ->. apply ok_seq; [apply ok_emit|]. intros. by apply ok_ret.
    + apply ok_seq; [apply ok_settledGone|]. intros g. apply ok_seq; [apply ok_emit|]. intros.
      apply ok_seq; [apply ok_emit|]. intros. by apply ok_ret.
Qed.

Lemma ok_sweep_batches fuel cutoff swept :
  (∀ keys, triple D (deleteOrphanMarkers keys cutoff) (λ _, D)) → steady I (sweep_batches fuel cutoff swept).
Proof.
  intros Hk. revert swept. induction fuel as [|fuel IH]; intros swept; cbn [sweep_batches]; [by apply ok_ret|].
  apply ok_seq; [apply ok_query_any|]. intros [[|m keys]|]; [by apply ok_ret| |by apply ok_ret].
  apply ok_seq; [apply ok_submit; intros ?; by apply Hk|]. intros [n|]; [|by apply ok_ret].
  destruct (_ || _); [by apply ok_ret|apply IH].
Qed.

Lemma ok_SweepOrphanMarkers now cutoff :
  (∀ keys, triple D (deleteOrphanMarkers keys cutoff) (λ _, D)) → steady I (SweepOrphanMarkers now cutoff).
Proof.
  intros Hk. apply ok_seq; [apply ok_query_any|]. intros [f|]; [|by apply ok_ret].
  apply ok_seq; [apply ok_get|]. intros s1. apply ok_seq; [by apply ok_sweep_batches|]. intros. by apply ok_ret.
Qed.
End database.

#[export] Hint Extern 1 (ok _ moment _) => apply ok_moment : reap.
#[export] Hint Extern 1 (ok _ get_reaper _) => apply ok_get : reap.
#[export] Hint Extern 1 (ok _ (query _) _) => apply ok_query_any : reap.
#[export] Hint Extern 1 (ok _ (emit _) _) => apply ok_emit : reap.
#[export] Hint Extern 1 (ok _ panicked _) => apply ok_panicked : reap.
#[export] Hint Extern 1 (ok _ ended _) => apply ok_ended : reap.

(** ** The steps of a run *)

Section steps.
Context `{Around} `{TableScan}.
Context (idleTTL floor : Z) (adopter : bool).
Context (D : DB → Prop) (content : string → string).

(** What is known of the database, a pool that is content-addressed, a memo of
    true verdicts, and a discount that stays within its bounds. *)
Record kept (s : RState) : Prop := {
  kp_db : D (w_db (rs_world s));
  kp_pool : pooled content (w_pool (rs_world s));
  kp_memo : memo_sound content (rs_sniffs s);
  kp_ahead : 0 <= g_stepAhead (rs_guard s) <= maxStepAhead }.

(** What the other goroutines keep. *)
Context (calm : ∀ n w, D (w_db w) → pooled content (w_pool w) →
  D (w_db (others n w)) ∧ pooled content (w_pool (others n w))).

#[local] Instance kept_tracks : Tracks kept D.
Proof.
  split.
  - intros s [Hd Hp Hm Ha]. split; [|done]. destruct (calm (w_tick (rs_world s)) _ Hd Hp). by split.
  - intros e s [????]. by split.
  - by intros s [????].
  - intros s d [????] ?. by split.
Qed.

Lemma ok_reported f : steady kept (upd_reported f).
Proof. intros s [????]. by split. Qed.
Lemma ok_daily t : steady kept (upd_daily t).
Proof. intros s [????]. by split. Qed.
Lemma ok_marker m : steady kept (upd_marker m).
Proof. intros s [????]. by split. Qed.
Lemma ok_memo f : steady kept (upd_memo f).
Proof. intros s [????]. by split. Qed.
Lemma ok_sniffs m : memo_sound content m → steady kept (upd_sniffs m).
Proof. intros Hm s [????]. by split. Qed.
Lemma ok_guard g : 0 <= g_stepAhead g <= maxStepAhead → steady kept (upd_guard g).
Proof. intros Hg s [????]. by split. Qed.
#[local] Hint Resolve ok_reported ok_daily ok_marker ok_memo : reap.

(** *** The junk scan *)

Lemma ok_readHead hash limit :
  ok kept (readHead hash limit) (λ h, ∀ x, h = Head x → x = take_bytes (Z.to_nat limit) (content hash)).
Proof.
  apply ok_seq; [apply ok_moment|]. intros n. eapply ok_bind; [apply ok_get_reaper; intros s Hs; exact (kp_pool s Hs)|].
  intros s Hp. apply ok_ret. destruct (file_fails n); [done|].
  destruct (w_pool (rs_world s) !! hash) eqn:E; [|done]. intros x [= <-]. by rewrite (Hp _ _ E).
Qed.

Lemma ok_blob_verdict key file hash path sc :
  memo_sound content (sc_next sc) →
  ok kept (blob_verdict key file hash path sc)
    (λ r, sc_next r.2 = sc_next sc ∧ ∀ j, r.1 = Some j → j = verdict content (sniff_key file hash path)).
Proof.
  intros Hsc. eapply ok_bind; [apply ok_get_reaper; intros s Hs; exact (kp_memo s Hs)|]. intros s Hm.
  destruct (sc_next sc !! _) as [j|] eqn:E1.
  { apply ok_ret. split; [done|]. intros ? [= <-]. by apply Hsc. }
  destruct (rs_sniffs s !! _) as [j|] eqn:E2.
  { apply ok_ret. split; [done|]. intros ? [= <-]. by apply Hm. }
  eapply ok_bind; [apply ok_readHead|]. intros h Hh. apply ok_ret. destruct h as [x| |]; cbn; (split; [done|]); try done.
  intros j [= <-]. rewrite (Hh x eq_refl). unfold verdict. cbn [sniff_key fst snd].
  symmetry. apply (anchorEvidence_key file path).
Qed.

Lemma ok_allJunk cutoff key l sc :
  memo_sound content (sc_next sc) →
  ok kept (allJunk cutoff key l sc)
    (λ r, memo_sound content (sc_next r.2) ∧ (r.1 = true → Forall (junk_row content cutoff key) l)).
Proof.
  revert sc. induction l as [|a l IH]; intros sc Hsc; cbn [allJunk]; [by apply ok_ret|].
  destruct (sa_blob a) as [hash|] eqn:Hb; [|by apply ok_ret].
  destruct (sa_fetched a) as [t|] eqn:Ht; [|by apply ok_ret].
  destruct (cutoff <? t) eqn:Hc; [by apply ok_ret|]. bclean.
  destruct (bool_decide _) eqn:Hf; [by apply ok_ret|]. bclean.
  eapply ok_bind; [by apply ok_blob_verdict|]. intros [[j|] sc'] [Hn Hj]; cbn [fst snd] in *.
  - specialize (Hj j eq_refl).
    assert (memo_sound content (sc_next (reached (sniff_key (ClassifySuiteFile (key_path key) (sa_path a)) hash (sa_path a)) j sc')))
      as Hsc' by (cbn; rewrite Hn, Hj; by apply memo_sound_insert).
    destruct j; [|by apply ok_ret]. eapply ok_conseq; [by apply IH|]. intros [r sc1] [Hs Hr]. split; [done|].
    intros Hyes. constructor; [|by apply Hr]. exists hash, t. by split_and!.
  - apply ok_ret. cbn. split; [by rewrite Hn|done].
Qed.

(** What a verdict of junk on a suite stands on. *)
Definition judged_junk (cutoff : Z) (key : SuiteKey) (flat : bool) (anchors indexes : list SuiteAnchorRow) : Prop :=
  Forall (junk_row content cutoff key) anchors ∧
  (anchors = [] → flat = true ∧ indexes ≠ [] ∧ Forall (junk_row content cutoff key) indexes).

Lemma ok_suiteJunk cutoff key flat anchors indexes sc :
  memo_sound content (sc_next sc) →
  ok kept (suiteJunk cutoff key flat anchors indexes sc)
    (λ r, memo_sound content (sc_next r.2) ∧
          ∀ ev, r.1 = Some (true, ev) → judged_junk cutoff key flat anchors indexes).
Proof.
  intros Hsc. unfold suiteJunk. eapply (ok_bind _ _ _
    (λ r, memo_sound content (sc_next r.2) ∧ (r.1 = true → anchors ≠ [] ∧ Forall (junk_row content cutoff key) anchors))).
  { destruct anchors as [|a l]; [by apply ok_ret|]. cbn [length Nat.eqb].
    eapply ok_conseq; [by apply ok_allJunk|]. intros r [? Hr]. split; [done|]. intros Hy. split; [done|auto]. }
  intros [aj sc1] [Hs1 Ha]. cbn [fst snd] in *.
  assert (aj = true → judged_junk cutoff key flat anchors indexes) as Haj.
  { intros Hy. destruct (Ha Hy) as [Hne HF]. by split. }
  destruct flat; cbn [negb]; [|apply ok_ret; split; [done|]; by intros ev [= -> _]; apply Haj].
  eapply (ok_bind _ _ _ (λ r, memo_sound content (sc_next r.2) ∧
    (r.1 = true → judged_junk cutoff key true anchors indexes))).
  { destruct (_ && _) eqn:Hc; [|by apply ok_ret]. apply andb_true_iff in Hc as [Hc1 Hc2].
    apply orb_true_iff in Hc1. bclean. apply Nat.eqb_neq in Hc2.
    assert (Forall (junk_row content cutoff key) anchors) as HA.
    { destruct Hc1 as [Hc1|Hc1]; [|by apply Ha]. apply Nat.eqb_eq in Hc1. destruct anchors; [constructor|done]. }
    destruct indexes as [|i l]; cbn [length Nat.eqb].
    - apply ok_ret. split; [done|]. intros _. split; [done|]. intros ->. cbn in Hc2. done.
    - eapply ok_conseq; [by apply ok_allJunk|]. intros r [? Hr]. split; [done|]. intros Hy. split; [done|].
      intros _. split_and!; [done|done|auto]. }
  intros [comb sc2] [Hs2 Hcb]. cbn [fst snd] in *. destruct (Bool.eqb comb aj).
  { apply ok_ret. split; [done|]. intros ev [= -> _]. auto. }
  apply ok_seq; [apply ok_query_any|]. intros [[]|]; apply ok_ret; (split; [done|]); try done; intros ev [= -> _]; auto.
Qed.

Lemma ok_scan_rows cutoff anchors indexes have rows sc efails out (P : reapCandidate → Prop) :
  memo_sound content (sc_next sc) → Forall P out →
  (∀ row ev, row ∈ rows →
     judged_junk cutoff row.1 (unadoptedFlat row) (rows_of row.1 anchors) (rows_of row.1 (default [] indexes)) →
     P (junk_candidate row ev)) →
  ok kept (scan_rows cutoff anchors indexes have rows sc efails out)
    (λ r, ∀ sc' n out', r = Some (sc', n, out') → memo_sound content (sc_next sc') ∧ Forall P out').
Proof.
  revert sc efails out. induction rows as [|row rows IH]; intros sc efails out Hsc Hout HP; cbn [scan_rows].
  { apply ok_ret. by intros ??? [= <- <- <-]. }
  assert (∀ r ev, r ∈ rows → judged_junk cutoff r.1 (unadoptedFlat r) (rows_of r.1 anchors)
            (rows_of r.1 (default [] indexes)) → P (junk_candidate r ev)) as HP'.
  { intros r ev Hr. apply HP. by right. }
  apply ok_seq; [apply ok_ended|]. intros [|]; [by apply ok_ret|].
  destruct (_ || _); [by apply IH|].
  eapply ok_bind; [by apply ok_suiteJunk|]. intros [[[junk ev]|] sc'] [Hs Hj]; cbn [fst snd] in *; [|by apply IH].
  apply IH; [done| |done]. destruct junk; [|done]. apply Forall_app. split; [done|].
  constructor; [|constructor]. apply HP; [by left|]. by apply (Hj ev).
Qed.

(** What a candidate of the scan stands on: rows read while [D] held. *)
Definition junk_found (cutoff : Z) (rows : list listed_row) (c : reapCandidate) : Prop :=
  ∃ row ev d d', row ∈ rows ∧ c = junk_candidate row ev ∧ D d ∧ D d' ∧
    judged_junk cutoff row.1 (unadoptedFlat row)
      (rows_of row.1 (ListUnadoptedSuiteAnchors d)) (rows_of row.1 (ListUnadoptedFlatIndexRows d')).

Lemma ok_junkCandidates rows have now :
  ok kept (junkCandidates rows have now) (Forall (junk_found (Unix (now - junkGrace)) rows)).
Proof.
  unfold junkCandidates. eapply ok_bind.
  { apply (ok_query _ (λ a, ∀ l, a = Some l → ∃ d, D d ∧ l = ListUnadoptedSuiteAnchors d)); [done|].
    intros d Hd l [= <-]. by exists d. }
  intros [anchors|] Ha; [|apply ok_seq; [apply ok_emit|]; intros; by apply ok_ret].
  destruct (Ha _ eq_refl) as (d & Hd & ->). clear Ha.
  eapply (ok_bind _ _ _ (λ i, (∃ d', D d' ∧ default [] i = ListUnadoptedFlatIndexRows d') ∨ default [] i = [])).
  { destruct (hasUnadoptedFlatSuite rows); [|by apply ok_ret; right].
    eapply ok_bind.
    - apply (ok_query _ (λ i, (∃ d', D d' ∧ default [] i = ListUnadoptedFlatIndexRows d') ∨ default [] i = [])); [by right|].
      intros d' Hd'. left. by exists d'.
    - intros i Hi. apply ok_seq; [steadily|]. intros _. by apply ok_ret. }
  intros i Hi. eapply ok_bind.
  { apply (ok_scan_rows (Unix (now - junkGrace)) _ i _ rows _ _ _ (junk_found (Unix (now - junkGrace)) rows)); [|constructor|].
    - apply memo_sound_empty.
    - intros row ev Hrow [HA HI]. destruct Hi as [(d' & Hd' & Hi)|Hi]; rewrite Hi in HI.
      + by exists row, ev, d, d'.
      + exists row, ev, d, d. do 4 (split; [done|]). split; [done|]. intros E. by destruct (HI E) as (_ & ? & _). }
  intros [[[sc efails] out]|] Hout; [|apply ok_ret; constructor].
  destruct (Hout _ _ _ eq_refl) as [Hs HF].
  apply ok_seq; [by apply ok_sniffs|]. intros _. apply ok_seq; [steadily|]. intros _.
  apply ok_seq; [steadily|]. intros _. by apply ok_ret.
Qed.

(** *** A whole run *)

Context (latest : Z) (clock_bound : ∀ n, wall n <= latest).
Context (sweeping : ∀ keys cutoff, cutoff <= Unix (latest - markerTTL) → triple D (deleteOrphanMarkers keys cutoff) (λ _, D)).

(** A candidate of a listing that was read while [D] held. *)
Definition planned (now : Z) (rows : list listed_row) (c : reapCandidate) : Prop :=
  (∃ row, row ∈ rows ∧ judge idleTTL now row = Take c) ∨ junk_found (Unix (now - junkGrace)) rows c.

Context (sparing : ∀ d now c, D d → now <= latest → planned now (scan (suite_t d)) c → harmless D (rc_key c)).

Lemma Unix_mono a b : a <= b → Unix a <= Unix b.
Proof. intros Hab. by apply Z.div_le_mono. Qed.

Lemma guard_bounds now mono g :
  0 <= g_stepAhead g <= maxStepAhead → 0 <= g_stepAhead (deferredByForwardStep floor now mono g).2 <= maxStepAhead.
Proof.
  intros Hg. unfold deferredByForwardStep. cbn [snd g_stepAhead].
  destruct (g_lastMono g) as [m|]; [|done]. destruct (Z.ltb_spec forwardStepSlack (ran_ahead g m now mono)); [|done].
  assert (0 < forwardStepSlack) by reflexivity. lia.
Qed.

Lemma ok_guard_step now mono : steady kept (guard_step floor now mono).
Proof.
  unfold guard_step. eapply ok_bind; [apply ok_get_reaper; intros s Hs; exact (kp_ahead s Hs)|]. intros s Hs.
  pose proof (guard_bounds now mono (rs_guard s) Hs) as Hb.
  destruct (deferredByForwardStep floor now mono (rs_guard s)) as [[deferred stepped] g]. cbn [snd] in Hb.
  apply ok_seq; [by apply ok_guard|]. intros _. steadily.
Qed.

Lemma ok_sweepMarkers now fresh : now <= latest → steady kept (sweepMarkers now fresh).
Proof.
  intros Hn. unfold sweepMarkers. eapply ok_bind; [apply ok_get_reaper; intros s Hs; exact (kp_ahead s Hs)|]. intros s Hs.
  apply ok_seq; [|intros [[swept fine] furthest]; steadily].
  apply ok_SweepOrphanMarkers. intros keys. apply sweeping, Unix_mono. cbn in Hs. lia.
Qed.

Lemma ok_list_candidates rows now :
  ok kept (list_candidates idleTTL rows now) (Forall (planned now rows)).
Proof.
  unfold list_candidates. destruct (candidates idleTTL now rows) as [cands furthest] eqn:Hc.
  assert (Forall (planned now rows) cands) as Hcands.
  { unfold candidates in Hc. injection Hc as <- _. apply Forall_forall. intros c. unfold sortCandidates.
    rewrite elem_of_sort_by, list_elem_of_omap. intros (row & Hrow & Hj). left. exists row. split; [done|].
    destruct (judge idleTTL now row); by simplify_eq. }
  apply ok_seq; [apply ok_get|]. intros s. apply ok_seq; [steadily|]. intros _. apply ok_seq; [steadily|]. intros _.
  eapply ok_bind; [apply ok_junkCandidates|]. intros junk Hj. apply ok_ret. apply Forall_forall. intros c.
  unfold sortCandidates. rewrite elem_of_sort_by, elem_of_app. rewrite Forall_forall in Hcands, Hj.
  intros [Hin|Hin]; [by apply Hcands|right; by apply Hj].
Qed.

Lemma elem_of_runBudgets l c : c ∈ runBudgets l → c ∈ l.
Proof.
  intros Hc. rewrite <-(take_drop (leading l) l). unfold runBudgets in Hc. apply elem_of_app in Hc as [Hc|Hc];
    apply subseteq_take in Hc; apply elem_of_app; auto.
Qed.

Lemma ok_reap_all cands tried reaped :
  Forall (λ c, harmless D (rc_key c)) cands → steady kept (reap_all cands tried reaped).
Proof.
  intros Hc. revert tried reaped. induction Hc as [|c l Hc _ IH]; intros tried reaped; cbn [reap_all]; [by apply ok_ret|].
  apply ok_seq; [apply ok_ended|]. intros [|]; [by apply ok_ret|].
  apply ok_seq; [by apply ok_reapSuite|]. intros []; apply IH.
Qed.

Lemma ok_runOnce : steady kept (runOnce idleTTL floor adopter).
Proof.
  unfold runOnce. eapply ok_bind.
  { apply (ok_query (λ d, scan (suite_t d)) (λ l, ∀ rows, l = Some rows → ∃ d, D d ∧ rows = scan (suite_t d))); [done|].
    intros d Hd rows [= <-]. by exists d. }
  intros [rows|] Hrows; [|apply ok_emit]. destruct (Hrows _ eq_refl) as (d & Hd & ->). clear Hrows.
  eapply ok_bind; [apply (ok_clock (λ t, t.1 <= latest)); intros n; apply clock_bound|]. intros [now m] Hnow. cbn [fst snd] in *.
  apply ok_seq; [apply ok_guard_step|]. intros deferred. apply ok_seq.
  - destruct (_ && _); [|by apply ok_ret]. eapply ok_bind; [apply ok_list_candidates|]. intros cands Hc.
    apply ok_reap_all, Forall_forall. intros c Hin. rewrite Forall_forall in Hc.
    apply (sparing d now); [done|done|]. by apply Hc, elem_of_runBudgets.
  - intros [[tried reaped]|]; [|by apply ok_ret]. apply ok_seq; [apply ok_get|]. intros s.
    apply ok_seq; [by apply ok_clock|]. intros u. apply ok_seq.
    + destruct (_ && _); [|by apply ok_ret]. apply ok_seq; [apply ok_daily|]. intros _.
      apply ok_seq; [by apply ok_clock|]. intros f. by apply ok_sweepMarkers.
    + intros swept. apply ok_seq; [unfold sweepReconcileMemo; steadily|]. intros _. steadily.
Qed.

Lemma ok_runs n : steady kept (runs idleTTL floor adopter n).
Proof. induction n as [|n IH]; cbn [runs]; [by apply ok_ret|]. apply ok_seq; [apply ok_runOnce|]. by intros _. Qed.
End steps.

(** ** A suite in use *)

Section in_use.
Context `{Around} `{TableScan}.
Context (idleTTL floor latest : Z) (adopter : bool) (content : string → string).
Context (k : SuiteKey) (adopted : bool) (M : URLKey → Prop) (Seen : SuiteKey → Prop).

(** The cached paths that belong to the suite. *)
Definition own_url (u : URLKey) : Prop :=
  key_scheme u = key_scheme k ∧ key_host u = key_host k ∧ SuitePath (key_path u) = key_path k.

(** A cached anchor that is no evidence of junk: it passes its sniff, or is
    young, or was never fetched. *)
Definition vouched (d : DB) : Prop :=
  ∃ name u, name ∈ ["InRelease"; "Release"; "Release.gpg"] ∧
    url_t d !! (key_scheme k, key_host k, key_path k +:+ "/" +:+ name) = Some u ∧
    ¬ junk_row content (Unix (latest - junkGrace)) k
        {| sa_suite := k; sa_path := key_path k +:+ "/" +:+ name; sa_blob := up_blob u; sa_fetched := up_last_fetched u |}.

(** Asked for within the idle time, and adopted, or with an anchor that vouches
    for it; [M] are cached rows of its own, [Seen] markers of its base or fresh
    ones. *)
Record in_use (d : DB) : Prop := {
  iu_row : ∃ f t, suite_t d !! k = Some f ∧ sf_last_requested f = Some t ∧ Unix (latest - idleTTL) <= t ∧
    (if adopted then is_Some (sf_current f)
     else vouched d ∧ (sf_current f = None ∨ IsFlatSuitePath (key_path k) = false));
  iu_meta u : M u → is_Some (url_t d !! u);
  iu_seen m : Seen m → ∃ t, seen_t d !! m = Some t ∧
    (base_suite (key_host m) (key_path m) k = true ∨ Unix (latest - markerTTL) <= t) }.

Context (canonical : IsCanonicalSuitePath (key_path k) = true).
Context (own : ∀ u, M u → own_url u).

(** Changes that do not touch the suite. *)
Record gentle (d d' : DB) : Prop := {
  ge_row : suite_t d' !! k = suite_t d !! k;
  ge_url u : own_url u → url_t d' !! u = url_t d !! u;
  ge_seen m t : seen_t d !! m = Some t → ∃ t', seen_t d' !! m = Some t' ∧ t <= t' }.

Lemma gentle_refl d : gentle d d.
Proof. split; try done. intros m t Ht. exists t. split; [done|lia]. Qed.
Lemma gentle_trans d1 d2 d3 : gentle d1 d2 → gentle d2 d3 → gentle d1 d3.
Proof.
  intros [R1 U1 S1] [R2 U2 S2]. split.
  - by rewrite R2, R1.
  - intros u Hu. by rewrite U2, U1.
  - intros m t Ht. destruct (S1 m t Ht) as (t1 & Ht1 & ?). destruct (S2 m t1 Ht1) as (t2 & Ht2 & ?).
    exists t2. split; [done|lia].
Qed.

Lemma canonical_anchor name :
  name ∈ ["InRelease"; "Release"; "Release.gpg"] → own_url (key_scheme k, key_host k, key_path k +:+ "/" +:+ name).
Proof.
  intros Hn. split_and!; try done. cbn. apply andb_true_iff in canonical as [Hne Heq].
  apply negb_true_iff, String.eqb_neq in Hne. apply String.eqb_eq in Heq.
  assert (∃ p, key_path k = SuitePath p) as (p & Hp) by (by eexists).
  rewrite Hp. rewrite Hp in Hne. apply SuitePath_suite_member; [done|..];
    by repeat (apply elem_of_cons in Hn as [->|Hn]; [reflexivity || done|]); apply elem_of_nil in Hn.
Qed.

Lemma in_use_gentle d d' : gentle d d' → in_use d → in_use d'.
Proof.
  intros [Hr Hu Hse] [(f & t & Hf & Ht & Hle & Hv) Hm Hs]. split.
  - exists f, t. rewrite Hr. split_and!; try done. destruct adopted; [done|]. destruct Hv as [(name & u & Hn & Hl & Hj) Hv].
    split; [|done]. exists name, u. rewrite Hu by (by apply canonical_anchor). done.
  - intros u Hin. rewrite Hu by auto. auto.
  - intros m Hin. destruct (Hs m Hin) as (t1 & Ht1 & Hor). destruct (Hse m t1 Ht1) as (t2 & Ht2 & Hlt).
    exists t2. split; [done|]. destruct Hor; [by left|right; lia].
Qed.

Lemma other_suite k' p : k' ≠ k → SuitePath p = key_path k' → ¬ own_url (key_scheme k', key_host k', p).
Proof.
  clear canonical own. intros Hne Hp (H1 & H2 & H3). cbn in *. apply Hne. destruct k as [[??]?], k' as [[??]?]. cbn in *. congruence.
Qed.

Lemma gentle_deleteCachedRow d0 key now :
  ¬ own_url key → triple (gentle d0) (deleteCachedRowTx key now) (λ _, gentle d0).
Proof.
  intros Hno d r d' Hd Hrun. apply (gentle_trans d0 d d' Hd).
  unfold deleteCachedRowTx, deleteURLPathRowTx in Hrun. minv. destruct (url_t d !! key) as [u|] eqn:Hu; [|by minv; apply gentle_refl].
  assert (∀ f, gentle d (upd_blob f (upd_url (delete key) d))) as Hg.
  { intros f. split; cbn; [done| |intros m t Ht; exists t; split; [done|lia]].
    intros u' Hu'. rewrite lookup_delete_ne; [done|]. by intros ->. }
  minv. rewrite Hu in Hrun0. minv. destruct (up_blob u) as [h|]; [destruct (String.eqb h "")|]; minv; try apply Hg;
    by specialize (Hg (λ m, m)); destruct d.
Qed.

Lemma gentle_deleteURLPathRows k' paths now d0 :
  k' ≠ k → (∀ p, p ∈ paths → SuitePath p = key_path k') →
  triple (gentle d0) (deleteURLPathRows k' paths now) (λ _, gentle d0).
Proof.
  intros Hne. unfold deleteURLPathRows. induction paths as [|p paths IH]; intros Hp; cbn [mcount]; [apply triple_ret|].
  eapply triple_bind; [apply gentle_deleteCachedRow, other_suite; [done|apply Hp; by left]|]. intros b.
  eapply triple_bind; [apply IH; intros q Hq; apply Hp; by right|]. intros n. apply triple_ret.
Qed.

Lemma gentle_delete_core k' f now d : k' ≠ k → gentle d (upd_seen (delete_marks (snapshot_history d k') k' now) (delete_core k' f now d)).
Proof.
  intros Hne. destruct (drop_current_tables (sf_current f) now d) as (Hu & Hs & _ & _ & _ & _ & _ & Hse & _).
  split; cbn.
  - by rewrite Hs, lookup_delete_ne.
  - intros u _. by rewrite Hu.
  - intros m t Ht. rewrite Hse. by apply delete_marks_mono.
Qed.

(** A reap of another suite leaves this one alone. *)
Lemma harmless_other k' : k' ≠ k → harmless in_use k'.
Proof.
  intros Hne. split.
  - intros paths now Hp d r d' Hd Hrun. eapply in_use_gentle; [|exact Hd].
    by apply (gentle_deleteURLPathRows k' paths now d Hne Hp d r d' (gentle_refl d)).
  - intros want cutoff now d r d' Hd Hrun. unfold ReapIdleSuite in Hrun. minv.
    pose proof (deleteSuiteTx_inv _ _ _ _ _ _ _ Hrun0) as Hinv.
    destruct rv; [by destruct Hinv as [_ ->]| |by destruct Hinv as [_ ->]].
    destruct Hinv as (f & _ & _ & _ & ->). eapply in_use_gentle; [|exact Hd]. by apply gentle_delete_core.
Qed.

Lemma sweeping_in_use keys cutoff :
  cutoff <= Unix (latest - markerTTL) → triple in_use (deleteOrphanMarkers keys cutoff) (λ _, in_use).
Proof.
  intros Hc. apply triple_count_inv. intros m d r d' Hd Hrun. unfold delete_orphan in Hrun. minv.
  destruct (seen_t d !! m) as [t|] eqn:Hm; [|by minv]. destruct (orphan_marker d cutoff m t) eqn:Ho; [|by minv].
  minv. destruct Hd as [Hr Hu Hs]. split; [exact Hr|exact Hu|]. intros m' Hm'. destruct (Hs m' Hm') as (t' & Ht' & Hor).
  cbn. rewrite lookup_delete_ne; [by exists t'|]. intros <-. assert (t' = t) as -> by congruence.
  unfold orphan_marker, has_base_suite in Ho. bclean. destruct Hor as [Hb|Hle]; [|lia].
  destruct Hr as (f & _ & Hf & _). apply exists_where_false with (k := k) (v := f) in H2; [congruence|done].
Qed.

Lemma judge_spares now row f t c :
  now <= latest → row = (k, f) → sf_last_requested f = Some t → Unix (latest - idleTTL) <= t →
  judge idleTTL now row ≠ Take c.
Proof.
  intros Hn -> Ht Hle. unfold judge. cbn [fst snd]. rewrite canonical, Ht. cbn [negb].
  destruct (_ <? t); [done|]. assert (Unix (now - idleTTL) <= t) as Hlt by (etrans; [apply Unix_mono|exact Hle]; lia).
  by rewrite (proj2 (Z.ltb_ge _ _) Hlt).
Qed.

Lemma elem_of_unadopted names keep key d a :
  a ∈ rows_of key (unadopted_rows names keep d) ↔
  keep key = true ∧ (∃ f, suite_t d !! key = Some f ∧ sf_current f = None) ∧
  ∃ name u, name ∈ names ∧ url_t d !! (key_scheme key, key_host key, key_path key +:+ "/" +:+ name) = Some u ∧
    a = {| sa_suite := key; sa_path := key_path key +:+ "/" +:+ name; sa_blob := up_blob u; sa_fetched := up_last_fetched u |}.
Proof.
  unfold rows_of, unadopted_rows. rewrite list_elem_of_In, filter_In, <-list_elem_of_In, bool_decide_eq_true.
  rewrite list_elem_of_In, in_flat_map. setoid_rewrite <-list_elem_of_In.
  setoid_rewrite list_elem_of_In at 1. setoid_rewrite filter_In. setoid_rewrite <-list_elem_of_In.
  setoid_rewrite elem_of_sort_by. setoid_rewrite list_elem_of_omap. split.
  - intros ((key' & [(e & -> & He)%list_elem_of_fmap_1 Hk] & name & Hn & Ha) & Heq).
    apply list_elem_of_In, filter_In in He as [He Hc]. bclean. destruct e as [ke f]. cbn [fst snd] in *.
    apply list_elem_of_In, elem_of_map_to_list in He.
    destruct (url_t d !! _) as [u|] eqn:Hu; [|done]. cbn in Ha. injection Ha as <-. cbn in Heq. subst ke.
    split; [done|]. split; [by exists f|]. by exists name, u.
  - intros (Hk & (f & Hf & Hc) & name & u & Hn & Hu & ->). split; [|done]. exists key. split.
    + split; [|done]. apply list_elem_of_fmap. exists (key, f). split; [done|].
      apply list_elem_of_In, filter_In. split; [by apply list_elem_of_In, elem_of_map_to_list|by apply bool_decide_eq_true].
    + exists name. split; [done|]. by rewrite Hu.
Qed.

Lemma adopted_no_rows names keep d f :
  suite_t d !! k = Some f → sf_current f ≠ None → rows_of k (unadopted_rows names keep d) = [].
Proof.
  intros Hf Hc. destruct (rows_of k _) as [|a l] eqn:E; [done|].
  assert (a ∈ rows_of k (unadopted_rows names keep d)) as Ha by (rewrite E; by left).
  apply elem_of_unadopted in Ha as (_ & (f' & Hf' & Hc') & _). congruence.
Qed.

Lemma junk_row_mono c c' key a : c <= c' → junk_row content c key a → junk_row content c' key a.
Proof. intros Hc (h & t & ? & ? & ? & ? & ?). exists h, t. split_and!; try done. lia. Qed.

Lemma junk_spares now d0 c :
  now <= latest → in_use d0 → junk_found in_use content (Unix (now - junkGrace)) (scan (suite_t d0)) c → rc_key c ≠ k.
Proof.
  intros Hn Hd0 (row & ev & d & d' & Hrow & -> & Hd & _ & HA & HI) Hk. cbn in Hk.
  destruct row as [key f0]. cbn [fst] in *. subst key. apply elem_of_scan in Hrow.
  destruct Hd0 as [(f0' & t0 & Hf0 & _ & _ & Hm0) _ _]. assert (f0' = f0) as -> by congruence.
  destruct Hd as [(f & t & Hf & _ & _ & Hm) _ _].
  assert (rows_of k (ListUnadoptedSuiteAnchors d) = [] → sf_current f0 = None ∧ IsFlatSuitePath (key_path k) = true) as Hflat.
  { intros E. destruct (HI E) as (Hfl & _). unfold unadoptedFlat in Hfl. by bclean. }
  destruct (decide (sf_current f = None)) as [Hc|Hc].
  - destruct adopted; [by rewrite Hc in Hm; destruct Hm|]. destruct Hm as [(name & u & Hname & Hu & Hbad) _].
    apply Hbad. eapply junk_row_mono; [apply Unix_mono|rewrite Forall_forall in HA; apply HA]; [lia|].
    apply elem_of_unadopted. split; [done|]. split; [by exists f|]. by exists name, u.
  - destruct (Hflat (adopted_no_rows _ _ _ _ Hf Hc)) as [Hc0 Hfl].
    destruct adopted; [by rewrite Hc0 in Hm0; destruct Hm0|]. destruct Hm as [_ [?|?]]; congruence.
Qed.

Lemma sparing_in_use d now c :
  in_use d → now <= latest → planned idleTTL in_use content now (scan (suite_t d)) c → harmless in_use (rc_key c).
Proof.
  intros Hd Hn Hp. apply harmless_other. destruct Hp as [(row & Hrow & Hj)|Hj]; [|by eapply junk_spares].
  intros Hk. destruct row as [key f]. apply elem_of_scan in Hrow.
  assert (rc_key c = key) as Hkey.
  { unfold judge in Hj. cbn [fst snd] in Hj.
    repeat match type of Hj with context [if ?b then _ else _] => destruct b | context [match ?o with _ => _ end] => destruct o end;
      by simplify_eq. }
  rewrite Hkey in Hk. subst key. destruct Hd as [(f' & t & Hf & Ht & Hle & _) _ _]. assert (f' = f) as -> by congruence.
  by apply (judge_spares now (k, f) f t c).
Qed.

(** C9. The reaper spares a suite that stays in use.  Take a suite with a path that
    can be asked for, that a client asked for within gc.suite_idle_ttl of every
    clock reading, and that is adopted, or has a cached anchor that passes its
    sniff or is younger than the grace.  Suppose the other goroutines' own steps
    keep it so, keep the rows and markers [in_use] names, and keep the pool
    content-addressed.  Then no number of reaper runs - reaping other suites, with
    any failures, panics, lost answers and clock steps - takes the suite's row, a
    cached row of its metadata, or a marker of its base that [in_use] names; and the
    scan's memo keeps to true verdicts.  (Members and blobs are the collector's to
    spare: C11.) *)
Theorem reaper_spares_suites_in_use n s :
  (∀ n, wall n <= latest) →
  (∀ n w, in_use (w_db w) → pooled content (w_pool w) → in_use (w_db (others n w)) ∧ pooled content (w_pool (others n w))) →
  in_use (w_db (rs_world s)) → pooled content (w_pool (rs_world s)) →
  memo_sound content (rs_sniffs s) → 0 <= g_stepAhead (rs_guard s) <= maxStepAhead →
  let s' := (runs idleTTL floor adopter n s).2 in in_use (w_db (rs_world s')) ∧ memo_sound content (rs_sniffs s').
Proof.
  intros Hclock Hcalm Hd Hp Hm Ha s'.
  destruct (ok_runs idleTTL floor adopter in_use content Hcalm latest Hclock sweeping_in_use sparing_in_use n s) as [[Hd' _ Hm' _] _].
  - by split.
  - done.
Qed.
End in_use.

(** What makes a run's candidate [c], listed at [now] from [row], wanted again: the
    row [f] it has by now.  A suite listed as idle or for its path has another
    current snapshot than the listed row had, a junk suite has one at all; and an
    idle one is wanted, too, when its last request is not longer ago than the idle
    time at the listing, or unknown. *)
Definition wanted_since (idleTTL now : Z) (row : listed_row) (c : reapCandidate) (f : SuiteFreshness) : Prop :=
  (judge idleTTL now row = Take c ∧
     (sf_current f ≠ sf_current row.2 ∨
      IsCanonicalSuitePath (key_path row.1) = true ∧ ∀ t, sf_last_requested f = Some t → Unix (now - idleTTL) <= t)) ∨
  ((∃ ev, c = junk_candidate row ev) ∧ sf_current f ≠ None).

Lemma wanted_changed idleTTL now row c f :
  Unix (now - idleTTL) < 2 ^ 63 → wanted_since idleTTL now row c f → rc_key c = row.1 ∧ changed c f = true.
Proof.
  intros Hwidth [[Hj Hw]|[[ev ->] Hc]].
  - unfold judge in Hj. destruct (IsCanonicalSuitePath (key_path row.1)); cbn [negb] in Hj.
    + destruct (sf_last_requested row.2); [|done]. destruct (_ <? _); [done|]. destruct (_ <? _); [|done].
      injection Hj as <-. split; [done|]. unfold changed. cbn. destruct Hw as [Hw|[_ Ht]]; [by rewrite bool_decide_false|].
      apply orb_true_iff. right. apply andb_true_iff. unfold regardless, ReapRegardless. cbn. split; bclean; [lia|].
      destruct (sf_last_requested f); [|done]. apply Z.ltb_lt. specialize (Ht _ eq_refl). lia.
    + injection Hj as <-. split; [done|]. unfold changed. cbn. destruct Hw as [Hw|[? _]]; [by rewrite bool_decide_false|done].
  - split; [done|]. unfold changed. cbn. by rewrite bool_decide_false.
Qed.

(** C13. Interest after the listing counts.  Take a candidate that a run listed: a
    suite whose path is not canonical, one idle for longer than
    gc.suite_idle_ttl, or a junk suite.  Suppose that it is adopted, or adopted
    again, since, or - where it was listed as idle - asked for within
    gc.suite_idle_ttl of the listing ([wanted_since]); and that the other
    goroutines' own steps keep it so, with whatever else [D] says of the database.
    Then trying the candidate deletes nothing and writes nothing: [D] stays true,
    and the answer is that no suite was reaped.  (A suite that is not canonical, or
    junk, is taken no matter who asks for it.  The bound says that the cutoff is an
    int64.) *)
Theorem reap_rechecks `{Around} idleTTL now row c (D : DB → Prop) s :
  Unix (now - idleTTL) < 2 ^ 63 →
  (∀ n w, D (w_db w) → D (w_db (others n w))) →
  (∀ d, D d → ∃ f, suite_t d !! row.1 = Some f ∧ wanted_since idleTTL now row c f) →
  D (w_db (rs_world s)) →
  (reapSuite c s).1 = false ∧ D (w_db (rs_world (reapSuite c s).2)).
Proof.
  intros Hwidth Hcalm Hwant Hd.
  assert (Tracks (λ s, D (w_db (rs_world s))) D) as HT.
  { split; try done. intros s' Hs'. split; [|done]. unfold moment. cbn. by apply Hcalm. }
  assert (∀ d, D d → ∃ f, suite_t d !! rc_key c = Some f ∧ changed c f = true) as Hch.
  { intros d Hd'. destruct (Hwant d Hd') as (f & Hf & Hw). exists f. by destruct (wanted_changed _ _ _ _ _ Hwidth Hw) as [-> ?]. }
  by destruct (ok_reap_changed c Hch s Hd).
Qed.

(** ** The age of a marker *)

Section marker.
Context `{Around}.
Context (m : SuiteKey) (lo : Z) (g : Guard).

(** The marker is there, and was last seen at [lo] or later. *)
Definition marked_since (d : DB) : Prop := ∃ t, seen_t d !! m = Some t ∧ lo <= t.

Context (calm : ∀ n w, marked_since (w_db w) → marked_since (w_db (others n w))).

#[local] Instance tracks_marked : Tracks (λ s, marked_since (w_db (rs_world s)) ∧ rs_guard s = g) marked_since.
Proof.
  split; [| |by intros s []|intros s d [_ Hg] Hd; by split].
  - intros s [Hs Hg]. split; [|done]. split; [|exact Hg]. unfold moment. cbn. by apply calm.
  - by intros e s Hs.
Qed.

Lemma marked_sweep cutoff keys : cutoff <= lo → triple marked_since (deleteOrphanMarkers keys cutoff) (λ _, marked_since).
Proof.
  intros Hc. apply triple_count_inv. intros k d r d' (t & Hm & Hle) Hrun. unfold delete_orphan in Hrun. minv.
  destruct (seen_t d !! k) as [t'|] eqn:Hk; [|by minv; exists t].
  destruct (orphan_marker d cutoff k t') eqn:Ho; [|by minv; exists t].
  minv. exists t. split; [|done]. cbn. rewrite lookup_delete_ne; [done|]. intros ->. unfold orphan_marker in Ho. bclean.
  assert (t' = t) as -> by congruence. lia.
Qed.

(** A sweep with the guard at [g] spares a marker that is recent by the wall clock
    less the steps found. *)
Lemma sweep_spares now fresh s :
  Unix (now - markerTTL - g_stepAhead g) <= lo → rs_guard s = g → marked_since (w_db (rs_world s)) →
  marked_since (w_db (rs_world (sweepMarkers now fresh s).2)).
Proof.
  intros Hlo Hg Hm. set (I := λ s : RState, marked_since (w_db (rs_world s)) ∧ rs_guard s = g).
  assert (ok I (sweepMarkers now fresh) (λ _, True)) as Hok; [|exact (proj1 (proj1 (Hok s (conj Hm Hg))))].
  unfold sweepMarkers. eapply ok_bind; [apply (ok_get_reaper (λ s, rs_guard s = g)); by intros ? []|]. intros s1 Hs1.
  rewrite Hs1. apply ok_seq.
  - apply ok_SweepOrphanMarkers. intros keys. by apply marked_sweep.
  - intros [[swept fine] furthest]. steadily. by intros x [].
Qed.
End marker.

(** C36. Forward steps of the wall clock age no marker, and defer the reaper.  The
    clocks' readings are those of a machine whose wall clock is between 1970 and
    2116 and whose monotonic clock, which never goes back, is below 146 years
    ([sane]); a step of centuries is outside that, and goes unseen
    ([forward_step_wraps]).  Then, at any run after a start at [w0], [m0]: the
    steps found so far are counted without overflow; a run at which the wall clock
    ran more than an hour ahead of the monotonic one finds the step, defers itself,
    and every later run defers until the uptime floor has gone by; and a marker
    sweep of the run, with whatever failures, keeps a marker last seen no longer
    than a year before the time that the start's clock, the monotonic time gone by
    and an hour for each run - the steps too small to be found - add up to, as long
    as the other goroutines' own steps keep it. *)
Theorem forward_steps_discounted `{Around} floor w0 m0 before now mono after_ now' mono' :
  sane (w0, m0) → Forall sane (before ++ (now, mono) :: after_) →
  Sorted Z.le (m0 :: map snd (before ++ (now, mono) :: after_)) →
  let g := guard_after floor before (guard0 w0 m0) in
  let '(deferred, stepped, g1) := deferredByForwardStep floor now mono g in
  let aged := Unix w0 * Second + (mono - m0) + (Z.of_nat (length before) + 1) * forwardStepSlack in
  (0 <= g_stepAhead g1 <= maxStepAhead) ∧
  (∀ last, g_lastMono g = Some last →
     (Unix now - Unix (g_lastWall g)) * Second - (mono - last) > forwardStepSlack → stepped = true) ∧
  (stepped = true → 0 < floor →
     deferred = true ∧
     (mono <= mono' < mono + floor →
      (deferredByForwardStep floor now' mono' (guard_after floor after_ g1)).1.1 = true)) ∧
  (∀ m lo fresh s,
     Unix (aged + Second - markerTTL) <= lo →
     (∀ n w, marked_since m lo (w_db w) → marked_since m lo (w_db (others n w))) →
     rs_guard s = g1 → marked_since m lo (w_db (rs_world s)) →
     marked_since m lo (w_db (rs_world (sweepMarkers now fresh s).2))).
Proof.
  intros H0 Hs Hsort g. pose proof (guard_steps floor w0 m0 before now mono after_ now' mono' H0 Hs Hsort) as Hg.
  cbv zeta in Hg. fold g in Hg. destruct (deferredByForwardStep floor now mono g) as [[deferred stepped] g1].
  destruct Hg as ([Ha Hle] & Hseen & Hdef). intros aged. split; [exact Ha|]. split; [exact Hseen|]. split; [exact Hdef|].
  intros m lo fresh s Hlo Hcalm Hgd Hm. apply (sweep_spares m lo g1 Hcalm); [|done..].
  etrans; [|exact Hlo]. apply Unix_mono. fold aged in Hle.
  assert (now < Unix now * Second + Second); [|lia].
  unfold Unix. assert (0 < Second) as HS by reflexivity. pose proof (Z.mod_pos_bound now Second HS).
  pose proof (Z.div_mod now Second). lia.
Qed.
