(* ===== verification/ReaperRuns.v ===== *)
(** * What the reaper gets done

    Runs with nothing in their way - every read and write is done, every hold is
    granted - take the idle suites away; and concrete runs, which the properties
    of [ReaperLaws] and [ReaperSafety] apply to. *)
From S2P Require Import Prelude GoStrings AptPath ReleaseDate Tables Invariant Snapshots Suites GC Rows MemberFetch Scheduler Reaper ReaperLaws ReaperSafety.
Local Open Scope Z_scope.

(** ** Metadata paths are complete *)

Lemma in_prefix_under s m : in_prefix (s +:+ "/") (s +:+ "0") (s +:+ "/" +:+ m) = true.
Proof. unfold in_prefix. rewrite !str_cmp_app. by destruct m. Qed.

Lemma elem_of_filter_parts {A} (f : A → bool) l x : x ∈ l → x ∈ List.filter (λ a, negb (f a)) l ++ List.filter f l.
Proof.
  intros Hx. apply elem_of_app. destruct (f x) eqn:E; [right|left]; apply list_elem_of_In, filter_In;
    (split; [by apply list_elem_of_In|by rewrite ?E]).
Qed.

(** Every cached row of a canonical suite is among its metadata paths. *)
Lemma metadata_complete d k u :
  IsCanonicalSuitePath (key_path k) = true → own_url k u → is_Some (url_t d !! u) →
  key_path u ∈ (suiteMetadataPaths d k).1 ++ (suiteMetadataPaths d k).2.
Proof.
  intros Hcan (Hs & Hh & Hp) [r Hu]. unfold suiteMetadataPaths. rewrite Hcan. cbn [negb fst snd].
  apply andb_true_iff in Hcan as [Hne _]. apply negb_true_iff, String.eqb_neq in Hne.
  match goal with |- _ ∈ List.filter _ ?l ++ _ => assert (key_path u ∈ l) as Hin end.
  { apply list_elem_of_In, filter_In. split; [|by rewrite Hp, String.eqb_refl].
    apply list_elem_of_In, elem_of_sort_by, list_elem_of_fmap. exists (u, r). split; [done|].
    apply list_elem_of_In, filter_In. split; [by apply list_elem_of_In, elem_of_map_to_list|]. cbn [fst].
    rewrite Hs, Hh, !String.eqb_refl. cbn [andb].
    destruct (SuitePath_under (key_path u)) as (m & _ & Hm); [congruence|]. rewrite Hm, Hp. apply in_prefix_under. }
  by apply elem_of_filter_parts.
Qed.

(** ** Deleting rows always succeeds *)

Lemma deleteCachedRow_frame key now d b d' :
  deleteCachedRowTx key now d = Ok (b, d') → seen_t d' = seen_t d ∧ snap_t d' = snap_t d.
Proof.
  unfold deleteCachedRowTx, deleteURLPathRowTx. intros Hrun. minv. destruct (url_t d !! key) as [u|] eqn:Hu; minv; [|done].
  rewrite Hu in Hrun0. minv. destruct (up_blob u) as [h|]; [destruct (String.eqb h "")|]; by minv.
Qed.

Lemma delete_rows_run now keys d :
  ∃ n d', mcount (λ k, deleteCachedRowTx k now) keys d = Ok (n, d') ∧ suite_t d' = suite_t d ∧
    seen_t d' = seen_t d ∧ snap_t d' = snap_t d ∧
    (∀ u, u ∈ keys → url_t d' !! u = None) ∧ ∀ u r, url_t d' !! u = Some r → url_t d !! u = Some r.
Proof.
  revert d. induction keys as [|key keys IH]; intros d; cbn [mcount].
  { exists 0, d. split_and!; try done. by intros p ?%elem_of_nil. }
  destruct (deleteCachedRow_run key now d) as (b & d1 & Hrun & Hu & Hs & _).
  destruct (deleteCachedRow_frame _ _ _ _ _ Hrun) as [Hse Hsn].
  destruct (IH d1) as (n & d' & Hrun' & Hs' & Hse' & Hsn' & Hgone & Hsub).
  eexists _, d'. split_and!; try congruence.
  - apply mbind_ok. exists b, d1. split; [exact Hrun|]. apply mbind_ok. exists n, d'. split; [exact Hrun'|reflexivity].
  - intros u [->|Hq]%elem_of_cons; [|by apply Hgone].
    destruct (url_t d' !! key) as [r|] eqn:E; [|done]. apply Hsub in E. by rewrite Hu, bool_decide_true in E.
  - intros u r Hr%Hsub. rewrite Hu in Hr. by case_bool_decide.
Qed.

Lemma mcount_map {S E A B} (f : B → M S E bool) (g : A → B) l s : mcount f (map g l) s = mcount (λ x, f (g x)) l s.
Proof.
  revert s. induction l as [|x l IH]; intros s; [done|]. cbn. unfold mbind, M_bind.
  destruct (f (g x) s) as [[b s1]|e]; [|done]. by rewrite IH.
Qed.

Lemma deleteURLPathRows_run k paths now d :
  ∃ n d', deleteURLPathRows k paths now d = Ok (n, d') ∧ suite_t d' = suite_t d ∧
    seen_t d' = seen_t d ∧ snap_t d' = snap_t d ∧
    (∀ p, p ∈ paths → url_t d' !! path_key k p = None) ∧
    ∀ u r, url_t d' !! u = Some r → url_t d !! u = Some r.
Proof.
  destruct (delete_rows_run now (map (path_key k) paths) d) as (n & d' & Hrun & Hs & Hse & Hsn & Hgone & Hsub).
  rewrite mcount_map in Hrun. exists n, d'. split_and!; try done. intros p Hp. apply Hgone. by apply list_elem_of_fmap_2.
Qed.

(** ** Nothing in the way *)

Class Quiet `{Around} : Prop := {
  q_others n w : others n w = w;
  q_query n : query_fails n = false;
  q_submit n : submit_fate n = Done;
  q_hold n : hold_granted n = true;
  q_panics n : panics n = false;
  q_ended n : context_ended n = false }.

(** The answer and the database after a program, from the database before it. *)
Definition yields (d : DB) {A} (m : rp A) (Q : A → DB → Prop) : Prop :=
  ∀ s, w_db (rs_world s) = d → Q (m s).1 (w_db (rs_world (m s).2)).

Section quiet.
Context `{Quiet} `{TableScan}.

Lemma y_ret {A} d (a : A) (Q : A → DB → Prop) : Q a d → yields d (mret a) Q.
Proof. by intros HQ s <-. Qed.

Lemma y_bind {A B} d (m : rp A) (f : A → rp B) (R : A → DB → Prop) (Q : B → DB → Prop) :
  yields d m R → (∀ a d1, R a d1 → yields d1 (f a) Q) → yields d (m ≫= f) Q.
Proof.
  intros Hm Hf s Hs. specialize (Hm s Hs). unfold mbind, rp_bind. destruct (m s) as [a s1]. by apply (Hf a _ Hm).
Qed.

Lemma y_conseq {A} d (m : rp A) (Q Q' : A → DB → Prop) : yields d m Q' → (∀ a d', Q' a d' → Q a d') → yields d m Q.
Proof. intros Hm HQ s Hs. apply HQ, Hm, Hs. Qed.

(** A step that only looks, and what it sees. *)
Definition looks (d : DB) {A} (m : rp A) (P : A → Prop) : Prop := yields d m (λ a d', P a ∧ d' = d).

Lemma y_look {A B} d (m : rp A) (P : A → Prop) (f : A → rp B) (Q : B → DB → Prop) :
  looks d m P → (∀ a, P a → yields d (f a) Q) → yields d (m ≫= f) Q.
Proof. intros Hm Hf. eapply y_bind; [exact Hm|]. intros a d1 [Ha ->]. by apply Hf. Qed.

Lemma y_moment d : looks d moment (λ _, True).
Proof. intros s Hs. split; [done|]. unfold moment. cbn. by rewrite q_others. Qed.
Lemma y_get d : looks d get_reaper (λ s, w_db (rs_world s) = d).
Proof. by intros s Hs. Qed.
Lemma y_emit d e : looks d (emit e) (λ _, True).
Proof. by intros s Hs. Qed.

Lemma y_query {A} d (f : DB → A) : looks d (query f) (λ r, r = Some (f d)).
Proof.
  eapply y_look; [apply y_moment|]. intros n _. eapply y_look; [apply y_get|]. intros s Hs. apply y_ret.
  by rewrite q_query, Hs.
Qed.
Lemma y_panicked d : looks d panicked (λ b, b = false).
Proof. eapply y_look; [apply y_moment|]. intros n _. apply y_ret. by rewrite q_panics. Qed.
Lemma y_ended d : looks d ended (λ b, b = false).
Proof. eapply y_look; [apply y_moment|]. intros n _. apply y_ret. by rewrite q_ended. Qed.
Lemma y_hold d k : looks d (HoldSuite k) (λ b, b = true).
Proof.
  eapply y_look; [apply y_moment|]. intros n _. rewrite q_hold. eapply y_look; [apply y_emit|]. intros _ _. by apply y_ret.
Qed.

Lemma y_submit {A} d (m : Z → T A) (Q : option A → DB → Prop) :
  (∀ now, ∃ a d', m now d = Ok (a, d') ∧ Q (Some a) d') → yields d (submit m) Q.
Proof.
  intros Hm. eapply y_look; [apply y_moment|]. intros n _. rewrite q_submit. intros s <-.
  destruct (Hm (stamp_now n)) as (a & d' & Hrun & HQ). unfold atomically. by rewrite Hrun.
Qed.

(** *** One suite *)

Lemma y_batches k fuel paths total d :
  (length paths ≤ fuel)%nat →
  yields d (delete_batches fuel k paths total) (λ r d', r.2 = true ∧ suite_t d' = suite_t d ∧
    seen_t d' = seen_t d ∧ snap_t d' = snap_t d ∧
    (∀ p, p ∈ paths → url_t d' !! path_key k p = None) ∧ ∀ u r, url_t d' !! u = Some r → url_t d !! u = Some r).
Proof.
  revert paths total d. induction fuel as [|fuel IH]; intros paths total d Hlen.
  { destruct paths; [|cbn in Hlen; lia]. apply y_ret. split_and!; try done. by intros p ?%elem_of_nil. }
  destruct paths as [|p paths].
  { apply y_ret. split_and!; try done. by intros p ?%elem_of_nil. }
  cbn [delete_batches]. set (l := p :: paths) in *.
  eapply (y_bind _ _ _ (λ r d', is_Some r ∧ suite_t d' = suite_t d ∧
    seen_t d' = seen_t d ∧ snap_t d' = snap_t d ∧
    (∀ q, q ∈ take reapMetadataBatch l → url_t d' !! path_key k q = None) ∧
    ∀ u r, url_t d' !! u = Some r → url_t d !! u = Some r)).
  { apply y_submit. intros now. destruct (deleteURLPathRows_run k (take reapMetadataBatch l) now d) as (n & d' & Hrun & ?).
    exists n, d'. split; [done|]. split; [done|done]. }
  intros [n|] d1 ([? Hn] & Hs1 & Hse1 & Hsn1 & Hg1 & Hb1); [|done].
  eapply y_conseq.
  { apply IH. rewrite length_drop. assert (1 ≤ reapMetadataBatch)%nat by (apply Nat.leb_le; reflexivity).
    assert (length l = S (length paths)) by done. lia. }
  cbn. intros r d2 (Hok & Hs2 & Hse2 & Hsn2 & Hg2 & Hb2). split_and!; [done|congruence|congruence|congruence| |auto].
  intros q Hq. rewrite <-(take_drop reapMetadataBatch l) in Hq. apply elem_of_app in Hq as [Hq|Hq]; [|by apply Hg2].
  destruct (url_t d2 !! path_key k q) as [r2|] eqn:E; [|done]. apply Hb2 in E. by rewrite Hg1 in E.
Qed.

(** What is left of a suite that was reaped. *)
Definition gone (k : SuiteKey) (d : DB) : Prop :=
  suite_t d !! k = None ∧ ∀ u, own_url k u → url_t d !! u = None.

Lemma y_metadata k d :
  IsCanonicalSuitePath (key_path k) = true →
  yields d (DeleteSuiteMetadata k) (λ r d', r.2 = true ∧ suite_t d' = suite_t d ∧ seen_t d' = seen_t d ∧ snap_t d' = snap_t d ∧
    ∀ u, own_url k u → url_t d' !! u = None).
Proof.
  intros Hcan. unfold DeleteSuiteMetadata. rewrite Hcan. cbn [negb].
  eapply y_look; [apply y_query|]. intros r ->. destruct (suiteMetadataPaths d k) as [plain anchors] eqn:Hp.
  eapply y_bind; [by apply y_batches|]. intros [n fine] d1 (Hok & Hs1 & Hse1 & Hsn1 & Hg1 & Hb1). cbn in Hok. subst fine. cbn iota.
  eapply y_conseq; [by apply y_batches|]. cbn. intros r d2 (Hok & Hs2 & Hse2 & Hsn2 & Hg2 & Hb2). split_and!; [done|congruence|congruence|congruence|].
  intros u Hu. destruct (url_t d2 !! u) as [x|] eqn:E; [|done]. exfalso. pose proof (Hb2 _ _ E) as E1.
  assert (u = path_key k (key_path u)) as Hk.
  { destruct Hu as (H1' & H2' & _). destruct u as [[us uh] up]. cbn in *. unfold path_key. congruence. }
  pose proof (metadata_complete d k u Hcan Hu) as Hin. rewrite Hp in Hin. cbn [fst snd] in Hin.
  specialize (Hin (mk_is_Some _ _ (Hb1 _ _ E1))). apply elem_of_app in Hin as [Hin|Hin].
  - rewrite Hk, (Hg1 _ Hin) in E1. done.
  - rewrite Hk, (Hg2 _ Hin) in E. done.
Qed.

Lemma ReapIdleSuite_run c f now d :
  suite_t d !! rc_key c = Some f → changed c f = false →
  ∃ d', ReapIdleSuite (rc_key c) (rc_current c) (rc_cutoff c) now d = Ok (true, true, d') ∧
    suite_t d' !! rc_key c = None ∧ url_t d' = url_t d.
Proof.
  intros Hf Hch. apply orb_false_iff in Hch as [Hcur Hidle]. apply negb_false_iff in Hcur. unfold regardless in Hidle.
  assert (∃ d', deleteSuiteTx (rc_key c) (rc_current c) (rc_cutoff c) now d = Ok (suiteDeleted, d')) as (d' & Hrun).
  { unfold deleteSuiteTx, markSnapshotHistoryTx, retireSuiteSnapshotsTx, stampBaseMarkersTx,
      decrementSnapshotRefcountsTx, markSignedSeen, mbind, M_bind, mget, mmodify, mret, M_ret.
    rewrite Hf, Hidle, Hcur. cbn [negb]. cbn beta iota. destruct (snapshot_history d (rc_key c)), (sf_current f); eexists; reflexivity. }
  exists d'. split; [apply mbind_ok; exists suiteDeleted, d'; by split|].
  destruct (deleteSuiteTx_inv _ _ _ _ _ _ _ Hrun) as (f' & _ & _ & _ & ->).
  destruct (drop_current_tables (sf_current f') now d) as (Hu & Hs & _). cbn. split; [by rewrite lookup_delete_eq|exact Hu].
Qed.

Lemma y_reapSuite c f d :
  IsCanonicalSuitePath (key_path (rc_key c)) = true → suite_t d !! rc_key c = Some f → changed c f = false →
  yields d (reapSuite c) (λ b d', b = true ∧ gone (rc_key c) d').
Proof.
  intros Hcan Hf Hch. unfold reapSuite. eapply y_look; [apply y_hold|]. intros ? ->. cbn [negb].
  eapply (y_bind _ _ _ (λ h d', (∃ rows, h = Some (held_reap "" rows true true)) ∧ gone (rc_key c) d')).
  - unfold reapHeld. eapply y_look; [apply y_panicked|]. intros ? ->. eapply y_look; [apply y_query|]. intros ? ->.
    rewrite Hf, Hch. eapply y_bind; [by apply y_metadata|]. intros [rows fine] d1 (Hok & Hs1 & _ & _ & Hu1). cbn in Hok. subst fine.
    cbn [negb]. eapply (y_bind _ _ _ (λ o d', o = (true, true, true) ∧ gone (rc_key c) d')).
    + unfold reap_settled. eapply (y_bind _ _ _ (λ r d', r = Some (true, true) ∧ gone (rc_key c) d')).
      * apply y_submit. intros now. rewrite <-Hs1 in Hf. destruct (ReapIdleSuite_run c f now d1 Hf Hch) as (d' & Hrun & Hn & Hu).
        exists (true, true), d'. split; [exact Hrun|]. split; [done|]. split; [done|]. intros u Hown. by rewrite Hu, Hu1.
      * intros r d2 [-> Hg]. eapply (y_look _ _ (λ o, o = (true, true, true))); [by apply y_ret|]. intros o ->. cbn [fst snd].
        eapply y_look; [apply y_emit|]. intros _ _. by apply y_ret.
    + intros o d2 [-> Hg]. eapply y_look; [apply y_panicked|]. intros ? ->. apply y_ret. split; [by exists rows|done].
  - intros h d1 [(rows & ->) Hg]. cbn. eapply (y_look _ _ (λ b, b = true)).
    { eapply y_look; [apply y_emit|]. intros _ _. by apply y_ret. }
    intros b ->. eapply y_look; [apply y_emit|]. intros _ _. by apply y_ret.
Qed.

(** A suite that changed since it was listed is left alone. *)
Lemma y_reapSuite_kept c f d :
  suite_t d !! rc_key c = Some f → changed c f = true → looks d (reapSuite c) (λ b, b = false).
Proof.
  intros Hf Hch. unfold reapSuite. eapply y_look; [apply y_hold|]. intros ? ->. cbn [negb].
  eapply (y_look _ _ (λ h, h = Some (held_reap "" 0 false false))).
  - unfold reapHeld. eapply y_look; [apply y_panicked|]. intros ? ->. eapply y_look; [apply y_query|]. intros ? ->.
    rewrite Hf, Hch. by apply y_ret.
  - intros h ->. cbn. eapply (y_look _ _ (λ b, b = false)); [by apply y_ret|]. intros b ->. eapply y_look; [apply y_emit|]. intros _ _. by apply y_ret.
Qed.

(** *** What any reap keeps *)

Definition on_db (D : DB → Prop) (s : RState) : Prop := D (w_db (rs_world s)).

#[local] Instance on_db_tracks D : Tracks (on_db D) D.
Proof. split; try done. intros s Hs. split; [|done]. unfold on_db, moment. cbn. by rewrite q_others. Qed.

Lemma y_steady {A} D d (m : rp A) : steady (on_db D) m → D d → yields d m (λ _, D).
Proof. intros Hm Hd s Hs. destruct (Hm s) as [Hs' _]; [by rewrite <-Hs in Hd|exact Hs']. Qed.

Lemma y_keeps D c d : harmless D (rc_key c) → D d → yields d (reapSuite c) (λ _, D).
Proof. intros Hh. by apply y_steady, (ok_reapSuite (D := D)). Qed.

(** The suite as it was listed; nothing removes it but a reap of its own. *)
Lemma harmless_listed k f k' : k' ≠ k → harmless (λ d, suite_t d !! k = Some f) k'.
Proof.
  intros Hne. split.
  - intros paths now Hp d r d' Hd Hrun.
    destruct (gentle_deleteURLPathRows k k' paths now d Hne Hp d r d' (gentle_refl k d) Hrun) as [-> _ _]. exact Hd.
  - intros want cutoff now d r d' Hd Hrun. unfold ReapIdleSuite in Hrun. minv.
    pose proof (deleteSuiteTx_inv _ _ _ _ _ _ _ Hrun0) as Hinv.
    destruct rv; [by destruct Hinv as [_ ->]| |by destruct Hinv as [_ ->]].
    destruct Hinv as (f' & _ & _ & _ & ->). by destruct (gentle_delete_core k k' f' now d Hne) as [-> _ _].
Qed.

Lemma harmless_gone k k' : harmless (gone k) k'.
Proof.
  split.
  - intros paths now Hp d r d' [Hn Hu] Hrun. destruct (deleteURLPathRows_run k' paths now d) as (n & d1 & Hrun1 & Hs & _ & _ & _ & Hsub).
    rewrite Hrun in Hrun1. injection Hrun1 as _ <-. split; [by rewrite Hs|]. intros u Hown.
    destruct (url_t d' !! u) as [x|] eqn:E; [|done]. apply Hsub in E. by rewrite Hu in E.
  - intros want cutoff now d r d' [Hn Hu] Hrun. unfold ReapIdleSuite in Hrun. minv.
    pose proof (deleteSuiteTx_inv _ _ _ _ _ _ _ Hrun0) as Hinv.
    destruct rv; [by destruct Hinv as [_ ->]| |by destruct Hinv as [_ ->]].
    destruct Hinv as (f' & _ & _ & _ & ->). destruct (drop_current_tables (sf_current f') now d) as (Hu' & Hs' & _).
    split; cbn; [rewrite Hs'; by apply lookup_delete_None; right|]. intros u Hown. rewrite Hu'. auto.
Qed.

(** The loop takes the suite away, whatever else it tries. *)
Lemma y_reap_all k f l tried reaped d :
  IsCanonicalSuitePath (key_path k) = true → suite_t d !! k = Some f ∨ gone k d →
  (∃ c, c ∈ l ∧ rc_key c = k ∧ changed c f = false) ∨ gone k d →
  yields d (reap_all l tried reaped) (λ r d', is_Some r ∧ gone k d').
Proof.
  intros Hcan. revert tried reaped d. induction l as [|c l IH]; intros tried reaped d Hd Hc; cbn [reap_all].
  { apply y_ret. split; [done|]. destruct Hc as [(c & Hc & _)|Hc]; [by apply elem_of_nil in Hc|done]. }
  eapply y_look; [apply y_ended|]. intros ? ->. cbn iota.
  assert (yields d (reapSuite c) (λ b d', (suite_t d' !! k = Some f ∨ gone k d') ∧
            ((∃ c, c ∈ l ∧ rc_key c = k ∧ changed c f = false) ∨ gone k d'))) as Hstep.
  { assert (gone k d → yields d (reapSuite c) (λ _, gone k)) as Hgone by (intros; by apply (y_keeps _ _ _ (harmless_gone k (rc_key c)))).
    destruct Hd as [Hf|Hg]; [|eapply y_conseq; [by apply Hgone|]; cbn; auto].
    destruct (decide (rc_key c = k)) as [Hk|Hk].
    - subst k. destruct (changed c f) eqn:Hch.
      + eapply y_conseq; [by eapply y_reapSuite_kept|]. intros b d1 [_ ->]. split; [by left|].
        destruct Hc as [(c' & [->|Hc']%elem_of_cons & Hkey & Hch')|[Hn _]]; [congruence|left; by exists c'|congruence].
      + eapply y_conseq; [by eapply y_reapSuite|]. intros b d1 [_ Hg]. by split; right.
    - eapply y_conseq; [apply (y_keeps _ _ _ (harmless_listed k f (rc_key c) Hk) Hf)|]. intros b d1 Hf1. split; [by left|].
      destruct Hc as [(c' & [->|Hc']%elem_of_cons & Hkey & Hch')|[Hn _]]; [done|left; by exists c'|congruence]. }
  eapply y_bind; [exact Hstep|]. intros b d1 [Hd1 Hc1]. destruct b; by apply IH.
Qed.

(** *** The candidates of a run *)

Lemma looks_any {A} d (m : rp A) (P : A → Prop) : looks d m P → looks d m (λ _, True).
Proof. intros Hm. eapply y_conseq; [exact Hm|]. by intros a d' [_ ->]. Qed.

Lemma y_update d (f : RState → RState) : (∀ s, w_db (rs_world (f s)) = w_db (rs_world s)) → looks d (λ s, (tt, f s)) (λ _, True).
Proof. intros Hf s Hs. split; [done|]. by rewrite <-Hs, <-(Hf s). Qed.

Lemma y_blob_verdict d key file hash path sc : looks d (blob_verdict key file hash path sc) (λ _, True).
Proof.
  eapply y_look; [apply y_get|]. intros s _. destruct (sc_next sc !! _); [by apply y_ret|].
  destruct (rs_sniffs s !! _); [by apply y_ret|]. eapply (y_look _ _ (λ _, True)); [|intros h _; by apply y_ret].
  eapply y_look; [apply y_moment|]. intros n _. eapply y_look; [apply y_get|]. intros s' _. by apply y_ret.
Qed.

Lemma y_allJunk d cutoff key l sc : looks d (allJunk cutoff key l sc) (λ _, True).
Proof.
  revert sc. induction l as [|a l IH]; intros sc; cbn [allJunk]; [by apply y_ret|].
  destruct (sa_blob a); [|by apply y_ret]. destruct (sa_fetched a); [|by apply y_ret].
  destruct (cutoff <? _); [by apply y_ret|]. destruct (bool_decide _); [by apply y_ret|].
  eapply y_look; [apply y_blob_verdict|]. intros [[j|] sc'] _; [|by apply y_ret]. destruct j; [apply IH|by apply y_ret].
Qed.

Lemma y_suiteJunk d cutoff key flat anchors indexes sc : looks d (suiteJunk cutoff key flat anchors indexes sc) (λ _, True).
Proof.
  unfold suiteJunk. eapply (y_look _ _ (λ _, True)); [destruct (_ =? _)%nat; [by apply y_ret|apply y_allJunk]|].
  intros [aj sc1] _. destruct flat; cbn [negb]; [|by apply y_ret].
  eapply (y_look _ _ (λ _, True)).
  { destruct (_ && _); [|by apply y_ret]. destruct (_ =? _)%nat; [by apply y_ret|apply y_allJunk]. }
  intros [comb sc2] _. destruct (Bool.eqb _ _); [by apply y_ret|].
  eapply y_look; [apply y_query|]. intros r _. by apply y_ret.
Qed.

Lemma y_scan_rows d cutoff anchors indexes have rows sc efails out :
  Forall (λ c, regardless c = true) out →
  looks d (scan_rows cutoff anchors indexes have rows sc efails out)
    (λ r, ∀ sc' n out', r = Some (sc', n, out') → Forall (λ c, regardless c = true) out').
Proof.
  revert sc efails out. induction rows as [|row rows IH]; intros sc efails out Hout; cbn [scan_rows].
  { apply y_ret. split; [|done]. by intros ??? [= <- <- <-]. }
  eapply y_look; [apply y_ended|]. intros ? ->. cbn iota. destruct (_ || _); [by apply IH|].
  eapply y_look; [apply y_suiteJunk|]. intros [[[junk ev]|] sc'] _; [|by apply IH]. apply IH.
  destruct junk; [|done]. apply Forall_app. split; [done|]. by constructor.
Qed.

Lemma y_when d (b : bool) e : looks d (if b then emit e else mret tt) (λ _, True).
Proof. destruct b; [apply y_emit|by apply y_ret]. Qed.

Lemma y_junkCandidates d rows have now : looks d (junkCandidates rows have now) (Forall (λ c, regardless c = true)).
Proof.
  unfold junkCandidates. eapply y_look; [apply y_query|]. intros ? ->.
  eapply (y_look _ _ (λ _, True)).
  { destruct (hasUnadoptedFlatSuite rows); [|by apply y_ret]. eapply y_look; [apply y_query|]. intros ? ->.
    cbn. eapply (y_look _ _ (λ _, True)); [by apply y_ret|]. intros _ _. by apply y_ret. }
  intros i _. eapply y_look; [by apply y_scan_rows|]. intros [[[sc efails] out]|] Hout; [|apply y_ret; by split].
  eapply y_look; [by apply (y_update d)|]. intros _ _. eapply y_look; [apply y_when|]. intros _ _.
  eapply y_look; [apply y_when|]. intros _ _. apply y_ret. split; [|done]. by eapply Hout.
Qed.

Context (idleTTL floor : Z) (adopter : bool).

Lemma y_list_candidates d rows now :
  looks d (list_candidates idleTTL rows now)
    (λ l, ∃ junk, l = sortCandidates ((candidates idleTTL now rows).1 ++ junk) ∧ Forall (λ c, regardless c = true) junk).
Proof.
  unfold list_candidates. destruct (candidates idleTTL now rows) as [cands furthest].
  eapply y_look; [apply y_get|]. intros s _. eapply y_look; [apply y_when|]. intros _ _.
  eapply y_look; [by apply (y_update d)|]. intros _ _. eapply y_look; [apply y_junkCandidates|].
  intros junk Hj. apply y_ret. split; [|done]. by exists junk.
Qed.


(** A candidate whose class fits its budget is tried. *)
Lemma idle_tried cands junk c :
  (length (class_of false cands) ≤ reapsPerRun)%nat → Forall (λ c, regardless c = true) junk →
  c ∈ cands → regardless c = false → c ∈ runBudgets (sortCandidates (cands ++ junk)).
Proof.
  intros Hlen Hj Hc Hr. set (s := sortCandidates (cands ++ junk)).
  destruct (leading_classes s (sortCandidates_sorted _)) as [_ Hdrop]. unfold runBudgets. fold s. rewrite Hdrop.
  assert (class_of false s ≡ₚ class_of false cands) as Hperm.
  { unfold class_of. rewrite (Permutation_filter_fun _ s (cands ++ junk)) by apply sort_by_perm.
    rewrite List.filter_app, (other_filter false junk) by done. by rewrite app_nil_r. }
  apply elem_of_app. right. rewrite take_ge by (by rewrite Hperm). rewrite Hperm.
  apply list_elem_of_In, filter_In. split; [by apply list_elem_of_In|by rewrite Hr].
Qed.

(** *** The run *)

Lemma y_sweepMarkers k d now fresh : gone k d → yields d (sweepMarkers now fresh) (λ _, gone k).
Proof.
  intros Hg. unfold sweepMarkers. eapply y_look; [apply y_get|]. intros s _.
  eapply (y_bind _ _ _ (λ _, gone k)).
  - apply y_steady; [|done]. apply (ok_SweepOrphanMarkers (D := gone k)). intros keys.
    apply triple_count_inv. intros m d0 r d' Hd Hrun. unfold delete_orphan in Hrun. minv.
    destruct (seen_t d0 !! m); [|by minv]. destruct (orphan_marker _ _ _ _); by minv.
  - intros [[swept fine] furthest] d1 Hg1. eapply (y_look _ _ (λ _, True)).
    { destruct furthest as [m|]; [destruct (bool_decide _)|]; [by apply y_ret|apply y_emit|by apply y_ret]. }
    intros _ _. eapply y_look; [by apply (y_update d1)|]. intros _ _. eapply y_look; [apply y_when|]. intros _ _.
    eapply (y_look _ _ (λ _, True)); [destruct fine; [by apply y_ret|apply y_emit]|]. intros _ _. by apply y_ret.
Qed.

Lemma y_clock d : looks d clock_read (λ _, True).
Proof. eapply y_look; [apply y_moment|]. intros n _. by apply y_ret. Qed.

Lemma moment_same s :
  w_db (rs_world (moment s).2) = w_db (rs_world s) ∧ rs_guard (moment s).2 = rs_guard s ∧
  w_tick (rs_world (moment s).2) = S (w_tick (rs_world s)).
Proof. unfold moment. cbn. by rewrite q_others. Qed.

Lemma query_eq {A} (f : DB → A) s : query f s = (Some (f (w_db (rs_world s))), (moment s).2).
Proof. unfold query, mbind, rp_bind, get_reaper, mret, rp_ret, moment. cbn. by rewrite q_query, q_others. Qed.

Lemma clock_eq s : clock_read s = ((wall (w_tick (rs_world s)), monotonic (w_tick (rs_world s))), (moment s).2).
Proof. done. Qed.

Lemma guard_step_eq now mono s :
  (guard_step floor now mono s).1 = (deferredByForwardStep floor now mono (rs_guard s)).1.1 ∧
  w_db (rs_world (guard_step floor now mono s).2) = w_db (rs_world s).
Proof.
  unfold guard_step, mbind, rp_bind, get_reaper. destruct (deferredByForwardStep _ _ _ _) as [[deferred []] g]; by split.
Qed.

Lemma y_reaps k f t d rows now :
  IsCanonicalSuitePath (key_path k) = true → suite_t d !! k = Some f → sf_last_requested f = Some t →
  t < Unix (now - idleTTL) < 2 ^ 62 → 0 < idleTTL → (k, f) ∈ rows →
  (length (class_of false (candidates idleTTL now rows).1) ≤ reapsPerRun)%nat →
  yields d (cands ← list_candidates idleTTL rows now; reap_all (runBudgets cands) 0 0) (λ r d', is_Some r ∧ gone k d').
Proof.
  intros Hcan Hf Ht Hlt Hidle Hrow Hlen. eapply y_look; [apply y_list_candidates|]. intros ? (junk & -> & Hj).
  eapply (y_reap_all k f); [done|by left|]. left.
  exists (candidate_of (k, f) "idle" (Unix (now - idleTTL) - 1)).
  assert (Unix (now - idleTTL) <= Unix now) by (apply Unix_mono; lia).
  assert (0 < clockStepTolerance / Second) by done.
  assert (regardless (candidate_of (k, f) "idle" (Unix (now - idleTTL) - 1)) = false) as Hr.
  { unfold regardless. apply Z.eqb_neq. cbn [candidate_of rc_cutoff]. unfold ReapRegardless. lia. }
  split; [|split; [done|]].
  - apply idle_tried; [done|done| |done]. unfold candidates. cbn [fst]. unfold sortCandidates.
    apply elem_of_sort_by, list_elem_of_omap. exists (k, f). split; [done|].
    unfold judge. cbn [fst snd]. rewrite Hcan, Ht. cbn [negb].
    rewrite (proj2 (Z.ltb_ge _ _)) by lia. by rewrite (proj2 (Z.ltb_lt _ _)) by lia.
  - unfold changed. rewrite bool_decide_true by done. cbn [negb orb]. rewrite Hr. cbn [candidate_of rc_cutoff negb andb].
    rewrite Ht. apply Z.ltb_ge. lia.
Qed.

(** C30. The reaper gets its work done.  In a run that is not deferred, with
    nothing in its way - every read and write is done, every hold is granted, and
    no one else changes the database - every suite of a canonical path that no
    client asked for in gc.suite_idle_ttl is gone at the end, its row and all of
    its cached metadata, provided there are at most as many idle suites as one run
    may reap; however many suites are reaped regardless of interest. *)
Theorem idle_suite_reaped k f t s :
  let d := w_db (rs_world s) in
  let n := S (w_tick (rs_world s)) in
  IsCanonicalSuitePath (key_path k) = true → 0 < idleTTL →
  suite_t d !! k = Some f → sf_last_requested f = Some t → t < Unix (wall n - idleTTL) < 2 ^ 62 →
  (deferredByForwardStep floor (wall n) (monotonic n) (rs_guard s)).1.1 = false →
  (length (class_of false (candidates idleTTL (wall n) (scan (suite_t d))).1) ≤ reapsPerRun)%nat →
  gone k (w_db (rs_world (runOnce idleTTL floor adopter s).2)).
Proof.
  intros d n Hcan Hidle Hf Ht Hlt Hdef Hlen. unfold runOnce. unfold mbind at 1, rp_bind at 1. rewrite query_eq.
  destruct (moment_same s) as (Hd1 & Hg1 & Ht1). set (s1 := (moment s).2) in *.
  unfold mbind at 1, rp_bind at 1. rewrite clock_eq, Ht1.
  destruct (moment_same s1) as (Hd2 & Hg2 & _). set (s2 := (moment s1).2) in *. cbn [fst snd].
  unfold mbind at 1, rp_bind at 1. destruct (guard_step_eq (wall n) (monotonic n) s2) as [Hdf Hd3].
  fold n. destruct (guard_step floor (wall n) (monotonic n) s2) as [deferred s3]. cbn [fst snd] in *.
  rewrite Hg2, Hg1, Hdef in Hdf. subst deferred. rewrite (proj2 (Z.ltb_lt _ _) Hidle). cbn [negb andb].
  fold d in Hd1. revert s3 Hd3. rewrite Hd2, Hd1. fold d.
  change (yields d (r ← (cands ← list_candidates idleTTL (scan (suite_t d)) (wall n); reap_all (runBudgets cands) 0 0);
    match r with
    | None => mret tt
    | Some (tried, reaped) =>
        s ← get_reaper; u ← clock_read;
        swept ← (if daily_due (rs_dailyAt s) u.2 then _ ← upd_daily u.2; f ← clock_read; sweepMarkers (wall n) f.1
                 else mret 0);
        _ ← sweepReconcileMemo adopter (scan (suite_t d));
        over ← ended;
        if over : bool then mret tt else emit (RunComplete tried reaped swept false)
    end) (λ _, gone k)).
  eapply y_bind; [eapply (y_reaps k f t); try done; by apply elem_of_scan|].
  intros r d1 [[[tried reaped] ->] Hg]. eapply y_look; [apply y_get|]. intros s' _.
  eapply y_look; [apply y_clock|]. intros u _. eapply (y_bind _ _ _ (λ _, gone k)).
  - destruct (daily_due _ _); [|by apply y_ret]. eapply y_look; [by apply (y_update d1)|]. intros _ _.
    eapply y_look; [apply y_clock|]. intros fr _. by apply y_sweepMarkers.
  - intros swept d2 Hg2'. eapply (y_look _ _ (λ _, True)).
    { unfold sweepReconcileMemo. destruct adopter; [by apply (y_update d2)|by apply y_ret]. }
    intros _ _. eapply y_look; [apply y_ended|]. intros ? ->. cbn iota.
    eapply y_conseq; [apply y_emit|]. by intros _ d' [_ ->].
Qed.
End quiet.

(** ** Concrete runs *)

Section runs.

Definition demo_suite : SuiteKey := ("http", "deb.example", "/debian/dists/stable").
Definition other_demo_suite : SuiteKey := ("http", "deb.example", "/debian/dists/testing").
Definition demo_anchor : URLKey := ("http", "deb.example", "/debian/dists/stable/InRelease").
Definition other_demo_anchor : URLKey := ("http", "deb.example", "/debian/dists/testing/InRelease").

Definition demo_row (requested : Z) (current : option Z) : SuiteFreshness :=
  {| sf_last_check := None; sf_last_success := None; sf_etag := None; sf_lastmod := None; sf_change_seen := None;
     sf_current := current; sf_last_requested := Some requested; sf_check_fail := 0; sf_fail_hash := None;
     sf_fail_reason := None; sf_fail_count := 0; sf_fail_first := None; sf_fail_last := None; sf_next_retry := None;
     sf_fail_etag := None; sf_fail_lastmod := None; sf_rowid := 1; sf_generation := 1 |}.

Definition demo_url : URLPath :=
  {| up_blob := None; up_upstream := ""; up_is_metadata := true; up_last_requested := None; up_request_count := 0;
     up_last_fetched := None; up_etag := None; up_lastmod := None; up_dropped := None |}.

(** An idle suite and one asked for yesterday, each with an anchor that was never
    fetched. *)
Definition demo_day : Z := 24 * 3600.
Definition demo_db : DB :=
  upd_seen (<[("http", "deb.example", "/debian/dists/stable") := 900 * demo_day]>)
    (upd_url (λ _, {[ demo_anchor := demo_url; other_demo_anchor := demo_url ]})
       (upd_suite (<[demo_suite := demo_row (900 * demo_day) None]>)
          (upd_suite (<[other_demo_suite := demo_row (999 * demo_day) None]>) empty_db))).

Definition quiet_around (now : Z) : Around :=
  {| others := λ _ w, w; others_memo := λ _ m, m; wall := λ _, now; monotonic := λ n, 7200 * Second + Z.of_nat n;
     stamp_now := λ _, Unix now; context_ended := λ _, false; query_fails := λ _, false; submit_fate := λ _, Done;
     file_fails := λ _, false; hold_granted := λ _, true; panics := λ _, false |}.

Lemma quiet_around_quiet now : @Quiet (quiet_around now).
Proof. by split. Qed.

Definition demo_now : Z := 1000 * demo_day * Second.
Definition demo_ttl : Z := 30 * demo_day * Second.
Definition demo_state : RState :=
  started {| w_db := demo_db; w_pool := ∅; w_tick := 0 |} (demo_now - 3600 * Second) (3600 * Second) ∅.

Definition demo_run : unit * RState :=
  @runOnce (quiet_around demo_now) key_order_scan demo_ttl reapUptimeFloor true demo_state.

(** The idle suite goes, with its anchor; the other one stays; its marker is kept. *)
Example demo_run_reaps :
  suite_t (w_db (rs_world demo_run.2)) !! demo_suite = None ∧
  url_t (w_db (rs_world demo_run.2)) !! demo_anchor = None ∧
  is_Some (suite_t (w_db (rs_world demo_run.2)) !! other_demo_suite) ∧
  rs_effects demo_run.2 =
    [HoldTaken demo_suite; TouchForgotten demo_suite; SuiteReaped demo_suite "idle" 1 false; HoldReleased demo_suite true;
     RunComplete 1 1 0 false].
Proof. split_and!; try (by vm_compute); by vm_compute; eexists. Qed.

Lemma idle_suite_reaped_witness : gone demo_suite (w_db (rs_world demo_run.2)).
Proof.
  refine (@idle_suite_reaped (quiet_around demo_now) (quiet_around_quiet demo_now) key_order_scan demo_ttl reapUptimeFloor true
            demo_suite (demo_row (900 * demo_day) None) (900 * demo_day) demo_state _ _ _ _ _ _ _); try (by vm_compute).
  apply Nat.leb_le. by vm_compute.
Defined.

(** The suite asked for yesterday and its anchor, through two runs. *)
Lemma reaper_spares_suites_in_use_witness :
  let s' := (@runs (quiet_around demo_now) key_order_scan demo_ttl reapUptimeFloor true 2 demo_state).2 in
  is_Some (suite_t (w_db (rs_world s')) !! other_demo_suite) ∧ is_Some (url_t (w_db (rs_world s')) !! other_demo_anchor).
Proof.
  intros s'. set (M := λ u, u = other_demo_anchor).
  assert (IsCanonicalSuitePath (key_path other_demo_suite) = true) as Hcan by (by vm_compute).
  assert (∀ u, M u → own_url other_demo_suite u) as Hown by (intros u ->; by vm_compute).
  assert (suite_t demo_db !! other_demo_suite = Some (demo_row (999 * demo_day) None)) as Hrow by (by vm_compute).
  assert (url_t demo_db !! other_demo_anchor = Some demo_url) as Hurl by (by vm_compute).
  assert (Unix (demo_now - demo_ttl) <= 999 * demo_day) as Ht by (by vm_compute).
  assert (in_use demo_ttl demo_now (λ _, "") other_demo_suite false M (λ _, False) demo_db) as Hd0.
  { split; [|intros u ->; by eexists|done]. exists (demo_row (999 * demo_day) None), (999 * demo_day).
    do 3 (split; [done|]). split; [|by left]. exists "InRelease", demo_url.
    split; [by left|]. split; [exact Hurl|]. by intros (h & t & Hb & _). }
  destruct (@reaper_spares_suites_in_use (quiet_around demo_now) key_order_scan demo_ttl reapUptimeFloor demo_now true (λ _, "")
              other_demo_suite false M (λ _, False) Hcan Hown 2 demo_state) as [Hd' _].
  - intros n. apply Z.le_refl.
  - by intros n w Hw Hp.
  - exact Hd0.
  - intros h f Hf. change (w_pool (rs_world demo_state)) with (∅ : gmap string string) in Hf. by rewrite lookup_empty in Hf.
  - apply memo_sound_empty.
  - by vm_compute.
  - split; [|by apply (iu_meta _ _ _ _ _ _ _ _ Hd')].
    destruct (iu_row _ _ _ _ _ _ _ _ Hd') as (f & t & Hf & _). by exists f.
Defined.

(** A client asked for the idle suite after it was listed. *)
(** An hour after the start the wall clock is a day ahead; ten minutes later the
    run is still deferred; and an orphan marker that is a year old but for the day
    the clock was stepped by would outlive a sweep. *)
Lemma forward_steps_discounted_witness :
  let r1 := (1700000000 * Second, 1000 * Second) in
  let r2 := ((1700000000 + 86400 + 3600) * Second, 4600 * Second) in
  let r3 := ((1700000000 + 86400 + 4200) * Second, 5200 * Second) in
  let g1 := (deferredByForwardStep reapUptimeFloor r2.1 r2.2 (guard0 r1.1 r1.2)).2 in
  let seen := 1700000000 + 7201 - markerTTL / Second in
  let s := upd_guard g1 (started {| w_db := upd_seen (<[demo_suite := seen]>) empty_db; w_pool := ∅; w_tick := 0 |} 0 0 ∅) in
  (deferredByForwardStep reapUptimeFloor r3.1 r3.2 g1).1.1 = true ∧
  seen < Unix (r2.1 - markerTTL) ∧
  marked_since demo_suite seen (w_db (rs_world (@sweepMarkers (quiet_around demo_now) r2.1 r2.1 s.2).2)).
Proof.
  intros r1 r2 r3 g1 seen s.
  assert (sane r1 ∧ sane r2) as [H1 H2] by (by vm_compute).
  assert (Forall sane [r2]) as Hs by (constructor; [exact H2|constructor]).
  assert (Sorted Z.le [r1.2; r2.2]) as Hsort by (repeat constructor; by vm_compute).
  destruct (@forward_steps_discounted (quiet_around demo_now) reapUptimeFloor r1.1 r1.2 [] r2.1 r2.2 [] r3.1 r3.2 H1 Hs Hsort)
    as (_ & _ & Hd & Hm).
  split; [|split; [by vm_compute|]].
  - destruct (Hd eq_refl) as [_ Hl]; [by vm_compute|]. apply Hl. by vm_compute.
  - apply (Hm demo_suite seen r2.1 s.2); [by vm_compute|by intros n w Hw|by vm_compute|].
    exists seen. split; [by vm_compute|done].
Defined.

(** A suite that was idle for a hundred days when it was listed, and was asked for
    before its turn came. *)
Definition demo_listed : listed_row := (demo_suite, demo_row (900 * demo_day) None).
Definition demo_candidate : reapCandidate := candidate_of demo_listed "idle" (Unix (demo_now - 30 * demo_day * Second) - 1).
Definition touched_state : RState :=
  started {| w_db := upd_suite (<[demo_suite := demo_row (1000 * demo_day) None]>) demo_db; w_pool := ∅; w_tick := 0 |}
    demo_now (3600 * Second) ∅.

Lemma reap_rechecks_witness : (@reapSuite (quiet_around demo_now) demo_candidate touched_state).1 = false.
Proof.
  refine (proj1 (@reap_rechecks (quiet_around demo_now) (30 * demo_day * Second) demo_now demo_listed demo_candidate
            (λ d, suite_t d !! demo_suite = Some (demo_row (1000 * demo_day) None)) touched_state _ _ _ _)).
  - by vm_compute.
  - by intros n w Hw.
  - intros d Hd. eexists. split; [exact Hd|]. left. split; [by vm_compute|]. right. split; [by vm_compute|].
    intros t Ht. injection Ht as <-. by vm_compute.
  - by vm_compute.
Defined.
End runs.
