(* ===== verification/Forgetting.v ===== *)
(** * What POST /forget does

    With nothing in its way a forget deletes the suite, and with the last suite of
    an archive base everything that remembers a signature of it: the way out of a
    refused downgrade. *)
From S2P Require Import Prelude GoStrings AptPath ReleaseDate Tables Invariant Snapshots Suites GC Rows MemberFetch Scheduler Reaper ReaperLaws ReaperSafety ReaperRuns.
Local Open Scope Z_scope.

Lemma elem_of_baseSuiteRows d host base k :
  k ∈ baseSuiteRowsTx d host base ↔ is_Some (suite_t d !! k) ∧ base_suite host base k = true.
Proof.
  unfold baseSuiteRowsTx. rewrite elem_of_sort_by, list_elem_of_In, filter_In, <-list_elem_of_In, list_elem_of_fmap. split.
  - intros [(e & -> & He) Hb]. destruct e as [k f]. apply elem_of_map_to_list in He. split; [by exists f|done].
  - intros [[f Hf] Hb]. split; [|done]. exists (k, f). split; [done|]. by apply elem_of_map_to_list.
Qed.

(** No signed history counts for a base when it has no marker and no snapshot of
    its suites that is adopted, signed and not retired. *)
Lemma no_history_adopts d host path :
  has_marker d host (MarkerBase path) = false → has_signed_snapshot d host (MarkerBase path) = false →
  refuseUnsignedDowngrade host path d = Ok (tt, d).
Proof. intros Hm Hs. unfold refuseUnsignedDowngrade, mbind, M_bind, mget. by rewrite Hm, Hs. Qed.

Section forget.
Context (k : SuiteKey).
Notation base := (MarkerBase (key_path k)).

(** The database after the row of [k] is deleted. *)
Definition deleted_from (f : SuiteFreshness) (now : Z) (d : DB) : DB :=
  upd_seen (delete_marks (snapshot_history d k) k now) (delete_core k f now d).

Lemma delete_any_run f now d :
  suite_t d !! k = Some f → deleteSuiteTx k (sf_current f) ReapRegardless now d = Ok (suiteDeleted, deleted_from f now d).
Proof.
  intros Hf. assert (∃ d', deleteSuiteTx k (sf_current f) ReapRegardless now d = Ok (suiteDeleted, d')) as (d' & Hrun).
  { unfold deleteSuiteTx, markSnapshotHistoryTx, retireSuiteSnapshotsTx, stampBaseMarkersTx,
      decrementSnapshotRefcountsTx, markSignedSeen, mbind, M_bind, mget, mmodify, mret, M_ret.
    rewrite Hf. rewrite (bool_decide_true (sf_current f = sf_current f)) by done. cbn [negb andb].
    rewrite Z.eqb_refl. cbn [negb andb]. cbn beta iota.
    destruct (snapshot_history d k), (sf_current f); eexists; reflexivity. }
  rewrite Hrun. destruct (deleteSuiteTx_inv _ _ _ _ _ _ _ Hrun) as (f' & Hf' & _ & _ & ->). by assert (f' = f) as -> by congruence.
Qed.

(** What a forget leaves behind, from the database before it. *)
Record forgotten (d : DB) (res : ForgetResult) (d' : DB) : Prop := {
  fo_deleted : fg_deleted res = true;
  fo_gone : gone k d';
  fo_others k' : k' ≠ k → suite_t d' !! k' = suite_t d !! k';
  fo_kept k' : k' ∈ fg_kept_by res ↔ k' ≠ k ∧ is_Some (suite_t d !! k') ∧ base_suite (key_host k) base k' = true;
  fo_all : fg_kept_by res = [] →
    has_marker d' (key_host k) base = false ∧ ∀ u, u ∈ base_anchor_keys (key_host k) base → url_t d' !! u = None;
  fo_some : fg_kept_by res ≠ [] → ∀ m t, seen_t d !! m = Some t → ∃ t', seen_t d' !! m = Some t' ∧ t <= t';
  fo_retired i s' : snap_t d' !! i = Some s' → signed_history s' = true →
    ss_suite s' ≠ k ∧ snap_t d !! i = Some s' }.

Lemma retired_history now s : signed_history (set_retired now s) = false.
Proof. unfold signed_history. cbn. by rewrite ?andb_false_r. Qed.

Lemma deleted_from_tables f now d :
  suite_t (deleted_from f now d) = delete k (suite_t d) ∧ url_t (deleted_from f now d) = url_t d ∧
  (∀ i s', snap_t (deleted_from f now d) !! i = Some s' → signed_history s' = true → ss_suite s' ≠ k ∧ snap_t d !! i = Some s') ∧
  ∀ m t, seen_t d !! m = Some t → ∃ t', seen_t (deleted_from f now d) !! m = Some t' ∧ t <= t'.
Proof.
  destruct (drop_current_tables (sf_current f) now d) as (Hu & Hs & Hsn & _ & _ & _ & _ & Hse & _).
  split_and!; cbn; [by rewrite Hs|by rewrite Hu| |rewrite Hse; apply delete_marks_mono].
  intros i s' (s0 & Hs0 & ->)%lookup_update_where_Some Hh. rewrite Hsn in Hs0.
  destruct (bool_decide (ss_suite s0 = k) && bool_decide (ss_retired s0 = None)) eqn:HP; [by rewrite retired_history in Hh|].
  split; [|done]. intros Hk. rewrite bool_decide_true in HP by done. cbn in HP. unfold signed_history in Hh.
  rewrite HP in Hh. by rewrite andb_false_r in Hh.
Qed.

Lemma ForgetSuite_run f now d :
  suite_t d !! k = Some f → (∀ u, own_url k u → url_t d !! u = None) →
  ∃ res d', ForgetSuite k (sf_current f) now d = Ok (res, d') ∧ forgotten d res d'.
Proof.
  intros Hf Hown. pose proof (delete_any_run f now d Hf) as Hrun. set (d1 := deleted_from f now d) in *.
  destruct (deleted_from_tables f now d) as (Hs & Hu & Hret & Hmono). fold d1 in Hs, Hu, Hret, Hmono.
  set (kept := baseSuiteRowsTx d1 (key_host k) base).
  assert (∀ k', k' ∈ kept ↔ k' ≠ k ∧ is_Some (suite_t d !! k') ∧ base_suite (key_host k) base k' = true) as Hkept.
  { intros k'. unfold kept. rewrite elem_of_baseSuiteRows, Hs. destruct (decide (k' = k)) as [->|Hne].
    - rewrite lookup_delete_eq. split; [by intros [[? ?] _]|by intros [? _]].
    - rewrite lookup_delete_ne by done. tauto. }
  assert (∀ k', k' ≠ k → suite_t d1 !! k' = suite_t d !! k') as Hoth by (intros k' Hne; by rewrite Hs, lookup_delete_ne).
  assert (suite_t d1 !! k = None) as Hnone by (by rewrite Hs, lookup_delete_eq).
  destruct (decide (kept = [])) as [Hnil|Hnil].
  - destruct (delete_rows_run now (base_anchor_keys (key_host k) base) d1) as (n & d2 & Hrun2 & Hs2 & Hse2 & Hsn2 & Hg2 & Hb2).
    eexists _, (upd_seen (delete_where (λ k' _, base_marker (key_host k) base k')) d2). split.
    { unfold ForgetSuite. apply mbind_ok. exists suiteDeleted, d1. split; [exact Hrun|]. cbn [bool_decide decide_rel].
      rewrite bool_decide_true by done. rewrite mget_bind. fold kept. rewrite Hnil. cbn [length Nat.eqb].
      apply mbind_ok. exists n, d2. split; [exact Hrun2|]. reflexivity. }
    split; cbn [fg_deleted fg_kept_by]; [done| | | | |done|].
    + split; cbn; [by rewrite Hs2|]. intros u Hou. destruct (url_t d2 !! u) as [x|] eqn:E; [|done].
      apply Hb2 in E. by rewrite Hu, (Hown u Hou) in E.
    + intros k' Hne. cbn. rewrite Hs2. by apply Hoth.
    + intros k'. rewrite <-Hkept, Hnil. done.
    + intros _. split; [|exact Hg2]. unfold has_marker. apply exists_where_false. intros m t Hm. cbn in Hm.
      apply lookup_delete_where_Some in Hm as [_ Hm]. exact Hm.
    + intros i s'. cbn. rewrite Hsn2. apply Hret.
  - eexists _, d1. split.
    { unfold ForgetSuite. apply mbind_ok. exists suiteDeleted, d1. split; [exact Hrun|].
      rewrite bool_decide_true by done. rewrite mget_bind. fold kept.
      rewrite (proj2 (Nat.eqb_neq _ _)) by (by destruct kept). reflexivity. }
    split; cbn [fg_deleted fg_kept_by]; [done| |exact Hoth|exact Hkept|done|intros _; exact Hmono|exact Hret].
    split; [done|]. intros u Hou. by rewrite Hu, Hown.
Qed.

(** With no suite of the base left, nothing speaks against an unsigned one. *)
Lemma forgotten_adopts d res d' path :
  forgotten d res d' → fg_kept_by res = [] → MarkerBase path = base →
  (∀ i s, snap_t d !! i = Some s → signed_history s = true → is_Some (suite_t d !! ss_suite s)) →
  refuseUnsignedDowngrade (key_host k) path d' = Ok (tt, d').
Proof.
  intros Hfo Hnil Hpath Hrows. apply no_history_adopts; rewrite Hpath; [by apply (fo_all _ _ _ Hfo)|].
  unfold has_signed_snapshot. apply exists_where_false. intros i s' Hs'.
  destruct (_ && signed_history s') eqn:E; [|done]. apply andb_true_iff in E as [Hb Hh].
  destruct (fo_retired _ _ _ Hfo i s' Hs' Hh) as [Hne Hd].
  assert (ss_suite s' ∈ fg_kept_by res) as Hin by (apply (fo_kept _ _ _ Hfo); split_and!; [done|by eapply Hrows|exact Hb]).
  rewrite Hnil in Hin. by apply elem_of_nil in Hin.
Qed.

Context `{Quiet} `{TableScan}.

Lemma forgotten_from d d1 res d' :
  suite_t d1 = suite_t d → seen_t d1 = seen_t d → snap_t d1 = snap_t d → forgotten d1 res d' → forgotten d res d'.
Proof. intros Hs Hse Hsn [????? H6 H7]. split; rewrite <-?Hs, <-?Hse, <-?Hsn; done. Qed.

Lemma y_Forget f d :
  IsCanonicalSuitePath (key_path k) = true → suite_t d !! k = Some f →
  yields d (Forget k) (λ r d', ∃ res, r = Some res ∧ forgotten d res d').
Proof.
  intros Hcan Hf. unfold Forget. eapply y_look; [apply y_query|]. intros ? ->. rewrite Hf.
  eapply y_look; [apply y_hold|]. intros ? ->. cbn [negb]. unfold forget_held.
  eapply y_look; [apply y_panicked|]. intros ? ->. eapply y_look; [apply y_query|]. intros ? ->. rewrite Hf.
  eapply y_bind; [by apply y_metadata|]. intros [rows fine] d1 (Hok & Hs1 & Hse1 & Hsn1 & Hu1). cbn in Hok. subst fine.
  cbn [negb]. eapply (y_bind _ _ _ (λ o d', o.2 = true ∧ forgotten d o.1 d')).
  - unfold forget_settled. eapply (y_bind _ _ _ (λ r d', ∃ res, r = Some res ∧ forgotten d res d')).
    + apply y_submit. intros now. rewrite <-Hs1 in Hf. destruct (ForgetSuite_run f now d1 Hf Hu1) as (res & d' & Hrun & Hfo).
      exists res, d'. split; [exact Hrun|]. exists res. split; [done|]. by apply (forgotten_from d d1).
    + intros r d2 (res & -> & Hfo). eapply (y_look _ _ (λ o, o = (res, true))); [by apply y_ret|]. intros o ->. cbn [fst].
      eapply y_look; [apply y_when|]. intros _ _. by apply y_ret.
  - intros [res fine] d2 [Hok Hfo]. cbn in Hok, Hfo. subst fine. eapply y_look; [apply y_panicked|]. intros ? ->.
    unfold forget_done. cbn [fst snd negb]. rewrite (fo_deleted _ _ _ Hfo). cbn [negb].
    eapply (y_look _ _ (λ a, a = Some res)); [eapply y_look; [apply y_emit|]; intros _ _; by apply y_ret|]. intros a ->.
    eapply y_look; [apply y_emit|]. intros _ _. apply y_ret. by exists res.
Qed.

(** C24. An undisturbed POST /forget forgets, and is the way out of a refused
    downgrade.  When no read, write or hold fails, nothing panics, the request is
    not cancelled and no other goroutine changes the database meanwhile ([Quiet]),
    forgetting a suite of a canonical path that has a row deletes the row and all of
    its cached metadata and no other suite's row, and answers with exactly the
    suites of the same base, in either scheme, that are left.  If there are
    some, no marker of a signature is lost or gets older; if there are none, every
    marker of the base and every cached anchor of it is gone, so that - in a
    database where every signed, adopted snapshot that is not retired belongs to a
    suite with a row - an unsigned adoption of the base is refused no more. *)
Theorem Forget_forgets f s :
  let d := w_db (rs_world s) in
  let d' := w_db (rs_world (Forget k s).2) in
  IsCanonicalSuitePath (key_path k) = true → suite_t d !! k = Some f →
  ∃ res, (Forget k s).1 = Some res ∧ forgotten d res d' ∧
    (fg_kept_by res = [] →
     (∀ i s', snap_t d !! i = Some s' → signed_history s' = true → is_Some (suite_t d !! ss_suite s')) →
     ∀ path, MarkerBase path = base → refuseUnsignedDowngrade (key_host k) path d' = Ok (tt, d')).
Proof.
  intros d d' Hcan Hf. destruct (y_Forget f d Hcan Hf s eq_refl) as (res & Hr & Hfo).
  exists res. split; [exact Hr|]. split; [exact Hfo|]. intros Hnil Hrows path Hpath. by eapply forgotten_adopts.
Qed.
End forget.

(** ** A concrete forget *)

(** The only suite of its base, with a marker: an unsigned adoption was refused
    before, and is not after. *)
Definition demo_forget : option ForgetResult * RState := @Forget (quiet_around demo_now) demo_suite demo_state.

Lemma Forget_forgets_witness :
  refuseUnsignedDowngrade "deb.example" "/debian/dists/stable" demo_db = Err ErrUnsignedDowngradeRefused ∧
  suite_t (w_db (rs_world demo_forget.2)) !! demo_suite = None ∧
  refuseUnsignedDowngrade "deb.example" "/debian/dists/stable" (w_db (rs_world demo_forget.2))
    = Ok (tt, w_db (rs_world demo_forget.2)).
Proof.
  split; [by vm_compute|].
  assert (IsCanonicalSuitePath (key_path demo_suite) = true) as Hcan by (by vm_compute).
  assert (suite_t (w_db (rs_world demo_state)) !! demo_suite = Some (demo_row (900 * demo_day) None)) as Hrow by (by vm_compute).
  destruct (@Forget_forgets demo_suite (quiet_around demo_now) (quiet_around_quiet demo_now) _ demo_state Hcan Hrow)
    as (res & Hres & Hfo & Hout).
  fold demo_forget in Hres, Hfo, Hout. split; [exact (proj1 (fo_gone _ _ _ _ Hfo))|].
  assert (fg_kept_by <$> demo_forget.1 = Some []) as Hk by (by vm_compute).
  rewrite Hres in Hk. injection Hk as Hk. apply (Hout Hk); [|by vm_compute].
  intros i s' Hs. change (snap_t (w_db (rs_world demo_state))) with (∅ : gmap Z SuiteSnapshot) in Hs.
  by rewrite lookup_empty in Hs.
Defined.
