(* ===== verification/Collectors.v ===== *)
(** * The collector (internal/gc)

    One goroutine runs the three passes in rotation - cached paths, snapshots,
    blobs - under a deadline a tick shares, and unlinks the files of the blobs it
    deleted; at the start of the process a scan of pool/ removes the files no blob
    row names.  Each batch is a transaction of [GC] or [Retention].

    The pool is a tree of two levels, with whatever else lies in it.  Before every
    step the other goroutines may change the database and the tree ([beside]); a
    step may fail, be cancelled, or panic. *)
From S2P Require Import Prelude GoStrings AptPath Tables Invariant Snapshots GC Retention Scheduler.
Local Open Scope Z_scope.

(** ** Configuration *)

(** [Config]; durations in nanoseconds. *)
Record Config := {
  Enabled : bool; Interval : Z; BatchSize : Z; SnapshotBatchSize : Z; MaxTickDuration : Z;
  BlobGrace : Z; KeepDisplaced : Z; PoolScanWorkers : Z; HeartbeatStaleGrace : Z;
  URLPathTTL : Z; HoldWindow : Z; MaxVersionsPerPackage : Z }.

(** The field [New] refuses. *)
Inductive refused :=
| BadInterval | BadBatchSize | BadSnapshotBatchSize | BadMaxTickDuration | BadBlobGrace
| BadKeepDisplaced | BadPoolScanWorkers | BadHeartbeatStaleGrace.

Definition New (cfg : Config) : option refused :=
  if negb (Enabled cfg) then None
  else if Interval cfg <=? 0 then Some BadInterval
  else if BatchSize cfg <? 1 then Some BadBatchSize
  else if SnapshotBatchSize cfg <? 1 then Some BadSnapshotBatchSize
  else if MaxTickDuration cfg <=? 0 then Some BadMaxTickDuration
  else if BlobGrace cfg <=? 0 then Some BadBlobGrace
  else if KeepDisplaced cfg <? 0 then Some BadKeepDisplaced
  else if PoolScanWorkers cfg <? 1 then Some BadPoolScanWorkers
  else if HeartbeatStaleGrace cfg <=? 0 then Some BadHeartbeatStaleGrace
  else None.

(** [int64(d.Seconds())] *)
Definition seconds (d : Z) : Z := Z.quot d Second.

(** ** The pool's tree *)

(** The entries of a directory below pool/: [None] is a directory, [Some] a file
    and its content. *)
Abbreviation Dir := (gmap string (option string)).
(** The entries of pool/ itself: [None] is a file. *)
Abbreviation Tree := (gmap string (option Dir)).

Definition node (t : Tree) (prefix name : string) : option (option string) :=
  match t !! prefix with Some (Some d) => d !! name | _ => None end.

Definition validHashLite (s : string) : bool :=
  if negb (len s =? 64) then false else string_forallb is_hex_lower s.

(** [hash[:2]] *)
Definition prefix_of (hash : string) : string := String.substring 0 2 hash.

(** [poolPath], below pool/. *)
Definition poolPath (hash : string) : string * string :=
  if len hash <? 2 then ("_invalid", hash) else (prefix_of hash, hash).

(** The file a blob's bytes are in. *)
Definition pool_file (t : Tree) (hash : string) : option string :=
  match node t (poolPath hash).1 (poolPath hash).2 with Some f => f | None => None end.

Definition unlink (prefix name : string) (t : Tree) : Tree :=
  match t !! prefix with Some (Some d) => <[prefix := Some (delete name d)]> t | _ => t end.

Inductive removed := Removed | Absent | Failed.

(** ** The goroutine and what runs beside it *)

Inductive pass := urlPathPass | snapshotPass | blobPass.

#[export] Instance pass_dec : EqDecision pass.
Proof. solve_decision. Defined.

(** A write is not done, done without the caller learning of it, or done. *)
Inductive write_end := NotWritten | Unheard | Written.

Class Beside := {
  beside : nat → DB * Tree → DB * Tree;
  monotonic_clock : nat → Z;
  unix_now : nat → Z;
  shut_down : nat → bool;
  write_ends : nat → write_end;
  read_fails : nat → bool;
  listing_fails : nat → bool;
  stat_fails : nat → bool;
  unlink_fails : nat → bool;
  bug_strikes : nat → bool;
}.

Record urlPathResult := { up_scanned : Z; up_stamped : Z; up_cleared : Z; up_deleted : Z }.
Record snapshotPassResult := { sn_orphans : Z; sn_displaced : Z; sn_retired : Z }.
Record blobResult := { bl_count : Z; bl_bytes : Z }.
Record scanResult := { sr_orphans : Z; sr_bytes : Z; sr_unlinkErrors : Z }.

Definition no_urls : urlPathResult := {| up_scanned := 0; up_stamped := 0; up_cleared := 0; up_deleted := 0 |}.
Definition no_snapshots : snapshotPassResult := {| sn_orphans := 0; sn_displaced := 0; sn_retired := 0 |}.
Definition no_blobs : blobResult := {| bl_count := 0; bl_bytes := 0 |}.
Definition no_orphans : scanResult := {| sr_orphans := 0; sr_bytes := 0; sr_unlinkErrors := 0 |}.

(** One tick: what each pass did and how long it took. *)
Record tickResult := {
  tr_urls : urlPathResult; tr_snapshots : snapshotPassResult; tr_blobs : blobResult;
  tr_unlinkErrors : Z; tr_deadline : bool;
  tr_urlTime : Z; tr_snapshotTime : Z; tr_blobTime : Z }.

Definition no_tick : tickResult :=
  {| tr_urls := no_urls; tr_snapshots := no_snapshots; tr_blobs := no_blobs; tr_unlinkErrors := 0;
     tr_deadline := false; tr_urlTime := 0; tr_snapshotTime := 0; tr_blobTime := 0 |}.

(** [LastRunSummary] *)
Record LastRunSummary := {
  lr_phase : string; lr_at : Z; lr_duration : Z; lr_tick : tickResult; lr_scan : scanResult }.

Record GState := {
  gs_db : DB;
  gs_tree : Tree;
  gs_tick : nat;
  gs_nextPass : pass;
  gs_cursor : URLKey;                  (** [urlPathCursor] *)
  gs_lastRun : option LastRunSummary;
  gs_entered : list pass;              (** the passes entered so far, for the observer *)
}.

Inductive outcome (A : Type) := Value (a : A) | Panic | Stuck.
Arguments Value {A} _.
Arguments Panic {A}.
Arguments Stuck {A}.

Definition gc (A : Type) : Type := GState → outcome A * GState.
#[export] Instance gc_ret : MRet gc := λ A a s, (Value a, s).
#[export] Instance gc_bind : MBind gc := λ A B f m s,
  match m s with (Value a, s) => f a s | (Panic, s) => (Panic, s) | (Stuck, s) => (Stuck, s) end.

Definition phaseStartup : string := "startup".
Definition phasePeriodic : string := "periodic".
Definition retiredRunAfterStart : Z := 3600 * Second.

Section collector.
Context `{Beside} `{TableScan}.
Context (cfg : Config) (fuel : nat).

(** ** The steps *)

Definition moment : gc nat := λ s,
  let n := gs_tick s in
  let w := beside n (gs_db s, gs_tree s) in
  (Value n, {| gs_db := w.1; gs_tree := w.2; gs_tick := S n; gs_nextPass := gs_nextPass s;
               gs_cursor := gs_cursor s; gs_lastRun := gs_lastRun s; gs_entered := gs_entered s |}).

Definition get_state : gc GState := λ s, (Value s, s).
Definition set_db (d : DB) : gc unit := λ s,
  (Value tt, {| gs_db := d; gs_tree := gs_tree s; gs_tick := gs_tick s; gs_nextPass := gs_nextPass s;
                gs_cursor := gs_cursor s; gs_lastRun := gs_lastRun s; gs_entered := gs_entered s |}).
Definition set_tree (t : Tree) : gc unit := λ s,
  (Value tt, {| gs_db := gs_db s; gs_tree := t; gs_tick := gs_tick s; gs_nextPass := gs_nextPass s;
                gs_cursor := gs_cursor s; gs_lastRun := gs_lastRun s; gs_entered := gs_entered s |}).
Definition set_next (p : pass) : gc unit := λ s,
  (Value tt, {| gs_db := gs_db s; gs_tree := gs_tree s; gs_tick := gs_tick s; gs_nextPass := p;
                gs_cursor := gs_cursor s; gs_lastRun := gs_lastRun s; gs_entered := gs_entered s |}).
Definition set_cursor (k : URLKey) : gc unit := λ s,
  (Value tt, {| gs_db := gs_db s; gs_tree := gs_tree s; gs_tick := gs_tick s; gs_nextPass := gs_nextPass s;
                gs_cursor := k; gs_lastRun := gs_lastRun s; gs_entered := gs_entered s |}).
Definition recordLastRun (r : LastRunSummary) : gc unit := λ s,
  (Value tt, {| gs_db := gs_db s; gs_tree := gs_tree s; gs_tick := gs_tick s; gs_nextPass := gs_nextPass s;
                gs_cursor := gs_cursor s; gs_lastRun := Some r; gs_entered := gs_entered s |}).
Definition entered (p : pass) : gc unit := λ s,
  (Value tt, {| gs_db := gs_db s; gs_tree := gs_tree s; gs_tick := gs_tick s; gs_nextPass := gs_nextPass s;
                gs_cursor := gs_cursor s; gs_lastRun := gs_lastRun s; gs_entered := gs_entered s ++ [p] |}).

Definition panic {A} : gc A := λ s, (Panic, s).
Definition stuck {A} : gc A := λ s, (Stuck, s).

(** [recover]: a panic of [m] makes it answer [a]. *)
Definition recovered {A} (a : A) (m : gc A) : gc A := λ s,
  match m s with (Panic, s) => (Value a, s) | r => r end.

Definition ended : gc bool := n ← moment; mret (shut_down n).
Definition clock_read : gc Z := n ← moment; mret (monotonic_clock n).

(** A call of the cache, where a bug of this goroutine may strike. *)
Definition cache_call : gc nat := n ← moment; if bug_strikes n then panic else mret n.

Definition submit {A} (m : Z → T A) : gc (option A) :=
  n ← cache_call;
  match write_ends n with
  | NotWritten => mret None
  | e =>
      s ← get_state;
      match atomically (m (unix_now n)) (gs_db s) with
      | (Ok a, d) => _ ← set_db d; mret (match e with Written => Some a | _ => None end)
      | (Err _, _) => mret None
      end
  end.

Definition query {A} (f : DB → result cache_error A) : gc (option A) :=
  n ← cache_call;
  if read_fails n then mret None
  else s ← get_state; mret (match f (gs_db s) with Ok a => Some a | Err _ => None end).

(** [os.Remove]: a directory under that name goes too when it is empty, which
    [unlink_fails] decides. *)
Definition os_remove (prefix name : string) : gc removed :=
  n ← moment;
  if unlink_fails n then mret Failed
  else
    s ← get_state;
    match node (gs_tree s) prefix name with
    | None => mret Absent
    | Some _ => _ ← set_tree (unlink prefix name (gs_tree s)); mret Removed
    end.

(** ** The blob pass *)

Definition tally (res : blobResult) (reaped : list (string * Z)) : blobResult :=
  fold_left (λ r e, {| bl_count := bl_count r + 1; bl_bytes := bl_bytes r + e.2 |}) reaped res.

Fixpoint unlink_all (reaped : list (string * Z)) (errors : Z) : gc Z :=
  match reaped with
  | [] => mret errors
  | (hash, _) :: reaped =>
      if negb (validHashLite hash) then unlink_all reaped (errors + 1)
      else
        r ← os_remove (poolPath hash).1 (poolPath hash).2;
        unlink_all reaped (match r with Failed => errors + 1 | _ => errors end)
  end.

(** The answer of a pass: what it did, whether the deadline tripped, whether a
    batch failed. *)
Fixpoint blob_loop (fuel : nat) (deadline : Z) (res : blobResult) (errors : Z)
    : gc (blobResult * bool * Z * bool) :=
  match fuel with
  | O => stuck
  | S fuel =>
      over ← ended;
      if over : bool then mret (res, false, errors, false)
      else
        t ← clock_read;
        if deadline <=? t then mret (res, true, errors, false)
        else
          r ← submit (RunBlobGCBatch (BatchSize cfg) (seconds (BlobGrace cfg)));
          match r with
          | None => mret (res, false, errors, true)
          | Some [] => mret (res, false, errors, false)
          | Some reaped =>
              errors ← unlink_all reaped errors;
              blob_loop fuel deadline (tally res reaped) errors
          end
  end.

Definition runBlobPass (deadline : Z) : gc (blobResult * bool * Z * bool) :=
  blob_loop fuel deadline no_blobs 0.

(** ** The snapshot pass *)

(** Sub-job C: the retired snapshots, in chunks. *)
Fixpoint runSubJobC (fuel : nat) (deadline : Z) (retired : Z) : gc (Z * bool * bool) :=
  match fuel with
  | O => stuck
  | S fuel =>
      over ← ended;
      if over : bool then mret (retired, false, false)
      else
        t ← clock_read;
        if deadline <=? t then mret (retired, true, false)
        else
          r ← submit (λ _, RunRetiredSnapshotGCChunk 0);
          match r with
          | None => mret (retired, false, true)
          | Some (reaped, more) =>
              if more : bool then runSubJobC fuel deadline (retired + reaped)
              else mret (retired + reaped, false, false)
          end
  end.

(** The loop over sub-jobs A and B: it answers [None] in the middle when they are
    drained. *)
Fixpoint snapshot_loop (fuel : nat) (deadline : Z) (acc : snapshotPassResult)
    : gc (snapshotPassResult * option (bool * bool)) :=
  match fuel with
  | O => stuck
  | S fuel =>
      over ← ended;
      if over : bool then mret (acc, Some (false, false))
      else
        t ← clock_read;
        if deadline <=? t then mret (acc, Some (true, false))
        else
          r ← submit (RunSnapshotGCBatch (SnapshotBatchSize cfg) (seconds (HeartbeatStaleGrace cfg))
                        (KeepDisplaced cfg));
          match r with
          | None => mret (acc, Some (false, true))
          | Some (o, p) =>
              let acc := {| sn_orphans := sn_orphans acc + o; sn_displaced := sn_displaced acc + p;
                            sn_retired := sn_retired acc |} in
              if o + p =? 0 then mret (acc, None) else snapshot_loop fuel deadline acc
          end
  end.

Definition runSnapshotPass (deadline : Z) (phase : string) : gc (snapshotPassResult * bool * bool) :=
  r ← snapshot_loop fuel deadline no_snapshots;
  let '(acc, left_) := r in
  match left_ with
  | Some (hit, err) => mret (acc, hit, err)
  | None =>
      if (phase =? phaseStartup)%string then mret (acc, false, false)
      else
        c ← runSubJobC fuel deadline 0;
        let '(retired, hit, err) := c in
        mret ({| sn_orphans := sn_orphans acc; sn_displaced := sn_displaced acc;
                 sn_retired := sn_retired acc + retired |}, hit, err)
  end.

(** ** The url_path pass *)

Fixpoint url_pass_loop (fuel : nat) (deadline ttl hold maxV : Z) (cur : URLKey) (acc : urlPathResult)
    : gc (urlPathResult * bool * bool) :=
  match fuel with
  | O => stuck
  | S fuel =>
      over ← ended;
      if over : bool then mret (acc, false, false)
      else
        t ← clock_read;
        if deadline <=? t then _ ← set_cursor cur; mret (acc, true, false)
        else
          r ← submit (RunURLPathGCBatch (BatchSize cfg) ttl hold maxV cur);
          match r with
          | None => mret (acc, false, true)
          | Some res =>
              let acc := {| up_scanned := up_scanned acc + ug_scanned res; up_stamped := up_stamped acc + ug_stamped res;
                            up_cleared := up_cleared acc + ug_cleared res; up_deleted := up_deleted acc + ug_deleted res |} in
              if ug_scanned res =? 0 then _ ← set_cursor ("", "", ""); mret (acc, false, false)
              else url_pass_loop fuel deadline ttl hold maxV (ug_last res) acc
          end
  end.

Definition runURLPathPass (deadline ttl hold maxV : Z) : gc (urlPathResult * bool * bool) :=
  if ttl <=? 0 then mret (no_urls, false, false)
  else s ← get_state; url_pass_loop fuel deadline ttl hold maxV (gs_cursor s) no_urls.

(** ** A tick *)

Definition timed {A} (m : gc A) : gc (A * Z) :=
  start ← clock_read; a ← m; end_ ← clock_read; mret (a, end_ - start).

Definition with_urls (r : urlPathResult) (hit : bool) (t : Z) (res : tickResult) : tickResult :=
  {| tr_urls := r; tr_snapshots := tr_snapshots res; tr_blobs := tr_blobs res; tr_unlinkErrors := tr_unlinkErrors res;
     tr_deadline := tr_deadline res || hit; tr_urlTime := t; tr_snapshotTime := tr_snapshotTime res;
     tr_blobTime := tr_blobTime res |}.
Definition with_snapshots (r : snapshotPassResult) (hit : bool) (t : Z) (res : tickResult) : tickResult :=
  {| tr_urls := tr_urls res; tr_snapshots := r; tr_blobs := tr_blobs res; tr_unlinkErrors := tr_unlinkErrors res;
     tr_deadline := tr_deadline res || hit; tr_urlTime := tr_urlTime res; tr_snapshotTime := t;
     tr_blobTime := tr_blobTime res |}.
Definition with_blobs (r : blobResult) (errors : Z) (hit : bool) (t : Z) (res : tickResult) : tickResult :=
  {| tr_urls := tr_urls res; tr_snapshots := tr_snapshots res; tr_blobs := r; tr_unlinkErrors := errors;
     tr_deadline := tr_deadline res || hit; tr_urlTime := tr_urlTime res; tr_snapshotTime := tr_snapshotTime res;
     tr_blobTime := t |}.

(** The three sections of [runTick].  Each answers the result so far, whether the
    tick goes on, and whether a batch failed. *)
Definition url_section (deadline : Z) (res : tickResult) : gc (tickResult * bool * bool) :=
  _ ← entered urlPathPass;
  let ttl := seconds (URLPathTTL cfg) in
  if ttl <=? 0 then _ ← set_next snapshotPass; mret (res, true, false)
  else
    let maxV := if MaxVersionsPerPackage cfg <? 1 then 3 else MaxVersionsPerPackage cfg in
    r ← timed (runURLPathPass deadline ttl (seconds (HoldWindow cfg)) maxV);
    let '(urls, hit, err, t) := r in
    let res := with_urls urls hit t res in
    if (err : bool) || hit then mret (res, false, err)
    else _ ← set_next snapshotPass; mret (res, true, false).

Definition snapshot_section (deadline : Z) (phase : string) (res : tickResult) : gc (tickResult * bool * bool) :=
  _ ← entered snapshotPass;
  r ← timed (runSnapshotPass deadline phase);
  let '(snap, hit, err, t) := r in
  let res := with_snapshots snap hit t res in
  if (err : bool) || hit then mret (res, false, err)
  else _ ← set_next blobPass; mret (res, true, false).

Definition blob_section (deadline : Z) (res : tickResult) : gc (tickResult * bool) :=
  _ ← entered blobPass;
  r ← timed (runBlobPass deadline);
  let '(blobs, hit, errors, err, t) := r in
  let res := with_blobs blobs errors hit t res in
  if (err : bool) then mret (res, true)
  else _ ← (if hit : bool then mret tt else set_next urlPathPass); mret (res, false).

Definition runTick (phase : string) : gc (tickResult * bool) :=
  t ← clock_read;
  let deadline := t + MaxTickDuration cfg in
  s ← get_state;
  u ← (if bool_decide (gs_nextPass s = urlPathPass) then url_section deadline no_tick
       else mret (no_tick, true, false));
  let '(res, go, err) := u in
  if negb go then mret (res, err)
  else
    s ← get_state;
    v ← (if bool_decide (gs_nextPass s = snapshotPass) then snapshot_section deadline phase res
         else mret (res, true, false));
    let '(res, go, err) := v in
    if negb go then mret (res, err) else blob_section deadline res.

(** ** After a panic *)

Definition next_pass (p : pass) : pass :=
  match p with urlPathPass => snapshotPass | snapshotPass => blobPass | blobPass => urlPathPass end.

(** [skipPanickedPass] *)
Definition skipPanickedPass (passesDone : bool) : gc unit :=
  if passesDone then mret tt else s ← get_state; set_next (next_pass (gs_nextPass s)).

(** The summary of a completed tick. *)
Definition summary (phase : string) (duration at_ : Z) (tick : tickResult) (scan : scanResult) : LastRunSummary :=
  {| lr_phase := phase; lr_at := at_; lr_duration := duration; lr_tick := tick; lr_scan := scan |}.

Definition unix_read : gc Z := n ← moment; mret (unix_now n).

(** A panic in the passes is recovered: nothing is recorded, and the rotation
    moves past the pass that panicked. *)
Definition periodicTick : gc unit :=
  start ← clock_read;
  r ← recovered None (t ← runTick phasePeriodic; mret (Some t));
  match r with
  | None => skipPanickedPass false
  | Some (tick, _) =>
      end_ ← clock_read; at_ ← unix_read;
      recordLastRun (summary phasePeriodic (end_ - start) at_ tick no_orphans)
  end.

(** [retiredRun]: sub-job C alone. *)
Definition retiredRun : gc unit :=
  recovered tt (t ← clock_read; _ ← runSubJobC fuel (t + MaxTickDuration cfg) 0; mret tt).

(** ** The scan of pool/ at the start *)

(** A directory's entries as [os.ReadDir] gives them, each with [IsDir]. *)
Definition by_name {A} (m : gmap string A) : list (string * A) :=
  sort_by (λ a b, str_leb a.1 b.1) (map_to_list m).

Definition list_pool : gc (option (list (string * bool))) :=
  n ← moment; s ← get_state;
  mret (if listing_fails n then None
        else Some (map (λ e : string * option Dir, (e.1, bool_decide (is_Some e.2))) (by_name (gs_tree s)))).

Definition list_prefix (prefix : string) : gc (option (list (string * bool))) :=
  n ← moment; s ← get_state;
  mret (if listing_fails n then None
        else match gs_tree s !! prefix with
             | Some (Some d) => Some (map (λ e : string * option string, (e.1, bool_decide (e.2 = None))) (by_name d))
             | _ => None
             end).

(** The size [os.Stat] gives; 0 when it fails. *)
Definition os_stat (prefix name : string) : gc Z :=
  n ← moment; s ← get_state;
  mret (if stat_fails n then 0
        else match node (gs_tree s) prefix name with Some (Some f) => len f | _ => 0 end).

Definition scan_job (prefix name : string) (counts : scanResult) : gc scanResult :=
  over ← ended;
  if over : bool then mret counts
  else if negb (validHashLite name) then mret counts
  else if negb (prefix_of name =? prefix)%string then mret counts
  else
    known ← query (λ d, HashKnown d name);
    match known with
    | None | Some true => mret counts
    | Some false =>
        size ← os_stat prefix name;
        r ← os_remove prefix name;
        mret match r with
             | Failed => {| sr_orphans := sr_orphans counts; sr_bytes := sr_bytes counts;
                            sr_unlinkErrors := sr_unlinkErrors counts + 1 |}
             | Absent => counts
             | Removed => {| sr_orphans := sr_orphans counts + 1; sr_bytes := sr_bytes counts + size;
                             sr_unlinkErrors := sr_unlinkErrors counts |}
             end
    end.

(** A panic ends the job and not its worker. *)
Definition scanPoolFile (prefix name : string) (counts : scanResult) : gc scanResult :=
  recovered counts (scan_job prefix name counts).

(** The files of one prefix, as the producer hands them out; whether it went on
    to the end. *)
Fixpoint scan_files (prefix : string) (files : list (string * bool)) (counts : scanResult)
    : gc (scanResult * bool) :=
  match files with
  | [] => mret (counts, true)
  | (name, isDir) :: files =>
      if isDir : bool then scan_files prefix files counts
      else
        over ← ended;
        if over : bool then mret (counts, false)
        else counts ← scanPoolFile prefix name counts; scan_files prefix files counts
  end.

Fixpoint scan_prefixes (entries : list (string * bool)) (counts : scanResult) : gc scanResult :=
  match entries with
  | [] => mret counts
  | (prefix, isDir) :: entries =>
      over ← ended;
      if over : bool then mret counts
      else if negb isDir then scan_prefixes entries counts
      else
        files ← list_prefix prefix;
        match files with
        | None => scan_prefixes entries counts
        | Some files =>
            r ← scan_files prefix files counts;
            let '(counts, on) := r in
            if on : bool then scan_prefixes entries counts else mret counts
        end
  end.

(** [None]: pool/ does not read. *)
Definition runPoolScan : gc (option scanResult) :=
  entries ← list_pool;
  match entries with
  | None => mret None
  | Some entries => counts ← scan_prefixes entries no_orphans; mret (Some counts)
  end.

(** [StartupPass]: whether it answers no error. *)
Definition StartupPass : gc bool :=
  if negb (Enabled cfg) then mret true
  else
    start ← clock_read;
    scan ← recovered None runPoolScan;
    match scan with
    | None => mret false
    | Some scan =>
        r ← recovered None (t ← runTick phaseStartup; mret (Some t));
        match r with
        | None => _ ← skipPanickedPass false; mret false
        | Some (_, true) => mret false
        | Some (tick, false) =>
            end_ ← clock_read; at_ ← unix_read;
            _ ← recordLastRun (summary phaseStartup (end_ - start) at_ tick scan);
            mret true
        end
    end.

(** ** The goroutine *)

(** The timer that fires next. *)
Inductive wake := TickDue | RetiredDue.

(** [Run]'s loop, over the timers as they fire; the timer of the retired run
    exists only for an interval longer than an hour, and fires once. *)
Fixpoint wakes (retiredDue : bool) (l : list wake) : gc unit :=
  match l with
  | [] => mret tt
  | w :: l =>
      over ← ended;
      if over : bool then mret tt
      else match w with
           | TickDue => _ ← periodicTick; wakes retiredDue l
           | RetiredDue => _ ← (if retiredDue then retiredRun else mret tt); wakes false l
           end
  end.

Definition Run (l : list wake) : gc unit :=
  if negb (Enabled cfg) then mret tt
  else wakes (retiredRunAfterStart <? Interval cfg) l.

(** The daemon's use of it: the startup pass, then [Run]. *)
Definition collector (l : list wake) : gc unit := _ ← StartupPass; Run l.
End collector.
