(* ===== verification/CollectorLaws.v ===== *)
(** * What the collector leaves alone, and when it comes round

    A weakest-precondition logic of the collector's goroutine: what holds after a
    value, after a panic, and where the fuel ran out.  With it: whatever the others
    do, the file of a blob that is needed stays; and whatever panics, every pass
    gets its turn. *)
From S2P Require Import Prelude GoStrings AptPath Tables Invariant Snapshots GC Retention Scheduler Collectors.
Local Open Scope Z_scope.

(** ** Weakest preconditions *)

Definition wp {A} (m : gc A) (Q : A → GState → Prop) (P S : GState → Prop) (s : GState) : Prop :=
  match m s with (Value a, s') => Q a s' | (Panic, s') => P s' | (Stuck, s') => S s' end.

Lemma wp_mono {A} (m : gc A) Q Q' P P' S S' s :
  wp m Q P S s → (∀ a s', Q a s' → Q' a s') → (∀ s', P s' → P' s') → (∀ s', S s' → S' s') →
  wp m Q' P' S' s.
Proof. unfold wp. destruct (m s) as [[a| |] s']; auto. Qed.

Lemma wp_ret {A} (a : A) (Q : A → GState → Prop) P S s : Q a s → wp (mret a) Q P S s.
Proof. done. Qed.

Lemma wp_bind {A B} (m : gc A) (f : A → gc B) Q P S s :
  wp m (λ a, wp (f a) Q P S) P S s → wp (m ≫= f) Q P S s.
Proof. unfold wp, mbind, gc_bind. by destruct (m s) as [[a| |] s']. Qed.

Lemma wp_recovered {A} (a : A) (m : gc A) Q P S s : wp m Q (Q a) S s → wp (recovered a m) Q P S s.
Proof. unfold wp, recovered. by destruct (m s) as [[b| |] s']. Qed.

(** ** Steps that keep an invariant *)

Section keeping.
Context `{Beside} (I : GState → Prop).

(** [m] keeps [I], however it ends, and its value satisfies [Q]. *)
Definition ok {A} (m : gc A) (Q : A → Prop) : Prop := ∀ s, I s → wp m (λ a s', Q a ∧ I s') I I s.

Lemma safe_ret {A} (a : A) (Q : A → Prop) : Q a → ok (mret a) Q.
Proof. by intros Ha s Hs. Qed.

Lemma safe_bind {A B} (m : gc A) (f : A → gc B) R Q : ok m R → (∀ a, R a → ok (f a) Q) → ok (m ≫= f) Q.
Proof. intros Hm Hf s Hs. apply wp_bind. eapply wp_mono; [by apply Hm|..]; [|done..]. intros a s' [Ha Hs']. by apply Hf. Qed.

Lemma safe_mono {A} (m : gc A) (R Q : A → Prop) : ok m R → (∀ a, R a → Q a) → ok m Q.
Proof. intros Hm HQ s Hs. eapply wp_mono; [by apply Hm|..]; [|done..]. intros a s' [? ?]. auto. Qed.

Lemma safe_recovered {A} (a : A) (m : gc A) Q : Q a → ok m Q → ok (recovered a m) Q.
Proof. intros Ha Hm s Hs. apply wp_recovered. eapply wp_mono; [by apply Hm|..]; by auto. Qed.

Lemma safe_panic {A} (Q : A → Prop) : ok panic Q.
Proof. by intros s Hs. Qed.
Lemma safe_stuck {A} (Q : A → Prop) : ok stuck Q.
Proof. by intros s Hs. Qed.

(** The state is read for no more than its invariant. *)
Lemma safe_get {B} (f : GState → gc B) Q : (∀ s, I s → ok (f s) Q) → ok (s ← get_state; f s) Q.
Proof. intros Hf s Hs. apply wp_bind. cbn. by apply Hf. Qed.
End keeping.

Ltac okstep :=
  match goal with
  | |- ok _ (mret _) _ => apply safe_ret
  | |- ok _ (_ ≫= _) _ => first [apply safe_get; intros ? ? | eapply safe_bind; [eauto with collector|intros ? ?]]
  | |- ok _ panic _ => apply safe_panic
  | |- ok _ stuck _ => apply safe_stuck
  | |- ok _ (recovered _ _) _ => apply safe_recovered
  | |- ok _ (match ?x with _ => _ end) _ => destruct x
  | |- ok _ (let _ := _ in _) _ => cbv zeta
  | |- ok _ _ _ => solve [eauto with collector]
  end.

Create HintDb collector.

(** ** Files that are needed *)

Section needed.
Context `{Beside} `{TableScan}.
Context (cfg : Config) (fuel : nat) (latest : Z) (N : string → Prop) (content : string → string).
Context (time : ∀ n, unix_now n <= latest).

(** A blob that a current snapshot has as a member or an anchor, or that a cached
    path has which was asked for within the time to live. *)
Definition needed (d : DB) (h : string) : Prop :=
  (∃ k f id p m, suite_t d !! k = Some f ∧ sf_current f = Some id ∧
     member_t d !! (id, p) = Some m ∧ m_blob m = h) ∨
  (∃ k f id s, suite_t d !! k = Some f ∧ sf_current f = Some id ∧ snap_t d !! id = Some s ∧
     (ss_inrelease s = Some h ∨ ss_release s = Some h ∨ ss_release_gpg s = Some h)) ∨
  (∃ k u t, url_t d !! k = Some u ∧ up_blob u = Some h ∧ up_last_requested u = Some t ∧
     latest - seconds (URLPathTTL cfg) <= t).

Record served (d : DB) : Prop := {
  sv_wf : wf d;
  sv_needed h : N h → needed d h }.

Definition stocked (t : Tree) : Prop := ∀ h, N h → pool_file t h = Some (content h).

Definition inv (s : GState) : Prop := served (gs_db s) ∧ stocked (gs_tree s).

(** A needed blob has its row, and no collector takes it. *)
Lemma needed_row d h : wf d → needed d h → is_Some (blob_t d !! h) ∧ blob_pinned d h = true.
Proof.
  intros Hwf Hn. unfold blob_pinned. destruct Hn as [(k & f & id & p & m & Hk & Hf & Hm & <-)|[(k & f & id & s & Hk & Hf & Hs & Ha)|(k & u & t & Hu & Hb & _)]].
  - split; [by destruct (fk_member d (wf_fk d Hwf) _ _ Hm)|].
    apply orb_true_iff. left. apply orb_true_iff. right. apply exists_where_true.
    exists (id, p), m. split; [done|by apply String.eqb_eq].
  - split; [by eapply (fk_anchor d (wf_fk d Hwf))|]. apply orb_true_iff. right. apply exists_where_true.
    exists id, s. split; [done|]. rewrite !orb_true_iff, !bool_decide_eq_true. tauto.
  - split; [by eapply (fk_url d (wf_fk d Hwf))|]. apply orb_true_iff. left. apply orb_true_iff. left.
    apply exists_where_true. exists k, u. split; [done|]. by apply bool_decide_eq_true.
Qed.

Lemma current_not_collected d k f id : suite_t d !! k = Some f → sf_current f = Some id → is_current d id = true.
Proof. intros Hk Hf. apply is_current_true. by exists k, f. Qed.

(** Transactions that touch no suite, no cached path, and the rows of snapshots
    that are nobody's only. *)
Lemma needed_stays d d' h :
  suite_t d' = suite_t d → url_t d' = url_t d →
  (∀ id s, is_current d id = true → snap_t d !! id = Some s → snap_t d' !! id = Some s) →
  (∀ id p m, is_current d id = true → member_t d !! (id, p) = Some m → member_t d' !! (id, p) = Some m) →
  needed d h → needed d' h.
Proof.
  unfold needed. intros Es Eu. rewrite !Eu, !Es. intros Hs Hm [(k & f & id & p & m & Hk & Hf & Hmm & <-)|[(k & f & id & s & Hk & Hf & Hss & Ha)|Hu]].
  - left. exists k, f, id, p, m. split_and!; try done. apply Hm; [|done]. by eapply current_not_collected.
  - right. left. exists k, f, id, s. split_and!; try done. apply Hs; [|done]. by eapply current_not_collected.
  - by right; right.
Qed.

Lemma served_urls n hold maxV after now d res d' :
  now <= latest → served d →
  RunURLPathGCBatch n (seconds (URLPathTTL cfg)) hold maxV after now d = Ok (res, d') → served d'.
Proof.
  intros Hnow [Hwf Hneed] Hrun. split; [by eapply wf_RunURLPathGCBatch|]. intros h Hh.
  assert (1 <= n ∧ 0 < seconds (URLPathTTL cfg)) as [Hn Httl].
  { unfold RunURLPathGCBatch in Hrun. minv. bclean. lia. }
  destruct (RunURLPathGCBatch_run n (seconds (URLPathTTL cfg)) hold maxV after now d Hn Httl)
    as (res1 & d1 & Hrun1 & (Es & En & Em & _) & _ & _ & _ & Hin & Hout & _).
  rewrite Hrun in Hrun1. injection Hrun1 as <- <-.
  destruct (Hneed h Hh) as [Hx|[Hx|(k & u & t & Hu & Hb & Ht & Hle)]]; unfold needed; rewrite Es, ?Em, ?En; [by left|by right; left|].
  right. right. set (page := url_page d after _ _) in *.
  destruct (decide (k ∈ map fst page)) as [Hp|Hp].
  - exists k, (set_dropped None u), t. split_and!; try done.
    apply list_elem_of_fmap_1 in Hp as ([k' u'] & -> & Hr). cbn [fst] in *.
    destruct (elem_of_page _ _ _ _ _ Hr) as [Hu' _]. cbn [fst snd] in Hu'. assert (u' = u) as -> by congruence.
    pose proof (Hin _ Hr) as Hrow. cbn [fst snd] in Hrow. rewrite Hrow.
    assert (keeps d (now - seconds (URLPathTTL cfg)) (if maxV <? 1 then defaultMaxVersionsPerPackage else maxV) (k', u) = true) as ->; [|done].
    unfold keeps, retained, recent. cbn [fst snd]. rewrite Ht. by rewrite (proj2 (Z.leb_le _ _)) by lia.
  - exists k, u, t. rewrite Hout by done. done.
Qed.

Lemma served_snapshots n g keep now d r d' :
  served d → RunSnapshotGCBatch n g keep now d = Ok (r, d') → served d'.
Proof.
  intros [Hwf Hneed] Hrun. split; [by eapply wf_RunSnapshotGCBatch|]. intros h Hh.
  assert (1 <= n ∧ 0 <= keep) as [Hn Hk] by (unfold RunSnapshotGCBatch in Hrun; minv; bclean; lia).
  destruct (RunSnapshotGCBatch_run n g keep now d Hn Hk) as (o & p & Hr & _). rewrite Hrun in Hr. injection Hr as _ ->.
  set (ids := map fst _). assert (∀ id, is_current d id = true → id ∉ ids) as Hids.
  { intros id Hc Hin. assert (is_current d id = false); [|congruence].
    eapply (candidate_not_current d (now - g) keep). subst ids.
    apply list_elem_of_fmap_1 in Hin as (e & -> & He). apply list_elem_of_fmap_2.
    rewrite sql_limit_nonneg in He by lia. apply list_elem_of_lookup_1 in He as (j & Hj).
    apply lookup_take_Some in Hj as [Hj _]. by eapply list_elem_of_lookup_2. }
  apply (needed_stays d); [done|done|..|by apply Hneed].
  - intros id s Hc Hs. rewrite lookup_cascaded, bool_decide_false; [done|by apply Hids].
  - intros id q m Hc Hm. apply lookup_delete_where_Some. split; [done|]. apply bool_decide_eq_false. by apply Hids.
Qed.

Lemma served_retired maxRows d r d' :
  served d → RunRetiredSnapshotGCChunk maxRows d = Ok (r, d') → served d'.
Proof.
  intros [Hwf Hneed] Hrun.
  destruct (RunRetiredSnapshotGCChunk_correct maxRows d Hwf) as [[Hr _]|(id & s & ms & ss & ps & d1 & Hs & Hret & Hc & Hwf1 & Hms & Hss & Hps & _ & _ & Hcase)].
  { rewrite Hrun in Hr. by injection Hr as _ ->. }
  assert (∀ i q m, is_current d i = true → member_t d !! (i, q) = Some m → member_t (trimmed ms ss ps d) !! (i, q) = Some m) as Hmem.
  { intros i q m Hi Hm. cbn. rewrite lookup_delete_keys, bool_decide_false; [done|].
    intros Hin. apply Hms in Hin. cbn in Hin. congruence. }
  destruct Hcase as [[Hr ->]|(Hr & _ & ->)]; rewrite Hrun in Hr; injection Hr as _ ->; (split; [done|]); intros h Hh;
    (apply (needed_stays d); [done|done| |exact Hmem|by apply Hneed]); intros i x Hi Hx.
  - done.
  - apply lookup_delete_where_Some. split; [exact Hx|]. apply bool_decide_eq_false. intros ->%list_elem_of_singleton. congruence.
Qed.

Lemma served_blobs n g now d out d' :
  served d → RunBlobGCBatch n g now d = Ok (out, d') → served d' ∧ ∀ h, N h → h ∉ map fst out.
Proof.
  intros [Hwf Hneed] Hrun. assert (1 <= n) as Hn by (unfold RunBlobGCBatch in Hrun; minv; bclean; lia).
  pose proof (wf_RunBlobGCBatch n g now d out d' Hwf Hrun) as Hwf'.
  destruct (RunBlobGCBatch_run n g now d Hn) as [f Hr]. cbv zeta in Hr. rewrite Hrun in Hr. injection Hr as -> ->.
  split.
  - split; [done|]. intros h Hh. by apply (needed_stays d); [..|by apply Hneed].
  - intros h Hh. rewrite map_map. cbn [fst]. intros ([h' b] & Heq & Hin)%list_elem_of_fmap_1. cbn [fst] in Heq. subst h'.
    apply elem_of_reaped in Hin as (Hb & (_ & _ & Hp)%reapable_true).
    destruct (needed_row d h Hwf (Hneed h Hh)) as [_ Hp']. congruence.
Qed.

(** *** The steps *)

Context (calm : ∀ n d t, served d → stocked t → served (beside n (d, t)).1 ∧ stocked (beside n (d, t)).2).

Notation okI := (ok inv).

Lemma safe_moment : okI moment (λ _, True).
Proof. intros s [Hd Ht]. split; [done|]. exact (calm (gs_tick s) _ _ Hd Ht). Qed.
Lemma safe_set_next p : okI (set_next p) (λ _, True).
Proof. by intros s Hs. Qed.
Lemma safe_set_cursor k : okI (set_cursor k) (λ _, True).
Proof. by intros s Hs. Qed.
Lemma safe_record r : okI (recordLastRun r) (λ _, True).
Proof. by intros s Hs. Qed.
Lemma safe_entered p : okI (entered p) (λ _, True).
Proof. by intros s Hs. Qed.
#[local] Hint Resolve safe_moment safe_set_next safe_set_cursor safe_record safe_entered : collector.

Lemma safe_ended : okI ended (λ _, True).
Proof. unfold ended. by repeat okstep. Qed.
Lemma safe_clock : okI clock_read (λ _, True).
Proof. unfold clock_read. by repeat okstep. Qed.
Lemma safe_unix : okI unix_read (λ _, True).
Proof. unfold unix_read. by repeat okstep. Qed.
Lemma safe_call : okI cache_call (λ _, True).
Proof. unfold cache_call. by repeat okstep. Qed.
#[local] Hint Resolve safe_ended safe_clock safe_unix safe_call : collector.

Lemma safe_submit {A} (m : Z → T A) (Q : A → Prop) :
  (∀ now d a d', now <= latest → served d → m now d = Ok (a, d') → served d' ∧ Q a) →
  okI (submit m) (λ r, ∀ a, r = Some a → Q a).
Proof.
  intros Hm. unfold submit. eapply safe_bind; [apply safe_call|]. intros n _ s [Hd Ht].
  destruct (write_ends n); [by split| |]; apply wp_bind; cbn;
    (destruct (atomically (m (unix_now n)) (gs_db s)) as [[a|e] d'] eqn:Ha;
     [apply atomically_ok in Ha; destruct (Hm _ _ _ _ (time n) Hd Ha)|]; (split; [|done || by split]); by intros b [= <-]).
Qed.

Lemma safe_query {A} (f : DB → result cache_error A) (Q : A → Prop) :
  (∀ d a, served d → f d = Ok a → Q a) → okI (query f) (λ r, ∀ a, r = Some a → Q a).
Proof.
  intros Hf. unfold query. eapply safe_bind; [apply safe_call|]. intros n _.
  destruct (read_fails n); [by apply safe_ret|]. apply safe_get. intros s [Hd _]. apply safe_ret. intros a Ha.
  destruct (f (gs_db s)) as [b|] eqn:Hb; [|done]. injection Ha as <-. by eapply Hf.
Qed.

Lemma node_unlink prefix name t p n :
  node (unlink prefix name t) p n = if bool_decide (p = prefix ∧ n = name) then None else node t p n.
Proof.
  unfold node, unlink. destruct (t !! prefix) as [[d|]|] eqn:E.
  - destruct (decide (p = prefix)) as [->|Hp].
    + rewrite lookup_insert_eq, E. destruct (decide (n = name)) as [->|Hn].
      * by rewrite lookup_delete_eq, bool_decide_true.
      * rewrite lookup_delete_ne by done. rewrite bool_decide_false; [done|]. tauto.
    + rewrite lookup_insert_ne by done. rewrite bool_decide_false; [done|]. tauto.
  - case_bool_decide as Hb; [|done]. destruct Hb as [-> _]. by rewrite E.
  - case_bool_decide as Hb; [|done]. destruct Hb as [-> _]. by rewrite E.
Qed.

Lemma stocked_unlink prefix name t : ¬ N name → stocked t → stocked (unlink prefix name t).
Proof.
  intros Hn Ht h Hh. specialize (Ht h Hh). unfold pool_file in *. rewrite node_unlink, bool_decide_false; [done|].
  intros [_ Heq]. apply Hn. revert Heq. unfold poolPath. destruct (len h <? 2); cbn; by intros <-.
Qed.

Lemma safe_remove prefix name : ¬ N name → okI (os_remove prefix name) (λ _, True).
Proof.
  intros Hn. unfold os_remove. eapply safe_bind; [apply safe_moment|]. intros n _.
  destruct (unlink_fails n); [by apply safe_ret|]. apply safe_get. intros s [_ Ht].
  destruct (node (gs_tree s) prefix name); [|by apply safe_ret].
  eapply (safe_bind _ _ _ (λ _, True)); [|by repeat okstep].
  intros s' [Hd' _]. split; [done|]. split; [done|]. cbn. by apply stocked_unlink.
Qed.

(** *** The passes *)

(** The two tests at the head of every loop. *)
Ltac safe_head :=
  eapply safe_bind; [apply safe_ended|]; intros [] _; [by repeat okstep|];
  eapply safe_bind; [apply safe_clock|]; intros ? _;
  match goal with |- ok _ (if ?b then _ else _) _ => destruct b end; [by repeat okstep|].

Lemma safe_unlink_all reaped errors :
  (∀ h, N h → h ∉ map fst reaped) → okI (unlink_all reaped errors) (λ _, True).
Proof.
  revert errors. induction reaped as [|[h z] reaped IH]; intros errors Hno; cbn; [by repeat okstep|].
  assert (∀ e, okI (unlink_all reaped e) (λ _, True)) as IH' by (intros e; apply IH; intros x Hx; specialize (Hno x Hx); set_solver).
  destruct (negb (validHashLite h)); [done|]. eapply safe_bind; [apply safe_remove|done].
  assert ((poolPath h).2 = h) as -> by (unfold poolPath; by destruct (_ <? _)). intros Hh. specialize (Hno h Hh). set_solver.
Qed.

Lemma safe_blob_loop f deadline res errors : okI (blob_loop cfg f deadline res errors) (λ _, True).
Proof.
  revert res errors. induction f as [|f IH]; intros res errors; cbn; [by repeat okstep|].
  safe_head.
  eapply safe_bind; [apply (safe_submit _ (λ out, ∀ h, N h → h ∉ map fst out))|].
  { intros now d out d' _ Hd Hrun. by eapply served_blobs. }
  intros [[|e l]|] Hr; [by repeat okstep| |by repeat okstep].
  eapply safe_bind; [apply safe_unlink_all; by apply Hr|]. intros ? _. apply IH.
Qed.

Lemma safe_subjob_c f deadline n : okI (runSubJobC f deadline n) (λ _, True).
Proof.
  revert n. induction f as [|f IH]; intros n; cbn; [by repeat okstep|].
  safe_head.
  eapply safe_bind; [apply (safe_submit _ (λ _, True))|].
  { intros now d out d' _ Hd Hrun. split; [|done]. by eapply served_retired. }
  intros [[reaped []]|] _; [apply IH|by repeat okstep..].
Qed.

Lemma safe_snapshot_loop f deadline acc : okI (snapshot_loop cfg f deadline acc) (λ _, True).
Proof.
  revert acc. induction f as [|f IH]; intros acc; cbn; [by repeat okstep|].
  safe_head.
  eapply safe_bind; [apply (safe_submit _ (λ _, True))|].
  { intros now d out d' _ Hd Hrun. split; [|done]. by eapply served_snapshots. }
  intros [[o p]|] _; [|by repeat okstep]. destruct (o + p =? 0); [by repeat okstep|apply IH].
Qed.

Lemma safe_url_loop f deadline hold maxV cur acc :
  okI (url_pass_loop cfg f deadline (seconds (URLPathTTL cfg)) hold maxV cur acc) (λ _, True).
Proof.
  revert cur acc. induction f as [|f IH]; intros cur acc; cbn; [by repeat okstep|].
  safe_head.
  eapply safe_bind; [apply (safe_submit _ (λ _, True))|].
  { intros now d out d' Hnow Hd Hrun. split; [|done]. by eapply served_urls. }
  intros [res|] _; [|by repeat okstep]. destruct (ug_scanned res =? 0); [by repeat okstep|apply IH].
Qed.
#[local] Hint Resolve safe_blob_loop safe_subjob_c safe_snapshot_loop safe_url_loop : collector.

(** *** A tick and the scan *)

Lemma safe_timed {A} (m : gc A) : okI m (λ _, True) → okI (timed m) (λ _, True).
Proof. intros Hm. unfold timed. by repeat okstep. Qed.

Lemma safe_runTick phase : okI (runTick cfg fuel phase) (λ _, True).
Proof.
  assert (∀ deadline res, okI (url_section cfg fuel deadline res) (λ _, True)) as Hurl.
  { intros deadline res. unfold url_section, runURLPathPass. okstep. cbv zeta.
    destruct (_ <=? 0); [by repeat okstep|].
    eapply safe_bind; [apply safe_timed; by repeat okstep|]. intros [[[urls hit] err] t] _. by repeat okstep. }
  assert (∀ deadline res, okI (snapshot_section cfg fuel deadline phase res) (λ _, True)) as Hsnap.
  { intros deadline res. unfold snapshot_section, runSnapshotPass. okstep.
    eapply safe_bind; [apply safe_timed; by repeat okstep|]. intros [[[snap hit] err] t] _. by repeat okstep. }
  assert (∀ deadline res, okI (blob_section cfg fuel deadline res) (λ _, True)) as Hblob.
  { intros deadline res. unfold blob_section, runBlobPass. okstep.
    eapply safe_bind; [apply safe_timed; by repeat okstep|]. intros [[[[blobs hit] errors] err] t] _. repeat okstep; done. }
  unfold runTick. okstep. cbv zeta. okstep.
  eapply (safe_bind _ _ _ (λ _, True)); [by case_bool_decide; [apply Hurl|repeat okstep]|].
  intros [[res go] err] _. destruct (negb go); [by repeat okstep|]. okstep.
  eapply (safe_bind _ _ _ (λ _, True)); [by case_bool_decide; [apply Hsnap|repeat okstep]|].
  intros [[res' go'] err'] _. destruct (negb go'); [by repeat okstep|apply Hblob].
Qed.

Lemma safe_skip b : okI (skipPanickedPass b) (λ _, True).
Proof. unfold skipPanickedPass. by repeat okstep. Qed.
#[local] Hint Resolve safe_runTick safe_skip : collector.

Lemma safe_scan_job prefix name counts : okI (scan_job prefix name counts) (λ _, True).
Proof.
  unfold scan_job. eapply safe_bind; [apply safe_ended|]; intros [] _; [by repeat okstep|]. destruct (negb (validHashLite name)); [by repeat okstep|].
  destruct (negb _); [by repeat okstep|].
  eapply safe_bind; [apply (safe_query _ (λ known, known = false → ¬ N name))|].
  { intros d a [Hwf Hneed] Ha -> Hname. destruct (needed_row d name Hwf (Hneed name Hname)) as [Hb _].
    unfold HashKnown in Ha. destruct (negb (validBlobHash name)); [done|]. injection Ha as Ha.
    by apply bool_decide_eq_false in Ha. }
  intros [[|]|] Hk; [by repeat okstep| |by repeat okstep].
  eapply (safe_bind _ _ _ (λ _, True)).
  { unfold os_stat. okstep. by repeat okstep. }
  intros size _. eapply safe_bind; [apply safe_remove; by apply (Hk false)|]. intros r _. by repeat okstep.
Qed.

Lemma safe_runPoolScan : okI runPoolScan (λ _, True).
Proof.
  assert (∀ prefix files counts, okI (scan_files prefix files counts) (λ _, True)) as Hfiles.
  { intros prefix files. induction files as [|[name []] files IH]; intros counts; cbn; [by repeat okstep|apply IH|].
    eapply safe_bind; [apply safe_ended|]; intros [] _; [by repeat okstep|].
    eapply safe_bind; [apply safe_recovered; [|apply safe_scan_job]; done|]. intros c _. apply IH. }
  assert (∀ entries counts, okI (scan_prefixes entries counts) (λ _, True)) as Hprefixes.
  { intros entries. induction entries as [|[prefix isDir] entries IH]; intros counts; cbn; [by repeat okstep|].
    eapply safe_bind; [apply safe_ended|]; intros [] _; [by repeat okstep|]. destruct (negb isDir); [apply IH|].
    eapply (safe_bind _ _ _ (λ _, True)); [unfold list_prefix; okstep; by repeat okstep|].
    intros [files|] _; [|apply IH]. eapply safe_bind; [apply Hfiles|]. intros [c []] _; [apply IH|by repeat okstep]. }
  unfold runPoolScan. eapply (safe_bind _ _ _ (λ _, True)); [unfold list_pool; okstep; by repeat okstep|].
  intros [entries|] _; [|by repeat okstep]. eapply safe_bind; [apply Hprefixes|]. intros c _. by repeat okstep.
Qed.

Lemma safe_periodicTick : okI (periodicTick cfg fuel) (λ _, True).
Proof.
  unfold periodicTick. okstep. eapply (safe_bind _ _ _ (λ _, True)); [by repeat okstep|].
  intros [[tick err]|] _; [|by eauto with collector]. by repeat (okstep || eauto with collector).
Qed.

Lemma safe_collector l : okI (collector cfg fuel l) (λ _, True).
Proof.
  unfold collector. eapply (safe_bind _ _ _ (λ _, True)).
  { unfold StartupPass. destruct (negb (Enabled cfg)); [by repeat okstep|]. okstep.
    eapply (safe_bind _ _ _ (λ _, True)); [apply safe_recovered; [done|apply safe_runPoolScan]|].
    intros [scan|] _; [|by repeat okstep]. eapply (safe_bind _ _ _ (λ _, True)); [by repeat okstep|].
    intros [[tick []]|] _; [by repeat okstep|by repeat okstep|]. eapply safe_bind; [apply safe_skip|]. intros ? _. by repeat okstep. }
  intros _ _. unfold Run. destruct (negb (Enabled cfg)); [by repeat okstep|].
  generalize (retiredRunAfterStart <? Interval cfg). induction l as [|[] l IH]; intros b; cbn; [by repeat okstep|..];
    (eapply safe_bind; [apply safe_ended|]; intros [] _; [by repeat okstep|]).
  - eapply safe_bind; [apply safe_periodicTick|]. intros _ _. apply IH.
  - eapply (safe_bind _ _ _ (λ _, True)); [|intros _ _; apply IH]. destruct b; [|by repeat okstep].
    unfold retiredRun. by repeat okstep.
Qed.

(** C11. The collector spares what is needed throughout.  Fix a set of blobs, each
    a member or an anchor of a current snapshot, or cached under a path that was
    asked for within gc.url_path_ttl of every clock reading, with its file in the
    pool.  Suppose that what the other goroutines do between two steps of the
    collector never ends that for a blob of the set, nor the database's
    invariant.  Then the scan of the pool at the start and any number of ticks and
    retired runs after it, with any failures, panics, deadlines and a shutdown at
    any point, keep it so too: each blob of the set stays needed, with its row,
    and its file stays.  Nothing is claimed of a blob that comes to be needed only
    while the collector runs: [Demo.fetched_file_lost] of PoolScan is one that the
    scan removes. *)
Theorem collector_spares_needed l s :
  served (gs_db s) → stocked (gs_tree s) →
  let s' := (collector cfg fuel l s).2 in served (gs_db s') ∧ stocked (gs_tree s').
Proof.
  intros Hd Ht s'. pose proof (safe_collector l s (conj Hd Ht)) as Hw. unfold wp in Hw. subst s'.
  destruct (collector cfg fuel l s) as [[[]| |] s']; [by destruct Hw|done|done].
Qed.
End needed.

(** ** The rotation *)

Section rotation.
Context `{Beside} `{TableScan}.
Context (cfg : Config).

(** What a pass does to the rotation - nothing - while time goes on. *)
Record within (s s' : GState) : Prop := {
  wi_wf : wf (gs_db s');
  wi_next : gs_nextPass s' = gs_nextPass s;
  wi_entered : gs_entered s' = gs_entered s;
  wi_lastRun : gs_lastRun s' = gs_lastRun s;
  wi_tick : (gs_tick s <= gs_tick s')%nat }.

Lemma within_trans s1 s2 s3 : within s1 s2 → within s2 s3 → within s1 s3.
Proof. intros [?????] [?????]. split; [done|congruence..|lia]. Qed.

(** [m] ends from [s], with a value in [Q] or a panic, within the pass. *)
Definition ends {A} (m : gc A) (Q : A → Prop) (s : GState) : Prop :=
  wp m (λ a s', Q a ∧ within s s') (within s) (λ _, False) s.
Definition steady {A} (m : gc A) (Q : A → Prop) : Prop := ∀ s, wf (gs_db s) → ends m Q s.

Lemma ends_bind {A B} (m : gc A) (f : A → gc B) R Q s :
  ends m R s → (∀ a s', R a → within s s' → ends (f a) Q s') → ends (m ≫= f) Q s.
Proof.
  intros Hm Hf. apply wp_bind. eapply wp_mono; [exact Hm|..]; [|done|done].
  intros a s' [Ha Hw]. eapply wp_mono; [by apply Hf|..]; [|intros; by eapply within_trans|done].
  intros b s'' [Hb Hw']. split; [done|]. by eapply within_trans.
Qed.

Lemma steady_ret {A} (a : A) (Q : A → Prop) : Q a → steady (mret a) Q.
Proof. intros Ha s Hs. split; [done|]. by split. Qed.
Lemma steady_bind {A B} (m : gc A) (f : A → gc B) R Q : steady m R → (∀ a, R a → steady (f a) Q) → steady (m ≫= f) Q.
Proof. intros Hm Hf s Hs. eapply ends_bind; [by apply Hm|]. intros a s' Ha Hw. apply Hf; [done|apply Hw]. Qed.
Lemma steady_get {B} (f : GState → gc B) Q : (∀ s, steady (f s) Q) → steady (s ← get_state; f s) Q.
Proof. intros Hf s Hs. apply wp_bind. cbn. by apply Hf. Qed.

(** What the rest of the program and the machine are relied on for. *)
Context (calm : ∀ n d t, wf d → wf (beside n (d, t)).1).
Context (written : ∀ n, write_ends n = Written).
Context (valid : New cfg = None) (on : Enabled cfg = true).

Lemma steady_moment : steady moment (λ _, True).
Proof. intros s Hs. split; [done|]. split; cbn; [by apply calm|done..|lia]. Qed.
Lemma steady_ended : steady ended (λ _, True).
Proof. eapply steady_bind; [apply steady_moment|]. intros n _. by apply steady_ret. Qed.
Lemma steady_cursor k : steady (set_cursor k) (λ _, True).
Proof. intros s Hs. split; [done|]. by split. Qed.

Lemma steady_submit {A} (m : Z → T A) :
  (∀ now d, wf d → ∃ a d', m now d = Ok (a, d') ∧ wf d') → steady (submit m) (λ r, is_Some r).
Proof.
  intros Hm. unfold submit. eapply steady_bind.
  { unfold cache_call. eapply steady_bind; [apply steady_moment|]. intros n _.
    instantiate (1 := λ _, True). destruct (bug_strikes n); [by intros s Hs; split|by apply steady_ret]. }
  intros n _ s Hs. rewrite written. apply wp_bind. cbn. destruct (Hm (unix_now n) _ Hs) as (a & d' & Hrun & Hwf).
  unfold atomically. rewrite Hrun. apply wp_bind. cbn. split; [by eexists|]. by split.
Qed.

Lemma steady_unlink_all reaped errors : steady (unlink_all reaped errors) (λ _, True).
Proof.
  revert errors. induction reaped as [|[h z] reaped IH]; intros errors; cbn; [by apply steady_ret|].
  destruct (negb (validHashLite h)); [apply IH|]. eapply (steady_bind _ _ (λ _, True)); [|intros r _; apply IH].
  unfold os_remove. eapply steady_bind; [apply steady_moment|]. intros n _.
  destruct (unlink_fails n); [by apply steady_ret|]. apply steady_get. intros s.
  destruct (node (gs_tree s) _ _); [|by apply steady_ret].
  eapply (steady_bind _ _ (λ _, True)); [|intros; by apply steady_ret]. intros s' Hs'. split; [done|]. by split.
Qed.

Lemma clock_read_eq s : clock_read s = (Value (monotonic_clock (gs_tick s)), (moment s).2).
Proof. done. Qed.

(** The head of a loop: it goes round again only before the deadline. *)
Lemma ends_head {A} N deadline f (stop late go : gc A) Q s :
  (∀ n, (N <= n)%nat → deadline <= monotonic_clock n) → wf (gs_db s) → (N < gs_tick s + S f)%nat →
  steady stop Q → steady late Q →
  (∀ s', f ≠ O → wf (gs_db s') → (N < gs_tick s' + f)%nat → ends go Q s') →
  ends (over ← ended; if over : bool then stop else t ← clock_read; if deadline <=? t then late else go) Q s.
Proof.
  intros HN Hs Hf Hstop Hlate Hgo. eapply ends_bind; [by apply steady_ended|]. intros over s1 _ Hw1.
  destruct over; [apply Hstop, Hw1|]. unfold ends. apply wp_bind. unfold wp at 1. rewrite clock_read_eq.
  assert (gs_tick (moment s1).2 = S (gs_tick s1)) as Ht2 by done.
  set (s2 := (moment s1).2) in *. assert (within s1 s2) as Hw2 by apply (steady_moment s1 (wi_wf _ _ Hw1)).
  assert (ends (if deadline <=? monotonic_clock (gs_tick s1) then late else go) Q s2) as He.
  { destruct (Z.leb_spec deadline (monotonic_clock (gs_tick s1))) as [|Hlt]; [apply Hlate, Hw2|].
    assert (gs_tick s1 < N)%nat. { destruct (decide (N <= gs_tick s1)%nat) as [Hge|]; [|lia]. specialize (HN _ Hge). lia. }
    pose proof (wi_tick _ _ Hw1). apply Hgo; [lia|apply Hw2|lia]. }
  eapply wp_mono; [exact He|..]; [|intros; by eapply within_trans|done].
  intros a s' [? ?]. split; [done|]. by eapply within_trans.
Qed.

(** *** The passes end *)

Lemma valid_bounds : 1 <= BatchSize cfg ∧ 1 <= SnapshotBatchSize cfg ∧ 0 <= KeepDisplaced cfg.
Proof.
  unfold New in valid. rewrite on in valid. cbn [negb] in valid.
  repeat match type of valid with (if ?b then _ else _) = _ => destruct b eqn:?; [done|] end. bclean. lia.
Qed.

Lemma steady_urls ttl hold maxV after :
  0 < ttl → steady (submit (RunURLPathGCBatch (BatchSize cfg) ttl hold maxV after)) (λ r, is_Some r).
Proof.
  intros Httl. apply steady_submit. intros now d Hwf.
  destruct (RunURLPathGCBatch_run (BatchSize cfg) ttl hold maxV after now d) as (r & d' & Hrun & _);
    [apply valid_bounds|done|]. exists r, d'. split; [done|]. by eapply wf_RunURLPathGCBatch.
Qed.
Lemma steady_snapshots g :
  steady (submit (RunSnapshotGCBatch (SnapshotBatchSize cfg) g (KeepDisplaced cfg))) (λ r, is_Some r).
Proof.
  destruct valid_bounds as (_ & ? & ?). apply steady_submit. intros now d Hwf.
  destruct (RunSnapshotGCBatch_run (SnapshotBatchSize cfg) g (KeepDisplaced cfg) now d) as (o & p & Hrun & _); [done..|].
  eexists _, _. split; [exact Hrun|]. by eapply wf_RunSnapshotGCBatch.
Qed.
Lemma steady_retired : steady (submit (λ _, RunRetiredSnapshotGCChunk 0)) (λ r, is_Some r).
Proof.
  apply steady_submit. intros now d Hwf.
  destruct (RunRetiredSnapshotGCChunk_correct 0 d Hwf) as [[Hrun _]|(? & ? & ? & ? & ? & d' & _ & _ & _ & Hwf' & _ & _ & _ & _ & _ & [[Hrun _]|[Hrun _]])];
    by eexists _, _.
Qed.
Lemma steady_blobs g : steady (submit (RunBlobGCBatch (BatchSize cfg) g)) (λ r, is_Some r).
Proof.
  apply steady_submit. intros now d Hwf. destruct (RunBlobGCBatch_run (BatchSize cfg) g now d) as [f Hrun]; [apply valid_bounds|].
  eexists _, _. split; [exact Hrun|]. by eapply wf_RunBlobGCBatch.
Qed.

Section loops.
Context (N : nat) (deadline : Z) (late : ∀ n, (N <= n)%nat → deadline <= monotonic_clock n).

Definition no_error {A} (r : A * bool * bool) : Prop := r.2 = false.

Ltac loop_head f :=
  eapply (ends_head N deadline f); [exact late|done|lia|by apply steady_ret|by apply steady_ret|];
  intros s' Hf' Hs' Ht'.

Lemma ends_blob_loop f res errors s :
  wf (gs_db s) → (N < gs_tick s + f)%nat → f ≠ O →
  ends (blob_loop cfg f deadline res errors) (λ r, r.2 = false) s.
Proof.
  revert res errors s. induction f as [|f IH]; intros res errors s Hs Ht Hf; [done|]. cbn.
  loop_head f. eapply ends_bind; [by apply steady_blobs|]. intros r s2 [[|e l] ->] Hw; [apply steady_ret; [done|apply Hw]|].
  eapply ends_bind; [apply steady_unlink_all, Hw|]. intros er s3 _ Hw'.
  apply IH; [apply Hw'| |done]. pose proof (wi_tick _ _ Hw). pose proof (wi_tick _ _ Hw'). lia.
Qed.

Lemma ends_subjob_c f n s :
  wf (gs_db s) → (N < gs_tick s + f)%nat → f ≠ O → ends (runSubJobC f deadline n) no_error s.
Proof.
  revert n s. induction f as [|f IH]; intros n s Hs Ht Hf; [done|]. cbn.
  loop_head f. eapply ends_bind; [by apply steady_retired|].
  intros r s2 [[reaped []] ->] Hw; [|apply steady_ret; [done|apply Hw]].
  apply IH; [apply Hw| |done]. pose proof (wi_tick _ _ Hw). lia.
Qed.

Lemma ends_snapshot_loop f acc s :
  wf (gs_db s) → (N < gs_tick s + f)%nat → f ≠ O →
  ends (snapshot_loop cfg f deadline acc) (λ r, ∀ b, r.2 = Some b → b.2 = false) s.
Proof.
  revert acc s. induction f as [|f IH]; intros acc s Hs Ht Hf; [done|]. cbn.
  eapply (ends_head N deadline f); [exact late|done|lia|apply steady_ret; by intros b [= <-]|apply steady_ret; by intros b [= <-]|].
  intros s' Hf' Hs' Ht'. eapply ends_bind; [by apply steady_snapshots|].
  intros r s2 [[o p] ->] Hw. destruct (o + p =? 0); [apply steady_ret; [done|apply Hw]|].
  apply IH; [apply Hw| |done]. pose proof (wi_tick _ _ Hw). lia.
Qed.

Lemma ends_url_loop f ttl hold maxV cur acc s :
  0 < ttl → wf (gs_db s) → (N < gs_tick s + f)%nat → f ≠ O →
  ends (url_pass_loop cfg f deadline ttl hold maxV cur acc) no_error s.
Proof.
  intros Httl. revert cur acc s. induction f as [|f IH]; intros cur acc s Hs Ht Hf; [done|]. cbn.
  eapply (ends_head N deadline f); [exact late|done|lia|by apply steady_ret|..].
  { eapply steady_bind; [apply steady_cursor|]. intros ? _. by apply steady_ret. }
  intros s' Hf' Hs' Ht'. eapply ends_bind; [by apply steady_urls|].
  intros r s2 [res ->] Hw. destruct (ug_scanned res =? 0).
  - eapply ends_bind; [apply steady_cursor, Hw|]. intros a s3 _ Hw'. apply steady_ret; [done|apply Hw'].
  - apply IH; [apply Hw| |done]. pose proof (wi_tick _ _ Hw). lia.
Qed.

Lemma steady_clock : steady clock_read (λ _, True).
Proof. eapply steady_bind; [apply steady_moment|]. intros n _. by apply steady_ret. Qed.

Lemma ends_timed {A} (m : gc A) (Q : A → Prop) s :
  wf (gs_db s) → (∀ s', wf (gs_db s') → (gs_tick s <= gs_tick s')%nat → ends m Q s') → ends (timed m) (λ r, Q r.1) s.
Proof.
  intros Hs Hm. unfold timed. eapply ends_bind; [by apply steady_clock|]. intros t s1 _ Hw.
  eapply ends_bind; [apply Hm; apply Hw|]. intros a s2 Ha Hw'.
  eapply ends_bind; [apply steady_clock, Hw'|]. intros t' s3 _ Hw''. apply steady_ret; [done|apply Hw''].
Qed.
End loops.

(** *** A tick *)

(** The passes a tick enters one after another from [p] on. *)
Definition following (p : pass) : list pass :=
  match p with
  | urlPathPass => [urlPathPass; snapshotPass; blobPass]
  | snapshotPass => [snapshotPass; blobPass]
  | blobPass => [blobPass]
  end.

(** The passes [ps] were entered from [s] on. *)
Record passed (ps : list pass) (s s' : GState) : Prop := {
  pa_wf : wf (gs_db s');
  pa_entered : gs_entered s' = gs_entered s ++ ps;
  pa_lastRun : gs_lastRun s' = gs_lastRun s;
  pa_tick : (gs_tick s <= gs_tick s')%nat }.

Lemma passed_within ps s s1 s2 : passed ps s s1 → within s1 s2 → passed ps s s2.
Proof. intros [????] [?????]. split; [done|congruence..|lia]. Qed.
Lemma passed_app ps qs s s1 s2 : passed ps s s1 → passed qs s1 s2 → passed (ps ++ qs) s s2.
Proof. intros [????] [? E ??]. split; [done|rewrite E, app_assoc; congruence|congruence|lia]. Qed.

(** A section of a tick that enters the pass [p]: it goes on to the next one, or
    stopped at the deadline; or it panicked. *)
Definition section_ends (p : pass) (m : gc (tickResult * bool * bool)) (s : GState) : Prop :=
  wp m (λ r s', r.2 = false ∧ passed [p] s s' ∧
          if r.1.2 : bool then gs_nextPass s' = next_pass p else gs_nextPass s' = p ∧ tr_deadline r.1.1 = true)
       (λ s', passed [p] s s' ∧ gs_nextPass s' = p) (λ _, False) s.

Lemma section_enters p m s :
  wf (gs_db s) → gs_nextPass s = p →
  (∀ s1, passed [p] s s1 → gs_nextPass s1 = p →
     wp m (λ r s', r.2 = false ∧ passed [p] s s' ∧
             if r.1.2 : bool then gs_nextPass s' = next_pass p else gs_nextPass s' = p ∧ tr_deadline r.1.1 = true)
       (λ s', passed [p] s s' ∧ gs_nextPass s' = p) (λ _, False) s1) →
  section_ends p (_ ← entered p; m) s.
Proof. intros Hs Hp Hm. apply wp_bind. cbn. apply Hm; [by split|done]. Qed.

Section ticks.
Context (K fuel : nat) (enough : (K < fuel)%nat).
Context (pace : ∀ m n, (m + K <= n)%nat → monotonic_clock m + MaxTickDuration cfg <= monotonic_clock n).

(** The deadline of a tick that began at [m]. *)
Lemma late_enough m : ∀ n, (m + K <= n)%nat → monotonic_clock m + MaxTickDuration cfg <= monotonic_clock n.
Proof. apply pace. Qed.

Context (m : nat).
Notation deadline := (monotonic_clock m + MaxTickDuration cfg).

(** A timed pass in a section, and what becomes of its answer. *)
Lemma section_pass {A} p (body : gc (A * bool * bool)) (W : A → bool → Z → tickResult → tickResult) res s s1 :
  (∀ a hit t, tr_deadline (W a hit t res) = tr_deadline res || hit) →
  passed [p] s s1 → gs_nextPass s1 = p → (m <= gs_tick s1)%nat →
  (∀ s', wf (gs_db s') → (m <= gs_tick s')%nat → ends body no_error s') →
  wp (r ← timed body;
      let '(a, hit, err, t) := r in
      let res := W a hit t res in
      if (err : bool) || hit then mret (res, false, err)
      else _ ← set_next (next_pass p); mret (res, true, false))
    (λ r s', r.2 = false ∧ passed [p] s s' ∧
       if r.1.2 : bool then gs_nextPass s' = next_pass p else gs_nextPass s' = p ∧ tr_deadline r.1.1 = true)
    (λ s', passed [p] s s' ∧ gs_nextPass s' = p) (λ _, False) s1.
Proof.
  intros HW Hp Hn Hm Hbody. apply wp_bind. eapply wp_mono.
  - apply ends_timed; [apply Hp|]. intros s' Hs' Ht'. apply Hbody; [done|lia].
  - intros [[[a hit] err] t] s2 [Herr Hw]. unfold no_error in Herr. cbn in Herr. subst err. cbn [orb].
    pose proof (passed_within _ _ _ _ Hp Hw) as Hp2. pose proof (wi_next _ _ Hw).
    destruct hit; cbn.
    + split_and!; [done|done|congruence|]. by rewrite HW, orb_true_r.
    + split_and!; [done| |done]. by destruct Hp2.
  - intros s2 Hw. pose proof (wi_next _ _ Hw). split; [by eapply passed_within|congruence].
  - done.
Qed.

Lemma url_section_ends res s :
  wf (gs_db s) → gs_nextPass s = urlPathPass → (m <= gs_tick s)%nat →
  section_ends urlPathPass (url_section cfg fuel deadline res) s.
Proof.
  intros Hs Hp Hm. apply section_enters; [done..|]. intros s1 Hp1 Hn1. cbv zeta.
  pose proof (pa_tick _ _ _ Hp1). destruct (Z.leb_spec (seconds (URLPathTTL cfg)) 0) as [|Httl].
  { cbn. split_and!; [done| |done]. by destruct Hp1. }
  apply (section_pass urlPathPass _ with_urls); [done|done|done|lia|].
  intros s' Hs' Ht'. unfold runURLPathPass. rewrite (proj2 (Z.leb_gt _ _)) by lia.
  apply wp_bind. cbn. apply (ends_url_loop (m + K) deadline (late_enough m)); [done|done|lia|lia].
Qed.

Lemma snapshot_section_ends phase res s :
  wf (gs_db s) → gs_nextPass s = snapshotPass → (m <= gs_tick s)%nat →
  section_ends snapshotPass (snapshot_section cfg fuel deadline phase res) s.
Proof.
  intros Hs Hp Hm. apply section_enters; [done..|]. intros s1 Hp1 Hn1. pose proof (pa_tick _ _ _ Hp1).
  apply (section_pass snapshotPass _ with_snapshots); [done|done|done|lia|].
  intros s' Hs' Ht'. unfold runSnapshotPass. eapply ends_bind.
  { apply (ends_snapshot_loop (m + K) deadline (late_enough m)); [done|lia|lia]. }
  intros [acc [[hit err]|]] s2 Hr Hw.
  - apply steady_ret; [|apply Hw]. exact (Hr _ eq_refl).
  - destruct (phase =? phaseStartup)%string; [apply steady_ret; [done|apply Hw]|].
    pose proof (wi_tick _ _ Hw). eapply ends_bind.
    { apply (ends_subjob_c (m + K) deadline (late_enough m)); [apply Hw|lia|lia]. }
    intros [[retired hit] err] s3 Hr' Hw'. apply steady_ret; [exact Hr'|apply Hw'].
Qed.

Lemma blob_section_ends res s :
  wf (gs_db s) → gs_nextPass s = blobPass → (m <= gs_tick s)%nat →
  wp (blob_section cfg fuel deadline res)
    (λ r s', r.2 = false ∧ passed [blobPass] s s' ∧
       (gs_nextPass s' = urlPathPass ∨ gs_nextPass s' = blobPass ∧ tr_deadline r.1 = true))
    (λ s', passed [blobPass] s s' ∧ gs_nextPass s' = blobPass) (λ _, False) s.
Proof.
  intros Hs Hp Hm. apply wp_bind. cbn [wp entered].
  set (s1 := Build_GState _ _ _ _ _ _ _). assert (passed [blobPass] s s1) as Hp1 by by split.
  apply wp_bind. eapply wp_mono.
  - apply (ends_timed _ (λ r : blobResult * bool * Z * bool, r.2 = false)); [exact Hs|]. intros s' Hs' Ht'.
    cbn in Ht'. apply (ends_blob_loop (m + K) deadline (late_enough m)); [done|lia|lia].
  - intros [[[[blobs hit] errors] err] t] s2 [Herr Hw]. cbn in Herr. subst err.
    pose proof (passed_within _ _ _ _ Hp1 Hw) as Hp2. pose proof (wi_next _ _ Hw) as Hn.
    destruct hit; cbn.
    + split_and!; [done|done|]. right. split; [by rewrite Hn|apply orb_true_r].
    + split_and!; [done| |by left]. by destruct Hp2.
  - intros s2 Hw. pose proof (wi_next _ _ Hw) as Hn. split; [by eapply passed_within|by rewrite Hn].
  - done.
Qed.
End ticks.

(** What a tick does to the rotation. *)
Definition ticked (s s' : GState) (deadline : bool) : Prop :=
  ∃ ps, passed ps s s' ∧ ps ≠ [] ∧ ps `prefix_of` following (gs_nextPass s) ∧
    (last ps = Some (gs_nextPass s') ∧ deadline = true ∨
     ∃ p, last ps = Some p ∧ gs_nextPass s' = next_pass p).

Section whole.
Context (K fuel : nat) (enough : (K < fuel)%nat).
Context (pace : ∀ m n, (m + K <= n)%nat → monotonic_clock m + MaxTickDuration cfg <= monotonic_clock n).

(** On the way: [ps] were entered, the rest of the round follows. *)
Definition reach (ps : list pass) (s s1 : GState) : Prop :=
  passed ps s s1 ∧ ps ++ following (gs_nextPass s1) = following (gs_nextPass s).

Definition completed (s : GState) (r : tickResult * bool) (s' : GState) : Prop :=
  r.2 = false ∧ ticked s s' (tr_deadline r.1).
Definition broke (s s' : GState) : Prop :=
  ∃ ps, passed ps s s' ∧ ps `prefix_of` following (gs_nextPass s) ∧ last ps = Some (gs_nextPass s').

(** After the pass [p] ended or broke where it was. *)
Lemma reach_prefix ps s s1 s' p :
  reach ps s s1 → gs_nextPass s1 = p → passed [p] s1 s' →
  passed (ps ++ [p]) s s' ∧ (ps ++ [p]) `prefix_of` following (gs_nextPass s) ∧ last (ps ++ [p]) = Some p.
Proof.
  intros [Hp Hf] <- Hp1. split_and!; [by eapply passed_app| |by rewrite last_snoc].
  rewrite <-Hf. apply prefix_app. destruct (gs_nextPass s1); by eexists.
Qed.

Lemma reach_next ps s s1 s' p :
  reach ps s s1 → gs_nextPass s1 = p → p ≠ blobPass → passed [p] s1 s' → gs_nextPass s' = next_pass p →
  reach (ps ++ [p]) s s'.
Proof.
  intros [Hp Hf] Hn Hne Hp1 Hn'. split; [by eapply passed_app|]. rewrite <-Hf, <-app_assoc. f_equal.
  rewrite Hn', Hn. by destruct p.
Qed.

Lemma stopped_here ps s s1 s' p :
  reach ps s s1 → gs_nextPass s1 = p → passed [p] s1 s' → gs_nextPass s' = p → ticked s s' true ∧ broke s s'.
Proof.
  intros Hr Hn Hp Hn'. destruct (reach_prefix ps s s1 s' p Hr Hn Hp) as (Ha & Hb & Hc). rewrite <-Hn' in Hc at 2.
  split; exists (ps ++ [p]); [|by split_and!]. split_and!; [done|by destruct ps|done|]. by left.
Qed.

Section from_m.
Context (m : nat).
Notation deadline := (monotonic_clock m + MaxTickDuration cfg).

Lemma blob_part ps s s1 res :
  reach ps s s1 → gs_nextPass s1 = blobPass → (m <= gs_tick s1)%nat →
  wp (blob_section cfg fuel deadline res) (completed s) (broke s) (λ _, False) s1.
Proof.
  intros Hr Hn Hm. eapply wp_mono; [by eapply blob_section_ends; [..|apply Hr| |]|..]; cbn beta; [| |done].
  - intros r s' (Herr & Hp & Hend). split; [done|].
    destruct (reach_prefix ps s s1 s' blobPass Hr Hn Hp) as (Ha & Hb & Hc).
    exists (ps ++ [blobPass]). split_and!; [done|by destruct ps|done|].
    destruct Hend as [Hu|[Hu Hd]]; [right; by exists blobPass|left]. by rewrite Hu.
  - intros s' [Hp Hn']. by eapply (stopped_here ps s s1 s' blobPass).
Qed.

Lemma snapshot_part phase ps s s1 res :
  reach ps s s1 → gs_nextPass s1 ≠ urlPathPass → (m <= gs_tick s1)%nat →
  wp (s0 ← get_state;
      v ← (if bool_decide (gs_nextPass s0 = snapshotPass) then snapshot_section cfg fuel deadline phase res
           else mret (res, true, false));
      let '(res, go, err) := v in
      if negb go then mret (res, err) else blob_section cfg fuel deadline res)
    (completed s) (broke s) (λ _, False) s1.
Proof.
  intros Hr Hn Hm. apply wp_bind. cbn [wp get_state]. case_bool_decide as Hs.
  - apply wp_bind. eapply wp_mono; [by eapply snapshot_section_ends; [..|apply Hr| |]|..]; cbn beta; [| |done].
    + intros [[res' go] err] s' (Herr & Hp & Hend). cbn in Herr, Hend. subst err. destruct go; cbn [negb].
      * eapply blob_part; [by eapply reach_next|by rewrite Hend|]. pose proof (pa_tick _ _ _ Hp). lia.
      * destruct Hend as [Hn' Hd]. split; [done|]. cbn. rewrite Hd. by eapply (stopped_here ps s s1 s' snapshotPass).
    + intros s' [Hp Hn']. by eapply (stopped_here ps s s1 s' snapshotPass).
  - apply wp_bind. cbn. eapply blob_part; [done| |done]. by destruct (gs_nextPass s1).
Qed.
End from_m.

Lemma runTick_ends phase s :
  wf (gs_db s) → wp (runTick cfg fuel phase) (completed s) (broke s) (λ _, False) s.
Proof.
  intros Hs. unfold runTick. apply wp_bind. unfold wp at 1. rewrite clock_read_eq. cbv zeta.
  set (m := gs_tick s). assert (within s (moment s).2) as Hw by apply (steady_moment s Hs).
  assert ((m <= gs_tick (moment s).2)%nat) as Hm by (cbn; lia).
  assert (reach [] s (moment s).2) as Hr by (destruct Hw; split; [by split; rewrite ?app_nil_r|done]).
  set (s1 := (moment s).2) in *. clearbody s1 m.
  apply wp_bind. cbn [wp get_state]. case_bool_decide as Hu.
  - apply wp_bind. eapply wp_mono; [by eapply url_section_ends; [..|apply Hr| |]|..]; cbn beta; [| |done].
    + intros [[res' go] err] s' (Herr & Hp & Hend). cbn in Herr, Hend. subst err. destruct go; cbn [negb].
      * apply (snapshot_part m phase [urlPathPass]); [by eapply (reach_next [])|by rewrite Hend|].
        pose proof (pa_tick _ _ _ Hp). lia.
      * destruct Hend as [Hn' Hd]. split; [done|]. cbn. rewrite Hd. by eapply (stopped_here [] s s1 s' urlPathPass).
    + intros s' [Hp Hn']. by eapply (stopped_here [] s s1 s' urlPathPass).
  - apply wp_bind. cbn. by apply (snapshot_part m phase []).
Qed.

(** One periodic tick: the passes it entered are a start of the round, and the
    next tick begins with the pass after the last of them - or with that pass
    again, when it ran into the deadline. *)
Definition turn (s s' : GState) : Prop :=
  ∃ ps, gs_entered s' = gs_entered s ++ ps ∧ ps ≠ [] ∧ ps `prefix_of` following (gs_nextPass s) ∧
    ((∃ p, last ps = Some p ∧ gs_nextPass s' = next_pass p) ∨
     (last ps = Some (gs_nextPass s') ∧ ∃ r, gs_lastRun s' = Some r ∧ tr_deadline (lr_tick r) = true)).

Lemma periodicTick_ends s :
  wf (gs_db s) →
  wp (periodicTick cfg fuel) (λ _ s', turn s s' ∧ wf (gs_db s')) (λ _, False) (λ _, False) s.
Proof.
  intros Hs. unfold periodicTick. apply wp_bind. unfold wp at 1. rewrite clock_read_eq.
  assert (within s (moment s).2) as Hw by apply (steady_moment s Hs).
  set (s0 := (moment s).2) in *. clearbody s0. apply wp_bind, wp_recovered, wp_bind.
  eapply wp_mono; [apply runTick_ends, Hw|..]; [| |done].
  - intros [tick err] s1 [Herr (ps & Hp & Hne & Hpre & Hlast)]. cbn in Herr. subst err. apply wp_ret.
    apply wp_bind. unfold wp at 1. rewrite clock_read_eq. assert (within s1 (moment s1).2) as Hw1 by apply (steady_moment s1), Hp.
    set (s2 := (moment s1).2) in *. clearbody s2. apply wp_bind. cbn. split; [|apply calm, Hw1].
    exists ps. cbn. rewrite (wi_entered _ _ Hw1), (pa_entered _ _ _ Hp), (wi_entered _ _ Hw), (wi_next _ _ Hw1), <-(wi_next _ _ Hw).
    split_and!; [done..|]. destruct Hlast as [[Hl Hd]|Hl]; [right|by left]. split; [done|]. by eexists.
  - intros s1 (ps & Hp & Hpre & Hlast). unfold skipPanickedPass. apply wp_bind. cbn. split; [|apply Hp].
    exists ps. cbn. rewrite (pa_entered _ _ _ Hp), (wi_entered _ _ Hw), <-(wi_next _ _ Hw).
    split_and!; [done|by intros ->|done|]. left. by eexists.
Qed.

Definition after (s : GState) : GState := (periodicTick cfg fuel s).2.

(** Three ticks that met no deadline. *)
Lemma three_turns s0 s1 s2 s3 :
  turn s0 s1 → turn s1 s2 → turn s2 s3 →
  (∀ s r, s ∈ [s1; s2; s3] → gs_lastRun s = Some r → tr_deadline (lr_tick r) = false) →
  ∃ ps, gs_entered s3 = gs_entered s0 ++ ps ∧ ∀ p, p ∈ ps.
Proof.
  intros (p1 & E1 & N1 & F1 & L1) (p2 & E2 & N2 & F2 & L2) (p3 & E3 & N3 & F3 & L3) Hd.
  exists (p1 ++ p2 ++ p3). split; [by rewrite E3, E2, E1, <-!app_assoc|].
  assert (∃ p, last p1 = Some p ∧ gs_nextPass s1 = next_pass p) as (q1 & La & Na).
  { destruct L1 as [?|(_ & r & Hr & Hb)]; [done|]. rewrite (Hd s1 r) in Hb; [done|set_solver|done]. }
  assert (∃ p, last p2 = Some p ∧ gs_nextPass s2 = next_pass p) as (q2 & Lb & Nb).
  { destruct L2 as [?|(_ & r & Hr & Hb)]; [done|]. rewrite (Hd s2 r) in Hb; [done|set_solver|done]. }
  clear L1 L2 L3 Hd. rewrite Nb in F3. rewrite Na in F2. clear E1 E2 E3 Na Nb.
  assert (∀ p ps, ps ≠ [] → ps `prefix_of` following p → head ps = Some p) as Hhead.
  { intros p [|x ps] Hne [k Hk]; [done|]. destruct p; by simplify_eq/=. }
  assert (∀ ps (p : pass), head ps = Some p → p ∈ ps) as Hin by (intros [|x ps] p [= <-]; by left).
  assert (∀ ps (p : pass), last ps = Some p → p ∈ ps) as Hlin.
  { intros ps p (l & ->)%last_Some. apply elem_of_app. right. by left. }
  pose proof (Hhead _ _ N1 F1). pose proof (Hhead _ _ N2 F2). pose proof (Hhead _ _ N3 F3).
  pose proof (Hlin _ _ La). pose proof (Hlin _ _ Lb).
  assert (next_pass q1 ∈ p2) by auto. assert (next_pass q2 ∈ p3) by auto. assert (gs_nextPass s0 ∈ p1) by auto.
  intros p. rewrite !elem_of_app. destruct F2 as [k Hk].
  destruct q1; cbn in Hk, La, Lb |- *; destruct p2 as [|a [|b [|c p2]]]; simplify_eq/=;
    destruct p; set_solver.
Qed.

(** C15. Every pass gets its turn, while no write fails.  Suppose that every write
    the collector submits is done and answered (a batch that fails ends its tick
    with the same pass still due, so a pass whose every batch fails keeps the
    passes after it waiting), that the settings are valid and gc.enabled is set,
    that the clock is past a tick's deadline within some number of its readings,
    and that the other goroutines, whatever else they do, keep the database's
    invariant.  Then, whichever passes panic: a tick returns; it enters the passes
    from the one it is due on, in order; and the next tick is due on the pass after
    the last one entered - the one that panicked, if one did - or on that one again
    only when it ran into the deadline.  So three ticks that meet no deadline enter
    all three passes, even where one of them panics every time. *)
Theorem every_pass_gets_its_turn s :
  wf (gs_db s) →
  let s1 := after s in let s2 := after s1 in let s3 := after s2 in
  (periodicTick cfg fuel s).1 = Value tt ∧ turn s s1 ∧ wf (gs_db s1) ∧
  ((∀ s, s ∈ [s1; s2; s3] → ∀ r, gs_lastRun s = Some r → tr_deadline (lr_tick r) = false) →
   ∃ ps, gs_entered s3 = gs_entered s ++ ps ∧ ∀ p, p ∈ ps).
Proof.
  intros Hs s1 s2 s3.
  assert (∀ x, wf (gs_db x) → (periodicTick cfg fuel x).1 = Value tt ∧ turn x (after x) ∧ wf (gs_db (after x))) as Ht.
  { intros x Hx. pose proof (periodicTick_ends x Hx) as Hw. unfold wp in Hw. unfold after.
    destruct (periodicTick cfg fuel x) as [[[]| |] x']; [done|done|done]. }
  destruct (Ht s Hs) as (Hv & H1 & W1). destruct (Ht s1 W1) as (_ & H2 & W2). destruct (Ht s2 W2) as (_ & H3 & _).
  split_and!; [done..|]. intros Hd. apply (three_turns s s1 s2 s3); [done..|]. intros x r Hx. by apply Hd.
Qed.
End whole.
End rotation.
