(* ===== verification/CollectorRuns.v ===== *)
(** * What the collector gets done

    With nothing in its way a tick leaves nothing behind that could be collected,
    and takes from the pool exactly the files of the blobs it deleted; the scan of
    the pool removes exactly the files no blob row names. *)
From S2P Require Import Prelude GoStrings AptPath Tables Invariant Snapshots GC Retention Scheduler Collectors CollectorLaws.
Local Open Scope Z_scope.

(** ** Nothing in the way *)

Class Calm `{Beside} (cfg : Config) (now : Z) : Prop := {
  calm_beside n w : beside n w = w;
  calm_time n : unix_now n = now;
  calm_clock m n : monotonic_clock n < monotonic_clock m + MaxTickDuration cfg;
  calm_running n : shut_down n = false;
  calm_written n : write_ends n = Written;
  calm_reads n : read_fails n = false;
  calm_listing n : listing_fails n = false;
  calm_stat n : stat_fails n = false;
  calm_unlink n : unlink_fails n = false;
  calm_bugs n : bug_strikes n = false }.

Section calm.
Context `{Beside} `{TableScan} (cfg : Config) (now : Z) `{!Calm cfg now}.

(** The files of a tree, by name. *)
Definition files : Type := string → string → option (option string).

(** The state, but for the counter of steps and the trace. *)
Record at_ (d : DB) (t : files) (p : pass) (c : URLKey) (s : GState) : Prop := {
  at_db : gs_db s = d;
  at_files q n : node (gs_tree s) q n = t q n;
  at_next : gs_nextPass s = p;
  at_cursor : gs_cursor s = c }.

Definition runs {A} (m : gc A) (Q : A → GState → Prop) (s : GState) : Prop := wp m Q (λ _, False) (λ _, False) s.

Lemma runs_bind {A B} (m : gc A) (f : A → gc B) (R : A → GState → Prop) Q s :
  runs m R s → (∀ a s', R a s' → runs (f a) Q s') → runs (m ≫= f) Q s.
Proof. intros Hm Hf. apply wp_bind. eapply wp_mono; [exact Hm|exact Hf|done|done]. Qed.

Lemma moment_at d t p c s : at_ d t p c s → at_ d t p c (moment s).2.
Proof. intros [????]. split; cbn; intros; rewrite ?calm_beside; auto. Qed.

Lemma runs_moment d t p c s : at_ d t p c s → runs moment (λ _, at_ d t p c) s.
Proof. apply moment_at. Qed.

Lemma runs_ended d t p c s : at_ d t p c s → runs ended (λ b s', b = false ∧ at_ d t p c s') s.
Proof. intros Hs. split; [apply calm_running|by apply moment_at]. Qed.

Lemma runs_head {A} deadline d t p c (stop late go : gc A) Q s :
  (∀ n, monotonic_clock n < deadline) → at_ d t p c s →
  (∀ s', at_ d t p c s' → runs go Q s') →
  runs (over ← ended; if over : bool then stop else t ← clock_read; if deadline <=? t then late else go) Q s.
Proof.
  intros Hlate Hs Hgo. eapply runs_bind; [by apply runs_ended|]. intros over s1 [-> Hs1].
  unfold runs. apply wp_bind. unfold wp at 1. rewrite clock_read_eq. rewrite (proj2 (Z.leb_gt _ _)) by apply Hlate.
  apply Hgo. by apply moment_at.
Qed.

Lemma runs_submit {A} (m : Z → T A) a d d' t p c s :
  at_ d t p c s → m now d = Ok (a, d') → runs (submit m) (λ r s', r = Some a ∧ at_ d' t p c s') s.
Proof.
  intros Hs Hm. unfold submit, cache_call, runs. apply wp_bind, wp_bind. unfold wp at 1.
  assert (at_ d t p c (moment s).2) as Hs1 by by apply moment_at.
  change (moment s) with (Value (gs_tick s), (moment s).2). cbn iota beta. set (s1 := (moment s).2) in *. clearbody s1.
  rewrite calm_bugs. cbn [wp mret gc_ret]. rewrite calm_written, calm_time. apply wp_bind. cbn [wp get_state].
  rewrite (at_db _ _ _ _ _ Hs1). unfold atomically. rewrite Hm. cbn. split; [done|]. destruct Hs1. by split.
Qed.

Lemma runs_query {A} (f : DB → result cache_error A) a d t p c s :
  at_ d t p c s → f d = Ok a → runs (query f) (λ r s', r = Some a ∧ at_ d t p c s') s.
Proof.
  intros Hs Hf. unfold query, cache_call, runs. apply wp_bind, wp_bind. unfold wp at 1.
  assert (at_ d t p c (moment s).2) as Hs1 by by apply moment_at.
  change (moment s) with (Value (gs_tick s), (moment s).2). cbn iota beta. set (s1 := (moment s).2) in *. clearbody s1.
  rewrite calm_bugs. cbn [wp mret gc_ret]. rewrite calm_reads. apply wp_bind. cbn [wp get_state].
  by rewrite (at_db _ _ _ _ _ Hs1), Hf.
Qed.

(** A file is gone, the others stay. *)
Definition without (q n : string) (t : files) : files := λ q' n', if bool_decide (q' = q ∧ n' = n) then None else t q' n'.

Lemma runs_remove q n d t p c s :
  at_ d t p c s →
  runs (os_remove q n) (λ r s', r = (match t q n with None => Absent | Some _ => Removed end) ∧ at_ d (without q n t) p c s') s.
Proof.
  intros Hs. unfold os_remove. eapply runs_bind; [by apply runs_moment|]. intros k s1 Hs1. rewrite calm_unlink.
  unfold runs. apply wp_bind. cbn [wp get_state]. rewrite (at_files _ _ _ _ _ Hs1).
  destruct (t q n) eqn:E; cbn; (split; [done|]); destruct Hs1 as [H1 H2 H3 H4]; split; try done; intros q' n'; cbn; unfold without.
  - rewrite node_unlink. case_bool_decide; [done|apply H2].
  - rewrite H2. case_bool_decide as Hb; [|done]. by destruct Hb as [-> ->].
Qed.

(** ** The blob pass *)

(** The file of a blob whose row is in [d] and not in [d']. *)
Definition dropped (d d' : DB) (q n : string) : bool :=
  has_blob d n && negb (has_blob d' n) && validHashLite n && (prefix_of n =? q)%string.

(** Exactly those files are gone. *)
Definition filed (d d' : DB) (t t' : files) : Prop := ∀ q n, t' q n = if dropped d d' q n then None else t q n.

(** Blob rows are deleted and nothing else but representations is touched. *)
Record fewer_blobs (d d' : DB) : Prop := {
  fb_blobs h : blob_t d' !! h = blob_t d !! h ∨ blob_t d' !! h = None;
  fb_urls : url_t d' = url_t d; fb_suites : suite_t d' = suite_t d; fb_snaps : snap_t d' = snap_t d;
  fb_members : member_t d' = member_t d; fb_skips : skip_t d' = skip_t d; fb_pkgs : pkg_t d' = pkg_t d;
  fb_audit : audit_t d' = audit_t d; fb_seen : seen_t d' = seen_t d }.

Lemma fewer_trans d1 d2 d3 : fewer_blobs d1 d2 → fewer_blobs d2 d3 → fewer_blobs d1 d3.
Proof.
  intros [B1 ????????] [B2 ????????]. split; [|congruence..]. intros h. destruct (B2 h) as [->|]; [apply B1|by right].
Qed.

Lemma fewer_has d d' h : fewer_blobs d d' → has_blob d' h = true → has_blob d h = true.
Proof.
  intros [Hb _ _ _ _ _ _ _ _] Hh. unfold has_blob in *. apply bool_decide_eq_true in Hh as [b Hh].
  apply bool_decide_eq_true. destruct (Hb h) as [E|E]; rewrite E in Hh; [by eexists|done].
Qed.

Lemma filed_trans d1 d2 d3 t1 t2 t3 :
  fewer_blobs d1 d2 → fewer_blobs d2 d3 → filed d1 d2 t1 t2 → filed d2 d3 t2 t3 → filed d1 d3 t1 t3.
Proof.
  intros F1 F2 H1 H2 q n. rewrite H2, H1. unfold dropped.
  pose proof (fewer_has d1 d2 n F1). pose proof (fewer_has d2 d3 n F2).
  destruct (validHashLite n), (prefix_of n =? q)%string; rewrite ?andb_false_r; try done; rewrite !andb_true_r.
  destruct (has_blob d1 n), (has_blob d2 n), (has_blob d3 n); try done; by (discriminate || naive_solver).
Qed.

Lemma poolPath_valid h : validHashLite h = true → poolPath h = (prefix_of h, h).
Proof.
  unfold validHashLite, poolPath. destruct (Z.eqb_spec (len h) 64) as [->|]; [done|]. by cbn.
Qed.

(** The files unlinked after a batch are those of the valid hashes among its rows. *)
Lemma runs_unlink_all reaped errors d t p c s :
  at_ d t p c s →
  runs (unlink_all reaped errors) (λ _ s', ∃ t', at_ d t' p c s' ∧
    ∀ q n, t' q n = if bool_decide (n ∈ map fst reaped) && validHashLite n && (prefix_of n =? q)%string then None else t q n) s.
Proof.
  revert errors t s. induction reaped as [|[h z] reaped IH]; intros errors t s Hs; cbn [unlink_all].
  { exists t. split; [done|]. intros q n. rewrite bool_decide_false; [done|]. apply not_elem_of_nil. }
  destruct (validHashLite h) eqn:Hv; cbn [negb].
  - rewrite poolPath_valid by done. cbn [fst snd]. eapply runs_bind; [by apply runs_remove|]. intros r s1 [_ Hs1].
    eapply wp_mono; [by apply IH|..]; [|done|done]. intros _ s' (t' & Hs' & Ht'). exists t'. split; [done|].
    intros q n. rewrite Ht'. unfold without. cbn [map fst]. destruct (decide (n = h)) as [->|Hne].
    + rewrite (bool_decide_true (h ∈ h :: _)) by set_solver. rewrite Hv. cbn.
      destruct (String.eqb_spec (prefix_of h) q) as [<-|Hq]; [|by rewrite andb_false_r, bool_decide_false by naive_solver].
      rewrite (bool_decide_true (_ ∧ _)) by done. by destruct (_ && _).
    + rewrite (bool_decide_ext (n ∈ h :: _) (n ∈ map fst reaped)) by set_solver.
      by rewrite (bool_decide_false (q = _ ∧ n = h)) by naive_solver.
  - eapply wp_mono; [by apply IH|..]; [|done|done]. intros _ s' (t' & Hs' & Ht'). exists t'. split; [done|].
    intros q n. rewrite Ht'. cbn [map fst]. destruct (decide (n = h)) as [->|Hne]; [by rewrite Hv, !andb_false_r|].
    by rewrite (bool_decide_ext (n ∈ h :: _) (n ∈ map fst reaped)) by set_solver.
Qed.

Lemma tally_count res reaped : bl_count (tally res reaped) = bl_count res + Z.of_nat (length reaped).
Proof. revert res. induction reaped as [|e l IH]; intros res; cbn; [lia|]. unfold tally in *. rewrite IH. cbn. lia. Qed.

(** One batch, from the transaction's point of view. *)
Lemma blob_batch d n g :
  wf d → 1 <= n →
  ∃ out d', RunBlobGCBatch n g now d = Ok (out, d') ∧ wf d' ∧ fewer_blobs d d' ∧
    (∀ h, h ∈ map fst out ↔ has_blob d h = true ∧ has_blob d' h = false) ∧
    Z.of_nat (size (blob_t d')) = Z.of_nat (size (blob_t d)) - Z.of_nat (length out) ∧
    (out = [] → ∀ h b, blob_t d' !! h = Some b → reapable d' (now - g) h b = false).
Proof.
  intros Hwf Hn. destruct (RunBlobGCBatch_run n g now d Hn) as [f Hrun]. cbv zeta in Hrun.
  set (sel := selected _ _ _ _) in *. set (dead := List.filter _ _) in *. eexists _, _. split; [exact Hrun|].
  set (d' := upd_rep _ _) in *.
  assert (map fst (map (λ e : string * Blob, (e.1, b_size e.2)) dead) = map fst dead) as Hfst by (rewrite map_map; by apply map_ext).
  assert (∀ h, h ∈ map fst dead ↔ h ∈ sel) as Hds by (intros h; apply elem_of_reaped).
  assert (∀ h, blob_t d' !! h = if bool_decide (h ∈ map fst dead) then None else blob_t d !! h) as Hlook.
  { intros h. cbn. rewrite lookup_delete_where. destruct (blob_t d !! h); cbn; by destruct (bool_decide _). }
  assert (NoDup (map fst dead)) as Hnd by apply NoDup_fst_scan_filter.
  assert (∀ h, h ∈ map fst dead → is_Some (blob_t d !! h)) as Hin.
  { intros h ([h' b] & -> & Hb)%list_elem_of_fmap_1. apply elem_of_reaped in Hb as [Hb _]. by eexists. }
  rewrite Hfst. split_and!.
  - by eapply wf_RunBlobGCBatch.
  - split; try done. intros h. rewrite Hlook. case_bool_decide; [by right|by left].
  - intros h. unfold has_blob. rewrite bool_decide_eq_true, bool_decide_eq_false, Hlook. case_bool_decide as Hh.
    + split; [intros _; split; [by apply Hin|by intros [??]]|done].
    + split; [done|]. by intros [??].
  - rewrite length_map. rewrite <-(length_map fst dead). change (blob_t d') with (delete_keys (map fst dead) (blob_t d)).
    by apply size_delete_keys.
  - intros Hnil h b Hb. apply map_eq_nil in Hnil. apply not_true_iff_false. intros Hr.
    change (reapable d' (now - g) h b) with (reapable d (now - g) h b) in Hr. rewrite Hlook, Hnil in Hb.
    rewrite bool_decide_false in Hb by apply not_elem_of_nil.
    assert (h ∈ sel); [|by rewrite <-Hds, Hnil in *; cbn in *; set_solver].
    eapply selected_all; [lia| |exact Hb|exact Hr]. fold sel.
    assert (length sel = 0%nat) as ->; [|lia]. destruct sel as [|x l]; [done|].
    assert (x ∈ map fst dead) as Hx by (apply Hds; by left). by rewrite Hnil in Hx; apply elem_of_nil in Hx.
Qed.

Context (valid : New cfg = None) (on : Enabled cfg = true).

Definition no_blob_left (d : DB) : Prop :=
  ∀ h b, blob_t d !! h = Some b → reapable d (now - seconds (BlobGrace cfg)) h b = false.

Lemma runs_blob_loop f deadline res errors d t p c s :
  (∀ n, monotonic_clock n < deadline) → wf d → (size (blob_t d) < f)%nat → at_ d t p c s →
  runs (blob_loop cfg f deadline res errors) (λ r s', ∃ d' t', at_ d' t' p c s' ∧ r.1.1.2 = false ∧ r.2 = false ∧
    wf d' ∧ fewer_blobs d d' ∧ filed d d' t t' ∧ no_blob_left d' ∧
    bl_count r.1.1.1 = bl_count res + Z.of_nat (size (blob_t d)) - Z.of_nat (size (blob_t d'))) s.
Proof.
  intros Hlate. revert res errors d t s. induction f as [|f IH]; intros res errors d t s Hwf Hf Hs; [lia|]. cbn [blob_loop].
  eapply runs_head; [done|exact Hs|]. intros s1 Hs1.
  destruct (blob_batch d (BatchSize cfg) (seconds (BlobGrace cfg)) Hwf) as (out & d1 & Hrun & Hwf1 & Hfew & Hout & Hsize & Hnil);
    [apply (valid_bounds cfg valid on)|].
  eapply runs_bind; [by eapply runs_submit|]. intros r s2 [-> Hs2]. destruct out as [|e out].
  - exists d1, t. cbn. split_and!; try done; [|exact (Hnil eq_refl)|cbn in Hsize; lia].
    intros q n. unfold dropped. specialize (Hout n). destruct (has_blob d n), (has_blob d1 n); cbn in *; try done.
    exfalso. apply (not_elem_of_nil n). by apply Hout.
  - eapply runs_bind; [by apply runs_unlink_all|]. intros errors' s3 (t1 & Hs3 & Ht1).
    assert (filed d d1 t t1) as Hfiled.
    { intros q n. rewrite Ht1. unfold dropped. specialize (Hout n).
      rewrite (bool_decide_ext _ (has_blob d n = true ∧ has_blob d1 n = false)) by done.
      by destruct (has_blob d n), (has_blob d1 n). }
    eapply wp_mono; [apply (IH (tally res (e :: out)) errors' d1 t1); [done|cbn [length] in Hsize; lia|done]|..]; [|done|done].
    intros r s4 (d' & t' & Hs4 & Hhit & Herr & Hwf' & Hfew' & Hfiled' & Hleft & Hcount). exists d', t'.
    split_and!; try done; [by eapply fewer_trans|by eapply filed_trans|]. rewrite Hcount, tally_count. lia.
Qed.

(** ** The snapshot pass *)

(** Snapshots go, with their children; the rest stays. *)
Record fewer_snapshots (d d' : DB) : Prop := {
  fs_snaps id : snap_t d' !! id = snap_t d !! id ∨ snap_t d' !! id = None ∧ is_current d id = false;
  fs_blobs : blob_t d' = blob_t d; fs_urls : url_t d' = url_t d; fs_suites : suite_t d' = suite_t d;
  fs_audit : audit_t d' = audit_t d }.

Lemma fewer_snapshots_refl d : fewer_snapshots d d.
Proof. split; try done. intros id. by left. Qed.
Lemma is_current_suites d d' id : suite_t d' = suite_t d → is_current d' id = is_current d id.
Proof. intros E. unfold is_current. by rewrite E. Qed.
Lemma fewer_snapshots_trans d1 d2 d3 : fewer_snapshots d1 d2 → fewer_snapshots d2 d3 → fewer_snapshots d1 d3.
Proof.
  intros [S1 ????] [S2 ????]. split; [|congruence..]. intros id.
  destruct (S2 id) as [->|[-> Hc]]; [apply S1|]. right. split; [done|]. by rewrite <-(is_current_suites d1 d2).
Qed.

Definition no_candidate (d : DB) : Prop :=
  ∀ id s, snap_t d !! id = Some s →
    is_orphan d (now - seconds (HeartbeatStaleGrace cfg)) id s = false ∧ is_displaced d (KeepDisplaced cfg) id s = false.

Lemma snapshot_batch d n g keep :
  wf d → 1 <= n → 0 <= keep →
  ∃ o p d', RunSnapshotGCBatch n g keep now d = Ok ((o, p), d') ∧ wf d' ∧ fewer_snapshots d d' ∧
    child_rows d' <= child_rows d ∧
    Z.of_nat (size (snap_t d')) = Z.of_nat (size (snap_t d)) - (o + p) ∧ 0 <= o + p ∧
    (o + p = 0 → d' = d ∧ ∀ id s, snap_t d !! id = Some s →
       is_orphan d (now - g) id s = false ∧ is_displaced d keep id s = false).
Proof.
  intros Hwf Hn Hk. destruct (RunSnapshotGCBatch_run n g keep now d Hn Hk) as (o & p & Hrun & Hop).
  set (cands := snapshot_candidates d (now - g) keep) in *. set (rows := sql_limit n cands) in *.
  assert (rows = take (Z.to_nat n) cands) as Hrows by (apply sql_limit_nonneg; lia).
  assert (∀ id, id ∈ map fst rows → id ∈ map fst cands) as Hsub.
  { intros id. rewrite Hrows. intros (r & -> & Hr)%list_elem_of_fmap_1. apply list_elem_of_fmap_2.
    apply list_elem_of_lookup_1 in Hr as (j & Hj). apply lookup_take_Some in Hj as [Hj _]. by eapply list_elem_of_lookup_2. }
  assert (∀ id, id ∈ map fst rows → is_current d id = false) as Hcur by (intros id Hid; by eapply candidate_not_current, Hsub).
  exists o, p. eexists. split; [exact Hrun|].
  assert (∀ `{Countable K} {A} (P : K → A → bool) (m : gmap K A), (size (delete_where P m) <= size m)%nat) as Hle.
  { intros. apply map_subseteq_size, map_subseteq_spec. by intros k v [? _]%lookup_delete_where_Some. }
  split_and!.
  - by apply wf_cascaded.
  - split; try done. intros id. rewrite lookup_cascaded. case_bool_decide as Hid; [right|by left]. split; [done|by apply Hcur].
  - unfold child_rows. cbn. pose proof (Hle _ _ _ _ (λ k _, bool_decide (k.1 ∈ map fst rows)) (member_t d)).
    pose proof (Hle _ _ _ _ (λ k _, bool_decide (k.1 ∈ map fst rows)) (skip_t d)).
    pose proof (Hle _ _ _ _ (λ k _, bool_decide (k.2 ∈ map fst rows)) (pkg_t d)). lia.
  - change (snap_t (cascaded (map fst rows) d)) with (delete_keys (map fst rows) (snap_t d)). rewrite size_delete_keys.
    + rewrite length_map. lia.
    + apply (sublist_NoDup _ (map fst cands)); [apply candidates_nodup|]. rewrite Hrows. apply (fmap_sublist fst), sublist_take.
    + intros id Hid%Hsub. apply list_elem_of_fmap_1 in Hid as ([i c] & -> & (x & Hx & _)%elem_of_candidates). by eexists.
  - lia.
  - intros Hz. assert (rows = []) as Hnil by (destruct rows; [done|cbn in Hop; lia]). split; [rewrite Hnil; apply cascaded_nil|].
    assert (cands = []) as Hc.
    { rewrite Hnil in Hrows. destruct cands as [|x l]; [done|]. destruct (Z.to_nat n) eqn:E; [lia|done]. }
    intros id x Hx. split; apply not_true_iff_false; intros Hb.
    + apply (not_elem_of_nil (id, Orphan)). rewrite <-Hc. apply elem_of_candidates. by exists x.
    + apply (not_elem_of_nil (id, Displaced)). rewrite <-Hc. apply elem_of_candidates. by exists x.
Qed.

Lemma runs_snapshot_loop f deadline acc d t p c s :
  (∀ n, monotonic_clock n < deadline) → wf d → (size (snap_t d) < f)%nat → at_ d t p c s →
  runs (snapshot_loop cfg f deadline acc) (λ r s', ∃ d', at_ d' t p c s' ∧ r.2 = None ∧ wf d' ∧
    fewer_snapshots d d' ∧ no_candidate d' ∧ child_rows d' <= child_rows d ∧ (size (snap_t d') <= size (snap_t d))%nat) s.
Proof.
  intros Hlate. revert acc d s. induction f as [|f IH]; intros acc d s Hwf Hf Hs; [lia|]. cbn [snapshot_loop].
  eapply runs_head; [done|exact Hs|]. intros s1 Hs1. destruct (valid_bounds cfg valid on) as (_ & Hb & Hk).
  destruct (snapshot_batch d (SnapshotBatchSize cfg) (seconds (HeartbeatStaleGrace cfg)) (KeepDisplaced cfg) Hwf Hb Hk)
    as (o & q & d1 & Hrun & Hwf1 & Hfew & Hch & Hsize & Hpos & Hz).
  eapply runs_bind; [by eapply runs_submit|]. intros r s2 [-> Hs2]. cbv zeta. destruct (Z.eqb_spec (o + q) 0) as [E|E].
  - destruct (Hz E) as [-> Hno]. exists d. split_and!; try done.
  - eapply wp_mono; [apply (IH _ d1); [done|lia|done]|..]; [|done|done].
    intros r s3 (d' & Hs3 & Hr & Hwf' & Hfew' & Hno & Hch' & Hs'). exists d'. split_and!; try done; [by eapply fewer_snapshots_trans|lia|lia].
Qed.

(** Sub-job C takes retired snapshots only. *)
Record fewer_retired (d d' : DB) : Prop := {
  fr_few : fewer_snapshots d d';
  fr_kept id s : snap_t d !! id = Some s → ss_retired s = None → snap_t d' !! id = Some s }.

Lemma fewer_retired_trans d1 d2 d3 : fewer_retired d1 d2 → fewer_retired d2 d3 → fewer_retired d1 d3.
Proof. intros [F1 K1] [F2 K2]. split; [by eapply fewer_snapshots_trans|auto]. Qed.

Definition no_retired (d : DB) : Prop := ∀ id s, snap_t d !! id = Some s → is_Some (ss_retired s) → is_current d id = true.

Lemma retired_chunk d :
  wf d →
  ∃ r more d', RunRetiredSnapshotGCChunk 0 d = Ok ((r, more), d') ∧ wf d' ∧ fewer_retired d d' ∧
    (if more : bool then child_rows d' + Z.of_nat (size (snap_t d')) < child_rows d + Z.of_nat (size (snap_t d))
     else no_retired d').
Proof.
  intros Hwf. destruct (RunRetiredSnapshotGCChunk_correct 0 d Hwf)
    as [[Hrun Hno]|(id & x & ms & ss & ps & d' & Hx & Hret & Hc & Hwf' & _ & _ & _ & _ & Hless & Hcase)].
  - exists 0, false, d. split_and!; try done. split; [apply fewer_snapshots_refl|done].
  - destruct Hcase as [[Hrun ->]|(Hrun & _ & ->)]; eexists _, true, _; (split; [exact Hrun|]); (split_and!; [done| |done]).
    + split; [|done]. split; try done. intros i. by left.
    + split.
      * split; try done. intros i. cbn. rewrite lookup_delete_where. destruct (snap_t d !! i) as [y|] eqn:Ey; cbn; [|by left].
        case_bool_decide as Hi; [right|by left]. split; [done|]. apply list_elem_of_singleton in Hi as ->. done.
      * intros i y Hy Hnr. cbn. apply lookup_delete_where_Some. split; [done|]. apply bool_decide_eq_false.
        intros ->%list_elem_of_singleton. rewrite Hx in Hy. injection Hy as <-. rewrite Hnr in Hret. by destruct Hret.
Qed.

Lemma runs_subjob_c f deadline n d t p c s :
  (∀ n, monotonic_clock n < deadline) → wf d → child_rows d + Z.of_nat (size (snap_t d)) < Z.of_nat f → at_ d t p c s →
  runs (runSubJobC f deadline n) (λ r s', ∃ d', at_ d' t p c s' ∧ r.1.2 = false ∧ r.2 = false ∧ wf d' ∧
    fewer_retired d d' ∧ no_retired d') s.
Proof.
  intros Hlate. revert n d s. induction f as [|f IH]; intros n d s Hwf Hf Hs; [unfold child_rows in Hf; lia|]. cbn [runSubJobC].
  eapply runs_head; [done|exact Hs|]. intros s1 Hs1.
  destruct (retired_chunk d Hwf) as (r & more & d1 & Hrun & Hwf1 & Hfew & Hmore).
  eapply runs_bind; [by eapply runs_submit|]. intros x s2 [-> Hs2]. destruct more.
  - eapply wp_mono; [apply (IH _ d1); [done|lia|done]|..]; [|done|done].
    intros y s3 (d' & Hs3 & Hh & He & Hwf' & Hfew' & Hno). exists d'. split_and!; try done. by eapply fewer_retired_trans.
  - by exists d1.
Qed.

(** ** The url_path pass *)

Lemma key_leb_antisym a b : key_leb a b = true → key_leb b a = true → a = b.
Proof.
  assert (∀ x y, str_cmp x y = CompOpp (str_cmp y x)) as Hanti by apply String.compare_antisym.
  assert (∀ x y, str_cmp x y = Eq → x = y) as Heq by apply String.compare_eq_iff.
  destruct a as [[a1 a2] a3], b as [[b1 b2] b3]. unfold key_leb, key_cmp, key_scheme, key_host, key_path. cbn [fst snd].
  rewrite (Hanti b1), (Hanti b2), (Hanti b3).
  destruct (str_cmp a1 b1) eqn:E1; [|done|done]. apply Heq in E1 as ->.
  destruct (str_cmp a2 b2) eqn:E2; [|done|done]. apply Heq in E2 as ->.
  destruct (str_cmp a3 b3) eqn:E3; [|done|done]. by apply Heq in E3 as ->.
Qed.

Lemma page_row_eq cur cutoff e :
  page_row cur cutoff e = negb (key_leb e.1 cur) && negb (recent cutoff (up_last_requested e.2) && bool_decide (up_dropped e.2 = None)).
Proof. unfold page_row, key_leb. by destruct (key_cmp e.1 cur). Qed.

(** The last key of a page is its greatest, and past the cursor. *)
Lemma page_last d cur cutoff n k u :
  0 <= n → (k, u) ∈ url_page d cur cutoff n →
  let last_ := List.last (map fst (url_page d cur cutoff n)) cur in
  key_leb k last_ = true ∧ key_leb last_ cur = false.
Proof.
  intros Hn Hin. set (page := url_page d cur cutoff n) in *.
  assert (StronglySorted (λ a b, key_order a b = true) page) as Hs.
  { unfold page, url_page. rewrite sql_limit_nonneg by done. set (l := sort_by _ _).
    apply (StronglySorted_app_1_l _ _ (drop (Z.to_nat n) l)). rewrite take_drop.
    apply Sorted_StronglySorted; [intros a b c; apply key_leb_trans|]. apply sort_by_sorted. intros a b. apply key_leb_total. }
  assert (∀ e, e ∈ page → key_leb e.1 cur = false) as Hafter.
  { intros e He. apply elem_of_page in He as [_ He]. rewrite page_row_eq in He.
    apply andb_true_iff in He as [He _]. by apply negb_true_iff in He. }
  clearbody page. assert (page ≠ []) as Hne by (intros ->; by apply elem_of_nil in Hin).
  assert (∃ l x, page = l ++ [x]) as (l & x & ->) by (destruct page using rev_ind; [done|by eexists _, _]).
  rewrite map_app. cbn [map]. rewrite last_last. cbn. split; [|apply (Hafter x), elem_of_app; right; by left].
  apply elem_of_app in Hin as [Hin|Hin%list_elem_of_singleton].
  - apply (StronglySorted_app_1_elem_of _ l [x] (k, u) x Hs Hin). by left.
  - subst x. by destruct (key_leb_total k k).
Qed.

(** The rows a pass has still to look at. *)
Definition pending (d : DB) (cur : URLKey) (cutoff : Z) : gmap URLKey URLPath :=
  filter (λ e, page_row cur cutoff e = true) (url_t d).

(** The url_path collector leaves the skipped members alone. *)
Lemma skips_urls n ttl hold maxV after d r d' :
  RunURLPathGCBatch n ttl hold maxV after now d = Ok (r, d') → skip_t d' = skip_t d.
Proof.
  intros Hrun. set (I := λ d0 : DB, skip_t d0 = skip_t d).
  assert (∀ f, triple I (mmodify (E := cache_error) (upd_url f)) (λ _, I)) as Hu by (intros f d0 [] d1 Hd [= <-]; exact Hd).
  assert (∀ f, triple I (mmodify (E := cache_error) (upd_blob f)) (λ _, I)) as Hb by (intros f d0 [] d1 Hd [= <-]; exact Hd).
  assert (∀ c res l, triple I (url_loop (now - ttl) hold (if maxV <? 1 then defaultMaxVersionsPerPackage else maxV) now c res l) (λ _, I)) as Hloop.
  { intros c res l. revert c res. induction l as [|e l IH]; intros c res; cbn; [apply triple_ret|].
    apply (triple_seq I I); [apply triple_get|]. intros d0. destruct (urlPathRetainedTx _ _ _ _ _ _ _) as [keep c1].
    apply (triple_seq I I); [|intros res1; apply IH]. unfold apply_verdict, deleteURLPathRowTx.
    destruct (row_verdict _ _ _ _); mkeep; (apply Hu || apply Hb). }
  assert (triple I (RunURLPathGCBatch n ttl hold maxV after now) (λ _, I)) as Ht.
  { unfold RunURLPathGCBatch. mkeep; apply Hloop. }
  by apply (Ht d r d').
Qed.

Section urls.
Context (ttl hold maxV : Z) (Httl : 0 < ttl).
Notation cutoff := (now - ttl).
Notation kept_versions := (if maxV <? 1 then defaultMaxVersionsPerPackage else maxV).

(** What a pass from the cursor on makes of a row. *)
Definition judged_row (d : DB) (cur : URLKey) (k : URLKey) : option URLPath :=
  match url_t d !! k with
  | Some u => if page_row cur cutoff (k, u) then gc_row (retained d k u cutoff kept_versions) hold now u else Some u
  | None => None
  end.

Lemma url_batch d cur n :
  wf d → 1 <= n →
  ∃ res d', RunURLPathGCBatch n ttl hold maxV cur now d = Ok (res, d') ∧ wf d' ∧ held d d' ∧
    (∀ h, has_blob d' h = has_blob d h) ∧ size (blob_t d') = size (blob_t d) ∧ skip_t d' = skip_t d ∧
    (ug_scanned res = 0 → ∀ k, url_t d' !! k = judged_row d cur k) ∧
    (ug_scanned res ≠ 0 → (∀ k, judged_row d' (ug_last res) k = judged_row d cur k) ∧
       (size (pending d' (ug_last res) cutoff) < size (pending d cur cutoff))%nat).
Proof.
  intros Hwf Hn. destruct (RunURLPathGCBatch_run n ttl hold maxV cur now d Hn Httl)
    as (res & d' & Hrun & Hheld & Hscan & Hlast & _ & Hin & Hout & Hblob).
  set (page := url_page d cur cutoff n) in *. exists res, d'.
  assert (∀ h, is_Some (blob_t d' !! h) ↔ is_Some (blob_t d !! h)) as Hrows.
  { intros h. specialize (Hblob h). by destruct (blob_t d' !! h), (blob_t d !! h). }
  assert (∀ k u, url_t d !! k = Some u → k ∈ map fst page → (k, u) ∈ page) as Hpage.
  { intros k u Hu ([k' u'] & -> & Hr)%list_elem_of_fmap_1. cbn in *. destruct (elem_of_page _ _ _ _ _ Hr) as [Hu' _].
    cbn in Hu'. congruence. }
  split_and!; try done.
  - by eapply wf_RunURLPathGCBatch.
  - intros h. unfold has_blob. by apply bool_decide_ext.
  - rewrite <-!size_dom. f_equal. apply set_eq. intros h. by rewrite !elem_of_dom.
  - by eapply skips_urls.
  - intros Hz k. assert (page = []) as Hnil by (destruct page; [done|cbn in Hscan; lia]).
    rewrite Hout by (rewrite Hnil; apply not_elem_of_nil). unfold judged_row. destruct (url_t d !! k) as [u|] eqn:Hu; [|done].
    destruct (page_row cur cutoff (k, u)) eqn:HP; [|done].
    destruct (page_complete d cur cutoff n k u) as [Hlen _]; [lia|done|done|fold page; rewrite Hnil; apply not_elem_of_nil|].
    fold page in Hlen. rewrite Hnil in Hlen. cbn in Hlen. lia.
  - intros Hnz. set (last_ := ug_last res) in *.
    assert (∀ (k : URLKey) u, k ∈ map fst page → url_t d !! k = Some u → key_leb k last_ = true ∧ page_row cur cutoff (k, u) = true) as Hdone.
    { intros k u Hk Hu. pose proof (Hpage k u Hu Hk) as Hr. rewrite Hlast.
      split; [eapply page_last; [lia|exact Hr]|]. by apply elem_of_page in Hr as [_ ?]. }
    assert (key_leb last_ cur = false) as Hadv.
    { destruct page as [|[k u] l] eqn:E; [cbn in Hscan; lia|]. rewrite Hlast, <-E. eapply (page_last d cur cutoff n k u); [lia|].
      fold page. rewrite E. by left. }
    assert (∀ (k : URLKey) u, k ∉ map fst page → url_t d !! k = Some u → page_row last_ cutoff (k, u) = page_row cur cutoff (k, u)) as Hrest.
    { intros k u Hk Hu. rewrite !page_row_eq. cbn [fst snd]. destruct (recent _ _ && _) eqn:Er; [by rewrite !andb_false_r|].
      rewrite !andb_true_r. f_equal. destruct (key_leb k cur) eqn:Ec.
      - apply (key_leb_trans _ cur); [done|]. destruct (key_leb_total last_ cur) as [?|?]; [congruence|done].
      - apply not_true_iff_false. intros Hkl.
        assert (page_row cur cutoff (k, u) = true) as HP by (rewrite page_row_eq; cbn [fst snd]; by rewrite Ec, Er).
        destruct (page_complete d cur cutoff n k u) as [_ Hmax]; [lia|done|done|done|]. fold page in Hmax.
        assert (last_ ∈ map fst page) as Hl.
        { assert (∃ l x, page = l ++ [x]) as (l & x & E).
          { clear -Hscan Hnz. destruct page using rev_ind; [cbn in Hscan; lia|by eexists _, _]. }
          rewrite Hlast, E, map_app. cbn [map]. rewrite last_last. apply elem_of_app. right. by left. }
        apply Hk. assert (k = last_) as ->; [|done]. apply key_leb_antisym; [done|by apply Hmax]. }
    split.
    + intros k. unfold judged_row. destruct (url_t d !! k) as [u|] eqn:Hu.
      * destruct (decide (k ∈ map fst page)) as [Hk|Hk].
        -- destruct (Hdone k u Hk Hu) as [Hle HP]. rewrite HP. pose proof (Hin _ (Hpage k u Hu Hk)) as Hrow.
           unfold keeps in Hrow. cbn [fst snd] in Hrow. rewrite Hrow. destruct (gc_row _ _ _ _) as [u'|]; [|done].
           rewrite page_row_eq. cbn [fst snd]. by rewrite Hle.
        -- rewrite (Hout k Hk), Hu, (Hrest k u Hk Hu). destruct (page_row cur cutoff (k, u)); [|done].
           by rewrite (proj1 (held_retained d d' k u cutoff kept_versions Hheld)).
      * rewrite Hout, Hu; [done|]. intros ([k' u'] & -> & Hr)%list_elem_of_fmap_1.
        destruct (elem_of_page _ _ _ _ _ Hr) as [Hu' _]. cbn in *. congruence.
    + rewrite <-!size_dom. apply subset_size. split.
      * intros k [u [Hu HP]%map_lookup_filter_Some]%elem_of_dom. apply elem_of_dom.
        destruct (decide (k ∈ map fst page)) as [Hk|Hk].
        -- destruct (url_t d !! k) as [u0|] eqn:Hu0.
           ++ destruct (Hdone k u0 Hk Hu0) as [Hle _]. rewrite page_row_eq in HP. cbn [fst snd] in HP. by rewrite Hle in HP.
           ++ apply list_elem_of_fmap_1 in Hk as ([k' u'] & -> & Hr). destruct (elem_of_page _ _ _ _ _ Hr) as [Hu' _]. cbn in *. congruence.
        -- rewrite Hout in Hu by done. exists u. apply map_lookup_filter_Some. split; [done|]. by rewrite <-(Hrest k u).
      * destruct page as [|[k u] l] eqn:E; [cbn in Hscan; lia|]. intros Hsub.
        assert ((k, u) ∈ (k, u) :: l) as Hr by by left. rewrite <-E in Hr. destruct (elem_of_page _ _ _ _ _ Hr) as [Hu HP]. cbn in Hu.
        assert (k ∈ dom (pending d' last_ cutoff)) as [u' [Hu' HP']%map_lookup_filter_Some]%elem_of_dom.
        { apply Hsub, elem_of_dom. exists u. by apply map_lookup_filter_Some. }
        destruct (Hdone k u) as [Hle _]; [by left|done|]. rewrite page_row_eq in HP'. cbn [fst snd] in HP'. by rewrite Hle in HP'.
Qed.

Lemma runs_url_loop f deadline cur acc d t p c s :
  (∀ n, monotonic_clock n < deadline) → wf d → (size (pending d cur cutoff) < f)%nat → at_ d t p c s →
  runs (url_pass_loop cfg f deadline ttl hold maxV cur acc) (λ r s', ∃ d', at_ d' t p ("", "", "") s' ∧
    r.1.2 = false ∧ r.2 = false ∧ wf d' ∧ held d d' ∧ (∀ h, has_blob d' h = has_blob d h) ∧
    size (blob_t d') = size (blob_t d) ∧ skip_t d' = skip_t d ∧ (∀ k, url_t d' !! k = judged_row d cur k)) s.
Proof.
  intros Hlate. revert cur acc d s. induction f as [|f IH]; intros cur acc d s Hwf Hf Hs; [lia|]. cbn [url_pass_loop].
  eapply runs_head; [done|exact Hs|]. intros s1 Hs1.
  destruct (url_batch d cur (BatchSize cfg) Hwf) as (res & d1 & Hrun & Hwf1 & Hheld & Hhas & Hsize & Hskip & Hz & Hnz);
    [apply (valid_bounds cfg valid on)|].
  eapply runs_bind; [by eapply runs_submit|]. intros r s2 [-> Hs2]. cbv zeta. destruct (Z.eqb_spec (ug_scanned res) 0) as [E|E].
  - exists d1. split_and!; try done; [|by apply Hz]. destruct Hs2. by split.
  - destruct (Hnz E) as [Hsame Hless].
    eapply wp_mono; [apply (IH (ug_last res) _ d1); [done|lia|done]|..]; [|done|done].
    intros r s3 (d' & Hs3 & Hh & He & Hwf' & Hheld' & Hhas' & Hsize' & Hskip' & Hrow). exists d'. split_and!; try done.
    + destruct Hheld as (?&?&?&?), Hheld' as (?&?&?&?). split_and!; congruence.
    + intros h. by rewrite Hhas'.
    + congruence.
    + congruence.
    + intros k. by rewrite Hrow, Hsame.
Qed.
End urls.

(** ** The ranking outlives the retired *)

Lemma partition_retired d d' k : fewer_retired d d' → partition_rows d' k = partition_rows d k.
Proof.
  intros [[Hs _ _ Hsu Ha] Hkept].
  assert (∀ id s, ranked d' id s = ranked d id s) as Hranked.
  { intros id s. unfold ranked. by rewrite (is_current_suites d d'), Ha. }
  assert (∀ e, e ∈ partition_rows d' k ↔ e ∈ partition_rows d k) as Hel.
  { intros [id s]. rewrite !elem_of_partition, Hranked. split; intros (Hx & Hr & Hk); split_and!; try done.
    - destruct (Hs id) as [<-|[E _]]; [done|congruence].
    - apply Hkept; [done|]. unfold ranked in Hr. by bclean. }
  assert (∀ d0, NoDup (partition_rows d0 k)) as Hnd.
  { intros d0. unfold partition_rows. rewrite sort_by_perm.
    apply (NoDup_fmap_1 fst), (NoDup_fst_scan_filter (H := key_order_scan)). }
  assert (∀ d0, StronglySorted (λ a b, newer_adoption a b = true) (partition_rows d0 k)) as Hsorted.
  { intros d0. apply Sorted_StronglySorted; [intros a b e; apply newer_adoption_trans|]. apply sort_by_sorted, newer_adoption_total. }
  apply (StronglySorted_unique_strong (λ a b, newer_adoption a b = true)); [|done|done|by apply NoDup_Permutation].
  intros [i x] [j y] Hx Hy H1 H2. apply Hel, elem_of_partition in Hx as (Hx & _). apply elem_of_partition in Hy as (Hy & _).
  assert (i = j) as ->; [|congruence]. unfold newer_adoption in *. cbn in *. revert H1 H2.
  rewrite (Z.eqb_sym (default 0 (ss_adopted y))). destruct (Z.eqb_spec (default 0 (ss_adopted x)) (default 0 (ss_adopted y)));
    [rewrite !Z.leb_le; lia|rewrite !Z.ltb_lt; lia].
Qed.

Lemma no_candidate_retired d d' : fewer_retired d d' → no_candidate d → no_candidate d'.
Proof.
  intros Hf Hno id x Hx. destruct (Hno id x) as [Ho Hd].
  { destruct (fs_snaps _ _ (fr_few _ _ Hf) id) as [<-|[E _]]; [done|congruence]. }
  pose proof Hf as [[_ _ _ Hsu Ha] _]. split.
  - rewrite <-Ho. unfold is_orphan. by rewrite (is_current_suites d d').
  - rewrite <-Hd. unfold is_displaced, ranked. by rewrite (is_current_suites d d'), Ha, (partition_retired d d') by done.
Qed.


(** ** A whole tick *)

Definition time_to_live : Z := seconds (URLPathTTL cfg).
Definition versions : Z := if MaxVersionsPerPackage cfg <? 1 then 3 else MaxVersionsPerPackage cfg.

(** What a tick leaves, which found the cursor at [cur]. *)
Record collected (d d' : DB) (t t' : files) (cur : URLKey) : Prop := {
  co_wf : wf d';
  co_urls k : url_t d' !! k =
    if 0 <? time_to_live then judged_row time_to_live (seconds (HoldWindow cfg)) versions d cur k else url_t d !! k;
  co_snapshots : no_candidate d';
  co_retired : no_retired d';
  co_blobs : no_blob_left d';
  co_suites : suite_t d' = suite_t d;
  co_current id : is_current d id = true → snap_t d' !! id = snap_t d !! id;
  co_files : filed d d' t t' }.

Lemma runs_timed {A} (m : gc A) (R : A → DB → files → pass → URLKey → Prop) d t p c s :
  at_ d t p c s →
  (∀ s, at_ d t p c s → runs m (λ a s', ∃ d' t' p' c', at_ d' t' p' c' s' ∧ R a d' t' p' c') s) →
  runs (timed m) (λ r s', ∃ d' t' p' c', at_ d' t' p' c' s' ∧ R r.1 d' t' p' c') s.
Proof.
  intros Hs Hm. unfold timed. eapply (runs_bind _ _ (λ _, at_ d t p c)).
  { unfold runs, wp. rewrite clock_read_eq. by apply moment_at. }
  intros t0 s1 Hs1. eapply runs_bind; [by apply Hm|]. intros a s2 (d' & t' & p' & c' & Hs2 & HR).
  eapply (runs_bind _ _ (λ _, at_ d' t' p' c')).
  { unfold runs, wp. rewrite clock_read_eq. by apply moment_at. }
  intros t1 s3 Hs3. exists d', t', p', c'. done.
Qed.

Section parts.
Context (deadline : Z) (Hlate : ∀ n, monotonic_clock n < deadline) (fuel : nat).

Lemma runs_url_section res d t c s :
  wf d → (size (url_t d) < fuel)%nat → at_ d t urlPathPass c s →
  runs (url_section cfg fuel deadline res) (λ r s', ∃ d' c', at_ d' t snapshotPass c' s' ∧
    r.1.2 = true ∧ r.2 = false ∧ tr_deadline r.1.1 = tr_deadline res ∧ wf d' ∧ held d d' ∧
    (∀ h, has_blob d' h = has_blob d h) ∧ size (blob_t d') = size (blob_t d) ∧ skip_t d' = skip_t d ∧
    ∀ k, url_t d' !! k =
      if 0 <? time_to_live then judged_row time_to_live (seconds (HoldWindow cfg)) versions d c k else url_t d !! k) s.
Proof.
  intros Hwf Hf Hs. unfold url_section. eapply (runs_bind _ _ (λ _, at_ d t urlPathPass c)); [by destruct Hs|].
  intros _ s1 Hs1. cbv zeta. fold time_to_live versions. destruct (Z.leb_spec time_to_live 0) as [Hle|Hlt].
  - rewrite (proj2 (Z.ltb_ge _ _)) by lia. exists d, c. destruct Hs1. by split_and!.
  - rewrite (proj2 (Z.ltb_lt _ _)) by lia. eapply runs_bind.
    { apply (runs_timed _ (λ r d' t' p' c', t' = t ∧ p' = urlPathPass ∧ r.1.2 = false ∧ r.2 = false ∧ wf d' ∧ held d d' ∧
        (∀ h, has_blob d' h = has_blob d h) ∧ size (blob_t d') = size (blob_t d) ∧ skip_t d' = skip_t d ∧
        ∀ k, url_t d' !! k = judged_row time_to_live (seconds (HoldWindow cfg)) versions d c k) d t urlPathPass c); [done|].
      intros s2 Hs2. unfold runURLPathPass. rewrite (proj2 (Z.leb_gt _ _)) by lia.
      unfold runs. apply wp_bind. cbn [wp get_state]. rewrite (at_cursor _ _ _ _ _ Hs2).
      eapply wp_mono; [eapply (runs_url_loop time_to_live (seconds (HoldWindow cfg)) versions Hlt); [done|done| |done]|..]; [|..|done|done].
      + apply (Nat.le_lt_trans _ (size (url_t d))); [|done]. apply map_subseteq_size, map_filter_subseteq.
      + intros r s3 (d' & Hs3 & Hrest). by exists d', t, urlPathPass, ("", "", ""). }
    intros [[[urls hit] err] tm] s2 (d' & t' & p' & c' & Hs2 & -> & -> & Hhit & Herr & Hwf' & Hrest). cbn in Hhit, Herr. subst hit err.
    destruct Hrest as (Hh & Hhas & Hsize & Hskip & Hrow). cbn. exists d', c'.
    assert (at_ d' t snapshotPass c' {| gs_db := gs_db s2; gs_tree := gs_tree s2; gs_tick := gs_tick s2;
      gs_nextPass := snapshotPass; gs_cursor := gs_cursor s2; gs_lastRun := gs_lastRun s2; gs_entered := gs_entered s2 |})
      by (destruct Hs2; by split).
    split_and!; try done. apply orb_false_r.
Qed.

(** The state with the rotation moved on. *)
Lemma at_moved d t p c p' s :
  at_ d t p c s → at_ d t p' c {| gs_db := gs_db s; gs_tree := gs_tree s; gs_tick := gs_tick s;
    gs_nextPass := p'; gs_cursor := gs_cursor s; gs_lastRun := gs_lastRun s; gs_entered := gs_entered s |}.
Proof. intros []. by split. Qed.

Lemma runs_snapshot_section phase res d t c s :
  wf d → (phase =? phaseStartup)%string = false →
  (size (snap_t d) < fuel)%nat → child_rows d + Z.of_nat (size (snap_t d)) < Z.of_nat fuel → at_ d t snapshotPass c s →
  runs (snapshot_section cfg fuel deadline phase res) (λ r s', ∃ d1 d', at_ d' t blobPass c s' ∧
    r.1.2 = true ∧ r.2 = false ∧ tr_deadline r.1.1 = tr_deadline res ∧ wf d' ∧
    fewer_snapshots d d1 ∧ fewer_retired d1 d' ∧ no_candidate d' ∧ no_retired d') s.
Proof.
  intros Hwf Hphase Hf1 Hf2 Hs. unfold snapshot_section.
  eapply (runs_bind _ _ (λ _, at_ d t snapshotPass c)); [by destruct Hs|]. intros _ s1 Hs1. eapply runs_bind.
  { apply (runs_timed _ (λ r d' t' p' c', t' = t ∧ p' = snapshotPass ∧ c' = c ∧ r.1.2 = false ∧ r.2 = false ∧ wf d' ∧
      ∃ d1, fewer_snapshots d d1 ∧ fewer_retired d1 d' ∧ no_candidate d' ∧ no_retired d') d t snapshotPass c); [done|].
    intros s2 Hs2. unfold runSnapshotPass. eapply runs_bind; [by apply runs_snapshot_loop|].
    intros [acc o] s3 (d1 & Hs3 & Ho & Hwf1 & Hfew & Hno & Hch & Hsz). cbn in Ho. subst o. rewrite Hphase.
    eapply runs_bind; [eapply (runs_subjob_c fuel deadline 0 d1); [done|done|lia|done]|].
    intros [[n hit] err] s4 (d2 & Hs4 & Hh & He & Hwf2 & Hret & Hnr). cbn in Hh, He. subst hit err.
    exists d2, t, snapshotPass, c. split; [done|]. split_and!; try done. exists d1. split_and!; try done. by eapply no_candidate_retired. }
  intros [[[snap hit] err] tm] s2 (d' & t' & p' & c' & Hs2 & -> & -> & -> & Hh & He & Hwf' & d1 & Hrest). cbn in Hh, He. subst hit err.
  destruct Hrest as (H1 & H2 & H3 & H4). exists d1, d'. cbn. split; [by eapply at_moved|]. split_and!; try done. apply orb_false_r.
Qed.

Lemma runs_blob_section res d t c s :
  wf d → (size (blob_t d) < fuel)%nat → at_ d t blobPass c s →
  runs (blob_section cfg fuel deadline res) (λ r s', ∃ d' t', at_ d' t' urlPathPass c s' ∧ r.2 = false ∧
    tr_deadline r.1 = tr_deadline res ∧ wf d' ∧ fewer_blobs d d' ∧ filed d d' t t' ∧ no_blob_left d' ∧
    bl_count (tr_blobs r.1) = Z.of_nat (size (blob_t d)) - Z.of_nat (size (blob_t d'))) s.
Proof.
  intros Hwf Hf Hs. unfold blob_section. eapply (runs_bind _ _ (λ _, at_ d t blobPass c)); [by destruct Hs|].
  intros _ s1 Hs1. eapply runs_bind.
  { apply (runs_timed _ (λ r d' t' p' c', p' = blobPass ∧ c' = c ∧ r.1.1.2 = false ∧ r.2 = false ∧ wf d' ∧ fewer_blobs d d' ∧
      filed d d' t t' ∧ no_blob_left d' ∧ bl_count r.1.1.1 = Z.of_nat (size (blob_t d)) - Z.of_nat (size (blob_t d'))) d t blobPass c); [done|].
    intros s2 Hs2. eapply wp_mono; [by eapply runs_blob_loop|..]; [|done|done].
    intros r s3 (d' & t' & Hs3 & Hh & He & Hwf' & Hfew & Hfiled & Hno & Hcount). exists d', t', blobPass, c.
    by split_and!. }
  intros [[[[blobs hit] errors] err] tm] s2 (d' & t' & p' & c' & Hs2 & -> & -> & Hh & He & Hwf' & Hfew & Hfiled & Hno & Hcount).
  cbn in Hh, He, Hcount. subst hit err. cbn. exists d', t'. split; [by eapply at_moved|]. split_and!; try done. apply orb_false_r.
Qed.
End parts.

Context (fuel : nat).

Definition work (d : DB) : nat :=
  size (url_t d) + size (blob_t d) + size (snap_t d) + size (member_t d) + size (skip_t d) + size (pkg_t d).

Lemma runs_tick d t c s :
  wf d → (work d < fuel)%nat → at_ d t urlPathPass c s →
  runs (runTick cfg fuel phasePeriodic) (λ r s', ∃ d' t' c', at_ d' t' urlPathPass c' s' ∧ r.2 = false ∧
    tr_deadline r.1 = false ∧ collected d d' t t' c ∧
    bl_count (tr_blobs r.1) = Z.of_nat (size (blob_t d)) - Z.of_nat (size (blob_t d'))) s.
Proof.
  intros Hwf Hf Hs. unfold work in Hf. unfold runTick, runs. apply wp_bind. unfold wp at 1. rewrite clock_read_eq. cbv zeta.
  assert (at_ d t urlPathPass c (moment s).2) as Hs1 by by apply moment_at.
  set (deadline := monotonic_clock (gs_tick s) + MaxTickDuration cfg).
  assert (∀ n, monotonic_clock n < deadline) as Hlate by (intros n; apply calm_clock).
  set (s1 := (moment s).2) in *. clearbody s1 deadline. apply wp_bind. cbn [wp get_state].
  rewrite (at_next _ _ _ _ _ Hs1), bool_decide_true by done. eapply runs_bind; [eapply runs_url_section; [done..| |done]; lia|].
  intros [[res go] err] s2 (d1 & c1 & Hs2 & Hgo & Herr & Hdl & Hwf1 & Hheld & Hhas & Hsize & Hskip & Hurls). cbn in Hgo, Herr, Hdl. subst go err.
  cbn [negb]. apply wp_bind. cbn [wp get_state]. rewrite (at_next _ _ _ _ _ Hs2), bool_decide_true by done.
  destruct Hheld as (Esu & Esn & Eme & Epk).
  eapply runs_bind; [eapply runs_snapshot_section; [done|done|done|rewrite Esn; lia|unfold child_rows; rewrite Esn, Eme, Hskip, Epk; lia|done]|].
  intros [[res2 go] err] s3 (d2 & d3 & Hs3 & Hgo & Herr & Hdl2 & Hwf3 & Hfew & Hret & Hnoc & Hnor). cbn in Hgo, Herr, Hdl2. subst go err.
  cbn [negb]. pose proof (fewer_snapshots_trans _ _ _ Hfew (fr_few _ _ Hret)) as [Hsn Hbl Hur Hsu Hau].
  eapply wp_mono; [eapply runs_blob_section; [done|done|rewrite Hbl; lia|done]|..]; [|done|done].
  intros r s4 (d4 & t4 & Hs4 & Herr & Hdl4 & Hwf4 & Hfb & Hfiled & Hleft & Hcount).
  exists d4, t4, c1. split_and!; [done|done|congruence| |rewrite Hcount, Hbl, Hsize; done].
  destruct Hfb as [Hb4 Hu4 Hs4' Hn4 Hm4 Hk4 Hp4 Ha4 He4]. split.
  - done.
  - intros k. by rewrite Hu4, Hur, Hurls.
  - intros id x Hx. rewrite Hn4 in Hx. destruct (Hnoc id x Hx) as [Ho Hd].
    split; [rewrite <-Ho; unfold is_orphan, is_current; by rewrite Hs4'|rewrite <-Hd].
    unfold is_displaced, partition_rows, ranked, is_current. by rewrite Hn4, Hs4', Ha4.
  - intros id x Hx Hr. rewrite Hn4 in Hx. rewrite (is_current_suites d3 d4) by done. by eapply Hnor.
  - done.
  - congruence.
  - intros id Hc. rewrite Hn4. destruct (Hsn id) as [->|[_ Hnc]]; [by rewrite Esn|].
    rewrite (is_current_suites d d1) in Hnc by done. congruence.
  - intros q n. rewrite Hfiled. unfold dropped. specialize (Hhas n). unfold has_blob in *. by rewrite Hbl, Hhas.
Qed.

Lemma runs_periodicTick d t c s :
  wf d → (work d < fuel)%nat → at_ d t urlPathPass c s →
  runs (periodicTick cfg fuel) (λ _ s', ∃ d' t' c', at_ d' t' urlPathPass c' s' ∧ collected d d' t t' c ∧
    ∃ r, gs_lastRun s' = Some r ∧ tr_deadline (lr_tick r) = false ∧
      bl_count (tr_blobs (lr_tick r)) = Z.of_nat (size (blob_t d)) - Z.of_nat (size (blob_t d'))) s.
Proof.
  intros Hwf Hf Hs. unfold periodicTick. eapply (runs_bind _ _ (λ _, at_ d t urlPathPass c)); [by apply moment_at|].
  intros start s1 Hs1.
  eapply (runs_bind _ _ (λ r s', ∃ tick err d' t' c', r = Some (tick, err) ∧ at_ d' t' urlPathPass c' s' ∧
    tr_deadline tick = false ∧ collected d d' t t' c ∧
    bl_count (tr_blobs tick) = Z.of_nat (size (blob_t d)) - Z.of_nat (size (blob_t d')))).
  { apply wp_recovered, wp_bind. eapply wp_mono; [by eapply runs_tick|..]; [|done|done].
    intros [tick err] s2 (d' & t' & c' & Hs2 & _ & Hdl & Hco & Hn). apply wp_ret. by exists tick, err, d', t', c'. }
  intros r s2 (tick & err & d' & t' & c' & -> & Hs2 & Hdl & Hco & Hn).
  eapply (runs_bind _ _ (λ _, at_ d' t' urlPathPass c')); [by apply moment_at|]. intros end_ s3 Hs3.
  eapply (runs_bind _ _ (λ _, at_ d' t' urlPathPass c')); [by apply moment_at|]. intros at1 s4 [????].
  exists d', t', c'. split; [by split|]. split; [done|]. by eexists.
Qed.

(** C19. A tick collects.  Where nothing runs beside it, no operation fails and the
    deadline is not met, a tick that begins the round ends it, and leaves nothing
    that could be collected: every cached path past the cursor is kept, stamped or
    deleted as the retention rule says and no other is touched; no abandoned
    candidate, no snapshot displaced beyond the number to keep, and no retired one
    is left, while suites and current snapshots stay; and no blob past its grace.
    The files gone from the pool are those of the deleted blobs, no others, and
    the summary counts them. *)
Theorem tick_collects s :
  wf (gs_db s) → (work (gs_db s) < fuel)%nat → gs_nextPass s = urlPathPass →
  let s' := (periodicTick cfg fuel s).2 in
  (periodicTick cfg fuel s).1 = Value tt ∧ gs_nextPass s' = urlPathPass ∧
  collected (gs_db s) (gs_db s') (node (gs_tree s)) (node (gs_tree s')) (gs_cursor s) ∧
  ∃ r, gs_lastRun s' = Some r ∧ tr_deadline (lr_tick r) = false ∧
    bl_count (tr_blobs (lr_tick r)) = Z.of_nat (size (blob_t (gs_db s))) - Z.of_nat (size (blob_t (gs_db s'))).
Proof.
  intros Hwf Hf Hn s'.
  assert (at_ (gs_db s) (node (gs_tree s)) urlPathPass (gs_cursor s) s) as Hs by by split.
  pose proof (runs_periodicTick _ _ _ _ Hwf Hf Hs) as Hr. unfold runs, wp in Hr. subst s'.
  destruct (periodicTick cfg fuel s) as [[[]| |] s']; [|done|done].
  destruct Hr as (d' & t' & c' & [<- Ht Hp _] & Hco & Hr). split_and!; [done|done| |done].
  destruct Hco as [??????? Hfi]. split; try done. intros q n. rewrite Ht. apply Hfi.
Qed.
End calm.
