(* ===== verification/PoolScan.v ===== *)
(** * The scan of the pool, and the collector at work

    The scan at the start removes exactly the files no blob row names.  Below it,
    the collector runs on a small database. *)
From S2P Require Import Prelude GoStrings AptPath Tables Invariant Snapshots GC Retention Scheduler Examples Collectors CollectorLaws CollectorRuns.
Local Open Scope Z_scope.

(** A file's name is a hash, it is in the directory of its hash, and no blob row
    has that hash. *)
Definition orphan_name (d : DB) (q n : string) : bool :=
  validHashLite n && (prefix_of n =? q)%string && negb (has_blob d n).

(** The file at [q/n], when there is one: directories are not files. *)
Definition file_at (t : Tree) (q n : string) : option string :=
  match node t q n with Some (Some f) => Some f | _ => None end.

Definition size_at (t : Tree) (e : string * string) : Z :=
  match file_at t e.1 e.2 with Some f => len f | None => 0 end.

Definition cleared (t : Tree) (gone : list (string * string)) : Tree :=
  fold_left (λ t e, unlink e.1 e.2 t) gone t.

Definition counted (c : scanResult) (t : Tree) (gone : list (string * string)) : scanResult :=
  {| sr_orphans := sr_orphans c + Z.of_nat (length gone); sr_bytes := sr_bytes c + foldr Z.add 0 (map (size_at t) gone);
     sr_unlinkErrors := sr_unlinkErrors c |}.

Lemma node_cleared t gone q n : node (cleared t gone) q n = if bool_decide ((q, n) ∈ gone) then None else node t q n.
Proof.
  revert t. induction gone as [|[a b] gone IH]; intros t; cbn [cleared fold_left].
  { rewrite bool_decide_false; [done|]. apply not_elem_of_nil. }
  change (node (cleared (unlink a b t) gone) q n = if bool_decide ((q, n) ∈ (a, b) :: gone) then None else node t q n).
  rewrite IH, node_unlink. repeat case_bool_decide; set_solver.
Qed.

Lemma cleared_app t g1 g2 : cleared t (g1 ++ g2) = cleared (cleared t g1) g2.
Proof. apply fold_left_app. Qed.

(** A directory stays one, and those nothing was removed from stay as they are. *)
Lemma unlink_other q n t q' : q' ≠ q → unlink q n t !! q' = t !! q'.
Proof. intros Hq. unfold unlink. destruct (t !! q) as [[d|]|]; [|done..]. by rewrite lookup_insert_ne. Qed.

Lemma cleared_other t gone q : q ∉ map fst gone → cleared t gone !! q = t !! q.
Proof.
  revert t. induction gone as [|[a b] gone IH]; intros t; [done|]. cbn. intros [Ha Hg]%not_elem_of_cons.
  change (cleared (unlink a b t) gone !! q = t !! q). rewrite IH by done. by apply unlink_other.
Qed.

Lemma size_cleared t gone e : e ∉ gone → size_at (cleared t gone) e = size_at t e.
Proof. intros He. unfold size_at, file_at. destruct e as [q n]. by rewrite node_cleared, bool_decide_false. Qed.

Lemma counted_app c t g1 g2 :
  (∀ e, e ∈ g2 → e ∉ g1) → counted c t (g1 ++ g2) = counted (counted c t g1) (cleared t g1) g2.
Proof.
  intros Hd. unfold counted. cbn. rewrite length_app, map_app, Nat2Z.inj_add.
  rewrite (map_ext_in (size_at (cleared t g1)) (size_at t)).
  2:{ intros e He. apply size_cleared, Hd. by apply list_elem_of_In. }
  rewrite foldr_app. f_equal; [lia|].
  generalize (map (size_at t) g2) as l. intros l. induction (map (size_at t) g1) as [|x m IH]; cbn; lia.
Qed.

Section calm.
Context `{Beside} `{TableScan} (cfg : Config) (now : Z) `{!Calm cfg now} (d : DB).

(** The database, and the tree. *)
Definition holding (t : Tree) (s : GState) : Prop := gs_db s = d ∧ gs_tree s = t.

Lemma moment_holding t s : holding t s → holding t (moment s).2.
Proof. intros [Hd Ht]. split; cbn; by rewrite (calm_beside (cfg := cfg) (now := now)). Qed.

Lemma scan_ended t s : holding t s → runs ended (λ b s', b = false ∧ holding t s') s.
Proof. intros Hs. split; [by apply (calm_running (cfg := cfg) (now := now))|by apply moment_holding]. Qed.

Lemma scan_query {A} (f : DB → result cache_error A) a t s :
  holding t s → f d = Ok a → runs (query f) (λ r s', r = Some a ∧ holding t s') s.
Proof.
  intros Hs Hf. unfold query, cache_call, runs. apply wp_bind, wp_bind. unfold wp at 1.
  assert (holding t (moment s).2) as Hs1 by by apply moment_holding.
  change (moment s) with (Value (gs_tick s), (moment s).2). cbn iota beta. set (s1 := (moment s).2) in *. clearbody s1.
  rewrite (calm_bugs (cfg := cfg) (now := now)). cbn [wp mret gc_ret].
  rewrite (calm_reads (cfg := cfg) (now := now)). apply wp_bind. cbn [wp get_state].
  pose proof Hs1 as [Hd1 _]. by rewrite Hd1, Hf.
Qed.

Lemma scan_job_runs q n f c t s :
  holding t s → node t q n = Some (Some f) →
  let gone := if orphan_name d q n then [(q, n)] else [] in
  runs (scan_job q n c) (λ r s', r = counted c t gone ∧ holding (cleared t gone) s') s.
Proof.
  intros Hs Hn. cbv zeta. unfold scan_job, orphan_name.
  assert (counted c t [] = c) as Hnil by (destruct c; unfold counted; cbn; f_equal; lia).
  eapply runs_bind; [by apply scan_ended|]. intros over s1 [-> Hs1].
  destruct (validHashLite n) eqn:Hv; cbn [negb andb]; [|by rewrite Hnil].
  destruct (prefix_of n =? q)%string; cbn [negb andb]; [|by rewrite Hnil].
  eapply runs_bind; [eapply scan_query; [done|unfold HashKnown; change (validBlobHash n) with (validHashLite n); by rewrite Hv]|].
  intros known s2 [-> Hs2]. fold (has_blob d n).
  change (bool_decide (is_Some (blob_t d !! n))) with (has_blob d n).
  destruct (has_blob d n); cbn [negb]; [by rewrite Hnil|].
  unfold os_stat. eapply (runs_bind _ _ (λ z s', z = len f ∧ holding t s')).
  { eapply (runs_bind _ _ (λ _, holding t)); [by apply moment_holding|]. intros k s3 Hs3.
    unfold runs. apply wp_bind. cbn [wp get_state]. rewrite (calm_stat (cfg := cfg) (now := now)).
    pose proof Hs3 as [_ ->]. by rewrite Hn. }
  intros z s3 [-> Hs3]. unfold os_remove. eapply (runs_bind _ _ (λ r s', r = Removed ∧ holding (unlink q n t) s')).
  { eapply (runs_bind _ _ (λ _, holding t)); [by apply moment_holding|]. intros k s4 [Hd4 Ht4].
    rewrite (calm_unlink (cfg := cfg) (now := now)). unfold runs. apply wp_bind. cbn [wp get_state]. rewrite Ht4, Hn.
    apply wp_bind. cbn. by split. }
  intros r s4 [-> Hs4]. cbn. split; [|done]. unfold counted, size_at, file_at. cbn. rewrite Hn. f_equal; lia.
Qed.

(** The files of a listing that go. *)
Definition gone_files (q : string) (files : list (string * bool)) : list (string * string) :=
  map (λ e, (q, e.1)) (List.filter (λ e : string * bool, negb e.2 && orphan_name d q e.1) files).

Lemma elem_of_gone_files q files q' n :
  (q', n) ∈ gone_files q files ↔ q' = q ∧ (n, false) ∈ files ∧ orphan_name d q n = true.
Proof.
  unfold gone_files. rewrite list_elem_of_In, in_map_iff. split.
  - intros ([n' b] & [= -> ->] & (Hin & Hb)%filter_In). cbn in Hb. apply andb_true_iff in Hb as [->%negb_true_iff Ho].
    split_and!; [done|by apply list_elem_of_In|done].
  - intros (-> & Hin & Ho). exists (n, false). split; [done|]. apply filter_In. split; [by apply list_elem_of_In|]. by cbn.
Qed.

Lemma scan_files_run q files c t s :
  NoDup (map fst files) → (∀ n, (n, false) ∈ files → is_Some (file_at t q n)) → holding t s →
  runs (scan_files q files c) (λ r s', r = (counted c t (gone_files q files), true) ∧
    holding (cleared t (gone_files q files)) s') s.
Proof.
  revert c t s. induction files as [|[n isDir] files IH]; intros c t s Hnd Hf Hs; cbn [scan_files].
  { unfold runs, wp. cbn. split; [|done]. destruct c; unfold counted; cbn. do 2 f_equal; lia. }
  apply NoDup_cons in Hnd as [Hn Hnd].
  destruct isDir; [apply IH; [done| |done]; intros m Hm; apply Hf; by right|].
  eapply runs_bind; [by apply scan_ended|]. intros over s1 [-> Hs1].
  destruct (Hf n) as [f Hfile]; [by left|]. unfold file_at in Hfile.
  destruct (node t q n) as [[f'|]|] eqn:Hnode; [|done..]. injection Hfile as ->.
  set (g1 := if orphan_name d q n then [(q, n)] else []).
  assert (gone_files q ((n, false) :: files) = g1 ++ gone_files q files) as ->
    by (unfold gone_files, g1; cbn; by destruct (orphan_name d q n)).
  eapply runs_bind. { unfold scanPoolFile. apply wp_recovered. eapply wp_mono; [by eapply scan_job_runs|exact (λ _ _ H, H)|done|done]. }
  intros c1 s2 [-> Hs2]. fold g1 in Hs2 |- *.
  assert (∀ e, e ∈ gone_files q files → e ∉ g1) as Hdis.
  { intros [q' m] (-> & Hm & _)%elem_of_gone_files Hg. apply Hn. unfold g1 in Hg.
    destruct (orphan_name d q n); [|by apply elem_of_nil in Hg]. apply list_elem_of_singleton in Hg as [= ->].
    apply list_elem_of_fmap. by exists (n, false). }
  rewrite counted_app, cleared_app by done. apply IH; [done| |done].
  intros m Hm. unfold file_at. rewrite node_cleared, bool_decide_false; [apply Hf; by right|].
  intros Hg. apply Hn. apply list_elem_of_fmap. exists (m, false). split; [|done]. unfold g1 in Hg.
  destruct (orphan_name d q n); [|by apply elem_of_nil in Hg]. by apply list_elem_of_singleton in Hg as [= ->].
Qed.

(** ** The listings *)

Definition listing (dir : Dir) : list (string * bool) :=
  map (λ e : string * option string, (e.1, bool_decide (e.2 = None))) (by_name dir).

Lemma by_name_spec {A} (m : gmap string A) k x : (k, x) ∈ by_name m ↔ m !! k = Some x.
Proof. unfold by_name. by rewrite elem_of_sort_by, elem_of_map_to_list. Qed.

Lemma by_name_keys {A} (m : gmap string A) : NoDup (map fst (by_name m)).
Proof. unfold by_name. rewrite (Permutation_map _ (sort_by_perm _ _)). apply NoDup_fst_map_to_list. Qed.

Lemma elem_of_listing dir n b : (n, b) ∈ listing dir ↔ ∃ x, dir !! n = Some x ∧ b = bool_decide (x = None).
Proof.
  unfold listing. rewrite list_elem_of_fmap. split.
  - intros ([n' x] & [= -> ->] & Hin). exists x. by rewrite <-by_name_spec.
  - intros (x & Hx & ->). exists (n, x). by rewrite by_name_spec.
Qed.

Lemma listing_keys dir : NoDup (map fst (listing dir)).
Proof. unfold listing. rewrite map_map. apply by_name_keys. Qed.

Definition gone_in (entries : list (string * option Dir)) : list (string * string) :=
  concat (map (λ e : string * option Dir, match e.2 with Some dir => gone_files e.1 (listing dir) | None => [] end) entries).

Lemma gone_in_keys entries q n : (q, n) ∈ gone_in entries → q ∈ map fst entries.
Proof.
  unfold gone_in. rewrite list_elem_of_In, in_concat. intros (l & (e & <- & He)%in_map_iff & Hin).
  destruct e as [q' [dir|]]; [|done]. apply list_elem_of_In, elem_of_gone_files in Hin as [-> _].
  apply list_elem_of_In, in_map_iff. by exists (q', Some dir).
Qed.

Lemma elem_of_gone_in t q n :
  (q, n) ∈ gone_in (by_name t) ↔ is_Some (file_at t q n) ∧ orphan_name d q n = true.
Proof.
  unfold gone_in, file_at, node. rewrite list_elem_of_In, in_concat. split.
  - intros (l & (e & <- & He)%in_map_iff & Hin). destruct e as [q' [dir|]]; [|done].
    apply list_elem_of_In, elem_of_gone_files in Hin as (-> & (x & Hx & Hb)%elem_of_listing & Ho).
    apply list_elem_of_In, by_name_spec in He.
    cbn [fst] in *. rewrite He, Hx. split; [|done]. destruct x; [by eexists|]. by rewrite bool_decide_true in Hb.
  - intros [[f Hf] Ho]. destruct (t !! q) as [[dir|]|] eqn:Hq; [|done..]. destruct (dir !! n) as [[f'|]|] eqn:Hn; [|done..].
    exists (gone_files q (listing dir)). split.
    + apply in_map_iff. exists (q, Some dir). split; [done|]. by apply list_elem_of_In, by_name_spec.
    + apply list_elem_of_In, elem_of_gone_files. split_and!; [done| |done]. apply elem_of_listing. by eexists.
Qed.

Lemma gone_files_nodup q files : NoDup (map fst files) → NoDup (gone_files q files).
Proof.
  intros Hnd. unfold gone_files. induction files as [|[n b] files IH]; [constructor|].
  apply NoDup_cons in Hnd as [Hn Hnd]. cbn. destruct (negb b && orphan_name d q n) eqn:Hb; [|by apply IH].
  cbn. constructor; [|by apply IH]. intros Hin. apply elem_of_gone_files in Hin as (_ & Hin & _).
  apply Hn. apply list_elem_of_fmap. by exists (n, false).
Qed.

Lemma gone_in_nodup entries : NoDup (map fst entries) → NoDup (gone_in entries).
Proof.
  induction entries as [|[q x] entries IH]; intros Hnd; [constructor|]. apply NoDup_cons in Hnd as [Hq Hnd].
  destruct x as [dir|]; [|by apply IH].
  change (NoDup (gone_files q (listing dir) ++ gone_in entries)). apply NoDup_app. split_and!.
  - apply gone_files_nodup, listing_keys.
  - intros [q' n] [-> _]%elem_of_gone_files Hin. apply Hq. by eapply gone_in_keys.
  - by apply IH.
Qed.

Lemma scan_prefixes_run entries c t s :
  NoDup (map fst entries) → (∀ q x, (q, x) ∈ entries → t !! q = Some x) → holding t s →
  runs (scan_prefixes (map (λ e : string * option Dir, (e.1, bool_decide (is_Some e.2))) entries) c)
    (λ r s', r = counted c t (gone_in entries) ∧ holding (cleared t (gone_in entries)) s') s.
Proof.
  revert c t s. induction entries as [|[q x] entries IH]; intros c t s Hnd He Hs; cbn [map scan_prefixes fst snd].
  { unfold runs, wp. cbn. split; [|done]. destruct c; unfold counted; cbn. f_equal; lia. }
  apply NoDup_cons in Hnd as [Hq Hnd]. eapply runs_bind; [by apply scan_ended|]. intros over s1 [-> Hs1].
  destruct x as [dir|]; cbn [negb]; [rewrite bool_decide_true by done|rewrite bool_decide_false by by intros []]; cbn [negb];
    [|apply IH; [done| |done]; intros q' x' Hx'; apply He; by right].
  assert (t !! q = Some (Some dir)) as Hdir by (apply He; by left).
  eapply (runs_bind _ _ (λ r s', r = Some (listing dir) ∧ holding t s')).
  { unfold list_prefix. eapply (runs_bind _ _ (λ _, holding t)); [by apply moment_holding|]. intros k s2 Hs2.
    unfold runs. apply wp_bind. cbn [wp get_state]. rewrite (calm_listing (cfg := cfg) (now := now)).
    pose proof Hs2 as [_ ->]. by rewrite Hdir. }
  intros r s2 [-> Hs2]. eapply runs_bind.
  { eapply scan_files_run; [apply listing_keys| |done]. intros n ([f|] & Hf & Hb)%elem_of_listing.
    - unfold file_at, node. rewrite Hdir, Hf. by eexists.
    - by rewrite bool_decide_true in Hb. }
  intros r s3 [-> Hs3]. set (g1 := gone_files q (listing dir)) in *. change (gone_in ((q, Some dir) :: entries)) with (g1 ++ gone_in entries).
  assert (∀ q' n, (q', n) ∈ g1 → q' = q) as Hg1 by by intros q' n [-> _]%elem_of_gone_files.
  rewrite counted_app, cleared_app.
  2:{ intros [q' n] Hin Hg. pose proof (Hg1 _ _ Hg) as ->. apply Hq. by eapply gone_in_keys. }
  apply IH; [done| |done]. intros q' x' Hx'. rewrite cleared_other; [apply He; by right|].
  intros ([a b] & -> & Hin)%list_elem_of_fmap. cbn in *. apply Hg1 in Hin as ->.
  apply Hq. apply list_elem_of_fmap. by exists (q, x').
Qed.

(** C20. The scan removes the files nobody owns.  Where nothing runs beside it and no
    operation fails, it leaves the database as it is and takes from the pool exactly
    the files named by a hash, in the directory of that hash, that no blob row names:
    files under other names, misplaced ones, directories and blobs' files stay.  Its
    counts are their number and their bytes. *)
Theorem runPoolScan_exact s :
  gs_db s = d →
  let t := gs_tree s in
  ∃ gone s', runPoolScan s = (Value (Some {| sr_orphans := Z.of_nat (length gone);
      sr_bytes := foldr Z.add 0 (map (size_at t) gone); sr_unlinkErrors := 0 |}), s') ∧ gs_db s' = d ∧ NoDup gone ∧
    (∀ q n, (q, n) ∈ gone ↔ is_Some (file_at t q n) ∧ orphan_name d q n = true) ∧
    ∀ q n, node (gs_tree s') q n = if bool_decide (is_Some (file_at t q n)) && orphan_name d q n then None else node t q n.
Proof.
  intros Hd t. assert (holding t s) as Hs by done.
  assert (runs runPoolScan (λ r s', r = Some (counted no_orphans t (gone_in (by_name t))) ∧
    holding (cleared t (gone_in (by_name t))) s') s) as Hr.
  { unfold runPoolScan. eapply (runs_bind _ _ (λ r s', r = Some (map (λ e : string * option Dir, (e.1, bool_decide (is_Some e.2))) (by_name t)) ∧ holding t s')).
    { unfold list_pool. eapply (runs_bind _ _ (λ _, holding t)); [by apply moment_holding|]. intros k s2 Hs2.
      unfold runs. apply wp_bind. cbn [wp get_state]. rewrite (calm_listing (cfg := cfg) (now := now)).
      pose proof Hs2 as [_ Ht]. by rewrite Ht. }
    intros r s2 [-> Hs2]. eapply runs_bind; [by apply scan_prefixes_run; [apply by_name_keys|intros q x; apply by_name_spec|]|].
    by intros c s3 [-> Hs3]. }
  unfold runs, wp in Hr. destruct (runPoolScan s) as [[r| |] s']; [|done|done]. destruct Hr as (-> & Hd' & Ht').
  assert (∀ q n, (q, n) ∈ gone_in (by_name t) ↔ is_Some (file_at t q n) ∧ orphan_name d q n = true) as Hgone
    by (intros q n; apply elem_of_gone_in).
  exists (gone_in (by_name t)), s'. split; [done|]. split_and!; [done|apply gone_in_nodup, by_name_keys|done|].
  intros q n. rewrite Ht', node_cleared.
  rewrite (bool_decide_ext _ _ (Hgone q n)), bool_decide_and. f_equal. by destruct (orphan_name d q n).
Qed.
End calm.

(** ** The collector at work

    A suite whose second adoption displaced the first one's snapshot; the pool has
    the files of the four blobs, a file no row names, a misplaced one and a stray
    name. *)
Module Demo.

Definition quiet : Beside := {|
  beside := λ _ w, w; monotonic_clock := λ _, 0; unix_now := λ _, 900000; shut_down := λ _, false;
  write_ends := λ _, Written; read_fails := λ _, false; listing_fails := λ _, false; stat_fails := λ _, false;
  unlink_fails := λ _, false; bug_strikes := λ _, false |}.

(** Every call of the cache panics, and every step takes a second. *)
Definition faulty : Beside := {|
  beside := λ _ w, w; monotonic_clock := λ n, Z.of_nat n * Second; unix_now := λ _, 900000; shut_down := λ _, false;
  write_ends := λ _, Written; read_fails := λ _, false; listing_fails := λ _, false; stat_fails := λ _, false;
  unlink_fails := λ _, false; bug_strikes := λ _, true |}.

Definition conf : Config := {|
  Enabled := true; Interval := 2 * 3600 * Second; BatchSize := 10; SnapshotBatchSize := 10; MaxTickDuration := 60 * Second;
  BlobGrace := 60 * Second; KeepDisplaced := 0; PoolScanWorkers := 4; HeartbeatStaleGrace := 60 * Second;
  URLPathTTL := 100 * Second; HoldWindow := 50 * Second; MaxVersionsPerPackage := 3 |}.

Definition hashE : string := Eval vm_compute in repeat_char 64 "e".
Definition file_of (h : string) : string := String.append "bytes of " (prefix_of h).
Definition dir_of (h : string) : option Dir := Some {[ h := Some (file_of h) ]}.

Definition pool : Tree :=
  {[ "aa" := Some (<["cafe" := Some "?"]> {[ hashA := Some (file_of hashA) ]}); "bb" := dir_of hashB; "cc" := dir_of hashC;
     "dd" := dir_of hashD; "ee" := dir_of hashE; "ff" := dir_of hashE; "stray" := None ]}.

Definition start : GState := {|
  gs_db := displaced; gs_tree := pool; gs_tick := 0; gs_nextPass := urlPathPass; gs_cursor := ("", "", "");
  gs_lastRun := None; gs_entered := [] |}.

(** The member and the anchor of the current snapshot. *)
Definition wanted (h : string) : Prop := h = hashB ∨ h = hashC.

#[export] Instance quiet_calm : @Calm quiet conf 900000.
Proof. by split. Qed.

Lemma start_served : served conf 900000 wanted (gs_db start).
Proof.
  change (gs_db start) with displaced. split; [exact wf_displaced|]. intros h Hh.
  assert (is_Some (suite_t displaced !! stable)) as [f Hf] by (vm_compute; by eexists).
  assert (sf_current <$> suite_t displaced !! stable = Some (Some 2)) as Hc by (by vm_compute).
  rewrite Hf in Hc. injection Hc as Hc. destruct Hh as [->| ->].
  - left. assert (m_blob <$> member_t displaced !! (2, "main/binary-amd64/Packages") = Some hashB) as Hm by (by vm_compute).
    destruct (member_t displaced !! (2, "main/binary-amd64/Packages")) as [m|] eqn:E; [|done]. injection Hm as Hm.
    exists stable, f, 2, "main/binary-amd64/Packages", m. exact (conj Hf (conj Hc (conj E Hm))).
  - right. left. assert (ss_inrelease <$> snap_t displaced !! 2 = Some (Some hashC)) as Hs by (by vm_compute).
    destruct (snap_t displaced !! 2) as [x|] eqn:E; [|done]. injection Hs as Hs. exists stable, f, 2, x. exact (conj Hf (conj Hc (conj E (or_introl Hs)))).
Qed.

Lemma start_stocked : stocked wanted file_of pool.
Proof. intros h [->| ->]; by vm_compute. Qed.

Definition timers : list wake := [TickDue; RetiredDue; TickDue].

Lemma collector_spares_needed_witness :
  let s' := (@collector quiet key_order_scan conf 50 timers start).2 in
  served conf 900000 wanted (gs_db s') ∧ pool_file (gs_tree s') hashB = Some (file_of hashB) ∧
  pool_file (gs_tree s') hashA = None ∧ pool_file (gs_tree s') hashE = None.
Proof.
  destruct (@collector_spares_needed quiet key_order_scan conf 50 900000 wanted file_of (λ _, Z.le_refl _)
    (λ n d t Hd Ht, conj Hd Ht) timers start start_served start_stocked) as [Hd Ht].
  split; [exact Hd|]. split; [apply Ht; by left|]. split; vm_compute; reflexivity.
Defined.

(** Every pass panics at its first call, and yet three ticks enter all three. *)
Lemma every_pass_gets_its_turn_witness :
  let tick := @after faulty key_order_scan conf 61 in
  gs_lastRun (tick (tick (tick start))) = None ∧ ∀ p, p ∈ gs_entered (tick (tick (tick start))).
Proof.
  cbv zeta. split; [vm_compute; reflexivity|].
  pose proof (@every_pass_gets_its_turn faulty key_order_scan conf (λ _ d _ Hd, Hd) (λ _, eq_refl) eq_refl eq_refl 60 61
    ltac:(lia) ltac:(intros m n Hmn; cbn; unfold Second; lia) start wf_displaced) as Hall.
  cbv zeta in Hall. destruct Hall as (_ & _ & _ & ps & Hps & Hp).
  { intros s Hs r Hr. assert (gs_lastRun s = None) as Hnone; [|by rewrite Hnone in Hr].
    apply elem_of_cons in Hs as [->|Hs]; [|apply elem_of_cons in Hs as [->|Hs]; [|apply list_elem_of_singleton in Hs as ->]];
      vm_compute; reflexivity. }
  intros p. cbv zeta. rewrite Hps. apply elem_of_app. right. apply Hp.
Defined.

Lemma tick_collects_witness :
  let s' := (@periodicTick quiet key_order_scan conf 50 start).2 in
  (size (blob_t (gs_db s')), snap_t (gs_db s') !! 1, pool_file (gs_tree s') hashA) = (2%nat, None, None) ∧
  no_blob_left conf 900000 (gs_db s').
Proof.
  destruct (@tick_collects quiet key_order_scan conf 900000 quiet_calm eq_refl eq_refl 50 start wf_displaced) as (_ & _ & Hco & _).
  - vm_compute. lia.
  - reflexivity.
  - split; [vm_compute; reflexivity|exact (co_blobs _ _ _ _ _ _ _ Hco)].
Defined.

Lemma runPoolScan_exact_witness :
  orphan_name displaced "ee" hashE = true ∧ orphan_name displaced "ff" hashE = false ∧
  let s' := (@runPoolScan quiet start).2 in
  node (gs_tree s') "ee" hashE = None ∧ node (gs_tree s') "ff" hashE = Some (Some (file_of hashE)) ∧
  node (gs_tree s') "aa" hashA = Some (Some (file_of hashA)).
Proof.
  split; [vm_compute; reflexivity|]. split; [vm_compute; reflexivity|].
  destruct (@runPoolScan_exact quiet conf 900000 quiet_calm displaced start eq_refl) as (gone & s' & Hrun & _ & _ & _ & Hnode).
  rewrite Hrun. cbn [snd]. rewrite !Hnode. split_and!; vm_compute; reflexivity.
Defined.

(** A fetch that finds the bytes of a collected blob still in the pool keeps that
    file and gives it a row again: between the transaction and the unlink of its
    batch, that leaves a row without a file. *)
Definition fetching : Beside := {|
  beside := λ _ w, if has_blob w.1 hashA then w else (run (PutBlob hashA 10 900000) w.1, w.2);
  monotonic_clock := λ _, 0; unix_now := λ _, 900000; shut_down := λ _, false;
  write_ends := λ _, Written; read_fails := λ _, false; listing_fails := λ _, false; stat_fails := λ _, false;
  unlink_fails := λ _, false; bug_strikes := λ _, false |}.

Example fetched_file_lost :
  let s' := (@periodicTick fetching key_order_scan conf 50 start).2 in
  has_blob (gs_db s') hashA = true ∧ pool_file (gs_tree start) hashA = Some (file_of hashA) ∧ pool_file (gs_tree s') hashA = None.
Proof. split_and!; vm_compute; reflexivity. Qed.
End Demo.
