(* ===== verification/LegacyAudit.v ===== *)
(** * The legacy trust audit (internal/freshness legacy_audit.go)

    Snapshots adopted by versions that could not tell what is inside a signature
    are queued; at a start, before anything serves, the audit proves of each that
    it is signed and that its members were declared inside the signature, or
    quarantines it.  It refuses the start when the pool does not look like the
    one the database is of, and leaves in the queue what it cannot read.

    Nothing runs beside it; any step may fail. *)
From S2P Require Import Prelude GoStrings AptPath ReleaseParse Tables Invariant Snapshots Suites GC Rows Check Collectors.
Local Open Scope Z_scope.

(** ** The queue (internal/cache legacy_audit.go) *)

Record LegacyAuditItem := {
  it_id : Z; it_suite : SuiteKey; it_form : string; it_anchor : option string; it_missing : bool }.

(** The row of the left join. *)
Definition audit_item (d : DB) (id : Z) : LegacyAuditItem :=
  match snap_t d !! id with
  | None => {| it_id := id; it_suite := ("", "", ""); it_form := ""; it_anchor := None; it_missing := true |}
  | Some s => {| it_id := id; it_suite := ss_suite s; it_form := ss_form s; it_anchor := ss_inrelease s; it_missing := false |}
  end.

Definition queue_after (d : DB) (afterID : Z) : list Z :=
  sort_by Z.leb (List.filter (λ id, afterID <? id) (elements (audit_t d))).

Definition LegacyAuditBatch (d : DB) (afterID limit : Z) : list LegacyAuditItem :=
  map (audit_item d) (sql_limit (if limit <=? 0 then -1 else limit) (queue_after d afterID)).

Definition LegacyAuditQueueNamesAnchor (d : DB) (h : string) : bool :=
  existsb (λ id, match snap_t d !! id with Some s => bool_decide (ss_inrelease s = Some h) | None => false end)
    (elements (audit_t d)).

Definition PinnedBlobsOutsideAuditQueue (d : DB) (limit : Z) : list string :=
  sql_limit limit (sort_by str_leb
    (map fst (List.filter (λ e : string * Blob, (0 <? b_refcount e.2) && negb (LegacyAuditQueueNamesAnchor d e.1))
                (map_to_list (blob_t d))))).

(** A cached InRelease or Release.gpg of a tracked suite. *)
Record TrackedAnchor := { ta_suite : SuiteKey; ta_path : string; ta_blob : string; ta_seen : Z }.

Definition tracked_anchor (k : SuiteKey) (r : URLKey * URLPath) : option TrackedAnchor :=
  let '(scheme, host, path) := r.1 in
  if (scheme =? key_scheme k)%string && (host =? key_host k)%string
     && ((path =? key_path k +:+ "/InRelease")%string || (path =? key_path k +:+ "/Release.gpg")%string)
  then h ← up_blob r.2;
       let seen := Z.max (default 0 (up_last_requested r.2)) (default 0 (up_last_fetched r.2)) in
       if 0 <? seen then Some {| ta_suite := k; ta_path := path; ta_blob := h; ta_seen := seen |} else None
  else None.

Definition ListTrackedSuiteAnchors `{TableScan} (d : DB) : list TrackedAnchor :=
  flat_map (λ k, omap (tracked_anchor k) (scan (url_t d))) (map fst (scan (suite_t d))).

(** ** What a stored InRelease proves *)

Record legacyVerdict := { lv_outcome : LegacyAuditOutcome; lv_reason : string; lv_dropAnchorRows : bool }.

Definition keep : legacyVerdict := {| lv_outcome := LegacyAuditKeep; lv_reason := ""; lv_dropAnchorRows := false |}.
Definition quarantine (reason : string) : legacyVerdict :=
  {| lv_outcome := LegacyAuditQuarantine; lv_reason := reason; lv_dropAnchorRows := false |}.
Definition signedOnly (reason : string) : legacyVerdict :=
  {| lv_outcome := LegacyAuditQuarantineSigned; lv_reason := reason; lv_dropAnchorRows := false |}.

Definition is_blank (c : ascii) : bool := existsb (Ascii.eqb c) [" "%char; "009"%char; "013"%char].

Definition clearsignCanonical (b : string) : string :=
  join (String "010" "") (map (trim_right is_blank) (split_byte "010" b)).

(** Path, SHA-256 and size: what a member is compared by. *)
Definition declaration (m : ReleaseMember) : string * string * Z := (Path m, SHA256 m, Size m).

Definition classifyLegacyInline (decode : string → option string) (blob : string) : legacyVerdict :=
  if negb (contains blob clearsignBegin) then quarantine "legacy_plaintext"
  else match inReleasePlaintext decode blob with
       | None => quarantine "malformed_envelope"
       | Some text =>
           match ParseRelease text with
           | Err _ => signedOnly "unparseable"
           | Ok signed =>
               match ParseRelease (clearsignCanonical blob) with
               | Err _ => signedOnly "unsigned_declarations"
               | Ok raw =>
                   if forallb (λ m, bool_decide (declaration m ∈ map declaration signed)) raw then keep
                   else signedOnly "unsigned_declarations"
               end
           end
       end.

(** ** The run *)

Definition legacyAuditAnchorCap : Z := Z.shiftl 8 20.
Definition legacyAuditBatchSize : Z := 100.
Definition legacyAuditPoolSample : Z := 16.

(** How each numbered step ends, and what the audit is given: SHA-256, the decoder
    of clear-signed text, and whether pool/ has an entry ([None]: it does not
    read). *)
Class Startup := {
  unix_now : nat → Z;
  write_ends : nat → write_end;
  read_fails : nat → bool;
  file_fails : nat → bool;
  remove_fails : nat → bool;
  audit_panics : nat → bool;
  pool_root : option bool;
  clearsign_decode : string → option string;
  sha256 : string → string }.

Record AState := { as_db : DB; as_pool : gmap string string; as_tick : nat }.

(** An error ends the run; [Spent] is the end of the fuel. *)
Inductive answer (A : Type) := Returned (a : A) | Refused | Spent.
Arguments Returned {A} _.
Arguments Refused {A}.
Arguments Spent {A}.

Definition au (A : Type) : Type := AState → answer A * AState.
#[export] Instance au_ret : MRet au := λ A a s, (Returned a, s).
#[export] Instance au_bind : MBind au := λ A B f m s,
  match m s with (Returned a, s) => f a s | (Refused, s) => (Refused, s) | (Spent, s) => (Spent, s) end.

Record LegacyAuditResult := {
  Audited : Z; Signed : Z; Quarantined : Z; Deferred : Z; AnchorMarkers : Z }.
Definition no_result : LegacyAuditResult :=
  {| Audited := 0; Signed := 0; Quarantined := 0; Deferred := 0; AnchorMarkers := 0 |}.

(** What reading at most [limit] bytes of a file answers; a longer one gives its
    head. *)
Inductive file_read := Content (b : string) | TooLarge (head : string) | NotExist | Fault.

Definition read_file (pool : gmap string string) (hash : string) (limit : Z) : file_read :=
  match pool !! hash with
  | None => NotExist
  | Some b => if limit <? len b then TooLarge (take_bytes (Z.to_nat limit) b) else Content b
  end.

Section audit.
Context `{Startup} `{TableScan}.

Definition step : au nat := λ s,
  (Returned (as_tick s), {| as_db := as_db s; as_pool := as_pool s; as_tick := S (as_tick s) |}).
Definition get_state : au AState := λ s, (Returned s, s).
Definition refuse {A} : au A := λ s, (Refused, s).
Definition spent {A} : au A := λ s, (Spent, s).
Definition set_db (d : DB) : au unit := λ s, (Returned tt, {| as_db := d; as_pool := as_pool s; as_tick := as_tick s |}).
Definition set_pool (p : gmap string string) : au unit := λ s,
  (Returned tt, {| as_db := as_db s; as_pool := p; as_tick := as_tick s |}).

(** A read of the database; [None] is an error. *)
Definition query {A} (f : DB → A) : au (option A) :=
  n ← step; s ← get_state; mret (if read_fails n then None else Some (f (as_db s))).

(** A read whose error is the run's. *)
Definition query_or_refuse {A} (f : DB → A) : au A :=
  r ← query f; match r with Some a => mret a | None => refuse end.

(** A transaction whose error is the run's. *)
Definition submit {A} (m : Z → T A) : au A :=
  n ← step;
  match write_ends n with
  | NotWritten => refuse
  | e =>
      s ← get_state;
      match atomically (m (unix_now n)) (as_db s) with
      | (Ok a, d) => _ ← set_db d; match e with Written => mret a | _ => refuse end
      | (Err _, _) => refuse
      end
  end.

Definition readCapped (hash : string) (limit : Z) : au file_read :=
  n ← step; s ← get_state;
  mret (if file_fails n then Fault else read_file (as_pool s) hash limit).

(** *** One snapshot *)

(** What the file of the anchor says; [None] is a fault. *)
Definition file_verdict (hash : string) (r : file_read) : option legacyVerdict :=
  match r with
  | NotExist => Some (quarantine "anchor_missing")
  | TooLarge _ => Some (quarantine "anchor_oversized")
  | Fault => None
  | Content blob =>
      Some (if negb (sha256 blob =? hash)%string
            then {| lv_outcome := LegacyAuditQuarantine; lv_reason := "anchor_corrupt"; lv_dropAnchorRows := true |}
            else classifyLegacyInline clearsign_decode blob)
  end.

Definition auditLegacySnapshot (it : LegacyAuditItem) : au (option legacyVerdict) :=
  if it_missing it then mret (Some {| lv_outcome := LegacyAuditDrop; lv_reason := ""; lv_dropAnchorRows := false |})
  else if (it_form it =? FormDetached)%string then mret (Some keep)
  else if (it_form it =? FormUnsigned)%string then mret (Some keep)
  else if negb (it_form it =? FormInline)%string then mret (Some (quarantine "unexpected_form"))
  else match it_anchor it with
       | None => mret (Some (quarantine "anchor_missing"))
       | Some h => r ← readCapped h legacyAuditAnchorCap; mret (file_verdict h r)
       end.

(** A panic defers the snapshot as a fault does. *)
Definition auditLegacySnapshotRecovered (it : LegacyAuditItem) : au (option legacyVerdict) :=
  n ← step; if audit_panics n then mret None else auditLegacySnapshot it.

(** *** A batch *)

(** The items decided and those deferred. *)
Fixpoint audit_items (items : list LegacyAuditItem) : au (list (LegacyAuditItem * legacyVerdict) * Z) :=
  match items with
  | [] => mret ([], 0)
  | it :: items =>
      v ← auditLegacySnapshotRecovered it;
      r ← audit_items items;
      let '(decided, deferred) := r in
      mret match v with Some v => ((it, v) :: decided, deferred) | None => (decided, deferred + 1) end
  end.

Definition decision_of (e : LegacyAuditItem * legacyVerdict) : LegacyAuditDecision :=
  {| la_id := it_id e.1; la_outcome := lv_outcome e.2; la_drop_rows := lv_dropAnchorRows e.2 |}.

(** The file of a corrupt anchor goes once no queued snapshot names it; a failure
    is only logged. *)
Definition discard_anchor (hash : string) : au unit :=
  queued ← query (λ d, LegacyAuditQueueNamesAnchor d hash);
  match queued with
  | Some false =>
      n ← step; s ← get_state;
      if remove_fails n then mret tt else set_pool (delete hash (as_pool s))
  | _ => mret tt
  end.

Definition quarantines (o : LegacyAuditOutcome) : bool :=
  match o with LegacyAuditQuarantine | LegacyAuditQuarantineSigned => true | _ => false end.

Definition counted (e : LegacyAuditItem * legacyVerdict) (res : LegacyAuditResult) : LegacyAuditResult :=
  {| Audited := Audited res + 1;
     Signed := Signed res + (if bool_decide (lv_outcome e.2 = LegacyAuditKeep) && negb (it_form e.1 =? FormUnsigned)%string
                             then 1 else 0);
     Quarantined := Quarantined res + (if quarantines (lv_outcome e.2) then 1 else 0);
     Deferred := Deferred res; AnchorMarkers := AnchorMarkers res |}.

(** After the commit. *)
Fixpoint committed (decided : list (LegacyAuditItem * legacyVerdict)) (res : LegacyAuditResult) : au LegacyAuditResult :=
  match decided with
  | [] => mret res
  | e :: decided =>
      _ ← (if quarantines (lv_outcome e.2) && lv_dropAnchorRows e.2
           then match it_anchor e.1 with Some h => discard_anchor h | None => mret tt end
           else mret tt);
      committed decided (counted e res)
  end.

Definition deferring (n : Z) (res : LegacyAuditResult) : LegacyAuditResult :=
  {| Audited := Audited res; Signed := Signed res; Quarantined := Quarantined res;
     Deferred := Deferred res + n; AnchorMarkers := AnchorMarkers res |}.

Fixpoint audit_loop (fuel : nat) (afterID : Z) (res : LegacyAuditResult) : au LegacyAuditResult :=
  match fuel with
  | O => spent
  | S fuel =>
      items ← query_or_refuse (λ d, LegacyAuditBatch d afterID legacyAuditBatchSize);
      match last items with
      | None => mret res
      | Some final =>
          r ← audit_items items;
          let '(decided, deferred) := r in
          let res := deferring deferred res in
          res ← (if (length decided =? 0)%nat then mret res
                 else _ ← submit (λ now, ApplyLegacyAuditDecisions now (map decision_of decided));
                      committed decided res);
          audit_loop fuel (it_id final) res
      end
  end.

(** *** Before it: does the pool look like this database's? *)

(** The anchor files of the queue, each once. *)
Definition queued_anchors (items : list LegacyAuditItem) : list string :=
  remove_dups (omap (λ it, if it_missing it || negb (it_form it =? FormInline)%string then None else it_anchor it) items).

Fixpoint anyPoolFileExists (hashes : list string) : au bool :=
  match hashes with
  | [] => mret false
  | h :: hashes =>
      n ← step; s ← get_state;
      if file_fails n || bool_decide (is_Some (as_pool s !! h)) then mret true else anyPoolFileExists hashes
  end.

Definition preflightLegacyAudit : au unit :=
  items ← query_or_refuse (λ d, LegacyAuditBatch d 0 0);
  let anchors := queued_anchors items in
  if (length anchors =? 0)%nat then mret tt
  else match pool_root with
       | None | Some false => refuse
       | Some true =>
           found ← anyPoolFileExists anchors;
           if found : bool then mret tt
           else
             others ← query_or_refuse (λ d, PinnedBlobsOutsideAuditQueue d legacyAuditPoolSample);
             if (2 <=? length anchors + length others)%nat
             then found ← anyPoolFileExists others; if found : bool then mret tt else refuse
             else mret tt
       end.

(** *** After it: the markers of cached signed anchors *)

Definition sniffCachedAnchor (path hash : string) : au (option bool) :=
  let sniffed (file : SuiteFile) :=
    r ← readCapped hash (HeadBytes file);
    mret match r with
         | Content head | TooLarge head => Some (Sniff file path head)
         | NotExist | Fault => None
         end in
  if has_suffix "/InRelease" path then sniffed FileInRelease
  else if has_suffix "/Release.gpg" path then sniffed FileReleaseGPG
  else mret (Some false).

Fixpoint signed_marks (anchors : list TrackedAnchor) : au (list (SuiteKey * Z)) :=
  match anchors with
  | [] => mret []
  | a :: anchors =>
      ok ← sniffCachedAnchor (ta_path a) (ta_blob a);
      marks ← signed_marks anchors;
      mret match ok with
           | Some true => (base_key (ta_suite a), ta_seen a) :: marks
           | _ => marks
           end
  end.

(** One transaction per 500 marks; each takes at least one, so that many rounds
    are enough. *)
Fixpoint mark_batches (fuel : nat) (marks : list (SuiteKey * Z)) : au unit :=
  match fuel, marks with
  | S fuel, _ :: _ =>
      let n := Nat.min (length marks) 500 in
      _ ← submit (λ _, mark_chunk (take n marks)); mark_batches fuel (drop n marks)
  | _, _ => mret tt
  end.

Definition markFromCachedSignedAnchors : au Z :=
  anchors ← query_or_refuse ListTrackedSuiteAnchors;
  marks ← signed_marks anchors;
  _ ← mark_batches (length marks) marks;
  mret (Z.of_nat (length marks)).

Definition RunLegacyTrustAudit (fuel : nat) : au LegacyAuditResult :=
  _ ← preflightLegacyAudit;
  res ← audit_loop fuel 0 no_result;
  n ← markFromCachedSignedAnchors;
  mret {| Audited := Audited res; Signed := Signed res; Quarantined := Quarantined res;
          Deferred := Deferred res; AnchorMarkers := n |}.
End audit.
