(* ===== verification/LegacyAuditLaws.v ===== *)
(** * What one batch of the audit does to the database

    [ApplyLegacyAuditDecisions] never fails on the decisions the audit makes, and
    its effect is that of the decisions one by one: [applied]. *)
From S2P Require Import Prelude GoStrings AptPath ReleaseParse Maps Tables Invariant Snapshots Suites GC Retention Rows Check Collectors LegacyAudit.
Local Open Scope Z_scope.

(** Outcomes that rest on a signed text. *)
Definition proves (o : LegacyAuditOutcome) : bool :=
  match o with LegacyAuditKeep | LegacyAuditQuarantineSigned => true | _ => false end.

Definition anchor_of (d : DB) (id : Z) : option string := s ← snap_t d !! id; ss_inrelease s.

Definition quarantined (ds : list LegacyAuditDecision) (id : Z) : bool :=
  existsb (λ x, (la_id x =? id) && quarantines (la_outcome x)) ds.

(** The row of a suite, once the pointers to the snapshots of [Q] are gone. *)
Definition pointed (Q : Z → bool) (f : SuiteFreshness) : SuiteFreshness :=
  match sf_current f with Some id => if Q id then unpoint f else f | None => f end.

Definition retired_from (s s' : SuiteSnapshot) : Prop :=
  (ss_retired s ≠ None ∧ s' = s) ∨ ∃ now, ss_retired s = None ∧ s' = set_retired now s.

(** Its cached row holds the anchor of a decision that drops such rows. *)
Definition dropped_row (ds : list LegacyAuditDecision) (d : DB) (u : URLPath) : bool :=
  existsb (λ x, la_drop_rows x && match anchor_of d (la_id x) with
                                  | Some h => negb (h =? "")%string && bool_decide (up_blob u = Some h)
                                  | None => false
                                  end) ds.

(** [d'] is [d] after the decisions. *)
Record applied (ds : list LegacyAuditDecision) (d d' : DB) : Prop := {
  ap_queue id : id ∈ audit_t d' ↔ id ∈ audit_t d ∧ id ∉ map la_id ds;
  ap_gone id : snap_t d !! id = None → snap_t d' !! id = None;
  ap_snap id s : snap_t d !! id = Some s → ∃ s', snap_t d' !! id = Some s' ∧
    if quarantined ds id then retired_from s s' else s' = s;
  ap_suite k : suite_t d' !! k = pointed (quarantined ds) <$> suite_t d !! k;
  ap_url k : url_t d' !! k = u ← url_t d !! k; if dropped_row ds d u then None else Some u;
  ap_members : member_t d' = member_t d ∧ skip_t d' = skip_t d ∧ pkg_t d' = pkg_t d;
  ap_seen b t : seen_t d' !! b = Some t → seen_t d !! b = Some t ∨
    ∃ x s, x ∈ ds ∧ proves (la_outcome x) = true ∧ snap_t d !! la_id x = Some s ∧
      ss_form s ≠ FormUnsigned ∧ base_key (ss_suite s) = b;
  ap_older b t : seen_t d !! b = Some t → ∃ t', seen_t d' !! b = Some t' ∧ t <= t';
  ap_marked x s : x ∈ ds → proves (la_outcome x) = true → snap_t d !! la_id x = Some s →
    ss_form s ≠ FormUnsigned → is_Some (suite_t d !! ss_suite s) → is_Some (seen_t d' !! base_key (ss_suite s)) }.

Lemma retired_from_fields s s' : retired_from s s' →
  ss_suite s' = ss_suite s ∧ ss_form s' = ss_form s ∧ ss_inrelease s' = ss_inrelease s ∧ ss_retired s' ≠ None.
Proof. intros [[Hr ->]|(now & Hr & ->)]; by split_and!. Qed.

Lemma retired_from_trans s1 s2 s3 : retired_from s1 s2 → retired_from s2 s3 → retired_from s1 s3.
Proof.
  intros H12 H23. destruct (retired_from_fields _ _ H12) as (_ & _ & _ & Hr).
  destruct H23 as [[_ ->]|(now & Hn & _)]; [done|congruence].
Qed.

Lemma applied_row ds d d' id s : applied ds d d' → snap_t d !! id = Some s → ∃ s', snap_t d' !! id = Some s' ∧
  ss_suite s' = ss_suite s ∧ ss_form s' = ss_form s ∧ ss_inrelease s' = ss_inrelease s.
Proof.
  intros Ha Hs. destruct (ap_snap _ _ _ Ha id s Hs) as (s' & Hs' & Hq). exists s'. split; [done|].
  destruct (quarantined ds id); [|by subst s']. destruct (retired_from_fields _ _ Hq) as (? & ? & ? & _). by split_and!.
Qed.

Lemma applied_anchor ds d d' id : applied ds d d' → anchor_of d' id = anchor_of d id.
Proof.
  intros Ha. unfold anchor_of. destruct (snap_t d !! id) as [s|] eqn:Hs.
  - destruct (applied_row _ _ _ _ _ Ha Hs) as (s' & -> & _ & _ & Hi). exact Hi.
  - by rewrite (ap_gone _ _ _ Ha id Hs).
Qed.

Lemma applied_suites ds d d' k : applied ds d d' → is_Some (suite_t d' !! k) ↔ is_Some (suite_t d !! k).
Proof. intros Ha. by rewrite (ap_suite _ _ _ Ha), fmap_is_Some. Qed.

Lemma quarantined_app ds1 ds2 id : quarantined (ds1 ++ ds2) id = quarantined ds1 id || quarantined ds2 id.
Proof. apply existsb_app. Qed.

Lemma dropped_row_app ds1 ds2 d u : dropped_row (ds1 ++ ds2) d u = dropped_row ds1 d u || dropped_row ds2 d u.
Proof. apply existsb_app. Qed.

Lemma applied_nil d : applied [] d d.
Proof.
  split; try done.
  - intros id. set_solver.
  - intros id s Hs. by exists s.
  - intros k. destruct (suite_t d !! k) as [f|]; [|done]. cbn. f_equal. unfold pointed. by destruct (sf_current f).
  - intros k. by destruct (url_t d !! k).
  - intros b t Hb. by left.
  - intros b t Hb. by exists t.
  - intros x s Hx. by apply elem_of_nil in Hx.
Qed.

(** Decisions, then others. *)
Lemma applied_app xs ds d d1 d2 : applied xs d d1 → applied ds d1 d2 → applied (xs ++ ds) d d2.
Proof.
  intros H1 H2. split.
  - intros id. rewrite (ap_queue _ _ _ H2), (ap_queue _ _ _ H1), map_app. set_solver.
  - intros id Hid. by apply (ap_gone _ _ _ H2), (ap_gone _ _ _ H1).
  - intros id s Hs. destruct (ap_snap _ _ _ H1 id s Hs) as (s1 & Hs1 & Hq1).
    destruct (ap_snap _ _ _ H2 id s1 Hs1) as (s2 & Hs2 & Hq2). exists s2. split; [done|]. rewrite quarantined_app.
    destruct (quarantined xs id), (quarantined ds id); cbn in *; subst; try done. by eapply retired_from_trans.
  - intros k. rewrite (ap_suite _ _ _ H2), (ap_suite _ _ _ H1). destruct (suite_t d !! k) as [f|]; [|done]. cbn. f_equal.
    unfold pointed. destruct (sf_current f) as [id|] eqn:Hc; [|by rewrite Hc]. rewrite (quarantined_app xs ds id).
    destruct (quarantined xs id); cbn; [done|]. by rewrite Hc.
  - intros k. rewrite (ap_url _ _ _ H2), (ap_url _ _ _ H1). destruct (url_t d !! k) as [u|]; [|done]. cbn [mbind option_bind].
    rewrite (dropped_row_app xs ds d u). destruct (dropped_row xs d u); cbn [orb mbind option_bind]; [done|].
    assert (dropped_row ds d1 u = dropped_row ds d u) as ->; [|done].
    unfold dropped_row. clear - H1. induction ds as [|y ds IH]; [done|]. cbn. by rewrite IH, (applied_anchor _ _ _ _ H1).
  - destruct (ap_members _ _ _ H1) as (? & ? & ?), (ap_members _ _ _ H2) as (? & ? & ?). by split_and!; etrans.
  - intros b t Hb. destruct (ap_seen _ _ _ H2 b t Hb) as [Hb1|(y & s1 & Hy & Hp & Hs1 & Hf & Hbk)].
    + destruct (ap_seen _ _ _ H1 b t Hb1) as [?|(y & s & Hy & Hrest)]; [by left|right]. exists y, s. split; [apply elem_of_app; by left|done].
    + right. destruct (snap_t d !! la_id y) as [s|] eqn:Hs; [|by rewrite (ap_gone _ _ _ H1 _ Hs) in Hs1].
      destruct (applied_row _ _ _ _ _ H1 Hs) as (s' & Hs' & Hsu & Hfo & _). rewrite Hs1 in Hs'. injection Hs' as <-.
      exists y, s. split_and!; [apply elem_of_app; by right|done|done|by rewrite <-Hfo|by rewrite <-Hsu].
  - intros b t Hb. destruct (ap_older _ _ _ H1 b t Hb) as (t1 & Hb1 & ?). destruct (ap_older _ _ _ H2 b t1 Hb1) as (t2 & Hb2 & ?).
    exists t2. split; [done|lia].
  - intros y s [Hy|Hy]%elem_of_app Hp Hs Hf Htr.
    + destruct (ap_marked _ _ _ H1 y s) as [t Ht]; [done..|].
      destruct (ap_older _ _ _ H2 _ _ Ht) as (t' & Ht' & _). by eexists.
    + destruct (applied_row _ _ _ _ _ H1 Hs) as (s' & Hs' & Hsu & Hfo & _). rewrite <-Hsu.
      apply (ap_marked _ _ _ H2 y s'); [done|done|done|by rewrite Hfo|]. rewrite Hsu. by apply (applied_suites _ _ _ _ H1).
Qed.

(** ** The transaction *)

Section transaction.
Context `{TableScan}.

(** Everything of a database but the blobs' counts. *)
Record same_but_blobs (d d' : DB) : Prop := {
  sb_audit : audit_t d' = audit_t d; sb_snap : snap_t d' = snap_t d; sb_suite : suite_t d' = suite_t d;
  sb_members : member_t d' = member_t d ∧ skip_t d' = skip_t d ∧ pkg_t d' = pkg_t d; sb_seen : seen_t d' = seen_t d }.

Lemma quarantine_run id now d :
  ∃ d', quarantineSnapshotTx id now d = Ok (is_current d id, d') ∧ audit_t d' = audit_t d ∧
    snap_t d' = update_where (λ i s, (i =? id) && bool_decide (ss_retired s = None)) (set_retired now) (snap_t d) ∧
    suite_t d' = update_where (λ _ f, bool_decide (sf_current f = Some id)) unpoint (suite_t d) ∧
    url_t d' = url_t d ∧ (member_t d' = member_t d ∧ skip_t d' = skip_t d ∧ pkg_t d' = pkg_t d) ∧ seen_t d' = seen_t d.
Proof.
  unfold quarantineSnapshotTx, decrementSnapshotRefcountsTx. destruct (is_current d id) eqn:Hc;
    (eexists; split; [unfold mbind, M_bind, mget, mmodify, mret, M_ret; cbn; by rewrite Hc|by split_and!]).
Qed.

Lemma delete_holders_run h now keys d :
  NoDup keys → (∀ k, k ∈ keys → ∃ u, url_t d !! k = Some u ∧ up_blob u = Some h) →
  ∃ d', mfor (λ k, deleteURLPathRowTx k (Some h) now) keys d = Ok (tt, d') ∧ same_but_blobs d d' ∧
    ∀ k, url_t d' !! k = if bool_decide (k ∈ keys) then None else url_t d !! k.
Proof.
  revert d. induction keys as [|k keys IH]; intros d Hnd Hrows; [by exists d|].
  apply NoDup_cons in Hnd as [Hk Hnd]. destruct (Hrows k) as (u & Hu & Hb); [by left|].
  destruct (delete_row_run k u now d Hu) as (d1 & Hrun1 & _ & Hurl1 & _).
  assert (same_but_blobs d d1) as [A1 A2 A3 A4 A5].
  { unfold deleteURLPathRowTx in Hrun1. minv. rewrite Hu in Hrun1. minv. rewrite Hb in Hrun1.
    destruct (h =? "")%string; unfold mmodify, mret, M_ret in Hrun1; injection Hrun1 as <-; by split. }
  rewrite Hb in Hrun1. destruct (IH d1 Hnd) as (d2 & Hrun2 & [B1 B2 B3 B4 B5] & Hurl2).
  { intros k' Hk'. destruct (Hrows k') as (u' & Hu' & Hb'); [by right|]. exists u'. split; [|done].
    rewrite Hurl1, bool_decide_false; [done|]. by intros ->. }
  exists d2. split; [cbn; unfold mbind, M_bind; by rewrite Hrun1|]. split.
  - split; [congruence..| |congruence]. destruct A4 as (? & ? & ?), B4 as (? & ? & ?). by split_and!; etrans.
  - intros k'. rewrite Hurl2, Hurl1. repeat case_bool_decide; set_solver.
Qed.

Lemma drop_rows_run id now d :
  ∃ n d', dropAnchorBlobRowsTx id now d = Ok (n, d') ∧ same_but_blobs d d' ∧
    ∀ k, url_t d' !! k = u ← url_t d !! k;
      if match anchor_of d id with Some h => negb (h =? "")%string && bool_decide (up_blob u = Some h) | None => false end
      then None else Some u.
Proof.
  unfold dropAnchorBlobRowsTx, anchor_of. unfold mbind at 1, M_bind at 1, mget.
  destruct (s ← snap_t d !! id; ss_inrelease s) as [h|] eqn:Ha.
  2:{ exists 0, d. split_and!; [done|by split|]. intros k. by destruct (url_t d !! k). }
  destruct (h =? "")%string eqn:Hh.
  { exists 0, d. split_and!; [done|by split|]. intros k. by destruct (url_t d !! k). }
  set (keys := map fst _).
  assert (∀ k, k ∈ keys ↔ ∃ u, url_t d !! k = Some u ∧ up_blob u = Some h) as Hkeys.
  { intros k. unfold keys. rewrite list_elem_of_In, in_map_iff. split.
    - intros ([k' u] & <- & (Hin & Hb)%filter_In). apply bool_decide_eq_true in Hb. exists u. split; [|done].
      apply elem_of_scan. by apply list_elem_of_In.
    - intros (u & Hu & Hb). exists (k, u). split; [done|]. apply filter_In. split; [|by apply bool_decide_eq_true].
      apply list_elem_of_In. by apply elem_of_scan. }
  destruct (delete_holders_run h now keys d) as (d' & Hrun & Hsame & Hurl).
  { unfold keys. apply NoDup_fst_scan_filter. }
  { intros k. by rewrite Hkeys. }
  exists (Z.of_nat (length keys)), d'. split; [unfold mbind, M_bind; by rewrite Hrun|]. split; [done|].
  intros k. rewrite Hurl. cbn [negb andb]. destruct (url_t d !! k) as [u|] eqn:Hu; cbn.
  - rewrite (bool_decide_ext _ (up_blob u = Some h)); [by destruct (bool_decide _)|]. rewrite Hkeys, Hu. naive_solver.
  - by case_bool_decide.
Qed.

Lemma mark_base_run id d :
  ∃ d', markSnapshotBaseTx id d = Ok (tt, d') ∧ audit_t d' = audit_t d ∧ snap_t d' = snap_t d ∧ suite_t d' = suite_t d ∧
    url_t d' = url_t d ∧ (member_t d' = member_t d ∧ skip_t d' = skip_t d ∧ pkg_t d' = pkg_t d) ∧
    (∀ b t, seen_t d' !! b = Some t → seen_t d !! b = Some t ∨
       ∃ s, snap_t d !! id = Some s ∧ ss_form s ≠ FormUnsigned ∧ base_key (ss_suite s) = b) ∧
    (∀ b t, seen_t d !! b = Some t → ∃ t', seen_t d' !! b = Some t' ∧ t <= t') ∧
    (∀ s, snap_t d !! id = Some s → ss_form s ≠ FormUnsigned → is_Some (suite_t d !! ss_suite s) →
       is_Some (seen_t d' !! base_key (ss_suite s))).
Proof.
  unfold markSnapshotBaseTx, mbind, M_bind, mget.
  assert (∀ b t, seen_t d !! b = Some t → ∃ t', seen_t d !! b = Some t' ∧ t <= t') as Hrefl by (intros b t Hb; by exists t).
  destruct (snap_t d !! id) as [s|] eqn:Hs; [|exists d; split_and!; try done; by left].
  destruct (negb (String.eqb (ss_form s) FormUnsigned)) eqn:Hf; cbn [andb].
  - apply negb_true_iff, String.eqb_neq in Hf. case_bool_decide as Htr.
    + eexists. split; [done|]. cbn. split_and!; try done.
      * intros b t Hb. destruct (decide (b = base_key (ss_suite s))) as [->|Hne]; [right; by exists s|left].
        by rewrite lookup_insert_ne in Hb by congruence.
      * intros b t Hb. destruct (decide (b = base_key (ss_suite s))) as [->|Hne].
        -- rewrite lookup_insert_eq, Hb. eexists. split; [done|lia].
        -- rewrite lookup_insert_ne by congruence. by exists t.
      * intros s' [= <-] _ _. rewrite lookup_insert_eq. by eexists.
    + exists d. split_and!; try done; [by left|]. by intros s' [= <-].
  - apply negb_false_iff, String.eqb_eq in Hf. exists d. split_and!; try done; [by left|]. by intros s' [= <-].
Qed.
(** Rows are dropped only with a quarantine. *)
Definition consistent (x : LegacyAuditDecision) : Prop := la_drop_rows x = true → quarantines (la_outcome x) = true.

(** The part of a decision before its snapshot leaves the queue. *)
Definition effect (x : LegacyAuditDecision) (d d' : DB) : Prop :=
  audit_t d' = audit_t d ∧ applied [x] (upd_audit (λ _, ∅) d) (upd_audit (λ _, ∅) d').

Lemma retired_update id now m (i : Z) s :
  m !! i = Some s → ∃ s', update_where (λ i s, (i =? id) && bool_decide (ss_retired s = None)) (set_retired now) m !! i = Some s' ∧
    if (id =? i) then retired_from s s' else s' = s.
Proof.
  intros Hs. rewrite lookup_update_where, Hs. cbn. eexists. split; [done|]. rewrite (Z.eqb_sym i id).
  destruct (id =? i); cbn; [|done]. case_bool_decide as Hr; [right; by exists now|by left].
Qed.

Lemma quarantined_one x id : quarantines (la_outcome x) = true → quarantined [x] id = (la_id x =? id).
Proof. intros Hq. unfold quarantined. cbn. by rewrite Hq, orb_false_r, andb_true_r. Qed.

Lemma quarantine_effect x now d :
  quarantines (la_outcome x) = true →
  ∃ d', (_ ← quarantineSnapshotTx (la_id x) now;
         _ ← (if la_drop_rows x then _ ← dropAnchorBlobRowsTx (la_id x) now; mret tt else mret tt);
         if bool_decide (la_outcome x = LegacyAuditQuarantineSigned) then markSnapshotBaseTx (la_id x) else mret tt) d
        = Ok (tt, d') ∧ effect x d d'.
Proof.
  intros Hq. destruct (quarantine_run (la_id x) now d) as (d1 & Hrun1 & Ea1 & Esn1 & Esu1 & Eu1 & Em1 & Ese1).
  assert (∃ d2, (if la_drop_rows x then _ ← dropAnchorBlobRowsTx (la_id x) now; mret tt else mret tt : T unit) d1 = Ok (tt, d2) ∧
    same_but_blobs d1 d2 ∧ ∀ k, url_t d2 !! k = u ← url_t d !! k; if dropped_row [x] d u then None else Some u)
    as (d2 & Hrun2 & [Ea2 Esn2 Esu2 Em2 Ese2] & Eu2).
  { assert (anchor_of d1 (la_id x) = anchor_of d (la_id x)) as Hanchor.
    { unfold anchor_of. rewrite Esn1, lookup_update_where. destruct (snap_t d !! la_id x); cbn; [|done]. by destruct (_ && _). }
    unfold dropped_row. cbn. destruct (la_drop_rows x); cbn.
    - destruct (drop_rows_run (la_id x) now d1) as (n & d2 & Hrun2 & Hsame & Hurl). exists d2.
      split; [unfold mbind, M_bind; by rewrite Hrun2|]. split; [done|]. intros k. rewrite Hurl, Eu1, Hanchor.
      destruct (url_t d !! k); cbn; [|done]. by rewrite orb_false_r.
    - exists d1. split; [done|]. split; [by split|]. intros k. rewrite Eu1. by destruct (url_t d !! k). }
  assert (∃ d3, (if bool_decide (la_outcome x = LegacyAuditQuarantineSigned) then markSnapshotBaseTx (la_id x) else mret tt : T unit) d2 = Ok (tt, d3) ∧
    audit_t d3 = audit_t d2 ∧ snap_t d3 = snap_t d2 ∧ suite_t d3 = suite_t d2 ∧ url_t d3 = url_t d2 ∧
    (member_t d3 = member_t d2 ∧ skip_t d3 = skip_t d2 ∧ pkg_t d3 = pkg_t d2) ∧
    (∀ b t, seen_t d3 !! b = Some t → seen_t d2 !! b = Some t ∨
       ∃ s, proves (la_outcome x) = true ∧ snap_t d2 !! la_id x = Some s ∧ ss_form s ≠ FormUnsigned ∧ base_key (ss_suite s) = b) ∧
    (∀ b t, seen_t d2 !! b = Some t → ∃ t', seen_t d3 !! b = Some t' ∧ t <= t') ∧
    (∀ s, proves (la_outcome x) = true → snap_t d2 !! la_id x = Some s → ss_form s ≠ FormUnsigned →
       is_Some (suite_t d2 !! ss_suite s) → is_Some (seen_t d3 !! base_key (ss_suite s))))
    as (d3 & Hrun3 & Ea3 & Esn3 & Esu3 & Eu3 & Em3 & Hnew & Hold & Hmark).
  { case_bool_decide as Ho.
    - destruct (mark_base_run (la_id x) d2) as (d3 & Hr & ? & ? & ? & ? & ? & Hnew & Hold & Hmark). exists d3. rewrite Ho.
      split_and!; [tauto..| |exact Hold|auto]. intros b t Hb. destruct (Hnew b t Hb) as [?|(s & ?)]; [by left|right; by exists s].
    - exists d2. split_and!; [done..|by left|intros b t Hb; by exists t|]. intros s Hp. destruct (la_outcome x); done. }
  exists d3. split; [unfold mbind, M_bind; rewrite Hrun1; cbn in Hrun2 |- *; unfold mbind, M_bind in Hrun2; by rewrite Hrun2|].
  split; [congruence|]. split; cbn [upd_audit audit_t snap_t suite_t url_t member_t skip_t pkg_t seen_t].
  - set_solver.
  - intros id Hid. by rewrite Esn3, Esn2, Esn1, lookup_update_where, Hid.
  - intros id s Hs. rewrite Esn3, Esn2, Esn1, quarantined_one by done. by apply retired_update.
  - intros k. rewrite Esu3, Esu2, Esu1, lookup_update_where. destruct (suite_t d !! k) as [f|]; cbn; [|done]. f_equal.
    unfold pointed. destruct (sf_current f) as [i|] eqn:Hc; [|by rewrite bool_decide_false by done].
    rewrite quarantined_one by done. rewrite (bool_decide_ext _ (la_id x = i)) by naive_solver.
    destruct (Z.eqb_spec (la_id x) i); [by rewrite bool_decide_true|by rewrite bool_decide_false].
  - intros k. by rewrite Eu3, Eu2.
  - destruct Em1 as (? & ? & ?), Em2 as (? & ? & ?), Em3 as (? & ? & ?). split_and!; congruence.
  - assert (∀ s, snap_t d2 !! la_id x = Some s → ∃ s0, snap_t d !! la_id x = Some s0 ∧ ss_form s = ss_form s0 ∧ ss_suite s = ss_suite s0) as Hback.
    { intros s. rewrite Esn2, Esn1, lookup_update_where_Some. intros (s0 & Hs0 & ->). exists s0. by destruct (_ && _). }
    intros b t Hb. destruct (Hnew b t Hb) as [Hb2|(s & Hp & Hs & Hf & Hbk)]; [left; congruence|right].
    destruct (Hback s Hs) as (s0 & Hs0 & Ef & Es). exists x, s0. rewrite <-Ef, <-Es. by split_and!; [left|..].
  - intros b t Hb. apply Hold. by rewrite Ese2, Ese1.
  - intros y s ->%list_elem_of_singleton Hp Hs Hf Htr. destruct (retired_update (la_id x) now (snap_t d) (la_id x) s Hs) as (s' & Hs' & Hq').
    rewrite Z.eqb_refl in Hq'. destruct (retired_from_fields _ _ Hq') as (Es & Ef & _). rewrite <-Es. apply Hmark; [done| | |].
    + by rewrite Esn2, Esn1.
    + by rewrite Ef.
    + by rewrite Es, Esu2, Esu1, lookup_update_where_is_Some.
Qed.
Lemma effect_applied x d d' : effect x d d' → applied [x] d (upd_audit (λ q, q ∖ {[la_id x]}) d').
Proof.
  intros [Ea [_ H2 H3 H4 H5 H6 H7 H8 H9]]. split; [|exact H2|exact H3|exact H4|exact H5|exact H6|exact H7|exact H8|exact H9].
  intros id. cbn. rewrite Ea. set_solver.
Qed.

(** An outcome without a quarantine touches no snapshot, suite or path. *)
Lemma gentle_effect x d d' :
  quarantines (la_outcome x) = false → la_drop_rows x = false →
  audit_t d' = audit_t d → snap_t d' = snap_t d → suite_t d' = suite_t d → url_t d' = url_t d →
  (member_t d' = member_t d ∧ skip_t d' = skip_t d ∧ pkg_t d' = pkg_t d) →
  (∀ b t, seen_t d' !! b = Some t → seen_t d !! b = Some t ∨
     ∃ s, proves (la_outcome x) = true ∧ snap_t d !! la_id x = Some s ∧ ss_form s ≠ FormUnsigned ∧ base_key (ss_suite s) = b) →
  (∀ b t, seen_t d !! b = Some t → ∃ t', seen_t d' !! b = Some t' ∧ t <= t') →
  (∀ s, proves (la_outcome x) = true → snap_t d !! la_id x = Some s → ss_form s ≠ FormUnsigned →
     is_Some (suite_t d !! ss_suite s) → is_Some (seen_t d' !! base_key (ss_suite s))) →
  effect x d d'.
Proof.
  intros Hq Hdr Ea Esn Esu Eu Em Hnew Hold Hmark. split; [done|].
  assert (∀ id, quarantined [x] id = false) as Hnq by (intros id; unfold quarantined; cbn; by rewrite Hq, andb_false_r).
  split; cbn [upd_audit audit_t snap_t suite_t url_t member_t skip_t pkg_t seen_t].
  - set_solver.
  - intros id Hid. by rewrite Esn.
  - intros id s Hs. exists s. by rewrite Esn, Hnq.
  - intros k. rewrite Esu. destruct (suite_t d !! k) as [f|]; [|done]. cbn. f_equal. unfold pointed.
    destruct (sf_current f) as [i|]; [|done]. by rewrite Hnq.
  - intros k. rewrite Eu. destruct (url_t d !! k) as [u|]; [|done]. cbn. by rewrite Hdr.
  - done.
  - intros b t Hb. destruct (Hnew b t Hb) as [?|(s & Hp & Hs & Hf & Hbk)]; [by left|right]. exists x, s. by split_and!; [left|..].
  - done.
  - intros y s ->%list_elem_of_singleton. auto.
Qed.

Lemma audit_decision_run x now d : consistent x → ∃ d', audit_decision now x d = Ok (tt, d') ∧ applied [x] d d'.
Proof.
  intros Hcon. unfold consistent in Hcon. unfold audit_decision.
  assert (massert (E := cache_error) (negb (la_drop_rows x) || (bool_decide (la_outcome x = LegacyAuditQuarantine)
    || bool_decide (la_outcome x = LegacyAuditQuarantineSigned))) ErrBadArgument d = Ok (tt, d)) as Hassert.
  { destruct (la_drop_rows x); [|done]. specialize (Hcon eq_refl). by destruct (la_outcome x). }
  unfold mbind at 1, M_bind at 1. rewrite Hassert.
  assert (∀ m : T unit, (∃ d1, m d = Ok (tt, d1) ∧ effect x d d1) →
    ∃ d', (_ ← m; mmodify (upd_audit (λ q, q ∖ {[la_id x]}))) d = Ok (tt, d') ∧ applied [x] d d') as Hend.
  { intros m (d1 & Hm & Hd1). eexists. split; [unfold mbind, M_bind; by rewrite Hm|]. by apply effect_applied. }
  destruct (la_outcome x) eqn:Ho; apply Hend.
  - destruct (mark_base_run (la_id x) d) as (d1 & Hr & ? & ? & ? & ? & ? & Hnew & Hold & Hmark). exists d1. split; [done|].
    apply gentle_effect; rewrite ?Ho; try done; [destruct (la_drop_rows x); [by specialize (Hcon eq_refl)|done]| |auto].
    intros b t Hb. destruct (Hnew b t Hb) as [?|(s & ?)]; [by left|right; by exists s].
  - exists d. split; [done|]. apply gentle_effect; rewrite ?Ho; try done; [destruct (la_drop_rows x); [by specialize (Hcon eq_refl)|done]|by left|].
    intros b t Hb. by exists t.
  - destruct (quarantine_effect x now d) as (d1 & Hr & He); [by rewrite Ho|]. rewrite Ho in Hr. by exists d1.
  - destruct (quarantine_effect x now d) as (d1 & Hr & He); [by rewrite Ho|]. rewrite Ho in Hr. by exists d1.
Qed.

Lemma ApplyLegacyAuditDecisions_run ds now d :
  Forall consistent ds → ∃ d', ApplyLegacyAuditDecisions now ds d = Ok (tt, d') ∧ applied ds d d'.
Proof.
  intros Hds. revert d. induction Hds as [|x ds Hx Hds IH]; intros d; [by exists d; split; [|apply applied_nil]|].
  destruct (audit_decision_run x now d Hx) as (d1 & Hr1 & H1). destruct (IH d1) as (d2 & Hr2 & H2).
  exists d2. split; [|by apply (applied_app [x] ds _ d1)]. unfold ApplyLegacyAuditDecisions in *. cbn. unfold mbind, M_bind. by rewrite Hr1.
Qed.
End transaction.
