(* ===== verification/LegacyAuditSafety.v ===== *)
(** * What the legacy trust audit guarantees

    Every queued snapshot is proved and kept, or quarantined on evidence, or left
    in the queue; a fault is never evidence.  The judgement is that of the pool as
    it was at the start, whatever the audit has removed from it meanwhile. *)
From S2P Require Import Prelude GoStrings AptPath ReleaseParse Maps Tables Invariant Snapshots Suites GC Retention Rows Check Collectors LegacyAudit LegacyAuditLaws.
Local Open Scope Z_scope.

(** ** The queue *)

Lemma elem_of_queue_after d a id : id ∈ queue_after d a ↔ id ∈ audit_t d ∧ a < id.
Proof.
  unfold queue_after. rewrite elem_of_sort_by, list_elem_of_In, filter_In, <-list_elem_of_In, elem_of_elements.
  by rewrite Z.ltb_lt.
Qed.

Lemma queue_after_nodup d a : NoDup (queue_after d a).
Proof.
  unfold queue_after. rewrite (sort_by_perm _ _). apply NoDup_ListNoDup, List.NoDup_filter, NoDup_ListNoDup, NoDup_elements.
Qed.

Lemma queue_after_sorted d a : StronglySorted Z.le (queue_after d a).
Proof.
  apply Sorted_StronglySorted; [intros ???; lia|]. unfold queue_after.
  assert (Sorted (λ x y, (x <=? y) = true) (sort_by Z.leb (List.filter (λ id, a <? id) (elements (audit_t d))))) as Hs
    by (apply sort_by_sorted; intros x y; rewrite !Z.leb_le; lia).
  induction Hs as [|x l _ IH Hx]; constructor; [done|]. destruct Hx; constructor. by apply Z.leb_le.
Qed.

(** The last of a batch: the queued ids after it are those the batch left. *)
Lemma batch_rest d a n final :
  last (take n (queue_after d a)) = Some final →
  a < final ∧ (∀ id, id ∈ take n (queue_after d a) → id <= final) ∧
  ∀ id, id ∈ audit_t d → a < id → id ∈ take n (queue_after d a) ∨ final < id.
Proof.
  intros (l & Hl)%last_Some. pose proof (queue_after_sorted d a) as Hs. pose proof (queue_after_nodup d a) as Hnd.
  rewrite <-(take_drop n (queue_after d a)), Hl in Hs, Hnd. apply NoDup_app in Hnd as (_ & Hdis & _).
  assert (final ∈ queue_after d a) as Hf.
  { rewrite <-(take_drop n (queue_after d a)), Hl, !elem_of_app, list_elem_of_singleton. by left; right. }
  split_and!.
  - by apply elem_of_queue_after in Hf as [_ Hf].
  - intros id. rewrite Hl. intros [Hid| ->%list_elem_of_singleton]%elem_of_app; [|lia].
    apply StronglySorted_app_1_l in Hs. by eapply (StronglySorted_app_1_elem_of _ l [final]); [exact Hs|exact Hid|apply list_elem_of_singleton].
  - intros id Hid Ha. assert (id ∈ queue_after d a) as Hin by by apply elem_of_queue_after.
    rewrite <-(take_drop n (queue_after d a)) in Hin. apply elem_of_app in Hin as [?|Hin]; [by left|right].
    assert (final <= id) by (eapply (StronglySorted_app_1_elem_of _ (l ++ [final])); [exact Hs| |exact Hin]; apply elem_of_app; right; by left).
    assert (id ≠ final); [|lia]. intros ->. eapply Hdis; [|exact Hin]. apply elem_of_app. right. by left.
Qed.

Lemma names_anchor d h : LegacyAuditQueueNamesAnchor d h = false → ∀ id, id ∈ audit_t d → anchor_of d id ≠ Some h.
Proof.
  unfold LegacyAuditQueueNamesAnchor. intros Hn id Hid Ha. apply not_true_iff_false in Hn. apply Hn.
  apply existsb_exists. exists id. split; [by apply list_elem_of_In, elem_of_elements|]. unfold anchor_of in Ha.
  destruct (snap_t d !! id); [|done]. by apply bool_decide_eq_true.
Qed.

Lemma names_anchor_true d h : LegacyAuditQueueNamesAnchor d h = true → ∃ id, id ∈ audit_t d ∧ anchor_of d id = Some h.
Proof.
  unfold LegacyAuditQueueNamesAnchor. intros (id & Hid & Ha)%existsb_exists. exists id.
  split; [by apply elem_of_elements, list_elem_of_In|]. unfold anchor_of. destruct (snap_t d !! id); [|done].
  by apply bool_decide_eq_true in Ha.
Qed.

(** ** Steps *)

Definition wp {A} (m : au A) (Q : A → AState → Prop) (R : AState → Prop) (s : AState) : Prop :=
  match m s with (Returned a, s') => Q a s' | (Refused, s') => R s' | (Spent, _) => False end.

Lemma aud_bind {A B} (m : au A) (f : A → au B) Q R s : wp m (λ a, wp (f a) Q R) R s → wp (m ≫= f) Q R s.
Proof. unfold wp, mbind, au_bind. by destruct (m s) as [[a| |] s']. Qed.

Lemma aud_mono {A} (m : au A) (Q Q' : A → AState → Prop) (R R' : AState → Prop) s :
  wp m Q R s → (∀ a s', Q a s' → Q' a s') → (∀ s', R s' → R' s') → wp m Q' R' s.
Proof. unfold wp. intros Hm HQ HR. destruct (m s) as [[a| |] s']; auto. Qed.

Lemma aud_ret {A} (a : A) (Q : A → AState → Prop) R s : Q a s → wp (mret a) Q R s.
Proof. done. Qed.

(** A later step on the same database and pool. *)
Definition alike (s s' : AState) : Prop := as_db s' = as_db s ∧ as_pool s' = as_pool s.

Lemma alike_trans s1 s2 s3 : alike s1 s2 → alike s2 s3 → alike s1 s3.
Proof. intros [??] [??]. split; congruence. Qed.

Section steps.
Context `{Startup} `{TableScan}.

(** No step fails. *)
Definition smooth : Prop := ∀ n, write_ends n = Written ∧ read_fails n = false ∧ file_fails n = false ∧
  remove_fails n = false ∧ audit_panics n = false.

Lemma aud_step Q R s : (∀ n s', alike s s' → Q n s') → wp step Q R s.
Proof. intros HQ. by apply HQ. Qed.

Lemma aud_query {A} (f : DB → A) Q R s :
  (∀ r s', alike s s' → (r = Some (f (as_db s)) ∨ r = None ∧ ¬ smooth) → Q r s') → wp (query f) Q R s.
Proof.
  intros HQ. unfold query. apply aud_bind, aud_step. intros n s' Hs'. unfold wp. cbn. apply HQ; [done|].
  destruct Hs' as [-> _]. destruct (read_fails n) eqn:Hf; [right|by left]. split; [done|]. intros Hc. destruct (Hc n) as (_ & ? & _). congruence.
Qed.

Lemma aud_query_or_refuse {A} (f : DB → A) Q R s :
  (∀ s', alike s s' → Q (f (as_db s)) s') → (∀ s', alike s s' → ¬ smooth → R s') → wp (query_or_refuse f) Q R s.
Proof.
  intros HQ HR. unfold query_or_refuse. apply aud_bind, aud_query. intros r s' Hs' [->|[-> Hc]]; [by apply HQ|by apply HR].
Qed.

(** A transaction that does not fail of itself; [done'] is the state after it. *)
Lemma aud_submit {A} (m : Z → T A) Q R s :
  (∀ s', alike s s' → ¬ smooth → R s') →
  (∀ now, ∃ a d', m now (as_db s) = Ok (a, d') ∧ ∀ s', as_db s' = d' → as_pool s' = as_pool s →
     Q a s' ∧ (¬ smooth → R s')) →
  wp (submit m) Q R s.
Proof.
  intros HR HQ. unfold submit. apply aud_bind, aud_step. intros n s1 Hs1.
  destruct (write_ends n) eqn:He.
  - apply HR; [done|]. intros Hc. destruct (Hc n) as (? & _). congruence.
  - apply aud_bind. unfold wp at 1. cbn [get_state]. destruct (HQ (unix_now n)) as (a & d' & Hm & HQ').
    destruct Hs1 as [-> Hp]. unfold atomically. rewrite Hm. apply aud_bind. unfold wp. cbn.
    apply HQ'; cbn; [done|exact Hp|]. intros Hc. destruct (Hc n) as (? & _). congruence.
  - apply aud_bind. unfold wp at 1. cbn [get_state]. destruct (HQ (unix_now n)) as (a & d' & Hm & HQ').
    destruct Hs1 as [-> Hp]. unfold atomically. rewrite Hm. apply aud_bind. unfold wp. cbn.
    apply HQ'; cbn; [done|exact Hp].
Qed.

Lemma aud_readCapped h limit Q R s :
  (∀ r s', alike s s' → (r = read_file (as_pool s) h limit ∨ r = Fault ∧ ¬ smooth) → Q r s') → wp (readCapped h limit) Q R s.
Proof.
  intros HQ. unfold readCapped. apply aud_bind, aud_step. intros n s' Hs'. unfold wp. cbn. apply HQ; [done|].
  destruct Hs' as [_ ->]. destruct (file_fails n) eqn:Hf; [right|by left]. split; [done|]. intros Hc. destruct (Hc n) as (_ & _ & ? & _). congruence.
Qed.
End steps.

(** ** The judgement *)

Section core.
Context `{Startup} `{TableScan} (d0 : DB) (p0 : gmap string string).

(** What the audit would say of an item if nothing failed and the pool were [p0]. *)
Definition judged (it : LegacyAuditItem) : legacyVerdict :=
  if it_missing it then {| lv_outcome := LegacyAuditDrop; lv_reason := ""; lv_dropAnchorRows := false |}
  else if (it_form it =? FormDetached)%string then keep
  else if (it_form it =? FormUnsigned)%string then keep
  else if negb (it_form it =? FormInline)%string then quarantine "unexpected_form"
  else match it_anchor it with
       | None => quarantine "anchor_missing"
       | Some h => default keep (file_verdict h (read_file p0 h legacyAuditAnchorCap))
       end.

Definition verdict (id : Z) : legacyVerdict := judged (audit_item d0 id).
Definition ruling (id : Z) : LegacyAuditDecision := decision_of (audit_item d0 id, verdict id).

(** A file whose bytes are not those of its name. *)
Definition rotten (h : string) : Prop := ∃ c, p0 !! h = Some c ∧ sha256 c ≠ h.

Lemma file_verdict_read h p limit : file_verdict h (read_file p h limit) ≠ None.
Proof. unfold read_file. destruct (p !! h) as [b|]; [|done]. by destruct (_ <? _). Qed.

Lemma ruling_id id : la_id (ruling id) = id.
Proof. unfold ruling, decision_of, audit_item. cbn. by destruct (snap_t d0 !! id). Qed.

Lemma ruling_ids ids : map la_id (map ruling ids) = ids.
Proof. induction ids as [|id ids IH]; [done|]. cbn [map]. by rewrite IH, ruling_id. Qed.

Lemma classify_keeps_rows decode b : lv_dropAnchorRows (classifyLegacyInline decode b) = false.
Proof.
  unfold classifyLegacyInline. destruct (negb _); [done|]. destruct (inReleasePlaintext _ _); [|done].
  destruct (ParseRelease s); [|done]. destruct (ParseRelease (clearsignCanonical b)); [|done]. by destruct (forallb _ _).
Qed.

(** Rows are dropped for a rotten anchor, in a quarantine. *)
Lemma verdict_drops id : lv_dropAnchorRows (verdict id) = true →
  quarantines (lv_outcome (verdict id)) = true ∧ ∃ h, anchor_of d0 id = Some h ∧ rotten h.
Proof.
  unfold verdict, judged, audit_item, anchor_of. destruct (snap_t d0 !! id) as [s|]; cbn; [|done].
  destruct (_ =? _)%string; [done|]. destruct (_ =? _)%string; [done|]. destruct (negb _); [done|].
  destruct (ss_inrelease s) as [h|]; [|done]. unfold read_file. destruct (p0 !! h) as [c|] eqn:Hc; [|done].
  destruct (_ <? _); [done|]. cbn. destruct (String.eqb_spec (sha256 c) h) as [|Hne]; cbn.
  - by rewrite classify_keeps_rows.
  - intros _. split; [done|]. exists h. split; [done|]. by exists c.
Qed.

Lemma rulings_consistent ids : Forall consistent (map ruling ids).
Proof. apply Forall_map, Forall_true. intros id. unfold consistent, ruling, decision_of. cbn. intros Hd. by apply verdict_drops. Qed.

Lemma quarantined_rulings ids id : quarantined (map ruling ids) id = bool_decide (id ∈ ids) && quarantines (lv_outcome (verdict id)).
Proof.
  induction ids as [|i ids IH]; [done|]. cbn [map]. change (ruling i :: map ruling ids) with ([ruling i] ++ map ruling ids).
  rewrite quarantined_app, IH. unfold quarantined. cbn [existsb]. rewrite ruling_id, orb_false_r.
  destruct (Z.eqb_spec i id) as [->|Hne].
  - rewrite (bool_decide_true (id ∈ id :: ids)) by by left. cbn.
    change (la_outcome (ruling id)) with (lv_outcome (verdict id)). by destruct (quarantines _), (bool_decide _).
  - cbn. rewrite (bool_decide_ext (id ∈ i :: ids) (id ∈ ids)); [done|]. set_solver.
Qed.

(** ** The invariant *)

(** A file named by a snapshot still queued, or by one that is no reason to remove
    it. *)
Definition awaited (ids : list Z) (h : string) : Prop :=
  ∃ id, id ∈ audit_t d0 ∧ anchor_of d0 id = Some h ∧ (id ∉ ids ∨ lv_dropAnchorRows (verdict id) = false).

(** The pool, after the ids were decided. *)
Record pool_after (ids : list Z) (p : gmap string string) : Prop := {
  pa_sub h c : p !! h = Some c → p0 !! h = Some c;
  pa_lost h : is_Some (p0 !! h) → p !! h = None → rotten h;
  pa_kept id h : id ∈ audit_t d0 → id ∉ ids → anchor_of d0 id = Some h → p !! h = p0 !! h;
  pa_gone id h : smooth → id ∈ ids → lv_dropAnchorRows (verdict id) = true → anchor_of d0 id = Some h →
    p !! h = None ∨ awaited ids h }.

(** The ids decided so far, and the state that leaves. *)
Record after (ids : list Z) (s : AState) : Prop := {
  af_ids id : id ∈ ids → id ∈ audit_t d0;
  af_nodup : NoDup ids;
  af_db : applied (map ruling ids) d0 (as_db s);
  af_wf : wf (as_db s);
  af_pool : pool_after ids (as_pool s) }.

Lemma after_alike ids s s' : alike s s' → after ids s → after ids s'.
Proof. intros [Hd Hp] []. split; [done|done|by rewrite Hd|by rewrite Hd|by rewrite Hp]. Qed.

Lemma after_queue ids s id : after ids s → id ∈ audit_t (as_db s) ↔ id ∈ audit_t d0 ∧ id ∉ ids.
Proof. intros Ha. by rewrite (ap_queue _ _ _ (af_db _ _ Ha)), ruling_ids. Qed.

(** A snapshot in the queue is as it was. *)
Lemma after_snap ids s id : after ids s → id ∉ ids → snap_t (as_db s) !! id = snap_t d0 !! id.
Proof.
  intros Ha Hid. destruct (snap_t d0 !! id) as [x|] eqn:Hx; [|by apply (ap_gone _ _ _ (af_db _ _ Ha))].
  destruct (ap_snap _ _ _ (af_db _ _ Ha) id x Hx) as (x' & Hx' & Hq).
  rewrite quarantined_rulings, bool_decide_false in Hq by done. cbn in Hq. by subst x'.
Qed.

Lemma after_item ids s id : after ids s → id ∈ audit_t (as_db s) → audit_item (as_db s) id = audit_item d0 id.
Proof. intros Ha Hid. apply (after_queue _ _ _ Ha) in Hid as [_ Hid]. unfold audit_item. by rewrite (after_snap _ _ _ Ha). Qed.

(** ** A batch *)

Lemma audit_one ids s id R :
  after ids s → id ∈ audit_t d0 → id ∉ ids →
  wp (auditLegacySnapshotRecovered (audit_item d0 id)) (λ v s', alike s s' ∧ (v = Some (verdict id) ∨ v = None ∧ ¬ smooth)) R s.
Proof.
  intros Ha Hid Hn. unfold auditLegacySnapshotRecovered. apply aud_bind, aud_step. intros n s1 Hs1.
  destruct (audit_panics n) eqn:Hp.
  { apply aud_ret. split; [done|]. right. split; [done|]. intros Hc. destruct (Hc n) as (_ & _ & _ & _ & ?). congruence. }
  unfold auditLegacySnapshot, verdict, judged.
  destruct (it_missing _); [apply aud_ret; by split; [|left]|]. destruct (_ =? FormDetached)%string; [apply aud_ret; by split; [|left]|].
  destruct (_ =? FormUnsigned)%string; [apply aud_ret; by split; [|left]|]. destruct (negb _); [apply aud_ret; by split; [|left]|].
  destruct (it_anchor (audit_item d0 id)) as [h|] eqn:Hh; [|apply aud_ret; by split; [|left]].
  apply aud_bind, aud_readCapped. intros r s2 Hs2 Hr. apply aud_ret. split; [by eapply alike_trans|].
  assert (as_pool s1 !! h = p0 !! h) as Hfile.
  { destruct Hs1 as [_ ->]. apply (pa_kept _ _ (af_pool _ _ Ha) id); [done|done|]. unfold anchor_of, audit_item in *.
    by destruct (snap_t d0 !! id). }
  destruct Hr as [->|[-> Hc]]; [left|by right]. unfold read_file. rewrite Hfile. f_equal.
  destruct (p0 !! h) as [b|]; [|done]. by destruct (_ <? _).
Qed.

(** The ids of a batch that were decided, in order. *)
Lemma audit_items_runs ids l s R :
  after ids s → (∀ id, id ∈ l → id ∈ audit_t d0 ∧ id ∉ ids) →
  wp (audit_items (map (audit_item d0) l)) (λ r s', alike s s' ∧ ∃ l', l' `sublist_of` l ∧
    r = (map (λ id, (audit_item d0 id, verdict id)) l', Z.of_nat (length l) - Z.of_nat (length l')) ∧ (smooth → l' = l)) R s.
Proof.
  revert s. induction l as [|id l IH]; intros s Ha Hl; cbn [map audit_items].
  { apply aud_ret. split; [done|]. exists []. by split_and!. }
  destruct (Hl id) as [Hid Hn]; [by left|]. apply aud_bind. eapply aud_mono; [by eapply audit_one|cbn beta|exact (λ _ H, H)].
  intros v s1 (Hs1 & Hv). apply aud_bind.
  eapply aud_mono; [apply IH; [by eapply after_alike|intros i Hi; apply Hl; by right]|cbn beta|exact (λ _ H, H)].
  intros r s2 (Hs2 & l' & Hsub & -> & Hall). apply aud_ret. split; [by eapply alike_trans|].
  destruct Hv as [->|[-> Hc]].
  - exists (id :: l'). split_and!; [by apply sublist_skip|cbn [length map]; f_equal; lia|intros Hsm; by rewrite Hall].
  - exists l'. split_and!; [by apply sublist_cons|cbn [length]; f_equal; lia|done].
Qed.

(** The rotten files of the ids in [todo] are still to go. *)
Definition committing (ids todo : list Z) (s : AState) : Prop :=
  (∀ id, id ∈ ids → id ∈ audit_t d0) ∧ NoDup ids ∧ applied (map ruling ids) d0 (as_db s) ∧ wf (as_db s) ∧
  (∀ h c, as_pool s !! h = Some c → p0 !! h = Some c) ∧
  (∀ h, is_Some (p0 !! h) → as_pool s !! h = None → rotten h) ∧
  (∀ id h, id ∈ audit_t d0 → id ∉ ids → anchor_of d0 id = Some h → as_pool s !! h = p0 !! h) ∧
  ∀ id h, smooth → id ∈ ids → lv_dropAnchorRows (verdict id) = true → anchor_of d0 id = Some h →
    (∃ id', id' ∈ todo ∧ lv_dropAnchorRows (verdict id') = true ∧ anchor_of d0 id' = Some h) ∨
    as_pool s !! h = None ∨ awaited ids h.

Lemma committing_alike ids todo s s' : alike s s' → committing ids todo s → committing ids todo s'.
Proof. intros [Hd Hp]. unfold committing. by rewrite Hd, Hp. Qed.

Lemma committing_done ids s : committing ids [] s → after ids s.
Proof.
  intros (H1 & H2 & H3 & H4 & H5 & H6 & H7 & H8). split; try done. split; try done.
  intros id h Hsm Hid Hv Ha. destruct (H8 id h Hsm Hid Hv Ha) as [(i & Hi & _)|?]; [|done]. by apply elem_of_nil in Hi.
Qed.

(** The other decision of a file's fate: nothing to do for it, or done. *)
Lemma committing_next ids id todo s :
  committing ids (id :: todo) s →
  (lv_dropAnchorRows (verdict id) = true → ∀ h, anchor_of d0 id = Some h → smooth →
     as_pool s !! h = None ∨ awaited ids h) →
  committing ids todo s.
Proof.
  intros (H1 & H2 & H3 & H4 & H5 & H6 & H7 & H8) Hnow. unfold committing. split_and!; try done.
  intros i h Hsm Hi Hv Ha. destruct (H8 i h Hsm Hi Hv Ha) as [(j & [->|Hj]%elem_of_cons & Hvj & Haj)|?]; [|left; by exists j|by right].
  right. by apply Hnow.
Qed.

Lemma discard_runs ids id todo h s R :
  committing ids (id :: todo) s → lv_dropAnchorRows (verdict id) = true → anchor_of d0 id = Some h →
  wp (discard_anchor h) (λ _ s', as_db s' = as_db s ∧ committing ids todo s') R s.
Proof.
  intros Hc Hv Ha. pose proof Hc as (H1 & H2 & H3 & H4 & H5 & H6 & H7 & H8). unfold discard_anchor. apply aud_bind, aud_query.
  assert (∀ i, anchor_of (as_db s) i = anchor_of d0 i) as Hanc by (intros i; by eapply applied_anchor).
  destruct (verdict_drops id Hv) as [_ (h' & Hh' & Hrot)]. rewrite Ha in Hh'. injection Hh' as <-.
  intros r s1 Hs1 Hr. destruct (LegacyAuditQueueNamesAnchor (as_db s) h) eqn:Hnames.
  - assert (committing ids todo s1) as Hgo.
    { eapply committing_alike; [done|]. eapply committing_next; [done|]. intros _ h' Hh' _. right.
      rewrite Ha in Hh'. injection Hh' as <-. apply names_anchor_true in Hnames as (i & Hi & Hai).
      exists i. rewrite Hanc in Hai. rewrite (ap_queue _ _ _ H3), ruling_ids in Hi. destruct Hi. split_and!; [done|done|by left]. }
    destruct Hr as [->|[-> _]]; apply aud_ret; split; try done; by destruct Hs1.
  - destruct Hr as [->|[-> Hns]].
    2:{ apply aud_ret. split; [by destruct Hs1|]. eapply committing_alike; [done|]. by eapply committing_next. }
    apply aud_bind, aud_step. intros n s2 Hs2. pose proof (alike_trans _ _ _ Hs1 Hs2) as Hs. apply aud_bind. unfold wp at 1. cbn [get_state].
    destruct (remove_fails n) eqn:Hrm.
    { apply aud_ret. split; [by destruct Hs|]. eapply committing_alike; [done|]. eapply committing_next; [done|].
      intros _ h' _ Hsm. destruct (Hsm n) as (_ & _ & _ & ? & _). congruence. }
    unfold wp. cbn. destruct Hs as [Hd Hp]. split; [by rewrite Hd|]. rewrite Hp.
    assert (∀ h', delete h (as_pool s) !! h' = if bool_decide (h' = h) then None else as_pool s !! h') as Hdel.
    { intros h'. case_bool_decide; [subst; by rewrite lookup_delete_eq|by rewrite lookup_delete_ne]. }
    unfold committing. cbn [as_db as_pool]. rewrite Hd. split_and!; try done.
    + intros h' c. rewrite Hdel. case_bool_decide; [done|]. apply H5.
    + intros h' Hin. rewrite Hdel. case_bool_decide; [by subst|]. by apply H6.
    + intros i h' Hi Hni Hai. rewrite Hdel, bool_decide_false; [by eapply H7|]. intros ->.
      apply (names_anchor _ _ Hnames i); [|by rewrite Hanc]. rewrite (ap_queue _ _ _ H3), ruling_ids. by split.
    + intros i h' Hsm Hi Hvi Hai. rewrite Hdel. case_bool_decide as Heq; [by right; left|].
      destruct (H8 i h' Hsm Hi Hvi Hai) as [(j & [->|Hj]%elem_of_cons & Hvj & Haj)|?]; [congruence|left; by exists j|by right].
Qed.

Lemma item_anchor d id : it_anchor (audit_item d id) = anchor_of d id.
Proof. unfold audit_item, anchor_of. by destruct (snap_t d !! id). Qed.

Definition quarantines_id (id : Z) : bool := quarantines (lv_outcome (verdict id)).

(** The counts of a result, for the ids decided. *)
Definition tallied (l : list Z) (res res' : LegacyAuditResult) : Prop :=
  Audited res' = Audited res + Z.of_nat (length l) ∧ Deferred res' = Deferred res ∧
  Quarantined res' = Quarantined res + Z.of_nat (length (List.filter quarantines_id l)).

Lemma committed_runs ids l res s R :
  committing ids l s →
  wp (committed (map (λ id, (audit_item d0 id, verdict id)) l) res)
    (λ res' s', as_db s' = as_db s ∧ after ids s' ∧ tallied l res res') R s.
Proof.
  revert res s. induction l as [|id l IH]; intros res s Hc; cbn [map committed].
  { apply aud_ret. split; [done|]. split; [by apply committing_done|]. unfold tallied. cbn. lia. }
  apply aud_bind. cbn [fst snd]. rewrite item_anchor.
  assert (wp (if quarantines (lv_outcome (verdict id)) && lv_dropAnchorRows (verdict id)
              then match anchor_of d0 id with Some h => discard_anchor h | None => mret tt end else mret tt)
    (λ _ s', as_db s' = as_db s ∧ committing ids l s') R s) as Hone.
  { destruct (lv_dropAnchorRows (verdict id)) eqn:Hv.
    - destruct (verdict_drops id Hv) as (-> & h & Ha & _). cbn. rewrite Ha. by eapply discard_runs.
    - rewrite andb_false_r. apply aud_ret. split; [done|]. eapply committing_next; [done|]. by rewrite Hv. }
  eapply aud_mono; [exact Hone|cbn beta|exact (λ _ H, H)]. intros _ s1 [Hd1 Hc1].
  eapply aud_mono; [by apply IH|cbn beta|exact (λ _ H, H)]. intros res' s2 (Hd2 & Ha2 & Hres). split; [by rewrite Hd2|]. split; [done|].
  unfold tallied, counted in *. cbn [Audited Deferred Quarantined length List.filter fst snd] in *. fold (quarantines_id id) in Hres.
  destruct (quarantines_id id); cbn [length] in *; lia.
Qed.

(** The commit of a batch. *)
Lemma commit_step ids l s s' :
  after ids s → NoDup l → (∀ id, id ∈ l → id ∈ audit_t d0 ∧ id ∉ ids) →
  applied (map ruling l) (as_db s) (as_db s') → wf (as_db s') → as_pool s' = as_pool s → committing (ids ++ l) l s'.
Proof.
  intros [H1 H2 H3 H4 [P1 P2 P3 P4]] Hnd Hl Happ Hwf Hp. unfold committing. rewrite Hp. split_and!.
  - intros id [?|Hid]%elem_of_app; [auto|by apply Hl].
  - apply NoDup_app. split_and!; [done| |done]. intros id Hid Hin. by destruct (Hl id Hin).
  - rewrite map_app. by eapply applied_app.
  - done.
  - done.
  - done.
  - intros id h Hid Hn. apply (P3 id h); [done|set_solver].
  - intros id h Hsm [Hid|Hid]%elem_of_app Hv Ha; [|left; by exists id].
    destruct (P4 id h Hsm Hid Hv Ha) as [?|(i & Hi & Hai & Hw)]; [by right; left|].
    destruct (lv_dropAnchorRows (verdict i)) eqn:Hvi; [|right; right; exists i; split_and!; [done|done|by right]].
    destruct Hw as [Hw|]; [|congruence]. destruct (decide (i ∈ l)) as [Hin|Hout]; [left; by exists i|].
    right. right. exists i. split_and!; [done|done|left]. set_solver.
Qed.

(** ** The loop *)

Definition counts (ids : list Z) (res : LegacyAuditResult) : Prop :=
  Audited res = Z.of_nat (length ids) ∧ Quarantined res = Z.of_nat (length (List.filter quarantines_id ids)) ∧
  (smooth → Deferred res = 0).

Lemma counts_tallied ids l res res' : counts ids res → tallied l res res' → counts (ids ++ l) res'.
Proof.
  unfold counts, tallied. rewrite List.filter_app, !length_app. intros (? & ? & Hd) (? & Hd' & ?).
  split_and!; [lia|lia|]. intros Hsm. rewrite Hd'. auto.
Qed.

Lemma queue_shrinks d d' a final :
  (∀ id, id ∈ audit_t d' → id ∈ audit_t d) → final ∈ queue_after d a → a < final →
  (length (queue_after d' final) < length (queue_after d a))%nat.
Proof.
  intros Hsub Hf Ha. assert (final :: queue_after d' final ⊆+ queue_after d a) as Hs.
  { apply NoDup_submseteq.
    - constructor; [|apply queue_after_nodup]. rewrite elem_of_queue_after. lia.
    - intros id [->|Hid]%elem_of_cons; [done|]. apply elem_of_queue_after in Hid as [Hid Hlt].
      apply elem_of_queue_after. split; [auto|lia]. }
  apply submseteq_length in Hs. cbn in Hs. lia.
Qed.

(** One round: the ids decided, and the state at the start of the next. *)
Lemma audit_round ids l res s R :
  after ids s → counts ids res → NoDup l → (∀ id, id ∈ l → id ∈ audit_t d0 ∧ id ∉ ids) →
  (∀ ids' s', after ids' s' → ¬ smooth → R s') →
  wp (r ← audit_items (map (audit_item d0) l);
      let '(decided, deferred) := r in
      let res := deferring deferred res in
      if (length decided =? 0)%nat then mret res
      else _ ← submit (λ now, ApplyLegacyAuditDecisions now (map decision_of decided)); committed decided res)
    (λ res' s', ∃ l', l' `sublist_of` l ∧ (smooth → l' = l) ∧ after (ids ++ l') s' ∧ counts (ids ++ l') res') R s.
Proof.
  intros Ha Hcnt Hnd Hl HR. apply aud_bind. eapply aud_mono; [by apply (audit_items_runs ids l s R)|cbn beta|done].
  intros r s1 (Hs1 & l' & Hsub & -> & Hall). pose proof (after_alike _ _ _ Hs1 Ha) as Ha1.
  set (res1 := deferring _ res). assert (counts ids res1) as Hcnt1.
  { destruct Hcnt as (? & ? & Hd). split_and!; [done|done|]. intros Hsm. cbn. rewrite (Hd Hsm), (Hall Hsm). lia. }
  rewrite length_map. destruct l' as [|id0 l0]; [apply aud_ret; exists []; by rewrite app_nil_r|]. cbn [length Nat.eqb].
  set (l' := id0 :: l0) in *. clearbody l'. assert (∀ id, id ∈ l' → id ∈ l) as Hin by (intros id Hid; eapply elem_of_submseteq; [exact Hid|by apply sublist_submseteq]).
  assert (map decision_of (map (λ id, (audit_item d0 id, verdict id)) l') = map ruling l') as Hdec by apply map_map.
  rewrite Hdec. apply aud_bind, aud_submit.
  { intros s2 Hs2 Hns. eapply HR; [by eapply after_alike|done]. }
  intros now. destruct (ApplyLegacyAuditDecisions_run (map ruling l') now (as_db s1) (rulings_consistent l')) as (d' & Hrun & Happ).
  exists tt, d'. split; [done|]. intros s2 Hd2 Hp2.
  assert (committing (ids ++ l') l' s2) as Hc.
  { apply (commit_step ids l' s1); [done|by eapply sublist_NoDup|auto|by rewrite Hd2| |done].
    rewrite Hd2. eapply (wf_ApplyLegacyAuditDecisions now); [apply Ha1|exact Hrun]. }
  split.
  - eapply aud_mono; [by apply (committed_runs (ids ++ l') l' res1 s2 R)|cbn beta|done]. intros res2 s3 (_ & Ha3 & Ht). exists l'.
    split_and!; [done|done|done|by eapply counts_tallied].
  - intros Hns. eapply (HR (ids ++ l')); [|done]. apply committing_done.
    destruct Hc as (C1 & C2 & C3 & C4 & C5 & C6 & C7 & C8). unfold committing. by split_and!.
Qed.

Lemma audit_loop_runs fuel a ids res s R :
  after ids s → counts ids res → (length (queue_after (as_db s) a) < fuel)%nat →
  (smooth → ∀ id, id ∈ audit_t (as_db s) → 0 < id → a < id) →
  (∀ ids' s', after ids' s' → ¬ smooth → R s') →
  wp (audit_loop fuel a res) (λ res' s', ∃ ids', after ids' s' ∧ counts ids' res' ∧ (smooth → ∀ id, id ∈ audit_t (as_db s') → id <= 0)) R s.
Proof.
  revert a ids res s. induction fuel as [|fuel IH]; intros a ids res s Ha Hcnt Hf Hord HR; [lia|]. cbn [audit_loop].
  apply aud_bind, aud_query_or_refuse.
  2:{ intros s1 Hs1 Hns. eapply HR; [by eapply after_alike|done]. }
  intros s1 Hs1. pose proof (after_alike _ _ _ Hs1 Ha) as Ha1.
  set (l := take 100 (queue_after (as_db s) a)).
  assert (LegacyAuditBatch (as_db s) a legacyAuditBatchSize = map (audit_item d0) l) as ->.
  { unfold LegacyAuditBatch. cbn [Z.leb]. change (legacyAuditBatchSize <=? 0) with false. cbn iota. rewrite sql_limit_nonneg by done.
    apply map_ext_in. intros id Hid. eapply after_item; [exact Ha|]. apply list_elem_of_In, elem_of_take in Hid as (i & Hi & _).
    eapply elem_of_queue_after, list_elem_of_lookup_2, Hi. }
  assert (last (map (audit_item d0) l) = audit_item d0 <$> last l) as -> by apply fmap_last.
  assert (∀ id, id ∈ l → id ∈ queue_after (as_db s) a) as Hlq.
  { intros id (i & Hi & _)%elem_of_take. by eapply list_elem_of_lookup_2. }
  destruct (last l) as [final|] eqn:Hlast; cbn [fmap option_fmap option_map].
  2:{ apply aud_ret. exists ids. split_and!; [done|done|]. intros Hsm id Hid. destruct Hs1 as [Hd1 _]. rewrite Hd1 in Hid.
      apply last_None in Hlast. destruct (Z.le_gt_cases id 0) as [|Hpos]; [done|]. pose proof (Hord Hsm id Hid Hpos) as Hlt.
      assert (id ∈ queue_after (as_db s) a) as Hin by by apply elem_of_queue_after.
      unfold l in Hlast. destruct (queue_after (as_db s) a); [by apply elem_of_nil in Hin|done]. }
  destruct (batch_rest _ _ _ _ Hlast) as (Hlt & Hle & Hrest).
  assert (∀ id, id ∈ l → id ∈ audit_t d0 ∧ id ∉ ids) as Hl.
  { intros id Hid%Hlq. apply elem_of_queue_after in Hid as [Hid _]. by apply (after_queue _ _ _ Ha) in Hid. }
  assert (NoDup l) as Hnd by (eapply sublist_NoDup; [apply queue_after_nodup|apply sublist_take]).
  pose proof (audit_round ids l res s1 R Ha1 Hcnt Hnd Hl HR) as Hround.
  assert (it_id (audit_item d0 final) = final) as Hfin by (unfold audit_item; by destruct (snap_t d0 !! final)).
  rewrite Hfin. apply aud_bind. unfold wp in Hround. unfold mbind, au_bind in Hround. unfold wp at 1.
  destruct (audit_items (map (audit_item d0) l) s1) as [[[decided deferred]| |] s2]; [|done|done].
  apply aud_bind. eapply aud_mono; [exact Hround|cbn beta|done].
  intros res' s3 (l' & Hsub & Hall & Ha3 & Hcnt3). apply (IH final (ids ++ l')); [done|done| | |done].
  - assert (length (queue_after (as_db s3) final) < length (queue_after (as_db s) a))%nat; [|lia].
    apply queue_shrinks; [|apply Hlq; apply last_Some in Hlast as (k & ->); set_solver|done].
    intros id. rewrite (after_queue _ _ _ Ha3), (after_queue _ _ _ Ha). set_solver.
  - intros Hsm id. rewrite (after_queue _ _ _ Ha3), (Hall Hsm). intros [Hid Hn] Hpos.
    assert (id ∈ audit_t (as_db s)) as Hq by (rewrite (after_queue _ _ _ Ha); set_solver).
    destruct (Hrest id Hq (Hord Hsm id Hq Hpos)) as [?|?]; [|done]. set_solver.
Qed.

(** ** What the judgement says *)

(** An anchor whose signed text declares every member that its bytes declare. *)
Definition signed_clean (h : string) : Prop :=
  ∃ blob text signed raw, p0 !! h = Some blob ∧ len blob <= legacyAuditAnchorCap ∧ sha256 blob = h ∧
    contains blob clearsignBegin = true ∧ clearsign_decode (DecodableClearsign blob) = Some text ∧ text ≠ "" ∧
    ParseRelease text = Ok signed ∧ ParseRelease (clearsignCanonical blob) = Ok raw ∧
    ∀ m, m ∈ raw → ∃ m', m' ∈ signed ∧ declaration m' = declaration m.

(** A snapshot that needs no proof, or has one. *)
Definition trusted (s : SuiteSnapshot) : Prop :=
  ss_form s = FormDetached ∨ ss_form s = FormUnsigned ∨
  ss_form s = FormInline ∧ ∃ h, ss_inrelease s = Some h ∧ signed_clean h.

Lemma plaintext_Some decode b text :
  inReleasePlaintext decode b = Some text ↔ contains b clearsignBegin = true ∧ decode (DecodableClearsign b) = Some text ∧ text ≠ "".
Proof.
  unfold inReleasePlaintext. destruct (contains b clearsignBegin); cbn [negb]; [|by split; [|intros [[=] _]]].
  destruct (decode _) as [x|]; cbn [mbind option_bind]; [|by split; [|intros (_ & [=] & _)]].
  destruct (String.eqb_spec x "") as [->|Hx]; split; [done|by intros (_ & [= <-] & ?)|by intros [= <-]|by intros (_ & [= <-] & _)].
Qed.

Lemma classify_keeps decode b : quarantines (lv_outcome (classifyLegacyInline decode b)) = false ↔
  ∃ text signed raw, inReleasePlaintext decode b = Some text ∧ ParseRelease text = Ok signed ∧
    ParseRelease (clearsignCanonical b) = Ok raw ∧ ∀ m, m ∈ raw → ∃ m', m' ∈ signed ∧ declaration m' = declaration m.
Proof.
  unfold classifyLegacyInline. destruct (contains b clearsignBegin) eqn:Hb; cbn [negb].
  2:{ split; [done|]. intros (text & ? & ? & Ht & _). apply plaintext_Some in Ht as [? _]. congruence. }
  destruct (inReleasePlaintext decode b) as [text|]; [|by split; [|intros (? & ? & ? & [=] & _)]].
  destruct (ParseRelease text) as [signed|] eqn:Hs; [|split; [done|intros (? & ? & ? & [= <-] & Hs' & _); congruence]].
  destruct (ParseRelease (clearsignCanonical b)) as [raw|] eqn:Hr; [|split; [done|intros (? & ? & ? & _ & _ & [=] & _)]].
  destruct (forallb _ raw) eqn:Hall; cbn.
  - split; [intros _|done]. exists text, signed, raw. split_and!; try done. intros m Hm.
    rewrite forallb_forall in Hall. specialize (Hall m (proj1 (list_elem_of_In _ _) Hm)). apply bool_decide_eq_true in Hall.
    apply list_elem_of_fmap in Hall as (m' & -> & Hm'). by exists m'.
  - split; [done|]. intros (text' & signed' & raw' & [= <-] & Hs' & [= <-] & Hm). rewrite Hs in Hs'. injection Hs' as <-. apply not_true_iff_false in Hall.
    destruct Hall. apply forallb_forall. intros m Hin. apply bool_decide_eq_true.
    destruct (Hm m) as (m' & Hm' & <-); [by apply list_elem_of_In|]. by apply list_elem_of_fmap_2.
Qed.

Lemma verdict_trusted id s : snap_t d0 !! id = Some s → quarantines_id id = false ↔ trusted s.
Proof.
  intros Hs. unfold quarantines_id, verdict, judged, audit_item, trusted. rewrite Hs. cbn.
  destruct (String.eqb_spec (ss_form s) FormDetached) as [->|H1]; [split; [by left|done]|].
  destruct (String.eqb_spec (ss_form s) FormUnsigned) as [->|H2]; [split; [by right; left|done]|].
  destruct (String.eqb_spec (ss_form s) FormInline) as [->|H3]; cbn [negb]; [|split; [done|tauto]].
  destruct (ss_inrelease s) as [h|]; [|split; [done|naive_solver]].
  split.
  - intros Hq. right. right. split; [done|]. exists h. split; [done|]. unfold read_file in Hq.
    destruct (p0 !! h) as [b|] eqn:Hb; [|done]. destruct (Z.ltb_spec legacyAuditAnchorCap (len b)); [done|]. cbn in Hq.
    destruct (String.eqb_spec (sha256 b) h) as [Hsha|]; [|done]. cbn in Hq.
    apply classify_keeps in Hq as (text & signed & raw & Ht & ? & ? & ?). apply plaintext_Some in Ht as (? & ? & ?).
    by exists b, text, signed, raw.
  - intros [?|[?|(_ & h' & [= <-] & b & text & signed & raw & Hb & Hlen & Hsha & Hc & Hd & Hne & Hrest)]]; [done|done|].
    unfold read_file. rewrite Hb, (proj2 (Z.ltb_ge _ _) Hlen). cbn. rewrite (proj2 (String.eqb_eq _ _) Hsha). cbn.
    apply classify_keeps. exists text, signed, raw. split; [by apply plaintext_Some|exact Hrest].
Qed.
End core.
