(* ===== verification/LegacyAuditRuns.v ===== *)
(** * The whole audit

    What it refuses, what it leaves, what it marks, and that it ends; below, the
    audit of a small queue. *)
From S2P Require Import Prelude GoStrings AptPath ReleaseParse Maps Tables Invariant Snapshots Suites GC Retention Rows Examples Check Collectors LegacyAudit LegacyAuditLaws LegacyAuditSafety.
Local Open Scope Z_scope.

Section whole.
Context `{Startup} `{TableScan}.

(** ** Before *)

(** The pool has an entry, and one of the files that tell, unless there is but one
    that could. *)
Definition looks_mounted (d : DB) (p : gmap string string) : Prop :=
  let anchors := queued_anchors (LegacyAuditBatch d 0 0) in
  let others := PinnedBlobsOutsideAuditQueue d legacyAuditPoolSample in
  anchors = [] ∨
  pool_root = Some true ∧
    ((∃ h, h ∈ anchors ++ others ∧ is_Some (p !! h)) ∨ (length anchors + length others < 2)%nat).

Lemma any_file_runs hashes s Q R :
  (∀ b s', alike s s' → (b = true → smooth → ∃ h, h ∈ hashes ∧ is_Some (as_pool s !! h)) →
     (b = false → ∀ h, h ∈ hashes → as_pool s !! h = None) → Q b s') → wp (anyPoolFileExists hashes) Q R s.
Proof.
  revert s. induction hashes as [|h hashes IH]; intros s HQ; cbn [anyPoolFileExists].
  { apply aud_ret, HQ; [done|done|]. intros _ h Hh. by apply elem_of_nil in Hh. }
  apply aud_bind, aud_step. intros n s1 Hs1. pose proof Hs1 as [_ Hp]. apply aud_bind. unfold wp at 1. cbn [get_state]. rewrite Hp.
  destruct (file_fails n) eqn:Hf; cbn [orb].
  { apply aud_ret, HQ; [done| |done]. intros _ Hsm. destruct (Hsm n) as (_ & _ & ? & _). congruence. }
  case_bool_decide as Hh.
  { apply aud_ret, HQ; [done| |done]. intros _ _. exists h. split; [by left|done]. }
  apply IH. intros b s2 Hs2 Ht Hn. rewrite Hp in Ht, Hn. apply HQ; [by eapply alike_trans|..].
  - intros Hb Hsm. destruct (Ht Hb Hsm) as (h' & Hh' & ?). exists h'. by split; [right|].
  - intros Hb h' [->|Hh']%elem_of_cons; [|by apply Hn]. by apply eq_None_not_Some.
Qed.

(** It refuses only a pool that does not look mounted, unless a read fails; and
    such a pool it refuses for certain. *)
Lemma preflight_runs s :
  wp preflightLegacyAudit
    (λ _ s', alike s s' ∧ (smooth → looks_mounted (as_db s) (as_pool s)))
    (λ s', alike s s' ∧ (smooth → ¬ looks_mounted (as_db s) (as_pool s))) s.
Proof.
  unfold preflightLegacyAudit. apply aud_bind, aud_query_or_refuse; [|done]. intros s1 Hs1. pose proof Hs1 as [Hd1 Hp1].
  set (anchors := queued_anchors _). unfold looks_mounted. fold anchors. cbv zeta.
  destruct anchors as [|a anchors'] eqn:Ean; [apply aud_ret; by split; [|left]|]. rewrite <-Ean. cbn [length Nat.eqb].
  assert (anchors ≠ []) as Hne by by rewrite Ean. replace (length anchors =? 0)%nat with false by by rewrite Ean. clear Ean a anchors'.
  destruct pool_root as [[]|] eqn:Hroot; [|by split; [|intros _ [?|[? _]]]..].
  apply aud_bind, any_file_runs. intros b s2 Hs2 Hyes Hno. rewrite Hp1 in Hyes, Hno. destruct b.
  { apply aud_ret. split; [by eapply alike_trans|]. intros Hsm. right. split; [done|left].
    destruct (Hyes eq_refl Hsm) as (h & Hh & Hin). exists h. split; [apply elem_of_app; by left|done]. }
  specialize (Hno eq_refl). pose proof (alike_trans _ _ _ Hs1 Hs2) as Hs. apply aud_bind, aud_query_or_refuse.
  2:{ intros s3 Hs3 Hns. split; [by eapply alike_trans|]. done. }
  intros s3 Hs3. pose proof (alike_trans _ _ _ Hs Hs3) as Hs'. pose proof Hs as [Hd2 _]. rewrite Hd2.
  set (others := PinnedBlobsOutsideAuditQueue _ _). destruct (Nat.leb_spec 2 (length anchors + length others)) as [Hlen|Hlen].
  2:{ apply aud_ret. split; [done|]. intros _. right. split; [done|by right]. }
  apply aud_bind, any_file_runs. pose proof Hs' as [_ ->]. intros b s4 Hs4 Hyes4 Hno4. destruct b.
  - apply aud_ret. split; [by eapply alike_trans|]. intros Hsm. right. split; [done|left].
    destruct (Hyes4 eq_refl Hsm) as (h & Hh & Hin). exists h. split; [apply elem_of_app; by right|done].
  - split; [by eapply alike_trans|]. intros _ [?|[_ [(h & Hh & Hin)|?]]]; [done| |lia].
    apply elem_of_app in Hh as [Hh|Hh]; [rewrite (Hno h Hh) in Hin|rewrite (Hno4 eq_refl h Hh) in Hin]; by destruct Hin.
Qed.

(** ** After *)

(** A tracked suite's cached anchor that passes its sniff. *)
Definition sniffs (p : gmap string string) (a : TrackedAnchor) : Prop :=
  ∃ file c, (file = FileInRelease ∧ has_suffix "/InRelease" (ta_path a) = true ∨
             file = FileReleaseGPG ∧ has_suffix "/Release.gpg" (ta_path a) = true) ∧
    p !! ta_blob a = Some c ∧ Sniff file (ta_path a) (if HeadBytes file <? len c then take_bytes (Z.to_nat (HeadBytes file)) c else c) = true.

Lemma sniff_runs a s Q R :
  (∀ r s', alike s s' → (r = Some true → sniffs (as_pool s) a) → Q r s') → wp (sniffCachedAnchor (ta_path a) (ta_blob a)) Q R s.
Proof.
  intros HQ. unfold sniffCachedAnchor.
  assert (∀ file, (file = FileInRelease ∧ has_suffix "/InRelease" (ta_path a) = true ∨
             file = FileReleaseGPG ∧ has_suffix "/Release.gpg" (ta_path a) = true) →
    wp (r ← readCapped (ta_blob a) (HeadBytes file);
        mret match r with
             | Content head | TooLarge head => Some (Sniff file (ta_path a) head)
             | NotExist | Fault => None
             end) Q R s) as Hone.
  { intros file Hfile. apply aud_bind, aud_readCapped. intros r s1 Hs1 Hr. apply aud_ret, HQ; [done|]. intros Hok.
    destruct Hr as [->|[-> _]]; [|done]. unfold read_file in Hok. destruct (as_pool s !! ta_blob a) as [c|] eqn:Hc; [|done].
    exists file, c. split; [done|]. split; [done|]. destruct (_ <? _); by injection Hok as Hok. }
  destruct (has_suffix "/InRelease" (ta_path a)); [apply Hone; by left|].
  destruct (has_suffix "/Release.gpg" (ta_path a)); [apply Hone; by right|]. by apply aud_ret, HQ.
Qed.

Lemma signed_marks_runs anchors s Q R :
  (∀ marks s', alike s s' → (∀ m, m ∈ marks → ∃ a, a ∈ anchors ∧ sniffs (as_pool s) a ∧ m = (base_key (ta_suite a), ta_seen a)) → Q marks s') →
  wp (signed_marks anchors) Q R s.
Proof.
  revert s Q. induction anchors as [|a anchors IH]; intros s Q HQ; cbn [signed_marks].
  { apply aud_ret, HQ; [done|]. intros m Hm. by apply elem_of_nil in Hm. }
  apply aud_bind, sniff_runs. intros r s1 Hs1 Hr. apply aud_bind, IH. intros marks s2 Hs2 Hm. apply aud_ret, HQ; [by eapply alike_trans|].
  pose proof Hs1 as [_ Hp]. rewrite Hp in Hm. intros m Hin.
  assert (m ∈ marks → ∃ a', a' ∈ a :: anchors ∧ sniffs (as_pool s) a' ∧ m = (base_key (ta_suite a'), ta_seen a')) as Hold.
  { intros Hi. destruct (Hm m Hi) as (a' & Ha' & ?). exists a'. by split; [right|]. }
  destruct r as [[]|]; [|by apply Hold..]. apply elem_of_cons in Hin as [->|Hin]; [|by apply Hold].
  exists a. split_and!; [by left|by apply Hr|done].
Qed.

(** The database with markers added or moved on. *)
Record marked (E : SuiteKey → Prop) (d d' : DB) : Prop := {
  mk_same : audit_t d' = audit_t d ∧ snap_t d' = snap_t d ∧ suite_t d' = suite_t d ∧ url_t d' = url_t d ∧
    member_t d' = member_t d ∧ skip_t d' = skip_t d ∧ pkg_t d' = pkg_t d;
  mk_new b t : seen_t d' !! b = Some t → seen_t d !! b = Some t ∨ E b;
  mk_older b t : seen_t d !! b = Some t → ∃ t', seen_t d' !! b = Some t' ∧ t <= t' }.

Lemma marked_refl E d : marked E d d.
Proof. split; [by split_and!|by left|]. intros b t Hb. by exists t. Qed.

Lemma marked_trans E d1 d2 d3 : marked E d1 d2 → marked E d2 d3 → marked E d1 d3.
Proof.
  intros [(?&?&?&?&?&?&?) N1 O1] [(?&?&?&?&?&?&?) N2 O2]. split; [split_and!; congruence|..].
  - intros b t Hb. destruct (N2 b t Hb) as [?|?]; [by apply N1|by right].
  - intros b t Hb. destruct (O1 b t Hb) as (t1 & Hb1 & ?). destruct (O2 b t1 Hb1) as (t2 & Hb2 & ?). exists t2. split; [done|lia].
Qed.

Lemma mark_chunk_run (E : SuiteKey → Prop) marks d :
  (∀ m, m ∈ marks → E m.1) → ∃ d', mark_chunk marks d = Ok (tt, d') ∧ marked E d d'.
Proof.
  revert d. induction marks as [|[b t] marks IH]; intros d HE; [exists d; split; [done|apply marked_refl]|].
  set (d1 := upd_seen (λ m, <[b := match m !! b with Some t' => Z.max t' t | None => t end]> m) d).
  destruct (IH d1) as (d' & Hrun & Hm). { intros m Hin. apply HE. by right. }
  exists d'. split; [exact Hrun|]. eapply marked_trans; [|exact Hm]. split; [by split_and!|..]; intros b' t' Hb; cbn in *.
  - destruct (decide (b' = b)) as [->|Hne]; [right; apply (HE (b, t)); by left|]. left. by rewrite lookup_insert_ne in Hb.
  - destruct (decide (b' = b)) as [->|Hne]; [rewrite lookup_insert_eq, Hb; eexists; split; [done|lia]|].
    rewrite lookup_insert_ne by done. by exists t'.
Qed.

Lemma mark_batches_runs E fuel marks s :
  (∀ m, m ∈ marks → E m.1) → wf (as_db s) →
  let end_ s' := as_pool s' = as_pool s ∧ wf (as_db s') ∧ marked E (as_db s) (as_db s') in
  wp (mark_batches fuel marks) (λ _, end_) (λ s', end_ s' ∧ ¬ smooth) s.
Proof.
  cbv zeta. revert marks s. induction fuel as [|fuel IH]; intros marks s HE Hwf.
  { split_and!; [done..|apply marked_refl]. }
  destruct marks as [|m marks]; [split_and!; [done..|apply marked_refl]|]. cbn [mark_batches]. set (l := m :: marks) in *.
  apply aud_bind, aud_submit.
  { intros s1 [Hd Hp] Hns. split; [|done]. rewrite Hd. split_and!; [done..|apply marked_refl]. }
  intros now. destruct (mark_chunk_run E (take (Nat.min (length l) 500) l) (as_db s)) as (d' & Hrun & Hm).
  { intros x Hx%elem_of_take. apply HE. destruct Hx as (i & Hi & _). by eapply list_elem_of_lookup_2. }
  exists tt, d'. split; [done|]. intros s1 Hd1 Hp1.
  assert (wf (as_db s1)) as Hwf1 by (rewrite Hd1; eapply wf_mark_chunk; [exact Hwf|exact Hrun]).
  rewrite <-Hd1 in Hm. split; [|by split].
  eapply aud_mono; [apply (IH (drop (Nat.min (length l) 500) l) s1)|..]; [|done|..].
  - intros x Hx. apply HE. by apply (elem_of_submseteq _ _ _ Hx), sublist_submseteq, sublist_drop.
  - intros _ s2 (Hp2 & Hwf2 & Hm2). split_and!; [congruence|done|by eapply marked_trans].
  - intros s2 [(Hp2 & Hwf2 & Hm2) Hns]. split; [|done]. split_and!; [congruence|done|by eapply marked_trans].
Qed.

(** ** What it leaves *)

Section settled.
Context (d0 : DB) (p0 : gmap string string).

(** Of a base of archives: it is signed.  A snapshot of it in the queue was
    verified detached, or its stored anchor has a signed text, or a tracked suite
    of it has a signed anchor in the cache. *)
Definition seen_signed (b : SuiteKey) : Prop :=
  (∃ id x, id ∈ audit_t d0 ∧ snap_t d0 !! id = Some x ∧ base_key (ss_suite x) = b ∧
     (ss_form x = FormDetached ∨
      ss_form x = FormInline ∧ ∃ h blob text, ss_inrelease x = Some h ∧ p0 !! h = Some blob ∧ sha256 blob = h ∧
        inReleasePlaintext clearsign_decode blob = Some text)) ∨
  ∃ a, a ∈ ListTrackedSuiteAnchors d0 ∧ sniffs p0 a ∧ base_key (ta_suite a) = b.

Record settled (d : DB) (p : gmap string string) : Prop := {
  se_wf : wf d;
  se_waiting id : id ∈ audit_t d → id ∈ audit_t d0 ∧ snap_t d !! id = snap_t d0 !! id;
  se_trusted id x : id ∈ audit_t d0 → id ∉ audit_t d → snap_t d0 !! id = Some x →
    trusted p0 x → snap_t d !! id = Some x;
  se_quarantined id x : id ∈ audit_t d0 → id ∉ audit_t d → snap_t d0 !! id = Some x →
    ¬ trusted p0 x → is_current d id = false ∧ ∃ x', snap_t d !! id = Some x' ∧ ss_retired x' ≠ None;
  se_others id : id ∉ audit_t d0 → snap_t d !! id = snap_t d0 !! id;
  se_suites k f : suite_t d0 !! k = Some f → suite_t d !! k = Some f ∨
    suite_t d !! k = Some (unpoint f) ∧ ∃ id x, sf_current f = Some id ∧ id ∈ audit_t d0 ∧ id ∉ audit_t d ∧
      snap_t d0 !! id = Some x ∧ ¬ trusted p0 x;
  se_members : member_t d = member_t d0 ∧ skip_t d = skip_t d0 ∧ pkg_t d = pkg_t d0;
  se_files h : p !! h = p0 !! h ∨ p !! h = None ∧ rotten p0 h;
  se_rows k : url_t d !! k = url_t d0 !! k ∨
    url_t d !! k = None ∧ ∃ u h, url_t d0 !! k = Some u ∧ up_blob u = Some h ∧ rotten p0 h;
  se_seen b t : seen_t d !! b = Some t → seen_t d0 !! b = Some t ∨ seen_signed b;
  se_older b t : seen_t d0 !! b = Some t → ∃ t', seen_t d !! b = Some t' ∧ t <= t' }.

Lemma untrusted id x : snap_t d0 !! id = Some x → quarantines_id d0 p0 id = true ↔ ¬ trusted p0 x.
Proof. intros Hx. rewrite <-(verdict_trusted d0 p0 id x Hx). by destruct (quarantines_id d0 p0 id). Qed.

(** An outcome that marks rests on a signed text. *)
Lemma verdict_proves id x : snap_t d0 !! id = Some x → ss_form x ≠ FormUnsigned → proves (lv_outcome (verdict d0 p0 id)) = true →
  ss_form x = FormDetached ∨
  ss_form x = FormInline ∧ ∃ h blob text, ss_inrelease x = Some h ∧ p0 !! h = Some blob ∧ sha256 blob = h ∧
    inReleasePlaintext clearsign_decode blob = Some text.
Proof.
  intros Hx Hf. unfold verdict, judged, audit_item. rewrite Hx. cbn.
  destruct (String.eqb_spec (ss_form x) FormDetached); [by left|].
  destruct (String.eqb_spec (ss_form x) FormUnsigned); [done|].
  destruct (String.eqb_spec (ss_form x) FormInline); cbn [negb]; [|done].
  destruct (ss_inrelease x) as [h|]; [|done]. unfold read_file. destruct (p0 !! h) as [blob|] eqn:Hb; [|done].
  destruct (_ <? _); [done|]. cbn. destruct (String.eqb_spec (sha256 blob) h); [|done]. cbn. unfold classifyLegacyInline.
  destruct (negb _); [done|]. destruct (inReleasePlaintext _ blob) as [text|] eqn:Ht; [|done].
  intros _. right. split; [done|]. by exists h, blob, text.
Qed.

Lemma dropped_row_rotten ids u : dropped_row (map (ruling d0 p0) ids) d0 u = true → ∃ h, up_blob u = Some h ∧ rotten p0 h.
Proof.
  unfold dropped_row. intros (x & (id & <- & _)%in_map_iff & Hx)%existsb_exists. apply andb_true_iff in Hx as [Hdr Hx].
  rewrite ruling_id in Hx. destruct (verdict_drops d0 p0 id Hdr) as [_ (h & Ha & Hrot)]. rewrite Ha in Hx.
  apply andb_true_iff in Hx as [_ Hb]. apply bool_decide_eq_true in Hb. by exists h.
Qed.

(** A tracked anchor after the rulings was one before them. *)
Lemma tracked_before ids s a : after d0 p0 ids s → a ∈ ListTrackedSuiteAnchors (as_db s) → a ∈ ListTrackedSuiteAnchors d0.
Proof.
  intros Ha. unfold ListTrackedSuiteAnchors. rewrite !list_elem_of_In, !in_flat_map.
  intros (k & Hk & Hin). exists k. split.
  - apply in_map_iff in Hk as ([k' f] & <- & Hf). apply list_elem_of_In, elem_of_scan in Hf. cbn.
    rewrite (ap_suite _ _ _ (af_db _ _ _ _ Ha)) in Hf. apply fmap_Some in Hf as (f0 & Hf0 & _).
    apply in_map_iff. exists (k', f0). split; [done|]. by apply list_elem_of_In, elem_of_scan.
  - apply list_elem_of_In, list_elem_of_omap in Hin as ([r u] & Hr & Ht). apply list_elem_of_In, list_elem_of_omap.
    exists (r, u). split; [|done]. apply elem_of_scan in Hr. apply elem_of_scan.
    rewrite (ap_url _ _ _ (af_db _ _ _ _ Ha)) in Hr. destruct (url_t d0 !! r) as [u0|]; [|done]. cbn in Hr.
    by destruct (dropped_row _ _ _).
Qed.

Lemma after_settled ids s1 d :
  after d0 p0 ids s1 → wf d → marked (λ b, ∃ a, a ∈ ListTrackedSuiteAnchors (as_db s1) ∧ sniffs (as_pool s1) a ∧ base_key (ta_suite a) = b) (as_db s1) d →
  settled d (as_pool s1).
Proof.
  intros Ha Hwf [(Ea & Esn & Esu & Eu & Em & Esk & Epk) Hnew Hold]. pose proof Ha as [Hids Hnd Hdb Hwf1 [P1 P2 P3 P4]].
  assert (∀ id, id ∈ audit_t d ↔ id ∈ audit_t d0 ∧ id ∉ ids) as Hq by (intros id; rewrite Ea; by apply (after_queue d0 p0)).
  assert (∀ id, id ∈ audit_t d0 → id ∉ audit_t d → id ∈ ids) as Hdone.
  { intros id Hi Hn. rewrite Hq in Hn. destruct (decide (id ∈ ids)); [done|]. by destruct Hn. }
  assert (∀ id x, snap_t d0 !! id = Some x → ∃ x', snap_t d !! id = Some x' ∧
    if bool_decide (id ∈ ids) && quarantines_id d0 p0 id then retired_from x x' else x' = x) as Hsnap.
  { intros id x Hx. destruct (ap_snap _ _ _ Hdb id x Hx) as (x' & Hx' & Hr). exists x'. rewrite Esn. split; [done|].
    by rewrite quarantined_rulings in Hr. }
  split.
  - done.
  - intros id Hid. apply Hq in Hid as [Hid Hn]. split; [done|]. rewrite Esn. by apply (after_snap d0 p0 ids).
  - intros id x Hi Hn Hx Ht. destruct (Hsnap id x Hx) as (x' & Hx' & Hr). rewrite (proj2 (verdict_trusted d0 p0 id x Hx) Ht), andb_false_r in Hr.
    by subst x'.
  - intros id x Hi Hn Hx Ht. apply (untrusted id x Hx) in Ht. pose proof (Hdone id Hi Hn) as Hin. split.
    + apply is_current_false. intros k f. rewrite Esu, (ap_suite _ _ _ Hdb), fmap_Some. intros (f0 & _ & ->) Hc.
      unfold pointed in Hc. destruct (sf_current f0) as [i|] eqn:Hc0; [|congruence].
      rewrite quarantined_rulings in Hc. destruct (bool_decide (i ∈ ids) && _) eqn:Hb; [done|].
      rewrite Hc0 in Hc. injection Hc as ->. rewrite bool_decide_true in Hb by done. unfold quarantines_id in Ht. rewrite Ht in Hb. done.
    + destruct (Hsnap id x Hx) as (x' & Hx' & Hr). rewrite bool_decide_true, Ht in Hr by done. cbn in Hr. exists x'. split; [done|].
      by apply retired_from_fields in Hr as (_ & _ & _ & ?).
  - intros id Hi. rewrite Esn. apply (after_snap d0 p0 ids); [done|]. intros Hin. by apply Hi, Hids.
  - intros k f Hf. rewrite Esu, (ap_suite _ _ _ Hdb), Hf. cbn. unfold pointed. destruct (sf_current f) as [id|] eqn:Hc; [|by left].
    rewrite quarantined_rulings. destruct (bool_decide (id ∈ ids) && _) eqn:Hb; [|by left]. right. split; [done|].
    apply andb_true_iff in Hb as [Hin%bool_decide_eq_true Hquar].
    destruct (snap_t d0 !! id) as [x|] eqn:Hx.
    + exists id, x. split_and!; [done|by apply Hids|rewrite Hq; by intros [_ ?]|done|]. by apply (untrusted id x Hx).
    + unfold verdict, judged, audit_item in Hquar. by rewrite Hx in Hquar.
  - destruct (ap_members _ _ _ Hdb) as (? & ? & ?). split_and!; congruence.
  - intros h. destruct (as_pool s1 !! h) as [c|] eqn:Hc; [left; symmetry; by apply P1|].
    destruct (p0 !! h) as [c|] eqn:Hc0; [right; split; [done|apply P2; [by eexists|done]]|by left].
  - intros k. rewrite Eu, (ap_url _ _ _ Hdb). destruct (url_t d0 !! k) as [u|] eqn:Hu; [|by left]. cbn [mbind option_bind].
    destruct (dropped_row _ d0 u) eqn:Hdr; [right|by left]. split; [done|]. destruct (dropped_row_rotten ids u Hdr) as (h & ? & ?). by exists u, h.
  - intros b t Hb. destruct (Hnew b t Hb) as [Hb1|(a & Hin & Hsn & Hk)].
    + destruct (ap_seen _ _ _ Hdb b t Hb1) as [?|(y & x & Hy & Hp & Hx & Hf & Hk)]; [by left|right; left].
      apply list_elem_of_fmap in Hy as (id & -> & Hid). rewrite ruling_id in Hx. exists id, x. split_and!; [by apply Hids|done|done|].
      by apply (verdict_proves id).
    + right. right. exists a. split_and!; [by eapply tracked_before| |done].
      destruct Hsn as (file & c & Hfile & Hc & Hs). exists file, c. split_and!; [done|by apply P1|done].
  - intros b t Hb. destruct (ap_older _ _ _ Hdb b t Hb) as (t1 & Hb1 & ?). destruct (Hold b t1 Hb1) as (t2 & Hb2 & ?). exists t2. split; [done|lia].
Qed.
End settled.

(** ** The run *)

Lemma after_start d p s : wf d → as_db s = d → as_pool s = p → after d p [] s.
Proof.
  intros Hwf <- <-. split; [intros id Hid; by apply elem_of_nil in Hid|constructor|apply applied_nil|done|]. split; try done.
  - intros h [c Hc] Hn. congruence.
  - intros id h _ Hid. by apply elem_of_nil in Hid.
Qed.

Definition finished (d p : _) (ids : list Z) (s : AState) : Prop :=
  ∃ s1, after d p ids s1 ∧ as_pool s = as_pool s1 ∧ wf (as_db s) ∧
    marked (λ b, ∃ a, a ∈ ListTrackedSuiteAnchors (as_db s1) ∧ sniffs (as_pool s1) a ∧ base_key (ta_suite a) = b) (as_db s1) (as_db s).

Lemma after_finished d p ids s : after d p ids s → finished d p ids s.
Proof. intros Ha. exists s. split_and!; [done|done|apply Ha|apply marked_refl]. Qed.

Lemma finished_settled d p ids s : finished d p ids s → settled d p (as_db s) (as_pool s).
Proof. intros (s1 & Ha & -> & Hwf & Hm). by eapply after_settled. Qed.

Lemma marks_run d p ids s :
  after d p ids s →
  wp markFromCachedSignedAnchors (λ _, finished d p ids) (λ s', finished d p ids s' ∧ ¬ smooth) s.
Proof.
  intros Ha. unfold markFromCachedSignedAnchors. apply aud_bind, aud_query_or_refuse.
  2:{ intros s1 Hs1 Hns. split; [|done]. apply after_finished. by eapply after_alike. }
  intros s1 Hs1. apply aud_bind, signed_marks_runs. intros marks s2 Hs2 Hm. pose proof (alike_trans _ _ _ Hs1 Hs2) as Hs.
  pose proof (after_alike d p _ _ _ Hs Ha) as Ha2. pose proof Hs as [Hd Hp].
  apply aud_bind. eapply aud_mono; [eapply (mark_batches_runs (λ b, ∃ a, a ∈ ListTrackedSuiteAnchors (as_db s) ∧ sniffs (as_pool s) a ∧ base_key (ta_suite a) = b))|..].
  - intros m Hin. destruct (Hm m Hin) as (a & ? & Hsn & ->). exists a. split_and!; [done| |done]. destruct Hs1 as [_ Hp1]. by rewrite Hp1 in Hsn.
  - rewrite Hd. apply Ha.
  - intros _ s3 (Hp3 & Hwf3 & Hm3). apply aud_ret. exists s. rewrite Hd in Hm3. split_and!; [done|congruence|done|done].
  - intros s3 [(Hp3 & Hwf3 & Hm3) Hns]. split; [|done]. exists s. rewrite Hd in Hm3. split_and!; [done|congruence|done|done].
Qed.

Lemma audit_runs fuel s :
  wf (as_db s) → (size (audit_t (as_db s)) < fuel)%nat →
  let d := as_db s in let p := as_pool s in
  wp (RunLegacyTrustAudit fuel)
    (λ res s', (smooth → looks_mounted d p) ∧ ∃ ids, finished d p ids s' ∧ counts d p ids res ∧
       (smooth → ∀ id, id ∈ audit_t (as_db s') → id <= 0))
    (λ s', (smooth → ¬ looks_mounted d p) ∧ ∃ ids, finished d p ids s') s.
Proof.
  intros Hwf Hf d p. unfold RunLegacyTrustAudit. apply aud_bind. eapply aud_mono; [apply preflight_runs|cbn beta|cbn beta].
  2:{ intros s1 [[Hd Hp] Hm]. split; [done|]. exists []. by apply after_finished, after_start. }
  intros _ s1 [[Hd Hp] Hm]. apply aud_bind.
  eapply aud_mono; [apply (audit_loop_runs d p fuel 0 [] no_result s1 (λ s', ∃ ids, after d p ids s' ∧ ¬ smooth))|cbn beta|cbn beta].
  - by apply after_start.
  - by split_and!.
  - apply (Nat.le_lt_trans _ (size (audit_t d))); [|done]. rewrite Hd. unfold queue_after. rewrite length_sort_by.
    unfold size, set_size. cbn. apply List.filter_length_le.
  - by intros _ id _.
  - intros ids s2 Ha Hns. by exists ids.
  - intros res s2 (ids & Ha & Hcnt & Hq). apply aud_bind.
    eapply aud_mono; [by apply (marks_run d p ids)|cbn beta|cbn beta].
    + intros n s3 Hfin. apply aud_ret. split; [exact Hm|]. exists ids. split; [done|]. split; [exact Hcnt|]. intros Hsm id Hid.
      destruct Hfin as (s4 & Ha4 & _ & _ & [(Eaud & _) _ _]). rewrite Eaud in Hid. apply (Hq Hsm).
      apply (after_queue d p ids s2 id Ha). by apply (after_queue d p ids s4 id Ha4).
    + intros s3 [Hfin Hns]. split; [done|]. by exists ids.
  - intros s2 (ids & Ha & Hns). split; [done|]. exists ids. by apply after_finished.
Qed.

(** C10. The audit proves or quarantines.  Whatever reads, writes, removals fail and
    whichever snapshots' audits panic, the run ends, and of every queued snapshot:
    it is still queued and as it was, or it is trusted - detached, unsigned, or with
    a stored anchor of the right hash whose signed text declares all that its bytes
    declare, in the pool as it was at the start - and as it was, or it is not, is
    nobody's current snapshot and retired.  No other snapshot changes; a suite loses
    its pointer only with a snapshot that is not trusted; a file or a cached row
    goes only for bytes that do not have their hash; and a base is marked as signed
    only on a signed text or a signed anchor. *)
Theorem audit_proves_or_quarantines fuel s :
  wf (as_db s) → (size (audit_t (as_db s)) < fuel)%nat →
  let r := RunLegacyTrustAudit fuel s in
  r.1 ≠ Spent ∧ settled (as_db s) (as_pool s) (as_db r.2) (as_pool r.2).
Proof.
  intros Hwf Hf r. pose proof (audit_runs fuel s Hwf Hf) as Hr. unfold wp in Hr. subst r.
  destruct (RunLegacyTrustAudit fuel s) as [[res| |] s']; [| |done]; (split; [done|]).
  - destruct Hr as (_ & ids & Hfin & _). by eapply finished_settled.
  - destruct Hr as (_ & ids & Hfin). by eapply finished_settled.
Qed.

(** The anchor's file was read whole, and its bytes are not those of its name. *)
Definition corrupt (p : gmap string string) (h : string) : Prop :=
  ∃ c, p !! h = Some c ∧ len c <= legacyAuditAnchorCap ∧ sha256 c ≠ h.

Lemma verdict_corrupt d p id x h :
  snap_t d !! id = Some x → ss_form x = FormInline → ss_inrelease x = Some h → corrupt p h →
  lv_dropAnchorRows (verdict d p id) = true.
Proof.
  intros Hx Hf Hi (c & Hc & Hlen & Hne). unfold verdict, judged, audit_item. rewrite Hx. cbn. rewrite Hf. cbn. rewrite Hi.
  unfold read_file. rewrite Hc, (proj2 (Z.ltb_ge _ _) Hlen). cbn. by rewrite (proj2 (String.eqb_neq _ _) Hne).
Qed.

(** C17. An audit in peace leaves no doubt.  Where nothing fails and the pool looks
    like the database's, the run answers; the queue is empty and every snapshot of
    it counted once, none of them as deferred and as quarantined exactly those that
    are not trusted; and of an anchor whose bytes were not those of its hash neither
    the file nor any cached row of it is left, unless a snapshot of the queue that
    is not audited by its bytes has the same. *)
Theorem peaceful_audit_drains fuel s :
  wf (as_db s) → (size (audit_t (as_db s)) < fuel)%nat → smooth → looks_mounted (as_db s) (as_pool s) →
  (∀ id, id ∈ audit_t (as_db s) → 0 < id) →
  ∃ res s', RunLegacyTrustAudit fuel s = (Returned res, s') ∧ audit_t (as_db s') = ∅ ∧
    Audited res = Z.of_nat (size (audit_t (as_db s))) ∧ Deferred res = 0 ∧
    (∃ bad, NoDup bad ∧ Quarantined res = Z.of_nat (length bad) ∧
       ∀ id, id ∈ bad ↔ id ∈ audit_t (as_db s) ∧ ∃ x, snap_t (as_db s) !! id = Some x ∧ ¬ trusted (as_pool s) x) ∧
    ∀ id x h, id ∈ audit_t (as_db s) → snap_t (as_db s) !! id = Some x → ss_form x = FormInline → ss_inrelease x = Some h →
      h ≠ "" → corrupt (as_pool s) h →
      (∀ id' x', id' ∈ audit_t (as_db s) → snap_t (as_db s) !! id' = Some x' → ss_inrelease x' = Some h → ss_form x' = FormInline) →
      as_pool s' !! h = None ∧ ∀ k u, url_t (as_db s') !! k = Some u → up_blob u ≠ Some h.
Proof.
  intros Hwf Hf Hsm Hmount Hpos. pose proof (audit_runs fuel s Hwf Hf) as Hr. unfold wp in Hr. cbv zeta in Hr.
  destruct (RunLegacyTrustAudit fuel s) as [[res| |] s']; [|by destruct Hr as [Hno _]; destruct (Hno Hsm)|done].
  destruct Hr as (_ & ids & (s1 & Ha & Hp & _ & [(Eaud & _ & _ & Eurl & _) _ _]) & (Hcnt & Hquar & Hdef) & Hq).
  pose proof Ha as [Hids Hnd Hdb _ [_ _ _ P4]]. specialize (Hq Hsm).
  assert (∀ id, id ∈ ids ↔ id ∈ audit_t (as_db s)) as Hall.
  { intros id. split; [apply Hids|]. intros Hid. destruct (decide (id ∈ ids)) as [|Hn]; [done|].
    assert (id ∈ audit_t (as_db s')) as Hin by (rewrite Eaud; by apply (after_queue (as_db s) (as_pool s) ids)).
    pose proof (Hq id Hin). pose proof (Hpos id Hid). lia. }
  assert (audit_t (as_db s') = ∅) as Hempty.
  { apply set_eq. intros id. rewrite Eaud, (after_queue _ _ _ _ id Ha), Hall. set_solver. }
  assert (audit_t (as_db s) = list_to_set ids) as Hset by (apply set_eq; intros id; by rewrite elem_of_list_to_set, Hall).
  exists res, s'. split_and!; [done|done| |by apply Hdef| |].
  - by rewrite Hcnt, Hset, size_list_to_set.
  - exists (List.filter (quarantines_id (as_db s) (as_pool s)) ids). split_and!.
    + apply NoDup_ListNoDup, List.NoDup_filter, NoDup_ListNoDup, Hnd.
    + exact Hquar.
    + intros id. rewrite list_elem_of_In, filter_In, <-list_elem_of_In, Hall. split; intros [Hid Hb]; (split; [done|]).
      * destruct (snap_t (as_db s) !! id) as [x|] eqn:Hx; [exists x; split; [done|by eapply untrusted]|].
        unfold quarantines_id, verdict, judged, audit_item in Hb. by rewrite Hx in Hb.
      * destruct Hb as (x & Hx & Ht). by apply (untrusted _ _ id x Hx).
  - intros id x h Hid Hx Hform Hi Hne Hcor Hothers. pose proof (verdict_corrupt _ _ _ _ _ Hx Hform Hi Hcor) as Hv.
    assert (anchor_of (as_db s) id = Some h) as Hanc by (unfold anchor_of; by rewrite Hx). split.
    + rewrite Hp. destruct (P4 id h Hsm (proj2 (Hall id) Hid) Hv Hanc) as [?|(i & Hi' & Hai & Hw)]; [done|].
      destruct Hw as [Hw|Hw]; [by destruct Hw; apply Hall|]. unfold anchor_of in Hai.
      destruct (snap_t (as_db s) !! i) as [x'|] eqn:Hx'; [|done]. cbn in Hai.
      rewrite (verdict_corrupt _ _ _ _ _ Hx' (Hothers i x' Hi' Hx' Hai) Hai Hcor) in Hw. done.
    + intros k u. rewrite Eurl, (ap_url _ _ _ Hdb). destruct (url_t (as_db s) !! k) as [u0|]; [|done]. cbn [mbind option_bind].
      destruct (dropped_row _ _ u0) eqn:Hdr; [done|]. intros [= <-] Hb. apply not_true_iff_false in Hdr. apply Hdr.
      apply existsb_exists. exists (ruling (as_db s) (as_pool s) id). split; [apply in_map; by apply list_elem_of_In, Hall|].
      rewrite ruling_id, Hanc. change (la_drop_rows (ruling (as_db s) (as_pool s) id)) with (lv_dropAnchorRows (verdict (as_db s) (as_pool s) id)).
      rewrite Hv, (proj2 (String.eqb_neq _ _) Hne). cbn. by apply bool_decide_eq_true.
Qed.

End whole.

Section lost.
Context `{Startup} `{TableScan}.

(** The pre-flight only reads: it does not see how writes end. *)
Definition reading : Startup := {|
  unix_now := unix_now; write_ends := λ _, Written; read_fails := read_fails; file_fails := file_fails;
  remove_fails := λ _, false; audit_panics := λ _, false; pool_root := pool_root;
  clearsign_decode := clearsign_decode; sha256 := sha256 |}.

(** C21. A lost pool is refused.  If the reads succeed and the pool does not look like
    the database's - none of the queued anchors' files is there, nor one of the
    sample of other pinned files, though there are two or more to look for, or
    pool/ is empty or unreadable - the run ends in the error before it changes
    anything; if it looks like it, the pre-flight lets the run go on. *)
Theorem lost_pool_refused fuel s :
  (∀ n, read_fails n = false ∧ file_fails n = false) →
  (¬ looks_mounted (as_db s) (as_pool s) →
    (RunLegacyTrustAudit fuel s).1 = Refused ∧ alike s (RunLegacyTrustAudit fuel s).2) ∧
  (looks_mounted (as_db s) (as_pool s) → (preflightLegacyAudit s).1 = Returned tt).
Proof.
  intros Hok. assert (@smooth reading) as Hsm by (intros n; destruct (Hok n); by split_and!).
  pose proof (@preflight_runs reading s) as Hr. unfold wp in Hr.
  change (@preflightLegacyAudit reading s) with (preflightLegacyAudit s) in Hr.
  change (@looks_mounted reading) with looks_mounted in Hr.
  unfold RunLegacyTrustAudit. destruct (preflightLegacyAudit s) as [[[]| |] s'] eqn:Hpre; [| |done].
  - destruct Hr as [Hal Hm]. split; [intros Hn; destruct Hn; by apply Hm|done].
  - destruct Hr as [Hal Hm]. split; [|intros Hl; by destruct (Hm Hsm)]. intros _. unfold mbind, au_bind. by rewrite Hpre.
Qed.
End lost.

(** ** An audit of two snapshots

    Both of a suite's snapshots are queued: the first has a signed anchor, the
    bytes of the second's have rotted. *)
Module Demo.

Definition nl : string := String "010" "".
Definition release : string := Eval vm_compute in
  "Suite: stable" +:+ nl +:+ "SHA256:" +:+ nl +:+ " " +:+ hashB +:+ " 20 main/binary-amd64/Packages" +:+ nl.
Definition signed_release : string := Eval vm_compute in
  clearsignBegin +:+ nl +:+ "Hash: SHA512" +:+ nl +:+ nl +:+ release +:+ "-----BEGIN PGP SIGNATURE-----" +:+ nl.

Definition digest (b : string) : string := if (b =? signed_release)%string then hashA else hashD.

Definition quiet : Startup := {|
  unix_now := λ _, 5000; write_ends := λ _, Written; read_fails := λ _, false; file_fails := λ _, false;
  remove_fails := λ _, false; audit_panics := λ _, false; pool_root := Some true;
  clearsign_decode := λ _, Some release; sha256 := digest |}.

Definition queued : DB := run (EnqueueLegacyTrustAudit [1; 2]) displaced.
Definition start (p : gmap string string) : AState := {| as_db := queued; as_pool := p; as_tick := 0 |}.
Definition pool : gmap string string := {[ hashA := signed_release; hashC := "rotten" ]}.

Lemma wf_queued : wf queued.
Proof. apply wf_run; [apply wf_EnqueueLegacyTrustAudit|apply wf_displaced]. Qed.

Lemma quiet_smooth : @smooth quiet.
Proof. intros n. by split_and!. Qed.

Lemma queued_anchors_eq : queued_anchors (LegacyAuditBatch queued 0 0) = [hashA; hashC].
Proof. vm_compute. reflexivity. Qed.

Lemma queued_others_eq : PinnedBlobsOutsideAuditQueue queued legacyAuditPoolSample = [hashB].
Proof. vm_compute. reflexivity. Qed.

Lemma audit_proves_or_quarantines_witness :
  let r := @RunLegacyTrustAudit quiet key_order_scan 5 (start pool) in
  (elements (audit_t (as_db r.2)), suite_current (as_db r.2) stable, ss_retired <$> snap_t (as_db r.2) !! 1,
   ss_retired <$> snap_t (as_db r.2) !! 2) = ([], None, Some None, Some (Some 5000)) ∧
  @settled quiet key_order_scan queued pool (as_db r.2) (as_pool r.2).
Proof.
  split; [vm_compute; reflexivity|].
  apply (@audit_proves_or_quarantines quiet key_order_scan 5 (start pool) wf_queued). vm_compute. lia.
Defined.

Lemma peaceful_audit_drains_witness :
  corrupt (H := quiet) pool hashC ∧
  ∃ res s', @RunLegacyTrustAudit quiet key_order_scan 5 (start pool) = (Returned res, s') ∧
    audit_t (as_db s') = ∅ ∧ Audited res = 2 ∧ as_pool s' !! hashC = None.
Proof.
  assert (corrupt (H := quiet) pool hashC) as Hcor.
  { exists "rotten". split; [reflexivity|]. split; [vm_compute; discriminate|]. vm_compute. discriminate. }
  split; [exact Hcor|].
  destruct (@peaceful_audit_drains quiet key_order_scan 5 (start pool) wf_queued) as (res & s' & Hrun & Hq & Hn & _ & _ & Hrot).
  - vm_compute. lia.
  - exact quiet_smooth.
  - right. split; [reflexivity|]. left. exists hashA. change (as_db (start pool)) with queued. rewrite queued_anchors_eq.
    split; [left|]. by exists signed_release.
  - assert (elements (audit_t queued) = [2; 1]) as He by (vm_compute; reflexivity).
    intros id Hid. apply elem_of_elements in Hid. change (as_db (start pool)) with queued in Hid. rewrite He in Hid.
    apply elem_of_cons in Hid as [->|Hid]; [lia|]. apply list_elem_of_singleton in Hid as ->. lia.
  - exists res, s'. split; [exact Hrun|]. split; [exact Hq|]. split; [rewrite Hn; vm_compute; reflexivity|].
    change (as_db (start pool)) with queued in Hrot. change (as_pool (start pool)) with pool in Hrot.
    assert (bool_decide (map_Forall (λ _ x, ss_form x = FormInline) (snap_t queued)) = true) as Hforms by (vm_compute; reflexivity).
    apply bool_decide_eq_true in Hforms.
    assert (ss_inrelease <$> snap_t queued !! 2 = Some (Some hashC)) as H2 by (vm_compute; reflexivity).
    destruct (snap_t queued !! 2) as [x|] eqn:Hx; [|discriminate H2]. injection H2 as H2.
    refine (proj1 (Hrot 2 x hashC _ Hx (Hforms _ _ Hx) H2 _ Hcor _)).
    + apply elem_of_elements. vm_compute. left.
    + discriminate.
    + intros id' x' _ Hx' _. exact (Hforms _ _ Hx').
Defined.

Lemma lost_pool_refused_witness :
  (@RunLegacyTrustAudit quiet key_order_scan 5 (start {[ hashD := "?" ]})).1 = Refused ∧
  (@preflightLegacyAudit quiet (start pool)).1 = Returned tt.
Proof.
  split.
  - refine (proj1 (proj1 (@lost_pool_refused quiet key_order_scan 5 (start {[ hashD := "?" ]}) (λ _, conj eq_refl eq_refl)) _)).
    unfold looks_mounted. cbn [start as_db as_pool]. rewrite queued_anchors_eq, queued_others_eq.
    intros [Hno|[_ [(h & Hh & Hin)|Hlen]]]; [discriminate Hno| |cbn in Hlen; lia].
    apply lookup_singleton_is_Some in Hin. subst h. revert Hh. by apply (bool_decide_eq_false (hashD ∈ [hashA; hashC] ++ [hashB])); vm_compute.
  - refine (proj2 (@lost_pool_refused quiet key_order_scan 5 (start pool) (λ _, conj eq_refl eq_refl)) _).
    right. split; [reflexivity|]. left. exists hashA. cbn [start as_db as_pool]. rewrite queued_anchors_eq. split; [left|]. by exists signed_release.
Defined.
End Demo.
